(* ===== verification/_CoqProject ===== *)
-Q . S2P
Prelude.v
Types.v
Ieee.v
Finite.v
Text.v
Codec.v
Cast.v
Decimal.v
Expr.v
Typing.v
Fold.v
Key.v
Plan.v
Sort.v
Query.v
Bind.v
Page.v
Wal.v
Disk.v
Recovery.v
State.v
Node.v
Pool.v
Diff.v
PoolSpec.v
Txn.v
Session.v
Shape.v
Tree.v
TreeSpec.v
Insert.v
Scan.v
Engine.v
Rollback.v
Table.v
Rows.v
Scanner.v
Serve.v
Stmt.v
Meta.v
Tables.v
Analyze.v
Analyzed.v
Explain.v
Catalog.v
Ddl.v
Dml.v
Proto.v
Exec.v
Database.v
Answers.v
Writes.v
InTxn.v
Reply.v
Client.v
Server.v
Broken.v
Config.v
Args.v
Flex.v
Lexer.v
Grammar.v
Parsing.v
