(* ===== verification/Prelude.v ===== *)
(** * A verified model of my_simple_db

    The program (src/src, C++) is a single-node SQL database: a server takes statements over TCP, parses, binds and
    plans them, and executes them over a storage engine with a write-ahead log, a buffer pool, heap tables and B+ tree
    indexes. This library translates the parts that decide what the database answers and what it keeps, bottom up, and
    proves them correct. Every definition keeps the name of the function it translates.

    ** The parts, and the files that model them

    - Values. [Types] (storage/types.h), [Ieee] and [Finite] (the machine's binary32/64 arithmetic, which the C++ uses
      as such; all values that reach a table are finite), [Text] (text of numbers: std::from_chars and std::to_chars),
      [Cast] (storage/cast.cpp: the cast table and every cast, decimal parsing and printing), [Decimal] (the decimal
      arithmetic of expr/expr_eval.cpp and expr_func_math.cpp).
    - Expressions. [Expr] (expr/: evaluation of bound expressions and of the built-in functions), [Typing] and [Bind]
      (analyzer/analyzer_expr.cpp: binding of parsed expressions, with the types the evaluator relies on).
    - Planning. [Plan] (planner/planner.cpp, filter_prune.cpp, index_select.cpp: plan trees and passes), [Fold]
      (const_fold.cpp, bool_simplify.cpp), [Key] (key encoding and the ranges a predicate gives: storage/btree.cpp and
      planner/index_select.cpp), [Sort] and [Query] (executor/operator.cpp: the operators, as streams of rows over the
      interface [Query.Storage]).
    - Storage. [Codec] (storage/codec.cpp: row records), [Page] (page.cpp: slotted pages and their checksum), [Wal]
      (wal.cpp: the log's bytes and its reader), [Disk] (file_manager.cpp: data files as byte lists), [Recovery]
      (recovery.cpp), [Pool] (buffer_pool.cpp), [Node] and [Tree] (btree.cpp: the layout of leaves and internal nodes;
      descent, insertion, splits, the range scanner), [Engine] (engine.cpp: transactions, table files, rows, scanners,
      index files).
    - Proofs about the storage: [Diff] (page diffs), [PoolSpec] and [Txn] (the pool as a map of pages), [Session] (what a
      client of the pool leaves unchanged), [Shape], [TreeSpec], [Insert] and [Scan] (the B+ tree as a sorted list),
      [Rollback] (what a rollback restores), [Table], [Rows] and [Scanner] (table files as lists of rows, and their scan),
      [Serve] (the engine as the operators' storage).
    - The catalog. [Meta] (catalog/catalog_meta.cpp: the metadata tables' rows), [Catalog] (catalog.cpp, catalog_ddl.cpp,
      catalog_dml.cpp: lookup by name, DDL, rows with their indexes, bootstrap and opening), and their proofs: [Tables],
      [Ddl] and [Dml].
    - Statements. [Stmt] (parser/ast.hh, ast_print.hxx), [Analyze] (analyzer/: every statement), [Analyzed] (its
      soundness), [Explain] (executor/explain.cpp), [Exec] (executor/executor.cpp: a statement from its syntax to its
      result over the catalog), [Database] (what a database at rest is, and what its catalog answers), [Answers] (a SELECT from
      its text to its rows), [Writes] (an INSERT from its text to the pages), [InTxn] (an execution stays inside its
      transaction).
    - The server and the client. [Proto] (proto/proto.h: frames and bodies), [Reply] (server/session.cpp: what is sent),
      [Server] (session.cpp: a session's loop, and the sessions that share the catalog), [Client] (client/client.cpp,
      render.cpp: what is received and shown), [Broken] (statements that fail, on a bootstrapped database).

    ** How state and effects are modelled

    A [DbError] is [Raise code], the end of the process (DB_CRITICAL, an uncaught failure) is [Fatal]; pure code returns
    [result]. The storage layer runs in the state-and-error monad of [State]: an exception keeps the state reached, as
    in C++, and a destructor that runs while an exception passes is [unwinding]. Each layer's state is a record of the
    layer below ([Pool.Store] in [Tree.TreeState] and in [Engine.Engine]); pages are lists of 4096 bytes and every
    header field is read and written at its offset and width. A frame of the pool is its index; pointers into it are that
    index. Integers are Z, wrapped where the C++ type wraps.
    Interfaces: [Query.Storage] (what the operators ask of the engine), [Plan.Indexes] (what the planner asks of the
    catalog), [Analyze.Directory] (what the analyzer does), [Explain.TypeNames], [Proto.Stream] (a stream socket),
    [Shape.Subtree] (what a subtree promises its parent); clients are proved against them, and [Serve], [Exec] and
    [Proto] give the instances.
    Concurrency: a session runs in a thread of its own, and every statement runs under the catalog's one lock. A step of
    [Server.step] is one whole turn of one session; a turn that would wait for the lock is not a step. The replies a
    session has sent and how many more its peer takes ([Reply.Peer]) are part of the state.

    ** What the theorems show

    - Recovery ([Recovery]): replaying the log yields exactly the committed effects, and can be interrupted and run again.
      A torn log tail is cut at the last whole record ([Wal]).
    - Rows and pages: records round trip, the decoder is safe on any bytes, exactly the storable rows are accepted
      ([Codec]); the heap page refines a list of records ([Page]); page diffs redo and undo exactly ([Diff]).
    - The pool refines a map of pages whatever the clock evicts, and eviction finds a frame when there is one ([Txn],
      [PoolSpec]).
    - The B+ tree refines a sorted list: insertion adds the entry and keeps shape, order, leaf chain and every other
      page ([Insert]); the range scanner terminates with exactly the entries in range ([Scan]).
    - Transactions: rollback restores every page and every tail page ([Rollback.rollback_restores]); one run in which a
      committed row is lost after a rollback is exhibited ([Rollback.lost_row_after_rollback]).
    - Numbers: decimal arithmetic is exact up to its stated rounding, casts yield the type they promise, numeric
      coercion rounds as specified except where the program errs ([Decimal], [Cast]).
    - The catalog: an inserted row has its entry in every index of its table ([Dml.insert_keeps_indexes]), a table that was
      created is found with its columns ([Ddl.create_table_found]), and a bootstrapped database describes itself
      ([Ddl.bootstrap_describes_itself]); the engine is the storage that the operators' theorems ask for
      ([Serve.engine_serves]).
    - Statements, from their syntax to the pages: a SELECT on a database at rest gives the names and the rows its clauses
      mean, whatever plan was chosen ([Answers.select_answers]); an INSERT adds its rows, leaves the table in step with its
      indexes and the database at rest ([Writes.insert_executes]), so the two compose over a script of statements. What
      the analyzer accepts is typed ([Analyzed.analyzed_statements_typed]). Sessions follow their
      protocol, share one catalog with at most one transaction at a time, and an error leaves what [Server] says.
    - The wire: bodies and frames round trip over any split of the stream ([Proto]); a result set reaches the client whole
      or not at all, and a value is shown as a cast to text would write it ([Client]).
    - Queries: a bound expression never fails with a type error ([Bind]); folding and boolean simplification keep the
      value ([Fold]); the ranges of a predicate hold exactly the keys that satisfy it ([Key]); the optimiser keeps the
      rows of SELECT, DELETE and UPDATE ([Query]).

    ** Bounds and fuel

    The recursion of [Tree.insert_rec] has fuel one more than the number of frames: each level pins a frame, so a deeper
    descent fails in the pool first. [Engine.append_loop] has fuel 2: a fresh page takes any record that is not too
    long ([Table.append_ok]). The clock of [Pool.evict] makes two turns. [Pool.diff_loop] has one unit per word of a
    page. Walks along a chain of pages or leaves and the scanners take their fuel as a parameter, and their theorems say
    how much is enough (the number of pages, leaves and rows). Page numbers are assumed to stay below 2^32.

    ** Not modelled

    Sockets, signals, the accept loop, daemonisation and the pid file (server/server.cpp, net.cpp): system calls. The
    flex and bison grammar (generated; the parser is an argument of [Server]) and the client's line scanner. The log
    writer, whose lines nothing reads back (log/log.cpp); the wording of error messages. Configuration files and the
    command-line tools (config/, tool/, utils/, client/parse_args.cpp). Failures of the operating system (short
    writes, fsync errors) and the file descriptor cache. *)
From stdpp Require Export base gmap list strings option.
From Stdlib Require Export ZArith Lia.

#[global] Set Default Goal Selector "!".
#[global] Open Scope Z_scope.

(** * Errors: src/common/err.h *)
Module Err.

(** [db::ErrCode] *)
Inductive ErrCode :=
| IoError | CatalogMissing | CatalogExists | InvalidType | TableNotFound | TableExists
| SchemaNotFound | SchemaExists | SchemaNotEmpty | IndexExists | IndexNotFound
| ProtectedTable | InvalidDdl | ValueMismatch | RecordTooLong | ArithError
| UnknownColumn | UnknownVar | UnknownFunction | InvalidVarValue | UnknownStmt
| NotImplemented | Internal | SyntaxError | TxnActive | NoActiveTxn | DdlInTxn
| BootstrapMode | TooManyClients | StarNoFrom.

#[export] Instance ErrCode_eq_dec : EqDecision ErrCode.
Proof. solve_decision. Defined.

End Err.
Export Err.

(** The outcome of a C++ call: [Ok] for a normal return, [Raise c] for [DB_RAISE] (a
    [DbError] of code [c] is thrown, the caller survives), [Fatal] for [DB_CRITICAL] and
    [DB_CRASH] (the process ends). Message texts are log output and are not kept. *)
Inductive result (A : Type) : Type :=
| Ok (a : A)
| Raise (c : ErrCode)
| Fatal.
Arguments Ok {A} _.
Arguments Raise {A} _.
Arguments Fatal {A}.

#[export] Instance result_ret : MRet result := fun A a => Ok a.
#[export] Instance result_bind : MBind result := fun A B f r =>
  match r with Ok a => f a | Raise c => Raise c | Fatal => Fatal end.
#[export] Instance result_eq_dec {A} `{EqDecision A} : EqDecision (result A).
Proof. solve_decision. Defined.

Definition is_ok {A} (r : result A) : bool := match r with Ok _ => true | _ => false end.

(** [std::get<T>] and the like on a missing alternative: the default of an impossible read. *)
Definition guard_raise {A} (b : bool) (c : ErrCode) (k : result A) : result A :=
  if b then Raise c else k.

Lemma bind_ok {A B} (r : result A) (f : A -> result B) b :
  (r ≫= f) = Ok b -> exists a, r = Ok a /\ f a = Ok b.
Proof. destruct r; simpl; [eauto | discriminate..]. Qed.

Lemma guard_raise_ok {A} b c (k : result A) a : guard_raise b c k = Ok a -> b = false /\ k = Ok a.
Proof. destruct b; simpl; [discriminate | auto]. Qed.

(** Monadic map over a list, left to right, stopping at the first error. *)
Fixpoint mapM {A B} (f : A -> result B) (l : list A) : result (list B) :=
  match l with
  | [] => Ok []
  | x :: l => y ← f x; ys ← mapM f l; Ok (y :: ys)
  end.

Lemma mapM_ok {A B} (f : A -> result B) l ys :
  mapM f l = Ok ys <-> Forall2 (fun x y => f x = Ok y) l ys.
Proof.
  revert ys; induction l as [|x l IH]; intros ys; simpl.
  - split; intros H; [by simplify_eq | by inversion H].
  - split.
    + intros (y & Hy & (ys' & Hys & [= <-])%bind_ok)%bind_ok. constructor; [done | by apply IH].
    + intros H; inversion H as [|? y ? ys' Hy Hr]; subst. apply IH in Hr. by rewrite Hy, Hr.
Qed.

Definition is_nil {A} (l : list A) : bool := match l with [] => true | _ => false end.
Lemma is_nil_true {A} (l : list A) : is_nil l = true <-> l = [].
Proof. by destruct l. Qed.

(** Filtering respects permutations. *)
#[export] Instance list_filter_perm {A} (P : A -> bool) : Proper (Permutation ==> Permutation) (List.filter P).
Proof.
  intros l l' H. induction H as [|x l l' _ IH|x y l|l l2 l3 _ IH1 _ IH2]; cbn [List.filter]; [done|..].
  - destruct (P x); [by constructor|done].
  - destruct (P x), (P y); try done. constructor.
  - by etrans.
Qed.

(** Unpack every successful bind of the context. *)
Ltac ok_inv :=
  repeat match goal with
  | H : (_ ≫= _) = Ok _ |- _ => let x := fresh "x" in apply bind_ok in H as (x & ? & H)
  | H : guard_raise _ _ _ = Ok _ |- _ => apply guard_raise_ok in H as [? H]
  | H : mret _ = Ok _ |- _ => injection H as H
  | H : Ok _ = Ok _ |- _ => injection H as H; try subst
  | H : Raise _ = Ok _ |- _ => discriminate H
  | H : Fatal = Ok _ |- _ => discriminate H
  | H : (if ?b then _ else _) = Ok _ |- _ => let E := fresh "E" in destruct b eqn:E
  end.

(** * Machine integers *)
Definition wrap (w z : Z) : Z := z mod 2 ^ w.
(** The signed reading of the low [w] bits. *)
Definition sgn (w z : Z) : Z := if wrap w z <? 2 ^ (w - 1) then wrap w z else wrap w z - 2 ^ w.

Definition INT32_MIN : Z := -2147483648.
Definition INT32_MAX : Z := 2147483647.
Definition INT64_MIN : Z := -9223372036854775808.
Definition INT64_MAX : Z := 9223372036854775807.
Definition UINT16_MAX : Z := 65535.

Definition in_i32 (z : Z) : bool := (INT32_MIN <=? z) && (z <=? INT32_MAX).
Definition in_i64 (z : Z) : bool := (INT64_MIN <=? z) && (z <=? INT64_MAX).

Lemma in_i32_spec z : in_i32 z = true <-> INT32_MIN <= z <= INT32_MAX.
Proof. unfold in_i32. lia. Qed.
Lemma in_i64_spec z : in_i64 z = true <-> INT64_MIN <= z <= INT64_MAX.
Proof. unfold in_i64. lia. Qed.

Lemma wrap_small w z : 0 <= z < 2 ^ w -> wrap w z = z.
Proof. apply Z.mod_small. Qed.
Lemma wrap_bound w z : 0 <= w -> 0 <= wrap w z < 2 ^ w.
Proof. intros. apply Z.mod_pos_bound. lia. Qed.
Lemma sgn32_wrap z : INT32_MIN <= z <= INT32_MAX -> sgn 32 (wrap 32 z) = z.
Proof.
  unfold sgn, wrap, INT32_MIN, INT32_MAX. change (2 ^ 32) with 4294967296.
  change (2 ^ (32 - 1)) with 2147483648. intros. rewrite Z.mod_mod by lia.
  destruct (Z.ltb_spec (z mod 4294967296) 2147483648);
    pose proof (Z.div_mod z 4294967296 ltac:(lia));
    pose proof (Z.mod_pos_bound z 4294967296 ltac:(lia)); nia.
Qed.
Lemma sgn64_wrap z : INT64_MIN <= z <= INT64_MAX -> sgn 64 (wrap 64 z) = z.
Proof.
  unfold sgn, wrap, INT64_MIN, INT64_MAX. change (2 ^ 64) with 18446744073709551616.
  change (2 ^ (64 - 1)) with 9223372036854775808. intros. rewrite Z.mod_mod by lia.
  destruct (Z.ltb_spec (z mod 18446744073709551616) 9223372036854775808);
    pose proof (Z.div_mod z 18446744073709551616 ltac:(lia));
    pose proof (Z.mod_pos_bound z 18446744073709551616 ltac:(lia)); nia.
Qed.

(** * Byte buffers: lists of bytes, with offsets in [Z] *)
Definition byte_ok (b : Z) : Prop := 0 <= b < 256.
Abbreviation bytes := (list Z) (only parsing).

Definition zlen {A} (l : list A) : Z := Z.of_nat (length l).
(** [n] elements from offset [off]. *)
Definition slice {A} (off n : Z) (l : list A) : list A := take (Z.to_nat n) (drop (Z.to_nat off) l).
(** [memcpy(l + off, bs, |bs|)]. *)
Definition splice {A} (off : Z) (bs l : list A) : list A :=
  take (Z.to_nat off) l ++ bs ++ drop (Z.to_nat off + length bs) l.

(** Little-endian layout of an unsigned integer ([memcpy] of a native field). *)
Fixpoint le_bytes (n : nat) (z : Z) : bytes :=
  match n with O => [] | S n => z mod 256 :: le_bytes n (z / 256) end.
Fixpoint le_val (bs : bytes) : Z :=
  match bs with [] => 0 | b :: bs => b + 256 * le_val bs end.

Definition get_u (n off : Z) (p : bytes) : Z := le_val (slice off n p).
Definition put_u (n off v : Z) (p : bytes) : bytes := splice off (le_bytes (Z.to_nat n) v) p.

(** A NUL-free C string literal as bytes. *)
Definition str (s : string) : bytes :=
  (fun a => Z.of_nat (Ascii.nat_of_ascii a)) <$> String.list_ascii_of_string s.

(** * Lengths, slices and splices *)
Create HintDb buf.
Create Rewrite HintDb buf.

Lemma zlen_nonneg {A} (l : list A) : 0 <= zlen l.
Proof. unfold zlen. lia. Qed.
Lemma zlen_nil {A} : zlen (@nil A) = 0.
Proof. done. Qed.
Lemma zlen_cons {A} (x : A) l : zlen (x :: l) = 1 + zlen l.
Proof. unfold zlen. rewrite length_cons. lia. Qed.
Lemma zlen_app {A} (l k : list A) : zlen (l ++ k) = zlen l + zlen k.
Proof. unfold zlen. rewrite length_app. lia. Qed.
Lemma zlen_replicate {A} n (x : A) : zlen (replicate n x) = Z.of_nat n.
Proof. unfold zlen. by rewrite length_replicate. Qed.
Lemma zlen_map {A B} (f : A -> B) l : zlen (f <$> l) = zlen l.
Proof. unfold zlen. by rewrite length_fmap. Qed.
Lemma zlen_drop {A} n (l : list A) : Z.of_nat n <= zlen l -> zlen (drop n l) = zlen l - Z.of_nat n.
Proof. unfold zlen. rewrite length_drop. lia. Qed.
Lemma zlen_slice {A} off n (l : list A) :
  0 <= off -> 0 <= n -> off + n <= zlen l -> zlen (slice off n l) = n.
Proof. unfold zlen, slice. rewrite length_take, length_drop. lia. Qed.
Lemma zlen_splice {A} off (bs l : list A) :
  0 <= off -> off + zlen bs <= zlen l -> zlen (splice off bs l) = zlen l.
Proof. unfold zlen, splice. rewrite !length_app, length_take, length_drop. lia. Qed.
Lemma length_le_bytes n z : length (le_bytes n z) = n.
Proof. revert z; induction n; simpl; auto. Qed.
Lemma zlen_le_bytes n z : zlen (le_bytes n z) = Z.of_nat n.
Proof. unfold zlen. by rewrite length_le_bytes. Qed.

#[export] Hint Rewrite @zlen_nil @zlen_cons @zlen_app @zlen_replicate @zlen_map zlen_le_bytes : buf.

(** Arithmetic on buffer lengths: normalise [zlen], then [lia]. *)
Ltac buf := autorewrite with buf in *; try lia.

Lemma lookup_slice {A} off n (l : list A) i :
  slice off n l !! i = if decide (Z.of_nat i < n) then l !! (Z.to_nat off + i)%nat else None.
Proof.
  unfold slice. case_decide.
  - rewrite lookup_take_lt by lia. apply lookup_drop.
  - apply lookup_take_ge. lia.
Qed.

Lemma lookup_splice {A} off (bs l : list A) i :
  0 <= off -> off + zlen bs <= zlen l ->
  splice off bs l !! i =
    if decide (off <= Z.of_nat i < off + zlen bs) then bs !! (i - Z.to_nat off)%nat else l !! i.
Proof.
  unfold splice, zlen. intros. case_decide.
  - rewrite lookup_app_r by (rewrite length_take; lia).
    rewrite lookup_app_l by (rewrite length_take; lia). f_equal. rewrite length_take. lia.
  - destruct (decide (Z.of_nat i < off)).
    + rewrite lookup_app_l by (rewrite length_take; lia). apply lookup_take_lt. lia.
    + rewrite lookup_app_r by (rewrite length_take; lia).
      rewrite lookup_app_r by (rewrite length_take; lia).
      rewrite lookup_drop. f_equal. rewrite length_take. lia.
Qed.

(** The slice just written is the written bytes. *)
Lemma slice_splice_eq {A} off (bs l : list A) :
  0 <= off -> off + zlen bs <= zlen l -> slice off (zlen bs) (splice off bs l) = bs.
Proof.
  intros. apply list_eq. intros i. rewrite lookup_slice. case_decide.
  - rewrite lookup_splice by lia. rewrite decide_True by lia. f_equal. lia.
  - symmetry. apply lookup_ge_None. unfold zlen in *. lia.
Qed.

(** A slice that the write does not touch is unchanged. *)
Lemma slice_splice_ne {A} off off' n (bs l : list A) :
  0 <= off -> off + zlen bs <= zlen l -> 0 <= off' ->
  off' + n <= off \/ off + zlen bs <= off' ->
  slice off' n (splice off bs l) = slice off' n l.
Proof.
  intros. apply list_eq. intros i. rewrite !lookup_slice. case_decide; [|done].
  rewrite lookup_splice by lia. rewrite decide_False by lia. done.
Qed.

(** A slice inside the written range. *)
Lemma slice_splice_in {A} off off' n (bs l : list A) :
  0 <= off -> off + zlen bs <= zlen l -> off <= off' -> 0 <= n -> off' + n <= off + zlen bs ->
  slice off' n (splice off bs l) = slice (off' - off) n bs.
Proof.
  intros. apply list_eq. intros i. rewrite !lookup_slice. case_decide; [|done].
  rewrite lookup_splice by lia. rewrite decide_True by lia. f_equal. lia.
Qed.

Lemma splice_slice_id {A} off n (l : list A) :
  0 <= off -> 0 <= n -> off + n <= zlen l -> splice off (slice off n l) l = l.
Proof.
  intros. pose proof (zlen_slice off n l). apply list_eq. intros i.
  rewrite lookup_splice by lia. case_decide; [|done].
  rewrite lookup_slice, decide_True by lia. f_equal. lia.
Qed.

Lemma splice_splice_eq {A} off (bs bs' l : list A) :
  0 <= off -> zlen bs = zlen bs' -> off + zlen bs <= zlen l ->
  splice off bs (splice off bs' l) = splice off bs l.
Proof.
  intros. apply list_eq. intros i.
  rewrite !lookup_splice by (rewrite ?zlen_splice; lia).
  case_decide; [done|]. rewrite decide_False by lia. done.
Qed.

Lemma splice_splice_comm {A} off off' (bs bs' l : list A) :
  0 <= off -> 0 <= off' -> off + zlen bs <= zlen l -> off' + zlen bs' <= zlen l ->
  off + zlen bs <= off' \/ off' + zlen bs' <= off ->
  splice off bs (splice off' bs' l) = splice off' bs' (splice off bs l).
Proof.
  intros. apply list_eq. intros i.
  rewrite !lookup_splice by (rewrite ?zlen_splice; lia).
  repeat case_decide; done || lia.
Qed.

Lemma splice_full {A} (bs l : list A) : zlen bs = zlen l -> splice 0 bs l = bs.
Proof.
  unfold splice, zlen. intros. simpl. rewrite drop_ge by lia. by rewrite app_nil_r.
Qed.

Lemma slice_full {A} (l : list A) n : n = zlen l -> slice 0 n l = l.
Proof. intros ->. unfold slice, zlen. simpl. rewrite drop_0, take_ge; [done | lia]. Qed.

Lemma slice_app_l {A} n (l k : list A) : n = zlen l -> slice 0 n (l ++ k) = l.
Proof. intros ->. unfold slice, zlen. simpl. rewrite drop_0. by rewrite take_app_length' by lia. Qed.

Lemma slice_app_r {A} off n (l k : list A) :
  zlen l <= off -> slice off n (l ++ k) = slice (off - zlen l) n k.
Proof.
  intros. unfold slice, zlen in *. rewrite drop_app_ge by lia. do 3 f_equal. lia.
Qed.

Lemma slice_app_lo {A} off n (l k : list A) :
  0 <= off -> 0 <= n -> off + n <= zlen l -> slice off n (l ++ k) = slice off n l.
Proof.
  intros. apply list_eq. intros i. rewrite !lookup_slice. case_decide; [|done].
  rewrite lookup_app_l; [done|]. unfold zlen in *. lia.
Qed.

Lemma slice_slice {A} off n off' n' (l : list A) :
  0 <= off -> 0 <= off' -> off' + n' <= n ->
  slice off' n' (slice off n l) = slice (off + off') n' l.
Proof.
  intros. apply list_eq. intros i. rewrite !lookup_slice. case_decide; [|done].
  rewrite decide_True by lia. f_equal. lia.
Qed.

Lemma slice_split {A} off n m (l : list A) :
  0 <= off -> 0 <= n -> 0 <= m -> off + n + m <= zlen l ->
  slice off (n + m) l = slice off n l ++ slice (off + n) m l.
Proof.
  intros. apply list_eq. intros i.
  pose proof (zlen_slice off n l ltac:(lia) ltac:(lia) ltac:(lia)) as Hl. unfold zlen in Hl.
  destruct (decide (Z.of_nat i < n)).
  - rewrite lookup_app_l by lia. rewrite !lookup_slice. by rewrite !decide_True by lia.
  - rewrite lookup_app_r by lia. rewrite !lookup_slice.
    destruct (decide (Z.of_nat i < n + m)).
    + rewrite decide_True by lia. f_equal. lia.
    + by rewrite decide_False by lia.
Qed.

Lemma Forall_splice {A} (P : A -> Prop) off bs l :
  Forall P bs -> Forall P l -> Forall P (splice off bs l).
Proof.
  intros. unfold splice. repeat apply Forall_app_2; auto using Forall_take, Forall_drop.
Qed.
Lemma Forall_slice {A} (P : A -> Prop) off n l : Forall P l -> Forall P (slice off n l).
Proof. intros. unfold slice. auto using Forall_take, Forall_drop. Qed.

(** * Little-endian fields *)
Lemma le_val_bytes n z : le_val (le_bytes n z) = z mod 256 ^ Z.of_nat n.
Proof.
  revert z; induction n as [|n IH]; intros z; simpl le_bytes; simpl le_val.
  - by rewrite Z.mod_1_r.
  - rewrite IH, Nat2Z.inj_succ, Z.pow_succ_r by lia.
    rewrite (Z.rem_mul_r z 256 (256 ^ Z.of_nat n)); lia.
Qed.

Lemma le_val_bytes_small n z : 0 <= z < 256 ^ Z.of_nat n -> le_val (le_bytes n z) = z.
Proof. intros. rewrite le_val_bytes. by apply Z.mod_small. Qed.

Lemma le_bytes_ok n z : Forall byte_ok (le_bytes n z).
Proof.
  revert z; induction n; intros z; simpl; constructor; auto.
  unfold byte_ok. pose proof (Z.mod_pos_bound z 256). lia.
Qed.

Lemma str_bytes s : Forall byte_ok (str s).
Proof.
  unfold str. apply list.Forall_forall. intros z (a & -> & _)%list_elem_of_fmap. pose proof (Ascii.nat_ascii_bounded a). unfold byte_ok. lia.
Qed.
Lemma le_val_bound bs : Forall byte_ok bs -> 0 <= le_val bs < 256 ^ zlen bs.
Proof.
  induction 1 as [|b bs Hb _ IH]; [done|]. simpl. rewrite zlen_cons, Z.pow_add_r by (unfold zlen; lia).
  unfold byte_ok in Hb. lia.
Qed.

Lemma le_bytes_val bs n : n = length bs -> Forall byte_ok bs -> le_bytes n (le_val bs) = bs.
Proof.
  intros ->. induction 1 as [|b bs Hb _ IH]; [done|]. simpl.
  unfold byte_ok in Hb. rewrite (Z.mul_comm 256).
  rewrite Z.mod_add, Z.div_add by lia. rewrite Z.mod_small, (Z.div_small b) by lia.
  rewrite Z.add_0_l, IH. done.
Qed.

Lemma le_val_inj bs bs' :
  length bs = length bs' -> Forall byte_ok bs -> Forall byte_ok bs' -> le_val bs = le_val bs' -> bs = bs'.
Proof.
  intros Hl H H' Hv. rewrite <- (le_bytes_val bs (length bs)) by done.
  rewrite Hv, Hl. by apply le_bytes_val.
Qed.

Lemma get_put_u n off v p :
  0 <= off -> 0 <= n -> off + n <= zlen p -> 0 <= v < 256 ^ n -> get_u n off (put_u n off v p) = v.
Proof.
  intros. unfold get_u, put_u.
  replace n with (zlen (le_bytes (Z.to_nat n) v)) at 1 by (buf).
  rewrite slice_splice_eq by buf. rewrite le_val_bytes_small; rewrite ?Z2Nat.id; lia.
Qed.

Lemma get_put_u_ne n m off off' v p :
  0 <= off -> 0 <= off' -> 0 <= n -> off + n <= zlen p ->
  off' + m <= off \/ off + n <= off' ->
  get_u m off' (put_u n off v p) = get_u m off' p.
Proof. intros. unfold get_u, put_u. rewrite slice_splice_ne; buf. Qed.

Lemma zlen_put_u n off v p :
  0 <= off -> 0 <= n -> off + n <= zlen p -> zlen (put_u n off v p) = zlen p.
Proof. intros. unfold put_u. rewrite zlen_splice; buf. Qed.

Lemma put_u_ok n off v p : Forall byte_ok p -> Forall byte_ok (put_u n off v p).
Proof. intros. by apply Forall_splice; [apply le_bytes_ok|]. Qed.

Lemma get_u_bound n off p :
  0 <= off -> 0 <= n -> off + n <= zlen p -> Forall byte_ok p -> 0 <= get_u n off p < 256 ^ n.
Proof.
  intros. unfold get_u. pose proof (le_val_bound (slice off n p)) as Hb.
  rewrite zlen_slice in Hb by lia. by apply Hb, Forall_slice.
Qed.

#[export] Hint Resolve le_bytes_ok put_u_ok Forall_splice Forall_slice : buf.

(** Reading two adjacent fields as one. *)
Lemma le_val_app bs bs' : le_val (bs ++ bs') = le_val bs + 256 ^ zlen bs * le_val bs'.
Proof.
  induction bs as [|b bs IH].
  { change (zlen (@nil Z)) with 0. rewrite Z.pow_0_r. simpl. lia. }
  simpl. rewrite IH, zlen_cons, Z.pow_add_r by (unfold zlen; lia). lia.
Qed.

Lemma get_u_split n m off p :
  0 <= off -> 0 <= n -> 0 <= m -> off + n + m <= zlen p ->
  get_u (n + m) off p = get_u n off p + 256 ^ n * get_u m (off + n) p.
Proof.
  intros. unfold get_u. rewrite slice_split by lia. rewrite le_val_app, zlen_slice; lia.
Qed.

(** A field read from a buffer whose slice there is known. *)
Lemma get_u_slice n off v p :
  0 <= v < 256 ^ n -> 0 <= n -> slice off n p = le_bytes (Z.to_nat n) v -> get_u n off p = v.
Proof.
  intros Hv Hn E. unfold get_u. rewrite E, le_val_bytes_small; rewrite ?Z2Nat.id; lia.
Qed.

Lemma slice_app_inv {A} off n (bs bs' l : list A) :
  0 <= off -> slice off n l = bs ++ bs' -> n = zlen bs + zlen bs' ->
  slice off (zlen bs) l = bs /\ slice (off + zlen bs) (zlen bs') l = bs'.
Proof.
  intros H0 E ->. pose proof (zlen_nonneg bs). pose proof (zlen_nonneg bs').
  split.
  - pose proof (slice_slice off (zlen bs + zlen bs') 0 (zlen bs) l ltac:(lia) ltac:(lia) ltac:(lia)) as Hs.
    rewrite Z.add_0_r, E in Hs. rewrite <- Hs. by apply slice_app_l.
  - rewrite <- (slice_slice off (zlen bs + zlen bs')), E by lia.
    rewrite slice_app_r, Z.sub_diag by lia. by apply slice_full.
Qed.

Lemma land_ones8 v : Z.land v 0xff = v mod 256.
Proof. apply (Z.land_ones v 8). lia. Qed.

Lemma land_shiftl_0 lo hi n : 0 <= n -> 0 <= lo < 2 ^ n -> Z.land lo (Z.shiftl hi n) = 0.
Proof.
  intros Hn Hlo. apply Z.bits_inj'. intros i Hi. rewrite Z.land_spec, Z.bits_0.
  destruct (Z.ltb_spec i n).
  - rewrite Z.shiftl_spec_low by lia. apply andb_false_r.
  - rewrite <- (Z.mod_small lo (2 ^ n)) by lia. by rewrite Z.mod_pow2_bits_high by lia.
Qed.
Lemma lor_shiftl_add lo hi n : 0 <= n -> 0 <= lo < 2 ^ n -> Z.lor lo (Z.shiftl hi n) = lo + hi * 2 ^ n.
Proof.
  intros Hn Hlo. rewrite <- Z.shiftl_mul_pow2 by lia. symmetry. rewrite Z.add_nocarry_lxor.
  - apply Z.lxor_lor. apply land_shiftl_0; lia.
  - apply land_shiftl_0; lia.
Qed.

Lemma slice_put_u_ne n off v off' m p :
  0 <= off -> 0 <= n -> off + n <= zlen p -> 0 <= off' -> off' + m <= off \/ off + n <= off' ->
  slice off' m (put_u n off v p) = slice off' m p.
Proof. intros. unfold put_u. apply slice_splice_ne; buf. Qed.

Lemma get_u_splice_ne n off bs off' p :
  0 <= off -> off + zlen bs <= zlen p -> 0 <= off' -> off' + n <= off \/ off + zlen bs <= off' ->
  get_u n off' (splice off bs p) = get_u n off' p.
Proof. intros. unfold get_u. by rewrite slice_splice_ne. Qed.

(** Reads over a concatenation: skip a prefix, read the head field. *)
Lemma get_u_skip n off p l : zlen p <= off -> get_u n off (p ++ l) = get_u n (off - zlen p) l.
Proof. intros. unfold get_u. by rewrite slice_app_r. Qed.
Lemma get_u_head n v l : 0 <= n -> 0 <= v < 256 ^ n -> get_u n 0 (le_bytes (Z.to_nat n) v ++ l) = v.
Proof. intros. apply get_u_slice; [done..|]. apply slice_app_l. buf. Qed.
Lemma get_u_byte b l : get_u 1 0 (b :: l) = b.
Proof. change (b + 256 * 0 = b). lia. Qed.
Lemma slice_tail {A} off n (p l : list A) : zlen p = off -> slice off n (p ++ l) = slice 0 n l.
Proof. intros <-. rewrite slice_app_r by lia. by rewrite Z.sub_diag. Qed.

(** Lengths of updated buffers, recursively. *)
Ltac plen :=
  lazymatch goal with
  | |- context [zlen (put_u ?n ?off ?v ?p)] => rewrite (zlen_put_u n off v p) by plen; plen
  | |- context [zlen (splice ?off ?bs ?p)] => rewrite (zlen_splice off bs p) by plen; plen
  | |- context [zlen (le_bytes _ _)] => rewrite zlen_le_bytes; plen
  | |- _ => lia
  end.
(** Evaluate one read over a write, innermost reads first. *)
Ltac getput1 :=
  match goal with
  | |- context [get_u ?n ?off (put_u ?n ?off ?v ?p)] => rewrite (get_put_u n off v p) by plen
  | |- context [get_u ?m ?off' (put_u ?n ?off ?v ?p)] =>
      lazymatch off with off' => fail | _ => rewrite (get_put_u_ne n m off off' v p) by plen end
  | |- context [get_u ?n ?off' (splice ?off ?bs ?p)] => rewrite (get_u_splice_ne n off bs off' p) by plen
  | |- context [slice ?off' ?m (put_u ?n ?off ?v ?p)] => rewrite (slice_put_u_ne n off v off' m p) by plen
  | |- context [slice ?off' ?n (splice ?off ?bs ?p)] => rewrite (slice_splice_ne off off' n bs p) by plen
  end.
Ltac getput := repeat getput1.

(** * Filters that keep all or nothing *)
Lemma filter_all {A} (P : A -> bool) l : Forall (fun x => P x = true) l -> List.filter P l = l.
Proof. induction 1 as [|x l Hx _ IH]; [done|]. simpl. by rewrite Hx, IH. Qed.
Lemma filter_none {A} (P : A -> bool) l : Forall (fun x => P x = false) l -> List.filter P l = [].
Proof. induction 1 as [|x l Hx _ IH]; [done|]. simpl. by rewrite Hx, IH. Qed.
