(* ===== verification/Types.v ===== *)
(** The value domain of src/storage/types.h: type attributes, the built-in type seeds, column
    specifications, numeric values, row values and physical row positions, with the
    well-formedness predicates the other components preserve. *)
From S2P Require Import Prelude.

(** * Type attributes *)
Inductive Family := FamNone | FamNum | FamText | FamBool.
Inductive Rep := RepNone | RepInt64 | RepFloat | RepDouble | RepStr | RepBool | RepDec.
Inductive Store := StNone | StFixed | StCharPad | StVarLen | StDecimal.

#[export] Instance Family_eq_dec : EqDecision Family.
Proof. solve_decision. Defined.
#[export] Instance Rep_eq_dec : EqDecision Rep.
Proof. solve_decision. Defined.
#[export] Instance Store_eq_dec : EqDecision Store.
Proof. solve_decision. Defined.

Record TypeAttr := mkAttr {
  t_id : Z; family : Family; rank : Z; rep : Rep; store : Store; width : Z }.

#[export] Instance TypeAttr_eq_dec : EqDecision TypeAttr.
Proof. solve_decision. Defined.

(** [TypeAttr{}]: no type, the attribute of an untyped NULL. *)
Definition no_type : TypeAttr := mkAttr 0 FamNone 0 RepNone StNone 0.

Record TypeSeed := mkSeed {
  attr : TypeAttr; sname : string; alias : option string; len_allowed : bool;
  len_default : Z; len_max : Z; scale_allowed : bool }.

Definition kInt := mkAttr 1 FamNum 1 RepInt64 StFixed 4.
Definition kBigint := mkAttr 2 FamNum 2 RepInt64 StFixed 8.
Definition kDouble := mkAttr 3 FamNum 5 RepDouble StFixed 8.
Definition kVarChar := mkAttr 4 FamText 0 RepStr StVarLen 0.
Definition kFloat := mkAttr 5 FamNum 4 RepFloat StFixed 4.
Definition kChar := mkAttr 6 FamText 0 RepStr StCharPad 0.
Definition kBool := mkAttr 7 FamBool 0 RepBool StFixed 1.
Definition kNumeric := mkAttr 8 FamNum 3 RepDec StDecimal 0.

Definition kTypeSeeds : list TypeSeed :=
  [ mkSeed kInt "int" None false 0 0 false;
    mkSeed kBigint "bigint" None false 0 0 false;
    mkSeed kDouble "double" None false 0 0 false;
    mkSeed kVarChar "varchar" None true 0 65535 false;
    mkSeed kFloat "float" None false 0 0 false;
    mkSeed kChar "char" None true 1 65535 false;
    mkSeed kBool "boolean" (Some "bool"%string) false 0 0 false;
    mkSeed kNumeric "numeric" (Some "decimal"%string) true 0 38 true ].

(** * Pages, rows and columns *)
Definition PAGE_SIZE : Z := 4096.

Record PageId := mkPid { file_id : Z; page_no : Z }.
#[export] Instance PageId_eq_dec : EqDecision PageId.
Proof. solve_decision. Defined.
#[export] Instance PageId_countable : Countable PageId.
Proof.
  refine (inj_countable' (fun p => (file_id p, page_no p)) (fun x => mkPid x.1 x.2) _).
  by intros [].
Defined.
Definition INVALID_PAGE : PageId := mkPid 0 0.

Inductive PageType := PtFileHeader | PtHeap | PtBTreeLeaf | PtBTreeInternal.
Definition page_type_code (t : PageType) : Z :=
  match t with PtFileHeader => 1 | PtHeap => 2 | PtBTreeLeaf => 3 | PtBTreeInternal => 4 end.

Record ColumnSpec := mkCol {
  cname : string; ctype : TypeAttr; clength : Z; not_null : bool; cscale : Z }.

Record TableMeta := mkMeta { table_id : Z; tfile_id : Z; tname : string; cols : list ColumnSpec }.

Record RowRef := mkRef { rpage : PageId; rslot : Z }.
#[export] Instance RowRef_eq_dec : EqDecision RowRef.
Proof. solve_decision. Defined.

(** * Values *)
(** A [boost::multiprecision::int256_t] is a [Z]: every use the components make of it stays
    below its 256-bit magnitude, which the theorems about them show where it matters. *)
Definition kNumericUnscaledMax : Z := 10 ^ 38.
Record DecimalVal := mkDec { unscaled : Z; scale : Z }.

(** A [double]/[float] is its IEEE 754 bit pattern, an unsigned 64/32-bit integer. *)
Definition f64 := Z.
Definition f32 := Z.

Inductive Box :=
| BNull
| BBool (b : bool)
| BInt (i : Z)
| BDouble (d : f64)
| BFloat (f : f32)
| BStr (s : list Z)
| BDec (d : DecimalVal).

Record Value := mkVal { vtype : TypeAttr; box : Box }.

Record Row := mkRow { rid : Z; rref : RowRef; rvalues : list Value }.

#[export] Instance DecimalVal_eq_dec : EqDecision DecimalVal.
Proof. solve_decision. Defined.
#[export] Instance Box_eq_dec : EqDecision Box.
Proof. solve_decision. Defined.
#[export] Instance Value_eq_dec : EqDecision Value.
Proof. solve_decision. Defined.

Definition int_val (t : TypeAttr) (v : Z) : Value := mkVal t (BInt v).
Definition float_val (t : TypeAttr) (v : f32) : Value := mkVal t (BFloat v).
Definition double_val (t : TypeAttr) (v : f64) : Value := mkVal t (BDouble v).
Definition str_val (t : TypeAttr) (v : list Z) : Value := mkVal t (BStr v).
Definition bool_val (t : TypeAttr) (v : bool) : Value := mkVal t (BBool v).
Definition numeric_val (t : TypeAttr) (u s : Z) : Value := mkVal t (BDec (mkDec u s)).
Definition null_val : Value := mkVal no_type BNull.
Definition typed_null (t : TypeAttr) : Value := mkVal t BNull.

Definition value_is_null (v : Value) : bool := match box v with BNull => true | _ => false end.

(** * Well-formedness *)
(** The alternative a [Rep] stands for. *)
Definition box_rep (b : Box) : Rep :=
  match b with
  | BNull => RepNone | BBool _ => RepBool | BInt _ => RepInt64 | BDouble _ => RepDouble
  | BFloat _ => RepFloat | BStr _ => RepStr | BDec _ => RepDec
  end.

(** The payload is in the range of its C++ type. *)
Definition wf_box (b : Box) : Prop :=
  match b with
  | BNull | BBool _ => True
  | BInt i => INT64_MIN <= i <= INT64_MAX
  | BDouble d => 0 <= d < 2 ^ 64
  | BFloat f => 0 <= f < 2 ^ 32
  | BStr s => Forall byte_ok s
  | BDec d => 0 <= scale d < 256
  end.

(** A non-NULL value carries the attributes of its representation. *)
Definition wf_value (v : Value) : Prop :=
  wf_box (box v) /\ (value_is_null v = false -> rep (vtype v) = box_rep (box v)).

Lemma value_is_null_spec v : value_is_null v = true <-> box v = BNull.
Proof. unfold value_is_null. by destruct (box v). Qed.

(** The seed attributes determine the type: no two built-in types share an id, and each
    representation has a fixed family. *)
Definition seed_attr (t : TypeAttr) : Prop := t ∈ attr <$> kTypeSeeds.
Lemma seed_attr_cases t : seed_attr t ->
  t = kInt \/ t = kBigint \/ t = kDouble \/ t = kVarChar \/ t = kFloat \/ t = kChar
  \/ t = kBool \/ t = kNumeric.
Proof. unfold seed_attr. simpl. rewrite !elem_of_cons, elem_of_nil. tauto. Qed.
