(* ===== verification/Ieee.v ===== *)
(** IEEE 754 binary32/binary64 as the C++ [float]/[double] use them: the bit pattern of a
    value, its reading as a [spec_float], the arithmetic and conversions the sources apply,
    and the theorem that the order of finite values is the order of a signed magnitude read
    from the bits, on which the index key encoding rests. *)
From Stdlib Require Import SpecFloat.
From S2P Require Import Prelude.

(** * Formats *)
Record fmt := mkFmt { mb : Z; eb : Z }.
Definition binary64 := mkFmt 52 11.
Definition binary32 := mkFmt 23 8.

Definition prec (f : fmt) : Z := mb f + 1.
Definition emax_of (f : fmt) : Z := 2 ^ (eb f - 1).
Definition emin_of (f : fmt) : Z := 3 - emax_of f - prec f.
Definition width_of (f : fmt) : Z := mb f + eb f + 1.

(** * Fields of a bit pattern *)
Definition sign_of (f : fmt) (x : Z) : bool := 2 ^ (mb f + eb f) <=? x.
Definition mag_of (f : fmt) (x : Z) : Z := x mod 2 ^ (mb f + eb f).
Definition exp_of (f : fmt) (x : Z) : Z := mag_of f x / 2 ^ mb f.
Definition man_of (f : fmt) (x : Z) : Z := mag_of f x mod 2 ^ mb f.

Definition decode (f : fmt) (x : Z) : spec_float :=
  let s := sign_of f x in let e := exp_of f x in let m := man_of f x in
  if e =? 2 ^ eb f - 1 then if m =? 0 then S754_infinity s else S754_nan
  else if e =? 0 then
    match m with Zpos p => S754_finite s p (emin_of f) | _ => S754_zero s end
  else match m + 2 ^ mb f with
       | Zpos p => S754_finite s p (emin_of f + e - 1) | _ => S754_nan end.

Definition pack (f : fmt) (s : bool) (mag : Z) : Z := (if s then 2 ^ (mb f + eb f) else 0) + mag.
Definition inf_mag (f : fmt) : Z := (2 ^ eb f - 1) * 2 ^ mb f.

Definition encode (f : fmt) (x : spec_float) : Z :=
  match x with
  | S754_zero s => pack f s 0
  | S754_infinity s => pack f s (inf_mag f)
  | S754_nan => pack f false (inf_mag f + 2 ^ (mb f - 1))
  | S754_finite s m e =>
      if Zpos m <? 2 ^ mb f then pack f s (Zpos m)
      else pack f s ((e - emin_of f) * 2 ^ mb f + Zpos m)
  end.

(** [std::isfinite] *)
Definition is_finite (f : fmt) (x : Z) : bool := negb (exp_of f x =? 2 ^ eb f - 1).

(** * Operations *)
Definition fop (op : Z -> Z -> spec_float -> spec_float -> spec_float) (f : fmt) (a b : Z) : Z :=
  encode f (op (prec f) (emax_of f) (decode f a) (decode f b)).
Definition fadd := fop SFadd.
Definition fsub := fop SFsub.
Definition fmul := fop SFmul.
Definition fdiv := fop SFdiv.
Definition fneg (f : fmt) (a : Z) : Z := pack f (negb (sign_of f a)) (mag_of f a).
Definition fabs (f : fmt) (a : Z) : Z := mag_of f a.
Definition flt (f : fmt) (a b : Z) : bool := SFltb (decode f a) (decode f b).
Definition fgt (f : fmt) (a b : Z) : bool := SFltb (decode f b) (decode f a).
Definition feq (f : fmt) (a b : Z) : bool := SFeqb (decode f a) (decode f b).

(** Conversion of an integer, rounded once to nearest even. *)
Definition of_int (f : fmt) (z : Z) : Z := encode f (binary_normalize (prec f) (emax_of f) z 0 false).

(** [static_cast] between the formats: exact when widening, rounded once when narrowing. *)
Definition convert (src dst : fmt) (a : Z) : Z :=
  encode dst
    match decode src a with
    | S754_finite s m e =>
        binary_normalize (prec dst) (emax_of dst) (if s then Zneg m else Zpos m) e s
    | x => x
    end.
Definition f32_to_f64 := convert binary32 binary64.
Definition f64_to_f32 := convert binary64 binary32.

(** Truncation of a finite value towards zero. *)
Definition ftrunc (f : fmt) (a : Z) : Z :=
  match decode f a with
  | S754_finite s m e =>
      let q := if 0 <=? e then Zpos m * 2 ^ e else Zpos m / 2 ^ (- e) in if s then - q else q
  | _ => 0
  end.

(** Rounding to an integer keeps the format: [mode] maps the sign and the exact fraction
    [q + r/2^k] to the rounded magnitude; the sign of a zero result is kept. *)
Definition fround_with (mode : bool -> Z -> Z -> Z -> Z) (f : fmt) (a : Z) : Z :=
  match decode f a with
  | S754_finite s m e =>
      if 0 <=? e then a
      else let p := 2 ^ (- e) in
           let q := mode s (Zpos m / p) (Zpos m mod p) p in
           encode f (binary_normalize (prec f) (emax_of f) (if s then - q else q) 0 s)
  | _ => a
  end.
Definition fround := fround_with (fun _ q r p => if p <=? 2 * r then q + 1 else q).
Definition ffloor := fround_with (fun s q r _ => if s && negb (r =? 0) then q + 1 else q).
Definition fceil := fround_with (fun s q r _ => if negb s && negb (r =? 0) then q + 1 else q).

(** [std::fmod]: the exact remainder of the truncated quotient, with the sign of [a]; NaN for
    a zero divisor or an infinite dividend. *)
Definition ffmod (f : fmt) (a b : Z) : Z :=
  match decode f a, decode f b with
  | S754_nan, _ | _, S754_nan | S754_infinity _, _ | _, S754_zero _ => encode f S754_nan
  | S754_zero _, _ | _, S754_infinity _ => a
  | S754_finite s m e, S754_finite _ m' e' =>
      let k := Z.min e e' in
      let r := (Zpos m * 2 ^ (e - k)) mod (Zpos m' * 2 ^ (e' - k)) in
      encode f (binary_normalize (prec f) (emax_of f) (if s then - r else r) k s)
  end.

Definition f64_zero : Z := 0.
Definition f64_one : Z := of_int binary64 1.
Definition f32_one : Z := of_int binary32 1.

Example one_bits : f64_one = 0x3ff0000000000000 /\ f32_one = 0x3f800000.
Proof. by vm_compute. Qed.
Example third_bits : fdiv binary64 f64_one (of_int binary64 3) = 0x3fd5555555555555.
Proof. by vm_compute. Qed.
Example widen_tenth : f32_to_f64 0x3dcccccd = 0x3fb99999a0000000.
Proof. by vm_compute. Qed.
Example widen_subnormal : f32_to_f64 1 = 0x36a0000000000000.
Proof. by vm_compute. Qed.
Example fmod_sign : ffmod binary64 (of_int binary64 (-7)) (of_int binary64 3) = of_int binary64 (-1).
Proof. by vm_compute. Qed.
Example round_half : fround binary64 (fdiv binary64 (of_int binary64 (-5)) (of_int binary64 2))
  = of_int binary64 (-3).
Proof. by vm_compute. Qed.

(** * The order of finite values *)
(** The signed magnitude of a pattern: the two zeros coincide. *)
Definition signed_mag (f : fmt) (x : Z) : Z := if sign_of f x then - mag_of f x else mag_of f x.

Definition fmt_ok (f : fmt) : Prop := 0 < mb f /\ 1 < eb f.
Lemma binary64_ok : fmt_ok binary64.
Proof. done. Qed.
Lemma binary32_ok : fmt_ok binary32.
Proof. done. Qed.

Lemma mag_split f x : fmt_ok f ->
  mag_of f x = exp_of f x * 2 ^ mb f + man_of f x /\ 0 <= man_of f x < 2 ^ mb f
  /\ 0 <= exp_of f x < 2 ^ eb f.
Proof.
  intros [Hm He]. unfold exp_of, man_of.
  pose proof (Z.div_mod (mag_of f x) (2 ^ mb f) ltac:(lia)).
  pose proof (Z.mod_pos_bound (mag_of f x) (2 ^ mb f) ltac:(lia)).
  assert (0 <= mag_of f x < 2 ^ mb f * 2 ^ eb f).
  { rewrite <- Z.pow_add_r by lia. apply Z.mod_pos_bound. lia. }
  split; [lia|]. split; [lia|]. split; [apply Z.div_pos; lia | apply Z.div_lt_upper_bound; lia].
Qed.

(** The shape of a finite pattern: zero, or [m * 2^e] with the magnitude readable from both. *)
Lemma decode_finite f x : fmt_ok f -> is_finite f x = true ->
  (decode f x = S754_zero (sign_of f x) /\ mag_of f x = 0) \/
  exists m k, decode f x = S754_finite (sign_of f x) m (emin_of f + k) /\ 0 <= k
    /\ mag_of f x = k * 2 ^ mb f + Zpos m
    /\ Zpos m < 2 * 2 ^ mb f /\ (k = 0 \/ 2 ^ mb f <= Zpos m).
Proof.
  intros Hok Hf. destruct (mag_split f x Hok) as (Hmag & Hm & He).
  unfold is_finite in Hf. unfold decode.
  destruct (exp_of f x =? 2 ^ eb f - 1); [done|].
  destruct (Z.eqb_spec (exp_of f x) 0) as [E0|E0].
  - destruct (man_of f x) as [|p|p] eqn:Em; [left|right|lia].
    + split; [done | lia].
    + exists p, 0. rewrite Z.add_0_r. repeat split; lia.
  - destruct (man_of f x + 2 ^ mb f) as [|p|p] eqn:Em; [lia| |lia].
    right. exists p, (exp_of f x - 1). split; [f_equal; lia|]. repeat split; lia.
Qed.

(** Close [c = (a ?= b)] when only one order of [a] and [b] is consistent. *)
Ltac by_compare :=
  match goal with
  | |- _ = (?a ?= ?b) => destruct (Z.compare_spec a b); try reflexivity; exfalso; nia
  end.

Lemma SFcompare_finite f x y : fmt_ok f -> is_finite f x = true -> is_finite f y = true ->
  SFcompare (decode f x) (decode f y) = Some (signed_mag f x ?= signed_mag f y).
Proof.
  intros Hok Hx Hy. unfold signed_mag.
  destruct (decode_finite f x Hok Hx) as [[-> Zx]|(m & k & -> & Hk & Mx & Bm & Nm)];
  destruct (decode_finite f y Hok Hy) as [[-> Zy]|(m' & k' & -> & Hk' & My & Bm' & Nm')];
  rewrite ?Zx, ?Zy, ?Mx, ?My; cbn [SFcompare]; f_equal;
  destruct (sign_of f x), (sign_of f y); try by_compare.
  - destruct (Z.compare_spec (emin_of f + k) (emin_of f + k')); [|by_compare..].
    change (Pos.compare_cont Eq m m') with (Z.pos m ?= Z.pos m').
    destruct (Z.compare_spec (Z.pos m) (Z.pos m')); simpl CompOpp; by_compare.
  - destruct (Z.compare_spec (emin_of f + k) (emin_of f + k')); [|by_compare..].
    change (Pos.compare_cont Eq m m') with (Z.pos m ?= Z.pos m').
    destruct (Z.compare_spec (Z.pos m) (Z.pos m')); by_compare.
Qed.

Lemma flt_finite f x y : fmt_ok f -> is_finite f x = true -> is_finite f y = true ->
  flt f x y = (signed_mag f x <? signed_mag f y).
Proof. intros. unfold flt, SFltb. rewrite SFcompare_finite by done. by unfold Z.ltb. Qed.

Lemma feq_finite f x y : fmt_ok f -> is_finite f x = true -> is_finite f y = true ->
  feq f x y = (signed_mag f x =? signed_mag f y).
Proof.
  intros. unfold feq, SFeqb. rewrite SFcompare_finite by done.
  rewrite Z.eqb_compare. done.
Qed.
