(* ===== verification/Finite.v ===== *)
(** Finiteness of floating-point results: the conversions the sources leave unchecked (integers and
    floats to double, rounding to an integer, negation) cannot overflow, and the checked ones
    refuse, so no evaluation ever produces an infinity or a NaN. *)
From Stdlib Require Import SpecFloat.
From S2P Require Import Prelude Ieee.

(** * Rounding in SpecFloat stays in range *)
Lemma digits2_bound m : 0 < m -> 2 ^ (Zdigits2 m - 1) <= m < 2 ^ Zdigits2 m /\ 0 < Zdigits2 m.
Proof.
  destruct m as [|p|p]; [lia| |lia]. intros _. simpl Zdigits2.
  induction p as [p IH|p IH|]; simpl digits2_pos; [| |cbn; lia].
  all: rewrite Pos2Z.inj_succ; destruct IH as [IH H0]; set (n := Z.pos (digits2_pos p)) in *;
    replace (Z.succ n - 1) with (Z.succ (n - 1)) by lia; rewrite !Z.pow_succ_r by lia; lia.
Qed.
Lemma digits2_le m k : 0 <= m < 2 ^ k -> 0 <= k -> Zdigits2 m <= k.
Proof.
  intros [Hm H] Hk. destruct (Z.eq_dec m 0) as [->|]; [done|]. destruct (digits2_bound m ltac:(lia)) as [[H1 _] H2].
  assert (Zdigits2 m - 1 < k); [|lia]. apply (Z.pow_lt_mono_r_iff 2); lia.
Qed.
Lemma digits2_lt m : 0 <= m -> m < 2 ^ Zdigits2 m.
Proof. intros. destruct (Z.eq_dec m 0) as [->|]; [done|]. apply digits2_bound. lia. Qed.

Lemma shr_1_m r : 0 <= shr_m r -> shr_m (shr_1 r) = shr_m r / 2.
Proof.
  destruct r as [[|[p|p|]|p] b s]; simpl; try done; intros _.
  - rewrite Pos2Z.inj_xI, Z.mul_comm, Z.div_add_l by lia. change (1 / 2) with 0. lia.
  - rewrite Pos2Z.inj_xO, Z.mul_comm, Z.div_mul by lia. done.
Qed.
Lemma iter_shr_m p : forall r, 0 <= shr_m r -> shr_m (SpecFloat.iter_pos shr_1 p r) = shr_m r / 2 ^ Zpos p.
Proof.
  assert (forall r, 0 <= shr_m r -> 0 <= shr_m (shr_1 r)) as Hpos by (intros; rewrite shr_1_m by done; apply Z.div_pos; lia).
  assert (forall a k, 0 <= a -> 0 < k -> 0 <= a / 2 ^ k) as Hp by (intros; apply Z.div_pos; lia).
  induction p as [p IH|p IH|]; intros r Hr; cbn [SpecFloat.iter_pos].
  - rewrite !IH, shr_1_m by (try done; rewrite ?IH by auto; auto with lia; apply Hp; auto with lia).
    change 2 with (2 ^ 1) at 1. rewrite !Z.div_div, <- !Z.pow_add_r by lia. do 2 f_equal. lia.
  - rewrite !IH by (try done; rewrite ?IH by auto; auto with lia).
    rewrite Z.div_div, <- Z.pow_add_r by lia. do 2 f_equal. lia.
  - rewrite shr_1_m by done. done.
Qed.

Lemma record_of_loc_m m l : shr_m (shr_record_of_loc m l) = m.
Proof. by destruct l as [|[]]. Qed.
(** [shr_fexp] drops low bits until the exponent is the canonical one. *)
Lemma shr_fexp_spec pr em m e l r e' : 0 <= m -> 0 < pr -> shr_fexp pr em m e l = (r, e') ->
  e' = Z.max e (SpecFloat.fexp pr em (Zdigits2 m + e)) /\ shr_m r = m / 2 ^ (e' - e) /\ 0 <= shr_m r
  /\ shr_m r < 2 ^ pr.
Proof.
  intros Hm Hpr H.
  assert (e' = Z.max e (SpecFloat.fexp pr em (Zdigits2 m + e)) /\ shr_m r = m / 2 ^ (e' - e)) as [He Hr].
  { revert H. unfold shr_fexp, shr. destruct (_ - e) as [|p|p] eqn:Ep; intros [= <- <-]; rewrite ?record_of_loc_m.
    - rewrite Z.sub_diag, Z.div_1_r. split; [lia|done].
    - rewrite iter_shr_m, record_of_loc_m by (by rewrite record_of_loc_m).
      replace (e + Z.pos p - e) with (Z.pos p) by lia. split; [lia|done].
    - rewrite Z.sub_diag, Z.div_1_r. split; [lia|done]. }
  split_and!; [done..| |]; rewrite Hr; assert (0 <= e' - e) by lia; [apply Z.div_pos; lia|].
  apply Z.div_lt_upper_bound; [lia|]. rewrite <- Z.pow_add_r by lia.
  eapply Z.lt_le_trans; [apply digits2_lt; done|]. apply Z.pow_le_mono_r; [lia|].
  assert (Zdigits2 m + e - pr <= SpecFloat.fexp pr em (Zdigits2 m + e)) by (unfold SpecFloat.fexp; lia). lia.
Qed.

Definition canonical (f : fmt) (x : spec_float) : Prop :=
  match x with
  | S754_finite _ m e => Zpos m < 2 ^ prec f /\ emin_of f <= e <= emax_of f - prec f
  | S754_zero _ => True
  | _ => False
  end.
Definition wide (f : fmt) : Prop := fmt_ok f /\ prec f + 2 <= emax_of f.
Lemma binary64_wide : wide binary64.
Proof. done. Qed.
Lemma binary32_wide : wide binary32.
Proof. done. Qed.

Lemma round_aux_finite f s m e l : wide f -> 0 <= m -> Zdigits2 m + e <= emax_of f - 1 ->
  e <= Z.max (emax_of f - 1 - prec f) (emin_of f) ->
  canonical f (binary_round_aux (prec f) (emax_of f) s m e l).
Proof.
  intros [[Hmb Heb] Hw] Hm Hd He. unfold binary_round_aux.
  assert (0 < prec f) as Hp by (unfold prec; lia).
  destruct (shr_fexp _ _ m e l) as [r e'] eqn:E1. destruct (shr_fexp_spec _ _ _ _ _ _ _ Hm Hp E1) as (He' & Hr & Hr0 & Hrp).
  set (m2 := round_nearest_even _ _).
  assert (0 <= m2 <= 2 ^ prec f) as Hm2.
  { unfold m2, round_nearest_even. destruct (loc_of_shr_record r) as [|[]]; [lia| |lia|lia]. destruct (Z.even _); lia. }
  destruct (shr_fexp _ _ m2 e' _) as [r2 e2] eqn:E2.
  destruct (shr_fexp_spec _ _ _ _ _ _ _ (proj1 Hm2) Hp E2) as (He2 & Hr2 & Hr20 & Hr2p).
  assert (Zdigits2 m2 <= prec f + 1) as Hd2.
  { apply digits2_le; [|lia]. rewrite Z.pow_add_r by lia. lia. }
  destruct (shr_m r2) as [|p|p]; [done| |lia].
  unfold SpecFloat.fexp, SpecFloat.emin, emin_of in *.
  replace (e2 <=? _) with true by lia. simpl. split; [done|]. unfold emin_of. lia.
Qed.

Lemma shl_align_digits m e e' mz ez : shl_align m e e' = (mz, ez) ->
  Z.pos (digits2_pos mz) + ez = Z.pos (digits2_pos m) + e /\ ez <= Z.max e' (Z.min e e') /\ (e <= e' -> ez = e).
Proof.
  unfold shl_align. destruct (e' - e) as [|p|p] eqn:E; intros [= <- <-].
  - split; lia.
  - split; lia.
  - split; [|lia]. assert (forall q, Z.pos (digits2_pos (Pos.iter xO m q)) = Z.pos (digits2_pos m) + Z.pos q) as H.
    { induction q as [|q IH] using Pos.peano_ind; [cbn; lia|]. rewrite Pos.iter_succ. cbn [digits2_pos]. lia. }
    rewrite H. lia.
Qed.
Lemma normalize_finite f m e s : wide f -> Zdigits2 (Z.abs m) + e <= emax_of f - 1 ->
  canonical f (binary_normalize (prec f) (emax_of f) m e s).
Proof.
  intros Hw H. unfold binary_normalize, binary_round.
  destruct m as [|p|p]; [done|..]; simpl Z.abs in H;
    destruct (shl_align _ _ _) as [mz ez] eqn:E; destruct (shl_align_digits _ _ _ _ _ E) as (H1 & H2 & H3);
    (apply round_aux_finite; [done|lia|simpl in *; lia|]); unfold SpecFloat.fexp, SpecFloat.emin, emin_of, prec in *; simpl Zdigits2 in H; lia.
Qed.

(** * Canonical results have finite patterns *)
Lemma pack_finite f s mag : fmt_ok f -> 0 <= mag < inf_mag f -> is_finite f (pack f s mag) = true.
Proof.
  intros [Hm He] H. unfold is_finite, exp_of.
  assert (mag_of f (pack f s mag) = mag) as ->.
  { unfold inf_mag in H. unfold mag_of, pack. rewrite Z.pow_add_r by lia.
    destruct s; [|rewrite Z.add_0_l; apply Z.mod_small; nia].
    rewrite Z.add_comm. rewrite <- (Z.mul_1_l (_ * _)) at 1. rewrite Z.mod_add by nia. apply Z.mod_small; nia. }
  apply negb_true_iff, Z.eqb_neq. intros E. unfold inf_mag in H.
  pose proof (Z.div_mod mag (2 ^ mb f) ltac:(lia)). pose proof (Z.mod_pos_bound mag (2 ^ mb f) ltac:(lia)). nia.
Qed.
Lemma encode_finite f x : wide f -> canonical f x -> is_finite f (encode f x) = true.
Proof.
  intros [[Hmb Heb] Hw] Hx. destruct x as [s|s| |s m e]; simpl in Hx; try done; unfold encode.
  { apply pack_finite; [done|]. unfold inf_mag. assert (2 ^ 1 < 2 ^ eb f) by (apply Z.pow_lt_mono_r; lia). nia. }
  destruct Hx as [Hm He].
  assert (2 ^ eb f = 2 * emax_of f) as H2.
  { unfold emax_of. rewrite <- Z.pow_succ_r by lia. f_equal. lia. }
  assert (2 ^ prec f = 2 * 2 ^ mb f) as H3 by (unfold prec; rewrite Z.pow_add_r by lia; lia).
  assert (0 < 2 ^ mb f) by lia. assert (0 < prec f) by (unfold prec; lia).
  destruct (Z.ltb_spec (Z.pos m) (2 ^ mb f)); apply pack_finite; try done; unfold inf_mag; rewrite H2.
  - nia.
  - unfold emin_of in *. nia.
Qed.
Lemma finite_mag f x : fmt_ok f -> is_finite f x = true -> 0 <= mag_of f x < inf_mag f.
Proof.
  intros Hok Hf. destruct (mag_split f x Hok) as (Hm & Hman & He). unfold is_finite in Hf.
  apply negb_true_iff, Z.eqb_neq in Hf. unfold inf_mag. nia.
Qed.


(** * Results are bit patterns of the format *)
Definition valid (f : fmt) (x : spec_float) : Prop :=
  match x with S754_finite _ _ _ => canonical f x | _ => True end.
Lemma canonical_valid f x : canonical f x -> valid f x.
Proof. by destruct x. Qed.
Lemma pack_range f s mag : fmt_ok f -> 0 <= mag < 2 ^ (mb f + eb f) -> 0 <= pack f s mag < 2 ^ width_of f.
Proof.
  intros [Hm He] H. unfold pack, width_of. rewrite (Z.pow_add_r 2 (mb f + eb f) 1) by lia. destruct s; lia.
Qed.
Lemma inf_mag_lt f : fmt_ok f -> 0 < inf_mag f /\ inf_mag f + 2 ^ (mb f - 1) < 2 ^ (mb f + eb f).
Proof.
  intros [Hm He]. unfold inf_mag. rewrite Z.pow_add_r by lia.
  assert (2 ^ mb f = 2 * 2 ^ (mb f - 1)) by (rewrite <- Z.pow_succ_r by lia; f_equal; lia).
  assert (2 ^ 1 < 2 ^ eb f) by (apply Z.pow_lt_mono_r; lia). assert (0 < 2 ^ (mb f - 1)) by lia. nia.
Qed.
Lemma encode_range f x : wide f -> valid f x -> 0 <= encode f x < 2 ^ width_of f.
Proof.
  intros Hw Hx. destruct (inf_mag_lt f (proj1 Hw)) as [Hi1 Hi2]. pose proof Hw as [[Hmb Heb] Hw'].
  assert (0 < 2 ^ (mb f - 1)) by lia.
  destruct x as [s|s| |s m e]; unfold encode; try (apply pack_range; [by split|lia]).
  simpl in Hx. destruct Hx as [Hm He].
  assert (2 ^ eb f = 2 * emax_of f) as H2 by (unfold emax_of; rewrite <- Z.pow_succ_r by lia; f_equal; lia).
  assert (2 ^ prec f = 2 * 2 ^ mb f) as H3 by (unfold prec; rewrite Z.pow_add_r by lia; lia).
  assert (0 < prec f) by (unfold prec; lia). assert (0 < 2 ^ mb f) by lia.
  destruct (Z.ltb_spec (Z.pos m) (2 ^ mb f)); apply pack_range; try (by split); unfold inf_mag in *;
    rewrite Z.pow_add_r, H2 in * by lia; unfold emin_of in *; nia.
Qed.
Lemma round_aux_valid f s m e l : wide f -> 0 <= m ->
  valid f (binary_round_aux (prec f) (emax_of f) s m e l).
Proof.
  intros [[Hmb Heb] Hw] Hm. unfold binary_round_aux. assert (0 < prec f) as Hp by (unfold prec; lia).
  destruct (shr_fexp _ _ m e l) as [r e'] eqn:E1. destruct (shr_fexp_spec _ _ _ _ _ _ _ Hm Hp E1) as (_ & _ & Hr0 & _).
  set (m2 := round_nearest_even _ _).
  assert (0 <= m2) as Hm2 by (unfold m2, round_nearest_even; destruct (loc_of_shr_record r) as [|[]]; try destruct (Z.even _); lia).
  destruct (shr_fexp _ _ m2 e' _) as [r2 e2] eqn:E2.
  destruct (shr_fexp_spec _ _ _ _ _ _ _ Hm2 Hp E2) as (He2 & _ & _ & Hr2p).
  destruct (shr_m r2) as [|p|p]; [done| |done]. destruct (Z.leb_spec e2 (emax_of f - prec f)); [|done].
  simpl. split; [done|]. unfold SpecFloat.fexp, SpecFloat.emin, emin_of in *. lia.
Qed.
Lemma normalize_valid f m e s : wide f -> valid f (binary_normalize (prec f) (emax_of f) m e s).
Proof.
  intros Hw. unfold binary_normalize, binary_round. destruct m as [|p|p]; [done|..];
    destruct (shl_align _ _ _); by apply round_aux_valid.
Qed.
Lemma decode_valid f x : wide f -> valid f (decode f x).
Proof.
  intros [Hok Hw]. destruct (is_finite f x) eqn:Hf.
  - pose proof (finite_mag f x Hok Hf) as Hmag. destruct Hok as [Hmb Heb].
    destruct (decode_finite f x (conj Hmb Heb) Hf) as [[-> _]|(m & k & -> & Hk & Hm & Hlt & Hnorm)]; [done|].
    assert (2 ^ eb f = 2 * emax_of f) as H2 by (unfold emax_of; rewrite <- Z.pow_succ_r by lia; f_equal; lia).
    simpl. unfold prec at 1, emin_of. rewrite Z.pow_add_r by lia. change (2 ^ 1) with 2.
    unfold inf_mag in Hmag. rewrite H2 in Hmag. split; [lia|]. unfold prec in *. 
    assert (0 < 2 ^ mb f) by lia. destruct Hnorm as [->|Hn]; [lia|]. assert (k + 1 < 2 * emax_of f - 1) by nia. lia.
  - unfold is_finite in Hf. unfold decode. destruct (_ =? _); [|done]. by destruct (_ =? 0).
Qed.
Lemma div_core_nonneg pr em m1 e1 m2 e2 q e l : 0 <= m1 -> 0 < m2 ->
  SFdiv_core_binary pr em m1 e1 m2 e2 = (q, e, l) -> 0 <= q.
Proof.
  intros H1 H2. unfold SFdiv_core_binary. set (m' := match _ with Z0 => m1 | _ => _ end).
  assert (0 <= m') as Hm' by (unfold m'; destruct (_ - _); [done|by apply Z.shiftl_nonneg|done]).
  pose proof (Z.div_pos m' m2 Hm' H2) as Hq. unfold Z.div in Hq. destruct (Z.div_eucl m' m2) as [q' r]. intros [= <- <- <-]. exact Hq.
Qed.
Lemma fop_valid f a b : wide f ->
  Forall (fun op : Z -> Z -> spec_float -> spec_float -> spec_float => valid f (op (prec f) (emax_of f) (decode f a) (decode f b)))
    [SFadd; SFsub; SFmul; SFdiv].
Proof.
  intros Hw. pose proof (decode_valid f a Hw) as Ha. pose proof (decode_valid f b Hw) as Hb.
  repeat constructor; destruct (decode f a) as [[]|[]| |s m e]; destruct (decode f b) as [[]|[]| |s' m' e'];
    try done; try (by apply normalize_valid); try (by apply round_aux_valid).
  all: unfold SFdiv; destruct (SFdiv_core_binary _ _ _ _ _ _) as [[q ez] lz] eqn:E;
    apply round_aux_valid; [done|]; by eapply div_core_nonneg; [..|exact E].
Qed.

(** * The conversions and operations *)
(** A bit pattern of the format that stands for a finite number. *)
Definition float_ok (f : fmt) (x : Z) : Prop := 0 <= x < 2 ^ width_of f /\ is_finite f x = true.
Lemma float_encode f x : wide f -> canonical f x -> float_ok f (encode f x).
Proof. intros Hw Hx. split; [by apply encode_range, canonical_valid|by apply encode_finite]. Qed.
Lemma float_valid f x : wide f -> valid f x -> is_finite f (encode f x) = true -> float_ok f (encode f x).
Proof. intros Hw Hx Hf. split; [by apply encode_range|done]. Qed.
Lemma float_pack f s mag : fmt_ok f -> 0 <= mag < inf_mag f -> float_ok f (pack f s mag).
Proof.
  intros Hok Hm. split; [|by apply pack_finite]. apply pack_range; [done|]. destruct (inf_mag_lt f Hok).
  assert (0 <= 2 ^ (mb f - 1)) by lia. lia.
Qed.
Lemma fop_ok op f a b : wide f -> In op [SFadd; SFsub; SFmul; SFdiv] -> is_finite f (fop op f a b) = true -> float_ok f (fop op f a b).
Proof.
  intros Hw Hin Hf. apply float_valid; [done| |done]. pose proof (fop_valid f a b Hw) as H.
  rewrite Forall_forall in H. by apply H.
Qed.
Lemma of_int_ok f z : wide f -> 65 <= emax_of f -> Z.abs z < 2 ^ 64 -> float_ok f (of_int f z).
Proof.
  intros Hw He Hz. apply float_encode, normalize_finite; [done..|]. pose proof (digits2_le (Z.abs z) 64). lia.
Qed.
Lemma fneg_ok f x : fmt_ok f -> is_finite f x = true -> float_ok f (fneg f x).
Proof. intros Hok Hf. apply float_pack; [done|]. by apply finite_mag. Qed.
Lemma fabs_ok f x : fmt_ok f -> is_finite f x = true -> float_ok f (fabs f x).
Proof. intros Hok Hf. apply (float_pack f false); [done|]. by apply finite_mag. Qed.
Lemma f32_to_f64_canonical x : is_finite binary32 x = true ->
  exists y, f32_to_f64 x = encode binary64 y /\ canonical binary64 y.
Proof.
  intros Hf. eexists. split; [reflexivity|]. pose proof (finite_mag _ _ binary32_ok Hf) as Hmag.
  destruct (decode_finite _ _ binary32_ok Hf) as [[-> _]|(m & k & -> & Hk & Hm & Hlt & _)]; [done|].
  apply normalize_finite; [done|].
  assert (Zdigits2 (Z.pos m) <= 24) by (apply digits2_le; [split; [lia|exact Hlt]|lia]).
  rewrite Hm in Hmag. change (inf_mag binary32) with (255 * 2 ^ 23) in Hmag. change (2 ^ mb binary32) with (2 ^ 23) in *.
  change (emin_of binary32) with (-149). change (emax_of binary64) with 1024.
  assert (Zdigits2 (Z.abs (if sign_of binary32 x then Z.neg m else Z.pos m)) = Zdigits2 (Z.pos m)) as ->
    by (by destruct (sign_of binary32 x)). nia.
Qed.
Lemma f32_to_f64_ok x : is_finite binary32 x = true -> float_ok binary64 (f32_to_f64 x).
Proof. intros (y & -> & Hy)%f32_to_f64_canonical. by apply float_encode. Qed.
Lemma f64_to_f32_ok x : is_finite binary32 (f64_to_f32 x) = true -> float_ok binary32 (f64_to_f32 x).
Proof.
  intros Hf. apply float_valid; [done| |done]. destruct (decode binary64 x); try done. by apply normalize_valid.
Qed.
Lemma fround_with_ok mode f x : wide f ->
  (forall s q r p, 0 <= q -> 0 <= r < p -> q <= mode s q r p <= q + 1) ->
  float_ok f x -> float_ok f (fround_with mode f x).
Proof.
  intros Hw Hmode [Hr Hf]. destruct Hw as [Hok Hw']. unfold fround_with.
  destruct (decode_finite _ _ Hok Hf) as [[-> _]|(m & k & -> & Hk & Hm & Hlt & _)]; [done|].
  destruct (Z.leb_spec 0 (emin_of f + k)) as [|He]; [done|].
  apply float_encode, normalize_finite; [by split..|].
  set (p := 2 ^ (- (emin_of f + k))). assert (0 < p) by (apply Z.pow_pos_nonneg; lia).
  pose proof (Hmode (sign_of f x) (Z.pos m / p) (Z.pos m mod p) p) as Hq.
  set (q := mode _ _ _ _) in *. assert (0 <= Z.pos m / p <= Z.pos m).
  { split; [apply Z.div_pos; lia|]. apply Z.div_le_upper_bound; nia. }
  pose proof (Z.mod_pos_bound (Z.pos m) p). destruct Hok as [Hmb Heb].
  assert (Zdigits2 (Z.abs (if sign_of f x then - q else q)) <= prec f + 1); [|unfold prec in *; lia].
  apply digits2_le; [|unfold prec; lia]. unfold prec. rewrite !Z.pow_add_r by lia.
  destruct (sign_of f x); lia.
Qed.
Lemma fround_ok f x : wide f -> float_ok f x -> float_ok f (fround f x).
Proof. intros Hw. apply fround_with_ok; [done|]. intros. destruct (_ <=? _); lia. Qed.
Lemma ffloor_ok f x : wide f -> float_ok f x -> float_ok f (ffloor f x).
Proof. intros Hw. apply fround_with_ok; [done|]. intros. destruct (_ && _); lia. Qed.
Lemma fceil_ok f x : wide f -> float_ok f x -> float_ok f (fceil f x).
Proof. intros Hw. apply fround_with_ok; [done|]. intros. destruct (_ && _); lia. Qed.
Lemma ffmod_ok f x y : wide f -> float_ok f x -> is_finite f (ffmod f x y) = true -> float_ok f (ffmod f x y).
Proof.
  intros Hw Hx. unfold ffmod.
  destruct (decode f x) as [?|?| |? ? ?]; destruct (decode f y) as [?|?| |? ? ?]; intros H; try done;
    try (by apply float_valid); apply float_valid; [done|by apply normalize_valid|done].
Qed.
