(* ===== verification/Text.v ===== *)
(** Numbers as text, as the C++ standard library writes and reads them for src/storage/cast.cpp:
    decimal integers (std::format, std::from_chars), correctly rounded parsing of floating-point
    text, and the shortest round-trip text of std::to_chars. *)
From Stdlib Require Import SpecFloat.
From S2P Require Import Prelude Ieee.

(** * Decimal digits *)
Definition is_digit (c : Z) : bool := (48 <=? c) && (c <=? 57).
(** Digits of [n], most significant first; [fuel] bounds their number. *)
Fixpoint digits_aux (fuel : nat) (n : Z) (acc : bytes) : bytes :=
  match fuel with
  | O => acc
  | S fuel => let acc := 48 + n mod 10 :: acc in
              if n <? 10 then acc else digits_aux fuel (n / 10) acc
  end.
Definition digits (n : Z) : bytes := digits_aux (S (Z.to_nat (Z.log2 n))) n [].
Definition format_int (n : Z) : bytes := if n <? 0 then 45 :: digits (- n) else digits n.

(** The value of a run of digits read after [u]. *)
Definition read_digits (u : Z) (ds : bytes) : Z := fold_left (fun u c => u * 10 + (c - 48)) ds u.
Fixpoint span_digits (s : bytes) : bytes * bytes :=
  match s with
  | c :: s' => if is_digit c then let '(ds, r) := span_digits s' in (c :: ds, r) else ([], s)
  | [] => ([], [])
  end.

(** [std::from_chars] on an [int64_t], required to consume the whole text: an optional minus, at
    least one digit, and a value in range. *)
Definition from_chars_i64 (s : bytes) : option Z :=
  let '(neg, s) := match s with 45 :: s' => (true, s') | _ => (false, s) end in
  match span_digits s with
  | ((_ :: _) as ds, []) =>
      let v := if neg then - read_digits 0 ds else read_digits 0 ds in
      if in_i64 v then Some v else None
  | _ => None
  end.

(** * Floating point *)
(** [n / d] rounded once, to nearest even. *)
Definition of_ratio (f : fmt) (s : bool) (n d : Z) : Z :=
  if n =? 0 then pack f s 0
  else let '(q, e, l) := SFdiv_core_binary (prec f) (emax_of f) n 0 d 0 in
       encode f (binary_round_aux (prec f) (emax_of f) s q e l).
Definition of_decimal (f : fmt) (s : bool) (m e : Z) : Z :=
  if 0 <=? e then of_ratio f s (m * 10 ^ e) 1 else of_ratio f s m (10 ^ (- e)).

(** The exponent part [e[+-]digits]; [None] when it is malformed. *)
Definition scan_exp (s : bytes) : option Z :=
  match s with
  | [] => Some 0
  | c :: s =>
      if (c =? 101) || (c =? 69) then
        let '(neg, s) := match s with 45 :: s' => (true, s') | 43 :: s' => (false, s') | _ => (false, s) end in
        match span_digits s with
        | ((_ :: _) as ds, []) => Some (if neg then - read_digits 0 ds else read_digits 0 ds)
        | _ => None
        end
      else None
  end.
(** [std::from_chars] on a [double], required to consume the whole text and to be finite (texts
    such as inf and nan are rejected by the caller): decimal digits with an optional point and
    exponent, out of range when the nearest value is infinite, or zero for a non-zero text. *)
Definition from_chars_f64 (s : bytes) : option Z :=
  let '(neg, s) := match s with 45 :: s' => (true, s') | _ => (false, s) end in
  let '(ip, r) := span_digits s in
  let '(fp, r) := match r with 46 :: r' => span_digits r' | _ => ([], r) end in
  match ip ++ fp, scan_exp r with
  | (_ :: _) as ds, Some e =>
      let m := read_digits 0 ds in
      let v := of_decimal binary64 neg m (e - zlen fp) in
      if negb (is_finite binary64 v) then None
      else if negb (m =? 0) && (mag_of binary64 v =? 0) then None
      else Some v
  | _, _ => None
  end.

(** Decimal exponent: [10^x <= n/d < 10^(x+1)] for the magnitudes of a double. *)
Definition exp10 (n d : Z) : Z := zlen (digits (n * 10 ^ 340 / d)) - 341.
(** The closest [k]-digit decimal that rounds back to [a], if there is one. *)
Definition try_digits (f : fmt) (a n d : Z) (k : Z) : option (Z * Z) :=
  let x := exp10 n d + 1 - k in
  let num := if 0 <=? x then n else n * 10 ^ (- x) in
  let den := if 0 <=? x then d * 10 ^ x else d in
  let q := num / den in
  let back m := of_decimal f false m x =? mag_of f a in
  let near := if 2 * (num mod den) <? den then q else q + 1 in
  let norm m := if m =? 10 ^ k then (1, x + k) else (m, x) in
  if back near then Some (norm near) else if back q then Some (norm q)
  else if back (q + 1) then Some (norm (q + 1)) else None.
Fixpoint shortest (f : fmt) (a n d : Z) (fuel : nat) (k : Z) : Z * Z :=
  match fuel with
  | O => (0, 0)
  | S fuel => match try_digits f a n d k with
              | Some r => r | None => shortest f a n d fuel (k + 1) end
  end.

Definition point_at (ds : bytes) (k : Z) : bytes := slice 0 k ds ++ 46 :: slice k (zlen ds - k) ds.
Definition sci_text (ds : bytes) (x : Z) : bytes :=
  (if zlen ds =? 1 then ds else point_at ds 1) ++ [101; if x <? 0 then 45 else 43]
    ++ (if Z.abs x <? 10 then [48] else []) ++ digits (Z.abs x).
(** Digits [ds] scaled by [10^x]; a number past its digits is written exactly. *)
Definition fixed_text (f : fmt) (a : Z) (ds : bytes) (x : Z) : bytes :=
  if 0 <? x then digits (Z.abs (ftrunc f a))
  else if x =? 0 then ds
  else if 0 <? zlen ds + x then point_at ds (zlen ds + x)
  else [48; 46] ++ replicate (Z.to_nat (- (zlen ds + x))) 48 ++ ds.

(** [std::format("{}", x)] of a [double] or [float]: the shortest text that reads back as [x], fixed
    notation when it is not longer than scientific. *)
Definition format_float (f : fmt) (a : Z) : bytes :=
  let sign := if sign_of f a then [45] else [] in
  sign ++
  match decode f a with
  | S754_zero _ => [48]
  | S754_infinity _ => str "inf"
  | S754_nan => str "nan"
  | S754_finite _ m e =>
      let n := if 0 <=? e then Zpos m * 2 ^ e else Zpos m in
      let d := if 0 <=? e then 1 else 2 ^ (- e) in
      let '(q, x) := shortest f a n d 17 1 in
      let ds := digits q in
      let sci := sci_text ds (x + zlen ds - 1) in
      let fix_ := fixed_text f a ds x in
      if zlen fix_ <=? zlen sci then fix_ else sci
  end.

Example format_tenth : format_float binary64 (of_ratio binary64 false 1 10) = str "0.1".
Proof. by vm_compute. Qed.
Example format_third : format_float binary64 (of_ratio binary64 true 1 3) = str "-0.3333333333333333".
Proof. by vm_compute. Qed.
Example format_big : format_float binary64 (of_ratio binary64 false (10 ^ 23) 1) = str "1e+23".
Proof. by vm_compute. Qed.
Example format_f32_big : format_float binary32 (of_ratio binary32 false 16777217 1) = str "16777216".
Proof. by vm_compute. Qed.
Example format_small : format_float binary64 1 = str "5e-324".
Proof. by vm_compute. Qed.
Example format_exact : format_float binary64 (of_ratio binary64 false (2 ^ 70) 1) = str "1180591620717411303424".
Proof. by vm_compute. Qed.
Example parse_max : from_chars_f64 (str "1.7976931348623157e308") = Some 0x7fefffffffffffff.
Proof. by vm_compute. Qed.
Example parse_over : from_chars_f64 (str "1e309") = None.
Proof. by vm_compute. Qed.

(** * Digits and their value *)
Lemma read_digits_app u ds ds' : read_digits u (ds ++ ds') = read_digits (read_digits u ds) ds'.
Proof. apply fold_left_app. Qed.
Lemma read_digits_snoc u ds c : read_digits u (ds ++ [c]) = read_digits u ds * 10 + (c - 48).
Proof. by rewrite read_digits_app. Qed.
Lemma read_digits_acc u ds : read_digits u ds = u * 10 ^ zlen ds + read_digits 0 ds.
Proof.
  induction ds as [|c ds IH] using rev_ind.
  { unfold read_digits, zlen. simpl. lia. }
  rewrite (read_digits_snoc u ds c), (read_digits_snoc 0 ds c), IH, (zlen_app ds [c]). change (zlen [c]) with 1.
  rewrite Z.pow_add_r by (unfold zlen; lia). lia.
Qed.
Lemma is_digit_spec c : is_digit c = true <-> 48 <= c <= 57.
Proof. unfold is_digit. lia. Qed.
Lemma read_digits_bound ds : Forall (fun c => is_digit c = true) ds -> 0 <= read_digits 0 ds < 10 ^ zlen ds.
Proof.
  induction ds as [|c ds IH] using rev_ind; intros H; [done|].
  apply Forall_app in H as [H Hc]. inversion_clear Hc. specialize (IH H).
  rewrite read_digits_snoc, (zlen_app ds [c]). change (zlen [c]) with 1. rewrite Z.pow_add_r by (unfold zlen; lia). unfold is_digit in *. lia.
Qed.

Lemma digits_aux_spec fuel n acc : (0 < fuel)%nat -> 0 <= n < 10 ^ Z.of_nat fuel ->
  exists ds, digits_aux fuel n acc = ds ++ acc /\ read_digits 0 ds = n /\
    Forall (fun c => is_digit c = true) ds /\ 1 <= zlen ds /\ (zlen ds = 1 \/ 10 ^ (zlen ds - 1) <= n).
Proof.
  revert n acc; induction fuel as [|fuel IH]; intros n acc Hf Hn; [lia|].
  pose proof (Z.div_mod n 10 ltac:(lia)) as Hd. pose proof (Z.mod_pos_bound n 10 ltac:(lia)) as Hm.
  simpl. destruct (Z.ltb_spec n 10) as [Hlt|Hge].
  - exists [48 + n mod 10]. split; [done|]. split.
    { unfold read_digits. cbn [fold_left]. rewrite Z.mod_small; lia. }
    split; [constructor; [unfold is_digit; lia|constructor]|]. rewrite zlen_cons, zlen_nil. lia.
  - assert (0 < fuel)%nat as Hf' by (destruct fuel; [simpl in Hn; lia|lia]).
    destruct (IH (n / 10) (48 + n mod 10 :: acc) Hf') as (ds & -> & Hr & Hfa & Hl & Hlo).
    { split; [apply Z.div_pos; lia|]. apply Z.div_lt_upper_bound; [lia|].
      rewrite Nat2Z.inj_succ, Z.pow_succ_r in Hn by lia. lia. }
    exists (ds ++ [48 + n mod 10]). rewrite <- app_assoc. split; [done|].
    rewrite read_digits_snoc, Hr, (zlen_app ds [_]). change (zlen [_]) with 1.
    split; [lia|]. split; [apply Forall_app_2; [done|]; constructor; [unfold is_digit; lia|constructor]|].
    split; [lia|]. right. replace (zlen ds + 1 - 1) with (Z.succ (zlen ds - 1)) by lia.
    rewrite Z.pow_succ_r by lia. destruct Hlo as [->|]; [simpl; lia|lia].
Qed.

Lemma digits_spec n : 0 <= n ->
  read_digits 0 (digits n) = n /\ Forall (fun c => is_digit c = true) (digits n) /\
  1 <= zlen (digits n) /\ (zlen (digits n) = 1 \/ 10 ^ (zlen (digits n) - 1) <= n).
Proof.
  intros Hn. unfold digits.
  destruct (digits_aux_spec (S (Z.to_nat (Z.log2 n))) n []) as (ds & -> & ?); [lia| |by rewrite app_nil_r].
  split; [done|]. destruct (decide (n = 0)) as [->|]; [by vm_compute|].
  pose proof (Z.log2_spec n ltac:(lia)). pose proof (Z.log2_nonneg n).
  rewrite Nat2Z.inj_succ, Z2Nat.id by done.
  pose proof (Z.pow_le_mono_l 2 10 (Z.succ (Z.log2 n)) ltac:(lia)). lia.
Qed.

(** Digits of the same number and value are the same; a number has one text without leading zeros. *)
Lemma digits_same ds : forall es, length ds = length es -> Forall (fun c => is_digit c = true) ds -> Forall (fun c => is_digit c = true) es ->
  read_digits 0 ds = read_digits 0 es -> ds = es.
Proof.
  induction ds as [|c ds IH] using rev_ind; intros es; [by destruct es|]. destruct es as [|e es _] using rev_ind; rewrite !length_app; cbn [length]; [lia|].
  intros Hl [Hds Hc]%Forall_app [Hes He]%Forall_app Hr. inversion_clear Hc. inversion_clear He. rewrite !read_digits_snoc in Hr.
  assert (c = e) as -> by (unfold is_digit in *; lia). rewrite (IH es); [done|lia|done..|lia].
Qed.
Lemma digits_unique ds n : Forall (fun c => is_digit c = true) ds -> read_digits 0 ds = n -> 1 <= zlen ds -> zlen ds = 1 \/ 10 ^ (zlen ds - 1) <= n -> digits n = ds.
Proof.
  intros Hd Hr Hl Hlo. pose proof (read_digits_bound ds Hd) as Hb. destruct (digits_spec n ltac:(lia)) as (Hr' & Hd' & Hl' & Hlo').
  pose proof (read_digits_bound _ Hd') as Hb'. rewrite Hr, Hr' in *. apply digits_same; try done; [|lia].
  assert (zlen (digits n) = zlen ds) as H; [|unfold zlen in H; lia].
  destruct (Z.lt_trichotomy (zlen (digits n)) (zlen ds)) as [Hlt|[?|Hlt]]; [exfalso|done|exfalso].
  - assert (10 ^ zlen (digits n) <= 10 ^ (zlen ds - 1)) by (apply Z.pow_le_mono_r; lia). lia.
  - assert (10 ^ zlen ds <= 10 ^ (zlen (digits n) - 1)) by (apply Z.pow_le_mono_r; lia). lia.
Qed.

Lemma format_bytes n : 0 <= n -> Forall byte_ok (format_int n).
Proof.
  intros Hn. unfold format_int. destruct (Z.ltb_spec n 0); [lia|]. destruct (digits_spec n Hn) as (_ & Hd & _). eapply Forall_impl; [|exact Hd].
  intros c Hc%is_digit_spec. unfold byte_ok. lia.
Qed.

Lemma span_digits_digits s ds r : span_digits s = (ds, r) -> Forall (fun c => is_digit c = true) ds.
Proof.
  revert ds r; induction s as [|c s IH]; intros ds r; simpl; [by intros [= <- <-]|].
  destruct (is_digit c) eqn:E; [|by intros [= <- <-]]. destruct (span_digits s) as [ds' r'] eqn:Es.
  intros [= <- <-]. constructor; [done|]. by eapply IH.
Qed.
Lemma span_digits_app ds s :
  Forall (fun c => is_digit c = true) ds -> (forall c s', s = c :: s' -> is_digit c = false) ->
  span_digits (ds ++ s) = (ds, s).
Proof.
  intros Hds Hs. induction Hds as [|c ds Hc _ IH]; simpl.
  - destruct s as [|c s']; [done|]. simpl. by rewrite (Hs c s').
  - by rewrite Hc, IH.
Qed.

(** A decimal integer reads back. *)
Lemma from_chars_format_int n : in_i64 n = true -> from_chars_i64 (format_int n) = Some n.
Proof.
  intros Hn. unfold format_int.
  assert (forall (m : Z) (s : list Z) (neg : bool), 0 <= m -> s = digits m -> in_i64 (if neg then - m else m) = true ->
    match span_digits s with
    | ((_ :: _) as ds, []) =>
        let v := if neg then - read_digits 0 ds else read_digits 0 ds in if in_i64 v then Some v else @None Z
    | _ => None end = Some (if neg then - m else m)) as Hgen.
  { intros m s neg Hm -> Hin. destruct (digits_spec m Hm) as (Hr & Hd & Hl & _).
    rewrite <- (app_nil_r (digits m)), span_digits_app by done.
    destruct (digits m) as [|c ds]; [by rewrite zlen_nil in Hl|]. rewrite Hr. cbv zeta. by rewrite Hin. }
  unfold from_chars_i64. destruct (Z.ltb_spec n 0).
  - rewrite (Hgen (- n) _ true) by (try done; try lia; by rewrite Z.opp_involutive). f_equal. lia.
  - destruct (digits_spec n ltac:(lia)) as (_ & Hd & Hl & _).
    destruct (digits n) as [|c ds] eqn:E; [by rewrite zlen_nil in Hl|].
    inversion_clear Hd as [|? ? Hc _]. destruct (Z.eqb_spec c 45) as [->|Hne]; [done|].
    assert (match c with 45 => (true, ds) | _ => (false, c :: ds) end = (false, c :: ds)) as Hm.
    { destruct c as [|p|p]; try done. repeat (destruct p as [p|p|]; try done). }
    rewrite Hm. by apply (Hgen n _ false).
Qed.
