(* ===== verification/Codec.v ===== *)
(** Row records (src/storage/codec.cpp): [encode_row] and [decode_row] on byte lists, the
    round trip between them, the exact set of rows that can be stored, and the typing of
    whatever is decoded. *)
From S2P Require Import Prelude Types Ieee.

(** * Definitions *)
Definition put_u16 (v : Z) : bytes := [Z.land v 0xff; Z.land (Z.shiftr v 8) 0xff].
Definition put_u32 (v : Z) : bytes :=
  [Z.land v 0xff; Z.land (Z.shiftr v 8) 0xff; Z.land (Z.shiftr v 16) 0xff; Z.land (Z.shiftr v 24) 0xff].
Definition read_u16 (p : bytes) (off : Z) : Z := get_u 2 off p.
Definition read_u32 (p : bytes) (off : Z) : Z := get_u 4 off p.

Definition get_int64 (b : Box) : option Z := match b with BInt i => Some i | _ => None end.
Definition get_double (b : Box) : option f64 := match b with BDouble d => Some d | _ => None end.
Definition get_string (b : Box) : option bytes := match b with BStr s => Some s | _ => None end.
Definition get_bool (b : Box) : option bool := match b with BBool x => Some x | _ => None end.
Definition get_float (b : Box) : option f32 := match b with BFloat x => Some x | _ => None end.
Definition get_decv (b : Box) : option DecimalVal := match b with BDec x => Some x | _ => None end.

(** [++b[k]] from the lowest byte until one does not wrap to zero. *)
Fixpoint incr_bytes (bs : bytes) : bytes :=
  match bs with
  | [] => []
  | b :: bs => let b' := wrap 8 (b + 1) in if b' =? 0 then b' :: incr_bytes bs else b' :: bs
  end.
(** The 16 little-endian two's complement bytes of an unscaled value. *)
Definition dec_bytes (u : Z) : bytes :=
  let b := le_bytes 16 (Z.abs u) in
  if u <? 0 then incr_bytes ((fun x => wrap 8 (Z.lnot x)) <$> b) else b.

(** The bytes a non-NULL value adds to the record: [Ok None] is [return false]. *)
Definition encode_col (col : ColumnSpec) (b : Box) : result (option bytes) :=
  let t := ctype col in
  match rep t with
  | RepInt64 =>
      match get_int64 b with
      | None => Ok None
      | Some v =>
          guard_raise (negb (bool_decide (store t = StFixed))) Internal
            (if width t =? 4 then
               if (v <? INT32_MIN) || (v >? INT32_MAX) then Ok None
               else Ok (Some (put_u32 (wrap 32 v)))
             else if width t =? 8 then
               Ok (Some (put_u32 (wrap 32 v) ++ put_u32 (Z.shiftr (wrap 64 v) 32)))
             else Raise Internal)
      end
  | RepDouble =>
      match get_double b with
      | None => Ok None
      | Some v =>
          if negb (is_finite binary64 v) then Ok None
          else guard_raise (negb (bool_decide (store t = StFixed)) || negb (width t =? 8)) Internal
                 (Ok (Some (put_u32 (wrap 32 v) ++ put_u32 (Z.shiftr v 32))))
      end
  | RepStr =>
      match get_string b with
      | None => Ok None
      | Some v =>
          if bool_decide (store t = StVarLen) then
            if zlen v >? UINT16_MAX then Ok None
            else if (clength col >? 0) && (zlen v >? clength col) then Ok None
            else Ok (Some (put_u16 (zlen v) ++ v))
          else if bool_decide (store t = StCharPad) then
            if zlen v >? clength col then Ok None
            else Ok (Some (v ++ replicate (Z.to_nat (clength col - zlen v)) 32))
          else Raise Internal
      end
  | RepFloat =>
      match get_float b with
      | None => Ok None
      | Some v =>
          if negb (is_finite binary32 v) then Ok None
          else guard_raise (negb (bool_decide (store t = StFixed)) || negb (width t =? 4)) Internal
                 (Ok (Some (put_u32 v)))
      end
  | RepBool =>
      match get_bool b with
      | None => Ok None
      | Some v =>
          guard_raise (negb (bool_decide (store t = StFixed)) || negb (width t =? 1)) Internal
            (Ok (Some [if v then 1 else 0]))
      end
  | RepDec =>
      match get_decv b with
      | None => Ok None
      | Some d =>
          if Z.abs (unscaled d) >=? kNumericUnscaledMax then Ok None
          else guard_raise (negb (bool_decide (store t = StDecimal))) Internal
                 (Ok (Some (dec_bytes (unscaled d) ++ [scale d])))
      end
  | RepNone => Raise Internal
  end.

(** [out[2 + i / 8] |= 1 << (i % 8)] *)
Definition set_null_bit (i : Z) (out : bytes) : bytes :=
  alter (fun b => Z.lor b (Z.shiftl 1 (i mod 8))) (Z.to_nat (2 + i / 8)) out.

Fixpoint encode_loop (cs : list ColumnSpec) (vs : list Value) (i : Z) (out : bytes)
  : result (option bytes) :=
  match cs, vs with
  | c :: cs, v :: vs =>
      if value_is_null v then
        if not_null c then Ok None else encode_loop cs vs (i + 1) (set_null_bit i out)
      else
        r ← encode_col c (box v);
        match r with
        | None => Ok None
        | Some bs => encode_loop cs vs (i + 1) (out ++ bs)
        end
  | _, _ => Ok (Some out)
  end.

Definition bitmap_len (n : Z) : Z := (n + 7) / 8.

Definition encode_row (cs : list ColumnSpec) (vs : list Value) : result (option bytes) :=
  if negb (zlen cs =? zlen vs) then Ok None
  else
    r ← encode_loop cs vs 0 ([0; 0] ++ replicate (Z.to_nat (bitmap_len (zlen cs))) 0);
    Ok (match r with
        | None => None
        | Some out =>
            let body_len := wrap 16 (zlen out - 2) in
            Some (<[0%nat := Z.land body_len 0xff]>
                  (<[1%nat := Z.land (Z.shiftr body_len 8) 0xff]> out))
        end).

(** The value of a non-NULL column at [pos] and the position after it: [Ok None] is
    [return false]. *)
Definition decode_col (col : ColumnSpec) (data : bytes) (len pos : Z)
  : result (option (Value * Z)) :=
  let t := ctype col in
  match rep t with
  | RepInt64 =>
      if width t =? 4 then
        if pos + 4 >? len then Ok None
        else Ok (Some (int_val t (sgn 32 (read_u32 data pos)), pos + 4))
      else if width t =? 8 then
        if pos + 8 >? len then Ok None
        else let lo := read_u32 data pos in let hi := read_u32 data (pos + 4) in
             Ok (Some (int_val t (sgn 64 (Z.lor lo (Z.shiftl hi 32))), pos + 8))
      else Raise Internal
  | RepDouble =>
      if pos + 8 >? len then Ok None
      else Ok (Some (double_val t (Z.lor (read_u32 data pos) (Z.shiftl (read_u32 data (pos + 4)) 32)),
                     pos + 8))
  | RepStr =>
      if bool_decide (store t = StVarLen) then
        if pos + 2 >? len then Ok None
        else let slen := read_u16 data pos in
             if pos + 2 + slen >? len then Ok None
             else Ok (Some (str_val t (slice (pos + 2) slen data), pos + 2 + slen))
      else if bool_decide (store t = StCharPad) then
        if pos + clength col >? len then Ok None
        else Ok (Some (str_val t (slice pos (clength col) data), pos + clength col))
      else Raise Internal
  | RepFloat =>
      if pos + 4 >? len then Ok None
      else Ok (Some (float_val t (read_u32 data pos), pos + 4))
  | RepBool =>
      if pos + 1 >? len then Ok None
      else let b := get_u 1 pos data in
           if b >? 1 then Ok None else Ok (Some (bool_val t (negb (b =? 0)), pos + 1))
  | RepDec =>
      if pos + 17 >? len then Ok None
      else
        let mag := get_u 16 pos data in
        let u := if negb (Z.shiftr mag 127 =? 0) then - (2 ^ 128 - mag) else mag in
        if Z.abs u >=? kNumericUnscaledMax then Ok None
        else Ok (Some (numeric_val t u (get_u 1 (pos + 16) data), pos + 17))
  | RepNone => Raise Internal
  end.

(** Bit [i] of the NULL bitmap at offset 2. *)
Definition null_bit (data : bytes) (i : Z) : bool :=
  Z.testbit (get_u 1 (2 + i / 8) data) (i mod 8).

Fixpoint decode_loop (cs : list ColumnSpec) (data : bytes) (len i pos : Z)
  : result (option (list Value)) :=
  match cs with
  | [] => Ok (Some [])
  | c :: cs =>
      if null_bit data i then
        r ← decode_loop cs data len (i + 1) pos;
        Ok (option_map (cons (typed_null (ctype c))) r)
      else
        h ← decode_col c data len pos;
        match h with
        | None => Ok None
        | Some (v, pos') =>
            r ← decode_loop cs data len (i + 1) pos'; Ok (option_map (cons v) r)
        end
  end.

Definition decode_row (cs : list ColumnSpec) (data : bytes) (len : Z) : result (option (list Value)) :=
  if len <? 2 then Ok None
  else if negb (read_u16 data 0 + 2 =? len) then Ok None
  else if 2 + bitmap_len (zlen cs) >? len then Ok None
  else decode_loop cs data len 0 (2 + bitmap_len (zlen cs)).

(** * What is stored *)
(** The representation of a column is one of the built-in combinations. *)
Definition col_ok (c : ColumnSpec) : Prop :=
  seed_attr (ctype c) /\ 0 <= clength c <= UINT16_MAX.

(** The value read back: it carries the column's attributes; char is space padded. *)
Definition stored (c : ColumnSpec) (v : Value) : Value :=
  mkVal (ctype c)
    match box v with
    | BStr s => if bool_decide (store (ctype c) = StCharPad)
                then BStr (s ++ replicate (Z.to_nat (clength c - zlen s)) 32) else BStr s
    | b => b
    end.

(** The values a column accepts. *)
Definition storable (c : ColumnSpec) (v : Value) : bool :=
  match box v with
  | BNull => negb (not_null c)
  | BInt i => bool_decide (rep (ctype c) = RepInt64) && ((width (ctype c) =? 8) || in_i32 i)
  | BDouble d => bool_decide (rep (ctype c) = RepDouble) && is_finite binary64 d
  | BFloat f => bool_decide (rep (ctype c) = RepFloat) && is_finite binary32 f
  | BBool _ => bool_decide (rep (ctype c) = RepBool)
  | BDec d => bool_decide (rep (ctype c) = RepDec) && (Z.abs (unscaled d) <? kNumericUnscaledMax)
  | BStr s =>
      bool_decide (rep (ctype c) = RepStr) &&
      (if bool_decide (store (ctype c) = StCharPad) then zlen s <=? clength c
       else (zlen s <=? UINT16_MAX) && ((clength c =? 0) || (zlen s <=? clength c)))
  end.

(** * Field layout *)
Lemma put_u16_le v : put_u16 v = le_bytes 2 v.
Proof. unfold put_u16. rewrite !land_ones8, Z.shiftr_div_pow2 by lia. done. Qed.

Lemma put_u32_le v : put_u32 v = le_bytes 4 v.
Proof.
  unfold put_u32. rewrite !land_ones8, !Z.shiftr_div_pow2 by lia. cbn [le_bytes].
  rewrite !Z.div_div by lia. done.
Qed.

Lemma put_u64_le v : 0 <= v < 2 ^ 64 -> put_u32 (wrap 32 v) ++ put_u32 (Z.shiftr v 32) = le_bytes 8 v.
Proof.
  intros Hv. rewrite !put_u32_le, Z.shiftr_div_pow2 by lia. unfold wrap.
  apply le_val_inj; [done|by apply Forall_app_2; apply le_bytes_ok|apply le_bytes_ok|].
  rewrite le_val_app, !le_val_bytes, zlen_le_bytes.
  change (256 ^ Z.of_nat 4) with 4294967296. change (2 ^ 32) with 4294967296.
  change (256 ^ Z.of_nat 8) with (2 ^ 64).
  pose proof (Z.div_mod v 4294967296 ltac:(lia)). rewrite (Z.mod_small v (2 ^ 64)) by lia.
  rewrite Z.mod_mod by lia. rewrite (Z.mod_small (v / _)); [lia|].
  split; [apply Z.div_pos; lia | apply Z.div_lt_upper_bound; lia].
Qed.

Lemma read_u64_lor p pos v :
  0 <= pos -> slice pos 8 p = le_bytes 8 v -> 0 <= v < 2 ^ 64 ->
  Z.lor (read_u32 p pos) (Z.shiftl (read_u32 p (pos + 4)) 32) = v.
Proof.
  intros Hp E Hv. unfold read_u32, get_u.
  rewrite <- put_u64_le, !put_u32_le in E by lia.
  destruct (slice_app_inv _ _ _ _ _ Hp E eq_refl) as [E1 E2].
  rewrite zlen_le_bytes in E1, E2. change (Z.of_nat 4) with 4 in E1, E2.
  rewrite zlen_le_bytes in E2. change (Z.of_nat 4) with 4 in E2.
  rewrite E1, E2, !le_val_bytes. unfold wrap. rewrite Z.shiftr_div_pow2 by lia.
  change (256 ^ Z.of_nat 4) with (2 ^ 32). rewrite Z.mod_mod by lia.
  pose proof (Z.mod_pos_bound v (2 ^ 32) ltac:(lia)). rewrite lor_shiftl_add by lia.
  rewrite (Z.mod_small (v / 2 ^ 32)); [pose proof (Z.div_mod v (2 ^ 32) ltac:(lia)); lia|].
  split; [apply Z.div_pos; lia | apply Z.div_lt_upper_bound; lia].
Qed.

Lemma incr_bytes_le bs : Forall byte_ok bs ->
  incr_bytes bs = le_bytes (length bs) (le_val bs + 1).
Proof.
  induction 1 as [|b bs Hb Hbs IH]; [done|]. cbn [incr_bytes length le_bytes le_val]. unfold byte_ok in Hb.
  unfold wrap. change (2 ^ 8) with 256.
  replace (b + 256 * le_val bs + 1) with (b + 1 + le_val bs * 256) by lia.
  rewrite Z.mod_add, Z.div_add by lia.
  destruct (Z.eqb_spec ((b + 1) mod 256) 0) as [E|E].
  - assert (b = 255) as -> by (apply Z.mod_divide in E as [k Hk]; lia).
    rewrite IH. f_equal. f_equal. rewrite Z.add_comm. done.
  - rewrite Z.div_small; [f_equal; symmetry; apply le_bytes_val; done|].
    destruct (decide (b = 255)) as [->|]; [done|lia].
Qed.

Lemma le_val_compl bs : Forall byte_ok bs ->
  Forall byte_ok ((fun x => wrap 8 (Z.lnot x)) <$> bs) /\
  le_val ((fun x => wrap 8 (Z.lnot x)) <$> bs) = 256 ^ zlen bs - 1 - le_val bs.
Proof.
  induction 1 as [|b bs Hb _ [IH1 IH2]]; [done|]. cbn [fmap list_fmap le_val].
  assert (wrap 8 (Z.lnot b) = 255 - b) as ->.
  { unfold wrap, byte_ok in *. unfold Z.lnot. change (2 ^ 8) with 256.
    symmetry. apply Z.mod_unique with (-1); lia. }
  split; [constructor; [unfold byte_ok in *; lia | done]|].
  setoid_rewrite IH2. rewrite zlen_cons, Z.pow_add_r by (unfold zlen; lia). lia.
Qed.

Lemma dec_bytes_le u : Z.abs u < 2 ^ 127 -> dec_bytes u = le_bytes 16 (u mod 2 ^ 128).
Proof.
  intros Hu. unfold dec_bytes. destruct (Z.ltb_spec u 0).
  - destruct (le_val_compl (le_bytes 16 (Z.abs u)) (le_bytes_ok _ _)) as [Hok Hv].
    rewrite incr_bytes_le by done. rewrite Hv, zlen_le_bytes, le_val_bytes_small by lia.
    rewrite length_fmap, length_le_bytes. f_equal.
    change (256 ^ Z.of_nat 16) with (2 ^ 128). apply Z.mod_unique with (-1); lia.
  - rewrite Z.abs_eq, Z.mod_small by lia. done.
Qed.

(** * One column *)
Lemma max_lt_2_127 : kNumericUnscaledMax < 2 ^ 127.
Proof. done. Qed.

Lemma dec_mag_read u : Z.abs u < kNumericUnscaledMax ->
  (let mag := u mod 2 ^ 128 in
   if negb (Z.shiftr mag 127 =? 0) then - (2 ^ 128 - mag) else mag) = u.
Proof.
  intros Hu. pose proof max_lt_2_127. cbv zeta. rewrite Z.shiftr_div_pow2 by lia.
  destruct (Z.ltb_spec u 0).
  - assert (u mod 2 ^ 128 = u + 2 ^ 128) as -> by (symmetry; apply Z.mod_unique with (-1); lia).
    destruct (Z.eqb_spec ((u + 2 ^ 128) / 2 ^ 127) 0) as [E|E]; [|simpl; lia].
    apply Z.div_small_iff in E; lia.
  - rewrite Z.mod_small by lia. rewrite Z.div_small by lia. done.
Qed.

(** The bytes of a stored field, in arithmetic form. *)
Definition field_bytes (c : ColumnSpec) (b : Box) : bytes :=
  match b with
  | BNull => []
  | BInt i => le_bytes (Z.to_nat (width (ctype c))) (wrap (8 * width (ctype c)) i)
  | BDouble d => le_bytes 8 d
  | BFloat f => le_bytes 4 f
  | BBool x => [if x then 1 else 0]
  | BDec d => le_bytes 16 (wrap 128 (unscaled d)) ++ [scale d]
  | BStr s => if bool_decide (store (ctype c) = StCharPad)
              then s ++ replicate (Z.to_nat (clength c - zlen s)) 32
              else le_bytes 2 (zlen s) ++ s
  end.

Ltac seed_cases H :=
  apply seed_attr_cases in H as [H|[H|[H|[H|[H|[H|[H|H]]]]]]]; rewrite H in *.
Ltac seed_cbn :=
  cbn [rep store width kInt kBigint kDouble kVarChar kFloat kChar kBool kNumeric box
       get_int64 get_double get_string get_bool get_float get_decv wf_box] in *.
Ltac decide_consts :=
  repeat match goal with
  | |- context [bool_decide (?a = ?b)] =>
      first [ rewrite (bool_decide_true (a = b)) by reflexivity
            | rewrite (bool_decide_false (a = b)) by discriminate ]
  | H : context [bool_decide (?a = ?b)] |- _ =>
      first [ rewrite (bool_decide_true (a = b)) in H by reflexivity
            | rewrite (bool_decide_false (a = b)) in H by discriminate ]
  end.
(** Discharge a bounds test [x >? y] that the context decides. *)
Ltac gtb_false :=
  match goal with
  | |- context [?x >? ?y] => let E := fresh in destruct (Z.gtb_spec x y) as [E|E]; [exfalso; lia|]; clear E
  end.

(** [encode_col] on a built-in column never raises: it accepts exactly the storable values and
    writes their field bytes. *)
Lemma encode_col_spec c b : col_ok c -> wf_box b -> b <> BNull ->
  encode_col c b =
    Ok (if storable c (mkVal (ctype c) b) then Some (field_bytes c b) else None).
Proof.
  intros [Hs Hl] Hwf Hb. unfold encode_col, storable, field_bytes.
  seed_cases Hs; seed_cbn; destruct b as [|x|i|d|f|s|d]; try done; seed_cbn; decide_consts; try done;
    unfold guard_raise; cbn [negb orb andb].
  - unfold in_i32. cbn [Z.eqb orb]. rewrite put_u32_le.
    destruct (Z.ltb_spec i INT32_MIN), (Z.gtb_spec i INT32_MAX), (Z.leb_spec INT32_MIN i),
      (Z.leb_spec i INT32_MAX); try lia; done.
  - change (le_bytes _ _) with (le_bytes 8 (wrap 64 i)).
    rewrite <- (put_u64_le (wrap 64 i)) by (apply wrap_bound; lia). do 4 f_equal.
    unfold wrap. rewrite Z.mod_mod_divide; [done|]. by exists (2 ^ 32).
  - destruct (is_finite binary64 d); cbn [negb]; [|done]. by rewrite put_u64_le.
  - rewrite put_u16_le. unfold UINT16_MAX in *.
    destruct (Z.gtb_spec (zlen s) 65535), (Z.leb_spec (zlen s) 65535); try lia; [done|].
    cbn [andb]. destruct (Z.gtb_spec (clength c) 0), (Z.eqb_spec (clength c) 0); try lia; [|done].
    cbn [andb orb]. destruct (Z.gtb_spec (zlen s) (clength c)), (Z.leb_spec (zlen s) (clength c)); lia || done.
  - destruct (is_finite binary32 f); cbn [negb]; [|done]. by rewrite put_u32_le.
  - destruct (Z.gtb_spec (zlen s) (clength c)), (Z.leb_spec (zlen s) (clength c)); lia || done.
  - rewrite Z.geb_leb. pose proof max_lt_2_127.
    destruct (Z.leb_spec kNumericUnscaledMax (Z.abs (unscaled d))),
      (Z.ltb_spec (Z.abs (unscaled d)) kNumericUnscaledMax); try lia; [done|].
    cbn. by rewrite dec_bytes_le by lia.
Qed.

Lemma stored_wf c v : wf_box (box v) -> wf_box (box (stored c v)).
Proof.
  unfold stored. destruct (box v); cbn; try done. intros. case_bool_decide; cbn; [|done].
  apply Forall_app_2; [done|]. by apply Forall_replicate.
Qed.

Lemma field_bytes_ok c b : wf_box b -> Forall byte_ok (field_bytes c b).
Proof.
  destruct b as [|x|i|d|f|s|d]; cbn [field_bytes wf_box]; intros; auto using le_bytes_ok.
  - by destruct x; repeat constructor.
  - case_bool_decide; apply Forall_app_2; auto using le_bytes_ok. by apply Forall_replicate.
  - apply Forall_app_2; [apply le_bytes_ok|]. by constructor; [|constructor].
Qed.

(** Reading back a stored field. *)
Lemma decode_field c b data pos len :
  col_ok c -> wf_box b -> storable c (mkVal (ctype c) b) = true -> b <> BNull -> 0 <= pos ->
  slice pos (zlen (field_bytes c b)) data = field_bytes c b -> pos + zlen (field_bytes c b) <= len ->
  decode_col c data len pos =
    Ok (Some (stored c (mkVal (ctype c) b), pos + zlen (field_bytes c b))).
Proof.
  intros [Hs Hl] Hwf Hst Hb Hp Hd Hlen. unfold decode_col, stored, field_bytes, storable in *.
  seed_cases Hs; seed_cbn; destruct b as [|x|i|d|f|s|d]; try done; seed_cbn; cbn [Z.eqb Pos.eqb];
    decide_consts; cbn [andb orb] in Hst; try discriminate Hst; autorewrite with buf in *.
  - change (Z.of_nat (Z.to_nat 4)) with 4 in *. gtb_false. apply in_i32_spec in Hst.
    unfold read_u32. rewrite (get_u_slice _ _ (wrap 32 i)); [|by apply wrap_bound|lia|done].
    by rewrite sgn32_wrap.
  - change (Z.of_nat (Z.to_nat 8)) with 8 in *. gtb_false.
    rewrite (read_u64_lor _ _ (wrap 64 i)); [|lia|done|by apply wrap_bound]. by rewrite sgn64_wrap.
  - change (Z.of_nat 8) with 8 in *. gtb_false. by rewrite (read_u64_lor _ _ d).
  - change (Z.of_nat 2) with 2 in *. pose proof (zlen_nonneg s). gtb_false.
    apply andb_prop in Hst as [Hst _]. unfold UINT16_MAX in *.
    destruct (slice_app_inv pos _ _ _ data ltac:(lia) Hd ltac:(buf; lia)) as [H1 H2].
    rewrite zlen_le_bytes in H1, H2. change (Z.of_nat 2) with 2 in *.
    unfold read_u16. rewrite (get_u_slice _ _ (zlen s)); [|lia..|done].
    gtb_false. rewrite H2. do 3 f_equal. lia.
  - change (Z.of_nat 4) with 4 in *. gtb_false. unfold read_u32. by rewrite (get_u_slice _ _ f).
  - pose proof (zlen_nonneg s).
    rewrite !Z2Nat.id in * by lia. replace (zlen s + (clength c - zlen s)) with (clength c) in * by lia.
    gtb_false. by rewrite Hd.
  - gtb_false. unfold get_u. change (1 + 0) with 1 in Hd. rewrite Hd. by destruct x.
  - change (Z.of_nat 16) with 16 in *. change (1 + 0) with 1 in *.
    destruct (slice_app_inv pos _ _ _ data ltac:(lia) Hd ltac:(buf)) as [H1 H2].
    rewrite zlen_le_bytes in H1, H2. change (Z.of_nat 16) with 16 in *.
    apply Z.ltb_lt in Hst. gtb_false.
    rewrite (get_u_slice 16 pos (wrap 128 (unscaled d))); [|by apply wrap_bound|lia|done].
    pose proof (dec_mag_read (unscaled d) Hst) as Hm. cbv zeta in Hm. unfold wrap. rewrite Hm.
    rewrite Z.geb_leb, (proj2 (Z.leb_gt _ _)) by lia.
    assert (get_u 1 (pos + 16) data = scale d) as ->.
    { unfold get_u. change (zlen [scale d]) with 1 in H2. rewrite H2. simpl. lia. }
    by destruct d.
Qed.

(** * The row loop *)
Fixpoint set_nulls (vs : list Value) (i : Z) (out : bytes) : bytes :=
  match vs with
  | [] => out
  | v :: vs => set_nulls vs (i + 1) (if value_is_null v then set_null_bit i out else out)
  end.
Definition fields (cs : list ColumnSpec) (vs : list Value) : bytes :=
  mjoin (zip_with (fun c v => field_bytes c (box v)) cs vs).
Definition all_storable (cs : list ColumnSpec) (vs : list Value) : bool :=
  forallb id (zip_with storable cs vs).
Definition null_at (vs : list Value) (j : Z) : bool :=
  match vs !! Z.to_nat j with Some v => value_is_null v | None => false end.

Lemma fields_cons c cs v vs : fields (c :: cs) (v :: vs) = field_bytes c (box v) ++ fields cs vs.
Proof. done. Qed.

Lemma storable_box c v : storable c v = storable c (mkVal (ctype c) (box v)).
Proof. done. Qed.

Lemma zlen_set_null_bit i out : zlen (set_null_bit i out) = zlen out.
Proof. unfold set_null_bit, zlen. by rewrite length_alter. Qed.

Lemma set_null_bit_app i out bs :
  0 <= i -> 2 + i / 8 < zlen out -> set_null_bit i (out ++ bs) = set_null_bit i out ++ bs.
Proof.
  intros Hi Hl. unfold set_null_bit, zlen in *. apply alter_app_l.
  assert (0 <= i / 8) by (apply Z.div_pos; lia). lia.
Qed.

Lemma zlen_set_nulls vs i out : zlen (set_nulls vs i out) = zlen out.
Proof.
  revert i out; induction vs as [|v vs IH]; intros i out; simpl; [done|].
  rewrite IH. destruct (value_is_null v); [apply zlen_set_null_bit | done].
Qed.

(** The loop stores every value when all are storable and stops with [false] otherwise. *)
Lemma encode_loop_spec cs vs i out bs :
  Forall col_ok cs -> Forall (fun v => wf_box (box v)) vs -> length cs = length vs -> 0 <= i ->
  2 + (i + zlen cs - 1) / 8 < zlen out ->
  encode_loop cs vs i (out ++ bs) =
    Ok (if all_storable cs vs then Some (set_nulls vs i out ++ bs ++ fields cs vs) else None).
Proof.
  intros Hcs. revert vs i out bs.
  induction Hcs as [|c cs Hc Hcs IH]; intros [|v vs] i out bs Hvs Hlen Hi Hout; try done.
  { unfold fields. simpl. by rewrite app_nil_r. }
  inversion Hvs as [|? ? Hv Hvs']; subst. simpl in Hlen. rewrite zlen_cons in Hout.
  cbn [encode_loop set_nulls]. rewrite fields_cons. unfold all_storable. cbn [zip_with forallb].
  fold (all_storable cs vs). unfold id at 1.
  assert (i / 8 <= (i + (1 + zlen cs) - 1) / 8).
  { apply Z.div_le_mono; [lia|]. pose proof (zlen_nonneg cs). lia. }
  assert (2 + (i + 1 + zlen cs - 1) / 8 < zlen out) as Hout'.
  { replace (i + 1 + zlen cs - 1) with (i + (1 + zlen cs) - 1) by lia. lia. }
  destruct (value_is_null v) eqn:En.
  - apply value_is_null_spec in En. unfold storable at 1. rewrite En.
    destruct (not_null c); [done|]. cbn [negb andb field_bytes app].
    rewrite set_null_bit_app by lia. apply IH; [done|lia|lia|by rewrite zlen_set_null_bit].
  - assert (box v <> BNull) by (intros E; apply value_is_null_spec in E; congruence).
    rewrite encode_col_spec, <- storable_box by done.
    destruct (storable c v); [|done]. cbn [andb mbind result_bind].
    rewrite <- app_assoc, IH by (done || lia). by rewrite <- app_assoc.
Qed.

Lemma get_u_1 off p : get_u 1 off p = default 0 (p !! Z.to_nat off).
Proof.
  unfold get_u, slice. change (Z.to_nat 1) with 1%nat.
  assert (p !! Z.to_nat off = drop (Z.to_nat off) p !! 0%nat) as ->.
  { rewrite lookup_drop. f_equal. lia. }
  destruct (drop (Z.to_nat off) p) as [|b l]; [done|].
  change (b + 256 * 0 = b). lia.
Qed.

Lemma null_bit_set i j out :
  0 <= i -> 0 <= j -> 2 + i / 8 < zlen out ->
  null_bit (set_null_bit i out) j = null_bit out j || (i =? j).
Proof.
  intros Hi Hj Hl. unfold null_bit, set_null_bit. rewrite !get_u_1.
  assert (0 <= i / 8) by (apply Z.div_pos; lia). assert (0 <= j / 8) by (apply Z.div_pos; lia).
  pose proof (Z.mod_pos_bound i 8). pose proof (Z.mod_pos_bound j 8).
  pose proof (Z.div_mod i 8). pose proof (Z.div_mod j 8).
  destruct (decide (i / 8 = j / 8)) as [Ed|Ed].
  - rewrite Ed, list_lookup_alter_eq. unfold zlen in Hl.
    destruct (lookup_lt_is_Some_2 out (Z.to_nat (2 + j / 8))) as [b ->]; [lia|].
    simpl. rewrite Z.lor_spec. f_equal.
    destruct (Z.eqb_spec i j) as [->|]; rewrite Z.shiftl_spec by lia.
    + by rewrite Z.sub_diag.
    + destruct (decide (j mod 8 < i mod 8)); [by rewrite Z.testbit_neg_r by lia|].
      apply (Z.bits_above_log2 1); simpl; lia.
  - rewrite list_lookup_alter_ne by lia. destruct (Z.eqb_spec i j); [congruence|].
    by rewrite orb_false_r.
Qed.

Lemma null_bit_set_nulls vs i j out :
  0 <= i -> 0 <= j -> 2 + (i + zlen vs - 1) / 8 < zlen out ->
  null_bit (set_nulls vs i out) j = null_bit out j || (i <=? j) && null_at vs (j - i).
Proof.
  revert i out; induction vs as [|v vs IH]; intros i out Hi Hj Hl.
  { simpl. unfold null_at. rewrite lookup_nil, andb_false_r. by rewrite orb_false_r. }
  rewrite zlen_cons in Hl. cbn [set_nulls].
  assert (i / 8 <= (i + (1 + zlen vs) - 1) / 8).
  { apply Z.div_le_mono; [lia|]. pose proof (zlen_nonneg vs). lia. }
  rewrite IH; [|lia|lia|]; cycle 1.
  { replace (i + 1 + zlen vs - 1) with (i + (1 + zlen vs) - 1) by lia.
    destruct (value_is_null v); rewrite ?zlen_set_null_bit; lia. }
  assert (null_bit (if value_is_null v then set_null_bit i out else out) j
          = null_bit out j || value_is_null v && (i =? j)) as ->.
  { destruct (value_is_null v); [apply null_bit_set; lia | by rewrite orb_false_r]. }
  rewrite <- orb_assoc. f_equal. unfold null_at.
  destruct (Z.eqb_spec i j) as [->|Hne].
  - rewrite Z.sub_diag. simpl. destruct (Z.leb_spec (j + 1) j); [lia|].
    rewrite Z.leb_refl. by destruct (value_is_null v).
  - rewrite andb_false_r. simpl. destruct (Z.leb_spec (i + 1) j), (Z.leb_spec i j); try lia.
    replace (Z.to_nat (j - i)) with (S (Z.to_nat (j - (i + 1)))) by lia. done.
Qed.

(** Decoding a buffer that holds the fields of [vs] at [pos] and their NULL bits from [i]. *)
Lemma decode_loop_spec cs vs data len i pos :
  Forall col_ok cs -> Forall (fun v => wf_box (box v)) vs -> length cs = length vs ->
  all_storable cs vs = true -> 0 <= i -> 0 <= pos ->
  (forall j, 0 <= j < zlen vs -> null_bit data (i + j) = null_at vs j) ->
  slice pos (zlen (fields cs vs)) data = fields cs vs -> pos + zlen (fields cs vs) <= len ->
  decode_loop cs data len i pos = Ok (Some (zip_with stored cs vs)).
Proof.
  intros Hcs. revert vs i pos.
  induction Hcs as [|c cs Hc Hcs IH]; intros [|v vs] i pos Hvs Hlen Hst Hi Hp Hn Hd Hl; try done.
  inversion Hvs as [|? ? Hv Hvs']; subst. simpl in Hlen.
  apply andb_prop in Hst as [Hst1 Hst]. rewrite fields_cons in *. cbn [decode_loop zip_with].
  rewrite zlen_app in *. pose proof (zlen_nonneg (field_bytes c (box v))).
  pose proof (zlen_nonneg vs). pose proof (zlen_nonneg (fields cs vs)).
  destruct (slice_app_inv pos _ _ _ data Hp Hd eq_refl) as [Hd1 Hd2].
  assert (null_bit data i = value_is_null v) as ->.
  { rewrite <- (Z.add_0_r i). apply (Hn 0). rewrite zlen_cons. lia. }
  assert (forall p', p' = pos + zlen (field_bytes c (box v)) ->
    decode_loop cs data len (i + 1) p' = Ok (Some (zip_with stored cs vs))) as Hrest.
  { intros p' ->. apply IH; try done; try lia. intros j Hj.
    rewrite <- Z.add_assoc, (Hn (1 + j)) by (rewrite zlen_cons; lia). unfold null_at.
    by replace (Z.to_nat (1 + j)) with (S (Z.to_nat j)) by lia. }
  destruct (value_is_null v) eqn:En.
  - apply value_is_null_spec in En. rewrite (Hrest pos); [|rewrite En; cbn [field_bytes]; rewrite zlen_nil; lia].
    simpl. unfold stored. by rewrite En.
  - assert (box v <> BNull) by (intros E; apply value_is_null_spec in E; congruence).
    rewrite (decode_field c (box v)) by (done || lia). simpl. by rewrite Hrest.
Qed.

(** * Rows *)
Section row.
Context (cs : list ColumnSpec) (vs : list Value).
Hypothesis Hcs : Forall col_ok cs.
Hypothesis Hvs : Forall (fun v => wf_box (box v)) vs.

(** The record image before its length field is filled in. *)
Definition row_image : bytes :=
  set_nulls vs 0 ([0; 0] ++ replicate (Z.to_nat (bitmap_len (zlen cs))) 0) ++ fields cs vs.

Lemma bitmap_bound n : 0 <= n -> 2 + (n - 1) / 8 < 2 + bitmap_len n.
Proof.
  intros Hn. unfold bitmap_len. replace (n + 7) with (n - 1 + 1 * 8) by lia.
  rewrite Z.div_add by lia. lia.
Qed.

Lemma encode_row_eq :
  encode_row cs vs =
    Ok (if (zlen cs =? zlen vs) && all_storable cs vs then
          Some (put_u16 (wrap 16 (zlen row_image - 2)) ++ drop 2 row_image)
        else None).
Proof.
  unfold encode_row. destruct (Z.eqb_spec (zlen cs) (zlen vs)) as [E|E]; [|done]. cbn [negb andb].
  pose proof (bitmap_bound (zlen cs) (zlen_nonneg _)).
  assert (0 <= bitmap_len (zlen cs)).
  { unfold bitmap_len. apply Z.div_pos; [|lia]. pose proof (zlen_nonneg cs). lia. }
  pose proof (encode_loop_spec cs vs 0 ([0; 0] ++ replicate (Z.to_nat (bitmap_len (zlen cs))) 0) [] Hcs Hvs) as Hl.
  rewrite app_nil_r in Hl. rewrite Hl; [|unfold zlen in E; lia|lia|rewrite zlen_app, zlen_replicate].
  - destruct (all_storable cs vs); [|done]. cbn [mbind result_bind]. rewrite app_nil_l.
    fold row_image.
    assert (exists a b l, row_image = a :: b :: l) as (a & b & l & ->); [|reflexivity].
    unfold row_image. pose proof (zlen_set_nulls vs 0 ([0; 0] ++ replicate (Z.to_nat (bitmap_len (zlen cs))) 0)) as Hz.
    rewrite zlen_app, zlen_replicate in Hz. change (zlen [0; 0]) with 2 in Hz.
    destruct (set_nulls vs 0 _) as [|a [|b l]]; [unfold zlen in Hz; simpl in Hz; lia..|].
    by exists a, b, (l ++ fields cs vs).
  - change (zlen [0; 0]) with 2. rewrite Z.add_0_l. lia.
Qed.
End row.

Lemma null_at_nonneg_default vs j : 0 <= j -> null_at vs j = false \/ 0 <= j < zlen vs.
Proof.
  intros Hj. unfold null_at. destruct (decide (j < zlen vs)) as [|Hge]; [by right|left].
  rewrite lookup_ge_None_2; [done|]. unfold zlen in Hge. lia.
Qed.

Lemma null_bit_zeros n j : 0 <= j -> null_bit ([0; 0] ++ replicate n 0) j = false.
Proof.
  intros Hj. unfold null_bit. rewrite get_u_1.
  destruct (([0; 0] ++ replicate n 0) !! Z.to_nat (2 + j / 8)) as [b|] eqn:E; [|apply Z.bits_0].
  apply list_elem_of_lookup_2 in E. apply elem_of_app in E as [E|E].
  - apply elem_of_cons in E as [->|[->|[]%not_elem_of_nil]%elem_of_cons]; apply Z.bits_0.
  - apply elem_of_replicate in E as [-> _]. apply Z.bits_0.
Qed.

Lemma null_bit_app_l p q j : 0 <= j -> 2 + j / 8 < zlen p -> null_bit (p ++ q) j = null_bit p j.
Proof.
  intros. unfold null_bit. rewrite !get_u_1. assert (0 <= j / 8) by (apply Z.div_pos; lia).
  rewrite lookup_app_l; [done|]. unfold zlen in *. lia.
Qed.

Lemma null_bit_header a p j :
  0 <= j -> 2 <= zlen p -> null_bit (put_u16 a ++ drop 2 p) j = null_bit p j.
Proof.
  intros Hj Hp. unfold null_bit. rewrite !get_u_1. assert (0 <= j / 8) by (apply Z.div_pos; lia).
  destruct p as [|x [|y p]]; [unfold zlen in Hp; simpl in Hp; lia..|]. do 2 f_equal.
  replace (Z.to_nat (2 + j / 8)) with (S (S (Z.to_nat (j / 8)))) by lia. done.
Qed.

(** A record is bytes. *)
Lemma byte_lor a b : byte_ok a -> byte_ok b -> byte_ok (Z.lor a b).
Proof.
  unfold byte_ok. intros Ha Hb. split; [apply Z.lor_nonneg; lia|].
  destruct (decide (Z.lor a b = 0)); [lia|]. apply (Z.log2_lt_pow2 _ 8); [pose proof (proj2 (Z.lor_nonneg a b)); lia|].
  rewrite Z.log2_lor by lia. assert (forall x, 0 <= x < 256 -> Z.log2 x < 8) as Hl.
  { intros x Hx. destruct (decide (x = 0)) as [->|]; [done|]. apply (Z.log2_lt_pow2 x 8); lia. }
  pose proof (Hl a Ha). pose proof (Hl b Hb). lia.
Qed.
Lemma set_nulls_bytes vs i out : 0 <= i -> Forall byte_ok out -> Forall byte_ok (set_nulls vs i out).
Proof.
  revert i out; induction vs as [|v vs IH]; intros i out Hi Ho; simpl; [done|]. apply IH; [lia|]. destruct (value_is_null v); [|done].
  unfold set_null_bit. apply Forall_alter; [done|]. intros b _ Hb. apply byte_lor; [done|].
  pose proof (Z.mod_pos_bound i 8 ltac:(lia)). assert (i mod 8 = 0 \/ i mod 8 = 1 \/ i mod 8 = 2 \/ i mod 8 = 3 \/ i mod 8 = 4 \/ i mod 8 = 5 \/ i mod 8 = 6 \/ i mod 8 = 7) as Hc by lia.
  by repeat destruct Hc as [->|Hc]; rewrite ?Hc.
Qed.
Lemma encode_row_bytes cs vs rec : Forall col_ok cs -> Forall (fun v => wf_box (box v)) vs ->
  encode_row cs vs = Ok (Some rec) -> Forall byte_ok rec.
Proof.
  intros Hcs Hvs He. rewrite encode_row_eq in He by done. destruct (_ && _); [|done]. assert (rec = put_u16 (wrap 16 (zlen (row_image cs vs) - 2)) ++ drop 2 (row_image cs vs)) as -> by congruence. apply Forall_app. split.
  - rewrite put_u16_le. apply le_bytes_ok.
  - apply Forall_drop. unfold row_image. apply Forall_app. split.
    + apply set_nulls_bytes; [done|]. apply Forall_app. split; [by repeat constructor|]. by apply Forall_replicate.
    + unfold fields. apply Forall_join. clear Hcs He. revert cs; induction Hvs as [|v vs Hv _ IH]; intros [|c cs]; simpl; constructor; [by apply field_bytes_ok|apply IH].
Qed.

Lemma row_round_trip cs vs rec :
  Forall col_ok cs -> Forall (fun v => wf_box (box v)) vs ->
  encode_row cs vs = Ok (Some rec) -> zlen rec <= UINT16_MAX + 2 ->
  decode_row cs rec (zlen rec) = Ok (Some (zip_with stored cs vs)).
Proof.
  intros Hcs Hvs He Hlen. rewrite encode_row_eq in He by done.
  destruct (Z.eqb_spec (zlen cs) (zlen vs)) as [E|]; [|done]. cbn [andb] in He.
  destruct (all_storable cs vs) eqn:Hst; [|done].
  assert (rec = put_u16 (wrap 16 (zlen (row_image cs vs) - 2)) ++ drop 2 (row_image cs vs)) as -> by congruence.
  pose proof (bitmap_bound (zlen cs) (zlen_nonneg _)) as Hbm.
  set (hd := [0; 0] ++ replicate (Z.to_nat (bitmap_len (zlen cs))) 0).
  assert (0 <= bitmap_len (zlen cs)) as Hb0.
  { unfold bitmap_len. apply Z.div_pos; [|lia]. pose proof (zlen_nonneg cs). lia. }
  assert (zlen (set_nulls vs 0 hd) = 2 + bitmap_len (zlen cs)) as Hhd.
  { rewrite zlen_set_nulls. unfold hd. rewrite zlen_app, zlen_replicate. change (zlen [0; 0]) with 2. lia. }
  assert (zlen (row_image cs vs) = 2 + bitmap_len (zlen cs) + zlen (fields cs vs)) as Hri.
  { unfold row_image. fold hd. rewrite zlen_app. lia. }
  pose proof (zlen_nonneg (fields cs vs)).
  set (bl := wrap 16 (zlen (row_image cs vs) - 2)) in *.
  assert (zlen (put_u16 bl ++ drop 2 (row_image cs vs)) = zlen (row_image cs vs)) as Hz.
  { rewrite zlen_app, zlen_drop by lia. change (zlen (put_u16 bl)) with 2. lia. }
  rewrite Hz in Hlen |- *. assert (bl = zlen (row_image cs vs) - 2) as Hbl.
  { apply wrap_small. unfold UINT16_MAX in Hlen. lia. }
  unfold decode_row. destruct (Z.ltb_spec (zlen (row_image cs vs)) 2); [lia|].
  assert (read_u16 (put_u16 bl ++ drop 2 (row_image cs vs)) 0 = bl) as ->.
  { apply get_u_slice; [unfold UINT16_MAX in Hlen; lia|lia|]. rewrite put_u16_le. by apply slice_app_l. }
  rewrite Hbl. destruct (Z.eqb_spec (zlen (row_image cs vs) - 2 + 2) (zlen (row_image cs vs))); [|lia].
  cbn [negb]. gtb_false. rewrite <- Hbl. apply decode_loop_spec; try done; try lia.
  - unfold zlen in E. lia.
  - intros j Hj. rewrite Z.add_0_l, null_bit_header by lia. unfold row_image. fold hd.
    rewrite null_bit_app_l; [|lia|].
    + rewrite null_bit_set_nulls; [|lia|lia|].
      * unfold hd. rewrite null_bit_zeros by lia. rewrite Z.sub_0_r.
        destruct (Z.leb_spec 0 j); [done|lia].
      * rewrite <- (zlen_set_nulls vs 0), Hhd, Z.add_0_l, <- E. lia.
    + rewrite Hhd. assert (j / 8 <= (zlen cs - 1) / 8) by (apply Z.div_le_mono; lia). lia.
  - rewrite put_u16_le, slice_app_r, zlen_le_bytes by (rewrite zlen_le_bytes; lia).
    unfold slice. rewrite drop_drop. unfold row_image. fold hd.
    assert (length (set_nulls vs 0 hd) = Z.to_nat (2 + bitmap_len (zlen cs))) as Hn.
    { apply Nat2Z.inj. rewrite Z2Nat.id by lia. exact Hhd. }
    rewrite drop_app_length' by (rewrite Hn; lia). apply take_ge. unfold zlen. lia.
Qed.

(** C18. Row records round trip: when [encode_row] accepts a row of the built-in column types
    and the record fits the 16-bit length field, [decode_row] reads back the same values, each
    carrying its column's attributes (char values space padded to the declared length). *)
Theorem decode_encode_row cs vs rec :
  Forall col_ok cs -> Forall (fun v => wf_box (box v)) vs ->
  encode_row cs vs = Ok (Some rec) -> zlen rec <= UINT16_MAX + 2 ->
  decode_row cs rec (zlen rec) = Ok (Some (zip_with stored cs vs)).
Proof. apply row_round_trip. Qed.

(** [encode_row] on the built-in column types never raises, and it accepts a row exactly when
    the widths agree and each value suits its column: NULL only where allowed, integers in the
    column's width, finite floats, strings within the declared length, numerics below 10^38. *)
Theorem encode_row_accepts cs vs :
  Forall col_ok cs -> Forall (fun v => wf_box (box v)) vs ->
  exists r, encode_row cs vs = Ok r /\
    (is_Some r <-> zlen cs = zlen vs /\ Forall2 (fun c v => storable c v = true) cs vs).
Proof.
  intros Hcs Hvs. rewrite encode_row_eq by done. eexists; split; [done|].
  destruct (Z.eqb_spec (zlen cs) (zlen vs)) as [E|E]; cbn [andb]; [|split; [by intros [??]|by intros []]].
  assert (all_storable cs vs = true <-> Forall2 (fun c v => storable c v = true) cs vs) as Hiff.
  { clear Hcs Hvs. unfold zlen in E. apply Nat2Z.inj in E. revert vs E.
    induction cs as [|c cs' IH]; intros [|v vs] E; try done.
    injection E as E. specialize (IH vs E). unfold all_storable in *. simpl.
    unfold id at 1. rewrite andb_true_iff. split.
    - intros [??]. constructor; [done|by apply IH].
    - intros H. inversion H; subst. split; [done|by apply IH]. }
  destruct (all_storable cs vs).
  - split; [|done]. split; [done|by apply Hiff].
  - split; [by intros []|]. intros [_ H%Hiff]. done.
Qed.

(** * Decoding arbitrary bytes *)
Lemma sgn_range w z : 0 < w -> - 2 ^ (w - 1) <= sgn w z < 2 ^ (w - 1).
Proof.
  intros Hw. unfold sgn. pose proof (wrap_bound w z ltac:(lia)).
  replace (2 ^ w) with (2 * 2 ^ (w - 1)) in *
    by (rewrite <- Z.pow_succ_r by lia; f_equal; lia).
  destruct (Z.ltb_spec (wrap w z) (2 ^ (w - 1))); lia.
Qed.

Lemma decode_col_typed c data len pos :
  col_ok c -> Forall byte_ok data -> len <= zlen data -> 0 <= pos ->
  match decode_col c data len pos with
  | Ok None => True
  | Ok (Some (v, pos')) => pos <= pos' <= len /\ vtype v = ctype c /\ wf_value v
  | _ => False
  end.
Proof.
  intros [Hs Hl] Hd Hlen Hp. unfold decode_col, wf_value.
  seed_cases Hs; seed_cbn; decide_consts; cbn [Z.eqb Pos.eqb].
  all: repeat match goal with
       | |- context [?x >? ?y] => destruct (Z.gtb_spec x y); [done|]
       | |- context [?x >=? ?y] => destruct (x >=? y); [done|]
       end.
  all: cbn [vtype box int_val double_val float_val str_val bool_val numeric_val wf_box box_rep rep
            kInt kBigint kDouble kVarChar kFloat kChar kBool kNumeric scale]; split_and!; try done; try lia.
  all: unfold read_u16, read_u32 in *; try (by apply Forall_slice).
  all: try match goal with
       | |- context [sgn ?w ?z] =>
           pose proof (sgn_range w z ltac:(lia)); unfold INT64_MIN, INT64_MAX; lia
       end.
  all: try (pose proof (get_u_bound 2 pos data ltac:(lia) ltac:(lia) ltac:(lia) Hd); lia).
  all: try (pose proof (get_u_bound 1 (pos + 16) data ltac:(lia) ltac:(lia) ltac:(lia) Hd); lia).
  all: pose proof (get_u_bound 4 pos data ltac:(lia) ltac:(lia) ltac:(lia) Hd); try lia.
  all: pose proof (get_u_bound 4 (pos + 4) data ltac:(lia) ltac:(lia) ltac:(lia) Hd);
    rewrite lor_shiftl_add by lia; lia.
Qed.

Lemma decode_loop_typed cs data len i pos :
  Forall col_ok cs -> Forall byte_ok data -> len <= zlen data -> 0 <= pos ->
  exists r, decode_loop cs data len i pos = Ok r /\
    forall vs, r = Some vs -> Forall2 (fun c v => vtype v = ctype c /\ wf_value v) cs vs.
Proof.
  intros Hcs Hd Hlen. revert i pos.
  induction Hcs as [|c cs Hc Hcs IH]; intros i pos Hp; cbn [decode_loop].
  { eexists; split; [done|]. intros ? [= <-]. constructor. }
  destruct (null_bit data i).
  - destruct (IH (i + 1) pos Hp) as (r & -> & Hr). eexists; split; [done|].
    destruct r as [vs|]; intros ? [= <-]. constructor; [done|auto].
  - pose proof (decode_col_typed c data len pos Hc Hd Hlen Hp) as Hc1.
    destruct (decode_col c data len pos) as [[[v pos']|]|?|]; try done; cbn [mbind result_bind].
    + destruct Hc1 as (? & ?). destruct (IH (i + 1) pos' ltac:(lia)) as (r & -> & Hr).
      eexists; split; [done|]. destruct r as [vs|]; intros ? [= <-]. constructor; auto.
    + by exists None.
Qed.

(** Decoding is safe on any bytes: on built-in column types [decode_row] never raises, and the
    values of a successful decode have exactly the columns' types and are well formed. *)
Theorem decode_row_typed cs data :
  Forall col_ok cs -> Forall byte_ok data ->
  exists r, decode_row cs data (zlen data) = Ok r /\
    forall vs, r = Some vs -> Forall2 (fun c v => vtype v = ctype c /\ wf_value v) cs vs.
Proof.
  intros Hcs Hd. unfold decode_row.
  destruct (zlen data <? 2); [by exists None|].
  destruct (negb _); [by exists None|].
  destruct (2 + bitmap_len (zlen cs) >? zlen data); [by exists None|].
  apply decode_loop_typed; [done..|].
  assert (0 <= bitmap_len (zlen cs)); [|lia].
  unfold bitmap_len. apply Z.div_pos; [|lia]. pose proof (zlen_nonneg cs). lia.
Qed.

(** * Witnesses *)
Definition demo_cols : list ColumnSpec :=
  [ mkCol "a" kInt 0 true 0; mkCol "b" kVarChar 10 false 0; mkCol "c" kNumeric 0 false 0;
    mkCol "d" kChar 5 false 0; mkCol "e" kBigint 0 false 0; mkCol "f" kDouble 0 false 0 ].
Definition demo_row : list Value :=
  [ int_val kInt (-5); str_val kVarChar (str "hi"); numeric_val kNumeric (-300) 2;
    str_val kChar (str "xy"); null_val; double_val kDouble (of_int binary64 (-3)) ].

Lemma demo_cols_ok : Forall col_ok demo_cols.
Proof. repeat constructor; try done; unfold seed_attr; simpl; set_solver. Qed.
Lemma demo_row_ok : Forall (fun v => wf_box (box v)) demo_row.
Proof. repeat constructor; simpl; try done. Qed.

Lemma decode_encode_row_witness : exists rec,
  encode_row demo_cols demo_row = Ok (Some rec) /\
  decode_row demo_cols rec (zlen rec) = Ok (Some (zip_with stored demo_cols demo_row)).
Proof.
  eexists. split; [vm_compute; reflexivity|].
  apply (decode_encode_row demo_cols demo_row _ demo_cols_ok demo_row_ok);
    [vm_compute; reflexivity | done].
Defined.

Lemma encode_row_accepts_witness :
  exists r, encode_row demo_cols demo_row = Ok r /\
    (is_Some r <-> zlen demo_cols = zlen demo_row /\
    Forall2 (fun c v => storable c v = true) demo_cols demo_row).
Proof. apply (encode_row_accepts demo_cols demo_row demo_cols_ok demo_row_ok). Defined.

Lemma decode_row_typed_witness :
  exists r, decode_row demo_cols [1; 2; 3] (zlen [1; 2; 3]) = Ok r /\
    forall vs, r = Some vs -> Forall2 (fun c v => vtype v = ctype c /\ wf_value v) demo_cols vs.
Proof. apply (decode_row_typed demo_cols [1; 2; 3] demo_cols_ok). by repeat constructor. Defined.
