(* ===== verification/Cast.v ===== *)
(** Value conversions (src/storage/cast.cpp): the dispatch table from representation to
    representation, decimal text, rounding and range checks, with the round trip of numeric text,
    the exactness of the roundings and the typing of every conversion. *)
From S2P Require Import Prelude Types Ieee Finite Text.

Inductive CastMode := Implicit | Assignment | Explicit.
Definition mode_rank (m : CastMode) : Z := match m with Implicit => 0 | Assignment => 1 | Explicit => 2 end.

(** * Box accessors: a representation mismatch is an internal error *)
Definition get_i64 (v : Value) : result Z := match box v with BInt i => Ok i | _ => Raise Internal end.
Definition get_f32 (v : Value) : result f32 := match box v with BFloat f => Ok f | _ => Raise Internal end.
Definition get_f64 (v : Value) : result f64 := match box v with BDouble d => Ok d | _ => Raise Internal end.
Definition get_str_view (v : Value) : result bytes := match box v with BStr s => Ok s | _ => Raise Internal end.
Definition get_bool (v : Value) : result bool := match box v with BBool b => Ok b | _ => Raise Internal end.
Definition get_dec (v : Value) : result DecimalVal := match box v with BDec d => Ok d | _ => Raise Internal end.

(** Drop trailing spaces. *)
Fixpoint rtrim (s : bytes) : bytes :=
  match s with
  | [] => []
  | c :: s => match rtrim s with [] => if c =? 32 then [] else [c] | r => c :: r end
  end.
Definition get_char_view (v : Value) : result bytes := s ← get_str_view v; Ok (rtrim s).
Definition text_view (v : Value) : result bytes :=
  if decide (store (vtype v) = StCharPad) then get_char_view v else get_str_view v.

(** An [int256_t] keeps 256 bits of magnitude: the loop wraps from 10^78 on. *)
Fixpoint pow10_loop (n : nat) (r : Z) : Z := match n with O => r | S n => pow10_loop n (wrap 256 (r * 10)) end.
Definition pow10 (n : Z) : Z := pow10_loop (Z.to_nat n) 1.

(** * Decimal text *)
(** The lambda [take_digits]: [(rest, u, scale, any)]. *)
Fixpoint take_digits (frac : bool) (s : bytes) (u scale : Z) (any : bool) : result (bytes * Z * Z * bool) :=
  match s with
  | c :: s' =>
      if is_digit c then
        let u := u * 10 + (c - 48) in
        let scale := if frac then scale + 1 else scale in
        if kNumericUnscaledMax <=? u then Raise ValueMismatch else take_digits frac s' u scale true
      else Ok (s, u, scale, any)
  | [] => Ok ([], u, scale, any)
  end.
Fixpoint take_exp (s : bytes) (exp : Z) (any : bool) : result (bytes * Z * bool) :=
  match s with
  | c :: s' =>
      if is_digit c then
        let exp := exp * 10 + (c - 48) in
        if exp >? 1000 then Raise ValueMismatch else take_exp s' exp true
      else Ok (s, exp, any)
  | [] => Ok ([], exp, any)
  end.
(** An optional sign: (negative, rest). *)
Definition take_sign (s : bytes) : bool * bytes :=
  match s with
  | c :: s' => if c =? 45 then (true, s') else if c =? 43 then (false, s') else (false, s)
  | [] => (false, s)
  end.
Definition take_exponent (s : bytes) : result (bytes * Z) :=
  match s with
  | c :: s' =>
      if (c =? 101) || (c =? 69) then
        let '(eneg, s') := take_sign s' in
        '(s', exp, eany) ← take_exp s' 0 false;
        if negb eany then Raise ValueMismatch else Ok (s', if eneg then - exp else exp)
      else Ok (s, 0)
  | [] => Ok (s, 0)
  end.
(** [k] times [u *= 10] with the magnitude check. *)
Fixpoint scale_up (k : nat) (u : Z) : result Z :=
  match k with
  | O => Ok u
  | S k => let u := u * 10 in if kNumericUnscaledMax <=? u then Raise ValueMismatch else scale_up k u
  end.
Definition parse_decimal_text (s : bytes) : result DecimalVal :=
  let '(neg, s) := take_sign s in
  '(s, u, scale, any) ← take_digits false s 0 0 false;
  '(s, u, scale, any) ←
    match s with
    | c :: s' => if c =? 46 then take_digits true s' u scale any else Ok (s, u, scale, any)
    | [] => Ok (s, u, scale, any)
    end;
  if negb any then Raise ValueMismatch
  else
    '(s, exp) ← take_exponent s;
    if negb (bool_decide (s = [])) then Raise ValueMismatch
    else
      let scale := scale - exp in
      '(u, scale) ← (if scale <? 0 then u ← scale_up (Z.to_nat (- scale)) u; Ok (u, 0) else Ok (u, scale));
      if scale >? 255 then Raise ValueMismatch
      else Ok (mkDec (if neg then - u else u) scale).

Definition decimal_to_text (d : DecimalVal) : bytes :=
  let neg := unscaled d <? 0 in
  let ds := digits (Z.abs (unscaled d)) in
  if scale d =? 0 then if neg then 45 :: ds else ds
  else
    let ds := if zlen ds <=? scale d then replicate (Z.to_nat (scale d - zlen ds + 1)) 48 ++ ds else ds in
    (if neg then [45] else []) ++ slice 0 (zlen ds - scale d) ds ++ [46]
      ++ slice (zlen ds - scale d) (scale d) ds.

(** * Parsing and rounding *)
Definition strip_plus (s : bytes) : bytes := match s with c :: s' => if c =? 43 then s' else s | [] => s end.
Definition parse_i64 (s : bytes) : result Z :=
  match from_chars_i64 (strip_plus s) with Some i => Ok i | None => Raise ValueMismatch end.
Definition parse_f64 (s : bytes) : result f64 :=
  match from_chars_f64 (strip_plus s) with Some d => Ok d | None => Raise ValueMismatch end.
Definition narrow_f32 (d : f64) : result f32 :=
  let f := Ieee.f64_to_f32 d in
  if is_finite binary64 d && negb (is_finite binary32 f) then Raise ValueMismatch else Ok f.

Definition dec_round_i64 (d : DecimalVal) : result Z :=
  let mag := Z.abs (unscaled d) in
  if scale d >=? 39 then Ok 0
  else
    let p := pow10 (scale d) in
    let r := mag mod p in
    let mag := mag / p in
    let mag := if r * 2 >=? p then mag + 1 else mag in
    if mag >? INT64_MAX then Raise ValueMismatch
    else Ok (if unscaled d <? 0 then - mag else mag).

(** [d >= -2^63 && d < 2^63], false for NaN. *)
Definition f64_minus_2_63 : f64 := 0xc3e0000000000000.
Definition f64_2_63 : f64 := 0x43e0000000000000.
Definition trunc_to_i64 (d : f64) : result Z :=
  if (flt binary64 f64_minus_2_63 d || feq binary64 f64_minus_2_63 d) && flt binary64 d f64_2_63
  then Ok (ftrunc binary64 d) else Raise ValueMismatch.

Definition lower (c : Z) : Z := if (65 <=? c) && (c <=? 90) then c - 65 + 97 else c.
Definition ieq (s t : bytes) : bool := (zlen s =? zlen t) && bool_decide (lower <$> s = t).
Definition parse_bool (s : bytes) : result bool :=
  if ieq s (str "true") then Ok true else if ieq s (str "false") then Ok false else Raise ValueMismatch.

(** * The conversion functions *)
Definition CastFn := Value -> TypeAttr -> result Value.
Definition restamp : CastFn := fun v to => Ok (mkVal to (box v)).
Definition i64_restamp : CastFn := fun v to =>
  if width (vtype v) >? width to then
    i ← get_i64 v; if (i <? INT32_MIN) || (i >? INT32_MAX) then Raise ValueMismatch else Ok (mkVal to (box v))
  else Ok (mkVal to (box v)).
Definition i64_to_f32 : CastFn := fun v to => i ← get_i64 v; Ok (float_val to (of_int binary32 i)).
Definition i64_to_f64 : CastFn := fun v to => i ← get_i64 v; Ok (double_val to (of_int binary64 i)).
Definition f64_to_f32 : CastFn := fun v to => d ← get_f64 v; f ← narrow_f32 d; Ok (float_val to f).
Definition f32_to_f64 : CastFn := fun v to => f ← get_f32 v; Ok (double_val to (Ieee.f32_to_f64 f)).
Definition text_to_text : CastFn := fun v to =>
  if decide (store (vtype v) = StCharPad /\ store to = StVarLen)
  then s ← get_char_view v; Ok (str_val to s) else Ok (mkVal to (box v)).
Definition i64_to_text : CastFn := fun v to => i ← get_i64 v; Ok (str_val to (format_int i)).
Definition f32_to_text : CastFn := fun v to => f ← get_f32 v; Ok (str_val to (format_float binary32 f)).
Definition f64_to_text : CastFn := fun v to => d ← get_f64 v; Ok (str_val to (format_float binary64 d)).
Definition bool_to_text : CastFn := fun v to =>
  b ← get_bool v; Ok (str_val to (if (b : bool) then str "true" else str "false")).
Definition bool_to_i64 : CastFn := fun v to => b ← get_bool v; Ok (int_val to (if (b : bool) then 1 else 0)).
Definition bool_to_f32 : CastFn := fun v to => b ← get_bool v; Ok (float_val to (if (b : bool) then f32_one else 0)).
Definition bool_to_f64 : CastFn := fun v to => b ← get_bool v; Ok (double_val to (if (b : bool) then f64_one else 0)).
Definition bool_to_dec : CastFn := fun v to => b ← get_bool v; Ok (numeric_val to (if (b : bool) then 1 else 0) 0).
Definition i64_to_bool : CastFn := fun v to =>
  i ← get_i64 v; if negb (i =? 0) && negb (i =? 1) then Raise ValueMismatch else Ok (bool_val to (negb (i =? 0))).
Definition f32_to_bool : CastFn := fun v to =>
  f ← get_f32 v; if negb (feq binary32 f 0) && negb (feq binary32 f f32_one) then Raise ValueMismatch
  else Ok (bool_val to (negb (feq binary32 f 0))).
Definition f64_to_bool : CastFn := fun v to =>
  d ← get_f64 v; if negb (feq binary64 d 0) && negb (feq binary64 d f64_one) then Raise ValueMismatch
  else Ok (bool_val to (negb (feq binary64 d 0))).
Definition dec_to_bool : CastFn := fun v to =>
  d ← get_dec v;
  if unscaled d =? 0 then Ok (bool_val to false)
  else if (scale d <? 39) && (Z.abs (unscaled d) =? pow10 (scale d)) then Ok (bool_val to true)
  else Raise ValueMismatch.
Definition text_to_bool : CastFn := fun v to => s ← text_view v; b ← parse_bool s; Ok (bool_val to b).
Definition text_to_i64 : CastFn := fun v to => s ← text_view v; i ← parse_i64 s; Ok (int_val to i).
Definition text_to_f64 : CastFn := fun v to => s ← text_view v; d ← parse_f64 s; Ok (double_val to d).
Definition text_to_f32 : CastFn := fun v to =>
  s ← text_view v; d ← parse_f64 s; f ← narrow_f32 d; Ok (float_val to f).
Definition f64_to_i64 : CastFn := fun v to => d ← get_f64 v; i ← trunc_to_i64 d; Ok (int_val to i).
Definition f32_to_i64 : CastFn := fun v to =>
  f ← get_f32 v; i ← trunc_to_i64 (Ieee.f32_to_f64 f); Ok (int_val to i).
Definition i64_to_dec : CastFn := fun v to => i ← get_i64 v; Ok (numeric_val to i 0).
Definition f64_to_dec : CastFn := fun v to =>
  x ← get_f64 v; d ← parse_decimal_text (format_float binary64 x); Ok (numeric_val to (unscaled d) (scale d)).
Definition f32_to_dec : CastFn := fun v to =>
  x ← get_f32 v; d ← parse_decimal_text (format_float binary32 x); Ok (numeric_val to (unscaled d) (scale d)).
Definition text_to_dec : CastFn := fun v to =>
  s ← text_view v; d ← parse_decimal_text s; Ok (numeric_val to (unscaled d) (scale d)).
Definition dec_to_i64 : CastFn := fun v to => d ← get_dec v; i ← dec_round_i64 d; Ok (int_val to i).
Definition dec_to_f64_raw (d : DecimalVal) : result f64 := parse_f64 (decimal_to_text d).
Definition dec_to_f64 : CastFn := fun v to => d ← get_dec v; x ← dec_to_f64_raw d; Ok (double_val to x).
Definition dec_to_f32 : CastFn := fun v to =>
  d ← get_dec v; x ← dec_to_f64_raw d; f ← narrow_f32 x; Ok (float_val to f).
Definition dec_to_text : CastFn := fun v to => d ← get_dec v; Ok (str_val to (decimal_to_text d)).

(** * The dispatch table: [None] is an empty slot *)
Definition kCastTable (src dst : Rep) : option (CastFn * CastMode) :=
  match src, dst with
  | RepInt64, RepInt64 => Some (i64_restamp, Implicit)
  | RepInt64, RepFloat => Some (i64_to_f32, Implicit)
  | RepInt64, RepDouble => Some (i64_to_f64, Implicit)
  | RepInt64, RepStr => Some (i64_to_text, Explicit)
  | RepInt64, RepBool => Some (i64_to_bool, Explicit)
  | RepInt64, RepDec => Some (i64_to_dec, Implicit)
  | RepFloat, RepInt64 => Some (f32_to_i64, Explicit)
  | RepFloat, RepFloat => Some (restamp, Implicit)
  | RepFloat, RepDouble => Some (f32_to_f64, Implicit)
  | RepFloat, RepStr => Some (f32_to_text, Explicit)
  | RepFloat, RepBool => Some (f32_to_bool, Explicit)
  | RepFloat, RepDec => Some (f32_to_dec, Explicit)
  | RepDouble, RepInt64 => Some (f64_to_i64, Explicit)
  | RepDouble, RepFloat => Some (f64_to_f32, Assignment)
  | RepDouble, RepDouble => Some (restamp, Implicit)
  | RepDouble, RepStr => Some (f64_to_text, Explicit)
  | RepDouble, RepBool => Some (f64_to_bool, Explicit)
  | RepDouble, RepDec => Some (f64_to_dec, Explicit)
  | RepStr, RepInt64 => Some (text_to_i64, Explicit)
  | RepStr, RepFloat => Some (text_to_f32, Explicit)
  | RepStr, RepDouble => Some (text_to_f64, Explicit)
  | RepStr, RepStr => Some (text_to_text, Implicit)
  | RepStr, RepBool => Some (text_to_bool, Explicit)
  | RepStr, RepDec => Some (text_to_dec, Explicit)
  | RepBool, RepInt64 => Some (bool_to_i64, Explicit)
  | RepBool, RepFloat => Some (bool_to_f32, Explicit)
  | RepBool, RepDouble => Some (bool_to_f64, Explicit)
  | RepBool, RepStr => Some (bool_to_text, Explicit)
  | RepBool, RepBool => Some (restamp, Implicit)
  | RepBool, RepDec => Some (bool_to_dec, Explicit)
  | RepDec, RepInt64 => Some (dec_to_i64, Explicit)
  | RepDec, RepFloat => Some (dec_to_f32, Implicit)
  | RepDec, RepDouble => Some (dec_to_f64, Implicit)
  | RepDec, RepStr => Some (dec_to_text, Explicit)
  | RepDec, RepBool => Some (dec_to_bool, Explicit)
  | RepDec, RepDec => Some (restamp, Implicit)
  | RepNone, _ | _, RepNone => None
  end.

Definition cast_value (v : Value) (to : TypeAttr) (mode : CastMode) : result Value :=
  if value_is_null v then Raise Internal
  else match kCastTable (rep (vtype v)) (rep to) with
  | None => Raise Internal
  | Some (fn, tier) =>
      let tier := if decide (rep (vtype v) = RepInt64 /\ rep to = RepInt64 /\ width to < width (vtype v))
                  then Assignment else tier in
      if mode_rank tier >? mode_rank mode then Raise Internal else fn v to
  end.

(** * Rounding to a declared numeric(precision, scale) *)
Fixpoint upscale (k : nat) (u : Z) : result Z :=
  match k with
  | O => Ok u
  | S k => let u := u * 10 in
           if negb (u =? 0) && (kNumericUnscaledMax <=? Z.abs u) then Raise ValueMismatch else upscale k u
  end.
(** The digit count of a magnitude; each round divides by ten. *)
Fixpoint digit_count (fuel : nat) (mag : Z) : Z :=
  match fuel with O => 0 | S fuel => if mag >? 0 then 1 + digit_count fuel (mag / 10) else 0 end.
Definition rescale (d : DecimalVal) (s : Z) : result Z :=
  if scale d >? s then
    let p := pow10 (scale d - s) in
    let r := Z.rem (unscaled d) p in
    let u := Z.quot (unscaled d) p in
    Ok (if Z.abs r * 2 >=? p then u + (if u <? 0 then -1 else 1) else u)
  else upscale (Z.to_nat (s - scale d)) (unscaled d).
Definition coerce_numeric (v : Value) (to : TypeAttr) (precision s : Z) (mode : CastMode) : result Value :=
  n ← cast_value v to mode;
  d ← get_dec n;
  u ← rescale d s;
  if (precision >? 0) && (digit_count (S (Z.to_nat (Z.log2 (Z.abs u)))) (Z.abs u) >? precision)
  then Raise ValueMismatch
  else Ok (numeric_val to u s).

(** * Powers of ten *)
Lemma pow10_small n : 0 <= n <= 77 -> pow10 n = 10 ^ n.
Proof.
  intros Hn. assert (forallb (fun k => pow10 (Z.of_nat k) =? 10 ^ Z.of_nat k) (seq 0 78) = true) as H by (by vm_compute).
  rewrite forallb_forall in H. apply Z.eqb_eq. rewrite <- (Z2Nat.id n) by lia. apply H. apply in_seq. lia.
Qed.
(** The wrapped powers stay above every numeric magnitude, so the wrap is harmless. *)
Fixpoint pow10_check (n : nat) (r : Z) : bool :=
  match n with O => true | S n => (2 * 10 ^ 38 <? r) && pow10_check n (wrap 256 (r * 10)) end.
Lemma pow10_check_loop n k r : (k < n)%nat -> pow10_check n r = true -> 2 * 10 ^ 38 < pow10_loop k r.
Proof.
  revert k r; induction n as [|n IH]; intros k r Hk H; [lia|]. simpl in H. apply andb_true_iff in H as [H1 H2].
  destruct k as [|k]; [by apply Z.ltb_lt|]. cbn [pow10_loop]. apply IH; [lia|done].
Qed.
Lemma pow10_loop_add n k r : pow10_loop (n + k) r = pow10_loop k (pow10_loop n r).
Proof. revert r; induction n as [|n IH]; intros r; [done|]. apply IH. Qed.
Lemma pow10_large n : 39 <= n <= 255 -> 2 * 10 ^ 38 < pow10 n.
Proof.
  intros Hn. unfold pow10. replace (Z.to_nat n) with (39 + (Z.to_nat n - 39))%nat by lia.
  rewrite pow10_loop_add. apply (pow10_check_loop 217); [lia|by vm_compute].
Qed.
Lemma pow10_pos n : 0 <= n <= 255 -> 0 < pow10 n.
Proof.
  intros. destruct (decide (n <= 77)); [rewrite pow10_small by lia; lia|].
  pose proof (pow10_large n ltac:(lia)). lia.
Qed.

(** Rounding of [n / p] to the nearest integer, halves away from zero. *)
Definition round_half_away (n p : Z) : Z :=
  let q := (2 * Z.abs n + p) / (2 * p) in if n <? 0 then - q else q.

Lemma half_away_nonneg n p : 0 <= n -> 0 < p ->
  round_half_away n p = if n mod p * 2 >=? p then n / p + 1 else n / p.
Proof.
  intros Hn Hp. unfold round_half_away. rewrite Z.abs_eq by done. destruct (Z.ltb_spec n 0); [lia|].
  pose proof (Z.div_mod n p ltac:(lia)). pose proof (Z.mod_pos_bound n p ltac:(lia)).
  destruct (Z.geb_spec (n mod p * 2) p).
  - symmetry. apply Z.div_unique with (2 * (n mod p) - p); lia.
  - symmetry. apply Z.div_unique with (2 * (n mod p) + p); lia.
Qed.
Lemma half_away_opp n p : 0 < p -> round_half_away (- n) p = - round_half_away n p.
Proof.
  intros Hp. unfold round_half_away. rewrite Z.abs_opp.
  destruct (Z.ltb_spec (- n) 0), (Z.ltb_spec n 0); try lia.
  assert ((2 * Z.abs n + p) / (2 * p) = 0) by (apply Z.div_small; lia). lia.
Qed.
Lemma half_away_bound n p : 0 < p -> 2 * Z.abs (n - round_half_away n p * p) <= p.
Proof.
  intros Hp. unfold round_half_away. pose proof (Z.div_mod (2 * Z.abs n + p) (2 * p) ltac:(lia)).
  pose proof (Z.mod_pos_bound (2 * Z.abs n + p) (2 * p) ltac:(lia)).
  destruct (Z.ltb_spec n 0); lia.
Qed.

(** [dec_round_i64] rounds to nearest, halves away from zero, and refuses exactly the results whose
    magnitude exceeds INT64_MAX. *)
Lemma dec_round_i64_eq d : 0 <= scale d <= 255 -> Z.abs (unscaled d) < kNumericUnscaledMax ->
  dec_round_i64 d =
    let r := round_half_away (unscaled d) (10 ^ scale d) in
    if Z.abs r >? INT64_MAX then Raise ValueMismatch else Ok r.
Proof.
  intros Hs Hu. unfold dec_round_i64, kNumericUnscaledMax in *.
  assert (round_half_away (unscaled d) (10 ^ scale d) =
    if unscaled d <? 0 then - round_half_away (Z.abs (unscaled d)) (10 ^ scale d)
    else round_half_away (Z.abs (unscaled d)) (10 ^ scale d)) as ->.
  { destruct (Z.ltb_spec (unscaled d) 0); [rewrite Z.abs_neq, half_away_opp by lia; lia|by rewrite Z.abs_eq]. }
  destruct (Z.geb_spec (scale d) 39) as [Hge|Hlt].
  - assert (round_half_away (Z.abs (unscaled d)) (10 ^ scale d) = 0) as ->.
    { pose proof (Z.pow_le_mono_r 10 39 (scale d) ltac:(lia) ltac:(lia)).
      assert (10 ^ 39 = 10 * 10 ^ 38) as E by done. rewrite E in *.
      rewrite half_away_nonneg, Z.mod_small, Z.div_small by lia.
      destruct (Z.geb_spec (Z.abs (unscaled d) * 2) (10 ^ scale d)); lia. }
    by destruct (unscaled d <? 0).
  - rewrite pow10_small by lia. rewrite half_away_nonneg by lia. cbv zeta.
    set (m := if _ >=? _ then _ else _).
    assert (0 <= m) by (unfold m; destruct (_ >=? _); assert (0 <= Z.abs (unscaled d) / 10 ^ scale d) by (apply Z.div_pos; lia); lia).
    destruct (unscaled d <? 0); [rewrite Z.abs_opp|]; rewrite Z.abs_eq by done; by destruct (m >? INT64_MAX).
Qed.

(** * Rescaling *)
Lemma upscale_eq k u : Z.abs u < kNumericUnscaledMax ->
  upscale k u = let u' := u * 10 ^ Z.of_nat k in
                if kNumericUnscaledMax <=? Z.abs u' then Raise ValueMismatch else Ok u'.
Proof.
  revert u; induction k as [|k IH]; intros u Hu; cbv zeta.
  - simpl. rewrite Z.mul_1_r. destruct (Z.leb_spec kNumericUnscaledMax (Z.abs u)); [lia|done].
  - rewrite Nat2Z.inj_succ, Z.pow_succ_r, Z.mul_assoc by lia. cbn [upscale]. cbv zeta.
    assert (0 < 10 ^ Z.of_nat k) by lia.
    assert (Z.abs (u * 10) <= Z.abs (u * 10 * 10 ^ Z.of_nat k)) by (rewrite (Z.abs_mul (u * 10)); nia).
    destruct (Z.eqb_spec (u * 10) 0) as [E|E]; [rewrite E in *|]; simpl negb; cbn [andb];
      [apply (IH 0); unfold kNumericUnscaledMax; lia|].
    destruct (Z.leb_spec kNumericUnscaledMax (Z.abs (u * 10))); [|by apply IH].
    destruct (Z.leb_spec kNumericUnscaledMax (Z.abs (u * 10 * 10 ^ Z.of_nat k))); [done|lia].
Qed.

(** The reference rescaling. *)
Definition rescale_ref (d : DecimalVal) (s : Z) : result Z :=
  if scale d >? s then Ok (round_half_away (unscaled d) (10 ^ (scale d - s)))
  else let u := unscaled d * 10 ^ (s - scale d) in
       if kNumericUnscaledMax <=? Z.abs u then Raise ValueMismatch else Ok u.
(** Negative, and at least half but less than a whole unit of the target scale. *)
Definition small_negative (d : DecimalVal) (s : Z) : Prop :=
  s < scale d /\ - 10 ^ (scale d - s) < unscaled d < 0 /\ 10 ^ (scale d - s) <= 2 * - unscaled d.
#[export] Instance small_negative_dec d s : Decision (small_negative d s).
Proof. unfold small_negative. apply _. Defined.

Lemma rescale_down u p : 0 < p ->
  (let r := Z.rem u p in let q := Z.quot u p in
   if Z.abs r * 2 >=? p then q + (if q <? 0 then -1 else 1) else q) =
  if decide (- p < u < 0 /\ p <= 2 * - u) then 1 else round_half_away u p.
Proof.
  intros Hp. cbv zeta. destruct (Z_lt_ge_dec u 0) as [Hneg|Hpos].
  - assert (Z.rem u p = - ((- u) mod p)) as ->.
    { rewrite <- Z.rem_mod_nonneg by lia. rewrite Z.rem_opp_l by lia. lia. }
    assert (Z.quot u p = - ((- u) / p)) as ->.
    { rewrite <- Z.quot_div_nonneg by lia. rewrite Z.quot_opp_l by lia. lia. }
    rewrite Z.abs_opp. pose proof (Z.mod_pos_bound (- u) p Hp). rewrite Z.abs_eq by lia.
    pose proof (Z.div_mod (- u) p ltac:(lia)).
    assert (round_half_away u p = - round_half_away (- u) p) as E by (rewrite half_away_opp; lia).
    rewrite E, half_away_nonneg by lia. clear E.
    destruct (decide (- p < u < 0 /\ p <= 2 * - u)) as [Hs|Hs].
    + assert (- u / p = 0) as -> by (apply Z.div_small; lia).
      rewrite Z.mod_small by lia. destruct (Z.geb_spec (- u * 2) p); [done|lia].
    + destruct (Z.geb_spec ((- u) mod p * 2) p); [|done].
      assert (0 < - u / p).
      { destruct (Z_lt_ge_dec (- u) p); [|apply Z.div_str_pos; lia].
        exfalso. apply Hs. rewrite Z.mod_small in * by lia. lia. }
      destruct (Z.ltb_spec (- (- u / p)) 0); lia.
  - rewrite Z.rem_mod_nonneg, Z.quot_div_nonneg by lia.
    pose proof (Z.mod_pos_bound u p Hp). rewrite Z.abs_eq by lia.
    rewrite decide_False by lia. rewrite half_away_nonneg by lia.
    assert (0 <= u / p) by (apply Z.div_pos; lia).
    destruct (Z.ltb_spec (u / p) 0); [lia|]. done.
Qed.

Lemma rescale_eq d s : 0 <= scale d <= 255 -> 0 <= s <= 255 -> Z.abs (unscaled d) < kNumericUnscaledMax ->
  rescale d s = if decide (small_negative d s) then Ok 1 else rescale_ref d s.
Proof.
  intros Hd Hs Hu. unfold rescale, rescale_ref, small_negative.
  destruct (Z.gtb_spec (scale d) s) as [Hgt|Hle].
  - assert (forall p, 0 < p -> p = 10 ^ (scale d - s) -> Ok (let r := Z.rem (unscaled d) p in let q := Z.quot (unscaled d) p in
       if Z.abs r * 2 >=? p then q + (if q <? 0 then -1 else 1) else q) =
      if decide (s < scale d /\ - 10 ^ (scale d - s) < unscaled d < 0 /\ 10 ^ (scale d - s) <= 2 * - unscaled d)
      then Ok 1 else Ok (round_half_away (unscaled d) (10 ^ (scale d - s)))) as Hgen.
    { intros p Hp ->. rewrite rescale_down by done.
      destruct (decide (- _ < _ < 0 /\ _)); [rewrite decide_True by lia|rewrite decide_False by lia]; done. }
    destruct (decide (scale d - s <= 77)) as [Hk|Hk].
    + apply (Hgen (pow10 (scale d - s))); [apply pow10_pos; lia|apply pow10_small; lia].
    + pose proof (pow10_large (scale d - s) ltac:(lia)) as Hp. cbv zeta. unfold kNumericUnscaledMax in Hu.
      set (p := pow10 (scale d - s)) in *.
      assert (2 * 10 ^ 38 < 10 ^ (scale d - s)).
      { pose proof (Z.pow_le_mono_r 10 39 (scale d - s) ltac:(lia) ltac:(lia)). assert (10 ^ 39 = 10 * 10 ^ 38) as E by done. lia. }
      rewrite decide_False by lia. f_equal.
      pose proof (rescale_down (unscaled d) p ltac:(lia)) as E. cbv zeta in E. rewrite E. rewrite decide_False by lia.
      unfold round_half_away. rewrite !Z.div_small by lia. done.
  - rewrite decide_False by lia. rewrite upscale_eq by done. rewrite Z2Nat.id by lia. done.
Qed.

(** * Precision *)
Lemma digit_count_gt fuel m p : 0 <= m -> m < 2 ^ Z.of_nat fuel -> 0 <= p ->
  (digit_count fuel m >? p) = (10 ^ p <=? m).
Proof.
  revert m p; induction fuel as [|fuel IH]; intros m p Hm Hf Hp.
  { simpl in *. assert (m = 0) as -> by lia. destruct (Z.leb_spec (10 ^ p) 0); [lia|]. destruct (Z.gtb_spec 0 p); lia. }
  simpl. destruct (Z.gtb_spec m 0) as [Hpos|].
  - destruct (decide (p = 0)) as [->|].
    + assert (0 <= digit_count fuel (m / 10)).
      { clear. revert m; induction fuel as [|fuel IH]; intros m; simpl; [lia|]. destruct (m / 10 >? 0); [|lia]. specialize (IH (m / 10)). lia. }
      destruct (Z.leb_spec (10 ^ 0) m); [|simpl in *; lia]. destruct (Z.gtb_spec (1 + digit_count fuel (m / 10)) 0); lia.
    + rewrite Nat2Z.inj_succ, Z.pow_succ_r in Hf by lia.
      specialize (IH (m / 10) (p - 1) ltac:(apply Z.div_pos; lia) ltac:(apply Z.div_lt_upper_bound; lia) ltac:(lia)).
      assert ((10 ^ (p - 1) <=? m / 10) = (10 ^ p <=? m)) as <-.
      { replace p with (Z.succ (p - 1)) at 2 by lia. rewrite Z.pow_succ_r by lia.
        pose proof (Z.div_mod m 10 ltac:(lia)). pose proof (Z.mod_pos_bound m 10 ltac:(lia)).
        destruct (Z.leb_spec (10 ^ (p - 1)) (m / 10)), (Z.leb_spec (10 * 10 ^ (p - 1)) m); lia. }
      rewrite <- IH. destruct (Z.gtb_spec (1 + digit_count fuel (m / 10)) p), (Z.gtb_spec (digit_count fuel (m / 10)) (p - 1)); lia.
  - assert (m = 0) as -> by lia. destruct (Z.leb_spec (10 ^ p) 0); [lia|]. destruct (Z.gtb_spec 0 p); lia.
Qed.

Lemma digit_count_abs u p : 0 < p ->
  (digit_count (S (Z.to_nat (Z.log2 (Z.abs u)))) (Z.abs u) >? p) = (10 ^ p <=? Z.abs u).
Proof.
  intros Hp. pose proof (Z.log2_nonneg (Z.abs u)). apply digit_count_gt; [lia| |lia].
  rewrite Nat2Z.inj_succ, Z2Nat.id by done. destruct (decide (u = 0)) as [->|]; [done|].
  by apply Z.log2_spec; lia.
Qed.

(** What assigning a numeric value to a numeric(precision, scale) column should do. *)
Definition assign_numeric_ref (d : DecimalVal) (to : TypeAttr) (precision s : Z) : result Value :=
  u ← rescale_ref d s;
  if (0 <? precision) && (10 ^ precision <=? Z.abs u) then Raise ValueMismatch else Ok (numeric_val to u s).

Lemma coerce_numeric_eq t d to precision s mode :
  rep t = RepDec -> rep to = RepDec -> 0 <= scale d <= 255 -> 0 <= s <= 255 -> 0 <= precision ->
  Z.abs (unscaled d) < kNumericUnscaledMax ->
  coerce_numeric (mkVal t (BDec d)) to precision s mode =
    if decide (small_negative d s) then Ok (numeric_val to 1 s) else assign_numeric_ref d to precision s.
Proof.
  intros Ht Hto Hd Hs Hp Hu. unfold coerce_numeric, cast_value. cbn [value_is_null box vtype].
  rewrite Ht, Hto. simpl kCastTable. cbv iota. rewrite decide_False by (intros (? & _); discriminate).
  assert ((mode_rank Implicit >? mode_rank mode) = false) as -> by (by destruct mode). cbn [restamp mbind result_bind box get_dec].
  rewrite rescale_eq by done. unfold assign_numeric_ref.
  assert (forall u, (precision >? 0) && (digit_count (S (Z.to_nat (Z.log2 (Z.abs u)))) (Z.abs u) >? precision) =
    (0 <? precision) && (10 ^ precision <=? Z.abs u)) as Hprec.
  { intros u. rewrite Z.gtb_ltb. destruct (Z.ltb_spec 0 precision); [|done]. by rewrite digit_count_abs. }
  destruct (decide (small_negative d s)).
  - cbn [mbind result_bind]. rewrite Hprec. change (Z.abs 1) with 1.
    destruct (Z.ltb_spec 0 precision); [|done]. destruct (Z.leb_spec (10 ^ precision) 1); [|done].
    pose proof (Z.pow_gt_1 10 precision). lia.
  - destruct (rescale_ref d s); cbn [mbind result_bind]; [|done..]. by rewrite Hprec.
Qed.

(** * The round trip of numeric text *)
Lemma read_digits_mono u ds : 0 <= u -> Forall (fun c => is_digit c = true) ds -> u <= read_digits u ds.
Proof.
  intros Hu Hd. rewrite read_digits_acc. pose proof (read_digits_bound ds Hd).
  assert (1 <= 10 ^ zlen ds) by (apply (Z.pow_le_mono_r 10 0); unfold zlen; lia). nia.
Qed.

Lemma take_digits_run frac ds rest u sc any :
  Forall (fun c => is_digit c = true) ds -> (forall c s', rest = c :: s' -> is_digit c = false) ->
  0 <= u -> read_digits u ds < kNumericUnscaledMax ->
  take_digits frac (ds ++ rest) u sc any =
    Ok (rest, read_digits u ds, if frac then sc + zlen ds else sc, any || negb (bool_decide (ds = []))).
Proof.
  intros Hd Hrest. revert u sc any. induction Hd as [|c ds Hc Hd IH]; intros u sc any Hu Hlt.
  - rewrite app_nil_l, orb_false_r. destruct rest as [|c s']; simpl; [|rewrite (Hrest c s') by done];
      by destruct frac; rewrite ?Z.add_0_r.
  - rewrite <- app_comm_cons. cbn [take_digits]. rewrite Hc. cbv zeta.
    apply is_digit_spec in Hc. change (read_digits u (c :: ds)) with (read_digits (u * 10 + (c - 48)) ds) in *.
    pose proof (read_digits_mono (u * 10 + (c - 48)) ds ltac:(lia) Hd).
    destruct (Z.leb_spec kNumericUnscaledMax (u * 10 + (c - 48))); [lia|].
    rewrite IH by (done || lia). rewrite orb_true_r. cbn [orb]. destruct frac; [|done].
    rewrite zlen_cons. rewrite Z.add_assoc. done.
Qed.

Lemma take_sign_digit s c s' : s = c :: s' -> is_digit c = true -> take_sign s = (false, s).
Proof.
  intros -> Hc%is_digit_spec. simpl. destruct (Z.eqb_spec c 45); [lia|]. destruct (Z.eqb_spec c 43); [lia|done].
Qed.

(** The text of a magnitude: digits of an integer part and, below a point, of a fraction. *)
Lemma parse_fixed neg ip fp : (neg = true \/ neg = false) ->
  Forall (fun c => is_digit c = true) ip -> Forall (fun c => is_digit c = true) fp -> ip <> [] ->
  read_digits 0 (ip ++ fp) < kNumericUnscaledMax -> zlen fp <= 255 ->
  parse_decimal_text ((if neg : bool then [45] else []) ++ ip ++ (if bool_decide (fp = []) then [] else 46 :: fp)) =
    Ok (mkDec (if neg then - read_digits 0 (ip ++ fp) else read_digits 0 (ip ++ fp)) (zlen fp)).
Proof.
  intros _ Hip Hfp Hne Hlt Hl. unfold parse_decimal_text.
  set (rest := if bool_decide (fp = []) then [] else 46 :: fp).
  assert (take_sign ((if neg then [45] else []) ++ ip ++ rest) = (neg, ip ++ rest)) as ->.
  { destruct neg; [done|]. destruct ip as [|c ip]; [done|]. inversion_clear Hip.
    by eapply take_sign_digit. }
  rewrite read_digits_app in Hlt. pose proof (read_digits_bound ip Hip).
  pose proof (read_digits_mono (read_digits 0 ip) fp ltac:(lia) Hfp).
  rewrite take_digits_run; [|done| |lia|lia].
  2:{ intros c s'. unfold rest. case_bool_decide; [done|]. by intros [= <- _]. }
  rewrite (bool_decide_false (ip = [])) by done. cbn [mbind result_bind negb orb].
  unfold rest. case_bool_decide as Hf.
  - subst fp. rewrite app_nil_r. cbn [mbind result_bind negb take_exponent]. rewrite bool_decide_true by done.
    simpl. by destruct neg.
  - change (46 =? 46) with true. cbv iota. rewrite <- (app_nil_r fp) at 1.
    rewrite take_digits_run by (done || lia). cbn [mbind result_bind negb orb take_exponent].
    rewrite bool_decide_true by done. cbn [negb]. rewrite Z.sub_0_r, Z.add_0_l.
    pose proof (zlen_nonneg fp). destruct (Z.ltb_spec (zlen fp) 0); [lia|]. cbn [mbind result_bind].
    destruct (Z.gtb_spec (zlen fp) 255); [lia|]. rewrite read_digits_app. by destruct neg.
Qed.

Lemma read_zeros k ds : read_digits 0 (replicate k 48 ++ ds) = read_digits 0 ds.
Proof. rewrite read_digits_app. f_equal. induction k as [|k IH]; [done|]. exact IH. Qed.

Lemma decimal_text_parts d : 0 <= scale d ->
  exists ip fp, decimal_to_text d =
    (if unscaled d <? 0 then [45] else []) ++ ip ++ (if bool_decide (fp = []) then [] else 46 :: fp) /\
    Forall (fun c => is_digit c = true) ip /\ Forall (fun c => is_digit c = true) fp /\ ip <> [] /\
    read_digits 0 (ip ++ fp) = Z.abs (unscaled d) /\ zlen fp = scale d.
Proof.
  intros Hs. unfold decimal_to_text. destruct (digits_spec (Z.abs (unscaled d)) ltac:(lia)) as (Hr & Hd & Hl & _).
  set (ds := digits (Z.abs (unscaled d))) in *. destruct (Z.eqb_spec (scale d) 0) as [E|E].
  - exists ds, []. rewrite bool_decide_true, !app_nil_r by done. split_and!; try done.
    + by destruct (unscaled d <? 0).
    + intros ->. by rewrite zlen_nil in Hl.
  - set (es := if zlen ds <=? scale d then replicate (Z.to_nat (scale d - zlen ds + 1)) 48 ++ ds else ds).
    assert (scale d < zlen es) as Hes.
    { unfold es. destruct (Z.leb_spec (zlen ds) (scale d)); [|lia]. rewrite zlen_app, zlen_replicate. lia. }
    assert (Forall (fun c => is_digit c = true) es) as Hed.
    { unfold es. destruct (zlen ds <=? scale d); [|done]. apply Forall_app_2; [by apply Forall_replicate|done]. }
    assert (read_digits 0 es = Z.abs (unscaled d)) as Her.
    { unfold es. destruct (zlen ds <=? scale d); [|done]. by rewrite read_zeros. }
    exists (slice 0 (zlen es - scale d) es), (slice (zlen es - scale d) (scale d) es).
    assert (zlen (slice (zlen es - scale d) (scale d) es) = scale d) as Hz by (rewrite zlen_slice; lia).
    rewrite bool_decide_false by (intros H; rewrite H, zlen_nil in Hz; lia). split_and!.
    + done.
    + by apply Forall_slice.
    + by apply Forall_slice.
    + intros H. assert (zlen (slice 0 (zlen es - scale d) es) = zlen es - scale d) as H' by (rewrite zlen_slice; lia).
      rewrite H, zlen_nil in H'. lia.
    + rewrite <- Her. f_equal.
      unfold slice. rewrite drop_0. rewrite (take_ge (drop _ es)) by (rewrite length_drop; unfold zlen in *; lia).
      apply take_drop.
    + done.
Qed.

(** C27. Numeric text round trip: writing any storable numeric (magnitude below 10^38, scale up to 255)
    as fixed-point text and parsing it back gives the same unscaled value and the same scale,
    trailing zeros included. *)
Theorem parse_decimal_to_text d :
  Z.abs (unscaled d) < kNumericUnscaledMax -> 0 <= scale d <= 255 ->
  parse_decimal_text (decimal_to_text d) = Ok d.
Proof.
  intros Hu Hs. destruct (decimal_text_parts d ltac:(lia)) as (ip & fp & -> & Hip & Hfp & Hne & Hr & Hz).
  rewrite parse_fixed; try done; [|by destruct (unscaled d <? 0); auto|by rewrite Hr|lia].
  rewrite Hr, Hz. destruct d as [u s]. cbn [unscaled scale] in *. do 2 f_equal.
  destruct (Z.ltb_spec u 0); lia.
Qed.
Lemma parse_decimal_to_text_witness :
  parse_decimal_text (decimal_to_text (mkDec (-5) 3)) = Ok (mkDec (-5) 3).
Proof. apply (parse_decimal_to_text (mkDec (-5) 3)); [done|simpl; lia]. Defined.
Example text_of_small : decimal_to_text (mkDec (-5) 3) = str "-0.005".
Proof. by vm_compute. Qed.

(** C28. Assigning a numeric to a numeric(precision, scale) column: the value is rounded to the column's
    scale, halves away from zero, or scaled up; a result of 10^38 or more, or with more digits than
    the precision, is refused. The exception is a negative value between half and one unit of
    the target scale: it becomes plus one unit. *)
Theorem coerce_numeric_spec t d to precision s mode :
  rep t = RepDec -> rep to = RepDec -> 0 <= scale d <= 255 -> 0 <= s <= 255 -> 0 <= precision ->
  Z.abs (unscaled d) < kNumericUnscaledMax ->
  coerce_numeric (mkVal t (BDec d)) to precision s mode =
    if decide (small_negative d s) then Ok (numeric_val to 1 s)
    else assign_numeric_ref d to precision s.
Proof. apply coerce_numeric_eq. Qed.
(** -0.6 assigned to numeric(5, 0) is stored as 1. *)
Lemma coerce_numeric_spec_witness :
  coerce_numeric (numeric_val kNumeric (-6) 1) kNumeric 5 0 Assignment = Ok (numeric_val kNumeric 1 0) /\
  assign_numeric_ref (mkDec (-6) 1) kNumeric 5 0 = Ok (numeric_val kNumeric (-1) 0).
Proof.
  split; [|by vm_compute].
  pose proof (coerce_numeric_spec kNumeric (mkDec (-6) 1) kNumeric 5 0 Assignment eq_refl eq_refl
    ltac:(simpl; lia) ltac:(simpl; lia) ltac:(simpl; lia) eq_refl) as H.
  rewrite decide_True in H by (unfold small_negative; simpl; lia). exact H.
Defined.

(** * Ranges *)
Lemma decode_not_finite f x : is_finite f x = false ->
  decode f x = SpecFloat.S754_infinity (sign_of f x) \/ decode f x = SpecFloat.S754_nan.
Proof.
  unfold is_finite, decode. destruct (exp_of f x =? 2 ^ eb f - 1); [|done]. intros _.
  destruct (man_of f x =? 0); auto.
Qed.
Lemma trunc_to_i64_finite d i : trunc_to_i64 d = Ok i ->
  is_finite binary64 d = true /\ signed_mag binary64 f64_minus_2_63 <= signed_mag binary64 d /\
  signed_mag binary64 d < signed_mag binary64 f64_2_63 /\ i = ftrunc binary64 d.
Proof.
  unfold trunc_to_i64. destruct (_ && _) eqn:E; [|done]. intros [= <-].
  apply andb_true_iff in E as [Hlo Hhi]. destruct (is_finite binary64 d) eqn:Hf.
  - rewrite flt_finite in Hlo, Hhi by done. rewrite feq_finite in Hlo by done.
    split_and!; try done; [|lia]. apply orb_true_iff in Hlo. lia.
  - exfalso. unfold flt, feq in *. destruct (decode_not_finite _ _ Hf) as [E|E]; rewrite E in *.
    + destruct (sign_of binary64 d); [by vm_compute in Hlo|by vm_compute in Hhi].
    + by vm_compute in Hhi.
Qed.


(** A magnitude pattern up to that of 2^63 stands for an integer part up to 2^63. *)
Lemma ftrunc_bound d : is_finite binary64 d = true ->
  Z.abs (signed_mag binary64 d) <= 1086 * 2 ^ 52 ->
  Z.abs (ftrunc binary64 d) <= 2 ^ 63 /\
  (Z.abs (signed_mag binary64 d) < 1086 * 2 ^ 52 -> Z.abs (ftrunc binary64 d) < 2 ^ 63) /\
  (signed_mag binary64 d < 0 -> ftrunc binary64 d <= 0) /\ (0 <= signed_mag binary64 d -> 0 <= ftrunc binary64 d).
Proof.
  intros Hf. destruct (mag_split binary64 d binary64_ok) as (Hms & Hman & Hexp).
  unfold signed_mag, ftrunc. destruct (decode_finite binary64 d binary64_ok Hf) as [[-> ->]|(m & k & -> & Hk & Hm & Hlt & Hnorm)].
  { by destruct (sign_of binary64 d). }
  rewrite Hm. change (emin_of binary64) with (-1074). change (2 ^ mb binary64) with (2 ^ 52) in *. intros Hle.
  assert (0 < k * 2 ^ 52 + Z.pos m) by nia.
  assert (forall b : bool, Z.abs (if b then - (k * 2 ^ 52 + Z.pos m) else k * 2 ^ 52 + Z.pos m) = k * 2 ^ 52 + Z.pos m) as Habs by (intros []; lia).
  rewrite Habs in *. set (q := if 0 <=? -1074 + k then _ else _).
  assert (0 <= q /\ q <= 2 ^ 63 /\ (k * 2 ^ 52 + Z.pos m < 1086 * 2 ^ 52 -> q < 2 ^ 63)) as (Hq0 & Hq1 & Hq2).
  { unfold q. destruct (Z.leb_spec 0 (-1074 + k)).
    - assert (1 <= k) by lia. destruct Hnorm as [->|Hn]; [lia|].
      assert (k <= 1085) by nia. destruct (decide (k = 1085)) as [->|].
      + change (-1074 + 1085) with 11. change (2 ^ 11) with 2048. change (2 ^ 63) with (2048 * 2 ^ 52). lia.
      + assert (2 ^ (-1074 + k) <= 2 ^ 10) by (apply Z.pow_le_mono_r; lia). change (2 ^ 63) with (2 ^ 53 * 2 ^ 10).
        assert (0 < 2 ^ (-1074 + k)) by (apply Z.pow_pos_nonneg; lia).
        change (2 * 2 ^ 52) with (2 ^ 53) in *. nia.
    - assert (0 < 2 ^ (- (-1074 + k))) by (apply Z.pow_pos_nonneg; lia).
      assert (Z.pos m / 2 ^ (- (-1074 + k)) <= Z.pos m) by (apply Z.div_le_upper_bound; nia).
      assert (0 <= Z.pos m / 2 ^ (- (-1074 + k))) by (apply Z.div_pos; lia). lia. }
  destruct (sign_of binary64 d); lia.
Qed.

Lemma trunc_to_i64_range d i : trunc_to_i64 d = Ok i -> INT64_MIN <= i <= INT64_MAX.
Proof.
  intros (Hf & Hlo & Hhi & ->)%trunc_to_i64_finite.
  assert (signed_mag binary64 f64_minus_2_63 = - (1086 * 2 ^ 52)) as E1 by (by vm_compute).
  assert (signed_mag binary64 f64_2_63 = 1086 * 2 ^ 52) as E2 by (by vm_compute). rewrite E1, E2 in *.
  destruct (ftrunc_bound d Hf ltac:(lia)) as (H1 & H2 & H3 & H4). unfold INT64_MIN, INT64_MAX.
  change (2 ^ 63) with 9223372036854775808 in *.
  destruct (Z_lt_ge_dec (signed_mag binary64 d) 0); lia.
Qed.

(** Payloads in range: machine-width integers, bounded decimals, finite floats. *)
Definition box_range (b : Box) : Prop :=
  match b with
  | BInt i => INT64_MIN <= i <= INT64_MAX
  | BDec d => Z.abs (unscaled d) < kNumericUnscaledMax /\ 0 <= scale d <= 255
  | BFloat f => float_ok binary32 f
  | BDouble d => float_ok binary64 d
  | _ => True
  end.

Lemma take_digits_range frac s u sc any s' u' sc' any' :
  take_digits frac s u sc any = Ok (s', u', sc', any') ->
  0 <= u < kNumericUnscaledMax -> 0 <= sc -> 0 <= u' < kNumericUnscaledMax /\ sc <= sc'.
Proof.
  revert u sc any; induction s as [|c s IH]; intros u sc any; simpl.
  - intros [= <- <- <- <-]. lia.
  - destruct (is_digit c) eqn:E; [|intros [= <- <- <- <-]; lia]. apply is_digit_spec in E.
    destruct (Z.leb_spec kNumericUnscaledMax (u * 10 + (c - 48))); [done|]. intros H' Hu Hs.
    apply IH in H'; [|lia|destruct frac; lia]. destruct frac; lia.
Qed.
Lemma scale_up_range k u u' : scale_up k u = Ok u' -> 0 <= u < kNumericUnscaledMax -> 0 <= u' < kNumericUnscaledMax.
Proof.
  revert u; induction k as [|k IH]; intros u; simpl; [by intros [= <-]|].
  destruct (Z.leb_spec kNumericUnscaledMax (u * 10)); [done|]. intros H' Hu. apply IH in H'; lia.
Qed.
Lemma parse_decimal_range s d : parse_decimal_text s = Ok d -> box_range (BDec d).
Proof.
  unfold parse_decimal_text. destruct (take_sign s) as [neg s1]. intros H.
  apply bind_ok in H as ([[[s2 u] sc] any] & H1 & H). apply take_digits_range in H1 as [Hu Hs]; [|by split|done].
  apply bind_ok in H as ([[[s3 u'] sc'] any'] & H2 & H).
  assert (0 <= u' < kNumericUnscaledMax /\ 0 <= sc') as [Hu' Hs'].
  { destruct s2 as [|c s2]; [by simplify_eq|]. destruct (c =? 46); [|by simplify_eq].
    apply take_digits_range in H2; [lia|done..]. }
  destruct (negb any'); [done|]. apply bind_ok in H as ([s4 exp] & _ & H).
  destruct (negb _); [done|]. apply bind_ok in H as ([u2 sc2] & H3 & H).
  destruct (Z.gtb_spec sc2 255); [done|]. injection H as <-.
  assert (0 <= u2 < kNumericUnscaledMax /\ 0 <= sc2) as [? ?].
  { destruct (Z.ltb_spec (sc' - exp) 0); [|simplify_eq; lia].
    apply bind_ok in H3 as (u3 & H3 & [= <- <-]). apply scale_up_range in H3; lia. }
  simpl. destruct neg; lia.
Qed.

(** * Typing of the conversions *)
(** A conversion function only raises ValueMismatch, and yields the target's representation. *)
Definition fn_typed (to : TypeAttr) (r : result Value) : Prop :=
  match r with
  | Ok r => vtype r = to /\ box_rep (box r) = rep to /\ box_range (box r)
  | Raise c => c = ValueMismatch
  | Fatal => False
  end.

Definition only_vm {A} (r : result A) : Prop :=
  match r with Ok _ => True | Raise c => c = ValueMismatch | Fatal => False end.
Lemma only_vm_bind {A B} (r : result A) (f : A -> result B) :
  only_vm r -> (forall a, only_vm (f a)) -> only_vm (r ≫= f).
Proof. destruct r; simpl; auto. Qed.
Lemma fn_typed_bind {A} to (r : result A) f :
  only_vm r -> (forall a, r = Ok a -> fn_typed to (f a)) -> fn_typed to (r ≫= f).
Proof. destruct r; simpl; auto. Qed.

Lemma parse_i64_range s i : parse_i64 s = Ok i -> INT64_MIN <= i <= INT64_MAX.
Proof.
  unfold parse_i64, from_chars_i64.
  destruct (match strip_plus s with 45 :: s' => (true, s') | _ => (false, strip_plus s) end) as [neg s'].
  destruct (span_digits s') as [[|c ds] [|]]; try done. destruct (in_i64 _) eqn:E; [|done].
  intros [= <-]. by apply in_i64_spec.
Qed.
Lemma parse_i64_vm s : only_vm (parse_i64 s).
Proof. unfold parse_i64. by destruct (from_chars_i64 _). Qed.
Lemma parse_f64_vm s : only_vm (parse_f64 s).
Proof. unfold parse_f64. by destruct (from_chars_f64 _). Qed.
Lemma parse_bool_vm s : only_vm (parse_bool s).
Proof. unfold parse_bool. repeat case_match; done. Qed.
Lemma narrow_vm d : only_vm (narrow_f32 d).
Proof. unfold narrow_f32. by destruct (_ && _). Qed.
Lemma trunc_vm d : only_vm (trunc_to_i64 d).
Proof. unfold trunc_to_i64. by destruct (_ && _). Qed.
Lemma dec_round_vm d : only_vm (dec_round_i64 d).
Proof. unfold dec_round_i64. repeat case_match; done. Qed.
Lemma take_digits_vm frac s u sc any : only_vm (take_digits frac s u sc any).
Proof.
  revert u sc any; induction s as [|c s IH]; intros; simpl; [done|]. destruct (is_digit c); [|done].
  by destruct (kNumericUnscaledMax <=? _).
Qed.
Lemma take_exp_vm s e any : only_vm (take_exp s e any).
Proof.
  revert e any; induction s as [|c s IH]; intros; simpl; [done|]. destruct (is_digit c); [|done].
  by destruct (_ >? 1000).
Qed.
Lemma scale_up_vm k u : only_vm (scale_up k u).
Proof. revert u; induction k; intros; simpl; [done|]. by destruct (kNumericUnscaledMax <=? _). Qed.
Lemma parse_decimal_vm s : only_vm (parse_decimal_text s).
Proof.
  unfold parse_decimal_text. destruct (take_sign s).
  apply only_vm_bind; [apply take_digits_vm|]. intros [[[s1 u] sc] any].
  apply only_vm_bind; [destruct s1 as [|c ?]; [done|destruct (c =? 46); [apply take_digits_vm|done]]|].
  intros [[[s2 u2] sc2] any2]. destruct (negb any2); [done|]. apply only_vm_bind.
  - unfold take_exponent. destruct s2 as [|c s3]; [done|]. destruct (_ || _); [|done]. destruct (take_sign s3).
    apply only_vm_bind; [apply take_exp_vm|]. intros [[? ?] []]; done.
  - intros [s4 e]. destruct (negb _); [done|]. apply only_vm_bind.
    + destruct (_ <? 0); [|done]. apply only_vm_bind; [apply scale_up_vm|done].
    + intros [? ?]. by destruct (_ >? 255).
Qed.
Lemma text_view_ok v s : box v = BStr s -> exists s', text_view v = Ok s'.
Proof.
  intros H. unfold text_view, get_char_view, get_str_view. rewrite H.
  destruct (decide _); simpl; eauto.
Qed.
Lemma dec_round_range d i : dec_round_i64 d = Ok i -> INT64_MIN <= i <= INT64_MAX.
Proof.
  unfold dec_round_i64. destruct (Z.geb_spec (scale d) 39); [intros [= <-]; done|].
  assert (0 <= Z.abs (unscaled d) / pow10 (scale d) \/ pow10 (scale d) <= 0) as Hm.
  { destruct (Z_lt_ge_dec 0 (pow10 (scale d))); [left; apply Z.div_pos; lia|right; lia]. }
  destruct (decide (0 <= scale d)) as [Hs|].
  - destruct Hm as [Hm|Hm]; [|pose proof (pow10_pos (scale d)); lia].
    set (m := if _ >=? _ then _ else _). assert (0 <= m) by (unfold m; destruct (_ >=? _); lia).
    destruct (Z.gtb_spec m INT64_MAX); [done|]. unfold INT64_MIN, INT64_MAX in *.
    destruct (unscaled d <? 0); intros [= <-]; lia.
  - assert (pow10 (scale d) = 1) as -> by (unfold pow10; by rewrite Z2Nat.nonpos by lia).
    rewrite Z.mod_1_r, Z.div_1_r. destruct (Z.geb_spec (0 * 2) 1); [lia|].
    destruct (Z.gtb_spec (Z.abs (unscaled d)) INT64_MAX); [done|]. unfold INT64_MIN, INT64_MAX in *.
    destruct (unscaled d <? 0); intros [= <-]; lia.
Qed.

Lemma of_ratio_ok f s n d : wide f -> 0 <= n -> 0 < d -> is_finite f (of_ratio f s n d) = true -> float_ok f (of_ratio f s n d).
Proof.
  intros Hw Hn Hd. unfold of_ratio. destruct (n =? 0).
  - intros _. apply float_pack; [apply Hw|]. by destruct (inf_mag_lt f (proj1 Hw)).
  - destruct (SpecFloat.SFdiv_core_binary _ _ _ _ _ _) as [[q e] l] eqn:E. intros Hf.
    apply float_valid; [done| |done]. apply round_aux_valid; [done|]. by eapply div_core_nonneg; [..|exact E].
Qed.
Lemma from_chars_f64_ok s d : from_chars_f64 s = Some d -> float_ok binary64 d.
Proof.
  unfold from_chars_f64. destruct (match s with 45 :: s' => (true, s') | _ => (false, s) end) as [neg s0].
  destruct (span_digits s0) as [ip r] eqn:E1.
  destruct (match r with 46 :: r' => span_digits r' | _ => ([], r) end) as [fp r2] eqn:E2.
  assert (Forall (fun c => is_digit c = true) (ip ++ fp)) as Hd.
  { apply Forall_app. split; [by eapply span_digits_digits|].
    destruct r as [|c r']; [by injection E2 as <- <-|].
    destruct (decide (c = 46)) as [->|Hc]; [by eapply span_digits_digits|].
    replace fp with (@nil Z); [constructor|]. revert E2. destruct c as [|p|p]; try congruence.
    do 6 (destruct p as [p|p|]; try congruence). }
  destruct (ip ++ fp) as [|c ds]; [done|]. destruct (scan_exp r2) as [e|]; [|done]. cbv zeta.
  destruct (is_finite binary64 _) eqn:E; [|done]. destruct (_ && _); [done|]. intros [= <-].
  pose proof (read_digits_bound _ Hd) as [Hm _]. unfold of_decimal in *. destruct (Z.leb_spec 0 (e - zlen fp)).
  - apply of_ratio_ok; [done| |done|done]. apply Z.mul_nonneg_nonneg; [exact Hm|lia].
  - apply of_ratio_ok; [done|exact Hm|lia|done].
Qed.
Lemma parse_f64_ok s d : parse_f64 s = Ok d -> float_ok binary64 d.
Proof. unfold parse_f64. destruct (from_chars_f64 _) eqn:E; [|done]. intros [= <-]. by eapply from_chars_f64_ok. Qed.
Lemma narrow_ok d f : narrow_f32 d = Ok f -> float_ok binary64 d -> float_ok binary32 f.
Proof.
  unfold narrow_f32. intros H [_ Hf]. rewrite Hf in H. destruct (is_finite binary32 _) eqn:E; [|done].
  injection H as <-. by apply f64_to_f32_ok.
Qed.
Lemma int_f64 i : INT64_MIN <= i <= INT64_MAX -> float_ok binary64 (of_int binary64 i).
Proof. intros Hi. apply of_int_ok; [done..|]. unfold INT64_MIN, INT64_MAX in Hi. lia. Qed.
Lemma int_f32 i : INT64_MIN <= i <= INT64_MAX -> float_ok binary32 (of_int binary32 i).
Proof. intros Hi. apply of_int_ok; [done..|]. unfold INT64_MIN, INT64_MAX in Hi. lia. Qed.
Lemma widen_ok f : float_ok binary32 f -> float_ok binary64 (Ieee.f32_to_f64 f).
Proof. intros [_ Hf]. by apply f32_to_f64_ok. Qed.

#[local] Hint Resolve parse_f64_ok narrow_ok int_f64 int_f32 widen_ok : vm.
#[local] Hint Resolve parse_i64_vm parse_f64_vm parse_bool_vm narrow_vm trunc_vm dec_round_vm parse_decimal_vm : vm.
#[local] Hint Resolve parse_i64_range trunc_to_i64_range dec_round_range : vm.

Ltac fn_case :=
  repeat first
    [ case_decide
    | match goal with |- fn_typed _ (if ?b then _ else _) => destruct b end
    | apply fn_typed_bind; [by eauto with vm|]; intros ? ? ];
  repeat match goal with
  | H : parse_decimal_text _ = Ok _ |- _ => apply parse_decimal_range in H
  end;
  cbn [fn_typed vtype box box_rep box_range unscaled scale float_val double_val int_val str_val bool_val numeric_val] in *;
  try done; eauto with vm.

Lemma cast_fn_typed v to fn tier :
  rep (vtype v) = box_rep (box v) -> box_range (box v) -> kCastTable (rep (vtype v)) (rep to) = Some (fn, tier) ->
  fn_typed to (fn v to).
Proof.
  intros Hr Hi Ht. destruct v as [t b]. cbn [vtype box] in *. rewrite Hr in Ht.
  destruct b; destruct (rep to) eqn:Eto; cbn [kCastTable box_rep] in Ht; first [discriminate Ht | injection Ht as <- _];
    cbv beta delta [restamp i64_restamp i64_to_f32 i64_to_f64 f64_to_f32 f32_to_f64 text_to_text
      i64_to_text f32_to_text f64_to_text bool_to_text bool_to_i64 bool_to_f32 bool_to_f64 bool_to_dec i64_to_bool f32_to_bool
      f64_to_bool dec_to_bool text_to_bool text_to_i64 text_to_f64 text_to_f32 f64_to_i64 f32_to_i64 i64_to_dec f64_to_dec
      f32_to_dec text_to_dec dec_to_i64 dec_to_f64 dec_to_f32 dec_to_text text_view get_char_view get_str_view get_i64 get_f32 get_f64
      get_bool get_dec dec_to_f64_raw];
    cbn [vtype box]; cbn [mbind result_bind]; rewrite <- ?Eto.
  all: fn_case.
  all: split_and!; try done; eauto with vm; try (match goal with b : bool |- _ => by destruct b; (split; [split|]; vm_compute) end);
    unfold kNumericUnscaledMax, INT64_MIN, INT64_MAX in *;
    repeat match goal with |- context [if ?b then _ else _] => destruct b end; lia.
Qed.

(** Every conversion is total and typed: for a non-NULL value whose box matches its type attributes
    and a target type with a representation, an explicit conversion either yields a value of
    exactly the target type, in the target's representation and range, or raises ValueMismatch;
    it never hits an empty slot of the table. The implicit and assignment modes only restrict which
    conversions are available: where they allow one, it is the explicit one. *)
Theorem cast_value_typed v to mode :
  value_is_null v = false -> rep (vtype v) = box_rep (box v) -> box_range (box v) -> rep to <> RepNone ->
  fn_typed to (cast_value v to Explicit) /\
  (cast_value v to mode = Raise Internal \/ cast_value v to mode = cast_value v to Explicit).
Proof.
  intros Hn Hr Hi Hto. unfold cast_value. rewrite Hn.
  destruct (kCastTable (rep (vtype v)) (rep to)) as [[fn tier]|] eqn:E.
  - split.
    + destruct (mode_rank _ >? mode_rank Explicit) eqn:Et; [|by eapply cast_fn_typed].
      destruct (decide _), tier; discriminate.
    + destruct (mode_rank _ >? mode_rank mode); [by left|]. right.
      destruct (mode_rank _ >? mode_rank Explicit) eqn:Et; [|done]. destruct (decide _), tier; discriminate.
  - exfalso. unfold value_is_null in Hn. destruct (box v); simpl in Hr; rewrite Hr in E; by destruct (rep to).
Qed.
Lemma cast_value_typed_witness :
  fn_typed kInt (cast_value (str_val kVarChar (str "+42")) kInt Explicit) /\
  (cast_value (str_val kVarChar (str "+42")) kInt Assignment = Raise Internal \/
   cast_value (str_val kVarChar (str "+42")) kInt Assignment = cast_value (str_val kVarChar (str "+42")) kInt Explicit).
Proof. apply (cast_value_typed (str_val kVarChar (str "+42")) kInt Assignment); done. Defined.

(** A numeric -1 converts to true: the magnitude is compared with one. *)
Example minus_one_is_true : cast_value (numeric_val kNumeric (-10) 1) kBool Explicit = Ok (bool_val kBool true).
Proof. by vm_compute. Qed.
(** A plus before a minus is accepted. *)
Example plus_minus : cast_value (str_val kVarChar (str "+-5")) kInt Explicit = Ok (int_val kInt (-5)).
Proof. by vm_compute. Qed.

(** C29. Numeric to integer rounds to nearest, halves away from zero, and refuses exactly the results
    whose magnitude exceeds INT64_MAX. *)
Theorem dec_to_i64_spec t d to :
  rep t = RepDec -> rep to = RepInt64 -> Z.abs (unscaled d) < kNumericUnscaledMax -> 0 <= scale d <= 255 ->
  cast_value (mkVal t (BDec d)) to Explicit =
    let r := round_half_away (unscaled d) (10 ^ scale d) in
    if Z.abs r >? INT64_MAX then Raise ValueMismatch else Ok (int_val to r).
Proof.
  intros Ht Hto Hu Hs. unfold cast_value. cbn [value_is_null box vtype]. rewrite Ht, Hto. simpl kCastTable.
  cbv iota. rewrite decide_False by (intros (? & _); discriminate).
  cbn [mode_rank Z.gtb Z.compare Pos.compare Pos.compare_cont dec_to_i64 get_dec box mbind result_bind].
  unfold dec_to_i64. cbn [get_dec box mbind result_bind]. rewrite dec_round_i64_eq by done. cbv zeta.
  by destruct (_ >? INT64_MAX).
Qed.
Lemma dec_to_i64_spec_witness :
  cast_value (numeric_val kNumeric (-25) 1) kBigint Explicit = Ok (int_val kBigint (-3)).
Proof.
  pose proof (dec_to_i64_spec kNumeric (mkDec (-25) 1) kBigint eq_refl eq_refl eq_refl ltac:(simpl; lia)) as H.
  vm_compute in H. vm_compute. exact H.
Defined.
