(* ===== verification/Decimal.v ===== *)
(** Numeric arithmetic of the evaluator (src/expr/expr_eval.cpp, expr_func_math.cpp): alignment,
    long division, the four operations, exact comparison, rounding to a scale, floor and ceiling.
    The theorems give each its value as exact integer arithmetic on the unscaled numbers. *)
From S2P Require Import Prelude Types Cast.

(** * Definitions *)
Fixpoint align_loop (k : nat) (u : Z) : result Z :=
  match k with
  | O => Ok u
  | S k => let u := u * 10 in
           if negb (u =? 0) && (kNumericUnscaledMax <=? Z.abs u) then Raise ArithError else align_loop k u
  end.
Definition dec_align (u from to : Z) : result Z := align_loop (Z.to_nat (to - from)) u.

Fixpoint div_loop (k : nat) (q rem ub : Z) : result (Z * Z) :=
  match k with
  | O => Ok (q, rem)
  | S k => if kNumericUnscaledMax / 10 <=? q then Raise ArithError
           else div_loop k (q * 10 + rem * 10 / ub) (rem * 10 mod ub) ub
  end.
Definition dec_div (l r : DecimalVal) (rscale : Z) : result Z :=
  if unscaled r =? 0 then Raise ArithError
  else
    let neg := negb (Bool.eqb (unscaled l <? 0) (unscaled r <? 0)) in
    let ua := Z.abs (unscaled l) in
    let ub := Z.abs (unscaled r) in
    let t := rscale + scale r - scale l in
    if t <? 0 then Raise Internal
    else
      '(q, rem) ← div_loop (Z.to_nat t) (ua / ub) (ua mod ub) ub;
      let q := if rem * 2 >=? ub then q + 1 else q in
      if q >=? kNumericUnscaledMax then Raise ArithError
      else Ok (if neg : bool then - q else q).

Inductive ArithOp := OpAdd | OpSub | OpMul | OpDiv.
#[export] Instance ArithOp_eq_dec : EqDecision ArithOp.
Proof. solve_decision. Defined.

Definition dec_result_scale (op : ArithOp) (l r : DecimalVal) : result Z :=
  let hi := Z.max (scale l) (scale r) in
  let s := match op with
           | OpAdd | OpSub => hi | OpMul => scale l + scale r | OpDiv => Z.min (hi + 4) 255 end in
  if s >? 255 then Raise ArithError else Ok s.

Definition dec_arith (op : ArithOp) (l r : DecimalVal) (rscale : Z) : result Z :=
  match op with
  | OpDiv => dec_div l r rscale
  | _ =>
      out ← match op with
            | OpMul => Ok (unscaled l * unscaled r)
            | _ => lu ← dec_align (unscaled l) (scale l) rscale;
                   ru ← dec_align (unscaled r) (scale r) rscale;
                   Ok (if decide (op = OpAdd) then lu + ru else lu - ru)
            end;
      if Z.abs out >=? kNumericUnscaledMax then Raise ArithError else Ok out
  end.

Definition dec_digits (u : Z) : Z := digit_count (S (Z.to_nat (Z.log2 u))) u.

Definition dec_cmp (a b : DecimalVal) : Z :=
  let an := unscaled a <? 0 in
  let bn := unscaled b <? 0 in
  let az := unscaled a =? 0 in
  let bz := unscaled b =? 0 in
  if az || bz then
    if az && bz then 0 else if az then if bn then 1 else -1 else if an then -1 else 1
  else if negb (Bool.eqb an bn) then if an then -1 else 1
  else
    let ua := Z.abs (unscaled a) in
    let ub := Z.abs (unscaled b) in
    let ea := dec_digits ua - scale a in
    let eb := dec_digits ub - scale b in
    let sign (smaller : bool) := if (if an then negb smaller else smaller) then -1 else 1 in
    if negb (ea =? eb) then sign (ea <? eb)
    else
      let ma := if scale a >? scale b then ua else ua * 10 ^ (scale b - scale a) in
      let mb := if scale a >? scale b then ub * 10 ^ (scale a - scale b) else ub in
      if ma =? mb then 0 else sign (ma <? mb).

Definition dec_pow10 (e : Z) : result Z :=
  if (e <? 0) || (e >? 38) then Raise Internal else Ok (pow10 e).

(** [round_dec]: the rounded numeric; the result type is attached by the caller. *)
Definition round_dec (d : DecimalVal) (n : Z) : result DecimalVal :=
  if n >=? scale d then Ok d
  else
    let neg := unscaled d <? 0 in
    let ua := Z.abs (unscaled d) in
    let shift := scale d - n in
    q ← (if shift <? 39 then
           p ← dec_pow10 shift;
           let q := if ua mod p * 2 >=? p then ua / p + 1 else ua / p in
           if n <? 0 then m ← dec_pow10 (- n); Ok (q * m) else Ok q
         else Ok 0);
    if q >=? kNumericUnscaledMax then Raise ArithError
    else Ok (mkDec (if neg then - q else q) (if n <? 0 then 0 else n)).

Definition trunc_dec (d : DecimalVal) (up : bool) : result DecimalVal :=
  if scale d =? 0 then Ok (mkDec (unscaled d) 0)
  else
    let neg := unscaled d <? 0 in
    if scale d >=? 39 then
      Ok (mkDec (if unscaled d =? 0 then 0 else if up then if neg then 0 else 1 else if neg then -1 else 0) 0)
    else
      p ← dec_pow10 (scale d);
      let ua := Z.abs (unscaled d) in
      let q := if negb (ua mod p =? 0) && negb (Bool.eqb up neg) then ua / p + 1 else ua / p in
      Ok (mkDec (if neg then - q else q) 0).

(** * Comparison *)
Definition sign_of_compare (c : comparison) : Z := match c with Eq => 0 | Lt => -1 | Gt => 1 end.
(** The order of two numerics: cross-multiplied unscaled values. *)
Definition dec_compare (a b : DecimalVal) : comparison :=
  unscaled a * 10 ^ scale b ?= unscaled b * 10 ^ scale a.

Lemma dec_digits_spec u : 0 < u -> 10 ^ (dec_digits u - 1) <= u < 10 ^ dec_digits u /\ 0 < dec_digits u.
Proof.
  intros Hu. assert (forall p, 0 <= p -> (dec_digits u >? p) = (10 ^ p <=? u)) as H.
  { intros p Hp. apply digit_count_gt; [lia| |done]. rewrite Nat2Z.inj_succ, Z2Nat.id by apply Z.log2_nonneg.
    by apply Z.log2_spec. }
  assert (0 < dec_digits u) as H0.
  { specialize (H 0 ltac:(lia)). destruct (Z.leb_spec (10 ^ 0) u); [|simpl in *; lia]. lia. }
  pose proof (H (dec_digits u - 1) ltac:(lia)). pose proof (H (dec_digits u) ltac:(lia)).
  destruct (Z.leb_spec (10 ^ (dec_digits u - 1)) u), (Z.leb_spec (10 ^ dec_digits u) u); lia.
Qed.

(** Magnitudes with different leading positions compare by position. *)
Lemma dec_position_lt ua ub sa sb : 0 < ua -> 0 < ub -> 0 <= sa -> 0 <= sb ->
  dec_digits ua - sa < dec_digits ub - sb -> ua * 10 ^ sb < ub * 10 ^ sa.
Proof.
  intros Ha Hb Hsa Hsb Hlt. destruct (dec_digits_spec ua Ha) as [[_ Hua] ?], (dec_digits_spec ub Hb) as [[Hub _] ?].
  apply Z.lt_le_trans with (10 ^ dec_digits ua * 10 ^ sb); [apply Z.mul_lt_mono_pos_r; lia|].
  apply Z.le_trans with (10 ^ (dec_digits ub - 1) * 10 ^ sa); [|apply Z.mul_le_mono_nonneg_r; lia].
  rewrite <- !Z.pow_add_r by lia. apply Z.pow_le_mono_r; lia.
Qed.

Ltac cmp_sign := unfold sign_of_compare; match goal with |- context [?a ?= ?b] => destruct (Z.compare_spec a b) end; try done; exfalso; nia.

Lemma dec_cmp_exact a b : 0 <= scale a -> 0 <= scale b -> dec_cmp a b = sign_of_compare (dec_compare a b).
Proof.
  intros Hsa Hsb. unfold dec_cmp, dec_compare. cbv zeta.
  assert (0 < 10 ^ scale a) as Hpa by lia. assert (0 < 10 ^ scale b) as Hpb by lia.
  destruct (Z.eqb_spec (unscaled a) 0) as [->|Ha]; destruct (Z.eqb_spec (unscaled b) 0) as [->|Hb]; cbn [orb andb].
  - done.
  - destruct (Z.ltb_spec (unscaled b) 0); cmp_sign.
  - destruct (Z.ltb_spec (unscaled a) 0); cmp_sign.
  - destruct (Bool.eqb (unscaled a <? 0) (unscaled b <? 0)) eqn:Es; cbn [negb].
    2:{ destruct (Z.ltb_spec (unscaled a) 0), (Z.ltb_spec (unscaled b) 0); try done; cmp_sign. }
    set (X := Z.abs (unscaled a) * 10 ^ scale b). set (Y := Z.abs (unscaled b) * 10 ^ scale a).
    assert (unscaled a * 10 ^ scale b = if unscaled a <? 0 then - X else X) as ->
      by (unfold X; destruct (Z.ltb_spec (unscaled a) 0); lia).
    assert (unscaled b * 10 ^ scale a = if unscaled a <? 0 then - Y else Y) as ->
      by (unfold Y; destruct (Z.ltb_spec (unscaled a) 0), (Z.ltb_spec (unscaled b) 0); done || lia).
    set (da := dec_digits (Z.abs (unscaled a))) in *. set (db := dec_digits (Z.abs (unscaled b))) in *.
    destruct (Z.eqb_spec (da - scale a) (db - scale b)) as [He|He]; cbn [negb].
    + destruct (Z.gtb_spec (scale a) (scale b)) as [Hs|Hs].
      * assert (Y = Z.abs (unscaled b) * 10 ^ (scale a - scale b) * 10 ^ scale b) as HY
          by (unfold Y; rewrite <- Z.mul_assoc, <- Z.pow_add_r by lia; do 2 f_equal; lia).
        destruct (Z.eqb_spec (Z.abs (unscaled a)) (Z.abs (unscaled b) * 10 ^ (scale a - scale b))),
          (Z.ltb_spec (Z.abs (unscaled a)) (Z.abs (unscaled b) * 10 ^ (scale a - scale b))), (unscaled a <? 0);
          unfold X in *; cmp_sign.
      * assert (X = Z.abs (unscaled a) * 10 ^ (scale b - scale a) * 10 ^ scale a) as HX
          by (unfold X; rewrite <- Z.mul_assoc, <- Z.pow_add_r by lia; do 2 f_equal; lia).
        destruct (Z.eqb_spec (Z.abs (unscaled a) * 10 ^ (scale b - scale a)) (Z.abs (unscaled b))),
          (Z.ltb_spec (Z.abs (unscaled a) * 10 ^ (scale b - scale a)) (Z.abs (unscaled b))), (unscaled a <? 0);
          unfold Y in *; cmp_sign.
    + destruct (Z.ltb_spec (da - scale a) (db - scale b)) as [Hlt|Hge].
      * pose proof (dec_position_lt (Z.abs (unscaled a)) (Z.abs (unscaled b)) (scale a) (scale b)
          ltac:(lia) ltac:(lia) Hsa Hsb Hlt) as HXY. fold X Y in HXY. destruct (unscaled a <? 0); cmp_sign.
      * pose proof (dec_position_lt (Z.abs (unscaled b)) (Z.abs (unscaled a)) (scale b) (scale a)
          ltac:(lia) ltac:(lia) Hsb Hsa ltac:(lia)) as HXY. fold X Y in HXY. destruct (unscaled a <? 0); cmp_sign.
Qed.

(** * Alignment and division *)
Lemma align_loop_eq k u : Z.abs u < kNumericUnscaledMax ->
  align_loop k u = let u' := u * 10 ^ Z.of_nat k in
                   if kNumericUnscaledMax <=? Z.abs u' then Raise ArithError else Ok u'.
Proof.
  intros Hu. pose proof (upscale_eq k u Hu) as H. cbv zeta in *.
  assert (match upscale k u with Ok x => align_loop k u = Ok x | _ => align_loop k u = Raise ArithError end) as Hsame.
  { clear. revert u; induction k as [|k IH]; intros u; [done|]. cbn [upscale align_loop]. cbv zeta.
    destruct (negb _ && _); [done|apply IH]. }
  rewrite H in Hsame. by destruct (kNumericUnscaledMax <=? _).
Qed.

(** The long division keeps [q * ub + rem = ua * 10^i]. *)
Lemma div_loop_eq k q rem ub : 0 < ub -> 0 <= q -> 0 <= rem < ub ->
  let n := (q * ub + rem) * 10 ^ Z.of_nat k in
  match div_loop k q rem ub with
  | Ok (q', rem') => q' = n / ub /\ rem' = n mod ub
  | Raise c => c = ArithError /\ kNumericUnscaledMax <= n / ub
  | Fatal => False
  end.
Proof.
  intros Hub. revert q rem; induction k as [|k IH]; intros q rem Hq Hr n.
  - unfold n. simpl. rewrite Z.mul_1_r. split.
    + apply Z.div_unique with rem; lia.
    + apply Z.mod_unique with q; lia.
  - cbn [div_loop]. destruct (Z.leb_spec (kNumericUnscaledMax / 10) q) as [Hg|Hg].
    + split; [done|]. change (kNumericUnscaledMax / 10) with (10 ^ 37) in Hg. unfold n.
      rewrite Nat2Z.inj_succ, Z.pow_succ_r by lia. assert (0 < 10 ^ Z.of_nat k) by lia.
      apply Z.div_le_lower_bound; [done|]. unfold kNumericUnscaledMax. change (10 ^ 38) with (10 ^ 37 * 10).
      assert (10 ^ 37 * ub <= q * ub + rem) by nia. nia.
    + pose proof (Z.div_mod (rem * 10) ub ltac:(lia)). pose proof (Z.mod_pos_bound (rem * 10) ub Hub).
      assert (0 <= rem * 10 / ub) by (apply Z.div_pos; lia).
      specialize (IH (q * 10 + rem * 10 / ub) (rem * 10 mod ub) ltac:(lia) ltac:(lia)). cbv zeta in IH.
      assert (((q * 10 + rem * 10 / ub) * ub + (rem * 10) mod ub) * 10 ^ Z.of_nat k = n) as E.
      { unfold n. rewrite Nat2Z.inj_succ, Z.pow_succ_r by lia. rewrite Z.mul_assoc. f_equal. lia. }
      rewrite E in IH. exact IH.
Qed.

Lemma round_half_away_lower n p m : 0 <= n -> 0 < p -> m <= n / p -> m <= round_half_away n p.
Proof. intros. rewrite half_away_nonneg by lia. destruct (_ >=? p); lia. Qed.
(** Sign and magnitude of a rounded quotient. *)
Lemma half_away_signed a b n p : 0 < p ->
  n = Z.abs a * b -> 0 <= b ->
  round_half_away (a * b) p = if a <? 0 then - round_half_away n p else round_half_away n p.
Proof.
  intros Hp -> Hb. destruct (Z.ltb_spec a 0).
  - rewrite <- half_away_opp by done. f_equal. lia.
  - f_equal. lia.
Qed.

(** The exact quotient at [rscale] digits after the point, as a rounded fraction. *)
Definition dec_quot_ref (l r : DecimalVal) (rscale : Z) : Z :=
  round_half_away (unscaled l * Z.sgn (unscaled r) * 10 ^ (rscale + scale r - scale l)) (Z.abs (unscaled r)).

Lemma dec_div_eq l r rscale : 0 <= rscale + scale r - scale l ->
  dec_div l r rscale =
    if unscaled r =? 0 then Raise ArithError
    else if kNumericUnscaledMax <=? Z.abs (dec_quot_ref l r rscale) then Raise ArithError
    else Ok (dec_quot_ref l r rscale).
Proof.
  intros Ht. unfold dec_div. destruct (Z.eqb_spec (unscaled r) 0) as [|Hr]; [done|]. cbv zeta.
  destruct (Z.ltb_spec (rscale + scale r - scale l) 0); [lia|].
  set (ua := Z.abs (unscaled l)). set (ub := Z.abs (unscaled r)). set (t := rscale + scale r - scale l) in *.
  pose proof (div_loop_eq (Z.to_nat t) (ua / ub) (ua mod ub) ub ltac:(lia) ltac:(apply Z.div_pos; lia)
    ltac:(apply Z.mod_pos_bound; lia)) as H0. cbv zeta in H0. rewrite Z2Nat.id in H0 by lia.
  assert (ua / ub * ub + ua mod ub = ua) as Eua by (pose proof (Z.div_mod ua ub); lia). rewrite Eua in H0.
  set (n := ua * 10 ^ t) in *. assert (0 < 10 ^ t) by lia. assert (0 <= n) by (unfold n; nia).
  assert (dec_quot_ref l r rscale = if negb (Bool.eqb (unscaled l <? 0) (unscaled r <? 0)) then - round_half_away n ub
          else round_half_away n ub) as Eref.
  { unfold dec_quot_ref. fold t ub. rewrite (half_away_signed _ _ n) by (unfold n, ua; nia).
    destruct (decide (unscaled l = 0)) as [E0|].
    - assert (n = 0) as -> by (unfold n, ua; rewrite E0; lia). rewrite E0, Z.mul_0_l.
      assert (round_half_away 0 ub = 0) as ->; [|by destruct (negb _)].
      rewrite half_away_nonneg, Z.div_0_l, Z.mod_0_l by lia. destruct (Z.geb_spec (0 * 2) ub); lia.
    - destruct (Z.ltb_spec (unscaled l) 0), (Z.ltb_spec (unscaled r) 0), (Z.ltb_spec (unscaled l * Z.sgn (unscaled r)) 0);
        try done; nia. }
  assert (0 <= round_half_away n ub) as Hq0 by (apply round_half_away_lower; try lia; apply Z.div_pos; lia).
  assert (Z.abs (dec_quot_ref l r rscale) = round_half_away n ub) as Eabs by (rewrite Eref; destruct (negb _); lia).
  rewrite Eabs. destruct (div_loop _ _ _ _) as [[q rem]|c|]; [|destruct H0 as [-> Hbig]|done].
  - destruct H0 as [-> ->]. cbn [mbind result_bind]. rewrite <- half_away_nonneg by lia.
    destruct (Z.geb_spec (round_half_away n ub) kNumericUnscaledMax), (Z.leb_spec kNumericUnscaledMax (round_half_away n ub)); try lia; [done|].
    by rewrite Eref.
  - cbn [mbind result_bind]. pose proof (round_half_away_lower n ub kNumericUnscaledMax ltac:(lia) ltac:(lia) Hbig).
    destruct (Z.leb_spec kNumericUnscaledMax (round_half_away n ub)); [done|lia].
Qed.

(** * The four operations *)
Definition wf_dec (d : DecimalVal) : Prop := Z.abs (unscaled d) < kNumericUnscaledMax /\ 0 <= scale d <= 255.
(** The exact result, as an unscaled number at scale [rs]; a quotient is rounded to nearest. *)
Definition dec_arith_ref (op : ArithOp) (l r : DecimalVal) (rs : Z) : Z :=
  match op with
  | OpAdd => unscaled l * 10 ^ (rs - scale l) + unscaled r * 10 ^ (rs - scale r)
  | OpSub => unscaled l * 10 ^ (rs - scale l) - unscaled r * 10 ^ (rs - scale r)
  | OpMul => unscaled l * unscaled r
  | OpDiv => dec_quot_ref l r rs
  end.
(** An operand that does not fit 38 digits once aligned to the result scale. *)
Definition align_overflow (op : ArithOp) (l r : DecimalVal) (rs : Z) : Prop :=
  (op = OpAdd \/ op = OpSub) /\
  (kNumericUnscaledMax <= Z.abs (unscaled l * 10 ^ (rs - scale l)) \/
   kNumericUnscaledMax <= Z.abs (unscaled r * 10 ^ (rs - scale r))).

Lemma dec_result_scale_bounds op l r rs : wf_dec l -> wf_dec r -> dec_result_scale op l r = Ok rs ->
  0 <= rs <= 255 /\ (op <> OpMul -> scale l <= rs /\ scale r <= rs).
Proof.
  unfold wf_dec, dec_result_scale. intros [_ Hl] [_ Hr]. cbv zeta.
  destruct op; match goal with |- context [?a >? 255] => destruct (Z.gtb_spec a 255) end; intros [= <-]; (split; [lia|]); intros; try done; lia.
Qed.

Lemma dec_align_eq u from to : Z.abs u < kNumericUnscaledMax -> from <= to ->
  dec_align u from to =
    if kNumericUnscaledMax <=? Z.abs (u * 10 ^ (to - from)) then Raise ArithError else Ok (u * 10 ^ (to - from)).
Proof. intros. unfold dec_align. rewrite align_loop_eq by done. by rewrite Z2Nat.id by lia. Qed.

Lemma dec_arith_cases op l r rs :
  wf_dec l -> wf_dec r -> dec_result_scale op l r = Ok rs ->
  match dec_arith op l r rs with
  | Ok z => z = dec_arith_ref op l r rs /\ wf_dec (mkDec z rs) /\ (op = OpDiv -> unscaled r <> 0)
  | Raise c => c = ArithError /\ ((op = OpDiv /\ unscaled r = 0) \/ align_overflow op l r rs \/
                                  kNumericUnscaledMax <= Z.abs (dec_arith_ref op l r rs))
  | Fatal => False
  end.
Proof.
  intros Hl Hr Hrs. destruct (dec_result_scale_bounds _ _ _ _ Hl Hr Hrs) as [Hb Hge].
  pose proof Hl as [Hul Hsl]. pose proof Hr as [Hur Hsr]. unfold align_overflow.
  assert (forall z, Z.abs z < kNumericUnscaledMax -> wf_dec (mkDec z rs)) as Hwf by (intros z Hz; split; [done|simpl; lia]).
  destruct (decide (op = OpDiv)) as [->|Hnd].
  { cbn [dec_arith dec_arith_ref]. destruct (Hge ltac:(done)). rewrite dec_div_eq by lia.
    destruct (Z.eqb_spec (unscaled r) 0); [by auto|].
    destruct (Z.leb_spec kNumericUnscaledMax (Z.abs (dec_quot_ref l r rs))); [by auto|]. split_and!; by auto. }
  destruct (decide (op = OpMul)) as [->|Hnm].
  { cbn [dec_arith dec_arith_ref mbind result_bind].
    destruct (Z.geb_spec (Z.abs (unscaled l * unscaled r)) kNumericUnscaledMax); [auto|]. by split_and!; auto. }
  destruct (Hge Hnm). assert (op = OpAdd \/ op = OpSub) as Has by (destruct op; try done; auto).
  assert (dec_arith op l r rs =
    (out ← (lu ← dec_align (unscaled l) (scale l) rs; ru ← dec_align (unscaled r) (scale r) rs;
            Ok (if decide (op = OpAdd) then lu + ru else lu - ru));
     if Z.abs out >=? kNumericUnscaledMax then Raise ArithError else Ok out)) as -> by (by destruct Has as [->| ->]).
  rewrite !dec_align_eq by (done || lia).
  destruct (Z.leb_spec kNumericUnscaledMax (Z.abs (unscaled l * 10 ^ (rs - scale l))));
    [cbn [mbind result_bind]; split; [done|right; left; by auto]|].
  cbn [mbind result_bind].
  destruct (Z.leb_spec kNumericUnscaledMax (Z.abs (unscaled r * 10 ^ (rs - scale r))));
    [cbn [mbind result_bind]; split; [done|right; left; by auto]|].
  cbn [mbind result_bind].
  assert ((if decide (op = OpAdd) then unscaled l * 10 ^ (rs - scale l) + unscaled r * 10 ^ (rs - scale r)
    else unscaled l * 10 ^ (rs - scale l) - unscaled r * 10 ^ (rs - scale r)) = dec_arith_ref op l r rs) as ->
    by (by destruct Has as [->| ->]).
  destruct (Z.geb_spec (Z.abs (dec_arith_ref op l r rs)) kNumericUnscaledMax); [split; [done|right; right; lia]|].
  split_and!; [done|by apply Hwf|intros ->; done].
Qed.

(** Numeric comparison is exact: the three-way comparison by sign, leading position and aligned
    digits is the order of the rational values, for every pair of scales. *)
Theorem dec_cmp_is_order a b : 0 <= scale a -> 0 <= scale b ->
  (dec_cmp a b = 0 <-> unscaled a * 10 ^ scale b = unscaled b * 10 ^ scale a) /\
  (dec_cmp a b < 0 <-> unscaled a * 10 ^ scale b < unscaled b * 10 ^ scale a) /\
  (0 < dec_cmp a b <-> unscaled b * 10 ^ scale a < unscaled a * 10 ^ scale b) /\
  dec_cmp b a = - dec_cmp a b.
Proof.
  intros Ha Hb. rewrite !dec_cmp_exact by done. unfold dec_compare, sign_of_compare.
  rewrite (Z.compare_antisym (unscaled a * 10 ^ scale b)).
  destruct (Z.compare_spec (unscaled a * 10 ^ scale b) (unscaled b * 10 ^ scale a)); simpl; lia.
Qed.
Lemma dec_cmp_is_order_witness :
  (dec_cmp (mkDec 15 1) (mkDec 150 2) = 0 <-> 15 * 10 ^ 2 = 150 * 10 ^ 1) /\
  (dec_cmp (mkDec 15 1) (mkDec 150 2) < 0 <-> 15 * 10 ^ 2 < 150 * 10 ^ 1) /\
  (0 < dec_cmp (mkDec 15 1) (mkDec 150 2) <-> 150 * 10 ^ 1 < 15 * 10 ^ 2) /\
  dec_cmp (mkDec 150 2) (mkDec 15 1) = - dec_cmp (mkDec 15 1) (mkDec 150 2).
Proof. apply (dec_cmp_is_order (mkDec 15 1) (mkDec 150 2)); simpl; lia. Defined.

(** * Rounding functions *)
Lemma round_dec_eq d n : wf_dec d -> n < scale d -> scale d - n < 39 ->
  round_dec d n =
    let q := round_half_away (unscaled d) (10 ^ (scale d - n)) * 10 ^ Z.max 0 (- n) in
    if kNumericUnscaledMax <=? Z.abs q then Raise ArithError else Ok (mkDec q (Z.max 0 n)).
Proof.
  intros [Hu Hs] Hn Hk. unfold round_dec. destruct (Z.geb_spec n (scale d)); [lia|]. cbv zeta.
  destruct (Z.ltb_spec (scale d - n) 39); [|lia]. unfold dec_pow10.
  destruct (Z.ltb_spec (scale d - n) 0); [lia|]. destruct (Z.gtb_spec (scale d - n) 38); [lia|].
  cbn [orb mbind result_bind]. rewrite pow10_small by lia. set (p := 10 ^ (scale d - n)).
  assert (0 < p) by (unfold p; lia). rewrite <- half_away_nonneg by lia.
  set (q := round_half_away (Z.abs (unscaled d)) p).
  assert (0 <= q) by (apply round_half_away_lower; try lia; apply Z.div_pos; lia).
  assert (round_half_away (unscaled d) p = if unscaled d <? 0 then - q else q) as ->.
  { pose proof (half_away_signed (unscaled d) 1 (Z.abs (unscaled d)) p ltac:(lia) ltac:(lia) ltac:(lia)) as E.
    by rewrite Z.mul_1_r in E. }
  assert (0 < 10 ^ Z.max 0 (- n)) by (apply Z.pow_pos_nonneg; lia).
  assert (Z.abs ((if unscaled d <? 0 then - q else q) * 10 ^ Z.max 0 (- n)) = q * 10 ^ Z.max 0 (- n)) as ->
    by (destruct (unscaled d <? 0); rewrite ?Z.mul_opp_l, ?Z.abs_opp; apply Z.abs_eq; nia).
  destruct (Z.ltb_spec n 0).
  - destruct (Z.ltb_spec (- n) 0); [lia|]. destruct (Z.gtb_spec (- n) 38); [lia|]. cbn [orb mbind result_bind].
    rewrite pow10_small by lia. rewrite !Z.max_r by lia. rewrite Z.max_l by lia.
    destruct (Z.geb_spec (q * 10 ^ (- n)) kNumericUnscaledMax), (Z.leb_spec kNumericUnscaledMax (q * 10 ^ (- n))); try lia; [done|].
    do 2 f_equal. destruct (unscaled d <? 0); lia.
  - rewrite !Z.max_l, Z.max_r by lia. rewrite !Z.mul_1_r. cbn [mbind result_bind].
    destruct (Z.geb_spec q kNumericUnscaledMax), (Z.leb_spec kNumericUnscaledMax q); try lia; done.
Qed.

Lemma round_dec_cases d n :
  wf_dec d ->
  round_dec d n =
    if scale d <=? n then Ok d
    else
      let q := if scale d - n <? 39
               then round_half_away (unscaled d) (10 ^ (scale d - n)) * 10 ^ Z.max 0 (- n) else 0 in
      if kNumericUnscaledMax <=? Z.abs q then Raise ArithError else Ok (mkDec q (Z.max 0 n)).
Proof.
  intros Hd. destruct (Z.leb_spec (scale d) n) as [Hle|Hlt].
  - unfold round_dec. destruct (Z.geb_spec n (scale d)); [done|lia].
  - destruct (Z.ltb_spec (scale d - n) 39); [by apply round_dec_eq|]. unfold round_dec. cbv zeta.
    destruct (Z.geb_spec n (scale d)); [lia|]. destruct (Z.ltb_spec (scale d - n) 39); [lia|].
    cbn. destruct (unscaled d <? 0), (Z.ltb_spec n 0); do 2 f_equal; lia.
Qed.
(** round(x, n) rounds to [n] digits after the point, halves away from zero, for negative [n] to
    multiples of a power of ten; a result of 10^38 or more raises ArithError; asking for at least
    the digits there are changes nothing, and 39 or more digits to drop leave zero. *)
Theorem round_dec_spec d n :
  wf_dec d ->
  round_dec d n =
    if scale d <=? n then Ok d
    else
      let q := if scale d - n <? 39
               then round_half_away (unscaled d) (10 ^ (scale d - n)) * 10 ^ Z.max 0 (- n) else 0 in
      if kNumericUnscaledMax <=? Z.abs q then Raise ArithError else Ok (mkDec q (Z.max 0 n)).
Proof. apply round_dec_cases. Qed.
Lemma round_dec_spec_witness : round_dec (mkDec (-12345) 2) (-1) = Ok (mkDec (-120) 0).
Proof. pose proof (round_dec_spec (mkDec (-12345) 2) (-1) ltac:(done)) as H. vm_compute in H. exact H. Defined.

Lemma trunc_dec_eq d up :
  wf_dec d ->
  trunc_dec d up = Ok (mkDec (if up then - (- unscaled d / 10 ^ scale d) else unscaled d / 10 ^ scale d) 0).
Proof.
  intros [Hu Hs]. unfold trunc_dec. destruct (Z.eqb_spec (scale d) 0) as [E|E].
  { rewrite E, !Z.div_1_r. destruct up; do 2 f_equal; lia. }
  cbv zeta. assert (0 < 10 ^ scale d) as Hp by lia.
  destruct (Z.geb_spec (scale d) 39) as [Hge|Hlt].
  - assert (10 ^ 38 < 10 ^ scale d) by (apply Z.pow_lt_mono_r; lia). unfold kNumericUnscaledMax in Hu.
    do 2 f_equal. destruct (Z.eqb_spec (unscaled d) 0) as [->|]; [by destruct up|].
    destruct up, (Z.ltb_spec (unscaled d) 0).
    + rewrite Z.div_small by lia. done.
    + assert (- unscaled d / 10 ^ scale d = -1) as -> by (symmetry; apply Z.div_unique with (10 ^ scale d - unscaled d); lia). done.
    + symmetry. symmetry. apply Z.div_unique with (10 ^ scale d + unscaled d); lia.
    + rewrite Z.div_small by lia. done.
  - unfold dec_pow10. destruct (Z.ltb_spec (scale d) 0); [lia|]. destruct (Z.gtb_spec (scale d) 38); [lia|].
    cbn [orb mbind result_bind]. rewrite pow10_small by lia. set (p := 10 ^ scale d) in *.
    pose proof (Z.div_mod (Z.abs (unscaled d)) p ltac:(lia)). pose proof (Z.mod_pos_bound (Z.abs (unscaled d)) p Hp).
    do 2 f_equal. set (m := Z.abs (unscaled d) mod p) in *. set (k := Z.abs (unscaled d) / p) in *.
    destruct (Z.eqb_spec m 0) as [Em|Em]; cbn [negb andb].
    + destruct up, (Z.ltb_spec (unscaled d) 0); cbv iota.
      * rewrite <- (Z.div_unique (- unscaled d) p k 0); lia.
      * rewrite <- (Z.div_unique (- unscaled d) p (- k) 0); lia.
      * apply Z.div_unique with 0; lia.
      * apply Z.div_unique with 0; lia.
    + destruct up, (Z.ltb_spec (unscaled d) 0); cbn [Bool.eqb negb]; cbv iota.
      * rewrite <- (Z.div_unique (- unscaled d) p k m); lia.
      * rewrite <- (Z.div_unique (- unscaled d) p (- (k + 1)) (p - m)); lia.
      * apply Z.div_unique with (p - m); lia.
      * apply Z.div_unique with m; lia.
Qed.
(** floor and ceil of a numeric are the integer floor and ceiling of its value, at scale 0. *)
Theorem trunc_dec_spec d up :
  wf_dec d ->
  trunc_dec d up = Ok (mkDec (if up then - (- unscaled d / 10 ^ scale d) else unscaled d / 10 ^ scale d) 0).
Proof. apply trunc_dec_eq. Qed.
Lemma trunc_dec_spec_witness : trunc_dec (mkDec (-15) 1) false = Ok (mkDec (-2) 0).
Proof. pose proof (trunc_dec_spec (mkDec (-15) 1) false ltac:(done)) as H. vm_compute in H. exact H. Defined.
