(* ===== verification/Expr.v ===== *)
(** Bound expressions (src/analyzer/bound_expr.h) and their evaluator (src/expr): arithmetic,
    comparison, three-valued logic, casts and built-in functions. *)
From S2P Require Import Prelude Types Ieee Cast Decimal.

Inductive CmpOp := CmpEq | CmpNe | CmpLt | CmpLe | CmpGt | CmpGe.
Inductive LogicOp := LAnd | LOr.
#[export] Instance CmpOp_eq_dec : EqDecision CmpOp.
Proof. solve_decision. Defined.
#[export] Instance LogicOp_eq_dec : EqDecision LogicOp.
Proof. solve_decision. Defined.

(** * Bound expression trees *)
Inductive BoundExpr :=
| BoundConst (value : Value)
| BoundColRef (col_idx : nat) (type : TypeAttr)
| BoundArith (op : ArithOp) (left right : BoundExpr) (type : TypeAttr)
| BoundNeg (operand : BoundExpr) (type : TypeAttr)
| BoundCmp (op : CmpOp) (left right : BoundExpr)
| BoundLogic (op : LogicOp) (left right : BoundExpr)
| BoundNot (operand : BoundExpr)
| BoundIsNull (operand : BoundExpr) (negate : bool)
| BoundFuncCall (func : Z) (name : string) (strict_null : bool) (args : list BoundExpr) (type : TypeAttr)
| BoundCast (operand : BoundExpr) (type : TypeAttr) (length scale : Z).

Section bound_ind.
Context (P : BoundExpr -> Prop).
Context (HConst : forall v, P (BoundConst v)) (HCol : forall i t, P (BoundColRef i t)).
Context (HArith : forall op l r t, P l -> P r -> P (BoundArith op l r t)).
Context (HNeg : forall e t, P e -> P (BoundNeg e t)).
Context (HCmp : forall op l r, P l -> P r -> P (BoundCmp op l r)).
Context (HLogic : forall op l r, P l -> P r -> P (BoundLogic op l r)).
Context (HNot : forall e, P e -> P (BoundNot e)) (HIsNull : forall e n, P e -> P (BoundIsNull e n)).
Context (HFunc : forall f n s args t, Forall P args -> P (BoundFuncCall f n s args t)).
Context (HCast : forall e t l s, P e -> P (BoundCast e t l s)).
Fixpoint BoundExpr_ind' (e : BoundExpr) : P e :=
  match e with
  | BoundConst v => HConst v
  | BoundColRef i t => HCol i t
  | BoundArith op l r t => HArith op l r t (BoundExpr_ind' l) (BoundExpr_ind' r)
  | BoundNeg e t => HNeg e t (BoundExpr_ind' e)
  | BoundCmp op l r => HCmp op l r (BoundExpr_ind' l) (BoundExpr_ind' r)
  | BoundLogic op l r => HLogic op l r (BoundExpr_ind' l) (BoundExpr_ind' r)
  | BoundNot e => HNot e (BoundExpr_ind' e)
  | BoundIsNull e n => HIsNull e n (BoundExpr_ind' e)
  | BoundFuncCall f n s args t =>
      HFunc f n s args t
        ((fix go l : Forall P l := match l with
                                   | [] => List.Forall_nil P
                                   | x :: l => List.Forall_cons P x l (BoundExpr_ind' x) (go l)
                                   end) args)
  | BoundCast e t l s => HCast e t l s (BoundExpr_ind' e)
  end.
End bound_ind.

(** * Reading values: src/expr/expr_value.cpp *)
Definition is_null (v : Value) : bool := value_is_null v.
(** [std::get] on the result of an implicit conversion to the target's own representation; another
    alternative would be a bad_variant_access. *)
Definition to_double (v : Value) (to : TypeAttr) : result f64 :=
  r ← cast_value v to Implicit; match box r with BDouble d => Ok d | _ => Fatal end.
Definition to_float (v : Value) (to : TypeAttr) : result f32 :=
  r ← cast_value v to Implicit; match box r with BFloat f => Ok f | _ => Fatal end.
Definition get_int (v : Value) (domain : TypeAttr) : result Z :=
  r ← cast_value v domain Implicit; match box r with BInt i => Ok i | _ => Fatal end.
Definition to_numeric (v : Value) (to : TypeAttr) : result DecimalVal :=
  r ← cast_value v to Implicit; match box r with BDec d => Ok d | _ => Fatal end.
Definition box_f64 (v : Value) : result f64 := to_double v kDouble.

(** * Operators *)
Definition eval_neg_value (t : TypeAttr) (v : Value) : result Value :=
  if is_null v then Ok v
  else if decide (rep t = RepFloat) then f ← to_float v t; Ok (float_val t (fneg binary32 f))
  else if decide (rep t = RepDouble) then d ← to_double v t; Ok (double_val t (fneg binary64 d))
  else if decide (rep t = RepDec) then d ← get_dec v; Ok (numeric_val t (- unscaled d) (scale d))
  else
    i ← get_int v t;
    if (i =? INT64_MIN) || ((width t =? 4) && (i =? INT32_MIN)) then Raise ArithError
    else Ok (int_val t (- i)).

Definition float_op (op : ArithOp) (f : fmt) : Z -> Z -> Z :=
  match op with OpAdd => fadd f | OpSub => fsub f | OpMul => fmul f | OpDiv => fdiv f end.
(** The [__builtin_*_overflow] checks: the exact result, refused outside int64. *)
Definition int_op (op : ArithOp) (l r : Z) : result Z :=
  match op with
  | OpAdd => if in_i64 (l + r) then Ok (l + r) else Raise ArithError
  | OpSub => if in_i64 (l - r) then Ok (l - r) else Raise ArithError
  | OpMul => if in_i64 (l * r) then Ok (l * r) else Raise ArithError
  | OpDiv => if r =? 0 then Raise ArithError
             else if (l =? INT64_MIN) && (r =? -1) then Raise ArithError
             else Ok (Z.quot l r)
  end.
Definition eval_binary_values (op : ArithOp) (t : TypeAttr) (lv rv : Value) : result Value :=
  if is_null lv || is_null rv then Ok null_val
  else if decide (rep t = RepDec) then
    l ← to_numeric lv t; r ← to_numeric rv t; rs ← dec_result_scale op l r;
    u ← dec_arith op l r rs; Ok (numeric_val t u rs)
  else if decide (rep t = RepFloat) then
    l ← to_float lv t; r ← to_float rv t;
    let out := float_op op binary32 l r in
    if negb (is_finite binary32 out) then Raise ArithError else Ok (float_val t out)
  else if decide (rep t = RepDouble) then
    l ← to_double lv t; r ← to_double rv t;
    let out := float_op op binary64 l r in
    if negb (is_finite binary64 out) then Raise ArithError else Ok (double_val t out)
  else
    l ← get_int lv t; r ← get_int rv t; out ← int_op op l r;
    if (width t =? 4) && ((out <? INT32_MIN) || (out >? INT32_MAX)) then Raise ArithError
    else Ok (int_val t out).

(** [string_view::compare]: the sign of the byte-wise comparison. *)
Fixpoint bytes_compare (s t : bytes) : comparison :=
  match s, t with
  | [], [] => Eq
  | [], _ :: _ => Lt
  | _ :: _, [] => Gt
  | a :: s, b :: t => match a ?= b with Eq => bytes_compare s t | c => c end
  end.
Definition text_key (v : Value) (s : bytes) : bytes :=
  if decide (store (vtype v) = StCharPad) then rtrim s else s.

Definition value_cmp (a b : Value) : result Z :=
  let an := is_null a in
  let bn := is_null b in
  if an || bn then Ok (if an && bn then 0 else if an then 1 else -1)
  else match family (vtype a), family (vtype b) with
  | FamNum, FamNum =>
      match box a, box b with
      | BInt l, BInt r => Ok (if l <? r then -1 else if l >? r then 1 else 0)
      | BDec l, BDec r => Ok (dec_cmp l r)
      | BDec l, BInt r => Ok (dec_cmp l (mkDec r 0))
      | BInt l, BDec r => Ok (dec_cmp (mkDec l 0) r)
      | _, _ => l ← box_f64 a; r ← box_f64 b;
                Ok (if flt binary64 l r then -1 else if fgt binary64 l r then 1 else 0)
      end
  | FamText, FamText =>
      match box a, box b with
      | BStr l, BStr r => Ok (sign_of_compare (bytes_compare (text_key a l) (text_key b r)))
      | _, _ => Raise Internal
      end
  | FamBool, FamBool =>
      match box a, box b with
      | BBool l, BBool r => Ok (if Bool.eqb l r then 0 else if l then 1 else -1)
      | _, _ => Raise Internal
      end
  | _, _ => Raise Internal
  end.

Definition cmp_holds (op : CmpOp) (c : Z) : bool :=
  match op with
  | CmpEq => c =? 0 | CmpNe => negb (c =? 0) | CmpLt => c <? 0
  | CmpLe => c <=? 0 | CmpGt => c >? 0 | CmpGe => c >=? 0
  end.
Definition eval_compare_values (op : CmpOp) (lv rv : Value) : result Value :=
  if is_null lv || is_null rv then Ok null_val
  else c ← value_cmp lv rv; Ok (bool_val kBool (cmp_holds op c)).

Definition bool_of (v : Value) : option bool := match box v with BBool b => Some b | _ => None end.
Definition eval_logic_values (op : LogicOp) (lv rv : Value) : result Value :=
  let lb := bool_of lv in
  let rb := bool_of rv in
  if (negb (is_null lv) && bool_decide (lb = None)) || (negb (is_null rv) && bool_decide (rb = None))
  then Raise Internal
  else match op with
  | LAnd => if bool_decide (lb = Some false) || bool_decide (rb = Some false) then Ok (bool_val kBool false)
            else if bool_decide (lb = None) || bool_decide (rb = None) then Ok null_val
            else Ok (bool_val kBool true)
  | LOr => if bool_decide (lb = Some true) || bool_decide (rb = Some true) then Ok (bool_val kBool true)
           else if bool_decide (lb = None) || bool_decide (rb = None) then Ok null_val
           else Ok (bool_val kBool false)
  end.
Definition eval_not_value (v : Value) : result Value :=
  if is_null v then Ok v
  else match bool_of v with Some b => Ok (bool_val kBool (negb b)) | None => Raise Internal end.

Definition eval_cast_value (v : Value) (t : TypeAttr) (len s : Z) : result Value :=
  if is_null v then Ok v
  else if bool_decide (rep t = RepDec) && (len >? 0) then coerce_numeric v t len s Explicit
  else
    out ← cast_value v t Explicit;
    out ← (if bool_decide (rep t = RepInt64) && (width t =? 4) then
             match box out with
             | BInt i => if (i <? INT32_MIN) || (i >? INT32_MAX) then Raise ValueMismatch else Ok out
             | _ => Raise Internal
             end
           else Ok out);
    if bool_decide (family t = FamText) && (len >? 0) then
      match box out with
      | BStr str => if zlen str >? len then Raise ValueMismatch else Ok out
      | _ => Raise Internal
      end
    else Ok out.

(** * Built-in functions: src/expr/expr_func_math.cpp, expr_func.cpp *)
Definition FuncEval := list Value -> TypeAttr -> result Value.
(** [args[i]]; the binder guarantees the arity. *)
Definition arg (args : list Value) (i : nat) : result Value :=
  match args !! i with Some v => Ok v | None => Fatal end.

Definition eval_abs_int : FuncEval := fun args ret =>
  v ← arg args 0; i ← get_i64 v;
  if i =? INT32_MIN then Raise ArithError else Ok (int_val ret (if i <? 0 then - i else i)).
Definition eval_abs_bigint : FuncEval := fun args ret =>
  v ← arg args 0; i ← get_i64 v;
  if i =? INT64_MIN then Raise ArithError else Ok (int_val ret (if i <? 0 then - i else i)).
Definition eval_abs_double : FuncEval := fun args ret =>
  v ← arg args 0; d ← get_f64 v; Ok (double_val ret (fabs binary64 d)).
Definition eval_abs_float : FuncEval := fun args ret =>
  v ← arg args 0; f ← get_f32 v; Ok (float_val ret (fabs binary32 f)).
Definition eval_abs_numeric : FuncEval := fun args ret =>
  v ← arg args 0; d ← get_dec v;
  Ok (numeric_val ret (if unscaled d <? 0 then - unscaled d else unscaled d) (scale d)).
(** round, floor and ceil of an integer. *)
Definition eval_id_int : FuncEval := fun args ret => v ← arg args 0; i ← get_i64 v; Ok (int_val ret i).
Definition eval_float1 (op64 op32 : Z -> Z) (single : bool) : FuncEval := fun args ret =>
  v ← arg args 0;
  if single then f ← get_f32 v; Ok (float_val ret (op32 f)) else d ← get_f64 v; Ok (double_val ret (op64 d)).
Definition eval_round_double := eval_float1 (fround binary64) (fround binary32) false.
Definition eval_round_float := eval_float1 (fround binary64) (fround binary32) true.
Definition eval_floor_double := eval_float1 (ffloor binary64) (ffloor binary32) false.
Definition eval_floor_float := eval_float1 (ffloor binary64) (ffloor binary32) true.
Definition eval_ceil_double := eval_float1 (fceil binary64) (fceil binary32) false.
Definition eval_ceil_float := eval_float1 (fceil binary64) (fceil binary32) true.
Definition dec_result (ret : TypeAttr) (r : result DecimalVal) : result Value :=
  d ← r; Ok (numeric_val ret (unscaled d) (scale d)).
Definition eval_round_numeric : FuncEval := fun args ret =>
  v ← arg args 0; d ← get_dec v; dec_result ret (round_dec d 0).
Definition eval_round_numeric_int : FuncEval := fun args ret =>
  v ← arg args 0; d ← get_dec v; w ← arg args 1; n ← get_i64 w; dec_result ret (round_dec d n).
Definition eval_floor_numeric : FuncEval := fun args ret =>
  v ← arg args 0; d ← get_dec v; dec_result ret (trunc_dec d false).
Definition eval_ceil_numeric : FuncEval := fun args ret =>
  v ← arg args 0; d ← get_dec v; dec_result ret (trunc_dec d true).
(** mod(int,int) and mod(bigint,bigint). *)
Definition eval_mod_int : FuncEval := fun args ret =>
  v ← arg args 0; l ← get_i64 v; w ← arg args 1; r ← get_i64 w;
  if r =? 0 then Raise ArithError
  else if (l =? INT64_MIN) && (r =? -1) then Ok (int_val ret 0)
  else Ok (int_val ret (Z.rem l r)).
Definition eval_mod_double : FuncEval := fun args ret =>
  v ← arg args 0; l ← get_f64 v; w ← arg args 1; r ← get_f64 w;
  let out := ffmod binary64 l r in
  if negb (is_finite binary64 out) then Raise ArithError else Ok (double_val ret out).
Definition eval_mod_float : FuncEval := fun args ret =>
  v ← arg args 0; l ← get_f32 v; w ← arg args 1; r ← get_f32 w;
  let out := ffmod binary32 l r in
  if negb (is_finite binary32 out) then Raise ArithError else Ok (float_val ret out).
Definition eval_mod_numeric : FuncEval := fun args ret =>
  v ← arg args 0; l ← get_dec v; w ← arg args 1; r ← get_dec w;
  if unscaled r =? 0 then Raise ArithError
  else
    let s := if scale l >? scale r then scale l else scale r in
    lu ← dec_align (unscaled l) (scale l) s;
    ru ← dec_align (unscaled r) (scale r) s;
    Ok (numeric_val ret (Z.rem lu ru) s).

(** [kFuncTable], indexed by db_func.func_id; slot 0 is empty. *)
Definition kFuncTable : list (option FuncEval) :=
  [ None; Some eval_abs_int; Some eval_abs_bigint; Some eval_abs_double; Some eval_abs_float;
    Some eval_abs_numeric; Some eval_id_int; Some eval_id_int; Some eval_round_double;
    Some eval_round_float; Some eval_round_numeric; Some eval_round_numeric_int; Some eval_id_int;
    Some eval_id_int; Some eval_floor_double; Some eval_floor_float; Some eval_floor_numeric;
    Some eval_id_int; Some eval_id_int; Some eval_ceil_double; Some eval_ceil_float;
    Some eval_ceil_numeric; Some eval_mod_int; Some eval_mod_int; Some eval_mod_double;
    Some eval_mod_float; Some eval_mod_numeric ].
Definition eval_builtin (func_id : Z) (args : list Value) (ret : TypeAttr) : result Value :=
  if func_id <? 0 then Raise Internal
  else match kFuncTable !! Z.to_nat func_id with
       | Some (Some f) => f args ret
       | _ => Raise Internal
       end.

(** * The evaluator *)
Definition eval_func_values (f : Z) (strict : bool) (argv : list Value) (t : TypeAttr) : result Value :=
  if strict then
    match List.find is_null argv with Some v => Ok v | None => eval_builtin f argv t end
  else eval_builtin f argv t.

(** [row = None] is the constant context. An index past the row is undefined in the source; the
    binder never produces one. *)
Fixpoint eval_bound (e : BoundExpr) (row : option (list Value)) : result Value :=
  match e with
  | BoundConst v =>
      match box v with
      | BDouble d => if negb (is_finite binary64 d) then Raise ArithError else Ok v
      | _ => Ok v
      end
  | BoundColRef i _ =>
      match row with
      | None => Raise Internal
      | Some vs => match vs !! i with Some v => Ok v | None => Fatal end
      end
  | BoundArith op l r t =>
      lv ← eval_bound l row; rv ← eval_bound r row; eval_binary_values op t lv rv
  | BoundNeg e t => v ← eval_bound e row; eval_neg_value t v
  | BoundCmp op l r => lv ← eval_bound l row; rv ← eval_bound r row; eval_compare_values op lv rv
  | BoundLogic op l r => lv ← eval_bound l row; rv ← eval_bound r row; eval_logic_values op lv rv
  | BoundNot e => v ← eval_bound e row; eval_not_value v
  | BoundIsNull e negate => v ← eval_bound e row; Ok (bool_val kBool (if negate then negb (is_null v) else is_null v))
  | BoundFuncCall f _ strict args t =>
      argv ← (fix go l := match l with
                          | [] => Ok []
                          | a :: l => v ← eval_bound a row; vs ← go l; Ok (v :: vs)
                          end) args;
      eval_func_values f strict argv t
  | BoundCast e t len s => v ← eval_bound e row; eval_cast_value v t len s
  end.

Definition eval_const (e : BoundExpr) : result Value := eval_bound e None.
Definition eval_row (e : BoundExpr) (row : list Value) : result Value := eval_bound e (Some row).
Definition eval_args (row : option (list Value)) (args : list BoundExpr) : result (list Value) :=
  mapM (fun a => eval_bound a row) args.

(** NULL (unknown) does not match. *)
Definition where_match (e : BoundExpr) (row : list Value) : result bool :=
  v ← eval_row e row;
  if is_null v then Ok false
  else match bool_of v with Some b => Ok b | None => Raise Internal end.

Lemma eval_args_eq row args :
  (fix go l := match l with
               | [] => Ok []
               | a :: l => v ← eval_bound a row; vs ← go l; Ok (v :: vs)
               end) args = eval_args row args.
Proof. induction args as [|a l IH]; [done|]. by rewrite IH. Qed.

Example eval_demo :
  eval_row (BoundArith OpAdd (BoundColRef 0 kInt) (BoundConst (numeric_val kNumeric 15 1)) kNumeric)
    [int_val kInt 2] = Ok (numeric_val kNumeric 35 1).
Proof. by vm_compute. Qed.
