(* ===== verification/Typing.v ===== *)
(** Static typing of bound expressions, the binder (src/analyzer/analyzer_expr.cpp) and the type
    soundness the analyzer promises: an expression it lets through never fails for its types. *)
From S2P Require Import Prelude Types Ieee Finite Text Cast Decimal Expr.

(** * Values of a type *)
Definition value_ok (t : TypeAttr) (v : Value) : Prop :=
  is_null v = true \/
  (vtype v = t /\ rep t = box_rep (box v) /\ box_range (box v) /\
   (t = kInt -> match box v with BInt i => INT32_MIN <= i <= INT32_MAX | _ => True end)).

(** Normal return in [P], or one of the two errors data can cause. *)
Definition safe {A} (P : A -> Prop) (r : result A) : Prop :=
  match r with Ok a => P a | Raise c => c = ArithError \/ c = ValueMismatch | Fatal => False end.

Lemma safe_bind {A B} (P : A -> Prop) (Q : B -> Prop) r f :
  safe P r -> (forall a, P a -> safe Q (f a)) -> safe Q (r ≫= f).
Proof. destruct r; simpl; auto. Qed.
Lemma safe_mono {A} (P Q : A -> Prop) r : safe P r -> (forall a, P a -> Q a) -> safe Q r.
Proof. destruct r; simpl; auto. Qed.
Lemma only_vm_safe {A} (r : result A) : only_vm r -> safe (fun _ => True) r.
Proof. destruct r; simpl; auto. Qed.
Lemma fn_typed_safe to r :
  fn_typed to r -> safe (fun v => vtype v = to /\ box_rep (box v) = rep to /\ box_range (box v)) r.
Proof. destruct r; simpl; auto. Qed.

(** * Types of expressions *)
Definition is_num_type (t : TypeAttr) : bool := bool_decide (family t = FamNum).
Definition num_or_null (t : TypeAttr) : bool := is_num_type t || (t_id t =? 0).
Definition bool_or_null (t : TypeAttr) : bool := bool_decide (family t = FamBool) || (t_id t =? 0).
Definition comparable (lt rt : TypeAttr) : bool :=
  (t_id lt =? 0) || (t_id rt =? 0) || bool_decide (family lt = family rt).
(** numeric with float goes to double, otherwise the side of higher rank. *)
Definition arith_type (lt rt : TypeAttr) : TypeAttr :=
  if (bool_decide (rep lt = RepDec) && bool_decide (rep rt = RepFloat))
     || (bool_decide (rep lt = RepFloat) && bool_decide (rep rt = RepDec)) then kDouble
  else if rank rt <=? rank lt then lt else rt.
Definition type_ok (t : TypeAttr) : Prop := t = no_type \/ seed_attr t.

(** The db_func rows of the bootstrap script: argument and result types by func_id. *)
Definition func_sigs : list (Z * list TypeAttr * TypeAttr) :=
  [
     (1, [kInt], kInt); (2, [kBigint], kBigint); (3, [kDouble], kDouble); (4, [kFloat], kFloat); (5, [kNumeric], kNumeric);
     (6, [kInt], kInt); (7, [kBigint], kBigint); (8, [kDouble], kDouble); (9, [kFloat], kFloat); (10, [kNumeric], kNumeric);
     (11, [kNumeric; kInt], kNumeric);
     (12, [kInt], kInt); (13, [kBigint], kBigint); (14, [kDouble], kDouble); (15, [kFloat], kFloat); (16, [kNumeric], kNumeric);
     (17, [kInt], kInt); (18, [kBigint], kBigint); (19, [kDouble], kDouble); (20, [kFloat], kFloat); (21, [kNumeric], kNumeric);
     (22, [kInt; kInt], kInt); (23, [kBigint; kBigint], kBigint); (24, [kDouble; kDouble], kDouble); (25, [kFloat; kFloat], kFloat); (26, [kNumeric; kNumeric], kNumeric) ].
Definition sig_ok (f : Z) (args : list TypeAttr) (ret : TypeAttr) : Prop := (f, args, ret) ∈ func_sigs.

(** An expression of no type is always NULL and may stand where any type is expected. *)
Definition le_type (t' t : TypeAttr) : Prop := t' = t \/ t' = no_type.
Lemma le_type_refl t : le_type t t.
Proof. by left. Qed.

Inductive has_type (cols : list TypeAttr) : BoundExpr -> TypeAttr -> Prop :=
| ht_const v : is_null v = false -> seed_attr (vtype v) -> value_ok (vtype v) v ->
    has_type cols (BoundConst v) (vtype v)
| ht_null v : is_null v = true -> has_type cols (BoundConst v) no_type
| ht_col i t : cols !! i = Some t -> seed_attr t -> has_type cols (BoundColRef i t) t
| ht_arith op l r lt' rt' lt rt : has_type cols l lt' -> has_type cols r rt' -> le_type lt' lt -> le_type rt' rt ->
    type_ok lt -> type_ok rt -> num_or_null lt = true -> num_or_null rt = true ->
    has_type cols (BoundArith op l r (arith_type lt rt)) (arith_type lt rt)
| ht_neg e t' t : has_type cols e t' -> le_type t' t -> type_ok t -> num_or_null t = true -> has_type cols (BoundNeg e t) t
| ht_cmp op l r lt rt : has_type cols l lt -> has_type cols r rt -> comparable lt rt = true ->
    has_type cols (BoundCmp op l r) kBool
| ht_logic op l r lt rt : has_type cols l lt -> has_type cols r rt -> bool_or_null lt = true -> bool_or_null rt = true ->
    has_type cols (BoundLogic op l r) kBool
| ht_not e t : has_type cols e t -> bool_or_null t = true -> has_type cols (BoundNot e) kBool
| ht_is_null e t n : has_type cols e t -> has_type cols (BoundIsNull e n) kBool
| ht_func f name strict args ts' ts t : sig_ok f ts t -> strict = true -> Forall2 (has_type cols) args ts' ->
    Forall2 le_type ts' ts ->
    has_type cols (BoundFuncCall f name strict args t) t
| ht_cast e t0 t len s : has_type cols e t0 -> seed_attr t -> 0 <= len -> 0 <= s <= 255 ->
    has_type cols (BoundCast e t len s) t.

(** Rows and constant contexts. *)
Definition context_ok (cols : list TypeAttr) (row : option (list Value)) : Prop :=
  match row with Some vs => Forall2 value_ok cols vs | None => cols = [] end.

(** * Facts about types *)
Lemma seed_type_ok t : seed_attr t -> type_ok t.
Proof. by right. Qed.
(** The five numeric types. *)
Definition num_type (t : TypeAttr) : Prop := t ∈ [kInt; kBigint; kDouble; kFloat; kNumeric].
#[export] Instance num_type_dec t : Decision (num_type t).
Proof. unfold num_type. apply _. Defined.
Lemma num_type_cases t : num_type t -> t = kInt \/ t = kBigint \/ t = kDouble \/ t = kFloat \/ t = kNumeric.
Proof. unfold num_type. rewrite !elem_of_cons, elem_of_nil. tauto. Qed.
Lemma seed_in t : t ∈ [kInt; kBigint; kDouble; kVarChar; kFloat; kChar; kBool; kNumeric] -> seed_attr t.
Proof. done. Qed.
Ltac solve_seed := apply seed_in; rewrite !elem_of_cons; tauto.
Lemma num_seed t : num_type t -> seed_attr t.
Proof. intros [->|[->|[->|[->| ->]]]]%num_type_cases; solve_seed. Qed.

Lemma value_ok_null t v : is_null v = true -> value_ok t v.
Proof. by left. Qed.
Lemma value_ok_no_type v : value_ok no_type v -> is_null v = true.
Proof. intros [H|(_ & H & _)]; [done|]. unfold is_null, value_is_null. by destruct (box v). Qed.
Lemma value_ok_le t' t v : le_type t' t -> value_ok t' v -> value_ok t v.
Proof. intros [->| ->] H; [done|]. by apply value_ok_null, value_ok_no_type. Qed.
Lemma value_ok_cases t v : value_ok t v -> is_null v = false ->
  vtype v = t /\ rep t = box_rep (box v) /\ box_range (box v) /\
  (t = kInt -> match box v with BInt i => INT32_MIN <= i <= INT32_MAX | _ => True end).
Proof. intros [H|H] Hn; [congruence|done]. Qed.

Lemma num_value t v : type_ok t -> num_or_null t = true -> value_ok t v -> is_null v = false -> num_type t.
Proof.
  intros Ht Hnum Hv Hn. destruct (value_ok_cases _ _ Hv Hn) as (_ & Hr & _).
  destruct Ht as [->|Ht].
  - unfold is_null, value_is_null in Hn. by destruct (box v).
  - destruct (seed_attr_cases t Ht) as [->|[->|[->|[->|[->|[->|[->| ->]]]]]]]; try done;
      unfold num_type; rewrite !elem_of_cons; tauto.
Qed.
Lemma bool_value t v : type_ok t -> bool_or_null t = true -> value_ok t v -> is_null v = false ->
  exists b, bool_of v = Some b.
Proof.
  intros Ht Hb Hv Hn. destruct (value_ok_cases _ _ Hv Hn) as (_ & Hr & _). unfold is_null, value_is_null, bool_of in *.
  destruct Ht as [->|Ht]; [by destruct (box v)|].
  destruct (seed_attr_cases t Ht) as [->|[->|[->|[->|[->|[->|[->| ->]]]]]]]; try done; destruct (box v); try done; eauto.
Qed.

(** Implicit conversions a typed operand needs always exist. *)
Definition implicit_ok (from to : TypeAttr) : bool :=
  match kCastTable (rep from) (rep to) with
  | Some (_, Implicit) => negb (bool_decide (rep from = RepInt64 /\ rep to = RepInt64 /\ width to < width from))
  | _ => false
  end.
Lemma cast_implicit_safe t v to : value_ok t v -> is_null v = false -> implicit_ok t to = true ->
  safe (fun r => vtype r = to /\ box_rep (box r) = rep to /\ box_range (box r)) (cast_value v to Implicit).
Proof.
  intros Hv Hn Hi. destruct (value_ok_cases _ _ Hv Hn) as (<- & Hr & Hrg & _). unfold cast_value.
  unfold is_null in Hn. rewrite Hn. unfold implicit_ok in Hi.
  destruct (kCastTable (rep (vtype v)) (rep to)) as [[fn []]|] eqn:E; try done.
  rewrite decide_False by (intros H; by rewrite (bool_decide_true _ H) in Hi).
  cbn [mode_rank Z.gtb Z.compare]. apply fn_typed_safe. by eapply cast_fn_typed.
Qed.
Ltac safe_cast Hv Hn Hi :=
  eapply safe_bind; [eapply cast_implicit_safe; [exact Hv|exact Hn|exact Hi]|];
  intros ? (? & Hbox & Hrange); destruct (box _) eqn:?; simpl in *; try (congruence || done).

Lemma to_double_safe t v to : value_ok t v -> is_null v = false -> implicit_ok t to = true -> rep to = RepDouble ->
  safe (fun d => float_ok binary64 d) (to_double v to).
Proof.
  intros Hv Hn Hi Hto. eapply safe_bind; [by eapply cast_implicit_safe|].
  intros r (_ & Hb & Hr). unfold get_f64. destruct (box r); simpl in *; by rewrite ?Hto in Hb.
Qed.
Lemma to_float_safe t v to : value_ok t v -> is_null v = false -> implicit_ok t to = true -> rep to = RepFloat ->
  safe (fun f => float_ok binary32 f) (to_float v to).
Proof.
  intros Hv Hn Hi Hto. eapply safe_bind; [by eapply cast_implicit_safe|].
  intros r (_ & Hb & Hr). unfold get_f32. destruct (box r); simpl in *; by rewrite ?Hto in Hb.
Qed.
Lemma get_int_safe t v to : value_ok t v -> is_null v = false -> implicit_ok t to = true -> rep to = RepInt64 ->
  safe (fun i => INT64_MIN <= i <= INT64_MAX) (get_int v to).
Proof.
  intros Hv Hn Hi Hto. eapply safe_bind; [by eapply cast_implicit_safe|].
  intros r (_ & Hb & Hrg). destruct (box r); simpl in *; by rewrite ?Hto in Hb.
Qed.
Lemma to_numeric_safe t v to : value_ok t v -> is_null v = false -> implicit_ok t to = true -> rep to = RepDec ->
  safe wf_dec (to_numeric v to).
Proof.
  intros Hv Hn Hi Hto. eapply safe_bind; [by eapply cast_implicit_safe|].
  intros r (_ & Hb & Hrg). destruct (box r); simpl in *; by rewrite ?Hto in Hb.
Qed.

Lemma arith_implicit lt rt : num_type lt -> num_type rt ->
  num_type (arith_type lt rt) /\ implicit_ok lt (arith_type lt rt) = true /\ implicit_ok rt (arith_type lt rt) = true.
Proof.
  intros [->|[->|[->|[->| ->]]]]%num_type_cases [->|[->|[->|[->| ->]]]]%num_type_cases;
    (split; [apply (bool_decide_eq_true_1 (num_type _)); by vm_compute|by vm_compute]).
Qed.

(** * Operators *)
Lemma value_ok_int t i : num_type t -> rep t = RepInt64 -> INT64_MIN <= i <= INT64_MAX ->
  (width t = 4 -> INT32_MIN <= i <= INT32_MAX) -> value_ok t (int_val t i).
Proof. intros Ht Hr Hi Hw. right. split_and!; try done. intros ->. by apply Hw. Qed.
Lemma value_ok_dec t u s : rep t = RepDec -> wf_dec (mkDec u s) -> value_ok t (numeric_val t u s).
Proof. intros Hr Hw. right. split_and!; try done. Qed.

Lemma arith_type_ok lt rt : type_ok lt -> type_ok rt -> type_ok (arith_type lt rt).
Proof. intros. unfold arith_type. destruct (_ || _); [right; solve_seed|]. by destruct (_ <=? _). Qed.
Lemma sig_type f ts t : sig_ok f ts t -> seed_attr t.
Proof.
  intros H. assert (Forall (fun x : Z * list TypeAttr * TypeAttr => num_type x.2) func_sigs) as Hall.
  { apply (bool_decide_eq_true_1 (Forall (fun x : Z * list TypeAttr * TypeAttr => num_type x.2) func_sigs)). by vm_compute. }
  rewrite Forall_forall in Hall. apply num_seed. apply (Hall (f, ts, t)). by apply list_elem_of_In.
Qed.
Lemma has_type_ok cols e t : has_type cols e t -> type_ok t.
Proof.
  induction 1; try (by right); try (by left); try (right; solve_seed); try done.
  - by apply arith_type_ok.
  - right. by eapply sig_type.
Qed.

Lemma int_op_safe op l r : INT64_MIN <= l <= INT64_MAX ->
  safe (fun i => INT64_MIN <= i <= INT64_MAX) (int_op op l r).
Proof.
  intros Hl. unfold int_op. destruct op; try (destruct (in_i64 _) eqn:E; simpl; [by apply in_i64_spec|by auto]).
  destruct (Z.eqb_spec r 0) as [|Hr]; [simpl; auto|]. destruct (_ && _) eqn:E; [simpl; auto|]. simpl.
  pose proof (Z.quot_abs l r Hr) as Ha. unfold INT64_MIN, INT64_MAX in *.
  destruct (decide (r = 1)) as [->|]; [rewrite Z.quot_1_r; lia|].
  destruct (decide (r = -1)) as [->|].
  - change (-1) with (- (1)). rewrite Z.quot_opp_r, Z.quot_1_r by done. lia.
  - assert (Z.abs l ÷ Z.abs r <= Z.abs l / 2).
    { rewrite Z.quot_div_nonneg by lia. apply Z.div_le_compat_l; lia. }
    pose proof (Z.div_mod (Z.abs l) 2). pose proof (Z.mod_pos_bound (Z.abs l) 2). lia.
Qed.

Lemma float_op_ok op f a b : wide f -> is_finite f (float_op op f a b) = true -> float_ok f (float_op op f a b).
Proof. intros Hw. destruct op; apply fop_ok; simpl; auto. Qed.
Lemma eval_binary_safe op lt rt lv rv :
  type_ok lt -> type_ok rt -> num_or_null lt = true -> num_or_null rt = true ->
  value_ok lt lv -> value_ok rt rv ->
  safe (value_ok (arith_type lt rt)) (eval_binary_values op (arith_type lt rt) lv rv).
Proof.
  intros Hlt Hrt Hln Hrn Hlv Hrv. unfold eval_binary_values.
  destruct (is_null lv) eqn:El; [by left|]. destruct (is_null rv) eqn:Er; [by left|]. cbn [orb].
  pose proof (num_value lt lv Hlt Hln Hlv El) as Hl. pose proof (num_value rt rv Hrt Hrn Hrv Er) as Hr.
  destruct (arith_implicit lt rt Hl Hr) as (Ht & Hil & Hir). set (t := arith_type lt rt) in *.
  case_decide as Hd.
  { eapply safe_bind; [by eapply to_numeric_safe|]. intros l Hwl.
    eapply safe_bind; [by eapply to_numeric_safe|]. intros r Hwr.
    destruct (dec_result_scale op l r) as [rs| |] eqn:Ers; [|unfold dec_result_scale in Ers; cbv zeta in Ers; destruct (_ >? 255); simplify_eq; by left..].
    pose proof (dec_arith_cases op l r rs Hwl Hwr Ers) as H. cbn [mbind result_bind].
    destruct (dec_arith op l r rs); [|by left; apply H|done]. by apply value_ok_dec; [|apply H]. }
  case_decide as Hf.
  { eapply safe_bind; [by eapply to_float_safe|]. intros l _. eapply safe_bind; [by eapply to_float_safe|].
    intros r _. destruct (is_finite _ _) eqn:Efin; [|by left]. right. rewrite Hf. split_and!; try done. by apply float_op_ok. }
  case_decide as Hdb.
  { eapply safe_bind; [by eapply to_double_safe|]. intros l _. eapply safe_bind; [by eapply to_double_safe|].
    intros r _. destruct (is_finite _ _) eqn:Efin; [|by left]. right. rewrite Hdb. split_and!; try done. by apply float_op_ok. }
  assert (rep t = RepInt64) as Hri by (destruct (num_type_cases t Ht) as [E|[E|[E|[E|E]]]]; rewrite E in *; done).
  eapply safe_bind; [by eapply get_int_safe|]. intros l Hwl. eapply safe_bind; [by eapply get_int_safe|]. intros r _.
  eapply safe_bind; [by apply int_op_safe|]. intros i Hi. destruct (_ && _) eqn:E; [by left|].
  apply value_ok_int; try done. intros Hw. rewrite Hw in E. simpl in E. lia.
Qed.

Lemma get_int_self t v : value_ok t v -> is_null v = false -> rep t = RepInt64 ->
  exists i, box v = BInt i /\ get_int v t = Ok i.
Proof.
  intros Hv Hn Ht. destruct (value_ok_cases _ _ Hv Hn) as (<- & Hr & _). rewrite Ht in Hr.
  unfold get_int, cast_value. unfold is_null in Hn. rewrite Hn, Ht. simpl kCastTable. cbv iota.
  rewrite decide_False by lia. cbn [mode_rank Z.gtb Z.compare]. unfold i64_restamp.
  destruct (Z.gtb_spec (width (vtype v)) (width (vtype v))); [lia|]. cbn [mbind result_bind box].
  destruct (box v); try done. eauto.
Qed.
Lemma eval_neg_safe t v : type_ok t -> num_or_null t = true -> value_ok t v -> safe (value_ok t) (eval_neg_value t v).
Proof.
  intros Ht Hn Hv. unfold eval_neg_value. destruct (is_null v) eqn:E; [done|].
  pose proof (num_value t v Ht Hn Hv E) as Hnum.
  assert (implicit_ok t t = true) as Hi by (destruct (num_type_cases t Hnum) as [->|[->|[->|[->| ->]]]]; by vm_compute).
  case_decide as Hf. { eapply safe_bind; [by eapply to_float_safe|]. intros f Hfin. right. rewrite Hf. split_and!; try done. by apply fneg_ok, Hfin. }
  case_decide as Hdb. { eapply safe_bind; [by eapply to_double_safe|]. intros f Hfin. right. rewrite Hdb. split_and!; try done. by apply fneg_ok, Hfin. }
  case_decide as Hd.
  { destruct (value_ok_cases _ _ Hv E) as (_ & Hr & Hrg & _). unfold get_dec. rewrite Hd in Hr.
    destruct (box v); try done. cbn [mbind result_bind]. apply value_ok_dec; [done|].
    destruct Hrg. split; simpl; [rewrite Z.abs_opp|]; done. }
  assert (rep t = RepInt64) as Hri by (destruct (num_type_cases t Hnum) as [E'|[E'|[E'|[E'|E']]]]; rewrite E' in *; done).
  destruct (value_ok_cases _ _ Hv E) as (Hvt & Hr & _ & H32).
  destruct (get_int_self t v Hv E Hri) as (i & Hb & ->). cbn [mbind result_bind]. rewrite Hb in H32.
  destruct (value_ok_cases _ _ Hv E) as (_ & _ & Hrg & _). rewrite Hb in Hrg. simpl in Hrg.
  destruct (_ || _) eqn:Eo; [by left|]. unfold INT64_MIN, INT64_MAX, INT32_MIN, INT32_MAX in *.
  apply value_ok_int; try done; unfold INT64_MIN, INT64_MAX, INT32_MIN, INT32_MAX; [lia|].
  intros Hw. assert (t = kInt) as -> by (destruct (num_type_cases t Hnum) as [E'|[E'|[E'|[E'|E']]]]; rewrite E' in *; done).
  specialize (H32 eq_refl). simpl in Eo. lia.
Qed.

Lemma eval_not_safe t v : type_ok t -> bool_or_null t = true -> value_ok t v -> safe (value_ok kBool) (eval_not_value v).
Proof.
  intros Ht Hb Hv. unfold eval_not_value. destruct (is_null v) eqn:E; [by left|].
  destruct (bool_value t v Ht Hb Hv E) as (b & ->). by right.
Qed.
Lemma eval_logic_safe op lt rt lv rv :
  type_ok lt -> type_ok rt -> bool_or_null lt = true -> bool_or_null rt = true -> value_ok lt lv -> value_ok rt rv ->
  safe (value_ok kBool) (eval_logic_values op lv rv).
Proof.
  intros Hlt Hrt Hlb Hrb Hlv Hrv. unfold eval_logic_values.
  assert (forall t v, type_ok t -> bool_or_null t = true -> value_ok t v ->
    (negb (is_null v) && bool_decide (bool_of v = None)) = false) as Hok.
  { intros t v Ht Hb Hv. destruct (is_null v) eqn:E; [done|]. by destruct (bool_value t v Ht Hb Hv E) as (b & ->). }
  rewrite (Hok lt lv), (Hok rt rv) by done. cbn [orb].
  destruct op; repeat (destruct (_ || _); [first [by right|by left]|]); by right.
Qed.

Lemma family_rep t v : type_ok t -> value_ok t v -> is_null v = false ->
  match family t with
  | FamNum => num_type t
  | FamText => exists s, box v = BStr s
  | FamBool => exists b, box v = BBool b
  | FamNone => False
  end.
Proof.
  intros Ht Hv Hn. destruct (value_ok_cases _ _ Hv Hn) as (_ & Hr & _). unfold is_null, value_is_null in Hn.
  destruct Ht as [->|Ht]; [by destruct (box v)|].
  destruct (seed_attr_cases t Ht) as [->|[->|[->|[->|[->|[->|[->| ->]]]]]]]; simpl in *;
    try (destruct (box v); try done; by eauto); apply (bool_decide_eq_true_1 (num_type _)); by vm_compute.
Qed.
Lemma box_f64_safe t v : value_ok t v -> is_null v = false -> num_type t -> safe (fun d => float_ok binary64 d) (box_f64 v).
Proof.
  intros Hv Hn Ht. eapply to_double_safe; [done|done| |done].
  by destruct (num_type_cases t Ht) as [->|[->|[->|[->| ->]]]].
Qed.
Lemma value_cmp_safe lt rt lv rv :
  type_ok lt -> type_ok rt -> comparable lt rt = true -> value_ok lt lv -> value_ok rt rv ->
  safe (fun _ => True) (value_cmp lv rv).
Proof.
  intros Hlt Hrt Hc Hlv Hrv. unfold value_cmp. destruct (is_null lv) eqn:El; [done|]. destruct (is_null rv) eqn:Er; [done|].
  cbn [orb]. destruct (value_ok_cases _ _ Hlv El) as (Evl & Erl & _). destruct (value_ok_cases _ _ Hrv Er) as (Evr & Err & _).
  pose proof (family_rep lt lv Hlt Hlv El) as Hfl. pose proof (family_rep rt rv Hrt Hrv Er) as Hfr.
  assert (family lt = family rt) as Hf.
  { unfold comparable in Hc. apply orb_true_iff in Hc as [[H|H]%orb_true_iff|H]; [| |by apply bool_decide_eq_true in H].
    all: exfalso; apply Z.eqb_eq in H. 
    - destruct Hlt as [->|Ht]; [done|]. destruct (seed_attr_cases _ Ht) as [->|[->|[->|[->|[->|[->|[->| ->]]]]]]]; done.
    - destruct Hrt as [->|Ht]; [done|]. destruct (seed_attr_cases _ Ht) as [->|[->|[->|[->|[->|[->|[->| ->]]]]]]]; done. }
  rewrite Evl, Evr, <- Hf. rewrite <- Hf in Hfr. destruct (family lt); [done| | |].
  - assert (safe (fun _ => True) (l ← box_f64 lv; r ← box_f64 rv;
      Ok (if flt binary64 l r then -1 else if fgt binary64 l r then 1 else 0))) as Hd.
    { eapply safe_bind; [by eapply box_f64_safe|]. intros l _. eapply safe_bind; [by eapply box_f64_safe|]. done. }
    destruct (box lv); try done; by destruct (box rv).
  - destruct Hfl as [s ->], Hfr as [s' ->]. done.
  - destruct Hfl as [s ->], Hfr as [s' ->]. done.
Qed.
Lemma eval_compare_safe op lt rt lv rv :
  type_ok lt -> type_ok rt -> comparable lt rt = true -> value_ok lt lv -> value_ok rt rv ->
  safe (value_ok kBool) (eval_compare_values op lv rv).
Proof.
  intros. unfold eval_compare_values. destruct (_ || _); [by left|].
  eapply safe_bind; [by eapply (value_cmp_safe lt rt)|]. by right.
Qed.

(** * Casts *)
Lemma rescale_safe d s : wf_dec d -> 0 <= s <= 255 -> safe (fun u => Z.abs u < kNumericUnscaledMax) (rescale d s).
Proof.
  intros [Hu Hs] Hr. rewrite rescale_eq by done. case_decide; [done|]. unfold rescale_ref.
  destruct (Z.gtb_spec (scale d) s).
  - simpl. set (p := 10 ^ (scale d - s)). assert (10 <= p).
    { unfold p. pose proof (Z.pow_le_mono_r 10 1 (scale d - s)). simpl in *. lia. }
    pose proof (half_away_bound (unscaled d) p ltac:(lia)).
    assert (round_half_away 0 p = 0) by (rewrite half_away_nonneg, Z.mod_0_l, Z.div_0_l by lia; destruct (Z.geb_spec (0 * 2) p); lia).
    unfold kNumericUnscaledMax in *. set (q := round_half_away (unscaled d) p) in *.
    assert (2 * p * Z.abs q <= 2 * Z.abs (unscaled d) + p) by lia.
    assert (20 * Z.abs q <= 2 * p * Z.abs q) by nia.
    destruct (Z_lt_ge_dec (Z.abs q) (10 ^ 38)); [done|]. exfalso.
    assert (p * (2 * Z.abs q - 1) <= 2 * Z.abs (unscaled d)) by lia. nia.
  - destruct (Z.leb_spec kNumericUnscaledMax (Z.abs (unscaled d * 10 ^ (s - scale d)))); [by right|done].
Qed.
Lemma cast_explicit_safe t v to : type_ok t -> value_ok t v -> is_null v = false -> seed_attr to ->
  safe (fun r => vtype r = to /\ box_rep (box r) = rep to /\ box_range (box r)) (cast_value v to Explicit).
Proof.
  intros Ht Hv Hn Hto. destruct (value_ok_cases _ _ Hv Hn) as (<- & Hr & Hrg & _). unfold cast_value.
  unfold is_null in Hn. rewrite Hn.
  destruct (kCastTable (rep (vtype v)) (rep to)) as [[fn tier]|] eqn:E.
  - destruct (mode_rank _ >? mode_rank Explicit) eqn:Et.
    + by destruct (decide _), tier.
    + apply fn_typed_safe. by eapply cast_fn_typed.
  - exfalso. unfold value_is_null in Hn. rewrite Hr in E.
    destruct (seed_attr_cases to Hto) as [->|[->|[->|[->|[->|[->|[->| ->]]]]]]]; by destruct (box v).
Qed.
Lemma eval_cast_safe t0 t v len s : type_ok t0 -> seed_attr t -> 0 <= s <= 255 -> value_ok t0 v ->
  safe (value_ok t) (eval_cast_value v t len s).
Proof.
  intros Ht0 Ht Hs Hv. unfold eval_cast_value. destruct (is_null v) eqn:E; [by left|].
  pose proof (cast_explicit_safe t0 v t Ht0 Hv E Ht) as Hc.
  destruct (bool_decide (rep t = RepDec) && (len >? 0)) eqn:Ed.
  - apply andb_true_iff in Ed as [Hd%bool_decide_eq_true _]. unfold coerce_numeric.
    eapply safe_bind; [exact Hc|]. intros r (Hvt & Hb & Hrg). unfold get_dec. destruct (box r); try by rewrite Hd in Hb.
    cbn [mbind result_bind]. eapply safe_bind; [by apply rescale_safe|]. intros u Hu.
    destruct (_ && _); [by right|]. apply value_ok_dec; [done|]. by split.
  - eapply safe_bind; [exact Hc|]. intros r (Hvt & Hb & Hrg).
    eapply (safe_bind (fun r' => r' = r /\ value_ok t r')).
    { destruct (bool_decide (rep t = RepInt64)) eqn:Ei; cbn [andb].
      - apply bool_decide_eq_true in Ei. destruct (Z.eqb_spec (width t) 4) as [Ew|Ew].
        + destruct (box r) eqn:Ebox; try by rewrite Ei in Hb. destruct (_ || _) eqn:Eo; [by right|]. simpl.
          split; [done|]. right. rewrite Ebox. split_and!; try done. lia.
        + split; [done|]. right. split_and!; try done. intros ->. done.
      - apply bool_decide_eq_false in Ei. split; [done|]. right. split_and!; try done. intros ->. done. }
    intros r' [-> Hok]. destruct (bool_decide (family t = FamText)) eqn:Ef; cbn [andb]; [|done].
    destruct (len >? 0); [|done]. apply bool_decide_eq_true in Ef.
    assert (rep t = RepStr) as Hrs by (destruct (seed_attr_cases t Ht) as [E'|[E'|[E'|[E'|[E'|[E'|[E'|E']]]]]]]; rewrite E' in *; done).
    destruct (box r); try by rewrite Hrs in Hb. destruct (_ >? len); [by right|done].
Qed.

(** * Built-in functions *)
Lemma round_dec_safe d n : wf_dec d -> safe wf_dec (round_dec d n).
Proof.
  intros Hd. rewrite round_dec_cases by done. destruct (Z.leb_spec (scale d) n); [done|]. cbv zeta.
  destruct (Z.leb_spec kNumericUnscaledMax (Z.abs (if scale d - n <? 39
    then round_half_away (unscaled d) (10 ^ (scale d - n)) * 10 ^ Z.max 0 (- n) else 0))); [by left|].
  destruct Hd. split; simpl; lia.
Qed.
Lemma trunc_dec_safe d up : wf_dec d -> safe wf_dec (trunc_dec d up).
Proof.
  intros Hd. rewrite trunc_dec_eq by done. destruct Hd as [Hu Hs]. simpl. split; simpl; [|lia].
  assert (forall a p, 0 < p -> Z.abs a < kNumericUnscaledMax -> Z.abs (a / p) < kNumericUnscaledMax) as H.
  { intros a p Hp Ha. pose proof (Z.div_mod a p ltac:(lia)). pose proof (Z.mod_pos_bound a p Hp).
    destruct (Z_lt_ge_dec a 0); [|assert (0 <= a / p) by (apply Z.div_pos; lia); nia].
    assert (a <= a / p) by (apply Z.div_le_lower_bound; nia). assert (a / p < 0) by (apply Z.div_lt_upper_bound; lia). lia. }
  destruct up; rewrite ?Z.abs_opp; apply H; rewrite ?Z.abs_opp; (done || lia).
Qed.
Lemma dec_align_safe u from to : Z.abs u < kNumericUnscaledMax -> from <= to ->
  safe (fun z => Z.abs z < kNumericUnscaledMax) (dec_align u from to).
Proof. intros. rewrite dec_align_eq by done. destruct (Z.leb_spec kNumericUnscaledMax (Z.abs (u * 10 ^ (to - from)))); [by left|done]. Qed.

Definition arg_ok (t : TypeAttr) (v : Value) : Prop := value_ok t v /\ is_null v = false.
Lemma arg_int t v : arg_ok t v -> rep t = RepInt64 ->
  exists i, get_i64 v = Ok i /\ INT64_MIN <= i <= INT64_MAX /\ (t = kInt -> INT32_MIN <= i <= INT32_MAX).
Proof.
  intros [Hv Hn] Ht. destruct (value_ok_cases _ _ Hv Hn) as (_ & Hr & Hrg & H32). rewrite Ht in Hr. unfold get_i64.
  destruct (box v); try done. eauto.
Qed.
Lemma arg_dec v : arg_ok kNumeric v -> exists d, get_dec v = Ok d /\ wf_dec d.
Proof.
  intros [Hv Hn]. destruct (value_ok_cases _ _ Hv Hn) as (_ & Hr & Hrg & _). unfold get_dec.
  destruct (box v); try done. eauto.
Qed.
Lemma arg_f64 v : arg_ok kDouble v -> exists d, get_f64 v = Ok d /\ float_ok binary64 d.
Proof.
  intros [Hv Hn]. destruct (value_ok_cases _ _ Hv Hn) as (_ & Hr & Hf & _). unfold get_f64. destruct (box v); try done. eauto.
Qed.
Lemma arg_f32 v : arg_ok kFloat v -> exists f, get_f32 v = Ok f /\ float_ok binary32 f.
Proof.
  intros [Hv Hn]. destruct (value_ok_cases _ _ Hv Hn) as (_ & Hr & Hf & _). unfold get_f32. destruct (box v); try done. eauto.
Qed.

Lemma rem_range l r : r <> 0 -> Z.abs (Z.rem l r) <= Z.abs l.
Proof.
  intros Hr. rewrite <- Z.rem_abs by done. rewrite Z.rem_mod_nonneg by lia. apply Z.mod_le; lia.
Qed.
Lemma value_int_ok t i : t = kInt \/ t = kBigint -> INT64_MIN <= i <= INT64_MAX ->
  (t = kInt -> INT32_MIN <= i <= INT32_MAX) -> value_ok t (int_val t i).
Proof. intros Ht Hi H32. right. split_and!; try done. by destruct Ht as [->| ->]. Qed.
Lemma value_dec_ok d : wf_dec d -> value_ok kNumeric (numeric_val kNumeric (unscaled d) (scale d)).
Proof. intros Hd. right. by split_and!. Qed.

Lemma fn_id_int t v : t = kInt \/ t = kBigint -> arg_ok t v -> safe (value_ok t) (eval_id_int [v] t).
Proof.
  intros Ht Hv. destruct (arg_int t v Hv) as (i & Hi & Hr & H32); [by destruct Ht as [->| ->]|].
  unfold eval_id_int, arg. simpl. rewrite Hi. simpl. by apply value_int_ok.
Qed.
Lemma fn_mod_int t v w : t = kInt \/ t = kBigint -> arg_ok t v -> arg_ok t w -> safe (value_ok t) (eval_mod_int [v; w] t).
Proof.
  intros Ht Hv Hw. assert (rep t = RepInt64) as Hr by (by destruct Ht as [->| ->]).
  destruct (arg_int t v Hv Hr) as (l & Hl & Hlr & Hl32), (arg_int t w Hw Hr) as (r & Hw' & _).
  unfold eval_mod_int, arg. simpl. rewrite Hl. simpl. rewrite Hw'. simpl.
  destruct (Z.eqb_spec r 0); [by left|]. unfold INT64_MIN, INT64_MAX, INT32_MIN, INT32_MAX in *. destruct (_ && _).
  - by apply value_int_ok.
  - pose proof (rem_range l r ltac:(done)). pose proof (Z.rem_sign_mul l r ltac:(done)).
    apply value_int_ok; unfold INT64_MIN, INT64_MAX, INT32_MIN, INT32_MAX; [done| |intros E; specialize (Hl32 E)]; nia.
Qed.
Lemma fn_dec_result r : safe wf_dec r -> safe (value_ok kNumeric) (dec_result kNumeric r).
Proof. intros H. unfold dec_result. eapply safe_bind; [done|]. intros d Hd. by apply value_dec_ok. Qed.
Lemma fn_mod_numeric v w : arg_ok kNumeric v -> arg_ok kNumeric w -> safe (value_ok kNumeric) (eval_mod_numeric [v; w] kNumeric).
Proof.
  intros Hv Hw. destruct (arg_dec v Hv) as (l & El & [Hlu Hls]), (arg_dec w Hw) as (r & Er & [Hru Hrs]).
  unfold eval_mod_numeric, arg. simpl. rewrite El. simpl. rewrite Er. simpl. destruct (Z.eqb_spec (unscaled r) 0); [by left|].
  set (s := if scale l >? scale r then scale l else scale r).
  assert (scale l <= s /\ scale r <= s /\ s <= 255) as (H1 & H2 & H3) by (unfold s; destruct (Z.gtb_spec (scale l) (scale r)); lia).
  eapply safe_bind; [by apply dec_align_safe|]. intros lu Hl.
  assert (safe (fun ru => ru <> 0) (dec_align (unscaled r) (scale r) s)) as Hru'.
  { rewrite dec_align_eq by done. destruct (_ <=? _); [by left|]. simpl. assert (0 < 10 ^ (s - scale r)) by lia. nia. }
  eapply safe_bind; [exact Hru'|]. intros ru Hr0. apply (value_dec_ok (mkDec (Z.rem lu ru) s)).
  cbv beta in Hl, Hr0. pose proof (rem_range lu ru Hr0). split; cbn [unscaled scale]; lia.
Qed.

Ltac fn_start := intros; unfold arg; simpl;
  repeat match goal with
  | H : arg_ok kDouble ?v |- _ => let E := fresh "E" in destruct (arg_f64 v H) as (? & E & ?); clear H; rewrite ?E; simpl
  | H : arg_ok kFloat ?v |- _ => let E := fresh "E" in destruct (arg_f32 v H) as (? & E & ?); clear H; rewrite ?E; simpl
  | H : arg_ok kNumeric ?v |- _ => let E := fresh "E" in destruct (arg_dec v H) as (? & E & ?); clear H; rewrite ?E; simpl
  | H : arg_ok kInt ?v |- _ =>
      let E := fresh "E" in let R := fresh "R" in
      destruct (arg_int kInt v H eq_refl) as (? & E & ? & R); specialize (R eq_refl); clear H; rewrite ?E; simpl
  | H : arg_ok kBigint ?v |- _ =>
      let E := fresh "E" in destruct (arg_int kBigint v H eq_refl) as (? & E & ? & _); clear H; rewrite ?E; simpl
  end.
Lemma fn_abs_int v : arg_ok kInt v -> safe (value_ok kInt) (eval_abs_int [v] kInt).
Proof.
  unfold eval_abs_int. fn_start. destruct (Z.eqb_spec x INT32_MIN); [by left|].
  unfold INT64_MIN, INT64_MAX, INT32_MIN, INT32_MAX in *.
  apply value_int_ok; unfold INT64_MIN, INT64_MAX, INT32_MIN, INT32_MAX; [by left|destruct (Z.ltb_spec x 0); lia|intros _; destruct (Z.ltb_spec x 0); lia].
Qed.
Lemma fn_abs_bigint v : arg_ok kBigint v -> safe (value_ok kBigint) (eval_abs_bigint [v] kBigint).
Proof.
  unfold eval_abs_bigint. fn_start. destruct (Z.eqb_spec x INT64_MIN); [by left|].
  unfold INT64_MIN, INT64_MAX in *.
  apply value_int_ok; unfold INT64_MIN, INT64_MAX; [by right|destruct (Z.ltb_spec x 0); lia|done].
Qed.
Lemma fn_abs_numeric v : arg_ok kNumeric v -> safe (value_ok kNumeric) (eval_abs_numeric [v] kNumeric).
Proof.
  unfold eval_abs_numeric. fn_start. apply (value_dec_ok (mkDec _ _)). destruct H0 as [Hu Hs].
  split; cbn [unscaled scale]; [|done]. destruct (unscaled x <? 0); lia.
Qed.
Lemma fn_abs_double v : arg_ok kDouble v -> safe (value_ok kDouble) (eval_abs_double [v] kDouble).
Proof. unfold eval_abs_double. fn_start. right. split_and!; try done. match goal with H : float_ok _ _ |- _ => by apply fabs_ok, H end. Qed.
Lemma fn_abs_float v : arg_ok kFloat v -> safe (value_ok kFloat) (eval_abs_float [v] kFloat).
Proof. unfold eval_abs_float. fn_start. right. split_and!; try done. match goal with H : float_ok _ _ |- _ => by apply fabs_ok, H end. Qed.
Lemma fn_float1_double f g v : (forall x, float_ok binary64 x -> float_ok binary64 (f x)) ->
  arg_ok kDouble v -> safe (value_ok kDouble) (eval_float1 f g false [v] kDouble).
Proof. unfold eval_float1. fn_start. right. split_and!; try done. simpl. auto. Qed.
Lemma fn_float1_float f g v : (forall x, float_ok binary32 x -> float_ok binary32 (g x)) ->
  arg_ok kFloat v -> safe (value_ok kFloat) (eval_float1 f g true [v] kFloat).
Proof. unfold eval_float1. fn_start. right. split_and!; try done. simpl. auto. Qed.
Lemma fn_round_numeric v : arg_ok kNumeric v -> safe (value_ok kNumeric) (eval_round_numeric [v] kNumeric).
Proof. unfold eval_round_numeric. fn_start. by apply fn_dec_result, round_dec_safe. Qed.
Lemma fn_round_numeric_int v w : arg_ok kNumeric v -> arg_ok kInt w -> safe (value_ok kNumeric) (eval_round_numeric_int [v; w] kNumeric).
Proof. unfold eval_round_numeric_int. fn_start. by apply fn_dec_result, round_dec_safe. Qed.
Lemma fn_floor_numeric v : arg_ok kNumeric v -> safe (value_ok kNumeric) (eval_floor_numeric [v] kNumeric).
Proof. unfold eval_floor_numeric. fn_start. by apply fn_dec_result, trunc_dec_safe. Qed.
Lemma fn_ceil_numeric v : arg_ok kNumeric v -> safe (value_ok kNumeric) (eval_ceil_numeric [v] kNumeric).
Proof. unfold eval_ceil_numeric. fn_start. by apply fn_dec_result, trunc_dec_safe. Qed.
Lemma fn_mod_double v w : arg_ok kDouble v -> arg_ok kDouble w -> safe (value_ok kDouble) (eval_mod_double [v; w] kDouble).
Proof. unfold eval_mod_double. fn_start. destruct (is_finite _ (ffmod _ _ _)) eqn:Efin; cbn [negb]; [right; split_and!; try done; by apply ffmod_ok|by left]. Qed.
Lemma fn_mod_float v w : arg_ok kFloat v -> arg_ok kFloat w -> safe (value_ok kFloat) (eval_mod_float [v; w] kFloat).
Proof. unfold eval_mod_float. fn_start. destruct (is_finite _ (ffmod _ _ _)) eqn:Efin; cbn [negb]; [right; split_and!; try done; by apply ffmod_ok|by left]. Qed.
#[local] Hint Resolve fn_abs_int fn_abs_bigint fn_abs_numeric fn_abs_double fn_abs_float
  fn_round_numeric fn_round_numeric_int fn_floor_numeric fn_ceil_numeric fn_mod_double fn_mod_float fn_id_int fn_mod_int
  fn_mod_numeric : builtin.

Lemma eval_builtin_safe f ts t args : sig_ok f ts t -> Forall2 arg_ok ts args ->
  safe (value_ok t) (eval_builtin f args t).
Proof.
  intros Hs Ha. unfold sig_ok, func_sigs in Hs.
  repeat (apply elem_of_cons in Hs as [Hs|Hs]); [..|by apply elem_of_nil in Hs].
  all: apply pair_equal_spec in Hs as [[-> ->]%pair_equal_spec ->].
  all: repeat match goal with
       | H : Forall2 arg_ok (_ :: _) _ |- _ => inversion H; clear H; subst
       | H : Forall2 arg_ok [] _ |- _ => inversion H; clear H; subst end.
  all: unfold eval_builtin; simpl;
    first [ by eauto with builtin
          | apply fn_float1_double; [intros; first [by apply fround_ok|by apply ffloor_ok|by apply fceil_ok]|done]
          | apply fn_float1_float; [intros; first [by apply fround_ok|by apply ffloor_ok|by apply fceil_ok]|done] ].
Qed.

(** * Soundness *)
Lemma eval_func_safe f ts t argv : sig_ok f ts t -> Forall2 value_ok ts argv ->
  safe (value_ok t) (eval_func_values f true argv t).
Proof.
  intros Hs Ha. unfold eval_func_values. destruct (List.find is_null argv) as [v|] eqn:E.
  - apply find_some in E as [_ E]. by left.
  - eapply eval_builtin_safe; [done|]. pose proof (find_none _ _ E) as Hnone.
    clear E Hs. induction Ha as [|x v xs vs Hv _ IH]; constructor.
    + split; [done|]. apply Hnone. by left.
    + apply IH. intros y Hy. apply Hnone. by right.
Qed.

Lemma eval_typed cols row e t : context_ok cols row -> has_type cols e t -> safe (value_ok t) (eval_bound e row).
Proof.
  intros Hrow. revert t. induction e as [v|i ct|op l r t IHl IHr|e t IHe|op l r IHl IHr|op l r IHl IHr|e IHe|e n IHe|f nm st args t IHargs|e t len s IHe]
    using BoundExpr_ind'; intros ty Ht; inversion Ht; subst; cbn [eval_bound].
  - destruct (box v) eqn:E; try done. destruct (negb _); [by left|done].
  - unfold is_null, value_is_null in *. destruct (box v) eqn:E; try done. left. unfold is_null, value_is_null. by rewrite E.
  - destruct row as [vs|]; [|simpl in Hrow; by subst]. simpl in Hrow.
    destruct (Forall2_lookup_l _ _ _ _ _ Hrow H1) as (v & -> & Hv). done.
  - eapply safe_bind; [by apply IHl|]. intros lv Hl. eapply safe_bind; [by apply IHr|]. intros rv Hr.
    apply eval_binary_safe; eauto using value_ok_le.
  - eapply safe_bind; [by apply IHe|]. intros v Hv. apply eval_neg_safe; eauto using value_ok_le.
  - eapply safe_bind; [by apply IHl|]. intros lv Hl. eapply safe_bind; [by apply IHr|]. intros rv Hr.
    eapply (eval_compare_safe op lt rt); eauto using has_type_ok.
  - eapply safe_bind; [by apply IHl|]. intros lv Hl. eapply safe_bind; [by apply IHr|]. intros rv Hr.
    eapply (eval_logic_safe op lt rt); eauto using has_type_ok.
  - eapply safe_bind; [by apply IHe|]. intros v Hv. eapply eval_not_safe; eauto using has_type_ok.
  - eapply safe_bind; [by apply IHe|]. intros v Hv. by right.
  - rewrite eval_args_eq. eapply (safe_bind (Forall2 value_ok ts)).
    + match goal with H : Forall2 (has_type cols) args _, H' : Forall2 le_type _ ts |- _ =>
        rename H into Hts, H' into Hle end. unfold eval_args.
      clear -IHargs Hts Hle. revert ts' ts Hts Hle. induction IHargs as [|a args Ha _ IH]; intros ts' ts Hts Hle;
        inversion Hts; subst; inversion Hle; subst; [by constructor|].
      simpl. eapply safe_bind; [by apply Ha|]. intros v Hv. eapply safe_bind; [by eapply IH|]. intros vs Hvs.
      constructor; [by eapply value_ok_le|done].
    + intros argv Hargv. by eapply eval_func_safe.
  - eapply safe_bind; [by apply IHe|]. intros v Hv. eapply eval_cast_safe; eauto using has_type_ok.
Qed.
