(* ===== verification/Fold.v ===== *)
(** Constant folding (src/planner/const_fold.cpp) and boolean simplification
    (src/planner/bool_simplify.cpp): folding keeps an expression's type and the value it has on every
    row, and a WHERE predicate's truth. *)
From S2P Require Import Prelude Types Ieee Finite Text Cast Decimal Expr Typing.

(** * Definitions *)
(** A BOOLEAN constant's value; None for NULL and for other nodes. *)
Definition const_bool (e : BoundExpr) : option bool :=
  match e with BoundConst v => bool_of v | _ => None end.
Definition negate_cmp (op : CmpOp) : CmpOp :=
  match op with
  | CmpEq => CmpNe | CmpNe => CmpEq | CmpLt => CmpGe | CmpLe => CmpGt | CmpGt => CmpLe | CmpGe => CmpLt
  end.
(** The boxes' [operator==]: the same alternative, floats compared as numbers. *)
Definition box_equal (a b : Box) : bool :=
  match a, b with
  | BNull, BNull => true
  | BInt x, BInt y => x =? y
  | BFloat x, BFloat y => feq binary32 x y
  | BDouble x, BDouble y => feq binary64 x y
  | BStr x, BStr y => bool_decide (x = y)
  | BBool x, BBool y => Bool.eqb x y
  | BDec x, BDec y => (unscaled x =? unscaled y) && (scale x =? scale y)
  | _, _ => false
  end.
Definition value_equal (a b : Value) : bool := bool_decide (vtype a = vtype b) && box_equal (box a) (box b).

Fixpoint expr_equal (a b : BoundExpr) : bool :=
  match a, b with
  | BoundConst x, BoundConst y => value_equal x y
  | BoundColRef i t, BoundColRef j u => Nat.eqb i j && bool_decide (t = u)
  | BoundArith o l r t, BoundArith p l' r' u =>
      bool_decide (o = p) && bool_decide (t = u) && expr_equal l l' && expr_equal r r'
  | BoundNeg e t, BoundNeg f u => bool_decide (t = u) && expr_equal e f
  | BoundCmp o l r, BoundCmp p l' r' => bool_decide (o = p) && expr_equal l l' && expr_equal r r'
  | BoundLogic o l r, BoundLogic p l' r' => bool_decide (o = p) && expr_equal l l' && expr_equal r r'
  | BoundNot e, BoundNot f => expr_equal e f
  | BoundIsNull e n, BoundIsNull f m => Bool.eqb n m && expr_equal e f
  | BoundFuncCall f _ _ args t, BoundFuncCall g _ _ brgs u =>
      (f =? g) && bool_decide (t = u) &&
      (fix go l l' := match l, l' with
                      | [], [] => true
                      | x :: l, y :: l' => expr_equal x y && go l l'
                      | _, _ => false
                      end) args brgs
  | BoundCast e t n _, BoundCast f u m _ => bool_decide (t = u) && (n =? m) && expr_equal e f
  | _, _ => false
  end.

Definition false_const : BoundExpr := BoundConst (bool_val kBool false).
Definition true_const : BoundExpr := BoundConst (bool_val kBool true).
Definition simplify_logic (op : LogicOp) (l r : BoundExpr) : BoundExpr :=
  let lb := const_bool l in
  let rb := const_bool r in
  match op with
  | LAnd => if bool_decide (lb = Some false) || bool_decide (rb = Some false) then false_const
            else if bool_decide (is_Some lb) then r else if bool_decide (is_Some rb) then l
            else BoundLogic LAnd l r
  | LOr => if bool_decide (lb = Some true) || bool_decide (rb = Some true) then true_const
           else if bool_decide (is_Some lb) then r else if bool_decide (is_Some rb) then l
           else BoundLogic LOr l r
  end.
(** [e] is the operand of the NOT. *)
Definition simplify_not (e : BoundExpr) : BoundExpr :=
  match e with
  | BoundNot x => x
  | BoundCmp op l r => BoundCmp (negate_cmp op) l r
  | BoundIsNull x n => BoundIsNull x (negb n)
  | _ => BoundNot e
  end.

Definition is_const (e : BoundExpr) : bool := match e with BoundConst _ => true | _ => false end.
Definition is_null_const (e : BoundExpr) : bool := match e with BoundConst v => is_null v | _ => false end.
Definition to_fold_const (v : Value) : BoundExpr := BoundConst v.

Section fold.
(** The structural equality test the self-comparison rule uses. *)
Context (equal : BoundExpr -> BoundExpr -> bool).

Definition simplify_cmp_with (op : CmpOp) (l r : BoundExpr) : BoundExpr :=
  match op with
  | CmpEq | CmpLe | CmpGe => if equal l r then BoundIsNull l true else BoundCmp op l r
  | CmpNe | CmpLt | CmpGt => if equal l r then false_const else BoundCmp op l r
  end.

Definition fold_const_node (e : BoundExpr) : result BoundExpr := v ← eval_const e; Ok (to_fold_const v).
Fixpoint fold_with (e : BoundExpr) (weak : bool) : result BoundExpr :=
  match e with
  | BoundConst _ | BoundColRef _ _ => Ok e
  | BoundArith op l r t =>
      l ← fold_with l false; r ← fold_with r false;
      if is_const l && is_const r then fold_const_node (BoundArith op l r t)
      else if is_null_const l || is_null_const r then Ok (to_fold_const null_val)
      else Ok (BoundArith op l r t)
  | BoundNeg e t =>
      e ← fold_with e false;
      if is_const e then fold_const_node (BoundNeg e t) else Ok (BoundNeg e t)
  | BoundCmp op l r =>
      l ← fold_with l false; r ← fold_with r false;
      if is_const l && is_const r then fold_const_node (BoundCmp op l r)
      else if is_null_const l || is_null_const r then Ok (to_fold_const null_val)
      else if weak then Ok (simplify_cmp_with op l r) else Ok (BoundCmp op l r)
  | BoundLogic op l r =>
      l ← fold_with l weak; r ← fold_with r weak;
      if is_const l && is_const r then fold_const_node (BoundLogic op l r)
      else Ok (simplify_logic op l r)
  | BoundNot e =>
      e ← fold_with e false;
      if is_const e then fold_const_node (BoundNot e)
      else match simplify_not e with
           | BoundCmp op l r => if weak then Ok (simplify_cmp_with op l r) else Ok (BoundCmp op l r)
           | e => Ok e
           end
  | BoundIsNull e n =>
      e ← fold_with e false;
      if is_const e then fold_const_node (BoundIsNull e n) else Ok (BoundIsNull e n)
  | BoundFuncCall f name strict args t =>
      args ← (fix go l := match l with
                          | [] => Ok []
                          | a :: l => a ← fold_with a false; l ← go l; Ok (a :: l)
                          end) args;
      if forallb is_const args then fold_const_node (BoundFuncCall f name strict args t)
      else Ok (BoundFuncCall f name strict args t)
  | BoundCast e t len s =>
      e ← fold_with e false;
      if is_const e then fold_const_node (BoundCast e t len s) else Ok (BoundCast e t len s)
  end.
Definition fold_args_with (args : list BoundExpr) : result (list BoundExpr) := mapM (fun a => fold_with a false) args.
Lemma fold_args_eq args :
  (fix go l := match l with
               | [] => Ok []
               | a :: l => a ← fold_with a false; l ← go l; Ok (a :: l)
               end) args = fold_args_with args.
Proof using. induction args as [|a l IH]; [done|]. by rewrite IH. Qed.
End fold.

Definition simplify_cmp := simplify_cmp_with expr_equal.
Definition fold_expr := fold_with expr_equal.

(** * NULLs of different types are the same value *)
Definition eqv (v w : Value) : Prop := v = w \/ (is_null v = true /\ is_null w = true).
Definition truth (v : Value) : bool := bool_decide (bool_of v = Some true).
(** What a context can see of a value: in a weak one, whether it is true. *)
Definition sees (weak : bool) (v w : Value) : Prop := if weak then truth v = truth w else eqv v w.
(** [w] is what folding may turn the outcome [r] into: a value stays, up to [sees]; where the
    expression fails the folded one may do anything its own type allows. *)
Definition refines (weak : bool) (r r' : result Value) : Prop :=
  forall v, r = Ok v -> exists w, r' = Ok w /\ sees weak v w.

Lemma eqv_refl v : eqv v v.
Proof. by left. Qed.
Lemma eqv_truth v w : eqv v w -> truth v = truth w.
Proof.
  intros [->|[Hv Hw]]; [done|]. unfold truth, bool_of, is_null, value_is_null in *.
  by destruct (box v), (box w).
Qed.
Lemma eqv_sees weak v w : eqv v w -> sees weak v w.
Proof. destruct weak; [apply eqv_truth|done]. Qed.
Lemma eqv_trans u v w : eqv u v -> eqv v w -> eqv u w.
Proof. intros [->|[? ?]] [->|[? ?]]; (by left) || (by right). Qed.
Lemma sees_trans weak u v w : sees weak u v -> sees weak v w -> sees weak u w.
Proof. destruct weak; simpl; [congruence|apply eqv_trans]. Qed.

Lemma refines_refl weak r : refines weak r r.
Proof. intros v ->. exists v. split; [done|]. apply eqv_sees, eqv_refl. Qed.
Lemma refines_weaken weak r r' : refines false r r' -> refines weak r r'.
Proof. intros H v Hv. destruct (H v Hv) as (w & Hw & He). exists w. split; [done|]. by apply eqv_sees. Qed.
Lemma refines_trans weak r1 r2 r3 : refines weak r1 r2 -> refines weak r2 r3 -> refines weak r1 r3.
Proof.
  intros H1 H2 v Hv. destruct (H1 v Hv) as (w & Hw & E1). destruct (H2 w Hw) as (x & Hx & E2).
  exists x. split; [done|]. by eapply sees_trans.
Qed.
Lemma refines_ok weak v w : sees weak v w -> refines weak (Ok v) (Ok w).
Proof. intros H x [= <-]. by exists w. Qed.
Lemma refines_bind {wk} weak r r' (f g : Value -> result Value) :
  refines wk r r' -> (forall v w, r = Ok v -> r' = Ok w -> sees wk v w -> refines weak (f v) (g w)) ->
  refines weak (r ≫= f) (r' ≫= g).
Proof.
  intros H Hf v (x & Hx & Hv)%bind_ok. destruct (H x Hx) as (y & Hy & E). rewrite Hy. cbn [mbind result_bind].
  by eapply Hf.
Qed.

(** Operators do not tell NULLs apart. *)
Lemma is_null_bool v : is_null v = true -> bool_of v = None.
Proof. unfold is_null, value_is_null, bool_of. by destruct (box v). Qed.
Ltac null_case :=
  repeat match goal with
  | H : eqv _ _ |- _ => destruct H as [->|[? ?]]
  end; try apply refines_refl;
  repeat match goal with
  | H : is_null ?v = true |- _ => rewrite ?H, ?(is_null_bool v H); clear H
  end; rewrite ?orb_true_r; cbn [orb].
Lemma binary_eqv op t v v' w w' : eqv v v' -> eqv w w' ->
  refines false (eval_binary_values op t v w) (eval_binary_values op t v' w').
Proof. intros. unfold eval_binary_values. null_case; apply refines_refl. Qed.
Lemma compare_eqv op v v' w w' : eqv v v' -> eqv w w' ->
  refines false (eval_compare_values op v w) (eval_compare_values op v' w').
Proof. intros. unfold eval_compare_values. null_case; apply refines_refl. Qed.
Lemma logic_eqv op v v' w w' : eqv v v' -> eqv w w' ->
  refines false (eval_logic_values op v w) (eval_logic_values op v' w').
Proof. intros. unfold eval_logic_values. null_case; apply refines_refl. Qed.
Lemma neg_eqv t v v' : eqv v v' -> refines false (eval_neg_value t v) (eval_neg_value t v').
Proof. intros [->|[H H']]; [apply refines_refl|]. unfold eval_neg_value. rewrite H, H'. apply refines_ok. by right. Qed.
Lemma not_eqv v v' : eqv v v' -> refines false (eval_not_value v) (eval_not_value v').
Proof. intros [->|[H H']]; [apply refines_refl|]. unfold eval_not_value. rewrite H, H'. apply refines_ok. by right. Qed.
Lemma cast_eqv t len s v v' : eqv v v' -> refines false (eval_cast_value v t len s) (eval_cast_value v' t len s).
Proof. intros [->|[H H']]; [apply refines_refl|]. unfold eval_cast_value. rewrite H, H'. apply refines_ok. by right. Qed.
Lemma func_eqv f t vs vs' : Forall2 eqv vs vs' ->
  refines false (eval_func_values f true vs t) (eval_func_values f true vs' t).
Proof.
  intros H. unfold eval_func_values.
  assert ((vs = vs' \/ exists v w, List.find is_null vs = Some v /\ List.find is_null vs' = Some w /\ is_null v = true /\ is_null w = true)) as [->|(v & w & -> & -> & Hv & Hw)].
  { induction H as [|v w vs vs' Hvw _ IH]; [by left|]. simpl. destruct Hvw as [->|[Hv Hw]].
    - destruct IH as [->|(x & y & Hx & Hy & Hnx & Hny)]; [by left|]. right. destruct (is_null w) eqn:E; [by exists w, w|].
      by exists x, y.
    - right. rewrite Hv, Hw. by exists v, w. }
  - apply refines_refl.
  - apply refines_ok. by right.
Qed.

(** * Folding keeps types *)
Section typed.
Context (equal : BoundExpr -> BoundExpr -> bool) (ts : list TypeAttr).

Lemma const_typed_at v t : type_ok t -> value_ok t v -> exists t', has_type ts (BoundConst v) t' /\ le_type t' t.
Proof using.
  intros Ht Hv. destruct (is_null v) eqn:E.
  - exists no_type. split; [by constructor|by right].
  - pose proof (value_ok_cases _ _ Hv E) as (Hvt & Hr & _). exists t. split; [|by left]. rewrite <- Hvt.
    constructor; [done| |by rewrite Hvt]. rewrite Hvt. destruct Ht as [->|]; [|done].
    unfold is_null, value_is_null in E. by destruct (box v).
Qed.
Lemma const_closed v t : has_type ts (BoundConst v) t -> has_type [] (BoundConst v) t.
Proof using. intros H. inversion H; subst; by constructor. Qed.
Lemma is_const_inv e : is_const e = true -> exists v, e = BoundConst v.
Proof using. destruct e; try done. eauto. Qed.
Lemma fold_node_typed e t : has_type [] e t ->
  safe (fun e' => exists t', has_type ts e' t' /\ le_type t' t) (fold_const_node e).
Proof using.
  intros H. eapply safe_bind; [by apply (eval_typed [] None)|]. intros v Hv. simpl.
  apply const_typed_at; [by eapply has_type_ok|done].
Qed.
Lemma le_num t' t : le_type t' t -> num_or_null t = true -> num_or_null t' = true.
Proof using. by intros [->| ->]. Qed.
Lemma le_bool t' t : le_type t' t -> bool_or_null t = true -> bool_or_null t' = true.
Proof using. by intros [->| ->]. Qed.
Lemma le_comparable l' r' l r : le_type l' l -> le_type r' r -> comparable l r = true -> comparable l' r' = true.
Proof using. intros [->| ->] [->| ->]; unfold comparable; simpl; rewrite ?orb_true_r; done. Qed.
Lemma le_trans t1 t2 t3 : le_type t1 t2 -> le_type t2 t3 -> le_type t1 t3.
Proof using. intros [->| ->] H; [done|by right]. Qed.
Lemma bool_le t : type_ok t -> bool_or_null t = true -> le_type t kBool.
Proof using.
  intros [->|Ht] Hb; [by right|]. left.
  destruct (seed_attr_cases t Ht) as [->|[->|[->|[->|[->|[->|[->| ->]]]]]]]; done.
Qed.
Definition typed_as (t : TypeAttr) (e' : BoundExpr) : Prop := exists t', has_type ts e' t' /\ le_type t' t.
Lemma typed_as_self e t : has_type ts e t -> typed_as t e.
Proof using. exists t. split; [done|apply le_type_refl]. Qed.

Lemma simplify_cmp_typed op l r lt rt : has_type ts l lt -> has_type ts r rt -> comparable lt rt = true ->
  typed_as kBool (simplify_cmp_with equal op l r).
Proof using equal.
  intros Hl Hr Hc. apply typed_as_self. unfold simplify_cmp_with.
  destruct op, (equal l r); try (by eapply ht_cmp); try (by eapply ht_is_null);
    (apply (ht_const ts (bool_val kBool false)); [done|solve_seed|by right]).
Qed.
Lemma simplify_logic_typed op l r lt rt : has_type ts l lt -> has_type ts r rt ->
  bool_or_null lt = true -> bool_or_null rt = true -> typed_as kBool (simplify_logic op l r).
Proof using.
  clear equal. intros Hl Hr Hbl Hbr.
  assert (typed_as kBool l) as Tl by (exists lt; split; [done|apply bool_le; eauto using has_type_ok]).
  assert (typed_as kBool r) as Tr by (exists rt; split; [done|apply bool_le; eauto using has_type_ok]).
  assert (typed_as kBool (BoundLogic op l r)) by (apply typed_as_self; by eapply ht_logic).
  assert (forall b, typed_as kBool (BoundConst (bool_val kBool b))).
  { intros b. apply typed_as_self, (ht_const ts (bool_val kBool b)); [done|solve_seed|by right]. }
  unfold simplify_logic. destruct op; repeat (destruct (_ || _) || destruct (bool_decide _)); (assumption || apply H0).
Qed.
Lemma simplify_not_typed e t : has_type ts e t -> bool_or_null t = true -> typed_as kBool (simplify_not e).
Proof using.
  intros He Hb. destruct e; try (apply typed_as_self; by eapply ht_not).
  - inversion He; subst. apply typed_as_self. by eapply ht_cmp.
  - inversion He; subst. eexists. split; [done|]. apply bool_le; eauto using has_type_ok.
  - inversion He; subst. apply typed_as_self. by eapply ht_is_null.
Qed.
End typed.

Ltac const_children :=
  repeat match goal with
  | H : is_const ?e && is_const ?f = true |- _ => apply andb_true_iff in H as [? ?]
  | H : is_const ?e = true |- _ => let v := fresh "c" in apply is_const_inv in H as [v ->]
  | H : has_type ?ts (BoundConst _) _ |- _ => lazymatch ts with [] => fail | _ => apply const_closed in H end
  end.

Lemma fold_args_typed equal ts args ts' tys :
  Forall (fun a => forall weak t, has_type ts a t -> safe (typed_as ts t) (fold_with equal a weak)) args ->
  Forall2 (has_type ts) args ts' -> Forall2 le_type ts' tys ->
  safe (fun l => exists us, Forall2 (has_type ts) l us /\ Forall2 le_type us tys) (fold_args_with equal args).
Proof.
  intros H. revert ts' tys. unfold fold_args_with. induction H as [|a args Ha _ IH]; intros ts' tys Hts Hle;
    inversion Hts; subst; inversion Hle; subst; [by exists []|].
  simpl. eapply safe_bind; [by apply (Ha false)|]. intros a' (u & Hu & Hle').
  eapply safe_bind; [by eapply IH|]. intros l (us & Hus & Hles). exists (u :: us).
  split; constructor; try done. by eapply le_trans.
Qed.

Lemma fold_typed equal ts e weak t : has_type ts e t -> safe (typed_as ts t) (fold_with equal e weak).
Proof.
  revert weak t. induction e as [v|i ct|op l r t IHl IHr|e t IHe|op l r IHl IHr|op l r IHl IHr|e IHe|e n IHe|f nm st args t IHargs|e t len s IHe]
    using BoundExpr_ind'; intros weak ty Ht; pose proof Ht as Hty; inversion Ht; subst; cbn [fold_with].
  1-3: by apply typed_as_self.
  - eapply safe_bind; [by apply IHl|]. intros l' (tl & Hl & Hlel). eapply safe_bind; [by apply IHr|]. intros r' (tr & Hr & Hler).
    assert (forall cs, has_type cs l' tl -> has_type cs r' tr -> has_type cs (BoundArith op l' r' (arith_type lt rt)) (arith_type lt rt)) as Hn.
    { intros cs H1 H2. eapply ht_arith; eauto using le_trans. }
    destruct (_ && _) eqn:Ec; [const_children; by apply fold_node_typed, Hn|].
    destruct (_ || _); [|by apply typed_as_self, Hn]. exists no_type. split; [by constructor|by right].
  - eapply safe_bind; [by apply IHe|]. intros e' (te & He & Hle).
    assert (forall cs, has_type cs e' te -> has_type cs (BoundNeg e' ty) ty) as Hn by (intros; eapply ht_neg; eauto using le_trans).
    destruct (is_const e') eqn:Ec; [const_children; by apply fold_node_typed, Hn|by apply typed_as_self, Hn].
  - eapply safe_bind; [by apply IHl|]. intros l' (tl & Hl & Hlel). eapply safe_bind; [by apply IHr|]. intros r' (tr & Hr & Hler).
    assert (comparable tl tr = true) as Hc by (by eapply le_comparable).
    destruct (_ && _) eqn:Ec; [const_children; by eapply fold_node_typed, ht_cmp|].
    destruct (_ || _); [exists no_type; split; [by constructor|by right]|].
    destruct weak; [by eapply simplify_cmp_typed|by eapply typed_as_self, ht_cmp].
  - eapply safe_bind; [by apply IHl|]. intros l' (tl & Hl & Hlel). eapply safe_bind; [by apply IHr|]. intros r' (tr & Hr & Hler).
    assert (bool_or_null tl = true /\ bool_or_null tr = true) as [Hbl Hbr] by (split; by eapply le_bool).
    destruct (_ && _) eqn:Ec; [const_children; by eapply fold_node_typed, ht_logic|by eapply simplify_logic_typed].
  - eapply safe_bind; [by apply IHe|]. intros e' (te & He & Hle).
    assert (bool_or_null te = true) as Hb by (by eapply le_bool).
    destruct (is_const e') eqn:Ec; [const_children; by eapply fold_node_typed, ht_not|].
    pose proof (simplify_not_typed ts e' te He Hb) as (tn & Hn & Hln).
    destruct (simplify_not e') eqn:En; try (by exists tn).
    destruct weak; [|by exists tn]. inversion Hn; subst. by eapply simplify_cmp_typed.
  - eapply safe_bind; [by apply IHe|]. intros e' (te & He & Hle).
    destruct (is_const e') eqn:Ec; [const_children; by eapply fold_node_typed, ht_is_null|by eapply typed_as_self, ht_is_null].
  - rewrite fold_args_eq. eapply safe_bind; [by eapply (fold_args_typed equal ts)|]. intros l (us & Hus & Hles).
    destruct (forallb is_const l) eqn:Ec; [|by eapply typed_as_self, ht_func].
    apply fold_node_typed. eapply ht_func; [done|done| |done].
    apply forallb_forall in Ec || rewrite forallb_forall in Ec.
    clear -Hus Ec. induction Hus as [|a u l us Ha _ IH]; constructor.
    + destruct (is_const_inv a (Ec a ltac:(by left))) as [v ->]. by eapply const_closed.
    + apply IH. intros x Hx. apply Ec. by right.
  - eapply safe_bind; [by apply IHe|]. intros e' (te & He & Hle).
    destruct (is_const e') eqn:Ec; [const_children; by eapply fold_node_typed, ht_cast|by eapply typed_as_self, ht_cast].
Qed.

(** * Folding keeps values *)
Lemma const_eval ts v t row : has_type ts (BoundConst v) t -> eval_bound (BoundConst v) row = Ok v.
Proof.
  intros H. cbn [eval_bound]. inversion H as [? Hn Hs Hv| ? Hn| | | | | | | | |]; subst.
  - destruct (value_ok_cases _ _ Hv Hn) as (_ & _ & Hr & _). destruct (box v); try done. destruct Hr as [_ Hr]. by rewrite Hr.
  - unfold is_null, value_is_null in Hn. by destruct (box v).
Qed.
Lemma bool_shape t v : type_ok t -> bool_or_null t = true -> value_ok t v ->
  (is_null v = true /\ bool_of v = None) \/ exists b, v = bool_val kBool b.
Proof.
  intros Ht Hb Hv. destruct (is_null v) eqn:E; [left; split; [done|by apply is_null_bool]|right].
  destruct (bool_value t v Ht Hb Hv E) as [b Hvb]. exists b.
  destruct (value_ok_cases _ _ Hv E) as (Hvt & _ & _).
  destruct (bool_le t Ht Hb) as [->| ->]; [|by rewrite (value_ok_no_type _ Hv) in E].
  destruct v as [vt vb]. simpl in *. subst. unfold bool_of in Hvb. simpl in Hvb. destruct vb; try done.
  by injection Hvb as ->.
Qed.
Lemma logic_truth op lt rt v w u :
  type_ok lt -> type_ok rt -> bool_or_null lt = true -> bool_or_null rt = true -> value_ok lt v -> value_ok rt w ->
  eval_logic_values op v w = Ok u -> truth u = match op with LAnd => truth v && truth w | LOr => truth v || truth w end.
Proof.
  intros Hlt Hrt Hbl Hbr Hv Hw.
  destruct (bool_shape lt v Hlt Hbl Hv) as [[Hnv Hbv]|[b ->]], (bool_shape rt w Hrt Hbr Hw) as [[Hnw Hbw]|[b' ->]];
    unfold eval_logic_values, truth; rewrite ?Hnv, ?Hnw, ?Hbv, ?Hbw; cbn; try destruct b; try destruct b'; destruct op; cbn;
    intros [= <-]; done.
Qed.

Lemma flt_irrefl f x : flt f x x = false.
Proof.
  unfold flt, SpecFloat.SFltb, SpecFloat.SFcompare.
  destruct (decode f x) as [[]|[]| |[] m e]; rewrite ?Z.compare_refl; try done;
    change (Pos.compare_cont Eq m m) with (m ?= m)%positive; by rewrite Pos.compare_refl.
Qed.
Lemma bytes_compare_refl s : bytes_compare s s = Eq.
Proof. induction s as [|c s IH]; [done|]. simpl. by rewrite Z.compare_refl. Qed.
Lemma value_cmp_refl t v c : type_ok t -> value_ok t v -> is_null v = false -> value_cmp v v = Ok c -> c = 0.
Proof.
  intros Ht Hv Hn. unfold value_cmp. rewrite Hn. cbn [orb].
  assert (forall c, (l ← box_f64 v; r ← box_f64 v; Ok (if flt binary64 l r then -1 else if fgt binary64 l r then 1 else 0)) = Ok c -> c = 0) as Hd.
  { intros c' (x & Hx & H)%bind_ok. rewrite Hx in H. cbn [mbind result_bind] in H. unfold fgt in H.
    change (SpecFloat.SFltb (decode binary64 x) (decode binary64 x)) with (flt binary64 x x) in H.
    rewrite flt_irrefl in H. by injection H. }
  destruct (value_ok_cases _ _ Hv Hn) as (_ & _ & Hr & _).
  destruct (family (vtype v)); try done; destruct (box v) as [|b|i|x|x|s|d]; try done; try (by apply Hd).
  - rewrite Z.ltb_irrefl. destruct (Z.gtb_spec i i); [lia|]. by intros [= <-].
  - intros [= <-]. destruct Hr. rewrite dec_cmp_exact by lia. unfold dec_compare. by rewrite Z.compare_refl.
  - unfold text_key. rewrite bytes_compare_refl. by intros [= <-].
  - by destruct b; intros [= <-].
Qed.

Lemma negate_holds op c : cmp_holds (negate_cmp op) c = negb (cmp_holds op c).
Proof. destruct op; simpl; lia. Qed.
Lemma simplify_not_refines ts row e t : context_ok ts row -> has_type ts e t -> bool_or_null t = true ->
  refines false (eval_bound (BoundNot e) row) (eval_bound (simplify_not e) row).
Proof.
  intros Hrow He Hb. destruct e; try apply refines_refl; cbn [simplify_not eval_bound].
  - intros v (c & (lv & -> & (rv & -> & Hc)%bind_ok)%bind_ok & Hv)%bind_ok. cbn [mbind result_bind].
    unfold eval_compare_values in *. destruct (_ || _).
    + injection Hc as <-. injection Hv as <-. eexists. split; [done|apply eqv_refl].
    + apply bind_ok in Hc as (k & -> & [= <-]). cbn [mbind result_bind]. injection Hv as <-.
      eexists. split; [done|]. rewrite negate_holds. apply eqv_refl.
  - intros v (w & (x & Hx & Hw)%bind_ok & Hv)%bind_ok. exists x. split; [done|]. inversion He; subst.
    assert (type_ok t0) by (by eapply has_type_ok).
    pose proof (eval_typed ts row e t0 Hrow ltac:(done)) as Hs. rewrite Hx in Hs. simpl in Hs.
    destruct (bool_shape t0 x ltac:(done) ltac:(done) Hs) as [[Hn _]|[b ->]].
    + unfold eval_not_value in Hw. rewrite Hn in Hw. injection Hw as <-. unfold eval_not_value in Hv. rewrite Hn in Hv.
      injection Hv as <-. apply eqv_refl.
    + injection Hw as <-. injection Hv as <-. by rewrite negb_involutive; apply eqv_refl.
  - intros v (w & (x & -> & [= <-])%bind_ok & Hv)%bind_ok. cbn [mbind result_bind]. eexists. split; [done|].
    injection Hv as <-. left. by destruct negate, (is_null x).
Qed.

Lemma simplify_cmp_refines ts row equal op l r lt rt :
  context_ok ts row -> has_type ts l lt -> has_type ts r rt -> (equal l r = true -> l = r) ->
  refines true (eval_bound (BoundCmp op l r) row) (eval_bound (simplify_cmp_with equal op l r) row).
Proof.
  intros Hrow Hl Hr Heq. unfold simplify_cmp_with.
  destruct (equal l r) eqn:E; [|destruct op; apply refines_refl]. rewrite <- (Heq eq_refl) in *. clear Heq E.
  assert (forall u, eval_bound (BoundCmp op l l) row = Ok u -> exists v, eval_bound l row = Ok v /\
    truth u = negb (is_null v) && cmp_holds op 0) as H.
  { cbn [eval_bound]. intros u (v & Hv & H)%bind_ok. rewrite Hv in H. cbn [mbind result_bind] in H. exists v. split; [done|].
    unfold eval_compare_values in H. destruct (is_null v) eqn:En; cbn [orb] in H; [by injection H as <-|].
    apply bind_ok in H as (c & Hc & [= <-]). pose proof (eval_typed ts row l lt Hrow Hl) as Hs. rewrite Hv in Hs. simpl in Hs.
    rewrite (value_cmp_refl lt v c) by eauto using has_type_ok. unfold truth. cbn. by destruct (cmp_holds op 0). }
  intros u Hu. destruct (H u Hu) as (v & Hv & Ht).
  destruct op; cbn [cmp_holds Z.eqb negb Z.ltb Z.leb Z.gtb Z.geb Z.compare] in Ht; rewrite ?andb_true_r, ?andb_false_r in Ht;
    cbn [eval_bound]; rewrite ?Hv; cbn [mbind result_bind];
    (eexists; split; [reflexivity|]); simpl; rewrite Ht; unfold truth; cbn; by destruct (is_null v).
Qed.
Lemma simplify_logic_refines ts row op l r lt rt :
  context_ok ts row -> has_type ts l lt -> has_type ts r rt -> bool_or_null lt = true -> bool_or_null rt = true ->
  refines false (eval_bound (BoundLogic op l r) row) (eval_bound (simplify_logic op l r) row).
Proof.
  intros Hrow Hl Hr Hbl Hbr.
  assert (forall e b, const_bool e = Some b -> exists x, e = BoundConst x /\ bool_of x = Some b) as Hcb.
  { intros e b H. destruct e; try done. by eexists. }
  assert (forall e u, has_type ts e u -> bool_or_null u = true -> forall x, eval_bound e row = Ok x ->
    (is_null x = true /\ bool_of x = None) \/ exists b, x = bool_val kBool b) as Hsh.
  { intros e u He Hb x Hx. eapply (bool_shape u); [by eapply has_type_ok|done|].
    pose proof (eval_typed ts row e u Hrow He) as Hs. by rewrite Hx in Hs. }
  assert (forall e u b x, has_type ts e u -> const_bool e = Some b -> eval_bound e row = Ok x -> bool_of x = Some b) as Hcv.
  { intros e u b x He Hc Hx. destruct (Hcb e b Hc) as (y & -> & Hy). rewrite (const_eval ts y u row He) in Hx. by injection Hx as <-. }
  intros v. cbn [eval_bound]. intros (x & Hx & (y & Hy & Hv)%bind_ok)%bind_ok.
  pose proof (Hsh l lt Hl Hbl x Hx) as Sx. pose proof (Hsh r rt Hr Hbr y Hy) as Sy.
  pose proof (fun b Hc => Hcv l lt b x Hl Hc Hx) as Cx. pose proof (fun b Hc => Hcv r rt b y Hr Hc Hy) as Cy. clear Hcb Hsh Hcv.
  assert (exists w, eval_bound (BoundLogic op l r) row = Ok w /\ sees false v w) as Hsame.
  { cbn [eval_bound]. rewrite Hx, Hy. cbn [mbind result_bind]. rewrite Hv. eexists. split; [done|apply eqv_refl]. }
  unfold simplify_logic. destruct (const_bool l) as [b|], (const_bool r) as [b'|];
    try (specialize (Cx _ eq_refl)); try (specialize (Cy _ eq_refl));
    destruct Sx as [[Nx Bx]|[c ->]]; destruct Sy as [[Ny By]|[c' ->]]; try congruence;
    cbn in *; simplify_eq;
    unfold eval_logic_values in Hv; rewrite ?Nx, ?Ny, ?Bx, ?By in Hv; cbn in Hv;
    destruct op; try destruct b; try destruct b'; try destruct c; try destruct c'; cbn in *; try done;
    injection Hv as <-;
    repeat match goal with |- context [bool_decide (?a = ?b :> option bool)] =>
      let d := eval vm_compute in (bool_decide (a = b)) in change (bool_decide (a = b)) with d end;
    cbn [orb]; cbv iota; cbn [eval_bound box]; rewrite ?Hx, ?Hy; first [exact Hsame | eexists; split; [reflexivity|]; first [by left|by right]].
Qed.

Lemma logic_total op lt rt v w :
  type_ok lt -> type_ok rt -> bool_or_null lt = true -> bool_or_null rt = true -> value_ok lt v -> value_ok rt w ->
  exists u, eval_logic_values op v w = Ok u.
Proof.
  intros Hlt Hrt Hbl Hbr Hv Hw.
  destruct (bool_shape lt v Hlt Hbl Hv) as [[Hnv Hbv]|[b ->]], (bool_shape rt w Hrt Hbr Hw) as [[Hnw Hbw]|[b' ->]];
    unfold eval_logic_values; rewrite ?Hnv, ?Hnw, ?Hbv, ?Hbw; cbn; try destruct b; try destruct b'; destruct op; cbn; eauto.
Qed.
Lemma logic_weak ts row op l r l' r' lt rt lt' rt' : context_ok ts row ->
  has_type ts l lt -> has_type ts r rt -> has_type ts l' lt' -> has_type ts r' rt' ->
  bool_or_null lt = true -> bool_or_null rt = true -> bool_or_null lt' = true -> bool_or_null rt' = true ->
  refines true (eval_bound l row) (eval_bound l' row) -> refines true (eval_bound r row) (eval_bound r' row) ->
  refines true (eval_bound (BoundLogic op l r) row) (eval_bound (BoundLogic op l' r') row).
Proof.
  intros Hrow Hl Hr Hl' Hr' Bl Br Bl' Br' Rl Rr. cbn [eval_bound].
  assert (forall e t v, has_type ts e t -> eval_bound e row = Ok v -> value_ok t v) as Hty.
  { intros e t v He Hv. pose proof (eval_typed ts row e t Hrow He) as Hs. by rewrite Hv in Hs. }
  eapply refines_bind; [exact Rl|]. intros v v' Hv Hv' Sv. eapply refines_bind; [exact Rr|]. intros w w' Hw Hw' Sw.
  intros u Hu. destruct (logic_total op lt' rt' v' w') as [u' Hu']; eauto using has_type_ok.
  exists u'. split; [done|]. simpl in *.
  rewrite (logic_truth op lt rt v w u), (logic_truth op lt' rt' v' w' u') by eauto using has_type_ok. by rewrite Sv, Sw.
Qed.

Lemma fold_node_refines ts row weak t e e' : typed_as ts t e' -> eval_bound e row = eval_bound e None ->
  fold_const_node e = Ok e' -> refines weak (eval_bound e row) (eval_bound e' row).
Proof.
  intros (t' & Ht & _) Hrow (v & Hv & [= <-])%bind_ok. rewrite Hrow. unfold eval_const in Hv. rewrite Hv.
  unfold to_fold_const in *. rewrite (const_eval ts v t' row Ht). apply refines_refl.
Qed.
Lemma null_const_inv e : is_null_const e = true -> exists v, e = BoundConst v /\ is_null v = true.
Proof. destruct e; try done. eauto. Qed.
Lemma fold_args_refines equal ts row args ts' args' :
  Forall (fun a => forall weak t e', has_type ts a t -> (weak = true -> forall x y, equal x y = true -> x = y) ->
            fold_with equal a weak = Ok e' -> refines weak (eval_bound a row) (eval_bound e' row)) args ->
  Forall2 (has_type ts) args ts' -> fold_args_with equal args = Ok args' ->
  forall vs, eval_args row args = Ok vs -> exists ws, eval_args row args' = Ok ws /\ Forall2 eqv vs ws.
Proof.
  intros H. revert ts' args'. unfold fold_args_with, eval_args. induction H as [|a args Ha _ IH]; intros ts' args' Hts.
  - intros [= <-] vs [= <-]. by exists [].
  - inversion Hts; subst. simpl. intros (a' & Ha' & (l & Hl & [= <-])%bind_ok)%bind_ok vs
      (v & Hv & (vs' & Hvs & [= <-])%bind_ok)%bind_ok.
    destruct (Ha false _ a' ltac:(done) ltac:(done) Ha' v Hv) as (w & Hw & Hvw).
    destruct (IH _ _ ltac:(done) Hl _ Hvs) as (ws & Hws & Hall). exists (w :: ws).
    simpl. rewrite Hw. cbn [mbind result_bind]. rewrite Hws. split; [done|by constructor].
Qed.

Lemma binary_null ts row op t l r lt rt : has_type ts l lt -> has_type ts r rt -> is_null_const l || is_null_const r = true ->
  refines false (eval_bound (BoundArith op l r t) row) (eval_bound (to_fold_const null_val) row).
Proof.
  intros Hl Hr H v. cbn [eval_bound]. intros (x & Hx & (y & Hy & Hv)%bind_ok)%bind_ok. exists null_val. split; [done|].
  assert (is_null x || is_null y = true) as Hn.
  { apply orb_true_iff in H as [(c & -> & Hc)%null_const_inv|(c & -> & Hc)%null_const_inv].
    - rewrite (const_eval ts c lt row Hl) in Hx. injection Hx as <-. by rewrite Hc.
    - rewrite (const_eval ts c rt row Hr) in Hy. injection Hy as <-. by rewrite Hc, orb_true_r. }
  unfold eval_binary_values in Hv. rewrite Hn in Hv. injection Hv as <-. by right.
Qed.
Lemma compare_null ts row op l r lt rt : has_type ts l lt -> has_type ts r rt -> is_null_const l || is_null_const r = true ->
  refines false (eval_bound (BoundCmp op l r) row) (eval_bound (to_fold_const null_val) row).
Proof.
  intros Hl Hr H v. cbn [eval_bound]. intros (x & Hx & (y & Hy & Hv)%bind_ok)%bind_ok. exists null_val. split; [done|].
  assert (is_null x || is_null y = true) as Hn.
  { apply orb_true_iff in H as [(c & -> & Hc)%null_const_inv|(c & -> & Hc)%null_const_inv].
    - rewrite (const_eval ts c lt row Hl) in Hx. injection Hx as <-. by rewrite Hc.
    - rewrite (const_eval ts c rt row Hr) in Hy. injection Hy as <-. by rewrite Hc, orb_true_r. }
  unfold eval_compare_values in Hv. rewrite Hn in Hv. injection Hv as <-. by right.
Qed.

Ltac node_case e1 :=
  match goal with |- refines _ (eval_bound _ ?row) _ => apply (refines_trans _ _ (eval_bound e1 row)) end;
  [apply refines_weaken; cbn [eval_bound]; repeat (eapply refines_bind; [eassumption|]; intros ? ? _ _ ?)|].
Lemma fold_refines equal ts row e weak t e' : context_ok ts row -> has_type ts e t ->
  (weak = true -> forall x y, equal x y = true -> x = y) -> fold_with equal e weak = Ok e' ->
  refines weak (eval_bound e row) (eval_bound e' row).
Proof.
  intros Hrow. revert weak t e'. induction e as [v|i ct|op l r t IHl IHr|e t IHe|op l r IHl IHr|op l r IHl IHr|e IHe|e n IHe|f nm st args t IHargs|e t len s IHe]
    using BoundExpr_ind'; intros weak ty e' Ht Heq Hf; pose proof (fold_typed equal ts _ weak ty Ht) as Hty; rewrite Hf in Hty;
    simpl in Hty; inversion Ht; subst; cbn [fold_with] in Hf.
  1-3: injection Hf as <-; apply refines_refl.
  - apply bind_ok in Hf as (l' & Hl & Hf). apply bind_ok in Hf as (r' & Hr & Hf).
    pose proof (fold_typed equal ts l false _ ltac:(eassumption)) as Tl. rewrite Hl in Tl. destruct Tl as (tl & Tl & _).
    pose proof (fold_typed equal ts r false _ ltac:(eassumption)) as Tr. rewrite Hr in Tr. destruct Tr as (tr & Tr & _).
    eapply IHl in Hl; [|done..]. eapply IHr in Hr; [|done..].
    node_case (BoundArith op l' r' (arith_type lt rt)); [by apply binary_eqv|].
    destruct (_ && _) eqn:Ec in Hf; [const_children; by eapply fold_node_refines|].
    destruct (_ || _) eqn:En in Hf; injection Hf as <-; [by eapply refines_weaken, binary_null|apply refines_refl].
  - apply bind_ok in Hf as (x & Hx & Hf). eapply IHe in Hx; [|done..].
    node_case (BoundNeg x ty); [by apply neg_eqv|].
    destruct (is_const x) eqn:Ec in Hf; [const_children; by eapply fold_node_refines|injection Hf as <-; apply refines_refl].
  - apply bind_ok in Hf as (l' & Hl & Hf). apply bind_ok in Hf as (r' & Hr & Hf).
    pose proof (fold_typed equal ts l false _ ltac:(eassumption)) as Tl. rewrite Hl in Tl. destruct Tl as (tl & Tl & _).
    pose proof (fold_typed equal ts r false _ ltac:(eassumption)) as Tr. rewrite Hr in Tr. destruct Tr as (tr & Tr & _).
    eapply IHl in Hl; [|done..]. eapply IHr in Hr; [|done..].
    node_case (BoundCmp op l' r'); [by apply compare_eqv|].
    destruct (_ && _) eqn:Ec in Hf; [const_children; by eapply fold_node_refines|].
    destruct (_ || _) eqn:En in Hf; [injection Hf as <-; by eapply refines_weaken, compare_null|].
    destruct weak; injection Hf as <-; [|apply refines_refl]. eapply simplify_cmp_refines; eauto.
  - apply bind_ok in Hf as (l' & Hl & Hf). apply bind_ok in Hf as (r' & Hr & Hf).
    pose proof (fold_typed equal ts l weak _ ltac:(eassumption)) as Tl. rewrite Hl in Tl. destruct Tl as (tl & Tl & Ll).
    pose proof (fold_typed equal ts r weak _ ltac:(eassumption)) as Tr. rewrite Hr in Tr. destruct Tr as (tr & Tr & Lr).
    assert (bool_or_null tl = true /\ bool_or_null tr = true) as [Hbl Hbr] by (split; by eapply le_bool).
    eapply IHl in Hl; [|done..]. eapply IHr in Hr; [|done..].
    apply (refines_trans _ _ (eval_bound (BoundLogic op l' r') row)).
    { destruct weak; [eapply logic_weak; eauto|]. cbn [eval_bound].
      do 2 (eapply refines_bind; [eassumption|]; intros ? ? _ _ ?). by apply logic_eqv. }
    destruct (_ && _) eqn:Ec in Hf; [const_children; by eapply fold_node_refines|].
    injection Hf as <-. by eapply refines_weaken, simplify_logic_refines.
  - apply bind_ok in Hf as (x & Hx & Hf).
    pose proof (fold_typed equal ts e false _ ltac:(eassumption)) as Tx. rewrite Hx in Tx. destruct Tx as (tx & Tx & Lx).
    assert (bool_or_null tx = true) as Hb by (by eapply le_bool).
    eapply IHe in Hx; [|done..]. node_case (BoundNot x); [by apply not_eqv|].
    destruct (is_const x) eqn:Ec in Hf; [const_children; by eapply fold_node_refines|].
    eapply refines_trans; [by eapply refines_weaken, simplify_not_refines|].
    destruct (simplify_not_typed ts x tx Tx Hb) as (tn & Hn & _).
    destruct (simplify_not x) eqn:En; try (injection Hf as <-; apply refines_refl).
    destruct weak; injection Hf as <-; [|apply refines_refl]. inversion Hn; subst. eapply simplify_cmp_refines; eauto.
  - apply bind_ok in Hf as (x & Hx & Hf). eapply IHe in Hx; [|done..].
    node_case (BoundIsNull x n).
    { apply refines_ok. left. do 2 f_equal. destruct H as [->|[-> ->]]; done. }
    destruct (is_const x) eqn:Ec in Hf; [const_children; by eapply fold_node_refines|injection Hf as <-; apply refines_refl].
  - rewrite fold_args_eq in Hf. apply bind_ok in Hf as (args' & Ha & Hf).
    apply (refines_trans _ _ (eval_bound (BoundFuncCall f nm true args' ty) row)).
    { cbn [eval_bound]. rewrite !eval_args_eq. intros v (vs & Hvs & Hv)%bind_ok.
      destruct (fold_args_refines equal ts row args _ _ IHargs ltac:(eassumption) Ha vs Hvs) as (ws & -> & Hws).
      cbn [mbind result_bind]. destruct (func_eqv f ty vs ws Hws v Hv) as (w & Hw & E). exists w. split; [done|by apply eqv_sees]. }
    destruct (forallb is_const args') eqn:Ec; [|injection Hf as <-; apply refines_refl].
    eapply fold_node_refines; [done| |done]. cbn [eval_bound]. rewrite !eval_args_eq. f_equal.
    rewrite forallb_forall in Ec. clear -Ec. induction args' as [|a l IH]; [done|]. unfold eval_args in *. simpl.
    rewrite IH by (intros y Hy; apply Ec; by right). by destruct (is_const_inv a (Ec a ltac:(by left))) as [v ->].
  - apply bind_ok in Hf as (x & Hx & Hf). eapply IHe in Hx; [|done..].
    node_case (BoundCast x ty len s); [by apply cast_eqv|].
    destruct (is_const x) eqn:Ec in Hf; [const_children; by eapply fold_node_refines|injection Hf as <-; apply refines_refl].
Qed.

(** * The properties *)
#[export] Instance BoundExpr_eq_dec : EqDecision BoundExpr.
Proof.
  unfold EqDecision. fix go 1. intros a b.
  destruct a as [v|i t|op l r t|e t|op l r|op l r|e|e n|f nm st args t|e t len s],
    b as [v'|i' t'|op' l' r' t'|e' t'|op' l' r'|op' l' r'|e'|e' n'|f' nm' st' args' t'|e' t' len' s'];
    try (right; discriminate).
  - destruct (decide (v = v')); [left|right]; congruence.
  - destruct (decide (i = i')), (decide (t = t')); [left|right..]; congruence.
  - destruct (decide (op = op')), (go l l'), (go r r'), (decide (t = t')); [left|right..]; congruence.
  - destruct (go e e'), (decide (t = t')); [left|right..]; congruence.
  - destruct (decide (op = op')), (go l l'), (go r r'); [left|right..]; congruence.
  - destruct (decide (op = op')), (go l l'), (go r r'); [left|right..]; congruence.
  - destruct (go e e'); [left|right..]; congruence.
  - destruct (go e e'), (decide (n = n')); [left|right..]; congruence.
  - destruct (decide (f = f')), (decide (nm = nm')), (decide (st = st')), (@list_eq_dec _ go args args'), (decide (t = t')); [left|right..]; congruence.
  - destruct (go e e'), (decide (t = t')), (decide (len = len')), (decide (s = s')); [left|right..]; congruence.
Defined.
(** Identity of expressions, as opposed to [expr_equal], which ignores the scale of a cast and
    the sign of a zero. *)
Definition same_expr (a b : BoundExpr) : bool := bool_decide (a = b).

(** C34. Constant folding is correct in value contexts (projections, inserted values, assignments, sort keys):
    a well-typed expression folds to one of the same type (or to a bare NULL), which has on every row the value
    the original has, up to the type attached to a NULL; and folding itself only fails with an
    arithmetic or a value error, never on a type. *)
Theorem fold_expr_correct ts row e t :
  context_ok ts row -> has_type ts e t ->
  match fold_expr e false with
  | Ok e' => (exists t', has_type ts e' t' /\ le_type t' t) /\
             forall v, eval_bound e row = Ok v -> exists w, eval_bound e' row = Ok w /\ eqv v w
  | Raise c => c = ArithError \/ c = ValueMismatch
  | Fatal => False
  end.
Proof.
  intros Hrow Ht. unfold fold_expr. pose proof (fold_typed expr_equal ts e false t Ht) as Hty.
  destruct (fold_with expr_equal e false) as [e'| |] eqn:Hf; [|done..]. split; [exact Hty|].
  by apply (fold_refines expr_equal ts row e false t e').
Qed.
(** a + (2 * 3) folds to a + 6. *)
Definition demo_arith : BoundExpr :=
  BoundArith OpAdd (BoundColRef 0 kInt) (BoundArith OpMul (BoundConst (int_val kInt 2)) (BoundConst (int_val kInt 3)) kInt) kInt.
Lemma int_const_typed ts i : INT32_MIN <= i <= INT32_MAX -> has_type ts (BoundConst (int_val kInt i)) kInt.
Proof.
  intros Hi. apply (ht_const ts (int_val kInt i)); [done|solve_seed|]. apply value_ok_int; [|done| |done].
  - unfold num_type. rewrite !elem_of_cons. tauto.
  - unfold INT32_MIN, INT32_MAX, INT64_MIN, INT64_MAX in *. lia.
Qed.
Lemma arith_kInt_typed ts op l r : has_type ts l kInt -> has_type ts r kInt -> has_type ts (BoundArith op l r kInt) kInt.
Proof. intros. apply (ht_arith ts op l r kInt kInt kInt kInt); try done; (by left) || (right; solve_seed). Qed.
Lemma demo_row_typed i : INT32_MIN <= i <= INT32_MAX -> context_ok [kInt] (Some [int_val kInt i]).
Proof.
  intros Hi. constructor; [|constructor]. apply value_ok_int; [|done| |done].
  - unfold num_type. rewrite !elem_of_cons. tauto.
  - unfold INT32_MIN, INT32_MAX, INT64_MIN, INT64_MAX in *. lia.
Qed.
Lemma demo_arith_typed : has_type [kInt] demo_arith kInt.
Proof.
  apply arith_kInt_typed; [constructor; [done|solve_seed]|].
  apply arith_kInt_typed; by apply int_const_typed.
Qed.
Lemma fold_expr_correct_witness :
  (exists t', has_type [kInt] (BoundArith OpAdd (BoundColRef 0 kInt) (BoundConst (int_val kInt 6)) kInt) t' /\ le_type t' kInt) /\
  forall v, eval_bound demo_arith (Some [int_val kInt 4]) = Ok v -> exists w, Ok (int_val kInt 10) = Ok w /\ eqv v w.
Proof. exact (fold_expr_correct [kInt] (Some [int_val kInt 4]) demo_arith kInt (demo_row_typed 4 ltac:(done)) demo_arith_typed). Defined.

Lemma where_truth e row b ts t : context_ok ts (Some row) -> has_type ts e t -> bool_or_null t = true ->
  where_match e row = Ok b <-> exists v, eval_row e row = Ok v /\ truth v = b.
Proof.
  intros Hrow Ht Hb. unfold where_match, eval_row.
  pose proof (eval_typed ts (Some row) e t Hrow Ht) as Hs. destruct (eval_bound e (Some row)) as [v| |] eqn:E.
  2-3: split; [done|by intros (? & ? & _)].
  cbn [mbind result_bind]. simpl in Hs.
  destruct (bool_shape t v (has_type_ok _ _ _ Ht) Hb Hs) as [[Hn Hbv]|[c ->]].
  - rewrite Hn. unfold truth. split; [intros [= <-]; exists v; by rewrite Hbv|].
    intros (w & [= <-] & <-). by rewrite Hbv.
  - unfold truth. cbn. split; [intros [= <-]; exists (bool_val kBool c); split; [done|]; by destruct c|].
    intros (w & [= <-] & <-). by destruct c.
Qed.
Lemma fold_where_eq ts row e t e' b :
  context_ok ts (Some row) -> has_type ts e t -> bool_or_null t = true ->
  fold_expr e true = Ok e' -> fold_with same_expr e true = Ok e' ->
  where_match e row = Ok b -> where_match e' row = Ok b.
Proof.
  intros Hrow Ht Hb _ Hf (v & Hv & Htr)%(where_truth e row b ts t Hrow Ht Hb).
  pose proof (fold_typed same_expr ts e true t Ht) as Hty. rewrite Hf in Hty. destruct Hty as (t' & Ht' & Hle).
  apply (where_truth e' row b ts t' Hrow Ht'); [by eapply le_bool|].
  destruct (fold_refines same_expr ts (Some row) e true t e' Hrow Ht) with (v := v) as (w & Hw & Hs); [|done..|].
  - intros _ x y H. by apply bool_decide_eq_true in H.
  - exists w. split; [done|]. simpl in Hs. congruence.
Qed.
(** C20. Constant folding is correct for WHERE predicates: where the self-comparison rule only fired on
    identical expressions (folding with identity in place of [expr_equal] gives the same
    result), the folded predicate selects exactly the rows the original selects. *)
Theorem fold_where_correct ts row e t e' b :
  context_ok ts (Some row) -> has_type ts e t -> bool_or_null t = true ->
  fold_expr e true = Ok e' -> fold_with same_expr e true = Ok e' ->
  where_match e row = Ok b -> where_match e' row = Ok b.
Proof. apply fold_where_eq. Qed.
(** NOT (a <> a + 0) becomes a = a + 0; NOT (a <> a) becomes a IS NOT NULL. *)
Definition demo_where : BoundExpr := BoundNot (BoundCmp CmpNe (BoundColRef 0 kInt) (BoundColRef 0 kInt)).
Lemma fold_where_correct_witness :
  fold_expr demo_where true = Ok (BoundIsNull (BoundColRef 0 kInt) true) /\
  where_match (BoundIsNull (BoundColRef 0 kInt) true) [int_val kInt 4] = Ok true.
Proof.
  split; [by vm_compute|].
  apply (fold_where_correct [kInt] [int_val kInt 4] demo_where kBool _ true (demo_row_typed 4 ltac:(done))); try by vm_compute.
  apply (ht_not _ _ kBool); [|done]. eapply (ht_cmp _ _ _ _ kInt kInt); [constructor; [done|solve_seed]..|done].
Defined.

(** Without that condition the rule is wrong: [expr_equal] takes
    cast(a as numeric(10, 1)) and cast(a as numeric(10, 2)) for the same expression, so the predicate comparing them
    becomes a IS NOT NULL and selects a row (0.25) on which it is false. *)
Theorem self_comparison_ignores_scale :
  let e := BoundCmp CmpEq (BoundCast (BoundColRef 0 kNumeric) kNumeric 10 1) (BoundCast (BoundColRef 0 kNumeric) kNumeric 10 2) in
  let row := [numeric_val kNumeric 25 2] in
  exists e', fold_expr e true = Ok e' /\ where_match e row = Ok false /\ where_match e' row = Ok true.
Proof. eexists. split; [by vm_compute|]. split; by vm_compute. Qed.
