(* ===== verification/Key.v ===== *)
(** Index keys: the order-preserving encoding of column values (src/storage/btree.cpp) and the key
    ranges of the planner's comparison conditions (src/planner/index_select.cpp), with the theorems
    that key order is value order and that the ranges of a condition hold exactly the rows it
    accepts. *)
From S2P Require Import Prelude Types Ieee Finite Text Cast Decimal Expr Typing Fold.

(** * Keys: src/storage/btree.h, btree.cpp *)
Record IndexKey := mkKey { kval : Z; knull : bool }.
Definition sign_flip : Z := 0x8000000000000000.

Definition key_cmp (a b : IndexKey) : Z :=
  if negb (Bool.eqb (knull a) (knull b)) then if knull a then 1 else -1
  else if negb (kval a =? kval b) then if kval a <? kval b then -1 else 1
  else 0.

(** The transformation of the bits of a double: -0 becomes +0, negative numbers are complemented,
    positive ones get the top bit. *)
Definition double_key (x : f64) : IndexKey :=
  let bits := if feq binary64 x 0 then 0 else x in
  mkKey (if negb (Z.shiftr bits 63 =? 0) then wrap 64 (Z.lnot bits) else Z.lor bits sign_flip) false.

Definition encode_key (type : TypeAttr) (v : Value) : result IndexKey :=
  match box v with
  | BNull => Ok (mkKey 0 true)
  | b =>
    if decide (rep type = RepDec) then Raise NotImplemented
    else match b with
    | BBool b => if decide (rep type = RepBool) then Ok (mkKey (if b then 1 else 0) false) else Raise ValueMismatch
    | BInt i => if decide (rep type = RepInt64) then Ok (mkKey (Z.lxor (wrap 64 i) sign_flip) false) else Raise ValueMismatch
    | BDouble d => if decide (rep type = RepDouble) then Ok (double_key d) else Raise ValueMismatch
    | BFloat f => if decide (rep type = RepFloat) then Ok (double_key (Ieee.f32_to_f64 f)) else Raise ValueMismatch
    | _ => Raise NotImplemented
    end
  end.

(** A leaf entry: a key and the place of its row. *)
Record BTreeEntry := mkEntry { ekey : IndexKey; page_no : Z; slot : Z }.

(** * Scan bounds and ranges: src/storage/btree.h, src/planner/plan.h *)
Record ScanBound := mkBound { bkey : IndexKey; inclusive : bool }.
Record IndexRange := mkRange { lo : option ScanBound; hi : option ScanBound }.
Definition k_null_key : IndexKey := mkKey 0 true.

Definition tighter_lo (a b : option ScanBound) : option ScanBound :=
  match a, b with
  | Some x, Some y =>
      let c := key_cmp (bkey x) (bkey y) in
      if negb (c =? 0) then (if c >? 0 then a else b) else if inclusive x then b else a
  | Some _, None => a
  | None, _ => b
  end.
Definition tighter_hi (a b : option ScanBound) : option ScanBound :=
  match a, b with
  | Some x, Some y =>
      let c := key_cmp (bkey x) (bkey y) in
      if negb (c =? 0) then (if c <? 0 then a else b) else if inclusive x then b else a
  | Some _, None => a
  | None, _ => b
  end.
Definition range_meet (a b : IndexRange) : option IndexRange :=
  let r := mkRange (tighter_lo (lo a) (lo b)) (tighter_hi (hi a) (hi b)) in
  match lo r, hi r with
  | Some l, Some h =>
      let c := key_cmp (bkey l) (bkey h) in
      if (c >? 0) || ((c =? 0) && negb (inclusive l && inclusive h)) then None else Some r
  | _, _ => Some r
  end.
Definition ranges_meet (a b : list IndexRange) : list IndexRange :=
  x ← a; omap (range_meet x) b.

Definition cmp_ranges (op : CmpOp) (k : IndexKey) : list IndexRange :=
  let closed_k := mkBound k true in
  let open_k := mkBound k false in
  let open_null := mkBound k_null_key false in
  match op with
  | CmpEq => [mkRange (Some closed_k) (Some closed_k)]
  | CmpLt => [mkRange None (Some open_k)]
  | CmpLe => [mkRange None (Some closed_k)]
  | CmpGt => [mkRange (Some open_k) (Some open_null)]
  | CmpGe => [mkRange (Some closed_k) (Some open_null)]
  | CmpNe => [mkRange None (Some open_k); mkRange (Some open_k) (Some open_null)]
  end.
Definition null_ranges (negate : bool) : list IndexRange :=
  if negate then [mkRange None (Some (mkBound k_null_key false))]
  else [mkRange (Some (mkBound k_null_key true)) (Some (mkBound k_null_key true))].

(** The key a constant probes an index column with; None when its type does not allow it. *)
Definition key_of (col : ColumnSpec) (v : Value) (double_attr : TypeAttr) : result (option IndexKey) :=
  let probe ok key_type key_val :=
    if ok : bool then k ← encode_key key_type key_val; Ok (Some k) else Ok None in
  let is_fp := bool_decide (rep (ctype col) = RepDouble) || bool_decide (rep (ctype col) = RepFloat) in
  match box v with
  | BInt _ => probe (bool_decide (rep (ctype col) = RepInt64)) (ctype col) v
  | BDouble _ => probe is_fp double_attr v
  | BFloat _ => probe (bool_decide (rep (ctype col) = RepFloat)) (ctype col) v
  | BBool _ => probe (bool_decide (rep (ctype col) = RepBool)) (ctype col) v
  | BDec _ => if is_fp then w ← cast_value v double_attr Implicit; probe true double_attr w else Ok None
  | _ => Ok None
  end.

Definition mirror (op : CmpOp) : CmpOp :=
  match op with
  | CmpEq => CmpEq | CmpNe => CmpNe | CmpLt => CmpGt | CmpLe => CmpGe | CmpGt => CmpLt | CmpGe => CmpLe
  end.

(** What a scan of a range returns ([BTreeScanner]): the keys between the bounds. *)
Definition above (l : option ScanBound) (k : IndexKey) : bool :=
  match l with
  | None => true
  | Some b => let c := key_cmp k (bkey b) in if inclusive b then c >=? 0 else c >? 0
  end.
Definition below (h : option ScanBound) (k : IndexKey) : bool :=
  match h with
  | None => true
  | Some b => let c := key_cmp k (bkey b) in if inclusive b then c <=? 0 else c <? 0
  end.
Definition in_range (r : IndexRange) (k : IndexKey) : bool := above (lo r) k && below (hi r) k.
Definition in_ranges (rs : list IndexRange) (k : IndexKey) : bool := existsb (fun r => in_range r k) rs.

(** * Key order *)
(** [key_cmp] is the sign of a comparison of integers: the value, with NULL above all. *)
Definition key_ok (k : IndexKey) : Prop := 0 <= kval k < 2 ^ 64 /\ (knull k = true -> kval k = 0).
Definition rank_of (k : IndexKey) : Z := if knull k then 2 ^ 64 else kval k.
Lemma key_cmp_rank a b : key_ok a -> key_ok b ->
  key_cmp a b = if rank_of a <? rank_of b then -1 else if rank_of b <? rank_of a then 1 else 0.
Proof.
  intros [Ha Hna] [Hb Hnb]. unfold key_cmp, rank_of.
  destruct (knull a), (knull b); cbn [Bool.eqb negb].
  - rewrite Hna, Hnb by done. done.
  - destruct (Z.ltb_spec (2 ^ 64) (kval b)); [lia|]. destruct (Z.ltb_spec (kval b) (2 ^ 64)); lia.
  - destruct (Z.ltb_spec (kval a) (2 ^ 64)); lia.
  - destruct (Z.eqb_spec (kval a) (kval b)) as [->|]; cbn [negb]; [by rewrite Z.ltb_irrefl|].
    destruct (Z.ltb_spec (kval a) (kval b)); [done|]. destruct (Z.ltb_spec (kval b) (kval a)); lia.
Qed.
Ltac by_cmp a b :=
  intros; rewrite key_cmp_rank by done;
  destruct (Z.ltb_spec (rank_of a) (rank_of b)), (Z.ltb_spec (rank_of b) (rank_of a)); cbn; lia.

(** ** Signed integers *)
Definition int_key (i : Z) : IndexKey := mkKey (Z.lxor (wrap 64 i) sign_flip) false.
Lemma lxor_high x : 0 <= x < 2 ^ 63 -> Z.lxor x sign_flip = x + 2 ^ 63.
Proof.
  intros Hx. change sign_flip with (2 ^ 63). rewrite <- Z.add_nocarry_lxor; [done|].
  apply Z.bits_inj'. intros n Hn. rewrite Z.land_spec, Z.pow2_bits_eqb, Z.bits_0 by lia.
  destruct (Z.eqb_spec 63 n) as [<-|]; [|by rewrite andb_false_r]. rewrite andb_true_r.
  destruct (decide (x = 0)) as [->|]; [by rewrite Z.bits_0|]. apply Z.bits_above_log2; [lia|]. apply Z.log2_lt_pow2; lia.
Qed.
Lemma lor_high x : 0 <= x < 2 ^ 63 -> Z.lor x sign_flip = x + 2 ^ 63.
Proof.
  intros Hx. rewrite <- lxor_high by done. apply Z.bits_inj'. intros n Hn. rewrite Z.lor_spec, Z.lxor_spec.
  change sign_flip with (2 ^ 63). rewrite Z.pow2_bits_eqb by lia. destruct (Z.eqb_spec 63 n) as [<-|]; [|by destruct (Z.testbit x n)].
  replace (Z.testbit x 63) with false; [done|]. symmetry.
  destruct (decide (x = 0)) as [->|]; [by rewrite Z.bits_0|]. apply Z.bits_above_log2; [lia|]. apply Z.log2_lt_pow2; lia.
Qed.
Lemma int_key_val i : INT64_MIN <= i <= INT64_MAX -> kval (int_key i) = i + 2 ^ 63.
Proof.
  intros Hi. unfold INT64_MIN, INT64_MAX in Hi. unfold int_key, wrap. cbn [kval].
  destruct (Z_lt_ge_dec i 0).
  - replace (i mod 2 ^ 64) with (i + 2 ^ 63 + 2 ^ 63).
    + rewrite <- (lxor_high (i + 2 ^ 63)) by lia. rewrite Z.lxor_assoc, Z.lxor_nilpotent, Z.lxor_0_r. done.
    + replace i with (i + 2 ^ 64 - 1 * 2 ^ 64) at 2 by lia. rewrite Zminus_mod, Z.mod_mul, Z.sub_0_r, Z.mod_mod by lia.
      rewrite Z.mod_small; lia.
  - rewrite Z.mod_small, lxor_high by lia. done.
Qed.
Lemma int_key_ok i : INT64_MIN <= i <= INT64_MAX -> key_ok (int_key i).
Proof. intros Hi. split; [|done]. rewrite int_key_val by done. unfold INT64_MIN, INT64_MAX in Hi. lia. Qed.
Lemma int_key_cmp i j : INT64_MIN <= i <= INT64_MAX -> INT64_MIN <= j <= INT64_MAX ->
  key_cmp (int_key i) (int_key j) = if i <? j then -1 else if i >? j then 1 else 0.
Proof.
  intros Hi Hj. rewrite key_cmp_rank by (by apply int_key_ok).
  change (rank_of (int_key i)) with (kval (int_key i)). change (rank_of (int_key j)) with (kval (int_key j)).
  rewrite !int_key_val by done. rewrite Z.gtb_ltb.
  destruct (Z.ltb_spec (i + 2 ^ 63) (j + 2 ^ 63)), (Z.ltb_spec i j); try lia.
  destruct (Z.ltb_spec (j + 2 ^ 63) (i + 2 ^ 63)), (Z.ltb_spec j i); lia.
Qed.

(** ** Floating point *)
Lemma double_key_val x : float_ok binary64 x ->
  kval (double_key x) = let m := signed_mag binary64 x in if m <? 0 then 2 ^ 63 - 1 + m else 2 ^ 63 + m.
Proof.
  intros [Hr Hf]. change (width_of binary64) with 64 in Hr. unfold double_key.
  rewrite feq_finite by done. change (signed_mag binary64 0) with 0.
  cbn [kval]. cbv zeta. destruct (Z.eqb_spec (signed_mag binary64 x) 0) as [->|Hnz]; [done|].
  rewrite Z.shiftr_div_pow2 by lia. unfold signed_mag in *. change (2 ^ (mb binary64 + eb binary64)) with (2 ^ 63) in *.
  unfold sign_of, mag_of in *. change (2 ^ (mb binary64 + eb binary64)) with (2 ^ 63) in *.
  destruct (Z.leb_spec (2 ^ 63) x) as [Hx|Hx].
  - assert (x / 2 ^ 63 = 1) as -> by (symmetry; apply (Z.div_unique _ _ _ (x - 2 ^ 63)); lia). cbn [Z.eqb negb].
    assert (x mod 2 ^ 63 = x - 2 ^ 63) as -> by (symmetry; apply (Z.mod_unique _ _ 1); lia).
    assert (wrap 64 (Z.lnot x) = 2 ^ 64 - 1 - x) as ->.
    { unfold wrap, Z.lnot. symmetry. apply (Z.mod_unique _ _ (-1)); lia. }
    assert (x <> 2 ^ 63) by (intros ->; apply Hnz; reflexivity).
    destruct (Z.ltb_spec (- (x - 2 ^ 63)) 0); lia.
  - rewrite Z.div_small, Z.mod_small by lia. cbn [Z.eqb negb]. rewrite lor_high by lia.
    destruct (Z.ltb_spec x 0); lia.
Qed.
Lemma double_mag_bound x : float_ok binary64 x -> Z.abs (signed_mag binary64 x) < 2 ^ 63.
Proof.
  intros [Hr _]. unfold signed_mag, mag_of. pose proof (Z.mod_pos_bound x (2 ^ (mb binary64 + eb binary64)) ltac:(done)).
  change (2 ^ (mb binary64 + eb binary64)) with (2 ^ 63) in *. destruct (sign_of binary64 x); lia.
Qed.
Lemma double_key_ok x : float_ok binary64 x -> key_ok (double_key x).
Proof.
  intros Hx. split; [|done]. rewrite double_key_val by done. pose proof (double_mag_bound x Hx). cbv zeta.
  destruct (Z.ltb_spec (signed_mag binary64 x) 0); lia.
Qed.
Lemma double_key_cmp x y : float_ok binary64 x -> float_ok binary64 y ->
  key_cmp (double_key x) (double_key y) = if flt binary64 x y then -1 else if fgt binary64 x y then 1 else 0.
Proof.
  intros Hx Hy. rewrite key_cmp_rank by (by apply double_key_ok).
  change (fgt binary64 x y) with (flt binary64 y x). destruct Hx as [Hrx Hfx], Hy as [Hry Hfy].
  rewrite !flt_finite by done.
  change (rank_of (double_key x)) with (kval (double_key x)). change (rank_of (double_key y)) with (kval (double_key y)).
  rewrite !double_key_val by done. cbv zeta.
  set (a := signed_mag binary64 x). set (b := signed_mag binary64 y).
  destruct (Z.ltb_spec a 0), (Z.ltb_spec b 0), (Z.ltb_spec a b), (Z.ltb_spec b a);
    repeat match goal with |- context [?u <? ?v] => destruct (Z.ltb_spec u v) end; lia.
Qed.

(** * Ranges *)
Definition bound_ok (b : option ScanBound) : Prop := match b with Some b => key_ok (bkey b) | None => True end.
Definition range_ok (r : IndexRange) : Prop := bound_ok (lo r) /\ bound_ok (hi r).
(** How many of the ranges hold a key: a scan visits the entry that often. *)
Definition range_count (rs : list IndexRange) (k : IndexKey) : nat := length (List.filter (fun r => in_range r k) rs).

Lemma tighter_lo_ok a b : bound_ok a -> bound_ok b -> bound_ok (tighter_lo a b).
Proof. destruct a, b; simpl; try done. by repeat case_match. Qed.
Lemma tighter_hi_ok a b : bound_ok a -> bound_ok b -> bound_ok (tighter_hi a b).
Proof. destruct a, b; simpl; try done. by repeat case_match. Qed.

(** Comparisons by rank, as booleans over [Z]. *)
Lemma key_cmp_gt a b : key_ok a -> key_ok b -> (key_cmp a b >? 0) = (rank_of b <? rank_of a).
Proof. by_cmp a b. Qed.
Lemma key_cmp_ge a b : key_ok a -> key_ok b -> (key_cmp a b >=? 0) = (rank_of b <=? rank_of a).
Proof. by_cmp a b. Qed.
Lemma key_cmp_lt a b : key_ok a -> key_ok b -> (key_cmp a b <? 0) = (rank_of a <? rank_of b).
Proof. by_cmp a b. Qed.
Lemma key_cmp_le a b : key_ok a -> key_ok b -> (key_cmp a b <=? 0) = (rank_of a <=? rank_of b).
Proof. by_cmp a b. Qed.
Lemma key_cmp_eq a b : key_ok a -> key_ok b -> (key_cmp a b =? 0) = (rank_of a =? rank_of b).
Proof. by_cmp a b. Qed.
Ltac by_rank :=
  rewrite ?key_cmp_gt, ?key_cmp_ge, ?key_cmp_lt, ?key_cmp_le, ?key_cmp_eq by assumption;
  repeat match goal with
  | |- context [rank_of ?k] => let r := fresh "r" in set (r := rank_of k) in *; clearbody r
  end;
  repeat match goal with
  | |- context [if ?a =? ?b then _ else _] => destruct (Z.eqb_spec a b); cbn
  | |- context [if negb (?a =? ?b) then _ else _] => destruct (Z.eqb_spec a b); cbn
  | |- context [if ?a <? ?b then _ else _] => destruct (Z.ltb_spec a b); cbn
  end.

(** The tighter of two lower bounds admits what both admit. *)
Lemma above_rank b k : key_ok (bkey b) -> key_ok k ->
  above (Some b) k = if inclusive b then rank_of (bkey b) <=? rank_of k else rank_of (bkey b) <? rank_of k.
Proof. intros Hb Hk. unfold above. by rewrite key_cmp_ge, key_cmp_gt. Qed.
Lemma below_rank b k : key_ok (bkey b) -> key_ok k ->
  below (Some b) k = if inclusive b then rank_of k <=? rank_of (bkey b) else rank_of k <? rank_of (bkey b).
Proof. intros Hb Hk. unfold below. by rewrite key_cmp_le, key_cmp_lt. Qed.
Lemma above_tighter a b k : bound_ok a -> bound_ok b -> key_ok k ->
  above (tighter_lo a b) k = above a k && above b k.
Proof.
  destruct a as [a|], b as [b|]; simpl bound_ok; intros Ha Hb Hk; try (simpl; by rewrite ?andb_true_r).
  rewrite (above_rank a), (above_rank b) by done. unfold tighter_lo. cbv zeta. rewrite key_cmp_eq, key_cmp_gt by done.
  destruct (Z.eqb_spec (rank_of (bkey a)) (rank_of (bkey b))) as [E|E]; cbn [negb].
  - destruct (inclusive a) eqn:Ea; rewrite above_rank by done; rewrite ?Ea, E; destruct (inclusive b); lia.
  - destruct (Z.ltb_spec (rank_of (bkey b)) (rank_of (bkey a))); rewrite above_rank by done;
      destruct (inclusive a), (inclusive b); lia.
Qed.
Lemma below_tighter a b k : bound_ok a -> bound_ok b -> key_ok k ->
  below (tighter_hi a b) k = below a k && below b k.
Proof.
  destruct a as [a|], b as [b|]; simpl bound_ok; intros Ha Hb Hk; try (simpl; by rewrite ?andb_true_r).
  rewrite (below_rank a), (below_rank b) by done. unfold tighter_hi. cbv zeta. rewrite key_cmp_eq, key_cmp_lt by done.
  destruct (Z.eqb_spec (rank_of (bkey a)) (rank_of (bkey b))) as [E|E]; cbn [negb].
  - destruct (inclusive a) eqn:Ea; rewrite below_rank by done; rewrite ?Ea, E; destruct (inclusive b); lia.
  - destruct (Z.ltb_spec (rank_of (bkey a)) (rank_of (bkey b))); rewrite below_rank by done;
      destruct (inclusive a), (inclusive b); lia.
Qed.

Lemma range_meet_in a b k : range_ok a -> range_ok b -> key_ok k ->
  match range_meet a b with
  | Some r => range_ok r /\ in_range r k = in_range a k && in_range b k
  | None => in_range a k && in_range b k = false
  end.
Proof.
  intros [Hla Hha] [Hlb Hhb] Hk. unfold range_meet. cbv zeta. cbn [lo hi].
  pose proof (tighter_lo_ok _ _ Hla Hlb) as Hl. pose proof (tighter_hi_ok _ _ Hha Hhb) as Hh.
  assert (in_range a k && in_range b k = above (tighter_lo (lo a) (lo b)) k && below (tighter_hi (hi a) (hi b)) k) as ->.
  { unfold in_range. rewrite above_tighter, below_tighter by done.
    destruct (above (lo a) k), (above (lo b) k), (below (hi a) k), (below (hi b) k); done. }
  destruct (tighter_lo (lo a) (lo b)) as [l|] eqn:El; [|by split].
  destruct (tighter_hi (hi a) (hi b)) as [h|] eqn:Eh; [|by split].
  destruct (_ || _) eqn:Ec; [|by split]. simpl in Hl, Hh. rewrite key_cmp_gt, key_cmp_eq in Ec by done.
  rewrite above_rank, below_rank by done. destruct (inclusive l), (inclusive h); cbn in Ec; lia.
Qed.
Lemma range_count_app xs ys k : range_count (xs ++ ys) k = (range_count xs k + range_count ys k)%nat.
Proof. unfold range_count. by rewrite List.filter_app, length_app. Qed.
Lemma range_count_cons r rs k : range_count (r :: rs) k = ((if in_range r k then 1 else 0) + range_count rs k)%nat.
Proof. unfold range_count. cbn [List.filter]. by destruct (in_range r k). Qed.
Lemma range_count_meet1 x ys k : range_ok x -> Forall range_ok ys -> key_ok k ->
  Forall range_ok (omap (range_meet x) ys) /\
  range_count (omap (range_meet x) ys) k = if in_range x k then range_count ys k else 0%nat.
Proof.
  intros Hx Hys Hk. induction Hys as [|y ys Hy Hys [IHo IH]]; [split; [constructor|by destruct (in_range x k)]|].
  pose proof (range_meet_in x y k Hx Hy Hk) as Hm. simpl omap. change (list_omap _ _ (range_meet x) ys) with (omap (range_meet x) ys).
  rewrite range_count_cons. destruct (range_meet x y) as [r|].
  - destruct Hm as [Hr Hin]. split; [by constructor|]. rewrite range_count_cons, IH, Hin.
    by destruct (in_range x k), (in_range y k).
  - split; [done|]. rewrite IH. destruct (in_range x k); [|done]. cbn in Hm. by rewrite Hm.
Qed.
(** The ranges of an intersection are visited as often as both sides' ranges are. *)
Lemma range_count_meet xs ys k : Forall range_ok xs -> Forall range_ok ys -> key_ok k ->
  Forall range_ok (ranges_meet xs ys) /\ range_count (ranges_meet xs ys) k = (range_count xs k * range_count ys k)%nat.
Proof.
  intros Hxs Hys Hk. induction Hxs as [|x xs Hx Hxs [IHo IH]]; [split; [constructor|done]|].
  destruct (range_count_meet1 x ys k Hx Hys Hk) as [Ho1 H1].
  change (ranges_meet (x :: xs) ys) with (omap (range_meet x) ys ++ ranges_meet xs ys).
  rewrite range_count_app, range_count_cons, H1, IH. split; [by apply Forall_app|]. destruct (in_range x k); lia.
Qed.

(** The ranges of a comparison: exactly the non-NULL keys that compare so, each once. *)
Lemma null_key_ok : key_ok k_null_key.
Proof. done. Qed.
Lemma cmp_ranges_count op k x : key_ok k -> knull k = false -> key_ok x ->
  Forall range_ok (cmp_ranges op k) /\
  range_count (cmp_ranges op k) x = if negb (knull x) && cmp_holds op (key_cmp x k) then 1%nat else 0%nat.
Proof.
  intros Hk Hkn Hx. pose proof null_key_ok as Hn.
  split; [destruct op; repeat constructor; try done; apply Hk|].
  assert (rank_of k < 2 ^ 64) as Hrk by (unfold rank_of; rewrite Hkn; apply Hk).
  assert (rank_of k_null_key = 2 ^ 64) as Hrn by done.
  assert ((knull x = true /\ rank_of x = 2 ^ 64) \/ (knull x = false /\ rank_of x < 2 ^ 64)) as Hrx.
  { unfold rank_of. destruct (knull x) eqn:E; [by left|right]. split; [done|]. apply Hx. }
  unfold range_count, cmp_ranges. destruct op; cbn [List.filter cmp_holds]; unfold in_range; cbn [lo hi];
    rewrite ?above_rank, ?below_rank, ?key_cmp_eq, ?key_cmp_lt, ?key_cmp_le, ?key_cmp_gt, ?key_cmp_ge by done;
    cbn [above below inclusive bkey]; rewrite ?Hrn;
    repeat match goal with |- context [?a <=? ?b] => destruct (Z.leb_spec a b) | |- context [?a <? ?b] => destruct (Z.ltb_spec a b)
      | |- context [?a =? ?b] => destruct (Z.eqb_spec a b) end; cbn;
    destruct Hrx as [[-> ?]|[-> ?]]; cbn; try done; lia.
Qed.
Lemma null_ranges_count n x : key_ok x ->
  Forall range_ok (null_ranges n) /\
  range_count (null_ranges n) x = if (if n then negb (knull x) else knull x) then 1%nat else 0%nat.
Proof.
  intros Hx. pose proof null_key_ok as Hn. split; [destruct n; repeat constructor; done|].
  assert (rank_of k_null_key = 2 ^ 64) as Hrn by done.
  assert ((knull x = true /\ rank_of x = 2 ^ 64) \/ (knull x = false /\ rank_of x < 2 ^ 64)) as Hrx.
  { unfold rank_of. destruct (knull x) eqn:E; [by left|right]. split; [done|]. apply Hx. }
  unfold range_count, null_ranges. destruct n; cbn [List.filter]; unfold in_range; cbn [lo hi];
    rewrite ?above_rank, ?below_rank by done; cbn [above below inclusive bkey]; rewrite Hrn;
    repeat match goal with |- context [?a <=? ?b] => destruct (Z.leb_spec a b) | |- context [?a <? ?b] => destruct (Z.ltb_spec a b) end; cbn;
    destruct Hrx as [[-> ?]|[-> ?]]; cbn; try done; lia.
Qed.

(** * Keys of values *)
(** The column types an index accepts: a fixed-width number or a boolean. *)
Definition indexable (t : TypeAttr) : Prop := t = kInt \/ t = kBigint \/ t = kFloat \/ t = kDouble \/ t = kBool.

Lemma encode_key_null t v : is_null v = true -> encode_key t v = Ok k_null_key.
Proof. unfold is_null, value_is_null, encode_key. by destruct (box v). Qed.
Lemma encode_key_value t v : indexable t -> value_ok t v -> is_null v = false ->
  exists k, encode_key t v = Ok k /\ key_ok k /\ knull k = false.
Proof.
  intros Ht Hv Hn. destruct (value_ok_cases _ _ Hv Hn) as (_ & Hr & Hb & _). unfold encode_key.
  destruct Ht as [->|[->|[->|[->| ->]]]]; destruct (box v); try done; rewrite decide_False by done; rewrite decide_True by done.
  - eexists. split; [done|]. split; [by apply int_key_ok|done].
  - eexists. split; [done|]. split; [by apply int_key_ok|done].
  - eexists. split; [done|]. split; [by apply double_key_ok, widen_ok|done].
  - eexists. split; [done|]. split; [by apply double_key_ok|done].
  - eexists. split; [done|]. split; [|done]. destruct b; done.
Qed.
Lemma encode_key_ok t v : indexable t -> value_ok t v ->
  exists k, encode_key t v = Ok k /\ key_ok k /\ knull k = is_null v.
Proof.
  intros Ht Hv. destruct (is_null v) eqn:E.
  - exists k_null_key. split; [by apply encode_key_null|]. by split.
  - by apply encode_key_value.
Qed.

(** The double a numeric value compares as. *)
Lemma box_f64_double t d : rep t = RepDouble -> box_f64 (mkVal t (BDouble d)) = Ok d.
Proof.
  intros Ht. unfold box_f64, to_double, cast_value. cbn [value_is_null box vtype]. rewrite Ht. cbn [kCastTable rep kDouble].
  rewrite decide_False by (intros (? & _); discriminate). done.
Qed.
Lemma box_f64_float t f : rep t = RepFloat -> box_f64 (mkVal t (BFloat f)) = Ok (Ieee.f32_to_f64 f).
Proof.
  intros Ht. unfold box_f64, to_double, cast_value. cbn [value_is_null box vtype]. rewrite Ht. cbn [kCastTable rep kDouble].
  rewrite decide_False by (intros (? & _); discriminate). done.
Qed.

(** A probe: the constant [v], met by the column value [x], compares as its key does. *)
Definition probes (v x : Value) (kc kx : IndexKey) : Prop :=
  key_ok kc /\ knull kc = false /\ value_cmp x v = Ok (key_cmp kx kc) /\ value_cmp v x = Ok (key_cmp kc kx).
Lemma num_family t b : type_ok t -> rep t = box_rep b ->
  match b with BInt _ | BDouble _ | BFloat _ | BDec _ => family t = FamNum | BBool _ => family t = FamBool | _ => True end.
Proof.
  intros [->|Ht] Hr; [by destruct b|].
  destruct (seed_attr_cases t Ht) as [->|[->|[->|[->|[->|[->|[->| ->]]]]]]]; by destruct b.
Qed.
Lemma value_cmp_int tx tv i j : family tx = FamNum -> family tv = FamNum -> INT64_MIN <= i <= INT64_MAX -> INT64_MIN <= j <= INT64_MAX ->
  value_cmp (mkVal tx (BInt i)) (mkVal tv (BInt j)) = Ok (key_cmp (int_key i) (int_key j)).
Proof. intros Hx Hv Hi Hj. rewrite int_key_cmp by done. unfold value_cmp. cbn. by rewrite Hx, Hv. Qed.
Lemma value_cmp_f64 x v dx dv : is_null x = false -> is_null v = false ->
  family (vtype x) = FamNum -> family (vtype v) = FamNum -> box_f64 x = Ok dx -> box_f64 v = Ok dv ->
  (match box x with BDouble _ | BFloat _ => True | _ => False end \/ match box v with BDouble _ | BFloat _ => True | _ => False end) ->
  float_ok binary64 dx -> float_ok binary64 dv ->
  value_cmp x v = Ok (key_cmp (double_key dx) (double_key dv)).
Proof.
  intros Hnx Hnv Hfx Hfv Hx Hv Hfl Hox Hov. rewrite double_key_cmp by done. unfold value_cmp. rewrite Hnx, Hnv, Hfx, Hfv. cbn [orb].
  assert ((l ← box_f64 x; r ← box_f64 v; Ok (if flt binary64 l r then -1 else if fgt binary64 l r then 1 else 0)) =
    Ok (if flt binary64 dx dv then -1 else if fgt binary64 dx dv then 1 else 0)) as H by (by rewrite Hx; cbn [mbind result_bind]; rewrite Hv).
  destruct (box x), (box v); try done; by destruct Hfl.
Qed.

Lemma key_of_probes col v x kc kx tv :
  indexable (ctype col) -> value_ok (ctype col) x -> is_null x = false -> type_ok tv -> value_ok tv v -> is_null v = false ->
  key_of col v kDouble = Ok (Some kc) -> encode_key (ctype col) x = Ok kx -> probes v x kc kx.
Proof.
  intros Hcol Hx Hnx Htv Hv Hnv Hkc Hkx.
  destruct (value_ok_cases _ _ Hx Hnx) as (Evx & Erx & Hbx & _).
  destruct (value_ok_cases _ _ Hv Hnv) as (Evv & Erv & Hbv & _).
  pose proof (num_family _ _ Htv Erv) as Hfv.
  assert (type_ok (ctype col)) as Htc by (right; destruct Hcol as [->|[->|[->|[->| ->]]]]; solve_seed).
  pose proof (num_family _ _ Htc Erx) as Hfx. rewrite <- Evv in Hfv. rewrite <- Evx in Hfx.
  assert (forall dv, box_f64 v = Ok dv -> float_ok binary64 dv -> kc = double_key dv ->
    rep (ctype col) = RepDouble \/ rep (ctype col) = RepFloat -> family (vtype v) = FamNum -> probes v x kc kx) as Hfp.
  { intros dv Hdv Hov -> Hrep Hfam.
    assert (exists dx, box_f64 x = Ok dx /\ float_ok binary64 dx /\ kx = double_key dx /\
      match box x with BDouble _ | BFloat _ => True | _ => False end) as (dx & Hdx & Hox & -> & Hbox).
    { unfold encode_key in Hkx. destruct x as [tx bx]. cbn [vtype box] in *. subst tx.
      destruct Hrep as [Hrep|Hrep]; rewrite Hrep in *; destruct bx as [| | |d|f| |]; try done;
        rewrite decide_False in Hkx by done; rewrite decide_True in Hkx by done; injection Hkx as <-.
      - exists d. split; [by apply box_f64_double|done].
      - exists (Ieee.f32_to_f64 f). split; [by apply box_f64_float|]. split; [by apply widen_ok|done]. }
    assert (family (vtype x) = FamNum) as Hfamx by (destruct (box x); done).
    split; [by apply double_key_ok|]. split; [done|].
    split; apply value_cmp_f64; eauto. }
  destruct v as [tv' bv]. cbn [vtype box] in *. subst tv'. unfold key_of in Hkc. cbn [box] in Hkc.
  destruct bv as [|b|i|d|f|s|d]; try done.
  - clear Hfp. destruct (bool_decide (rep (ctype col) = RepBool)) eqn:Eb; [|done]. apply bool_decide_eq_true in Eb.
    destruct x as [tx bx]. cbn [vtype box] in *. subst tx. rewrite Eb in Erx. destruct bx; try done.
    unfold encode_key in *. cbn [box] in *. rewrite Eb in *. cbn in Hkc, Hkx. injection Hkc as <-. injection Hkx as <-.
    split; [by destruct b|]. split; [done|]. unfold value_cmp. cbn. rewrite Hfx, Hfv. by destruct b, b0.
  - clear Hfp. destruct (bool_decide (rep (ctype col) = RepInt64)) eqn:Eb; [|done]. apply bool_decide_eq_true in Eb.
    destruct x as [tx bx]. cbn [vtype box] in *. subst tx. rewrite Eb in Erx. destruct bx; try done.
    unfold encode_key in *. cbn [box] in *. rewrite Eb in *. cbn in Hkc, Hkx. injection Hkc as <-. injection Hkx as <-.
    split; [by apply int_key_ok|]. split; [done|]. split; by apply value_cmp_int.
  - destruct (bool_decide (rep (ctype col) = RepDouble) || _) eqn:Eb; [|done].
    apply orb_true_iff in Eb as [Eb|Eb]; apply bool_decide_eq_true in Eb; cbn in Hkc; injection Hkc as <-;
      apply (Hfp d); eauto using box_f64_double.
  - destruct (bool_decide (rep (ctype col) = RepFloat)) eqn:Eb; [|done]. apply bool_decide_eq_true in Eb.
    unfold encode_key in Hkc. cbn [box] in Hkc. rewrite Eb in Hkc. cbn in Hkc. injection Hkc as <-.
    apply (Hfp (Ieee.f32_to_f64 f)); eauto using box_f64_float. by apply widen_ok.
  - destruct (bool_decide (rep (ctype col) = RepDouble) || _) eqn:Eb; [|done].
    apply bind_ok in Hkc as (w & Hw & Hk).
    assert (implicit_ok tv kDouble = true) as Hi.
    { unfold implicit_ok. rewrite Erv. cbn [box_rep rep kDouble kCastTable]. by rewrite bool_decide_false by (intros (? & _); discriminate). }
    pose proof (cast_implicit_safe tv (mkVal tv (BDec d)) kDouble Hv Hnv Hi) as Hs. rewrite Hw in Hs.
    destruct Hs as (Hwt & Hwb & Hwr). destruct w as [wt wb]. cbn [vtype box] in *. subst wt. destruct wb as [| | |y| | |]; try done.
    unfold encode_key in Hk. cbn in Hk. injection Hk as <-. apply (Hfp y); [|done|done| |done].
    + unfold box_f64, to_double. by rewrite Hw.
    + by apply orb_true_iff in Eb as [Eb|Eb]; apply bool_decide_eq_true in Eb; [left|right].
Qed.

(** * The properties *)
Lemma key_cmp_opp a b : key_ok a -> key_ok b -> key_cmp b a = - key_cmp a b.
Proof.
  intros Ha Hb. rewrite !key_cmp_rank by done.
  destruct (Z.ltb_spec (rank_of a) (rank_of b)), (Z.ltb_spec (rank_of b) (rank_of a)); lia.
Qed.
Lemma indexable_seed t : indexable t -> seed_attr t.
Proof. intros [->|[->|[->|[->| ->]]]]; solve_seed. Qed.
Lemma key_of_self n t v k len nn sc : indexable t -> value_ok t v -> is_null v = false -> encode_key t v = Ok k ->
  key_of (mkCol n t len nn sc) v kDouble = Ok (Some k).
Proof.
  intros Ht Hv Hn Hk. destruct (value_ok_cases _ _ Hv Hn) as (_ & Hr & _). unfold key_of. cbn [ctype].
  destruct Ht as [->|[->|[->|[->| ->]]]]; unfold encode_key in *; destruct (box v); try done; cbn in *; by rewrite ?Hk.
Qed.

Lemma encode_key_cmp t v w kv kw :
  indexable t -> value_ok t v -> value_ok t w -> encode_key t v = Ok kv -> encode_key t w = Ok kw ->
  value_cmp v w = Ok (key_cmp kv kw).
Proof.
  intros Ht Hv Hw Hkv Hkw. destruct (is_null v) eqn:Ev, (is_null w) eqn:Ew.
  - rewrite encode_key_null in Hkv, Hkw by done. injection Hkv as <-. injection Hkw as <-. unfold value_cmp. by rewrite Ev, Ew.
  - rewrite encode_key_null in Hkv by done. injection Hkv as <-.
    destruct (encode_key_value t w Ht Hw Ew) as (k & Hk & _ & Hn). rewrite Hk in Hkw. injection Hkw as <-.
    unfold value_cmp, key_cmp. rewrite Ev, Ew, Hn. done.
  - rewrite encode_key_null in Hkw by done. injection Hkw as <-.
    destruct (encode_key_value t v Ht Hv Ev) as (k & Hk & _ & Hn). rewrite Hk in Hkv. injection Hkv as <-.
    unfold value_cmp, key_cmp. rewrite Ev, Ew, Hn. done.
  - pose proof (key_of_self "c" t w kw 0 false 0 Ht Hw Ew Hkw) as Hc.
    by apply (key_of_probes (mkCol "c" t 0 false 0) w v kw kv t Ht Hv Ev (or_intror (indexable_seed t Ht)) Hw Ew Hc Hkv).
Qed.
(** C32. Index keys keep the order of values: on a type an index accepts, two values (NULL included, above all
    others) compare in the evaluator exactly as their keys do, so -0.0 and 0.0 share a key and
    floats are ordered as the doubles they widen to. *)
Theorem encode_key_order t v w kv kw :
  indexable t -> value_ok t v -> value_ok t w -> encode_key t v = Ok kv -> encode_key t w = Ok kw ->
  value_cmp v w = Ok (key_cmp kv kw).
Proof. apply encode_key_cmp. Qed.
Lemma float_val_ok f : float_ok binary32 f -> value_ok kFloat (float_val kFloat f).
Proof. intros Hf. right. by split_and!. Qed.
Lemma encode_key_order_witness :
  value_cmp (float_val kFloat 0x80000000) (float_val kFloat 0) = Ok 0 /\
  value_cmp (float_val kFloat 0xbf800000) null_val = Ok (-1).
Proof.
  assert (forall f, float_ok binary32 f -> value_ok kFloat (float_val kFloat f)) as H by (intros f Hf; by apply float_val_ok).
  assert (indexable kFloat) as Hi by (do 2 right; by left).
  split.
  - apply (encode_key_order kFloat (float_val kFloat 0x80000000) (float_val kFloat 0) (mkKey (2 ^ 63) false) (mkKey (2 ^ 63) false) Hi);
      [apply H; split; [split; vm_compute; congruence|done]..|by vm_compute|by vm_compute].
  - apply (encode_key_order kFloat (float_val kFloat 0xbf800000) null_val (mkKey 0x400fffffffffffff false) k_null_key Hi);
      [apply H; split; [split; vm_compute; congruence|done]|by left|by vm_compute|by vm_compute].
Defined.

Lemma compare_ranges_eq col op v x kc kx tv :
  indexable (ctype col) -> value_ok (ctype col) x -> type_ok tv -> value_ok tv v -> is_null v = false ->
  key_of col v kDouble = Ok (Some kc) -> encode_key (ctype col) x = Ok kx ->
  (forall o, Forall range_ok (cmp_ranges o kc)) /\
  (exists r, eval_compare_values op x v = Ok r /\ range_count (cmp_ranges op kc) kx = if truth r then 1%nat else 0%nat) /\
  (exists r, eval_compare_values op v x = Ok r /\ range_count (cmp_ranges (mirror op) kc) kx = if truth r then 1%nat else 0%nat).
Proof.
  intros Hcol Hx Htv Hv Hnv Hkc Hkx.
  destruct (encode_key_ok (ctype col) x Hcol Hx) as (k & Hk & Hok & Hnull). rewrite Hk in Hkx. injection Hkx as ->.
  assert (exists y, value_ok (ctype col) y /\ is_null y = false /\ (is_null x = false -> y = x)) as (y & Hy & Hny & Hxy).
  { destruct (is_null x) eqn:E; [|by exists x]. destruct Hcol as [->|[->|[->|[->| ->]]]].
    - exists (int_val kInt 0). split; [by right|done].
    - exists (int_val kBigint 0). split; [by right|done].
    - exists (float_val kFloat 0). split; [by right|done].
    - exists (double_val kDouble 0). split; [by right|done].
    - exists (bool_val kBool false). split; [by right|done]. }
  destruct (encode_key_value (ctype col) y Hcol Hy Hny) as (ky & Hky & _ & _).
  destruct (key_of_probes col v y kc ky tv Hcol Hy Hny Htv Hv Hnv Hkc Hky) as (Hoc & Hnc & Hc1 & Hc2).
  split; [intros o; by apply (cmp_ranges_count o kc kx)|].
  unfold eval_compare_values. rewrite Hnv, orb_false_r. cbn [orb].
  destruct (cmp_ranges_count op kc kx Hoc Hnc Hok) as [_ ->], (cmp_ranges_count (mirror op) kc kx Hoc Hnc Hok) as [_ ->].
  rewrite Hnull. destruct (is_null x) eqn:E; [split; by eexists|].
  rewrite (Hxy eq_refl) in *. rewrite Hk in Hky. injection Hky as <-. rewrite Hc1, Hc2. cbn [mbind result_bind].
  rewrite (key_cmp_opp kx kc) by done.
  split; eexists; (split; [reflexivity|]); unfold truth; cbn.
  - by destruct (cmp_holds op (key_cmp kx kc)).
  - assert (cmp_holds (mirror op) (key_cmp kx kc) = cmp_holds op (- key_cmp kx kc)) as -> by (destruct op; simpl; lia).
    by destruct (cmp_holds op _).
Qed.
(** C33. The ranges of a comparison are exact: for an index column's value [x] (NULL included) and a constant [v]
    the planner accepts as a probe, the ranges of [col op v] hold the key of [x], in exactly one range, when the
    comparison is true of [x], and in none otherwise; and a constant on the left is read through the
    mirrored operator. *)
Theorem compare_ranges_exact col op v x kc kx tv :
  indexable (ctype col) -> value_ok (ctype col) x -> type_ok tv -> value_ok tv v -> is_null v = false ->
  key_of col v kDouble = Ok (Some kc) -> encode_key (ctype col) x = Ok kx ->
  (exists r, eval_compare_values op x v = Ok r /\ range_count (cmp_ranges op kc) kx = if truth r then 1%nat else 0%nat) /\
  (exists r, eval_compare_values op v x = Ok r /\ range_count (cmp_ranges (mirror op) kc) kx = if truth r then 1%nat else 0%nat).
Proof. intros. by eapply compare_ranges_eq. Qed.
Lemma compare_ranges_exact_witness :
  let c := mkCol "c" kFloat 0 false 0 in
  (exists r, eval_compare_values CmpNe null_val (numeric_val kNumeric 25 1) = Ok r /\
     range_count (cmp_ranges CmpNe (double_key 0x4004000000000000)) k_null_key = if truth r then 1%nat else 0%nat) /\
  (exists r, eval_compare_values CmpNe (numeric_val kNumeric 25 1) null_val = Ok r /\
     range_count (cmp_ranges CmpNe (double_key 0x4004000000000000)) k_null_key = if truth r then 1%nat else 0%nat).
Proof.
  intros c. apply (compare_ranges_exact c CmpNe (numeric_val kNumeric 25 1) null_val (double_key 0x4004000000000000) k_null_key kNumeric);
    try (by vm_compute); [do 2 right; by left|by left|right; solve_seed|right; by split_and!].
Defined.

(** Intersecting the ranges of the conditions on one column: a key lies in as many ranges of the
    intersection as the product of its counts in both sides, so ranges that hold each key at most once
    keep doing so, and exactly the keys both sides hold remain. *)
Theorem ranges_meet_exact xs ys k :
  Forall range_ok xs -> Forall range_ok ys -> key_ok k ->
  range_count (ranges_meet xs ys) k = (range_count xs k * range_count ys k)%nat.
Proof. intros Hxs Hys Hk. by apply range_count_meet. Qed.
Lemma ranges_meet_exact_witness :
  range_count (ranges_meet (cmp_ranges CmpNe (int_key 3)) (cmp_ranges CmpGe (int_key 3))) (int_key 4) = 1%nat.
Proof.
  rewrite ranges_meet_exact; [by vm_compute|..].
  - by apply (cmp_ranges_count CmpNe (int_key 3) (int_key 4)); [apply int_key_ok|..|apply int_key_ok].
  - by apply (cmp_ranges_count CmpGe (int_key 3) (int_key 4)); [apply int_key_ok|..|apply int_key_ok].
  - by apply int_key_ok.
Defined.
