(* ===== verification/Plan.v ===== *)
(** The plan layer: bound statements (src/analyzer/bound.h), plan trees (src/planner/plan.h), the
    translation between them (src/planner/planner.cpp), and the optimiser passes over plan trees:
    constant folding (const_fold.cpp), pruning of constant filters (filter_prune.cpp) and index
    selection (index_select.cpp). *)
From S2P Require Import Prelude Types Ieee Finite Text Cast Decimal Expr Typing Fold Key.

(** * Data *)
Record TableRef := mkTableRef { tr_schema : string; tr_table : string }.
Record TableHandle := mkHandle { meta : TableMeta; display : string }.
Record IndexEntry := mkIndex { ix_name : string; col_ordinal : nat; ix_file_id : Z; ix_row_ref : RowRef }.

(** A projected column: [pc_expr = None] is a column of the row, taken as it is. *)
Record ProjCol := mkProj { pc_expr : option BoundExpr; pc_name : string; pc_col_idx : nat }.
(** A sort key: an output column, or an expression over the row. *)
Record BoundOrderItem := mkOrder { desc : bool; out_idx : nat; o_expr : option BoundExpr }.
Record BoundUpdateItem := mkAssign { ua_col_idx : nat; ua_value : BoundExpr }.

Inductive BoundStmt :=
| BoundCreateTable (table : TableRef) (cols : list ColumnSpec)
| BoundDropTable (table : TableHandle)
| BoundCreateSchema (schema : string)
| BoundDropSchema (schema : string)
| BoundCreateIndex (table : TableHandle) (index : string) (col_ordinal : nat)
| BoundDropIndex (table : TableHandle) (index : string)
| BoundInsert (table : TableHandle) (rows : list (list BoundExpr))
| BoundDelete (table : TableHandle) (where_ : option BoundExpr)
| BoundUpdate (table : TableHandle) (assigns : list BoundUpdateItem) (where_ : option BoundExpr)
| BoundSelect (table : TableHandle) (projs : list ProjCol) (where_ : option BoundExpr)
    (orders : list BoundOrderItem) (sort_on_output : bool)
| BoundSelectNoFrom (projs : list ProjCol) (where_ : option BoundExpr)
    (orders : list BoundOrderItem) (sort_on_output : bool)
| BoundSet (value : Z)
| BoundExplain (inner : BoundStmt).

(** A condition an index answers, kept for EXPLAIN. *)
Record IndexCond := mkCond { ic_col : string; ic_op : CmpOp; ic_value : Value; ic_is_null : bool; ic_negate : bool }.

Inductive PlanNode :=
| SeqScanPlan (table : TableHandle)
| IndexScanPlan (table : TableHandle) (index : string) (index_fid : Z) (ranges : list IndexRange) (conds : list IndexCond)
| FetchPlan (table : TableHandle) (child : PlanNode)
| DummyScanPlan
| FilterPlan (child : PlanNode) (pred : BoundExpr)
| ProjectPlan (child : PlanNode) (projs : list ProjCol)
| SortPlan (child : PlanNode) (orders : list BoundOrderItem) (sort_on_output : bool)
| EmptyPlan (table : string)
| InsertPlan (table : TableHandle) (rows : list (list BoundExpr))
| DeletePlan (table : TableHandle) (child : option PlanNode)
| UpdatePlan (table : TableHandle) (assigns : list BoundUpdateItem) (child : PlanNode)
| CreateTablePlan (table : TableRef) (cols : list ColumnSpec)
| DropTablePlan (table : TableHandle)
| CreateSchemaPlan (schema : string)
| DropSchemaPlan (schema : string)
| CreateIndexPlan (table : TableHandle) (index : string) (col_ordinal : nat)
| DropIndexPlan (table : TableHandle) (index : string)
| SetPlan (value : Z)
| ExplainPlan (child : PlanNode).

(** * Building plans: planner.cpp *)
Definition with_filter (where_ : option BoundExpr) (input : PlanNode) : PlanNode :=
  match where_ with Some pred => FilterPlan input pred | None => input end.
Definition build_select (input : PlanNode) (where_ : option BoundExpr) (projs : list ProjCol)
    (orders : list BoundOrderItem) (sort_on_output : bool) : PlanNode :=
  let input := with_filter where_ input in
  let has_orders := negb (is_nil orders) in
  let input := if has_orders && negb sort_on_output then SortPlan input orders false else input in
  let input := ProjectPlan input projs in
  if has_orders && sort_on_output then SortPlan input orders true else input.

Fixpoint build (bound : BoundStmt) : PlanNode :=
  match bound with
  | BoundCreateTable table cols => CreateTablePlan table cols
  | BoundDropTable table => DropTablePlan table
  | BoundCreateSchema schema => CreateSchemaPlan schema
  | BoundDropSchema schema => DropSchemaPlan schema
  | BoundCreateIndex table index ord => CreateIndexPlan table index ord
  | BoundDropIndex table index => DropIndexPlan table index
  | BoundInsert table rows => InsertPlan table rows
  | BoundDelete table where_ =>
      DeletePlan table (match where_ with Some pred => Some (FilterPlan (SeqScanPlan table) pred) | None => None end)
  | BoundUpdate table assigns where_ => UpdatePlan table assigns (with_filter where_ (SeqScanPlan table))
  | BoundSelect table projs where_ orders on_output => build_select (SeqScanPlan table) where_ projs orders on_output
  | BoundSelectNoFrom projs where_ orders on_output => build_select DummyScanPlan where_ projs orders on_output
  | BoundSet value => SetPlan value
  | BoundExplain inner => ExplainPlan (build inner)
  end.

(** * Constant folding over a plan: const_fold.cpp *)
Definition fold_proj (equal : BoundExpr -> BoundExpr -> bool) (c : ProjCol) : result ProjCol :=
  match pc_expr c with
  | Some e => e ← fold_with equal e false; Ok (mkProj (Some e) (pc_name c) (pc_col_idx c))
  | None => Ok c
  end.
Definition fold_order (equal : BoundExpr -> BoundExpr -> bool) (o : BoundOrderItem) : result BoundOrderItem :=
  match o_expr o with
  | Some e => e ← fold_with equal e false; Ok (mkOrder (desc o) (out_idx o) (Some e))
  | None => Ok o
  end.
Definition fold_assign (equal : BoundExpr -> BoundExpr -> bool) (a : BoundUpdateItem) : result BoundUpdateItem :=
  v ← fold_with equal (ua_value a) false; Ok (mkAssign (ua_col_idx a) v).

Section fold_plan.
Context (equal : BoundExpr -> BoundExpr -> bool).
Fixpoint fold_plan_with (plan : PlanNode) : result PlanNode :=
  match plan with
  | FilterPlan child pred =>
      pred ← fold_with equal pred true; child ← fold_plan_with child; Ok (FilterPlan child pred)
  | FetchPlan table child => child ← fold_plan_with child; Ok (FetchPlan table child)
  | ProjectPlan child projs =>
      projs ← mapM (fold_proj equal) projs; child ← fold_plan_with child; Ok (ProjectPlan child projs)
  | SortPlan child orders on_output =>
      orders ← (if on_output : bool then Ok orders else mapM (fold_order equal) orders);
      child ← fold_plan_with child; Ok (SortPlan child orders on_output)
  | InsertPlan table rows =>
      rows ← mapM (mapM (fun v => fold_with equal v false)) rows; Ok (InsertPlan table rows)
  | DeletePlan table child =>
      match child with
      | Some child => child ← fold_plan_with child; Ok (DeletePlan table (Some child))
      | None => Ok (DeletePlan table None)
      end
  | UpdatePlan table assigns child =>
      assigns ← mapM (fold_assign equal) assigns; child ← fold_plan_with child; Ok (UpdatePlan table assigns child)
  | ExplainPlan child => child ← fold_plan_with child; Ok (ExplainPlan child)
  | _ => Ok plan
  end.
End fold_plan.
Definition fold_const : PlanNode -> result PlanNode := fold_plan_with expr_equal.

(** * Pruning constant filters: filter_prune.cpp *)
Inductive ConstPred := CpNone | AlwaysTrue | AlwaysFalse.
Definition classify_pred (pred : BoundExpr) : result ConstPred :=
  match pred with
  | BoundConst v =>
      match box v with
      | BBool b => Ok (if b then AlwaysTrue else AlwaysFalse)
      | BNull => Ok AlwaysFalse
      | _ => Raise Internal
      end
  | _ => Ok CpNone
  end.
Definition scan_table (node : PlanNode) : result string :=
  match node with
  | SeqScanPlan table => Ok (display table)
  | DummyScanPlan => Ok ""%string
  | _ => Raise Internal
  end.
Fixpoint prune_filter (plan : PlanNode) : result PlanNode :=
  match plan with
  | FilterPlan child pred =>
      child ← prune_filter child; c ← classify_pred pred;
      match c with
      | CpNone => Ok (FilterPlan child pred)
      | AlwaysTrue => Ok child
      | AlwaysFalse => t ← scan_table child; Ok (EmptyPlan t)
      end
  | FetchPlan table child => child ← prune_filter child; Ok (FetchPlan table child)
  | ProjectPlan child projs => child ← prune_filter child; Ok (ProjectPlan child projs)
  | SortPlan child orders on_output => child ← prune_filter child; Ok (SortPlan child orders on_output)
  | DeletePlan table child =>
      match child with
      | Some child => child ← prune_filter child; Ok (DeletePlan table (Some child))
      | None => Ok (DeletePlan table None)
      end
  | UpdatePlan table assigns child => child ← prune_filter child; Ok (UpdatePlan table assigns child)
  | ExplainPlan child => child ← prune_filter child; Ok (ExplainPlan child)
  | _ => Ok plan
  end.

(** * Index selection: index_select.cpp *)
Record Hit := mkHit { conj : nat; h_eq : bool; h_ranges : list IndexRange; h_cond : IndexCond }.

Definition is_col (ordinal : nat) (e : BoundExpr) : bool :=
  match e with BoundColRef i _ => Nat.eqb i ordinal | _ => false end.
Definition const_of (e : BoundExpr) : option Value := match e with BoundConst v => Some v | _ => None end.

(** Does a conjunct bound the index column: [col op const], mirrored, or [col IS [NOT] NULL]? *)
Definition match_hit (e : BoundExpr) (col : ColumnSpec) (ordinal : nat) (i : nat) (double_attr : TypeAttr) : result (option Hit) :=
  match e with
  | BoundCmp c_op l r =>
      let lcol := is_col ordinal l in
      let rcol := is_col ordinal r in
      if Bool.eqb lcol rcol then Ok None
      else
        let '(cst, op) := if lcol then (const_of r, c_op) else (const_of l, mirror c_op) in
        match cst with
        | None => Ok None
        | Some v =>
            k ← key_of col v double_attr;
            match k with
            | None => Ok None
            | Some k => Ok (Some (mkHit i (bool_decide (op = CmpEq)) (cmp_ranges op k) (mkCond (cname col) op v false false)))
            end
        end
  | BoundIsNull operand negate =>
      if negb (is_col ordinal operand) then Ok None
      else Ok (Some (mkHit i false (null_ranges negate) (mkCond (cname col) CmpEq null_val true negate)))
  | _ => Ok None
  end.

Fixpoint flatten (e : BoundExpr) : list BoundExpr :=
  match e with
  | BoundLogic LAnd l r => flatten l ++ flatten r
  | _ => [e]
  end.
Definition join_and (parts : list BoundExpr) : option BoundExpr :=
  match parts with
  | [] => None
  | p :: parts => Some (fold_left (BoundLogic LAnd) parts p)
  end.

Fixpoint match_hits (col : ColumnSpec) (ordinal : nat) (double_attr : TypeAttr) (i : nat) (es : list BoundExpr) : result (list Hit) :=
  match es with
  | [] => Ok []
  | e :: es =>
      h ← match_hit e col ordinal i double_attr; hs ← match_hits col ordinal double_attr (S i) es;
      Ok (match h with Some h => h :: hs | None => hs end)
  end.

(** The index chosen so far, whether one of its conditions is an equality, and its conditions. *)
Definition Best : Type := option (IndexEntry * bool * list Hit).
Definition pick_step (m : TableMeta) (es : list BoundExpr) (double_attr : TypeAttr) (best : Best) (ent : IndexEntry) : result Best :=
  match cols m !! col_ordinal ent with
  | None => Fatal
  | Some col =>
      hits ← match_hits col (col_ordinal ent) double_attr 0 es;
      if is_nil hits then Ok best
      else
        let has_eq := existsb h_eq hits in
        match best with
        | Some (b, best_eq, _) =>
            if negb (has_eq && negb best_eq) && negb (Bool.eqb has_eq best_eq && (col_ordinal ent <? col_ordinal b)%nat)
            then Ok best else Ok (Some (ent, has_eq, hits))
        | None => Ok (Some (ent, has_eq, hits))
        end
  end.
Fixpoint pick_loop (m : TableMeta) (es : list BoundExpr) (double_attr : TypeAttr) (best : Best) (idxs : list IndexEntry) : result Best :=
  match idxs with
  | [] => Ok best
  | ent :: idxs => best ← pick_step m es double_attr best ent; pick_loop m es double_attr best idxs
  end.
Definition pick_index (idxs : list IndexEntry) (m : TableMeta) (es : list BoundExpr) (double_attr : TypeAttr) : result (option (IndexEntry * list Hit)) :=
  best ← pick_loop m es double_attr None idxs;
  Ok (match best with Some (ent, _, hits) => Some (ent, hits) | None => None end).

Fixpoint intersect_loop (ranges : list IndexRange) (hits : list Hit) : list IndexRange :=
  match hits with
  | [] => ranges
  | h :: hits =>
      let ranges := ranges_meet ranges (h_ranges h) in
      if is_nil ranges then [] else intersect_loop ranges hits
  end.
Definition intersect_ranges (hits : list Hit) : list IndexRange := intersect_loop [mkRange None None] hits.

(** The conjuncts no condition of the index covers. *)
Definition residual (hits : list Hit) (es : list BoundExpr) : list BoundExpr :=
  (List.filter (fun p => negb (existsb (fun h => Nat.eqb (conj h) p.1) hits)) (imap pair es)).*2.

(** What the planner asks the catalog. *)
Class Indexes := { indexes : TableMeta -> result (list IndexEntry); double_type : result TypeAttr }.

Definition rewrite_scan `{Indexes} (child : PlanNode) (pred : BoundExpr) : result PlanNode :=
  match child with
  | SeqScanPlan table =>
      idxs ← indexes (meta table);
      if is_nil idxs then Ok (FilterPlan child pred)
      else
        double_attr ← double_type;
        let es := flatten pred in
        best ← pick_index idxs (meta table) es double_attr;
        match best with
        | None => Ok (FilterPlan child pred)
        | Some (ent, hits) =>
            let ranges := intersect_ranges hits in
            if is_nil ranges then Ok (EmptyPlan (display table))
            else
              let fetch := FetchPlan table (IndexScanPlan table (ix_name ent) (ix_file_id ent) ranges (h_cond <$> hits)) in
              Ok (match join_and (residual hits es) with Some pred => FilterPlan fetch pred | None => fetch end)
        end
  | _ => Ok (FilterPlan child pred)
  end.
Fixpoint select_index `{Indexes} (plan : PlanNode) : result PlanNode :=
  match plan with
  | FilterPlan child pred => rewrite_scan child pred
  | ProjectPlan child projs => child ← select_index child; Ok (ProjectPlan child projs)
  | SortPlan child orders on_output => child ← select_index child; Ok (SortPlan child orders on_output)
  | DeletePlan table child =>
      match child with
      | Some child => child ← select_index child; Ok (DeletePlan table (Some child))
      | None => Ok (DeletePlan table None)
      end
  | UpdatePlan table assigns child => child ← select_index child; Ok (UpdatePlan table assigns child)
  | ExplainPlan child => child ← select_index child; Ok (ExplainPlan child)
  | _ => Ok plan
  end.

Definition optimize `{Indexes} (plan : PlanNode) : result PlanNode :=
  plan ← fold_const plan; plan ← prune_filter plan; select_index plan.
