(* ===== verification/Sort.v ===== *)
(** The ORDER BY comparison and sort (src/executor/operator.cpp, SortOp): values of one type are totally
    preordered by the evaluator's comparison, key lists by [key_less], and the sort orders rows by it. *)
From S2P Require Import Prelude Types Ieee Finite Text Cast Decimal Expr Typing Fold Key Plan.
From Stdlib Require Import Sorting.Sorted.

(** Sorting: rows with their keys, compared key by key. *)
Definition RowKeys : Type := Row * list Value.
Definition sort_key (on_output : bool) (r : Row) (o : BoundOrderItem) : result Value :=
  if on_output then match rvalues r !! out_idx o with Some v => Ok v | None => Fatal end
  else match o_expr o with Some e => eval_row e (rvalues r) | None => Fatal end.
#[global] Arguments sort_key : simpl never.
Fixpoint key_less (orders : list BoundOrderItem) (l r : list Value) : result bool :=
  match orders, l, r with
  | o :: orders, a :: l, b :: r =>
      c ← value_cmp a b;
      let c := if desc o then - c else c in
      if negb (c =? 0) then Ok (c <? 0) else key_less orders l r
  | [], _, _ => Ok false
  | _, _, _ => Fatal
  end.
(** [std::sort] fixes no order of rows with equal keys; insertion sort is one it allows. *)
Fixpoint sort_insert (orders : list BoundOrderItem) (x : RowKeys) (l : list RowKeys) : result (list RowKeys) :=
  match l with
  | [] => Ok [x]
  | y :: l' =>
      b ← key_less orders y.2 x.2;
      if b : bool then l'' ← sort_insert orders x l'; Ok (y :: l'') else Ok (x :: l)
  end.
Fixpoint sort_rows (orders : list BoundOrderItem) (l : list RowKeys) : result (list RowKeys) :=
  match l with [] => Ok [] | x :: l => l' ← sort_rows orders l; sort_insert orders x l' end.
Definition with_keys (orders : list BoundOrderItem) (on_output : bool) (r : Row) : result RowKeys :=
  ks ← mapM (sort_key on_output r) orders; Ok (r, ks).

(** * Sorting permutes *)
Lemma value_cmp_total t a b : type_ok t -> value_ok t a -> value_ok t b -> exists c, value_cmp a b = Ok c.
Proof.
  intros Ht Ha Hb. unfold value_cmp. destruct (is_null a) eqn:Ea; [by eexists|]. destruct (is_null b) eqn:Eb; [by eexists|]. cbn [orb].
  destruct (value_ok_cases _ _ Ha Ea) as (Ta & Ra & Ba & _), (value_ok_cases _ _ Hb Eb) as (Tb & Rb & Bb & _).
  destruct a as [ta ba], b as [tb bb]. cbn [vtype box] in *. subst ta tb.
  destruct Ht as [->|Ht]; [by destruct ba|].
  destruct (seed_attr_cases t Ht) as [->|[->|[->|[->|[->|[->|[->| ->]]]]]]]; cbn [family kInt kBigint kDouble kVarChar kFloat kChar kBool kNumeric];
    destruct ba, bb; try done; try (by eexists).
Qed.
Definition keys_ok (kts : list TypeAttr) (rk : RowKeys) : Prop := Forall2 value_ok kts rk.2.
Lemma key_less_total orders kts l r : Forall type_ok kts -> length orders = length kts ->
  Forall2 value_ok kts l -> Forall2 value_ok kts r -> exists b, key_less orders l r = Ok b.
Proof.
  revert kts l r; induction orders as [|o orders IH]; intros kts l r Hk Hlen Hl Hr; [by eexists|].
  destruct kts as [|t kts]; [done|]. inversion Hl as [|? a ? l' Ha Hl']; subst. inversion Hr as [|? b ? r' Hb Hr']; subst.
  inversion_clear Hk. simpl. destruct (value_cmp_total t a b) as [c ->]; [done..|]. cbn [mbind result_bind].
  destruct (negb _); [by eexists|]. eapply (IH kts); [done|by injection Hlen|done|done].
Qed.
Section sort.
Context (orders : list BoundOrderItem) (kts : list TypeAttr).
Context (Hk : Forall type_ok kts) (Hlen : length orders = length kts).
Lemma sort_insert_total x l : keys_ok kts x -> Forall (keys_ok kts) l ->
  exists l', sort_insert orders x l = Ok l' /\ l' ≡ₚ x :: l.
Proof using All.
  intros Hx Hl. induction Hl as [|y l Hy Hl IH]; [by eexists|]. simpl.
  destruct (key_less_total orders kts y.2 x.2 Hk Hlen Hy Hx) as [b ->]. cbn [mbind result_bind].
  destruct b; [|by eexists]. destruct IH as (l' & -> & Hp). eexists. split; [reflexivity|]. rewrite Hp. constructor.
Qed.
Lemma sort_rows_total l : Forall (keys_ok kts) l -> exists l', sort_rows orders l = Ok l' /\ l' ≡ₚ l.
Proof using All.
  induction 1 as [|x l Hx Hl (l1 & IH & Hp)]; [by eexists|]. simpl. rewrite IH. cbn [mbind result_bind].
  destruct (sort_insert_total x l1 Hx) as (l2 & -> & Hp2); [by rewrite Hp|]. exists l2. split; [done|]. by rewrite Hp2, Hp.
Qed.
End sort.
Lemma sort_insert_perm orders x l l' : sort_insert orders x l = Ok l' -> l' ≡ₚ x :: l.
Proof.
  revert l'; induction l as [|y l IH]; intros l'; simpl; [by intros [= <-]|].
  intros (b & _ & H)%bind_ok. destruct b; [|by injection H as <-].
  apply bind_ok in H as (l2 & H2 & [= <-]). rewrite (IH _ H2). constructor.
Qed.
Lemma sort_rows_perm orders l l' : sort_rows orders l = Ok l' -> l' ≡ₚ l.
Proof.
  revert l'; induction l as [|x l IH]; intros l'; simpl; [by intros [= <-]|].
  intros (l1 & H1 & H2)%bind_ok. rewrite (sort_insert_perm _ _ _ _ H2). by rewrite (IH _ H1).
Qed.


(** * The order of values *)
Lemma bytes_compare_antisym s t : bytes_compare t s = CompOpp (bytes_compare s t).
Proof.
  revert t; induction s as [|a s IH]; intros [|b t]; [done..|]. simpl. rewrite Z.compare_antisym.
  destruct (a ?= b) eqn:E; [apply IH|done|done].
Qed.
Lemma bytes_compare_trans s t u : bytes_compare s t <> Gt -> bytes_compare t u <> Gt -> bytes_compare s u <> Gt.
Proof.
  revert t u; induction s as [|a s IH]; intros [|b t] [|c u]; try done. simpl.
  destruct (Z.compare_spec a b), (Z.compare_spec b c), (Z.compare_spec a c); try done; try lia. apply IH.
Qed.
Lemma sign_opp c : sign_of_compare (CompOpp c) = - sign_of_compare c.
Proof. by destruct c. Qed.
Lemma sign_le c : sign_of_compare c <= 0 <-> c <> Gt.
Proof. by destruct c. Qed.
Lemma key_cmp_trans a b c : key_ok a -> key_ok b -> key_ok c -> key_cmp a b <= 0 -> key_cmp b c <= 0 -> key_cmp a c <= 0.
Proof. intros Ha Hb Hc. rewrite <- !Z.leb_le, !key_cmp_le by done. lia. Qed.
Lemma dec_cmp_opp a b : 0 <= scale a -> 0 <= scale b -> dec_cmp b a = - dec_cmp a b.
Proof. intros. rewrite !dec_cmp_exact by done. unfold dec_compare. by rewrite Z.compare_antisym, sign_opp. Qed.
Lemma dec_cmp_trans a b c : 0 <= scale a -> 0 <= scale b -> 0 <= scale c ->
  dec_cmp a b <= 0 -> dec_cmp b c <= 0 -> dec_cmp a c <= 0.
Proof.
  intros Ha Hb Hc. rewrite !dec_cmp_exact by done. rewrite !sign_le. unfold dec_compare.
  fold (unscaled a * 10 ^ scale b <= unscaled b * 10 ^ scale a).
  fold (unscaled b * 10 ^ scale c <= unscaled c * 10 ^ scale b). fold (unscaled a * 10 ^ scale c <= unscaled c * 10 ^ scale a).
  pose proof (Z.pow_pos_nonneg 10 (scale a) ltac:(lia) Ha). pose proof (Z.pow_pos_nonneg 10 (scale b) ltac:(lia) Hb).
  pose proof (Z.pow_pos_nonneg 10 (scale c) ltac:(lia) Hc). intros Hab Hbc.
  apply (Zmult_lt_0_le_reg_r _ _ (10 ^ scale b)); [done|].
  replace (unscaled a * 10 ^ scale c * 10 ^ scale b) with (unscaled a * 10 ^ scale b * 10 ^ scale c) by lia.
  replace (unscaled c * 10 ^ scale a * 10 ^ scale b) with (unscaled c * 10 ^ scale b * 10 ^ scale a) by lia.
  apply (Z.le_trans _ (unscaled b * 10 ^ scale a * 10 ^ scale c)); [by apply Z.mul_le_mono_nonneg_r; lia|].
  replace (unscaled b * 10 ^ scale a * 10 ^ scale c) with (unscaled b * 10 ^ scale c * 10 ^ scale a) by lia.
  by apply Z.mul_le_mono_nonneg_r; lia.
Qed.

(** Two values of one type compare as two elements of an ordered carrier. *)
Lemma seed_cases t : type_ok t -> t = no_type \/ indexable t \/ rep t = RepStr \/ rep t = RepDec.
Proof.
  intros [->|Ht]; [by left|]. right. unfold indexable.
  destruct (seed_attr_cases t Ht) as [->|[->|[->|[->|[->|[->|[->| ->]]]]]]]; tauto.
Qed.

Definition text_of (v : Value) : bytes := match box v with BStr s => text_key v s | _ => [] end.
Definition dec_of (v : Value) : DecimalVal := match box v with BDec d => d | _ => mkDec 0 0 end.
Lemma cmp_text t a b : type_ok t -> rep t = RepStr -> value_ok t a -> value_ok t b -> is_null a = false -> is_null b = false ->
  value_cmp a b = Ok (sign_of_compare (bytes_compare (text_of a) (text_of b))).
Proof.
  intros Ht Hr Ha Hb Na Nb. destruct (value_ok_cases _ _ Ha Na) as (Ta & Ra & _), (value_ok_cases _ _ Hb Nb) as (Tb & Rb & _).
  unfold value_cmp, text_of. rewrite Na, Nb, Ta, Tb. cbn [orb]. rewrite Hr in Ra, Rb.
  assert (family t = FamText) as ->.
  { destruct Ht as [->|Ht]; [done|].
    by destruct (seed_attr_cases t Ht) as [->|[->|[->|[->|[->|[->|[->| ->]]]]]]]. }
  by destruct (box a), (box b).
Qed.
Lemma cmp_dec t a b : type_ok t -> rep t = RepDec -> value_ok t a -> value_ok t b -> is_null a = false -> is_null b = false ->
  value_cmp a b = Ok (dec_cmp (dec_of a) (dec_of b)) /\ 0 <= scale (dec_of a) /\ 0 <= scale (dec_of b).
Proof.
  intros Ht Hr Ha Hb Na Nb. destruct (value_ok_cases _ _ Ha Na) as (Ta & Ra & Ba & _), (value_ok_cases _ _ Hb Nb) as (Tb & Rb & Bb & _).
  unfold value_cmp, dec_of. rewrite Na, Nb, Ta, Tb. cbn [orb]. rewrite Hr in Ra, Rb.
  assert (family t = FamNum) as ->.
  { destruct Ht as [->|Ht]; [done|].
    by destruct (seed_attr_cases t Ht) as [->|[->|[->|[->|[->|[->|[->| ->]]]]]]]. }
  destruct (box a), (box b); try done. destruct Ba, Bb. split; [done|lia].
Qed.
Lemma cmp_null a b : is_null a = true \/ is_null b = true ->
  value_cmp a b = Ok (if is_null a then if is_null b then 0 else 1 else -1).
Proof. unfold value_cmp. intros [H|H]; rewrite H; [by destruct (is_null b)|by destruct (is_null a)]. Qed.

(** The comparison reverses with its arguments, and is transitive. *)
Lemma value_cmp_opp t a b c : type_ok t -> value_ok t a -> value_ok t b -> value_cmp a b = Ok c -> value_cmp b a = Ok (- c).
Proof.
  intros Ht Ha Hb Hc. destruct (is_null a) eqn:Na; [|destruct (is_null b) eqn:Nb].
  1-2: rewrite cmp_null in Hc by tauto; rewrite cmp_null by tauto; injection Hc as <-; rewrite ?Na, ?Nb; by destruct (is_null b) || done.
  destruct (seed_cases t Ht) as [->|[Hi|[Hr|Hr]]].
  - rewrite (value_ok_no_type a Ha) in Na. done.
  - destruct (encode_key_ok t a Hi Ha) as (ka & Ka & Oa & _), (encode_key_ok t b Hi Hb) as (kb & Kb & Ob & _).
    rewrite (encode_key_cmp t a b ka kb) in Hc by done. rewrite (encode_key_cmp t b a kb ka) by done.
    injection Hc as <-. by rewrite key_cmp_opp.
  - rewrite (cmp_text t a b) in Hc by done. rewrite (cmp_text t b a) by done. injection Hc as <-. by rewrite bytes_compare_antisym, sign_opp.
  - destruct (cmp_dec t a b) as (E & Sa & Sb); [done..|]. rewrite E in Hc. destruct (cmp_dec t b a) as (-> & _); [done..|].
    injection Hc as <-. by rewrite dec_cmp_opp.
Qed.
Lemma value_cmp_trans t a b c x y : type_ok t -> value_ok t a -> value_ok t b -> value_ok t c ->
  value_cmp a b = Ok x -> value_cmp b c = Ok y -> x <= 0 -> y <= 0 -> exists z, value_cmp a c = Ok z /\ z <= 0.
Proof.
  intros Ht Ha Hb Hc Hab Hbc Hx Hy.
  destruct (is_null c) eqn:Nc; [rewrite cmp_null by tauto; eexists; split; [done|]; rewrite Nc; by destruct (is_null a)|].
  destruct (is_null b) eqn:Nb; [rewrite cmp_null in Hbc by tauto; rewrite Nb, Nc in Hbc; injection Hbc as <-; lia|].
  destruct (is_null a) eqn:Na; [rewrite cmp_null in Hab by tauto; rewrite Na, Nb in Hab; injection Hab as <-; lia|].
  destruct (seed_cases t Ht) as [->|[Hi|[Hr|Hr]]].
  - rewrite (value_ok_no_type a Ha) in Na. done.
  - destruct (encode_key_ok t a Hi Ha) as (ka & Ka & Oa & _), (encode_key_ok t b Hi Hb) as (kb & Kb & Ob & _),
      (encode_key_ok t c Hi Hc) as (kc & Kc & Oc & _).
    rewrite (encode_key_cmp t a b ka kb) in Hab by done. rewrite (encode_key_cmp t b c kb kc) in Hbc by done.
    rewrite (encode_key_cmp t a c ka kc) by done. eexists. split; [done|].
    injection Hab as <-. injection Hbc as <-. by apply (key_cmp_trans ka kb kc).
  - rewrite (cmp_text t a b) in Hab by done. rewrite (cmp_text t b c) in Hbc by done. rewrite (cmp_text t a c) by done.
    injection Hab as <-. injection Hbc as <-. eexists. split; [done|]. rewrite !sign_le in *. by eapply bytes_compare_trans.
  - destruct (cmp_dec t a b) as (E1 & Sa & Sb); [done..|]. destruct (cmp_dec t b c) as (E2 & _ & Sc); [done..|].
    destruct (cmp_dec t a c) as (E3 & _); [done..|]. rewrite E3. rewrite E1 in Hab. rewrite E2 in Hbc.
    injection Hab as <-. injection Hbc as <-. eexists. split; [done|]. by eapply (dec_cmp_trans (dec_of a) (dec_of b)).
Qed.

(** * The order of key lists *)
(** The first key that differs decides, reversed when it is descending. *)
Fixpoint keys_cmp (orders : list BoundOrderItem) (l r : list Value) : result Z :=
  match orders, l, r with
  | o :: orders, a :: l, b :: r =>
      c ← value_cmp a b;
      let c := if desc o then - c else c in
      if negb (c =? 0) then Ok c else keys_cmp orders l r
  | [], _, _ => Ok 0
  | _, _, _ => Fatal
  end.
Lemma key_less_cmp orders l r : key_less orders l r = (c ← keys_cmp orders l r; Ok (c <? 0)).
Proof.
  revert l r; induction orders as [|o orders IH]; intros l r; [done|]. destruct l as [|a l], r as [|b r]; [done..|]. cbn [key_less keys_cmp].
  destruct (value_cmp a b) as [c| |]; [|done..]. cbn [mbind result_bind]. cbv zeta.
  by destruct (negb _); [|apply IH].
Qed.

Section order.
Context (orders : list BoundOrderItem) (kts : list TypeAttr).
Context (Hk : Forall type_ok kts) (Hlen : length orders = length kts).

Lemma keys_cmp_total l r : Forall2 value_ok kts l -> Forall2 value_ok kts r -> exists c, keys_cmp orders l r = Ok c.
Proof using All.
  revert kts l r Hk Hlen; induction orders as [|o os IH]; intros kts' l r Hk' Hlen' Hl Hr; [by eexists|].
  destruct kts' as [|t ts]; [done|]. inversion Hl as [|? a ? l' Ha Hl']; subst. inversion Hr as [|? b ? r' Hb Hr']; subst.
  inversion_clear Hk'. cbn [keys_cmp]. destruct (value_cmp_total t a b) as [c ->]; [done..|]. cbn [mbind result_bind].
  destruct (negb _); [by eexists|]. apply (IH ts); [done|by injection Hlen'|done..].
Qed.
Lemma keys_cmp_opp l r c : Forall2 value_ok kts l -> Forall2 value_ok kts r -> keys_cmp orders l r = Ok c -> keys_cmp orders r l = Ok (- c).
Proof using All.
  revert kts l r Hk Hlen; induction orders as [|o os IH]; intros kts' l r Hk' Hlen' Hl Hr; cbn [keys_cmp]; [by intros [= <-]|].
  destruct kts' as [|t ts]; [done|]. inversion Hl as [|? a ? l' Ha Hl']; subst. inversion Hr as [|? b ? r' Hb Hr']; subst.
  inversion_clear Hk'. intros (x & Hx & H1)%bind_ok. rewrite (value_cmp_opp t a b x) by done. cbn [mbind result_bind]. cbv zeta in *.
  destruct (Z.eqb_spec (if desc o then - x else x) 0) as [E|E]; cbn [negb] in H1.
  - assert (x = 0) as -> by (destruct (desc o); lia). destruct (desc o); cbn; apply (IH ts); (done || by injection Hlen').
  - injection H1 as <-. destruct (Z.eqb_spec (if desc o then - - x else - x) 0); cbn [negb]; [destruct (desc o); lia|].
    f_equal. destruct (desc o); lia.
Qed.
Lemma keys_cmp_trans l m r x y : Forall2 value_ok kts l -> Forall2 value_ok kts m -> Forall2 value_ok kts r ->
  keys_cmp orders l m = Ok x -> keys_cmp orders m r = Ok y -> x <= 0 -> y <= 0 -> exists z, keys_cmp orders l r = Ok z /\ z <= 0.
Proof using All.
  revert kts l m r Hk Hlen; induction orders as [|o os IH]; intros kts' l m r Hk' Hlen' Hl Hm Hr; cbn [keys_cmp]; [by eexists|].
  destruct kts' as [|t ts]; [done|]. inversion Hl as [|? a ? l' Ha Hl']; subst. inversion Hm as [|? b ? m' Hb Hm']; subst.
  inversion Hr as [|? c ? r' Hc Hr']; subst. inversion_clear Hk'.
  intros (u & Hu & H1)%bind_ok (v & Hv & H2)%bind_ok Hx Hy. cbv zeta in *.
  (* the order of one key, in its direction *)
  set (d := fun z => if desc o then - z else z) in *. change (if desc o then - u else u) with (d u) in H1.
  change (if desc o then - v else v) with (d v) in H2.
  assert (forall z, d (- z) = - d z) as Hd by (intros z; unfold d; destruct (desc o); lia).
  assert (forall a b c u v, value_ok t a -> value_ok t b -> value_ok t c -> value_cmp a b = Ok u -> value_cmp b c = Ok v ->
    d u <= 0 -> d v <= 0 -> exists w, value_cmp a c = Ok w /\ d w <= 0) as Ht.
  { clear -H d. intros a b c u v Ha Hb Hc Hu Hv. unfold d. destruct (desc o); intros Hx Hy.
    - destruct (value_cmp_trans t c b a (- v) (- u)) as (w & Hw & Hwle); try done; try lia; try by eapply value_cmp_opp.
      exists (- w). split; [by eapply value_cmp_opp|lia].
    - by apply (value_cmp_trans t a b c u v). }
  assert (d u <= 0) as Du by (destruct (Z.eqb_spec (d u) 0); cbn [negb] in H1; [lia|by injection H1 as <-]).
  assert (d v <= 0) as Dv by (destruct (Z.eqb_spec (d v) 0); cbn [negb] in H2; [lia|by injection H2 as <-]).
  destruct (Ht a b c u v Ha Hb Hc Hu Hv Du Dv) as (w & Hw & Dw). rewrite Hw. cbn [mbind result_bind]. fold (d w).
  destruct (Z.eqb_spec (d w) 0) as [E|E]; cbn [negb]; [|by eexists].
  assert (d u = 0 /\ d v = 0) as [Eu Ev].
  { pose proof (value_cmp_opp t a c w H Ha Hc Hw) as Hca. pose proof (Hd w) as Hdw.
    destruct (Ht c a b (- w) u) as (z & Hz & Dz); [done..|lia|done|]. rewrite (value_cmp_opp t b c v H Hb Hc Hv) in Hz. injection Hz as <-.
    destruct (Ht b c a v (- w)) as (z & Hz & Dz'); [done..|lia|]. rewrite (value_cmp_opp t a b u H Ha Hb Hu) in Hz. injection Hz as <-.
    rewrite !Hd in *. lia. }
  rewrite Eu in H1. rewrite Ev in H2. cbn [Z.eqb negb] in H1, H2. by apply (IH ts l' m' r'); (done || by injection Hlen').
Qed.
End order.

(** * The sort sorts *)
(** [before a b]: [b] need not come before [a]. *)
Definition before (orders : list BoundOrderItem) (a b : RowKeys) : Prop := key_less orders b.2 a.2 = Ok false.
Section sorted.
Context (orders : list BoundOrderItem) (kts : list TypeAttr).
Context (Hk : Forall type_ok kts) (Hlen : length orders = length kts).
Notation ok := (keys_ok kts).

Lemma before_iff a b : ok a -> ok b -> before orders a b <-> exists c, keys_cmp orders a.2 b.2 = Ok c /\ c <= 0.
Proof using All.
  intros Ha Hb. unfold before. rewrite key_less_cmp. destruct (keys_cmp_total orders kts Hk Hlen b.2 a.2 Hb Ha) as [c Hc].
  rewrite Hc. cbn [mbind result_bind]. pose proof (keys_cmp_opp orders kts Hk Hlen _ _ _ Hb Ha Hc) as Ho.
  split; [intros [= H]; exists (- c); split; [done|lia]|]. intros (x & Hx & Hle). rewrite Ho in Hx. injection Hx as <-. f_equal. lia.
Qed.
Lemma before_trans a b c : ok a -> ok b -> ok c -> before orders a b -> before orders b c -> before orders a c.
Proof using All.
  intros Ha Hb Hc. rewrite !before_iff by done. intros (x & Hx & Lx) (y & Hy & Ly).
  by apply (keys_cmp_trans orders kts Hk Hlen a.2 b.2 c.2 x y).
Qed.
Lemma less_before a b : ok a -> ok b -> key_less orders a.2 b.2 = Ok true -> before orders a b.
Proof using All.
  intros Ha Hb H. apply before_iff; [done..|]. rewrite key_less_cmp in H.
  apply bind_ok in H as (c & Hc & [= H]). exists c. split; [done|lia].
Qed.
Lemma sort_insert_sorted x l l' : ok x -> Forall ok l -> StronglySorted (before orders) l -> sort_insert orders x l = Ok l' ->
  StronglySorted (before orders) l'.
Proof using All.
  intros Hx Hl. revert l'. induction Hl as [|y l Hy Hl IH]; intros l' Hs; simpl; [intros [= <-]; by repeat constructor|].
  inversion_clear Hs as [|? ? Hs' Hf]. intros (b & Hb & H)%bind_ok. destruct b.
  - apply bind_ok in H as (l2 & H2 & [= <-]). constructor; [by apply IH|]. rewrite (sort_insert_perm _ _ _ _ H2).
    constructor; [by apply less_before|done].
  - injection H as <-. constructor; [by constructor|]. constructor; [exact Hb|].
    apply List.Forall_forall. intros z Hz. apply (before_trans x y z); try done.
    + exact (proj1 (List.Forall_forall _ _) Hl z Hz).
    + exact (proj1 (List.Forall_forall _ _) Hf z Hz).
Qed.
Lemma sort_rows_sorted l l' : Forall ok l -> sort_rows orders l = Ok l' -> StronglySorted (before orders) l'.
Proof using All.
  intros Hl. revert l'. induction Hl as [|x l Hx Hl IH]; intros l'; simpl; [intros [= <-]; constructor|].
  intros (l1 & H1 & H2)%bind_ok. eapply (sort_insert_sorted x l1); [done| |by apply IH|exact H2].
  by rewrite (sort_rows_perm _ _ _ H1).
Qed.
End sorted.
