(* ===== verification/Query.v ===== *)
(** The executor's pull operators (src/executor/operator.cpp) over plan trees, and the correctness
    of the optimiser: an optimised plan returns the rows the plan it was built from returns. *)
From S2P Require Import Prelude Types Ieee Finite Text Cast Decimal Expr Typing Fold Key Plan Sort.
From Stdlib Require Import Sorting.Sorted.

(** * What the operators read *)
(** A stream: the rows a pull loop yields, and how it ends. *)
Definition stream (A : Type) : Type := list A * result unit.
Definition of_result {A} (r : result (list A)) : stream A :=
  match r with Ok rows => (rows, Ok tt) | Raise c => ([], Raise c) | Fatal => ([], Fatal) end.
(** Pulling a stream to its end. *)
Definition drain {A} (s : stream A) : result (list A) := _ ← s.2; Ok s.1.
(** One stream after the other, up to the first that fails. *)
Fixpoint chain {A} (ss : list (stream A)) : stream A :=
  match ss with
  | [] => ([], Ok tt)
  | (xs, Ok _) :: ss => let '(ys, e) := chain ss in (xs ++ ys, e)
  | (xs, e) :: _ => (xs, e)
  end.

(** The storage the operators reach through the catalog: a table's live rows in page order, the entries
    of an index between two bounds in key order (once its scanner is open), and a row read at its place (None when it is
    deleted). *)
Class Storage := {
  scan : TableMeta -> stream Row;
  index_scan : Z -> option ScanBound -> option ScanBound -> result (stream BTreeEntry);
  read_row : RowRef -> list ColumnSpec -> result (option (list Value)) }.

(** * Operators *)
(** Filter, projection and fetch pull rows one by one, skip some and stop at the first error. *)
Fixpoint pull (f : Row -> result (option Row)) (rows : list Row) (fin : result unit) : stream Row :=
  match rows with
  | [] => ([], fin)
  | r :: rows =>
      match f r with
      | Ok (Some r) => let '(out, e) := pull f rows fin in (r :: out, e)
      | Ok None => pull f rows fin
      | Raise c => ([], Raise c)
      | Fatal => ([], Fatal)
      end
  end.
Definition filter_row (pred : BoundExpr) (r : Row) : result (option Row) :=
  b ← where_match pred (rvalues r); Ok (if b : bool then Some r else None).
Definition project_col (r : Row) (c : ProjCol) : result Value :=
  match pc_expr c with
  | Some e => eval_row e (rvalues r)
  | None => match rvalues r !! pc_col_idx c with Some v => Ok v | None => Fatal end
  end.
Definition project_row (projs : list ProjCol) (r : Row) : result (option Row) :=
  vals ← mapM (project_col r) projs; Ok (Some (mkRow (rid r) (rref r) vals)).

Definition entry_ref (fid : Z) (e : BTreeEntry) : RowRef := mkRef (mkPid fid (page_no e)) (slot e).
Definition entry_row (fid : Z) (e : BTreeEntry) : Row := mkRow 0 (entry_ref fid e) [].
Definition fetch_row `{Storage} (cs : list ColumnSpec) (r : Row) : result (option Row) :=
  v ← read_row (rref r) cs;
  Ok (match v with Some vals => Some (mkRow (rid r) (rref r) vals) | None => None end).

(** The scanners of all ranges are opened first, then read one after the other. *)
Definition scan_ranges `{Storage} (fid heap_fid : Z) (ranges : list IndexRange) : stream Row :=
  match mapM (fun r => index_scan fid (lo r) (hi r)) ranges with
  | Ok ss => let '(es, e) := chain ss in (entry_row heap_fid <$> es, e)
  | Raise c => ([], Raise c)
  | Fatal => ([], Fatal)
  end.

(** [SortOp::open]: take all rows of the child with their keys, then sort. *)
Definition sort_open (orders : list BoundOrderItem) (on_output : bool) (child : stream Row) : result (list Row) :=
  rk ← mapM (with_keys orders on_output) child.1;
  _ ← child.2;
  sorted ← sort_rows orders rk; Ok sorted.*1.

(** [make_operator], [open] and the pulls of the operator tree. *)
Fixpoint run_op `{Storage} (node : PlanNode) : stream Row :=
  match node with
  | SeqScanPlan table => scan (meta table)
  | IndexScanPlan table _ fid ranges _ => scan_ranges fid (tfile_id (meta table)) ranges
  | FetchPlan table child => let '(rows, fin) := run_op child in pull (fetch_row (cols (meta table))) rows fin
  | DummyScanPlan => ([mkRow 0 (mkRef INVALID_PAGE 0) []], Ok tt)
  | EmptyPlan _ => ([], Ok tt)
  | FilterPlan child pred => let '(rows, fin) := run_op child in pull (filter_row pred) rows fin
  | ProjectPlan child projs => let '(rows, fin) := run_op child in pull (project_row projs) rows fin
  | SortPlan child orders on_output => of_result (sort_open orders on_output (run_op child))
  | _ => ([], Raise Internal)
  end.

(** The rows a statement's plan selects: the result of a SELECT, the rows a DELETE or an UPDATE acts on. *)
Definition selected `{Storage} (plan : PlanNode) : result (list Row) :=
  match plan with
  | DeletePlan table (Some child) => drain (run_op child)
  | DeletePlan table None => drain (scan (meta table))
  | UpdatePlan _ _ child => drain (run_op child)
  | _ => drain (run_op plan)
  end.

(** * Draining *)
Lemma drain_of_result {A} (r : result (list A)) : drain (of_result r) = r.
Proof. by destruct r. Qed.
Lemma drain_cons {A} (r : A) s out : drain (let '(o, e) := s in (r :: o, e)) = Ok out <-> exists o, drain s = Ok o /\ out = r :: o.
Proof.
  destruct s as [o [[]| |]]; unfold drain; simpl; split; try done; try (by intros (? & ? & _)).
  - intros [= <-]. by exists o.
  - by intros (? & [= <-] & ->).
Qed.
Lemma chain_ok {A} (ss : list (list A)) : chain ((fun xs => (xs, Ok tt)) <$> ss) = (concat ss, Ok tt).
Proof. induction ss as [|xs ss IH]; [done|]. rewrite fmap_cons. cbn [chain concat]. by rewrite IH. Qed.
(** A pull loop that ends without an error applied its function to every row. *)
Lemma drain_pull f rows fin out :
  drain (pull f rows fin) = Ok out <-> fin = Ok tt /\ exists ys, mapM f rows = Ok ys /\ out = omap id ys.
Proof.
  revert out; induction rows as [|r rows IH]; intros out; cbn [pull mapM].
  - unfold drain. simpl. destruct fin as [[]| |]; simpl; split; try done; try (by intros (? & _)).
    + intros [= <-]. split; [done|]. by exists [].
    + by intros (_ & ys & [= <-] & ->).
  - destruct (f r) as [[r'|]| |]; cbn [mbind result_bind]; [| |split; [done|by intros (_ & ? & ? & _)]..].
    + rewrite drain_cons. split.
      * intros (o & (Hf & ys & Hys & ->)%IH & ->). split; [done|]. exists (Some r' :: ys). by rewrite Hys.
      * intros (Hf & ys & (zs & Hz & [= <-])%bind_ok & ->). exists (omap id zs). split; [|done]. apply IH. eauto.
    + rewrite IH. split; intros (Hf & ys & Hys & ->); (split; [done|]).
      * exists (None :: ys). by rewrite Hys.
      * apply bind_ok in Hys as (zs & Hz & [= <-]). by exists zs.
Qed.
Lemma drain_pull_stream f s out :
  drain (let '(rows, fin) := s in pull f rows fin) = Ok out <->
  exists rows ys, drain s = Ok rows /\ mapM f rows = Ok ys /\ out = omap id ys.
Proof.
  destruct s as [rows fin]. rewrite drain_pull. unfold drain. simpl. split.
  - intros (-> & ys & Hys & Ho). by exists rows, ys.
  - intros (rows' & ys & Hr & Hys & Ho). apply bind_ok in Hr as ([] & Hf & [= <-]). split; [done|]. by exists ys.
Qed.

(** * Conjunctions *)
Section conj.
Context (ts : list TypeAttr) (row : list Value) (Hrow : context_ok ts (Some row)).
Definition is_pred (e : BoundExpr) : Prop := exists t, has_type ts e t /\ bool_or_null t = true.

Lemma where_iff e b : is_pred e -> where_match e row = Ok b <-> exists v, eval_row e row = Ok v /\ truth v = b.
Proof using Hrow. intros (t & Ht & Hb). by eapply where_truth. Qed.
Lemma and_pred l r : is_pred l -> is_pred r -> is_pred (BoundLogic LAnd l r).
Proof using. intros (lt & Hl & Bl) (rt & Hr & Br). exists kBool. split; [by eapply ht_logic|done]. Qed.
Lemma where_and l r b : is_pred l -> is_pred r ->
  where_match (BoundLogic LAnd l r) row = Ok b <->
  exists bl br, where_match l row = Ok bl /\ where_match r row = Ok br /\ b = bl && br.
Proof using Hrow.
  intros Hl Hr. rewrite where_iff by (by apply and_pred). setoid_rewrite where_iff; [|done..].
  destruct Hl as (lt & Hl & Bl), Hr as (rt & Hr & Br). unfold eval_row. cbn [eval_bound].
  pose proof (eval_typed ts (Some row) l lt Hrow Hl) as Sl. pose proof (eval_typed ts (Some row) r rt Hrow Hr) as Sr.
  destruct (eval_bound l (Some row)) as [v| |]; cbn [mbind result_bind];
    [|by split; [intros (? & ? & _)|intros (? & ? & (? & ? & _) & _)]..].
  destruct (eval_bound r (Some row)) as [w| |]; cbn [mbind result_bind];
    [|by split; [intros (? & ? & _)|intros (? & ? & _ & (? & ? & _) & _)]..].
  simpl in Sl, Sr. destruct (logic_total LAnd lt rt v w) as [u Hu]; eauto using has_type_ok.
  rewrite Hu. pose proof (logic_truth LAnd lt rt v w u (has_type_ok _ _ _ Hl) (has_type_ok _ _ _ Hr) Bl Br Sl Sr Hu) as Ht.
  split.
  - intros (? & [= <-] & <-). exists (truth v), (truth w). split_and!; [by exists v|by exists w|done].
  - intros (bl & br & (? & [= <-] & <-) & (? & [= <-] & <-) & ->). by exists u.
Qed.

Lemma flatten_preds e : is_pred e -> Forall is_pred (flatten e).
Proof using.
  intros H. induction e as [| | | | |[] l r IHl IHr| | | |] using BoundExpr_ind'; try (by constructor).
  destruct H as (t & H & _). inversion H; subst. simpl. apply Forall_app. split; [apply IHl|apply IHr]; by eexists.
Qed.
(** A predicate holds when all its conjuncts do, and evaluates when they all evaluate. *)
Definition holds_all (es : list BoundExpr) (b : bool) : Prop :=
  exists bs, mapM (fun e => where_match e row) es = Ok bs /\ b = forallb id bs.
Lemma mapM_app {A B} (f : A -> result B) l1 l2 ys : mapM f (l1 ++ l2) = Ok ys <->
  exists y1 y2, mapM f l1 = Ok y1 /\ mapM f l2 = Ok y2 /\ ys = y1 ++ y2.
Proof using. rewrite mapM_ok. split.
  - intros (y1 & y2 & H1 & H2 & ->)%Forall2_app_inv_l. exists y1, y2. by rewrite !mapM_ok.
  - intros (y1 & y2 & H1 & H2 & ->). rewrite mapM_ok in H1, H2. by apply Forall2_app.
Qed.
Lemma holds_app l1 l2 b : holds_all (l1 ++ l2) b <-> exists b1 b2, holds_all l1 b1 /\ holds_all l2 b2 /\ b = b1 && b2.
Proof using.
  unfold holds_all. setoid_rewrite mapM_app. split.
  - intros (bs & (y1 & y2 & H1 & H2 & ->) & ->). exists (forallb id y1), (forallb id y2).
    split_and!; [by exists y1|by exists y2|apply forallb_app].
  - intros (b1 & b2 & (y1 & H1 & ->) & (y2 & H2 & ->) & ->). exists (y1 ++ y2). split; [by exists y1, y2|].
    symmetry. apply forallb_app.
Qed.
Lemma holds_one e b : holds_all [e] b <-> where_match e row = Ok b.
Proof using.
  unfold holds_all. simpl. split.
  - intros (bs & (y & -> & [= <-])%bind_ok & ->). by destruct y.
  - intros ->. exists [b]. split; [done|]. by destruct b.
Qed.
Lemma flatten_holds e b : is_pred e -> where_match e row = Ok b <-> holds_all (flatten e) b.
Proof using Hrow.
  intros H. revert b. induction e as [| | | | |[] l r IHl IHr| | | |] using BoundExpr_ind'; intros b; try (symmetry; apply holds_one).
  destruct H as (t & H & _). inversion H; subst. simpl.
  assert (is_pred l) as Pl by (by eexists). assert (is_pred r) as Pr by (by eexists).
  rewrite where_and, holds_app by done. split; intros (b1 & b2 & H1 & H2 & ->); exists b1, b2.
  - split_and!; [by apply IHl|by apply IHr|done].
  - split_and!; [by apply IHl|by apply IHr|done].
Qed.
Lemma join_holds p ps b : is_pred p -> Forall is_pred ps ->
  is_pred (fold_left (BoundLogic LAnd) ps p) /\
  (where_match (fold_left (BoundLogic LAnd) ps p) row = Ok b <-> holds_all (p :: ps) b).
Proof using Hrow.
  intros Hp Hps. revert p b Hp. induction Hps as [|q ps Hq _ IH]; intros p b Hp; [split; [done|by rewrite holds_one]|].
  simpl. destruct (IH (BoundLogic LAnd p q) b (and_pred _ _ Hp Hq)) as [H1 H2]. split; [done|]. rewrite H2.
  change (BoundLogic LAnd p q :: ps) with ([BoundLogic LAnd p q] ++ ps). change (p :: q :: ps) with ([p] ++ [q] ++ ps).
  rewrite !holds_app. setoid_rewrite holds_app. setoid_rewrite holds_one. setoid_rewrite where_and; [|done..]. split.
  - intros (b1 & b2 & (bl & br & Hl & Hr & ->) & H & ->). exists bl, (br && b2). split_and!; [done| |by rewrite andb_assoc].
    by exists br, b2.
  - intros (bl & b2' & Hl & (br & b2 & Hr & H & ->) & ->). exists (bl && br), b2. split_and!; [by exists bl, br|done|by rewrite andb_assoc].
Qed.
End conj.

(** * Index conditions *)
Lemma match_hit_exact ts row col ord e i h b x kx :
  context_ok ts (Some row) -> is_pred ts e -> ts !! ord = Some (ctype col) -> indexable (ctype col) ->
  match_hit e col ord i kDouble = Ok (Some h) -> row !! ord = Some x -> encode_key (ctype col) x = Ok kx ->
  where_match e row = Ok b ->
  conj h = i /\ Forall range_ok (h_ranges h) /\ range_count (h_ranges h) kx = if b then 1%nat else 0%nat.
Proof.
  intros Hrow Hp Hts Hcol Hh Hx Hkx Hb. pose proof Hp as (t & He & Bt).
  apply (where_iff ts row Hrow e b Hp) in Hb as (r & Hr & Htr).
  assert (value_ok (ctype col) x) as Hvx.
  { simpl in Hrow. destruct (Forall2_lookup_l _ _ _ _ _ Hrow Hts) as (y & Hy & Hv). rewrite Hx in Hy. by injection Hy as ->. }
  assert (forall e', is_col ord e' = true -> eval_bound e' (Some row) = Ok x) as Hc.
  { intros e' H. destruct e'; try done. apply Nat.eqb_eq in H as ->. cbn [eval_bound]. by rewrite Hx. }
  assert (forall e' v, const_of e' = Some v -> e' = BoundConst v) as Hk by (intros []; simpl; congruence).
  destruct e as [| | | |op l r'| | |e n| |]; try done; unfold match_hit in Hh.
  - inversion He; subst. destruct (Bool.eqb _ _) eqn:Elr; [done|].
    destruct (is_col ord l) eqn:El.
    + destruct (const_of r') as [v|] eqn:Ev; [|done]. apply Hk in Ev as ->.
      apply bind_ok in Hh as ([k|] & Hk' & Hh); [|done]. injection Hh as <-.
      match goal with H : has_type ts (BoundConst v) ?rt |- _ =>
        pose proof (const_eval ts v rt (Some row) H) as Hcv; pose proof (has_type_ok _ _ _ H) as Hty;
        pose proof (eval_typed ts (Some row) _ rt Hrow H) as Hsv; rewrite Hcv in Hsv; simpl in Hsv end.
      assert (is_null v = false) as Hnv by (unfold key_of in Hk'; unfold is_null, value_is_null; by destruct (box v)).
      destruct (compare_ranges_eq col op v x k kx _ Hcol Hvx Hty Hsv Hnv Hk' Hkx) as (Hok & (u & Hu & Hcount) & _).
      cbn [conj h_ranges]. split_and!; [done|apply Hok|]. rewrite Hcount.
      unfold eval_row in Hr. cbn [eval_bound] in Hr. rewrite (Hc l El) in Hr. cbn [mbind result_bind] in Hr.
      change (eval_bound (BoundConst v) (Some row)) with (eval_bound (BoundConst v) (Some row)) in Hr.
      cbn [eval_bound] in Hcv. rewrite Hcv in Hr. cbn [mbind result_bind] in Hr. rewrite Hu in Hr. by injection Hr as ->.
    + destruct (is_col ord r') eqn:Er; [|done]. destruct (const_of l) as [v|] eqn:Ev; [|done]. apply Hk in Ev as ->.
      apply bind_ok in Hh as ([k|] & Hk' & Hh); [|done]. injection Hh as <-.
      match goal with H : has_type ts (BoundConst v) ?rt |- _ =>
        pose proof (const_eval ts v rt (Some row) H) as Hcv; pose proof (has_type_ok _ _ _ H) as Hty;
        pose proof (eval_typed ts (Some row) _ rt Hrow H) as Hsv; rewrite Hcv in Hsv; simpl in Hsv end.
      assert (is_null v = false) as Hnv by (unfold key_of in Hk'; unfold is_null, value_is_null; by destruct (box v)).
      destruct (compare_ranges_eq col op v x k kx _ Hcol Hvx Hty Hsv Hnv Hk' Hkx) as (Hok & _ & (u & Hu & Hcount)).
      cbn [conj h_ranges]. split_and!; [done|apply Hok|]. rewrite Hcount.
      unfold eval_row in Hr. cbn [eval_bound] in Hr. cbn [eval_bound] in Hcv. rewrite Hcv in Hr. cbn [mbind result_bind] in Hr.
      rewrite (Hc r' Er) in Hr. cbn [mbind result_bind] in Hr. rewrite Hu in Hr. by injection Hr as ->.
  - destruct (is_col ord e) eqn:Ec; [|done]. cbn [negb] in Hh. injection Hh as <-. cbn [conj h_ranges].
    destruct (encode_key_ok (ctype col) x Hcol Hvx) as (k & Hk' & Hok & Hnull). rewrite Hk' in Hkx. injection Hkx as ->.
    destruct (null_ranges_count n kx Hok) as [Hro ->]. split_and!; [done..|]. rewrite Hnull.
    unfold eval_row in Hr. cbn [eval_bound] in Hr. rewrite (Hc e Ec) in Hr. injection Hr as <-. subst b. unfold truth.
    cbn [bool_of box bool_val]. by destruct n, (is_null x).
Qed.

(** The ranges of a condition are well formed, whatever rows there are. *)
Lemma match_hit_ranges ts col ord e i h : is_pred ts e -> indexable (ctype col) -> match_hit e col ord i kDouble = Ok (Some h) -> Forall range_ok (h_ranges h).
Proof.
  intros (t & He & _) Hcol Hh. set (row := (fun _ => null_val) <$> ts).
  assert (context_ok ts (Some row)) as Hrow by (unfold row; cbn [context_ok]; apply Forall2_fmap_r, Forall_Forall2_diag, Forall_true; intros; by left).
  assert (forall e' v, const_of e' = Some v -> e' = BoundConst v) as Hk by (intros []; simpl; congruence).
  assert (forall v rt k op, has_type ts (BoundConst v) rt -> key_of col v kDouble = Ok (Some k) -> Forall range_ok (cmp_ranges op k)) as Hc.
  { intros v rt k op H Hk'. pose proof (eval_typed ts (Some row) _ rt Hrow H) as Hsv. rewrite (const_eval ts v rt (Some row) H) in Hsv.
    assert (is_null v = false) as Hnv by (unfold key_of in Hk'; unfold is_null, value_is_null; by destruct (box v)).
    by destruct (compare_ranges_eq col op v null_val k k_null_key rt Hcol (or_introl eq_refl) (has_type_ok _ _ _ H) Hsv Hnv Hk' eq_refl) as [? _]. }
  destruct e as [| | | |op l r'| | |e n| |]; try done; unfold match_hit in Hh.
  - inversion He; subst. destruct (Bool.eqb _ _); [done|]. destruct (is_col ord l).
    + destruct (const_of r') as [v|] eqn:Ev; [|done]. apply Hk in Ev as ->. apply bind_ok in Hh as ([k|] & Hk' & [= <-]). by eapply Hc.
    + destruct (const_of l) as [v|] eqn:Ev; [|done]. apply Hk in Ev as ->. apply bind_ok in Hh as ([k|] & Hk' & [= <-]). by eapply Hc.
  - destruct (negb _); [done|]. injection Hh as <-. by apply (null_ranges_count n k_null_key), null_key_ok.
Qed.

(** The conjuncts an index answers and the others, as [match_hits] separates them. *)
Inductive hit_split (col : ColumnSpec) (ord : nat) : nat -> list BoundExpr -> list Hit -> list BoundExpr -> Prop :=
| hs_nil i : hit_split col ord i [] [] []
| hs_hit i e h es hs ns : match_hit e col ord i kDouble = Ok (Some h) -> conj h = i -> hit_split col ord (S i) es hs ns ->
    hit_split col ord i (e :: es) (h :: hs) ns
| hs_miss i e es hs ns : hit_split col ord (S i) es hs ns -> hit_split col ord i (e :: es) hs (e :: ns).

Lemma match_hit_conj e col ord i h : match_hit e col ord i kDouble = Ok (Some h) -> conj h = i.
Proof.
  unfold match_hit. destruct e as [| | | |op l r| | |e n| |]; try done.
  - destruct (Bool.eqb _ _); [done|]. destruct (if is_col ord l then _ else _) as [[v|] o]; [|done].
    intros (k & _ & H)%bind_ok. destruct k; [|done]. by injection H as <-.
  - destruct (negb _); [done|]. by intros [= <-].
Qed.
Lemma match_hits_split col ord i es hs : match_hits col ord kDouble i es = Ok hs -> exists ns, hit_split col ord i es hs ns.
Proof.
  revert i hs; induction es as [|e es IH]; intros i hs; simpl; [intros [= <-]; exists []; constructor|].
  intros (h & Hh & (hs' & Hhs & [= <-])%bind_ok)%bind_ok. destruct (IH _ _ Hhs) as (ns & Hs).
  destruct h as [h|]; [|exists (e :: ns); by constructor]. exists ns. constructor; [done| |done]. by eapply match_hit_conj.
Qed.
Lemma residual_split col ord i es hs ns hs0 : hit_split col ord i es hs ns -> Forall (fun h => conj h < i)%nat hs0 ->
  (List.filter (fun p => negb (existsb (fun h => Nat.eqb (conj h) p.1) (hs0 ++ hs))) (imap (fun j e => (i + j, e)%nat) es)).*2 = ns
  /\ Forall (fun h => i <= conj h)%nat hs.
Proof.
  intros H. revert hs0. induction H as [i|i e h es hs ns Hh Hc Hs IH|i e es hs ns Hs IH]; intros hs0 H0; [by split|..].
  - assert (forall l, imap (fun j e => ((i + S j)%nat, e)) l = imap (fun j e => ((S i + j)%nat, e)) (l : list BoundExpr)) as Hi.
    { intros l. apply imap_ext. intros. f_equal. lia. }
    destruct (IH (hs0 ++ [h])) as [IH1 IH2].
    { apply Forall_app. split; [|constructor; [lia|constructor]]. eapply Forall_impl; [|exact H0]. simpl. lia. }
    split; [|constructor; [lia|]; eapply Forall_impl; [|exact IH2]; simpl; lia].
    rewrite imap_cons. cbn [List.filter fst]. rewrite existsb_app. cbn [existsb]. rewrite Nat.add_0_r, Hc, Nat.eqb_refl, orb_true_r.
    cbn [negb]. unfold compose. rewrite Hi. rewrite <- app_assoc in IH1. exact IH1.
  - assert (forall l, imap (fun j e => ((i + S j)%nat, e)) l = imap (fun j e => ((S i + j)%nat, e)) (l : list BoundExpr)) as Hi.
    { intros l. apply imap_ext. intros. f_equal. lia. }
    destruct (IH hs0) as [IH1 IH2]; [eapply Forall_impl; [|exact H0]; simpl; lia|].
    split; [|eapply Forall_impl; [|exact IH2]; simpl; lia].
    rewrite imap_cons. cbn [List.filter fst]. rewrite existsb_app, Nat.add_0_r.
    assert (existsb (fun h => Nat.eqb (conj h) i) hs0 = false) as ->.
    { clear -H0. induction H0 as [|h l Hh _ IH]; [done|]. simpl. rewrite IH. destruct (Nat.eqb_spec (conj h) i); [lia|done]. }
    assert (existsb (fun h => Nat.eqb (conj h) i) hs = false) as ->.
    { clear -IH2. induction IH2 as [|h l Hh _ IH]; [done|]. simpl. rewrite IH. destruct (Nat.eqb_spec (conj h) i); [lia|done]. }
    cbn [orb negb]. rewrite fmap_cons. cbn [snd]. f_equal. unfold compose. rewrite Hi. exact IH1.
Qed.
Lemma residual_eq col ord es hs ns : hit_split col ord 0 es hs ns -> residual hs es = ns.
Proof.
  intros H. destruct (residual_split col ord 0 es hs ns [] H (List.Forall_nil _)) as [Hr _]. exact Hr.
Qed.

Lemma split_ranges ts col ord i es hs ns : indexable (ctype col) -> Forall (is_pred ts) es -> hit_split col ord i es hs ns ->
  Forall range_ok (intersect_ranges hs).
Proof.
  intros Hcol Hp Hs. assert (Forall (fun h => Forall range_ok (h_ranges h)) hs) as Hh.
  { revert Hp. induction Hs as [i|i e h es hs ns Hh Hc Hs IH|i e es hs ns Hs IH]; intros Hp; [done|..]; inversion_clear Hp; [|by apply IH].
    constructor; [by eapply match_hit_ranges|by apply IH]. }
  unfold intersect_ranges. assert (Forall range_ok [mkRange None None]) as Hr by (by repeat constructor). revert Hr. generalize [mkRange None None].
  clear Hs. induction Hh as [|h hs Ho _ IH]; intros rs Hr; [done|]. simpl. destruct (range_count_meet rs (h_ranges h) k_null_key Hr Ho null_key_ok) as [Hm _].
  destruct (is_nil _); [done|by apply IH].
Qed.

Definition answers (kx : IndexKey) (h : Hit) (b : bool) : Prop :=
  Forall range_ok (h_ranges h) /\ range_count (h_ranges h) kx = if b then 1%nat else 0%nat.
Lemma split_holds ts row col ord i es hs ns b x kx :
  context_ok ts (Some row) -> Forall (is_pred ts) es -> ts !! ord = Some (ctype col) -> indexable (ctype col) ->
  row !! ord = Some x -> encode_key (ctype col) x = Ok kx ->
  hit_split col ord i es hs ns -> holds_all row es b ->
  exists bs bn, Forall2 (answers kx) hs bs /\ holds_all row ns bn /\ b = forallb id bs && bn.
Proof.
  intros Hrow Hp Hts Hcol Hx Hkx Hs. revert b. induction Hs as [i|i e h es hs ns Hh Hc Hs IH|i e es hs ns Hs IH]; intros b Hb;
    inversion_clear Hp.
  - exists [], b. split_and!; [constructor|done|done].
  - change (e :: es) with ([e] ++ es) in Hb. apply holds_app in Hb as (b1 & b2 & H1 & H2 & ->).
    apply holds_one in H1. destruct (IH ltac:(done) b2 H2) as (bs & bn & Hbs & Hbn & ->).
    destruct (match_hit_exact ts row col ord e i h b1 x kx) as (_ & Hro & Hrc); try done.
    exists (b1 :: bs), bn. split_and!; [constructor; [by split|done]|done|by rewrite andb_assoc].
  - change (e :: es) with ([e] ++ es) in Hb. apply holds_app in Hb as (b1 & b2 & H1 & H2 & ->).
    destruct (IH ltac:(done) b2 H2) as (bs & bn & Hbs & Hbn & ->).
    exists bs, (b1 && bn). split_and!; [done| |destruct b1, (forallb id bs); done].
    change (e :: ns) with ([e] ++ ns). apply holds_app. eauto.
Qed.
Lemma intersect_count kx hs bs ranges : key_ok kx -> Forall2 (answers kx) hs bs -> Forall range_ok ranges ->
  range_count (intersect_loop ranges hs) kx = if forallb id bs then range_count ranges kx else 0%nat.
Proof.
  intros Hk H. revert ranges. induction H as [|h b hs bs [Ho Hc] _ IH]; intros ranges Hr; [done|]. simpl.
  destruct (range_count_meet ranges (h_ranges h) kx Hr Ho Hk) as [Ho' Hc']. rewrite Hc in Hc'.
  destruct (is_nil (ranges_meet ranges (h_ranges h))) eqn:En.
  - apply is_nil_true in En. rewrite En in Hc'. change (range_count [] kx) with 0%nat in *. destruct b; simpl; [|done].
    destruct (forallb id bs); lia.
  - rewrite IH by done. rewrite Hc'. destruct b; simpl; [|by destruct (forallb id bs); lia]. destruct (forallb id bs); lia.
Qed.

(** * Scanning an index range by range *)
Definition held (ranges : list IndexRange) (e : BTreeEntry) : bool := Nat.eqb (range_count ranges (ekey e)) 1.
Lemma scan_cons ranges e es :
  concat ((fun r => List.filter (fun e => in_range r (ekey e)) (e :: es)) <$> ranges) ≡ₚ
  replicate (range_count ranges (ekey e)) e ++ concat ((fun r => List.filter (fun e => in_range r (ekey e)) es) <$> ranges).
Proof.
  induction ranges as [|r ranges IH]; [done|]. rewrite !fmap_cons. cbn [concat]. rewrite IH, range_count_cons. cbn [List.filter].
  destruct (in_range r (ekey e)).
  - change (1 + range_count ranges (ekey e))%nat with (S (range_count ranges (ekey e))). cbn [replicate].
    rewrite <- !app_comm_cons. constructor. by rewrite Permutation_app_swap_app.
  - change (0 + range_count ranges (ekey e))%nat with (range_count ranges (ekey e)). by rewrite Permutation_app_swap_app.
Qed.
Lemma scan_held ranges es : Forall (fun e => range_count ranges (ekey e) <= 1)%nat es ->
  concat ((fun r => List.filter (fun e => in_range r (ekey e)) es) <$> ranges) ≡ₚ List.filter (held ranges) es.
Proof.
  induction 1 as [|e es He _ IH].
  - clear. induction ranges as [|r ranges IH]; [done|]. exact IH.
  - rewrite scan_cons, IH. unfold held. cbn [List.filter]. destruct (range_count ranges (ekey e)) as [|[|n]]; [done|done|lia].
Qed.

(** * What an index promises the executor *)
(** The index [ent] serves the table when scanning it yields, between any bounds, the entries of a list
    [es] whose live ones (those [f] maps to a row, which is also what reading their place returns) are
    the table's rows, each under the key of its column value; entries of deleted rows may remain. *)
Definition entry_ok `{Storage} (t : TableMeta) (ord : nat) (ct : TypeAttr) (f : BTreeEntry -> option Row) (e : BTreeEntry) : Prop :=
  read_row (entry_ref (tfile_id t) e) (cols t) = Ok (rvalues <$> f e) /\
  forall r, f e = Some r -> r = mkRow 0 (entry_ref (tfile_id t) e) (rvalues r) /\
    exists v, rvalues r !! ord = Some v /\ encode_key ct v = Ok (ekey e).
Definition serves `{Storage} (t : TableMeta) (rows : list Row) (ent : IndexEntry) : Prop :=
  exists col es f, cols t !! col_ordinal ent = Some col /\ indexable (ctype col) /\
    (forall l h, bound_ok l -> bound_ok h -> index_scan (ix_file_id ent) l h = Ok (List.filter (fun e => in_range (mkRange l h) (ekey e)) es, Ok tt)) /\
    Forall (entry_ok t (col_ordinal ent) (ctype col) f) es /\ omap f es ≡ₚ rows.

Definition sat (pred : BoundExpr) (r : Row) : bool :=
  match where_match pred (rvalues r) with Ok b => b | _ => false end.
Lemma drain_filter pred rows fin out :
  drain (pull (filter_row pred) rows fin) = Ok out <->
  fin = Ok tt /\ Forall (fun r => where_match pred (rvalues r) = Ok (sat pred r)) rows /\ out = List.filter (sat pred) rows.
Proof.
  rewrite drain_pull. split; intros [-> H]; (split; [done|]).
  - destruct H as (ys & Hys & ->). apply mapM_ok in Hys. induction Hys as [|r y rows ys Hy _ [IH1 IH2]]; [by split|].
    unfold filter_row in Hy. apply bind_ok in Hy as (b & Hb & [= <-]).
    assert (sat pred r = b) as Hs by (unfold sat; by rewrite Hb).
    split; [constructor; [by rewrite Hs|done]|]. cbn [List.filter]. rewrite Hs, <- IH2. by destruct b.
  - destruct H as [H ->]. induction H as [|r rows Hr _ (ys & Hys & IH)]; [by exists []|].
    exists ((if sat pred r then Some r else None) :: ys).
    assert (filter_row pred r = Ok (if sat pred r then Some r else None)) as Hf by (unfold filter_row; by rewrite Hr).
    simpl. rewrite Hf, Hys. split; [done|]. cbn [List.filter]. rewrite IH. by destruct (sat pred r).
Qed.

Section serve.
Context `{Storage} (t : TableMeta) (rows : list Row).

Lemma pick_loop_inv idxs es best b :
  pick_loop t es kDouble best idxs = Ok b ->
  forall ent eq hits, b = Some (ent, eq, hits) ->
    best = Some (ent, eq, hits) \/
    (In ent idxs /\ hits <> [] /\ exists col, cols t !! col_ordinal ent = Some col /\
       match_hits col (col_ordinal ent) kDouble 0 es = Ok hits).
Proof using.
  revert best; induction idxs as [|i idxs IH]; intros best; simpl; [intros [= <-]; by left|].
  intros (best' & Hs & Hb)%bind_ok ent eq hits ->. destruct (IH best' Hb ent eq hits eq_refl) as [->|(H1 & H2)]; [|by eauto].
  unfold pick_step in Hs. destruct (cols t !! col_ordinal i) as [col|] eqn:Ec; [|done].
  apply bind_ok in Hs as (hs & Hhs & Hs). destruct (is_nil hs) eqn:En; [injection Hs as ->; by left|].
  assert (best = Some (ent, eq, hits) \/ Some (i, existsb h_eq hs, hs) = Some (ent, eq, hits)) as [->|[= <- <- <-]].
  { destruct best as [[[b be] bh]|]; [|right; congruence]. destruct (_ && _); [left|right]; congruence. }
  - by left.
  - right. split; [by left|]. split; [intros ->; done|]. by exists col.
Qed.

Lemma fetch_all f ord ct es : Forall (entry_ok t ord ct f) es ->
  mapM (fetch_row (cols t)) (entry_row (tfile_id t) <$> es) = Ok (f <$> es).
Proof using.
  induction 1 as [|e es [Hr Hf] _ IH]; [done|]. rewrite !fmap_cons. simpl.
  assert (fetch_row (cols t) (entry_row (tfile_id t) e) = Ok (f e)) as ->; [|by rewrite IH].
  unfold fetch_row. cbn [rref rid entry_row]. rewrite Hr. cbn [mbind result_bind].
  destruct (f e) as [r|] eqn:E; [|done]. simpl. by destruct (Hf r eq_refl) as [-> _].
Qed.
Lemma omap_fmap_id {A B} (f : A -> option B) (l : list A) : omap id (f <$> l) = omap f l.
Proof using. induction l as [|x l IH]; [done|]. cbn. destruct (f x); [f_equal|]; exact IH. Qed.
Lemma omap_live {A B} (f : A -> option B) (P : A -> bool) l :
  omap f (List.filter P l) = omap f (List.filter P (List.filter (fun x => bool_decide (is_Some (f x))) l)).
Proof using.
  induction l as [|x l IH]; [done|]. cbn [List.filter]. destruct (f x) as [y|] eqn:E; cbn.
  - destruct (P x); cbn; rewrite ?E; [f_equal|]; exact IH.
  - destruct (P x); cbn; rewrite ?E; exact IH.
Qed.
Lemma omap_concat_live {A B} (f : A -> option B) (Ps : list (A -> bool)) l :
  omap f (concat ((fun P => List.filter P l) <$> Ps)) =
  omap f (concat ((fun P => List.filter P (List.filter (fun x => bool_decide (is_Some (f x))) l)) <$> Ps)).
Proof using.
  induction Ps as [|P Ps IH]; [done|]. rewrite !fmap_cons. cbn [concat]. by rewrite !omap_app, IH, omap_live.
Qed.

(** Is the key of a row's column in the ranges? *)
Definition row_held (ord : nat) (ct : TypeAttr) (ranges : list IndexRange) (r : Row) : bool :=
  match rvalues r !! ord with
  | Some v => match encode_key ct v with Ok k => Nat.eqb (range_count ranges k) 1 | _ => false end
  | None => false
  end.
Lemma omap_held f ord ct ranges es : Forall (entry_ok t ord ct f) es ->
  omap f (List.filter (held ranges) (List.filter (fun x => bool_decide (is_Some (f x))) es)) =
  List.filter (row_held ord ct ranges) (omap f es).
Proof using.
  induction 1 as [|e es [_ Hf] _ IH]; [done|]. cbn [List.filter]. destruct (f e) as [r|] eqn:E; cbn.
  - rewrite E. cbn [List.filter]. destruct (Hf r eq_refl) as (_ & v & Hv & Hk). unfold row_held at 1. rewrite Hv, Hk. fold (held ranges e).
    destruct (held ranges e); cbn; rewrite ?E; [f_equal|]; exact IH.
  - rewrite E. exact IH.
Qed.

Lemma index_fetch ent ranges col es f : Forall range_ok ranges ->
  (forall l h, bound_ok l -> bound_ok h -> index_scan (ix_file_id ent) l h = Ok (List.filter (fun e => in_range (mkRange l h) (ekey e)) es, Ok tt)) ->
  Forall (entry_ok t (col_ordinal ent) (ctype col) f) es -> omap f es ≡ₚ rows ->
  (forall r, In r rows -> forall v k, rvalues r !! col_ordinal ent = Some v -> encode_key (ctype col) v = Ok k ->
     (range_count ranges k <= 1)%nat) ->
  exists got, drain (let '(rs, fin) := scan_ranges (ix_file_id ent) (tfile_id t) ranges in
                     pull (fetch_row (cols t)) rs fin) = Ok got
    /\ got ≡ₚ List.filter (row_held (col_ordinal ent) (ctype col) ranges) rows.
Proof using.
  intros Hro Hscan Hes Hperm Hone.
  set (sel := concat ((fun r => List.filter (fun e => in_range r (ekey e)) es) <$> ranges)).
  assert (scan_ranges (ix_file_id ent) (tfile_id t) ranges = (entry_row (tfile_id t) <$> sel, Ok tt)) as Hsc.
  { unfold scan_ranges, sel. assert (mapM (fun r => index_scan (ix_file_id ent) (lo r) (hi r)) ranges =
      Ok ((fun xs => (xs, Ok tt)) <$> ((fun r => List.filter (fun e => in_range r (ekey e)) es) <$> ranges))) as ->; [|by rewrite chain_ok].
    rewrite <- list_fmap_compose.
    apply mapM_ok. clear -Hscan Hro. induction Hro as [|r rs [Hl Hh] _ IH]; constructor; [|done]. rewrite Hscan by done. by destruct r. }
  assert (Forall (entry_ok t (col_ordinal ent) (ctype col) f) sel) as Hsel.
  { apply List.Forall_forall. intros e He. apply in_concat in He as (l & Hl & He).
    apply list_elem_of_In, list_elem_of_fmap in Hl as (r & -> & _). apply filter_In in He as [He _].
    by eapply List.Forall_forall. }
  exists (omap f sel). split.
  - apply drain_pull_stream. exists (entry_row (tfile_id t) <$> sel), (f <$> sel).
    rewrite Hsc. split_and!; [done|by eapply fetch_all|by rewrite omap_fmap_id].
  - unfold sel. pose proof (omap_concat_live f ((fun r e => in_range r (ekey e)) <$> ranges) es) as Hl.
    rewrite <- !list_fmap_compose in Hl. unfold compose in Hl. rewrite Hl. clear Hl.
    rewrite scan_held.
    + rewrite (omap_held f (col_ordinal ent) (ctype col)) by done. by rewrite Hperm.
    + apply List.Forall_forall. intros e [He Hlive]%filter_In. apply bool_decide_eq_true in Hlive as [r Hr].
      pose proof (proj1 (List.Forall_forall _ _) Hes e He) as [_ Hf]. destruct (Hf r Hr) as (_ & v & Hv & Hk).
      apply (Hone r) with (v := v); [|done|done]. apply list_elem_of_In. rewrite <- Hperm. apply list_elem_of_omap.
      exists e. split; [by apply list_elem_of_In|done].
Qed.
End serve.

Definition col_types (t : TableMeta) : list TypeAttr := ctype <$> cols t.
Section rewrite.
Context `{Storage} `{Indexes} (table : TableHandle) (rows : list Row).
Context (Hrows : Forall (fun r => context_ok (col_types (meta table)) (Some (rvalues r))) rows).
Context (Hserve : forall idxs, indexes (meta table) = Ok idxs -> Forall (serves (meta table) rows) idxs).
Context (Hdouble : double_type = Ok kDouble) (Hscan : scan (meta table) = (rows, Ok tt)).

(** The conditions an index answers and the residual predicate together are the whole predicate. *)
Lemma row_condition pred col ord hits ns r x kx :
  is_pred (col_types (meta table)) pred -> cols (meta table) !! ord = Some col -> indexable (ctype col) ->
  hit_split col ord 0 (flatten pred) hits ns -> In r rows -> where_match pred (rvalues r) = Ok (sat pred r) ->
  rvalues r !! ord = Some x -> encode_key (ctype col) x = Ok kx ->
  (range_count (intersect_ranges hits) kx <= 1)%nat /\
  exists bn, holds_all (rvalues r) ns bn /\
    sat pred r = row_held ord (ctype col) (intersect_ranges hits) r && bn.
Proof using Hrows.
  intros Hp Hcol Hidx Hs Hr Hw Hx Hkx.
  pose proof (proj1 (List.Forall_forall _ _) Hrows r Hr) as Hctx.
  assert (col_types (meta table) !! ord = Some (ctype col)) as Hts by (unfold col_types; by rewrite list_lookup_fmap, Hcol).
  apply (flatten_holds _ _ Hctx _ _ Hp) in Hw.
  destruct (split_holds _ _ col ord 0 _ _ _ _ x kx Hctx (flatten_preds _ _ Hp) Hts Hidx Hx Hkx Hs Hw) as (bs & bn & Hbs & Hbn & Hb).
  assert (key_ok kx) as Hk.
  { destruct (Forall2_lookup_l _ _ _ _ _ Hctx Hts) as (y & Hy & Hv). rewrite Hx in Hy. injection Hy as <-.
    destruct (encode_key_ok (ctype col) x Hidx Hv) as (k & Hk & Hok & _). rewrite Hkx in Hk. by injection Hk as ->. }
  pose proof (intersect_count kx hits bs [mkRange None None] Hk Hbs) as Hc.
  fold (intersect_ranges hits) in Hc. rewrite Hc by (repeat constructor).
  change (range_count [mkRange None None] kx) with 1%nat.
  split; [destruct (forallb id bs); lia|]. exists bn. split; [done|]. rewrite Hb. f_equal.
  unfold row_held. rewrite Hx, Hkx, Hc by (repeat constructor). by destruct (forallb id bs).
Qed.

Lemma filter_filter_in {A} (P Q S : A -> bool) l : (forall x, In x l -> S x = P x && Q x) ->
  List.filter S l = List.filter Q (List.filter P l).
Proof using.
  intros Hx. induction l as [|x l IH]; [done|]. cbn [List.filter]. rewrite (Hx x) by (by left).
  rewrite IH by (intros y Hy; apply Hx; by right). destruct (P x); cbn [List.filter andb]; [|done]. by destruct (Q x).
Qed.

Lemma rewrite_scan_correct pred p' out :
  is_pred (col_types (meta table)) pred -> rewrite_scan (SeqScanPlan table) pred = Ok p' ->
  drain (run_op (FilterPlan (SeqScanPlan table) pred)) = Ok out -> exists out', drain (run_op p') = Ok out' /\ out ≡ₚ out'.
Proof using All.
  intros Hp Hr Hout. pose proof Hout as Hout0. cbn [run_op] in Hout. rewrite Hscan in Hout. 
  apply drain_filter in Hout as (_ & Hw & ->).
  unfold rewrite_scan in Hr. apply bind_ok in Hr as (idxs & Hi & Hr). pose proof (Hserve idxs Hi) as Hsv.
  destruct (is_nil idxs); [injection Hr as <-; by eexists|]. rewrite Hdouble in Hr. cbn [mbind result_bind] in Hr.
  apply bind_ok in Hr as (best & Hb & Hr). destruct best as [[ent hits]|]; [|injection Hr as <-; by eexists].
  unfold pick_index in Hb. apply bind_ok in Hb as (b & Hb & Hbe). destruct b as [[[ent' eq] hits']|]; [|done]. injection Hbe as -> ->.
  destruct (pick_loop_inv (meta table) idxs _ None _ Hb ent eq hits eq_refl) as [?|(Hin & _ & col & Hcol & Hm)]; [done|].
  destruct (match_hits_split _ _ _ _ _ Hm) as (ns & Hs). rewrite (residual_eq _ _ _ _ _ Hs) in Hr.
  pose proof (proj1 (List.Forall_forall _ _) Hsv ent Hin) as (col' & es & f & Hcol' & Hidx & Hix & Hes & Hperm).
  rewrite Hcol in Hcol'. injection Hcol' as <-.
  set (ranges := intersect_ranges hits) in *. set (held := row_held (col_ordinal ent) (ctype col) ranges) in *.
  assert (forall r, In r rows -> exists x kx, rvalues r !! col_ordinal ent = Some x /\ encode_key (ctype col) x = Ok kx) as Hkey.
  { intros r Hr'. assert (r ∈ omap f es) as He by (rewrite Hperm; by apply list_elem_of_In).
    apply list_elem_of_omap in He as (e & He & Hf). apply list_elem_of_In in He.
    destruct (proj1 (List.Forall_forall _ _) Hes e He) as [_ Hfe]. destruct (Hfe r Hf) as (_ & v & Hv & Hk). eauto. }
  assert (forall r, In r rows -> exists bn, holds_all (rvalues r) ns bn /\ sat pred r = held r && bn) as Hsat.
  { intros r Hr'. destruct (Hkey r Hr') as (x & kx & Hx & Hkx).
    by destruct (row_condition pred col (col_ordinal ent) hits ns r x kx Hp Hcol Hidx Hs Hr' (proj1 (List.Forall_forall _ _) Hw r Hr') Hx Hkx) as [_ Hc]. }
  assert (forall r, In r rows -> forall v k, rvalues r !! col_ordinal ent = Some v -> encode_key (ctype col) v = Ok k -> (range_count ranges k <= 1)%nat) as Hone.
  { intros r Hr' v k Hv Hk.
    by destruct (row_condition pred col (col_ordinal ent) hits ns r v k Hp Hcol Hidx Hs Hr' (proj1 (List.Forall_forall _ _) Hw r Hr') Hv Hk) as [Hc _]. }
  destruct (is_nil ranges) eqn:En.
  - injection Hr as <-. exists []. split; [done|]. apply is_nil_true in En.
    assert (List.filter (sat pred) rows = []) as ->; [|done].
    assert (forall r, In r rows -> sat pred r = false) as Hf.
    { intros r Hr'. destruct (Hsat r Hr') as (bn & _ & ->). destruct (Hkey r Hr') as (x & kx & Hx & Hkx).
      unfold held, row_held. rewrite Hx, Hkx, En. done. }
    clear -Hf. induction rows as [|r l IH]; [done|]. cbn [List.filter]. rewrite (Hf r) by (by left). apply IH.
    intros r' Hr'. apply Hf. by right.
  - assert (Forall range_ok ranges) as Hro by (eapply split_ranges; [exact Hidx|by apply flatten_preds|exact Hs]).
    destruct (index_fetch (meta table) rows ent ranges col es f Hro Hix Hes Hperm Hone) as (got & Hgot & Hgp). fold held in Hgp.
    destruct ns as [|n ns]; cbn [join_and] in Hr; injection Hr as <-.
    + exists got. split; [exact Hgot|]. rewrite Hgp.
      rewrite (filter_filter_in held (fun _ => true) (sat pred)).
      * clear. generalize (List.filter held rows). intros l. induction l as [|x l IH]; [done|]. simpl. by constructor.
      * intros r Hr'. destruct (Hsat r Hr') as (bn & (bs & Hbs & ->) & ->). by injection Hbs as <-.
    + set (q := fold_left (BoundLogic LAnd) ns n).
      assert (forall r, In r rows -> exists bn, where_match q (rvalues r) = Ok bn /\ sat pred r = held r && bn) as Hq.
      { intros r Hr'. destruct (Hsat r Hr') as (bn & Hbn & Hb'). exists bn. split; [|done].
        pose proof (proj1 (List.Forall_forall _ _) Hrows r Hr') as Hctx.
        assert (Forall (is_pred (col_types (meta table))) (n :: ns)) as Hps.
        { pose proof (flatten_preds _ _ Hp) as Hfl. clear -Hfl Hs. revert Hfl. generalize dependent (n :: ns). intros l Hs.
          induction Hs; intros Hfl; [done|..]; inversion_clear Hfl; [by apply IHHs|constructor; [done|by apply IHHs]]. }
        inversion_clear Hps. by apply (join_holds (col_types (meta table)) (rvalues r) Hctx n ns bn). }
      exists (List.filter (sat q) got). split.
      * cbn [run_op]. cbn [run_op] in Hgot.
        destruct (let '(rs, fin) := scan_ranges (ix_file_id ent) (tfile_id (meta table)) ranges in
                  pull (fetch_row (cols (meta table))) rs fin) as [rs fin] eqn:Ep.
        assert (fin = Ok tt /\ rs = got) as [-> ->].
        { unfold drain in Hgot. simpl in Hgot. destruct fin as [[]| |]; [|done..]. by injection Hgot as ->. }
        apply drain_filter. split; [done|]. split; [|done]. apply List.Forall_forall. intros r Hr'.
        assert (In r rows) as Hin'.
        { apply list_elem_of_In in Hr'. rewrite Hgp in Hr'. apply list_elem_of_In in Hr'. by apply filter_In in Hr' as [? _]. }
        destruct (Hq r Hin') as (bn & Hbn & _). unfold sat. by rewrite Hbn.
      * rewrite Hgp. rewrite (filter_filter_in held (sat q) (sat pred)); [done|].
        intros r Hr'. destruct (Hq r Hr') as (bn & Hbn & ->). unfold sat. by rewrite Hbn.
Qed.
End rewrite.

Lemma mapM_perm {A B} (f : A -> result B) l l' ys : l ≡ₚ l' -> mapM f l = Ok ys -> exists ys', mapM f l' = Ok ys' /\ ys ≡ₚ ys'.
Proof.
  intros Hp. revert ys. induction Hp as [|x l l' _ IH|x y l|l1 l2 l3 _ IH1 _ IH2]; intros ys.
  - intros [= <-]. by exists [].
  - simpl. intros (z & Hz & (zs & Hzs & [= <-])%bind_ok)%bind_ok. destruct (IH zs Hzs) as (zs' & Hzs' & Hp).
    exists (z :: zs'). rewrite Hz. cbn [mbind result_bind]. rewrite Hzs'. split; [done|]. by constructor.
  - simpl. intros (a & Ha & (zs & (b & Hb & (ws & Hws & [= <-])%bind_ok)%bind_ok & [= <-])%bind_ok)%bind_ok.
    exists (b :: a :: ws). rewrite Hb. cbn [mbind result_bind]. rewrite Ha. cbn [mbind result_bind]. rewrite Hws.
    split; [done|]. constructor.
  - intros H1. destruct (IH1 _ H1) as (y2 & H2 & P2). destruct (IH2 _ H2) as (y3 & H3 & P3). exists y3. split; [done|]. by etrans.
Qed.

(** * ORDER BY *)
(** One row need not come after another, under the keys both evaluate to. *)
Definition rows_before (orders : list BoundOrderItem) (on_output : bool) (a b : Row) : Prop :=
  exists ka kb, mapM (sort_key on_output a) orders = Ok ka /\ mapM (sort_key on_output b) orders = Ok kb /\
    key_less orders kb ka = Ok false.
Lemma sort_open_runs orders kts on rows :
  Forall type_ok kts -> length orders = length kts ->
  Forall (fun r => exists ks, mapM (sort_key on r) orders = Ok ks /\ Forall2 value_ok kts ks) rows ->
  exists out, sort_open orders on (rows, Ok tt) = Ok out /\ out ≡ₚ rows /\ StronglySorted (rows_before orders on) out.
Proof.
  intros Hk Hlen Hrs. unfold sort_open. cbn [fst snd].
  assert (exists rk, mapM (with_keys orders on) rows = Ok rk /\
    Forall (fun k => keys_ok kts k /\ mapM (sort_key on k.1) orders = Ok k.2) rk /\ rk.*1 = rows) as (rk & -> & Hrk & Hfst).
  { induction Hrs as [|r rs (ks & Hks & Hok) _ (rk & IH & IH2 & IH3)]; [by exists []|].
    assert (with_keys orders on r = Ok (r, ks)) as Hw by (unfold with_keys; by rewrite Hks).
    simpl. rewrite Hw. cbn [mbind result_bind]. rewrite IH. eexists. split; [reflexivity|]. split; [by constructor|].
    by rewrite fmap_cons, IH3. }
  cbn [mbind result_bind]. assert (Forall (keys_ok kts) rk) as Hok by (eapply Forall_impl; [|exact Hrk]; by intros ? []).
  destruct (sort_rows_total orders kts Hk Hlen rk Hok) as (l & Hl & Hp). rewrite Hl. cbn [mbind result_bind].
  pose proof (sort_rows_sorted orders kts Hk Hlen rk l Hok Hl) as Hs. exists l.*1. split; [done|]. split; [by rewrite Hp, Hfst|].
  rewrite <- Hp in Hrk. clear -Hs Hrk. induction Hs as [|x l Hs IH Hf]; [constructor|]. inversion_clear Hrk as [|? ? [_ Hx] Hr].
  rewrite fmap_cons. constructor; [by apply IH|]. clear IH Hs. induction l as [|y l IHl]; [constructor|].
  inversion_clear Hf. inversion_clear Hr as [|? ? [_ Hy] Hr']. rewrite fmap_cons. constructor; [|by apply IHl].
  exists x.2, y.2. by split_and!.
Qed.
(** C31. ORDER BY sorts: when every input row has keys of the items' types, [SortOp::open] succeeds, returns the
    rows it was given in some order, and no row of the result compares before an earlier one - under
    the item-by-item comparison, each ascending or descending, NULLs as the evaluator orders them. *)
Theorem sort_open_correct orders kts on rows :
  Forall type_ok kts -> length orders = length kts ->
  Forall (fun r => exists ks, mapM (sort_key on r) orders = Ok ks /\ Forall2 value_ok kts ks) rows ->
  exists out, sort_open orders on (rows, Ok tt) = Ok out /\ out ≡ₚ rows /\ StronglySorted (rows_before orders on) out.
Proof. apply sort_open_runs. Qed.

(** * The optimiser *)
Lemma Forall2_eqv_refl vs : Forall2 eqv vs vs.
Proof. apply Forall_Forall2_diag, Forall_true. apply eqv_refl. Qed.
(** The same row, up to the type attached to its NULLs. *)
Definition row_eqv (r r' : Row) : Prop := rid r = rid r' /\ rref r = rref r' /\ Forall2 eqv (rvalues r) (rvalues r').
(** The same rows in some order. *)
Definition same_rows (out out' : list Row) : Prop := exists mid, out ≡ₚ mid /\ Forall2 row_eqv mid out'.
Lemma row_eqv_refl r : row_eqv r r.
Proof. split_and!; [done..|apply Forall2_eqv_refl]. Qed.
Lemma perm_same_rows out out' : out ≡ₚ out' -> same_rows out out'.
Proof. intros H. exists out'. split; [done|]. apply Forall_Forall2_diag, Forall_true, row_eqv_refl. Qed.

(** [same_rows] does not see the order of either side. *)
#[export] Instance same_rows_proper : Proper (Permutation ==> Permutation ==> iff) same_rows.
Proof.
  assert (forall a a' b b', a ≡ₚ a' -> b ≡ₚ b' -> same_rows a b -> same_rows a' b') as H.
  { intros a a' b b' Ha Hb (mid & Hm & He). destruct (Permutation_Forall2 Hb (Forall2_flip He)) as (mid2 & Hm2 & He2).
    exists mid2. split; [by rewrite <- Ha, Hm|exact (Forall2_flip He2)]. }
  intros a a' Ha b b' Hb. split; apply H; done.
Qed.

Section optimize.
Context `{Storage} `{Indexes} (table : TableHandle) (rows : list Row).
Notation ts := (col_types (meta table)).
Context (Hrows : Forall (fun r => context_ok ts (Some (rvalues r))) rows).
Context (Hserve : forall idxs, indexes (meta table) = Ok idxs -> Forall (serves (meta table) rows) idxs).
Context (Hdouble : double_type = Ok kDouble) (Hscan : scan (meta table) = (rows, Ok tt)).

(** The self-comparison rule only fired on identical expressions. *)
Definition fold_exact (pred : BoundExpr) : Prop := fold_with same_expr pred true = fold_expr pred true.

Definition optimize_scan (where_ : option BoundExpr) : result PlanNode := optimize (with_filter where_ (SeqScanPlan table)).
Definition where_ok (where_ : option BoundExpr) : Prop :=
  match where_ with Some pred => is_pred ts pred /\ fold_exact pred | None => True end.

Lemma scan_rows_sub where_ out : drain (run_op (with_filter where_ (SeqScanPlan table))) = Ok out -> Forall (fun r => In r rows) out.
Proof using Hscan.
  intros H1. destruct where_ as [pred|]; cbn [with_filter run_op] in *; rewrite Hscan in *.
  - apply drain_filter in H1 as (_ & _ & ->). apply List.Forall_forall. intros r Hr. by apply filter_In in Hr as [? _].
  - injection H1 as <-. by apply List.Forall_forall.
Qed.
Lemma optimize_scan_correct where_ plan' out :
  where_ok where_ -> optimize_scan where_ = Ok plan' ->
  drain (run_op (with_filter where_ (SeqScanPlan table))) = Ok out -> exists out', drain (run_op plan') = Ok out' /\ out ≡ₚ out'.
Proof using All.
  intros Hw Ho Hout. unfold optimize_scan, optimize, fold_const in Ho.
  destruct where_ as [pred|]; cbn [with_filter fold_plan_with mbind result_bind prune_filter select_index] in *;
    [|injection Ho as <-; by eexists].
  destruct Hw as [Hp Hex]. apply bind_ok in Ho as (plan1 & Hf & Ho). apply bind_ok in Hf as (p1 & Hf & [= <-]).
  pose proof Hp as (t & Ht & Bt).
  pose proof (fold_typed expr_equal ts pred true t Ht) as Hty. rewrite Hf in Hty. destruct Hty as (t1 & Ht1 & Hle).
  assert (is_pred ts p1) as Hp1 by (exists t1; split; [done|by eapply le_bool]).
  pose proof Hout as Hout0. cbn [run_op] in Hout0. rewrite Hscan in Hout0. 
  apply drain_filter in Hout0 as (_ & Hsat & Eout).
  assert (Forall (fun r => where_match p1 (rvalues r) = Ok (sat pred r)) rows) as Hsat1.
  { apply List.Forall_forall. intros r Hr. apply (fold_where_eq ts (rvalues r) pred t p1 (sat pred r)); try done.
    - by apply (proj1 (List.Forall_forall _ _) Hrows).
    - rewrite Hex. exact Hf.
    - by apply (proj1 (List.Forall_forall _ _) Hsat). }
  assert (drain (run_op (FilterPlan (SeqScanPlan table) p1)) = Ok out) as Hout1.
  { cbn [run_op]. rewrite Hscan. apply drain_filter. split; [done|].
    assert (forall r, In r rows -> sat p1 r = sat pred r) as Hs.
    { intros r Hr. unfold sat at 1. by rewrite (proj1 (List.Forall_forall _ _) Hsat1 r Hr). }
    split.
    - apply List.Forall_forall. intros r Hr. rewrite (Hs r Hr). by apply (proj1 (List.Forall_forall _ _) Hsat1).
    - rewrite Eout. apply List.filter_ext_in. intros r Hr. symmetry. by apply Hs. }
  cbn [mbind result_bind prune_filter] in Ho. apply bind_ok in Ho as (plan2 & Hc & Ho).
  apply bind_ok in Hc as (cp & Hcp & Hc).
  assert (forall v, p1 = BoundConst v -> forall r, where_match p1 r = if is_null v then Ok false else
    match bool_of v with Some b => Ok b | None => Raise Internal end) as Hconst.
  { intros v -> r. unfold where_match, eval_row. by rewrite (const_eval ts v t1 (Some r) Ht1). }
  destruct cp.
  - injection Hc as <-. cbn [select_index] in Ho. by eapply rewrite_scan_correct.
  - injection Hc as <-. injection Ho as <-. exists rows. cbn [run_op]. rewrite Hscan. split; [done|].
    destruct p1 as [v| | | | | | | | |]; try done. unfold classify_pred in Hcp. destruct (box v) as [|[]| | | | |] eqn:Eb; try done.
    assert (forall r, In r rows -> sat pred r = true) as Hs.
    { intros r Hr. pose proof (proj1 (List.Forall_forall _ _) Hsat1 r Hr) as E. cbv beta in E. rewrite (Hconst v eq_refl) in E.
      unfold is_null, value_is_null, bool_of in E. rewrite Eb in E. by injection E. }
    rewrite Eout. clear -Hs. induction rows as [|r l IH]; [done|]. cbn [List.filter]. rewrite Hs by (by left).
    constructor. apply IH. intros r' Hr'. apply Hs. by right.
  - cbn [scan_table mbind result_bind] in Hc. injection Hc as <-. injection Ho as <-. exists []. split; [done|].
    destruct p1 as [v| | | | | | | | |]; try done. unfold classify_pred in Hcp.
    assert (forall r, In r rows -> sat pred r = false) as Hs.
    { intros r Hr. pose proof (proj1 (List.Forall_forall _ _) Hsat1 r Hr) as E. cbv beta in E. rewrite (Hconst v eq_refl) in E.
      unfold is_null, value_is_null, bool_of in E. destruct (box v) as [|[]| | | | |]; try done; by injection E. }
    rewrite Eout. clear -Hs. induction rows as [|r l IH]; [done|]. cbn [List.filter]. rewrite Hs by (by left).
    apply IH. intros r' Hr'. apply Hs. by right.
Qed.

(** ** Passes go through projections and sorts *)
Lemma optimize_project c projs p : optimize (ProjectPlan c projs) = Ok p ->
  exists projs' c', mapM (fold_proj expr_equal) projs = Ok projs' /\ optimize c = Ok c' /\ p = ProjectPlan c' projs'.
Proof using.
  unfold optimize, fold_const. cbn [fold_plan_with]. intros (x & (projs' & Hp & (c1 & H1 & [= <-])%bind_ok)%bind_ok & (y & Hy & Hs)%bind_ok)%bind_ok.
  cbn [prune_filter] in Hy. apply bind_ok in Hy as (c2 & H2 & [= <-]). cbn [select_index] in Hs. apply bind_ok in Hs as (c3 & H3 & [= <-]).
  exists projs', c3. split_and!; [done| |done]. rewrite H1. cbn [mbind result_bind]. by rewrite H2.
Qed.
Lemma optimize_sort c orders on p : optimize (SortPlan c orders on) = Ok p ->
  exists orders' c', (if on : bool then orders' = orders else mapM (fold_order expr_equal) orders = Ok orders') /\
    optimize c = Ok c' /\ p = SortPlan c' orders' on.
Proof using.
  unfold optimize, fold_const. cbn [fold_plan_with]. intros (x & (orders' & Hp & (c1 & H1 & [= <-])%bind_ok)%bind_ok & (y & Hy & Hs)%bind_ok)%bind_ok.
  cbn [prune_filter] in Hy. apply bind_ok in Hy as (c2 & H2 & [= <-]). cbn [select_index] in Hs. apply bind_ok in Hs as (c3 & H3 & [= <-]).
  exists orders', c3. split_and!; [destruct on; [by injection Hp|done]| |done]. rewrite H1. cbn [mbind result_bind]. by rewrite H2.
Qed.

(** ** Typed projections and sort keys *)
Definition proj_ok (c : ProjCol) (t : TypeAttr) : Prop :=
  match pc_expr c with Some e => has_type ts e t | None => ts !! pc_col_idx c = Some t /\ type_ok t end.
Definition order_ok (on : bool) (pts : list TypeAttr) (o : BoundOrderItem) (t : TypeAttr) : Prop :=
  type_ok t /\ if on then pts !! out_idx o = Some t else exists e, o_expr o = Some e /\ has_type ts e t.
Notation row_ctx r := (context_ok ts (Some (rvalues r))).

Lemma value_ok_eqv t v w : eqv v w -> value_ok t v -> value_ok t w.
Proof using. intros [->|[_ Hw]] H1; [done|by left]. Qed.
Lemma Forall2_eqv_ok pts vs ws : Forall2 value_ok pts vs -> Forall2 eqv vs ws -> Forall2 value_ok pts ws.
Proof using.
  intros H1. revert ws. induction H1; intros ws Hw; inversion Hw; subst; constructor; [by eapply value_ok_eqv|auto].
Qed.
Lemma project_col_fold r c c' t v : row_ctx r -> proj_ok c t -> fold_proj expr_equal c = Ok c' -> project_col r c = Ok v ->
  value_ok t v /\ exists w, project_col r c' = Ok w /\ eqv v w.
Proof using.
  intros Hctx Hc Hf Hv. unfold proj_ok, fold_proj, project_col in *. destruct (pc_expr c) as [e|] eqn:Ee.
  - apply bind_ok in Hf as (e' & Hf & [= <-]). cbn [pc_expr].
    pose proof (eval_typed ts (Some (rvalues r)) e t Hctx Hc) as Hs. unfold eval_row in *. rewrite Hv in Hs. split; [exact Hs|].
    by apply (fold_refines expr_equal ts (Some (rvalues r)) e false t e' Hctx Hc ltac:(done) Hf).
  - injection Hf as <-. rewrite Ee. destruct Hc as [Hc _].
    destruct (Forall2_lookup_l _ _ _ _ _ Hctx Hc) as (x & Hx & Hxv). rewrite Hx in Hv |- *. injection Hv as <-.
    split; [done|]. exists x. split; [done|apply eqv_refl].
Qed.
Lemma project_row_fold r projs projs' pts r1 : row_ctx r -> Forall2 proj_ok projs pts ->
  mapM (fold_proj expr_equal) projs = Ok projs' -> project_row projs r = Ok r1 ->
  exists a b, r1 = Some a /\ project_row projs' r = Ok (Some b) /\ row_eqv a b /\ Forall2 value_ok pts (rvalues b).
Proof using.
  intros Hctx Hp Hf H1. unfold project_row in *. apply bind_ok in H1 as (vs & Hvs & [= <-]).
  assert (exists ws, mapM (project_col r) projs' = Ok ws /\ Forall2 eqv vs ws /\ Forall2 value_ok pts vs) as (ws & -> & He & Hok).
  { revert projs' vs Hf Hvs. induction Hp as [|c t projs pts Hc _ IH]; intros projs' vs; simpl.
    - intros [= <-] [= <-]. exists []. by repeat constructor.
    - intros (c' & Hc' & (cs & Hcs & [= <-])%bind_ok)%bind_ok (v & Hv & (vs' & Hvs & [= <-])%bind_ok)%bind_ok.
      destruct (IH cs vs' Hcs Hvs) as (ws & Hws & He & Hok).
      destruct (project_col_fold r c c' t v Hctx Hc Hc' Hv) as (Hvt & w & Hw & Hvw).
      exists (w :: ws). simpl. rewrite Hw. cbn [mbind result_bind]. rewrite Hws. split; [done|]. split; by constructor. }
  cbn [mbind result_bind]. eexists _, _. split; [done|]. split; [done|]. split; [done|]. by eapply Forall2_eqv_ok.
Qed.

(** A child and its optimised form: well-typed rows, in some order. *)
Definition child_ok (c c' : PlanNode) : Prop :=
  forall out, drain (run_op c) = Ok out -> Forall (fun r => row_ctx r) out /\ exists out', drain (run_op c') = Ok out' /\ out ≡ₚ out'.

Lemma project_refines c c' projs projs' pts res : child_ok c c' -> Forall2 proj_ok projs pts ->
  mapM (fold_proj expr_equal) projs = Ok projs' -> drain (run_op (ProjectPlan c projs)) = Ok res ->
  exists res', drain (run_op (ProjectPlan c' projs')) = Ok res' /\ same_rows res res' /\ Forall (fun r => Forall2 value_ok pts (rvalues r)) res'.
Proof using.
  intros Hc Hp Hf H1. cbn [run_op] in *. apply drain_pull_stream in H1 as (out & ys & Ho & Hys & ->).
  destruct (Hc out Ho) as (Hctx & out' & Ho' & Hperm).
  destruct (mapM_perm _ _ _ _ Hperm Hys) as (zs & Hzs & Hyz).
  assert (Forall (fun r => row_ctx r) out') as Hctx' by (by rewrite <- Hperm).
  assert (exists ws, mapM (project_row projs') out' = Ok ws /\ Forall2 row_eqv (omap id zs) (omap id ws) /\
    Forall (fun r => Forall2 value_ok pts (rvalues r)) (omap id ws)) as (ws & Hws & He & Hok).
  { clear -Hctx' Hzs Hp Hf. revert zs Hzs. induction Hctx' as [|r out' Hr _ IH]; intros zs; simpl.
    - intros [= <-]. exists []. by repeat constructor.
    - intros (z & Hz & (zs' & Hzs & [= <-])%bind_ok)%bind_ok. destruct (IH zs' Hzs) as (ws & Hws & He & Hok).
      destruct (project_row_fold r projs projs' pts z Hr Hp Hf Hz) as (a & b & -> & Hb & Hab & Hvb).
      exists (Some b :: ws). rewrite Hb. cbn [mbind result_bind]. rewrite Hws. split; [done|].
      split; cbn; by constructor. }
  exists (omap id ws). split; [|split; [|done]].
  - apply drain_pull_stream. by exists out', ws.
  - exists (omap id zs). split; [|done]. by rewrite Hyz.
Qed.

Lemma sort_open_perm orders on s out : sort_open orders on s = Ok out -> drain s = Ok s.1 /\ out ≡ₚ s.1.
Proof using.
  unfold sort_open. intros (rk & Hrk & ([] & Hf & (l & Hl & [= <-])%bind_ok)%bind_ok)%bind_ok.
  split; [unfold drain; by rewrite Hf|]. rewrite (sort_rows_perm _ _ _ Hl). clear Hl Hf.
  apply mapM_ok in Hrk. induction Hrk as [|r k rs rk Hk _ IH]; [done|]. rewrite fmap_cons.
  unfold with_keys in Hk. apply bind_ok in Hk as (ks & _ & [= <-]). by constructor.
Qed.
Lemma mapM_Forall2_ok {A B} (f : A -> result B) l ys : mapM f l = Ok ys -> length ys = length l.
Proof using. intros H1. apply mapM_ok in H1. symmetry. by eapply Forall2_length. Qed.

Lemma order_types on pts orders kts : Forall2 (order_ok on pts) orders kts -> Forall type_ok kts.
Proof using. induction 1 as [|o t os kts [Ht _] _ IH]; constructor; done. Qed.
(** Sorting before the projection: the optimised child, sorted by the folded keys. *)
Lemma order_fold r o o' kt k : row_ctx r -> order_ok false [] o kt -> fold_order expr_equal o = Ok o' ->
  sort_key false r o = Ok k -> desc o' = desc o /\ exists w, sort_key false r o' = Ok w /\ eqv k w /\ value_ok kt w.
Proof using.
  intros Hctx (Hkt & e & He & Ht) Hf Hk. unfold fold_order, sort_key in *. rewrite He in *.
  apply bind_ok in Hf as (e' & Hf & [= <-]). cbn [o_expr desc]. split; [done|]. unfold eval_row in *.
  destruct (fold_refines expr_equal ts (Some (rvalues r)) e false kt e' Hctx Ht ltac:(done) Hf k Hk) as (w & Hw & Hkw).
  exists w. split; [done|]. split; [done|]. pose proof (eval_typed ts (Some (rvalues r)) e kt Hctx Ht) as Hs. rewrite Hk in Hs.
  by eapply value_ok_eqv.
Qed.
Lemma order_keys_fold r orders kts orders' ks : row_ctx r -> Forall2 (order_ok false []) orders kts -> mapM (fold_order expr_equal) orders = Ok orders' ->
  mapM (sort_key false r) orders = Ok ks -> exists ws, mapM (sort_key false r) orders' = Ok ws /\ Forall2 eqv ks ws /\ Forall2 value_ok kts ws.
Proof using.
  intros Hr Hk. revert ks orders'. induction Hk as [|o t os kts Ho _ IH]; intros ks orders'; simpl.
  - intros [= <-] [= <-]. exists []. by repeat constructor.
  - intros (o' & Ho' & (os' & Hos & [= <-])%bind_ok)%bind_ok (k & Hk & (ks' & Hks & [= <-])%bind_ok)%bind_ok.
    destruct (order_fold r o o' t k Hr Ho Ho' Hk) as (_ & w & Hw & He & Hwt).
    destruct (IH ks' os' Hos Hks) as (ws & Hws & Hes & Hwts). exists (w :: ws). simpl. rewrite Hw. cbn [mbind result_bind]. rewrite Hws.
    split; [done|]. split; by constructor.
Qed.
Lemma sort_child_ok c c' orders orders' kts : child_ok c c' -> Forall2 (order_ok false []) orders kts ->
  mapM (fold_order expr_equal) orders = Ok orders' -> child_ok (SortPlan c orders false) (SortPlan c' orders' false).
Proof using.
  intros Hc Hk Hf out Hout. cbn [run_op] in *. rewrite drain_of_result in Hout.
  pose proof (sort_open_perm _ _ _ _ Hout) as [Hd Hp]. destruct (Hc _ Hd) as (Hctx & out' & Ho' & Hperm).
  split; [by rewrite Hp|].
  pose proof (order_types _ _ _ _ Hk) as Hkt.
  assert (length orders' = length kts) as Hlen.
  { rewrite (mapM_Forall2_ok _ _ _ Hf). by eapply Forall2_length. }
  assert (Forall (fun r => exists ks, mapM (sort_key false r) orders = Ok ks) (run_op c).1) as Hkeys.
  { unfold sort_open in Hout. apply bind_ok in Hout as (rk & Hrk & _). apply mapM_ok in Hrk. clear -Hrk.
    induction Hrk as [|r k rs rk Hk _ IH]; constructor; [|done]. unfold with_keys in Hk.
    apply bind_ok in Hk as (ks & Hks & _). by exists ks. }
  destruct (run_op c') as [rs' fin'] eqn:Ec'. unfold drain in Ho'. cbn [fst snd] in Ho'.
  apply bind_ok in Ho' as ([] & -> & [= ->]).
  destruct (sort_open_runs orders' kts false out' Hkt Hlen) as (out2 & Hs2 & Hp2 & _).
  - apply List.Forall_forall. intros r Hr. apply list_elem_of_In in Hr. rewrite <- Hperm in Hr. apply list_elem_of_In in Hr.
    pose proof (proj1 (List.Forall_forall _ _) Hctx r Hr) as Hrc. destruct (proj1 (List.Forall_forall _ _) Hkeys r Hr) as (ks & Hks).
    destruct (order_keys_fold r orders kts orders' ks Hrc Hk Hf Hks) as (ws & Hws & _ & Hwt). by exists ws.
  - exists out2. rewrite drain_of_result. split; [done|]. by rewrite Hp2, Hp.
Qed.
Lemma scan_child_ok where_ plan' : where_ok where_ -> optimize_scan where_ = Ok plan' ->
  child_ok (with_filter where_ (SeqScanPlan table)) plan'.
Proof using All.
  intros Hw Ho out Hout. split; [|by apply (optimize_scan_correct where_ plan' out Hw Ho Hout)].
  pose proof (scan_rows_sub _ _ Hout) as Hin. eapply Forall_impl; [|exact Hin].
  intros r Hr. exact (proj1 (List.Forall_forall _ _) Hrows r Hr).
Qed.

Lemma output_keys orders pts kts rs : Forall2 (order_ok true pts) orders kts -> Forall (fun r => Forall2 value_ok pts (rvalues r)) rs ->
  Forall (fun r => exists ks, mapM (sort_key true r) orders = Ok ks /\ Forall2 value_ok kts ks) rs.
Proof using.
  intros Hk Hty. eapply Forall_impl; [|exact Hty]. intros r Hr. cbv beta in Hr. clear -Hk Hr. induction Hk as [|o t os kts [_ Ho] _ (ks & IH & IH2)].
  - exists []. by repeat constructor.
  - destruct (Forall2_lookup_l _ _ _ _ _ Hr Ho) as (v & Hv & Hvt). exists (v :: ks).
    assert (sort_key true r o = Ok v) as Hs by (unfold sort_key; by rewrite Hv).
    simpl. rewrite Hs. cbn [mbind result_bind]. rewrite IH. split; [done|]. by constructor.
Qed.
Lemma sort_output_ok c c' orders pts kts res : Forall2 (order_ok true pts) orders kts ->
  (forall out, drain (run_op c) = Ok out -> exists out', drain (run_op c') = Ok out' /\ same_rows out out' /\
    Forall (fun r => Forall2 value_ok pts (rvalues r)) out') ->
  drain (run_op (SortPlan c orders true)) = Ok res ->
  exists res', drain (run_op (SortPlan c' orders true)) = Ok res' /\ same_rows res res'.
Proof using.
  intros Hk Hc Hres. cbn [run_op] in *. rewrite drain_of_result in Hres.
  pose proof (sort_open_perm _ _ _ _ Hres) as [Hd Hp]. destruct (Hc _ Hd) as (out' & Ho' & (mid & Hmid & He) & Hty).
  destruct (run_op c') as [rs' fin'] eqn:Ec'. unfold drain in Ho'. cbn [fst snd] in Ho'.
  apply bind_ok in Ho' as ([] & -> & [= ->]).
  destruct (sort_open_runs orders kts true out') as (out2 & Hs2 & Hp2 & _).
  - by eapply order_types.
  - by eapply Forall2_length.
  - by apply (output_keys orders pts kts).
  - exists out2. rewrite drain_of_result. split; [done|]. rewrite Hp, Hp2. exists mid. by split.
Qed.
End optimize.

(** ** The contract of the storage and the catalog, and the statements *)
(** A table as its plan meets it: scanning it yields well-typed rows, and every index the catalog
    lists for it serves those rows. *)
Record table_ok `{Storage} `{Indexes} (table : TableHandle) (rows : list Row) : Prop := {
  ok_scan : scan (meta table) = (rows, Ok tt);
  ok_typed : Forall (fun r => context_ok (col_types (meta table)) (Some (rvalues r))) rows;
  ok_serves : forall idxs, indexes (meta table) = Ok idxs -> Forall (serves (meta table) rows) idxs;
  ok_double : double_type = Ok kDouble }.

Section statements.
Context `{Storage} `{Indexes} (table : TableHandle) (rows : list Row) (Hok : table_ok table rows).
Notation ts := (col_types (meta table)).

Lemma scan_refines where_ c' : where_ok table where_ -> optimize_scan table where_ = Ok c' ->
  child_ok table (with_filter where_ (SeqScanPlan table)) c'.
Proof using Hok. destruct Hok. by apply scan_child_ok with (rows := rows). Qed.

Lemma optimize_select_eq where_ projs orders on pts kts plan' out :
  where_ok table where_ -> Forall2 (proj_ok table) projs pts -> Forall2 (order_ok table on pts) orders kts ->
  optimize (build (BoundSelect table projs where_ orders on)) = Ok plan' ->
  selected (build (BoundSelect table projs where_ orders on)) = Ok out ->
  exists out', selected plan' = Ok out' /\ same_rows out out'.
Proof using Hok.
  intros Hw Hp Ho Hopt Hout. cbn [build] in *. unfold build_select in *.
  destruct orders as [|o orders]; cbn [is_nil negb andb] in *.
  - apply optimize_project in Hopt as (projs' & c' & Hfp & Hc & ->).
    destruct (project_refines table _ c' projs projs' pts out (scan_refines _ _ Hw Hc) Hp Hfp Hout) as (res & H1 & H2 & _).
    by exists res.
  - destruct on; cbn [negb] in *.
    + apply optimize_sort in Hopt as (orders' & c1 & -> & Hc1 & ->). apply optimize_project in Hc1 as (projs' & c' & Hfp & Hc & ->).
      eapply (sort_output_ok table _ _ _ pts kts out Ho); [|exact Hout]. intros res Hres.
      by apply (project_refines table _ c' projs projs' pts res (scan_refines _ _ Hw Hc) Hp Hfp Hres).
    + apply optimize_project in Hopt as (projs' & c1 & Hfp & Hc1 & ->). apply optimize_sort in Hc1 as (orders' & c' & Hfo & Hc & ->).
      assert (Forall2 (order_ok table false []) (o :: orders) kts) as Ho' by exact Ho.
      pose proof (sort_child_ok table _ c' _ _ kts (scan_refines _ _ Hw Hc) Ho' Hfo) as Hs.
      destruct (project_refines table _ _ projs projs' pts out Hs Hp Hfp Hout) as (res & H1 & H2 & _). by exists res.
Qed.

Lemma optimize_delete_eq where_ plan' out : where_ok table where_ ->
  optimize (build (BoundDelete table where_)) = Ok plan' -> selected (build (BoundDelete table where_)) = Ok out ->
  exists out' child', plan' = DeletePlan table child' /\ selected plan' = Ok out' /\ out ≡ₚ out'.
Proof using Hok.
  intros Hw Hopt Hout. cbn [build] in *. destruct where_ as [pred|].
  - unfold optimize, fold_const in Hopt. cbn [fold_plan_with] in Hopt.
    destruct (fold_with expr_equal pred true) as [p1| |] eqn:Ef; [|done..]. cbn [mbind result_bind] in Hopt.
    apply bind_ok in Hopt as (x & Hx & Hs). cbn [prune_filter] in Hx. apply bind_ok in Hx as (c2 & H2 & [= <-]).
    cbn [select_index] in Hs. apply bind_ok in Hs as (c3 & H3 & [= <-]).
    assert (optimize_scan table (Some pred) = Ok c3) as Hc.
    { unfold optimize_scan, optimize, fold_const. cbn [with_filter fold_plan_with]. rewrite Ef.
      cbn [prune_filter mbind result_bind] in *. by rewrite H2. }
    destruct (scan_refines _ _ Hw Hc out Hout) as (_ & out' & Ho & Hp). by exists out', (Some c3).
  - injection Hopt as <-. exists out, None. done.
Qed.

(** What an update assigns. *)
Definition assign_ok (a : BoundUpdateItem) : Prop := exists t, has_type ts (ua_value a) t.
Definition assigns_refine (r : Row) (a a' : BoundUpdateItem) : Prop :=
  ua_col_idx a = ua_col_idx a' /\
  forall v, eval_row (ua_value a) (rvalues r) = Ok v -> exists w, eval_row (ua_value a') (rvalues r) = Ok w /\ eqv v w.
Lemma fold_assigns assigns assigns' r : context_ok ts (Some (rvalues r)) -> Forall assign_ok assigns ->
  mapM (fold_assign expr_equal) assigns = Ok assigns' -> Forall2 (assigns_refine r) assigns assigns'.
Proof using.
  intros Hr Ha. revert assigns'. induction Ha as [|a assigns (t & Ht) _ IH]; intros assigns'; simpl; [by intros [= <-]|].
  intros (a' & Ha' & (as' & Has & [= <-])%bind_ok)%bind_ok. constructor; [|by apply IH].
  unfold fold_assign in Ha'. apply bind_ok in Ha' as (e & He & [= <-]). split; [done|]. cbn [ua_value].
  apply (fold_refines expr_equal ts (Some (rvalues r)) (ua_value a) false t e Hr Ht ltac:(done) He).
Qed.
Lemma optimize_update_eq assigns where_ plan' out : where_ok table where_ -> Forall assign_ok assigns ->
  optimize (build (BoundUpdate table assigns where_)) = Ok plan' -> selected (build (BoundUpdate table assigns where_)) = Ok out ->
  exists out' assigns' child', plan' = UpdatePlan table assigns' child' /\ selected plan' = Ok out' /\ out ≡ₚ out' /\
    Forall (fun r => Forall2 (assigns_refine r) assigns assigns') out.
Proof using Hok.
  intros Hw Ha Hopt Hout. cbn [build] in *. unfold optimize, fold_const in Hopt. cbn [fold_plan_with] in Hopt.
  apply bind_ok in Hopt as (x1 & (assigns' & Hfa & (c1 & H1 & [= <-])%bind_ok)%bind_ok & (x & Hx & Hs)%bind_ok).
  cbn [prune_filter] in Hx. apply bind_ok in Hx as (c2 & H2 & [= <-]).
  cbn [select_index] in Hs. apply bind_ok in Hs as (c3 & H3 & [= <-]).
  assert (optimize_scan table where_ = Ok c3) as Hc.
  { unfold optimize_scan, optimize, fold_const. rewrite H1. cbn [mbind result_bind]. by rewrite H2. }
  destruct (scan_refines _ _ Hw Hc out Hout) as (Hctx & out' & Ho & Hp). exists out', assigns', c3. split_and!; [done..|].
  eapply Forall_impl; [|exact Hctx]. intros r Hr. by apply fold_assigns.
Qed.
End statements.

(** ** The properties *)
(** C5. The optimiser preserves SELECT: over a storage and catalog that keep the contract, for a typed WHERE
    clause on which the self-comparison rule is exact, typed output columns and typed ORDER BY
    items, whenever the plan built for the statement returns rows, the plan after constant folding,
    filter pruning and index selection returns the same rows (up to order and to the type attached
    to NULLs), and does not fail. *)
Theorem optimize_select_correct `{Storage} `{Indexes} table rows where_ projs orders on pts kts plan' out :
  table_ok table rows -> where_ok table where_ -> Forall2 (proj_ok table) projs pts ->
  Forall2 (order_ok table on pts) orders kts ->
  optimize (build (BoundSelect table projs where_ orders on)) = Ok plan' ->
  selected (build (BoundSelect table projs where_ orders on)) = Ok out ->
  exists out', selected plan' = Ok out' /\ same_rows out out'.
Proof. intros Hok. by apply (optimize_select_eq table rows Hok). Qed.

(** The optimiser preserves DELETE: the optimised plan is a delete on the same table, and the rows it
    deletes are those the unoptimised plan deletes. *)
Theorem optimize_delete_correct `{Storage} `{Indexes} table rows where_ plan' out :
  table_ok table rows -> where_ok table where_ ->
  optimize (build (BoundDelete table where_)) = Ok plan' -> selected (build (BoundDelete table where_)) = Ok out ->
  exists out' child', plan' = DeletePlan table child' /\ selected plan' = Ok out' /\ out ≡ₚ out'.
Proof. intros Hok. by apply (optimize_delete_eq table rows Hok). Qed.

(** The optimiser preserves UPDATE: the same rows are updated, and on each of them every folded
    assignment gives the column the value the original assignment gives. *)
Theorem optimize_update_correct `{Storage} `{Indexes} table rows assigns where_ plan' out :
  table_ok table rows -> where_ok table where_ -> Forall (assign_ok table) assigns ->
  optimize (build (BoundUpdate table assigns where_)) = Ok plan' -> selected (build (BoundUpdate table assigns where_)) = Ok out ->
  exists out' assigns' child', plan' = UpdatePlan table assigns' child' /\ selected plan' = Ok out' /\ out ≡ₚ out' /\
    Forall (fun r => Forall2 (assigns_refine r) assigns assigns') out.
Proof. intros Hok. by apply (optimize_update_eq table rows Hok). Qed.

(** A table of two integer columns with an index on the first; its second entry is a deleted row's. *)
Module Sample.
Definition col (n : string) : ColumnSpec := mkCol n kInt 0 false 0.
Definition table : TableHandle := mkHandle (mkMeta 1 5 "t" [col "a"; col "b"]) "public.t".
Definition row (s a b : Z) : Row := mkRow 0 (mkRef (mkPid 5 1) s) [int_val kInt a; int_val kInt b].
Definition rows : list Row := [row 0 3 30; row 2 1 10; row 3 2 20].
Definition entry (s a : Z) : BTreeEntry := mkEntry (int_key a) 1 s.
Definition entries : list BTreeEntry := [entry 2 1; entry 1 2; entry 3 2; entry 0 3].
Definition live (e : BTreeEntry) : option Row := List.find (fun r => bool_decide (rref r = entry_ref 5 e)) rows.
#[local] Instance storage : Storage := {|
  scan _ := (rows, Ok tt);
  index_scan _ l h := Ok (List.filter (fun e => in_range (mkRange l h) (ekey e)) entries, Ok tt);
  read_row ref _ := Ok (rvalues <$> List.find (fun r => bool_decide (rref r = ref)) rows) |}.
#[local] Instance catalog : Indexes := {| indexes _ := Ok [mkIndex "i" 0 7 (mkRef (mkPid 4 1) 0)]; double_type := Ok kDouble |}.
Definition a_is_2 : BoundExpr := BoundCmp CmpEq (BoundColRef 0 kInt) (BoundConst (int_val kInt 2)).
Definition b_gt_15 : BoundExpr := BoundCmp CmpGt (BoundColRef 1 kInt) (BoundArith OpAdd (BoundConst (int_val kInt 10)) (BoundConst (int_val kInt 5)) kInt).
Definition pred : BoundExpr := BoundLogic LAnd a_is_2 b_gt_15.

Lemma sample_ok : table_ok table rows.
Proof.
  assert (forall i, INT32_MIN <= i <= INT32_MAX -> value_ok kInt (int_val kInt i)) as Hi.
  { intros i Hi. pose proof (demo_row_typed i Hi) as H. by inversion H. }
  split; [done| | |done].
  - assert (forall s a b, INT32_MIN <= a <= INT32_MAX -> INT32_MIN <= b <= INT32_MAX ->
      context_ok (col_types (meta table)) (Some (rvalues (row s a b)))) as Hr by (intros; constructor; [by apply Hi|]; constructor; [by apply Hi|constructor]).
    repeat apply Forall_cons; try apply Forall_nil; by apply Hr.
  - intros idxs [= <-]. constructor; [|constructor].
    exists (col "a"), entries, live. split; [done|]. split; [by left|]. split; [done|].
    split; [|symmetry; apply (Permutation_cons_append [row 2 1 10; row 3 2 20] (row 0 3 30))].
    repeat apply Forall_cons; try apply Forall_nil; try (split; [by vm_compute|]).
    all: unfold live; intros r Hr; vm_compute in Hr; try discriminate Hr; injection Hr as <-; (split; [by vm_compute|]).
    all: eexists; split; [reflexivity|by vm_compute].
Qed.
Lemma pred_typed : where_ok table (Some pred).
Proof.
  assert (has_type (col_types (meta table)) (BoundColRef 0 kInt) kInt) as Ha by (constructor; [done|solve_seed]).
  assert (has_type (col_types (meta table)) (BoundColRef 1 kInt) kInt) as Hb by (constructor; [done|solve_seed]).
  split; [|by vm_compute]. exists kBool. split; [|done]. apply (ht_logic _ _ _ _ kBool kBool); [..|done|done].
  - eapply (ht_cmp _ _ _ _ kInt kInt); [done|by apply int_const_typed|done].
  - eapply (ht_cmp _ _ _ _ kInt kInt); [done| |done]. apply arith_kInt_typed; by apply int_const_typed.
Qed.
End Sample.
#[local] Existing Instances Sample.storage Sample.catalog.

(** SELECT b FROM t WHERE a = 2 AND b > 10 + 5 ORDER BY b DESC reads the index, fetches and filters. *)
Lemma optimize_select_correct_witness :
  exists out', selected (SortPlan (ProjectPlan (FilterPlan (FetchPlan Sample.table
      (IndexScanPlan Sample.table "i" 7 (cmp_ranges CmpEq (int_key 2)) [mkCond "a" CmpEq (int_val kInt 2) false false]))
      (BoundCmp CmpGt (BoundColRef 1 kInt) (BoundConst (int_val kInt 15)))) [mkProj None "b" 1]) [mkOrder true 0 None] true) = Ok out' /\
    same_rows [mkRow 0 (mkRef (mkPid 5 1) 3) [int_val kInt 20]] out'.
Proof.
  refine (optimize_select_correct Sample.table Sample.rows (Some Sample.pred) [mkProj None "b" 1] [mkOrder true 0 None] true
    [kInt] [kInt] _ _ Sample.sample_ok Sample.pred_typed _ _ _ _).
  - constructor; [|constructor]. split; [done|]. right; solve_seed.
  - constructor; [|constructor]. split; [|done]. right; solve_seed.
  - by vm_compute.
  - by vm_compute.
Defined.
Lemma sample_a_typed : where_ok Sample.table (Some Sample.a_is_2).
Proof.
  split; [|by vm_compute]. exists kBool. split; [|done]. eapply (ht_cmp _ _ _ _ kInt kInt); [constructor; [done|solve_seed]| |done].
  by apply int_const_typed.
Qed.
Lemma optimize_delete_correct_witness :
  exists out' child', DeletePlan Sample.table (Some (FetchPlan Sample.table
      (IndexScanPlan Sample.table "i" 7 (cmp_ranges CmpEq (int_key 2)) [mkCond "a" CmpEq (int_val kInt 2) false false]))) = DeletePlan Sample.table child' /\
    selected (DeletePlan Sample.table (Some (FetchPlan Sample.table
      (IndexScanPlan Sample.table "i" 7 (cmp_ranges CmpEq (int_key 2)) [mkCond "a" CmpEq (int_val kInt 2) false false])))) = Ok out' /\
    [Sample.row 3 2 20] ≡ₚ out'.
Proof.
  refine (optimize_delete_correct Sample.table Sample.rows (Some Sample.a_is_2) _ _ Sample.sample_ok sample_a_typed _ _).
  - by vm_compute.
  - by vm_compute.
Defined.

(** UPDATE t SET b = 10 + 5 WHERE a = 2. *)
Lemma optimize_update_correct_witness :
  exists out' assigns' child', UpdatePlan Sample.table [mkAssign 1 (BoundConst (int_val kInt 15))] (FetchPlan Sample.table
      (IndexScanPlan Sample.table "i" 7 (cmp_ranges CmpEq (int_key 2)) [mkCond "a" CmpEq (int_val kInt 2) false false]))
      = UpdatePlan Sample.table assigns' child' /\
    selected (UpdatePlan Sample.table [mkAssign 1 (BoundConst (int_val kInt 15))] (FetchPlan Sample.table
      (IndexScanPlan Sample.table "i" 7 (cmp_ranges CmpEq (int_key 2)) [mkCond "a" CmpEq (int_val kInt 2) false false]))) = Ok out' /\
    [Sample.row 3 2 20] ≡ₚ out' /\
    Forall (fun r => Forall2 (assigns_refine r)
      [mkAssign 1 (BoundArith OpAdd (BoundConst (int_val kInt 10)) (BoundConst (int_val kInt 5)) kInt)] assigns') [Sample.row 3 2 20].
Proof.
  refine (optimize_update_correct Sample.table Sample.rows _ (Some Sample.a_is_2) _ _ Sample.sample_ok sample_a_typed _ _ _).
  - constructor; [|constructor]. exists kInt. apply arith_kInt_typed; by apply int_const_typed.
  - by vm_compute.
  - by vm_compute.
Defined.
(** ORDER BY b DESC on three rows. *)
Lemma sort_open_correct_witness :
  exists out, sort_open [mkOrder true 1 None] true ([Sample.row 0 3 10; Sample.row 1 1 30; Sample.row 2 2 20], Ok tt) = Ok out /\
    out ≡ₚ [Sample.row 0 3 10; Sample.row 1 1 30; Sample.row 2 2 20] /\ StronglySorted (rows_before [mkOrder true 1 None] true) out.
Proof.
  assert (forall i, INT32_MIN <= i <= INT32_MAX -> value_ok kInt (int_val kInt i)) as Hi.
  { intros i Hi. pose proof (demo_row_typed i Hi) as H. by inversion H. }
  apply (sort_open_correct [mkOrder true 1 None] [kInt] true).
  - constructor; [|constructor]. right; solve_seed.
  - done.
  - repeat apply Forall_cons; try apply Forall_nil; (eexists; split; [reflexivity|]; constructor; [by apply Hi|constructor]).
Defined.
