(* ===== verification/Bind.v ===== *)
(** The expression binder (src/analyzer/analyzer_expr.cpp) over the expression syntax of
    src/parser/ast.hh, with the type and function rows it reads from the catalog, and the contract
    its header states: what it lets through never fails at run time because of types. *)
From S2P Require Import Prelude Types Ieee Text Cast Decimal Expr Typing.

(** * Syntax *)
Inductive Expr :=
| IntExpr (text : bytes)
| FloatExpr (text : bytes)
| DecimalExpr (text : bytes)
| StringExpr (value : bytes)
| NullExpr
| BoolExpr (value : bool)
| IdentifierExpr (name : string)
| BinaryOpExpr (op : ArithOp) (left right : Expr)
| UnaryOpExpr (plus : bool) (operand : Expr)
| CompareExpr (op : CmpOp) (left right : Expr)
| LogicExpr (op : LogicOp) (left right : Expr)
| NotExpr (operand : Expr)
| IsNullExpr (operand : Expr) (negate : bool)
| BetweenExpr (expr lo hi : Expr)
| FuncCallExpr (name : string) (args : list Expr)
| CastExpr (operand : Expr) (type : string) (length scale : option Z).

(** * The catalog rows the binder reads: src/catalog/catalog.h *)
Record TypeRow := mkTypeRow {
  tr_attr : TypeAttr; tr_name : string; tr_alias : string; tr_len_allowed : bool;
  tr_len_default : Z; tr_len_max : Z; tr_scale_allowed : bool }.
Record FuncRow := mkFuncRow {
  fr_id : Z; fr_name : string; fr_strict_null : bool; fr_args : list TypeAttr; fr_ret : TypeAttr }.
(** What the binder asks of the catalog: a type by its name (an error when there is none), a type the binder itself needs, and
    the functions of a name. *)
Record TypeCatalog := mkCatalog {
  find_type : string -> result TypeRow; require_type : string -> result TypeAttr; funcs : string -> result (list FuncRow) }.
Definition type_named (name : string) (t : TypeRow) : bool :=
  bool_decide (tr_name t = name) || (negb (bool_decide (tr_alias t = ""%string)) && bool_decide (tr_alias t = name)).
(** The catalog of given type and function rows, in scan order. *)
Definition rows_catalog (types : list TypeRow) (fs : list FuncRow) : TypeCatalog := {|
  find_type name := match List.find (type_named name) types with Some t => Ok t | None => Raise InvalidType end;
  require_type name := match List.find (type_named name) types with Some t => Ok (tr_attr t) | None => Raise Internal end;
  funcs name := Ok (List.filter (fun f => bool_decide (fr_name f = name)) fs) |}.

Definition map_type_spec (c : TypeCatalog) (type : string) (length scale : option Z) : result (TypeAttr * Z * Z) :=
  row ← find_type c type;
  if negb (tr_len_allowed row) && bool_decide (is_Some length) then Raise InvalidType
  else
    let n := default (tr_len_default row) length in
    if bool_decide (is_Some length) && ((n <=? 0) || (n >? tr_len_max row)) then Raise InvalidType
    else if negb (tr_scale_allowed row) && bool_decide (is_Some scale) then Raise InvalidType
    else
      let s := default 0 scale in
      if (s <? 0) || (s >? n) then Raise InvalidType else Ok (tr_attr row, wrap 16 n, wrap 8 s).

(** * The binder *)
Record RowDesc := mkRowDesc { rd_cols : gmap string nat; rd_col_types : list TypeAttr }.

Definition bind_arith (c : TypeCatalog) (op : ArithOp) (l r : BoundExpr) (lt rt : TypeAttr) : result (BoundExpr * TypeAttr) :=
  if (negb (is_num_type lt) && negb (t_id lt =? 0)) || (negb (is_num_type rt) && negb (t_id rt =? 0)) then Raise ValueMismatch
  else
    t ← (if (bool_decide (rep lt = RepDec) && bool_decide (rep rt = RepFloat))
            || (bool_decide (rep lt = RepFloat) && bool_decide (rep rt = RepDec))
         then require_type c "double" else Ok (if rank rt <=? rank lt then lt else rt));
    Ok (BoundArith op l r t, t).
Definition check_comparable (lt rt : TypeAttr) : result unit :=
  if negb (t_id lt =? 0) && negb (t_id rt =? 0) && negb (bool_decide (family lt = family rt))
  then Raise ValueMismatch else Ok tt.
Definition check_bool (t : TypeAttr) : bool := negb (bool_decide (family t = FamBool)) && negb (t_id t =? 0).

Definition match_args (row : FuncRow) (ts : list TypeAttr) : bool :=
  Nat.eqb (length (fr_args row)) (length ts) &&
  forallb (fun p => t_id p.1 =? t_id p.2) (zip (fr_args row) ts).

Fixpoint bind_expr (c : TypeCatalog) (rd : option RowDesc) (e : Expr) : result (BoundExpr * TypeAttr) :=
  match e with
  | IntExpr text =>
      match from_chars_i64 text with
      | None => Raise ArithError
      | Some v =>
          t ← require_type c (if (INT32_MIN <=? v) && (v <=? INT32_MAX) then "int" else "bigint");
          Ok (BoundConst (int_val t v), t)
      end
  | FloatExpr text =>
      match from_chars_f64 text with
      | None => Raise ArithError
      | Some v => t ← require_type c "double"; Ok (BoundConst (double_val t v), t)
      end
  | DecimalExpr text =>
      d ← parse_decimal_text text; t ← require_type c "numeric";
      Ok (BoundConst (numeric_val t (unscaled d) (scale d)), t)
  | StringExpr s => t ← require_type c "varchar"; Ok (BoundConst (str_val t s), t)
  | NullExpr => Ok (BoundConst null_val, no_type)
  | BoolExpr b => t ← require_type c "boolean"; Ok (BoundConst (bool_val t b), t)
  | IdentifierExpr name =>
      match rd with
      | None => Raise ValueMismatch
      | Some rd =>
          match rd_cols rd !! name with
          | None => Raise UnknownColumn
          | Some i => match rd_col_types rd !! i with Some t => Ok (BoundColRef i t, t) | None => Fatal end
          end
      end
  | BinaryOpExpr op l r =>
      '(l, lt) ← bind_expr c rd l; '(r, rt) ← bind_expr c rd r; bind_arith c op l r lt rt
  | UnaryOpExpr plus e =>
      '(e, t) ← bind_expr c rd e;
      if negb (is_num_type t) && negb (t_id t =? 0) then Raise ValueMismatch
      else if plus : bool then Ok (e, t) else Ok (BoundNeg e t, t)
  | CompareExpr op l r =>
      '(l, lt) ← bind_expr c rd l; '(r, rt) ← bind_expr c rd r;
      _ ← check_comparable lt rt; t ← require_type c "boolean"; Ok (BoundCmp op l r, t)
  | LogicExpr op l r =>
      '(l, lt) ← bind_expr c rd l; '(r, rt) ← bind_expr c rd r;
      if check_bool lt || check_bool rt then Raise ValueMismatch
      else t ← require_type c "boolean"; Ok (BoundLogic op l r, t)
  | NotExpr e =>
      '(e, t) ← bind_expr c rd e;
      if check_bool t then Raise ValueMismatch else t ← require_type c "boolean"; Ok (BoundNot e, t)
  | IsNullExpr e negate =>
      '(e, _) ← bind_expr c rd e; t ← require_type c "boolean"; Ok (BoundIsNull e negate, t)
  | BetweenExpr x lo hi =>
      '(x1, xt) ← bind_expr c rd x; '(lo, lot) ← bind_expr c rd lo;
      '(x2, xt) ← bind_expr c rd x; '(hi, hit) ← bind_expr c rd hi;
      _ ← check_comparable xt lot; _ ← check_comparable xt hit;
      t ← require_type c "boolean";
      Ok (BoundLogic LAnd (BoundCmp CmpGe x1 lo) (BoundCmp CmpLe x2 hi), t)
  | FuncCallExpr name args =>
      overloads ← funcs c name;
      if bool_decide (overloads = []) then Raise UnknownFunction
      else
        bs ← (fix go l := match l with
                          | [] => Ok []
                          | a :: l => b ← bind_expr c rd a; bs ← go l; Ok (b :: bs)
                          end) args;
        match List.find (fun row => match_args row bs.*2) overloads with
        | None => Raise ValueMismatch
        | Some hit => Ok (BoundFuncCall (fr_id hit) name (fr_strict_null hit) bs.*1 (fr_ret hit), fr_ret hit)
        end
  | CastExpr e type length scale =>
      '(e, ot) ← bind_expr c rd e;
      '(t, len, scl) ← map_type_spec c type length scale;
      let plain := negb (bool_decide (family t = FamText)) || (bool_decide (store t = StVarLen) && (len =? 0)) in
      let plain := if decide (rep t = RepDec) then len =? 0 else plain in
      if bool_decide (ot = t) && plain then Ok (e, t) else Ok (BoundCast e t len scl, t)
  end.

Definition bind_args (c : TypeCatalog) (rd : option RowDesc) (args : list Expr) : result (list (BoundExpr * TypeAttr)) :=
  mapM (bind_expr c rd) args.
Lemma bind_args_eq c rd args :
  (fix go l := match l with
               | [] => Ok []
               | a :: l => b ← bind_expr c rd a; bs ← go l; Ok (b :: bs)
               end) args = bind_args c rd args.
Proof. induction args as [|a l IH]; [done|]. by rewrite IH. Qed.

Definition bind_where (c : TypeCatalog) (rd : RowDesc) (e : Expr) : result BoundExpr :=
  '(p, t) ← bind_expr c (Some rd) e;
  if check_bool t then Raise ValueMismatch else Ok p.

Definition build_row_desc (m : TableMeta) : RowDesc :=
  mkRowDesc (list_to_map (imap (fun i col => (cname col, i)) (cols m))) (ctype <$> cols m).

(** Does an expression refer to a column? *)
Fixpoint has_col_ref (e : Expr) : bool :=
  match e with
  | IntExpr _ | FloatExpr _ | DecimalExpr _ | StringExpr _ | BoolExpr _ | NullExpr => false
  | IdentifierExpr _ => true
  | BinaryOpExpr _ l r | CompareExpr _ l r | LogicExpr _ l r => has_col_ref l || has_col_ref r
  | UnaryOpExpr _ e | NotExpr e | IsNullExpr e _ | CastExpr e _ _ _ => has_col_ref e
  | BetweenExpr x lo hi => has_col_ref x || has_col_ref lo || has_col_ref hi
  | FuncCallExpr _ args => existsb has_col_ref args
  end.

(** * The catalog the bootstrap script creates *)
Definition seed_type_row (s : TypeSeed) : TypeRow :=
  mkTypeRow (attr s) (sname s) (default ""%string (alias s)) (len_allowed s) (len_default s) (len_max s) (scale_allowed s).
Definition func_names : list (string * list Z) :=
  [("abs"%string, [1; 2; 3; 4; 5]); ("round"%string, [6; 7; 8; 9; 10; 11]); ("floor"%string, [12; 13; 14; 15; 16]);
   ("ceil"%string, [17; 18; 19; 20; 21]); ("mod"%string, [22; 23; 24; 25; 26])].
Definition seed_func_rows : list FuncRow :=
  '(name, ids) ← func_names; id ← ids;
  '(f, args, ret) ← func_sigs; if f =? id then [mkFuncRow f name true args ret] else [].
Definition seed_catalog : TypeCatalog := rows_catalog (seed_type_row <$> kTypeSeeds) seed_func_rows.

Example seed_funcs : match funcs seed_catalog "round" with Ok fs => Ok (fr_args <$> fs) | Raise e => Raise e | Fatal => Fatal end =
  Ok [[kInt]; [kBigint]; [kDouble]; [kFloat]; [kNumeric]; [kNumeric; kInt]].
Proof. by vm_compute. Qed.

(** * What the catalog promises *)
Class CatalogOk (c : TypeCatalog) : Prop := {
  cat_int : require_type c "int" = Ok kInt;
  cat_bigint : require_type c "bigint" = Ok kBigint;
  cat_double : require_type c "double" = Ok kDouble;
  cat_numeric : require_type c "numeric" = Ok kNumeric;
  cat_varchar : require_type c "varchar" = Ok kVarChar;
  cat_boolean : require_type c "boolean" = Ok kBool;
  cat_types : forall name t, find_type c name = Ok t -> seed_attr (tr_attr t);
  cat_funcs : forall name fs f, funcs c name = Ok fs -> In f fs -> sig_ok (fr_id f) (fr_args f) (fr_ret f) /\ fr_strict_null f = true }.

Lemma rows_types types fs name t : find_type (rows_catalog types fs) name = Ok t -> In t types.
Proof. cbn [find_type rows_catalog]. destruct (List.find _ _) as [t'|] eqn:E; [|done]. intros [= <-]. by apply find_some in E as [E _]. Qed.
Lemma rows_funcs types fs name l f : funcs (rows_catalog types fs) name = Ok l -> In f l -> In f fs.
Proof. cbn [funcs rows_catalog]. intros [= <-] [H _]%filter_In. exact H. Qed.
#[export] Instance seed_catalog_ok : CatalogOk seed_catalog.
Proof.
  split; [by vm_compute|by vm_compute|by vm_compute|by vm_compute|by vm_compute|by vm_compute|..].
  - intros name t Ht%rows_types. apply list_elem_of_In in Ht. apply list_elem_of_fmap in Ht as (s & -> & Hs).
    unfold seed_attr. apply list_elem_of_fmap. by exists s.
  - assert (Forall (fun f => (fr_id f, fr_args f, fr_ret f) ∈ func_sigs /\ fr_strict_null f = true) seed_func_rows) as H
      by (apply (bool_decide_eq_true_1 _); by vm_compute).
    intros name fs f E Hf. rewrite Forall_forall in H. apply (H f). exact (rows_funcs _ _ name fs f E Hf).
Qed.

Definition rd_ok (rd : option RowDesc) (ts : list TypeAttr) : Prop :=
  match rd with
  | None => ts = []
  | Some rd => rd_col_types rd = ts /\ Forall seed_attr ts
  end.

Section sound.
Context (c : TypeCatalog) `{!CatalogOk c} (rd : option RowDesc) (ts : list TypeAttr) (Hrd : rd_ok rd ts).

Lemma map_type_spec_ok type len sc t l s : map_type_spec c type len sc = Ok (t, l, s) ->
  seed_attr t /\ 0 <= l /\ 0 <= s <= 255.
Proof using All.
  unfold map_type_spec. intros (row & Hrow & H)%bind_ok. apply cat_types in Hrow. cbv zeta in H.
  repeat match type of H with (if ?b then _ else _) = _ => destruct b; [done|] end. injection H as <- <- <-.
  pose proof (wrap_bound 16 (default (tr_len_default row) len)). pose proof (wrap_bound 8 (default 0 sc)).
  split; [done|]. lia.
Qed.

Lemma const_int v : in_i64 v = true -> (INT32_MIN <=? v) && (v <=? INT32_MAX) = true ->
  has_type ts (BoundConst (int_val kInt v)) kInt.
Proof using.
  intros H64 H32. apply (ht_const ts (int_val kInt v)); [done|solve_seed|]. right. apply in_i64_spec in H64.
  split_and!; try done. intros _. simpl. lia.
Qed.
Lemma from_chars_range s v : from_chars_i64 s = Some v -> in_i64 v = true.
Proof using.
  unfold from_chars_i64. destruct (match s with 45 :: s' => (true, s') | _ => (false, s) end) as [neg s'].
  destruct (span_digits s') as [[|x ds] [|]]; try done. destruct (in_i64 _) eqn:E; [|done]. by intros [= <-].
Qed.
Lemma const_typed t b : seed_attr t -> rep t = box_rep b -> box_rep b <> RepNone -> box_range b -> t <> kInt ->
  has_type ts (BoundConst (mkVal t b)) t.
Proof using.
  intros Ht Hr Hn Hb Hi. apply (ht_const ts (mkVal t b)); [by destruct b|done|]. right. by split_and!.
Qed.
Lemma comparable_checked lt rt : check_comparable lt rt = Ok tt -> comparable lt rt = true.
Proof using.
  unfold check_comparable, comparable. destruct (t_id lt =? 0), (t_id rt =? 0), (bool_decide _); simpl; done.
Qed.
Lemma bool_checked t : check_bool t = false -> bool_or_null t = true.
Proof using. unfold check_bool, bool_or_null. destruct (bool_decide _), (t_id t =? 0); done. Qed.
Lemma match_args_eq name fs f bts : CatalogOk c -> funcs c name = Ok fs -> In f fs -> Forall type_ok bts -> match_args f bts = true -> fr_args f = bts.
Proof using.
  intros Hc Hfs Hf Ht H. apply andb_true_iff in H as [Hl%Nat.eqb_eq H].
  assert (Forall seed_attr (fr_args f)) as Hs.
  { destruct (cat_funcs name fs f Hfs Hf) as [Hsig _].
    assert (Forall (fun x : Z * list TypeAttr * TypeAttr => Forall num_type x.1.2) func_sigs) as Hall
      by (apply (bool_decide_eq_true_1 _); by vm_compute).
    rewrite Forall_forall in Hall. refine (Forall_impl _ num_seed _).
    apply (Hall (fr_id f, fr_args f, fr_ret f)). apply list_elem_of_In. exact Hsig. }
  revert bts Ht Hl H. induction Hs as [|a l Ha _ IH]; intros [|b bts] Ht Hl H; try done.
  inversion_clear Ht as [|? ? Hb Hbs]. simpl in H. apply andb_true_iff in H as [Hab%Z.eqb_eq H]. simpl in Hab.
  f_equal; [|apply IH; [done|by injection Hl|done]].
  destruct Hb as [->|Hb]; [by destruct (seed_attr_cases a Ha) as [->|[->|[->|[->|[->|[->|[->| ->]]]]]]]|].
  destruct (seed_attr_cases a Ha) as [->|[->|[->|[->|[->|[->|[->| ->]]]]]]],
    (seed_attr_cases b Hb) as [->|[->|[->|[->|[->|[->|[->| ->]]]]]]]; done.
Qed.

Section expr_ind.
Context (P : Expr -> Prop).
Context (H1 : forall s, P (IntExpr s)) (H2 : forall s, P (FloatExpr s)) (H3 : forall s, P (DecimalExpr s)).
Context (H4 : forall s, P (StringExpr s)) (H5 : P NullExpr) (H6 : forall b, P (BoolExpr b)) (H7 : forall n, P (IdentifierExpr n)).
Context (H8 : forall op l r, P l -> P r -> P (BinaryOpExpr op l r)) (H9 : forall b e, P e -> P (UnaryOpExpr b e)).
Context (H10 : forall op l r, P l -> P r -> P (CompareExpr op l r)) (H11 : forall op l r, P l -> P r -> P (LogicExpr op l r)).
Context (H12 : forall e, P e -> P (NotExpr e)) (H13 : forall e n, P e -> P (IsNullExpr e n)).
Context (H14 : forall x lo hi, P x -> P lo -> P hi -> P (BetweenExpr x lo hi)).
Context (H15 : forall n args, Forall P args -> P (FuncCallExpr n args)) (H16 : forall e t l s, P e -> P (CastExpr e t l s)).
Fixpoint Expr_ind' (e : Expr) : P e :=
  match e with
  | IntExpr s => H1 s | FloatExpr s => H2 s | DecimalExpr s => H3 s | StringExpr s => H4 s
  | NullExpr => H5 | BoolExpr b => H6 b | IdentifierExpr n => H7 n
  | BinaryOpExpr op l r => H8 op l r (Expr_ind' l) (Expr_ind' r)
  | UnaryOpExpr b e => H9 b e (Expr_ind' e)
  | CompareExpr op l r => H10 op l r (Expr_ind' l) (Expr_ind' r)
  | LogicExpr op l r => H11 op l r (Expr_ind' l) (Expr_ind' r)
  | NotExpr e => H12 e (Expr_ind' e)
  | IsNullExpr e n => H13 e n (Expr_ind' e)
  | BetweenExpr x lo hi => H14 x lo hi (Expr_ind' x) (Expr_ind' lo) (Expr_ind' hi)
  | FuncCallExpr n args =>
      H15 n args ((fix go l : Forall P l := match l with
                                            | [] => List.Forall_nil P
                                            | x :: l => List.Forall_cons P x l (Expr_ind' x) (go l)
                                            end) args)
  | CastExpr e t l s => H16 e t l s (Expr_ind' e)
  end.
End expr_ind.

Lemma bind_args_typed args bs :
  Forall (fun a => forall be t, bind_expr c rd a = Ok (be, t) -> has_type ts be t) args ->
  bind_args c rd args = Ok bs -> Forall2 (has_type ts) bs.*1 bs.*2.
Proof using.
  intros H. unfold bind_args. revert bs. induction H as [|a args Ha _ IH]; intros bs; simpl; [by intros [= <-]|].
  intros ([b t] & Hb & (bs' & Hbs & [= <-])%bind_ok)%bind_ok. constructor; [by apply Ha|by apply IH].
Qed.
Lemma ok_eq {A} (a b : A) : Ok a = Ok b -> a = b.
Proof using. congruence. Qed.
Ltac bind_inv :=
  repeat match goal with
  | H : (_ ≫= _) = Ok _ |- _ => let x := fresh "x" in let E := fresh "E" in apply bind_ok in H as (x & E & H);
      match type of x with prod _ _ => destruct x as [? ?] | unit => destruct x | _ => idtac end
  | H : (let '(_, _) := ?p in _) = Ok _ |- _ => destruct p
  | H : Ok (_, _) = Ok (_, _) |- _ => apply ok_eq, pair_equal_spec in H as [<- <-]
  | H : (if ?b then Raise _ else _) = Ok _ |- _ => let E := fresh "E" in destruct b eqn:E; [discriminate H|]
  | H : require_type c _ = Ok _ |- _ =>
      rewrite ?cat_int, ?cat_bigint, ?cat_double, ?cat_numeric, ?cat_varchar, ?cat_boolean in H; apply ok_eq in H as <-
  end.

Lemma bind_typed e be t : bind_expr c rd e = Ok (be, t) -> has_type ts be t.
Proof using All.
  revert be t. induction e using Expr_ind'; intros be ty Hb; cbn [bind_expr] in Hb.
  - destruct (from_chars_i64 s) as [v|] eqn:Ev; [|done]. pose proof (from_chars_range _ _ Ev) as H64.
    destruct (_ && _) eqn:E32; bind_inv; [by apply const_int|]. by apply (const_typed kBigint (BInt v)); [solve_seed|..|apply in_i64_spec|].
  - destruct (from_chars_f64 s) as [v|] eqn:Ev; [|done]. apply from_chars_f64_ok in Ev. bind_inv.
    by apply const_typed; [solve_seed|..].
  - bind_inv. apply const_typed; try done; [solve_seed|]. by apply parse_decimal_range in E.
  - bind_inv. by apply const_typed; [solve_seed|..].
  - injection Hb as <- <-. by apply ht_null.
  - bind_inv. by apply const_typed; [solve_seed|..].
  - destruct rd as [r|]; [|done]. destruct (rd_cols r !! n) as [i|]; [|done]. destruct Hrd as [Hts Hseed].
    rewrite Hts in Hb. destruct (ts !! i) as [t|] eqn:Ei; [|done]. injection Hb as <- <-.
    constructor; [done|]. rewrite Forall_forall in Hseed. apply Hseed. apply list_elem_of_In. by eapply list_elem_of_lookup_2.
  - bind_inv. unfold bind_arith in Hb. destruct (_ || _) eqn:En in Hb; [done|]. apply orb_false_iff in En as [El Er].
    bind_inv. assert (x = arith_type t t0) as ->.
    { unfold arith_type. destruct (_ || _) in *; [|by apply ok_eq in E1].
      rewrite cat_double in E1. by apply ok_eq in E1. }
    eapply ht_arith; [by apply IHe1|by apply IHe2|apply le_type_refl..| | | |]; eauto using has_type_ok; unfold num_or_null;
      [by destruct (is_num_type t), (t_id t =? 0)|by destruct (is_num_type t0), (t_id t0 =? 0)].
  - bind_inv. specialize (IHe _ _ E). destruct b; bind_inv; [done|]. eapply ht_neg; [done|apply le_type_refl|by eapply has_type_ok|].
    unfold num_or_null. by destruct (is_num_type t), (t_id t =? 0).
  - bind_inv. eapply ht_cmp; [by apply IHe1|by apply IHe2|by apply comparable_checked].
  - bind_inv. apply orb_false_iff in E1 as [? ?]. bind_inv.
    eapply ht_logic; [by apply IHe1|by apply IHe2|by apply bool_checked..].
  - bind_inv. eapply ht_not; [by apply IHe|by apply bool_checked].
  - bind_inv. eapply ht_is_null. by apply IHe.
  - bind_inv.
    assert (t = t1) as -> by congruence.
    eapply (ht_logic _ _ _ _ kBool kBool); [eapply ht_cmp|eapply ht_cmp|done|done]; eauto using comparable_checked.
  - apply bind_ok in Hb as (fs & Hfs & Hb). destruct (bool_decide _); [done|]. rewrite bind_args_eq in Hb. bind_inv.
    destruct (List.find _ _) as [hit|] eqn:Ef; [|done]. bind_inv. apply find_some in Ef as [Hin Hm].
    pose proof (bind_args_typed _ _ H E) as Hargs. destruct (cat_funcs n fs hit Hfs Hin) as [Hsig Hst].
    eapply ht_func; [done|done|exact Hargs|].
    rewrite (match_args_eq n fs hit x.*2); [|done|done|done| |done].
    { apply Forall_Forall2_diag, Forall_true. intros. apply le_type_refl. }
    clear -Hargs. induction Hargs; constructor; [by eapply has_type_ok|done].
  - bind_inv. destruct (map_type_spec_ok _ _ _ _ _ _ E0) as (Ht & Hl & Hs). cbv zeta in Hb.
    destruct (bool_decide (t0 = t1) && _) eqn:Ep; bind_inv.
    + apply andb_true_iff in Ep as [->%bool_decide_eq_true _]. by apply IHe.
    + eapply ht_cast; [by apply IHe|done..].
Qed.
End sound.

(** A bound expression is typed at the types of the columns it was bound against, so by type
    soundness evaluating it can only fail with an arithmetic or a value error. *)
Lemma bind_eval_safe c rd ts row e be t :
  CatalogOk c -> rd_ok rd ts -> context_ok ts row -> bind_expr c rd e = Ok (be, t) ->
  safe (value_ok t) (eval_bound be row).
Proof. intros Hc Hrd Hrow Hb. eapply eval_typed; [done|]. by eapply bind_typed. Qed.

(** C12. Type soundness of binding and evaluation: for every catalog that keeps the bootstrap's promises,
    an expression the binder accepts evaluates, on every row of the table's column types (and
    in the constant context), to NULL or a value of the type the binder derived, in range, or fails
    with ArithError or ValueMismatch: never an internal type error, a missing column or a crash. *)
Theorem bind_eval_sound c rd ts row e be t :
  CatalogOk c -> rd_ok rd ts -> context_ok ts row -> bind_expr c rd e = Ok (be, t) ->
  match eval_bound be row with
  | Ok v => is_null v = true \/ (vtype v = t /\ box_rep (box v) = rep t /\ box_range (box v))
  | Raise err => err = ArithError \/ err = ValueMismatch
  | Fatal => False
  end.
Proof.
  intros Hc Hrd Hrow Hb. pose proof (bind_eval_safe c rd ts row e be t Hc Hrd Hrow Hb) as H.
  destruct (eval_bound be row) as [v| |]; simpl in *; [|done..].
  destruct H as [H|(H1 & H2 & H3 & _)]; [by left|by right].
Qed.

Definition demo_rd : RowDesc := mkRowDesc {["a" := 0%nat]} [kInt].
Lemma bind_eval_sound_witness :
  match eval_bound (BoundArith OpDiv (BoundConst (numeric_val kNumeric 15 1)) (BoundColRef 0 kInt) kNumeric) (Some [int_val kInt 0]) with
  | Ok v => is_null v = true \/ (vtype v = kNumeric /\ box_rep (box v) = rep kNumeric /\ box_range (box v))
  | Raise err => err = ArithError \/ err = ValueMismatch
  | Fatal => False
  end.
Proof.
  apply (bind_eval_sound seed_catalog (Some demo_rd) [kInt] (Some [int_val kInt 0])
    (BinaryOpExpr OpDiv (DecimalExpr (str "1.5")) (IdentifierExpr "a")) _ kNumeric seed_catalog_ok).
  - split; [done|]. constructor; [solve_seed|constructor].
  - constructor; [|constructor]. right. split_and!; try done. 
  - by vm_compute.
Defined.
