(* ===== verification/Page.v ===== *)
(** Heap pages (src/storage/page.cpp): the byte layout of the page header and the slot array,
    CRC-32 page validation, and the append / delete / compact operations, with their refinement
    to a list of optional records. *)
From S2P Require Import Prelude Types.

(** * CRC-32 (IEEE 802.3) *)
Definition crc_bit (c : Z) : Z :=
  if Z.testbit c 0 then Z.lxor 0xedb88320 (Z.shiftr c 1) else Z.shiftr c 1.
Definition crc_entry (i : Z) : Z := Nat.iter 8 crc_bit i.
Definition crc_table : list Z := (fun i => crc_entry (Z.of_nat i)) <$> seq 0 256.
Definition crc_step (crc b : Z) : Z :=
  Z.lxor (nth (Z.to_nat (Z.land (Z.lxor crc b) 0xff)) crc_table 0) (Z.shiftr crc 8).
Definition not32 (x : Z) : Z := Z.lxor x 0xffffffff.

Definition crc32 (data : bytes) : Z := not32 (fold_left crc_step data 0xffffffff).

(** * Layout *)
Definition PAGE_HEADER_SIZE : Z := 24.
Definition SLOT_SIZE : Z := 4.
Definition MAX_RECORD_LEN : Z := 4096 - PAGE_HEADER_SIZE - SLOT_SIZE.
Definition MAGIC_FILE_HEADER : Z := 0x54444146.
Definition MAGIC_HEAP : Z := 0x50414548.
Definition MAGIC_BTREE_LEAF : Z := 0x464C5442.
Definition MAGIC_BTREE_INTERNAL : Z := 0x4E495442.

(** [PageHeader], with the two bytes of alignment before [next_page]. *)
Definition h_magic (p : bytes) : Z := get_u 4 0 p.
Definition h_type (p : bytes) : Z := get_u 1 4 p.
Definition h_slot_count (p : bytes) : Z := get_u 2 8 p.
Definition h_free_begin (p : bytes) : Z := get_u 2 10 p.
Definition h_free_end (p : bytes) : Z := get_u 2 12 p.
Definition h_next_page (p : bytes) : Z := get_u 4 16 p.
Definition h_checksum (p : bytes) : Z := get_u 4 20 p.
Definition set_magic (v : Z) (p : bytes) : bytes := put_u 4 0 v p.
Definition set_type (v : Z) (p : bytes) : bytes := put_u 1 4 v p.
Definition set_slot_count (v : Z) (p : bytes) : bytes := put_u 2 8 v p.
Definition set_free_begin (v : Z) (p : bytes) : bytes := put_u 2 10 v p.
Definition set_free_end (v : Z) (p : bytes) : bytes := put_u 2 12 v p.
Definition set_next_page (v : Z) (p : bytes) : bytes := put_u 4 16 v p.
Definition set_checksum (v : Z) (p : bytes) : bytes := put_u 4 20 v p.

(** The checksum bytes take part as zeros. *)
Fixpoint checksum_loop (p : bytes) (i crc : Z) : Z :=
  match p with
  | [] => crc
  | b :: p => checksum_loop p (i + 1) (crc_step crc (if (20 <=? i) && (i <? 24) then 0 else b))
  end.
Definition page_checksum (p : bytes) : Z := not32 (checksum_loop p 0 0xffffffff).

Definition seal (p : bytes) : bytes := set_checksum (page_checksum p) p.

Definition zero_page : bytes := replicate (Z.to_nat PAGE_SIZE) 0.
Definition init_page (magic : Z) (t : PageType) : bytes :=
  seal (set_free_end PAGE_SIZE (set_free_begin PAGE_HEADER_SIZE
    (set_type (page_type_code t) (set_magic magic zero_page)))).

Definition page_valid (p : bytes) (magic : Z) : bool :=
  (h_magic p =? magic) && (h_checksum p =? page_checksum p).
Definition page_all_zero (p : bytes) : bool := bool_decide (p = zero_page).

Definition file_next_rowid (p : bytes) : Z := get_u 8 PAGE_HEADER_SIZE p.
Definition set_file_next_rowid (v : Z) (p : bytes) : bytes := put_u 8 PAGE_HEADER_SIZE v p.

(** * Slots *)
Definition slot_at (i : Z) : Z := PAGE_SIZE - SLOT_SIZE * (i + 1).
Definition slot_off (p : bytes) (i : Z) : Z := get_u 2 (slot_at i) p.
Definition slot_len (p : bytes) (i : Z) : Z := get_u 2 (slot_at i + 2) p.
Definition set_slot (i off len : Z) (p : bytes) : bytes :=
  put_u 2 (slot_at i + 2) len (put_u 2 (slot_at i) off p).
Definition record (p : bytes) (i : Z) : bytes := slice (slot_off p i) (slot_len p i) p.
Definition free_space (p : bytes) : Z := wrap 16 (h_free_end p - h_free_begin p).
Definition slot_tombstone (p : bytes) (i : Z) : bool := (slot_off p i =? 0) && (slot_len p i =? 0).

(** [heap_append]: [None] is [return false]; otherwise the page and the new slot. *)
Definition heap_append (p rec : bytes) : option (bytes * Z) :=
  let avail := wrap 32 (h_free_end p - h_free_begin p) in
  if zlen rec + SLOT_SIZE >? avail then None
  else
    let off := h_free_begin p in
    let p := splice off rec p in
    let p := set_slot (h_slot_count p) off (zlen rec) p in
    let p := set_free_begin (wrap 16 (off + zlen rec)) p in
    let p := set_free_end (wrap 16 (h_free_end p - SLOT_SIZE)) p in
    let p := set_slot_count (wrap 16 (h_slot_count p + 1)) p in
    let p := seal p in
    Some (p, wrap 16 (h_slot_count p - 1)).

Definition heap_delete (p : bytes) (slot : Z) : bytes := seal (set_slot slot 0 0 p).

(** The loop of [heap_compact] over slots [i, i + n): [(page, off, dst)]. *)
Fixpoint compact_loop (n : nat) (i : Z) (st : bytes * Z * Z) : bytes * Z * Z :=
  match n with
  | O => st
  | S n =>
      let '(p, off, dst) := st in
      if slot_tombstone p i then compact_loop n (i + 1) st
      else
        let len := slot_len p i in
        let p := splice off (slice (slot_off p i) len p) p in
        let p := set_slot dst off len p in
        compact_loop n (i + 1) (p, wrap 16 (off + len), wrap 16 (dst + 1))
  end.
Definition heap_compact (p : bytes) : bytes :=
  let '(p, off, dst) := compact_loop (Z.to_nat (h_slot_count p)) 0 (p, PAGE_HEADER_SIZE, 0) in
  let p := set_slot_count dst p in
  let p := set_free_begin off p in
  let p := set_free_end (wrap 16 (PAGE_SIZE - dst * SLOT_SIZE)) p in
  seal p.

(** * Abstraction: the records of a page in slot order, [None] for a tombstone *)
Definition slot_record (p : bytes) (i : Z) : option bytes :=
  if slot_tombstone p i then None else Some (record p i).
Definition heap_rows (p : bytes) : list (option bytes) :=
  (fun i => slot_record p (Z.of_nat i)) <$> seq 0 (Z.to_nat (h_slot_count p)).

(** Well-formed heap page: the header frames the slot array, and the live records lie in slot
    order, without overlap, between the page header and [free_begin]. *)
Record heap_wf (p : bytes) : Prop := {
  hw_len : zlen p = PAGE_SIZE;
  hw_bytes : Forall byte_ok p;
  hw_end : h_free_end p = PAGE_SIZE - SLOT_SIZE * h_slot_count p;
  hw_begin : PAGE_HEADER_SIZE <= h_free_begin p <= h_free_end p;
  hw_slots : forall i, 0 <= i < h_slot_count p -> slot_tombstone p i = false ->
    PAGE_HEADER_SIZE <= slot_off p i /\ slot_off p i + slot_len p i <= h_free_begin p;
  hw_order : forall i j, 0 <= i < j -> j < h_slot_count p ->
    slot_tombstone p i = false -> slot_tombstone p j = false ->
    slot_off p i + slot_len p i <= slot_off p j }.

Example empty_page_valid : page_valid (init_page MAGIC_HEAP PtHeap) MAGIC_HEAP = true.
Proof. by vm_compute. Qed.
Example crc_check : crc32 (str "123456789") = 0xcbf43926.
Proof. by vm_compute. Qed.

(** * CRC facts *)
Lemma lxor_bound n a b : 0 <= n -> 0 <= a < 2 ^ n -> 0 <= b < 2 ^ n -> 0 <= Z.lxor a b < 2 ^ n.
Proof.
  intros Hn Ha Hb. assert (0 <= Z.lxor a b) as Hp by (apply Z.lxor_nonneg; lia). split; [done|].
  rewrite <- (Z.mod_small a (2 ^ n)), <- (Z.mod_small b (2 ^ n)) by done.
  rewrite <- !Z.land_ones by done.
  assert (Z.lxor (Z.land a (Z.ones n)) (Z.land b (Z.ones n)) = Z.land (Z.lxor a b) (Z.ones n)) as ->.
  { apply Z.bits_inj'. intros i Hi. rewrite Z.lxor_spec, !Z.land_spec, Z.lxor_spec.
    by destruct (Z.testbit a i), (Z.testbit b i), (Z.testbit (Z.ones n) i). }
  rewrite Z.land_ones by done. apply Z.mod_pos_bound. lia.
Qed.

Lemma crc_table_bound : Forall (fun x => 0 <= x < 2 ^ 32) crc_table.
Proof.
  assert (forallb (fun x => (0 <=? x) && (x <? 2 ^ 32)) crc_table = true) as H by (by vm_compute).
  rewrite List.forallb_forall in H. apply List.Forall_forall. intros x Hx. specialize (H x Hx). lia.
Qed.

Lemma crc_step_bound crc b : 0 <= crc < 2 ^ 32 -> 0 <= crc_step crc b < 2 ^ 32.
Proof.
  intros Hc. unfold crc_step. apply lxor_bound; [lia| |].
  - destruct (nth_in_or_default (Z.to_nat (Z.land (Z.lxor crc b) 255)) crc_table 0) as [H| ->]; [|lia].
    exact (proj1 (List.Forall_forall _ _) crc_table_bound _ H).
  - rewrite Z.shiftr_div_pow2 by lia. split; [apply Z.div_pos; lia|].
    apply Z.div_lt_upper_bound; lia.
Qed.

Lemma not32_bound x : 0 <= x < 2 ^ 32 -> 0 <= not32 x < 2 ^ 32.
Proof. intros. unfold not32. by apply lxor_bound. Qed.

Lemma crc32_bound data : 0 <= crc32 data < 2 ^ 32.
Proof.
  unfold crc32. apply not32_bound. assert (0 <= 0xffffffff < 2 ^ 32) as H by lia. revert H.
  generalize 0xffffffff. induction data as [|b l IH]; intros c Hc; simpl; [done|].
  by apply IH, crc_step_bound.
Qed.

Lemma checksum_loop_bound p i crc : 0 <= crc < 2 ^ 32 -> 0 <= checksum_loop p i crc < 2 ^ 32.
Proof.
  revert i crc; induction p as [|b p IH]; intros i crc Hc; simpl; [done|]. by apply IH, crc_step_bound.
Qed.

Lemma page_checksum_bound p : 0 <= page_checksum p < 2 ^ 32.
Proof. apply not32_bound, checksum_loop_bound. lia. Qed.

Lemma checksum_loop_ext p q i crc :
  length p = length q ->
  (forall k, ~ (20 <= i + Z.of_nat k < 24) -> p !! k = q !! k) ->
  checksum_loop p i crc = checksum_loop q i crc.
Proof.
  revert q i crc; induction p as [|b p IH]; intros [|b' q] i crc Hl He; try done. simpl.
  rewrite (IH q); [|by injection Hl|].
  - f_equal. f_equal. destruct ((20 <=? i) && (i <? 24)) eqn:E; [done|].
    specialize (He 0%nat ltac:(lia)). by injection He.
  - intros k Hk. apply (He (S k)). lia.
Qed.

(** The checksum field itself does not matter. *)
Lemma page_checksum_set v p : 24 <= zlen p -> page_checksum (set_checksum v p) = page_checksum p.
Proof.
  intros Hp. unfold page_checksum. f_equal. unfold set_checksum, put_u. apply checksum_loop_ext.
  - pose proof (zlen_splice 20 (le_bytes (Z.to_nat 4) v) p ltac:(lia) ltac:(buf)) as E.
    unfold zlen in E. lia.
  - intros k Hk. rewrite lookup_splice by buf. rewrite decide_False; [done|]. buf.
Qed.

Lemma page_valid_seal p magic : 24 <= zlen p -> h_magic p = magic -> page_valid (seal p) magic = true.
Proof.
  intros Hp Hm. unfold page_valid, seal, h_magic, h_checksum, set_checksum in *.
  pose proof (page_checksum_bound p). rewrite get_put_u, get_put_u_ne by lia.
  fold (set_checksum (page_checksum p) p). rewrite page_checksum_set by done.
  rewrite Hm. by rewrite !Z.eqb_refl.
Qed.

(** * The append refinement *)
Ltac punfold := unfold h_magic, h_type, h_slot_count, h_free_begin, h_free_end, h_next_page, h_checksum,
  set_magic, set_type, set_slot_count, set_free_begin, set_free_end, set_next_page, set_checksum,
  slot_off, slot_len, set_slot, slot_at, file_next_rowid, set_file_next_rowid,
  PAGE_SIZE, SLOT_SIZE, PAGE_HEADER_SIZE in *.

Lemma seal_reads p : 24 <= zlen p ->
  h_magic (seal p) = h_magic p /\ h_type (seal p) = h_type p /\
  h_slot_count (seal p) = h_slot_count p /\ h_free_begin (seal p) = h_free_begin p /\
  h_free_end (seal p) = h_free_end p /\ h_next_page (seal p) = h_next_page p /\
  zlen (seal p) = zlen p /\
  forall off n, 24 <= off -> slice off n (seal p) = slice off n p.
Proof. intros. unfold seal. punfold. split_and!; try (by getput); [plen|]. intros. by getput. Qed.

Lemma slot_reads_slice p q i :
  0 <= slot_at i -> slice (slot_at i) 4 p = slice (slot_at i) 4 q ->
  slot_off p i = slot_off q i /\ slot_len p i = slot_len q i.
Proof.
  intros Hi Hs. unfold slot_off, slot_len, get_u. split.
  - rewrite <- (Z.add_0_r (slot_at i)), <- !(slice_slice (slot_at i) 4 0 2) by lia. by rewrite Hs.
  - rewrite <- !(slice_slice (slot_at i) 4 2 2) by lia. by rewrite Hs.
Qed.

Section append.
Context (p rec : bytes) (Hwf : heap_wf p) (Hrec : Forall byte_ok rec).
Let n := h_slot_count p.
Let fb := h_free_begin p.
Hypothesis Hfit : zlen rec + SLOT_SIZE <= h_free_end p - h_free_begin p.

Lemma append_bounds :
  zlen p = 4096 /\ 0 <= n <= 1018 /\ 24 <= fb /\ h_free_end p = 4096 - 4 * n /\
  fb + zlen rec + 4 <= 4096 - 4 * n /\ 0 <= zlen rec.
Proof using Hwf Hfit.
  destruct Hwf as [Hl Hb He Hbg _ _]. pose proof (zlen_nonneg rec).
  assert (0 <= h_slot_count p) by (apply (get_u_bound 2 8 p); try lia; [rewrite Hl; unfold PAGE_SIZE; lia|done]).
  unfold n, fb, PAGE_SIZE, SLOT_SIZE, PAGE_HEADER_SIZE in *. lia.
Qed.

Definition append_page : bytes :=
  seal (set_slot_count (n + 1) (set_free_end (h_free_end p - 4) (set_free_begin (fb + zlen rec)
    (set_slot n fb (zlen rec) (splice fb rec p))))).

Lemma heap_append_eq : heap_append p rec = Some (append_page, n).
Proof using Hwf Hfit.
  pose proof append_bounds as (Hl & Hn & Hfb & Hfe & Hf & Hr).
  unfold heap_append. rewrite (wrap_small 32) by (unfold fb in *; lia).
  destruct (Z.gtb_spec (zlen rec + SLOT_SIZE) (h_free_end p - h_free_begin p)); [lia|].
  unfold append_page, fb, n in *. fold (h_slot_count p). f_equal.
  assert (forall q, 24 <= zlen q -> h_slot_count (seal q) = h_slot_count q) as Hseal.
  { intros q Hq. by apply seal_reads. }
  rewrite Hseal; [|punfold; getput; plen].
  punfold. getput. rewrite !(wrap_small 16) by lia. getput. rewrite (wrap_small 16) by lia. repeat f_equal; lia.
Qed.

Lemma append_reads :
  h_magic append_page = h_magic p /\ h_type append_page = h_type p /\
  h_next_page append_page = h_next_page p /\
  h_slot_count append_page = n + 1 /\ h_free_begin append_page = fb + zlen rec /\
  h_free_end append_page = h_free_end p - 4 /\ zlen append_page = 4096 /\
  slot_off append_page n = fb /\ slot_len append_page n = zlen rec /\
  (forall i, 0 <= i < n -> slot_off append_page i = slot_off p i /\ slot_len append_page i = slot_len p i) /\
  slice fb (zlen rec) append_page = rec /\
  (forall off k, 24 <= off -> off + k <= fb -> slice off k append_page = slice off k p).
Proof using Hwf Hfit.
  pose proof append_bounds as (Hl & Hn & Hfb & Hfe & Hf & Hr).
  unfold append_page. set (q := set_slot_count _ _).
  assert (zlen q = 4096) as Hq by (unfold q; punfold; plen).
  destruct (seal_reads q ltac:(lia)) as (-> & -> & -> & -> & -> & -> & -> & Hs).
  split_and!.
  1-7: unfold q; punfold; try (by getput); try (getput; done || lia); plen.
  - unfold slot_off, get_u. rewrite Hs by (unfold slot_at, PAGE_SIZE, SLOT_SIZE; lia).
    change (get_u 2 (slot_at n) q = fb). unfold q. punfold. by getput.
  - unfold slot_len, get_u. rewrite Hs by (unfold slot_at, PAGE_SIZE, SLOT_SIZE; lia).
    change (get_u 2 (slot_at n + 2) q = zlen rec). unfold q. punfold. by getput.
  - intros i Hi. apply slot_reads_slice; [unfold slot_at, PAGE_SIZE, SLOT_SIZE; lia|].
    rewrite Hs by (unfold slot_at, PAGE_SIZE, SLOT_SIZE; lia). unfold q. punfold. by getput.
  - rewrite Hs by lia. unfold q. punfold. getput. by apply slice_splice_eq; lia.
  - intros off k Ho Hk. rewrite Hs by lia. unfold q. punfold. by getput.
Qed.
End append.

Lemma seal_bytes_ok p : Forall byte_ok p -> Forall byte_ok (seal p).
Proof. intros. unfold seal, set_checksum. auto with buf. Qed.

Lemma slot_record_ext p q i :
  slot_off q i = slot_off p i -> slot_len q i = slot_len p i ->
  (slot_tombstone p i = false -> slice (slot_off p i) (slot_len p i) q = slice (slot_off p i) (slot_len p i) p) ->
  slot_record q i = slot_record p i.
Proof.
  intros Ho Hl Hs. unfold slot_record, record, slot_tombstone in *. rewrite Ho, Hl.
  destruct (_ && _); [done|]. by rewrite Hs.
Qed.

Lemma heap_rows_lookup p i :
  0 <= i -> heap_rows p !! Z.to_nat i = if decide (i < h_slot_count p) then Some (slot_record p i) else None.
Proof.
  intros Hi. unfold heap_rows. rewrite list_lookup_fmap. case_decide.
  - rewrite lookup_seq_lt by lia. simpl. by rewrite Z2Nat.id by lia.
  - by rewrite lookup_seq_ge by lia.
Qed.

Lemma length_heap_rows p : length (heap_rows p) = Z.to_nat (h_slot_count p).
Proof. unfold heap_rows. by rewrite length_fmap, length_seq. Qed.

(** Equality of row lists, slot by slot. *)
Lemma heap_rows_eq p l :
  0 <= h_slot_count p -> zlen l = h_slot_count p ->
  (forall i, 0 <= i < h_slot_count p -> l !! Z.to_nat i = Some (slot_record p i)) -> heap_rows p = l.
Proof.
  intros Hn Hl H. apply list_eq. intros i. rewrite <- (Nat2Z.id i), heap_rows_lookup by lia.
  case_decide; [symmetry; apply H; lia|]. symmetry. apply lookup_ge_None_2. unfold zlen in Hl. lia.
Qed.

Lemma tombstone_reads p q i :
  slot_off q i = slot_off p i -> slot_len q i = slot_len p i -> slot_tombstone q i = slot_tombstone p i.
Proof. unfold slot_tombstone. by intros -> ->. Qed.

Lemma slot_len_nonneg p i : zlen p = 4096 -> Forall byte_ok p -> 0 <= i <= 1018 ->
  0 <= slot_off p i /\ 0 <= slot_len p i.
Proof.
  intros Hl Hb Hi. unfold slot_off, slot_len, slot_at, PAGE_SIZE, SLOT_SIZE.
  split; apply get_u_bound; try done; lia.
Qed.

Lemma append_page_wf p rec :
  heap_wf p -> Forall byte_ok rec -> zlen rec + SLOT_SIZE <= h_free_end p - h_free_begin p ->
  heap_wf (append_page p rec) /\ heap_rows (append_page p rec) = heap_rows p ++ [Some rec].
Proof.
  intros Hwf Hrec Hfit.
  pose proof (append_bounds p rec Hwf Hfit) as (Hl & Hn & Hfb & Hfe & Hf & Hr).
  destruct (append_reads p rec Hwf Hfit)
    as (_ & _ & _ & Hsc & Hb & He & Hz & Ho & Hle & Hsame & Hnew & Hold).
  assert (forall i, 0 <= i < h_slot_count p -> slot_tombstone (append_page p rec) i = slot_tombstone p i) as Htomb.
  { intros i Hi. apply tombstone_reads; by apply Hsame. }
  destruct Hwf as [Hl' Hbytes Hend Hbegin Hslots Horder].
  assert (Hval : forall i, 0 <= i < h_slot_count p -> slot_tombstone p i = false ->
    0 <= slot_len p i /\ 24 <= slot_off p i).
  { intros i Hi Ht. destruct (slot_len_nonneg p i Hl Hbytes ltac:(lia)).
    destruct (Hslots i Hi Ht). unfold PAGE_HEADER_SIZE in *. lia. }
  split.
  - split.
    + done.
    + unfold append_page. apply seal_bytes_ok.
      unfold set_slot_count, set_free_end, set_free_begin, set_slot. auto 10 with buf.
    + rewrite He, Hsc. unfold PAGE_SIZE, SLOT_SIZE. lia.
    + unfold PAGE_HEADER_SIZE. lia.
    + intros i Hi Ht. rewrite Hb. rewrite Hsc in Hi. destruct (decide (i = h_slot_count p)) as [->|].
      * rewrite Ho, Hle. unfold PAGE_HEADER_SIZE. lia.
      * rewrite Htomb in Ht by lia. destruct (Hsame i ltac:(lia)) as [-> ->].
        destruct (Hslots i ltac:(lia) Ht). lia.
    + intros i j Hij Hj Hti Htj. rewrite Hsc in Hj. rewrite Htomb in Hti by lia.
      destruct (Hsame i ltac:(lia)) as [-> ->]. destruct (decide (j = h_slot_count p)) as [->|].
      * rewrite Ho. destruct (Hslots i ltac:(lia) Hti). lia.
      * rewrite Htomb in Htj by lia. destruct (Hsame j ltac:(lia)) as [-> _].
        apply Horder; done || lia.
  - apply heap_rows_eq; [lia| |].
    + unfold zlen. rewrite length_app, length_heap_rows. simpl. lia.
    + intros i Hi. rewrite Hsc in Hi. destruct (decide (i = h_slot_count p)) as [->|].
      * rewrite lookup_app_r by (rewrite length_heap_rows; lia).
        rewrite length_heap_rows, Nat.sub_diag. simpl. unfold slot_record, slot_tombstone, record.
        rewrite Ho, Hle, Hnew. destruct (Z.eqb_spec (h_free_begin p) 0); [lia|done].
      * rewrite lookup_app_l by (rewrite length_heap_rows; lia).
        rewrite heap_rows_lookup, decide_True by lia. f_equal. symmetry.
        destruct (Hsame i ltac:(lia)). apply slot_record_ext; [done..|]. intros Ht.
        destruct (Hslots i ltac:(lia) Ht), (Hval i ltac:(lia) Ht). apply Hold; lia.
Qed.

Lemma heap_bounds p : heap_wf p ->
  zlen p = 4096 /\ 0 <= h_slot_count p <= 1018 /\ 24 <= h_free_begin p <= h_free_end p /\
  h_free_end p = 4096 - 4 * h_slot_count p.
Proof.
  intros [Hl Hb He Hbg _ _].
  assert (0 <= h_slot_count p) by (apply (get_u_bound 2 8 p); try lia; [rewrite Hl; unfold PAGE_SIZE; lia|done]).
  unfold PAGE_SIZE, SLOT_SIZE, PAGE_HEADER_SIZE in *. lia.
Qed.

(** A freshly initialised page is a well-formed, valid, empty heap page. *)
Lemma init_page_wf magic t :
  0 <= magic < 2 ^ 32 ->
  heap_wf (init_page magic t) /\ heap_rows (init_page magic t) = [] /\
  page_valid (init_page magic t) magic = true /\ h_next_page (init_page magic t) = 0 /\
  h_free_end (init_page magic t) - h_free_begin (init_page magic t) = PAGE_SIZE - PAGE_HEADER_SIZE.
Proof.
  intros Hm. unfold init_page. set (q := set_free_end _ _).
  assert (zlen zero_page = 4096) as Hz by done.
  assert (0 <= page_type_code t < 5) as Ht by (destruct t; simpl; lia).
  assert (zlen q = 4096) as Hq by (unfold q; punfold; plen).
  destruct (seal_reads q ltac:(lia)) as (H1 & _ & H3 & H4 & H5 & H6 & H7 & _).
  assert (h_slot_count q = 0) as Hsc by (unfold q; punfold; getput; reflexivity).
  assert (h_next_page q = 0) as Hnx by (unfold q; punfold; getput; reflexivity).
  assert (h_free_begin q = 24) as Hfb by (unfold q; punfold; getput; reflexivity).
  assert (h_free_end q = 4096) as Hfe by (unfold q; punfold; getput; reflexivity).
  assert (h_magic q = magic) as Hmg by (unfold q; punfold; getput; reflexivity).
  split_and!.
  - split.
    + by rewrite H7.
    + apply seal_bytes_ok. unfold q, set_free_end, set_free_begin, set_type, set_magic, zero_page.
      repeat apply put_u_ok. apply Forall_replicate. unfold byte_ok. lia.
    + rewrite H5, H3, Hsc, Hfe. done.
    + rewrite H4, H5, Hfb, Hfe. done.
    + intros i Hi. rewrite H3, Hsc in Hi. lia.
    + intros i j Hij Hj. rewrite H3, Hsc in Hj. lia.
  - unfold heap_rows. by rewrite H3, Hsc.
  - apply page_valid_seal; [lia|done].
  - by rewrite H6.
  - rewrite H5, H4, Hfb, Hfe. done.
Qed.

(** What appending a record to a well-formed page leaves. *)
Lemma heap_append_ok p rec :
  heap_wf p -> Forall byte_ok rec ->
  match heap_append p rec with
  | None => h_free_end p - h_free_begin p < zlen rec + SLOT_SIZE
  | Some (p', slot) =>
      zlen rec + SLOT_SIZE <= h_free_end p - h_free_begin p /\
      slot = h_slot_count p /\ heap_wf p' /\ heap_rows p' = heap_rows p ++ [Some rec] /\
      page_valid p' (h_magic p) = true /\ h_next_page p' = h_next_page p /\ h_type p' = h_type p
  end.
Proof.
  intros Hwf Hrec. destruct (decide (zlen rec + SLOT_SIZE <= h_free_end p - h_free_begin p)) as [Hfit|Hno].
  - rewrite heap_append_eq by done. destruct (append_page_wf p rec) as [Hw Hrows]; [done..|].
    destruct (append_reads p rec Hwf Hfit) as (Hm & Ht & Hn & _).
    split_and!; try done. rewrite <- Hm.
    assert (exists q, append_page p rec = seal q /\ zlen q = 4096) as (q & -> & Hq).
    { eexists. split; [done|]. pose proof (append_bounds p rec Hwf Hfit). punfold. plen. }
    apply page_valid_seal; [lia|]. symmetry. apply seal_reads. lia.
  - pose proof (heap_bounds p Hwf). unfold heap_append.
    rewrite wrap_small by lia.
    destruct (Z.gtb_spec (zlen rec + SLOT_SIZE) (h_free_end p - h_free_begin p)); lia.
Qed.

(** C24. [heap_append] refines appending to the page's record list: on a well-formed page it fails
    exactly when the record and its slot do not fit; otherwise the new slot is the old slot count,
    every earlier record is unchanged, the page stays well formed and checksum-valid, and the
    page chain link is kept. *)
Theorem heap_append_spec p rec :
  heap_wf p -> Forall byte_ok rec ->
  match heap_append p rec with
  | None => h_free_end p - h_free_begin p < zlen rec + SLOT_SIZE
  | Some (p', slot) =>
      zlen rec + SLOT_SIZE <= h_free_end p - h_free_begin p /\
      slot = h_slot_count p /\ heap_wf p' /\ heap_rows p' = heap_rows p ++ [Some rec] /\
      page_valid p' (h_magic p) = true /\ h_next_page p' = h_next_page p /\ h_type p' = h_type p
  end.
Proof. apply heap_append_ok. Qed.

(** * Deletion *)
Section delete.
Context (p : bytes) (slot : Z) (Hwf : heap_wf p) (Hslot : 0 <= slot < h_slot_count p).

Lemma delete_reads :
  h_magic (heap_delete p slot) = h_magic p /\ h_next_page (heap_delete p slot) = h_next_page p /\
  h_slot_count (heap_delete p slot) = h_slot_count p /\
  h_free_begin (heap_delete p slot) = h_free_begin p /\
  h_free_end (heap_delete p slot) = h_free_end p /\ zlen (heap_delete p slot) = 4096 /\
  slot_tombstone (heap_delete p slot) slot = true /\
  (forall i, 0 <= i < h_slot_count p -> i <> slot ->
     slot_off (heap_delete p slot) i = slot_off p i /\ slot_len (heap_delete p slot) i = slot_len p i) /\
  (forall off k, 24 <= off -> off + k <= h_free_end p ->
     slice off k (heap_delete p slot) = slice off k p).
Proof using Hwf Hslot.
  pose proof (heap_bounds p Hwf) as (Hl & Hn & Hfb & Hfe). unfold heap_delete. set (q := set_slot _ _ _ _).
  assert (zlen q = 4096) as Hq by (unfold q; punfold; plen).
  destruct (seal_reads q ltac:(lia)) as (-> & _ & -> & -> & -> & -> & -> & Hs).
  split_and!.
  1-5: unfold q; punfold; by getput.
  - done.
  - unfold slot_tombstone, slot_off, slot_len, get_u.
    rewrite !Hs by (unfold slot_at, PAGE_SIZE, SLOT_SIZE; lia).
    change ((get_u 2 (slot_at slot) q =? 0) && (get_u 2 (slot_at slot + 2) q =? 0) = true).
    unfold q. punfold. by getput.
  - intros i Hi Hne. apply slot_reads_slice; [unfold slot_at, PAGE_SIZE, SLOT_SIZE; lia|].
    rewrite Hs by (unfold slot_at, PAGE_SIZE, SLOT_SIZE; lia). unfold q. punfold. by getput.
  - intros off k Ho Hk. rewrite Hs by lia. unfold q. punfold. by getput.
Qed.

Lemma heap_delete_ok :
  heap_wf (heap_delete p slot) /\
  heap_rows (heap_delete p slot) = <[Z.to_nat slot := None]> (heap_rows p) /\
  page_valid (heap_delete p slot) (h_magic p) = true /\
  h_next_page (heap_delete p slot) = h_next_page p.
Proof using Hwf Hslot.
  pose proof (heap_bounds p Hwf) as (Hl & Hn & Hfb & Hfe).
  destruct delete_reads as (Hm & Hnx & Hsc & Hb & He & Hz & Htm & Hsame & Hold).
  assert (forall i, 0 <= i < h_slot_count p -> i <> slot ->
    slot_tombstone (heap_delete p slot) i = slot_tombstone p i) as Htomb.
  { intros i Hi Hne. apply tombstone_reads; by apply Hsame. }
  assert (forall i, 0 <= i < h_slot_count p -> slot_tombstone (heap_delete p slot) i = false ->
    i <> slot /\ slot_tombstone p i = false) as Hlive.
  { intros i Hi Ht. assert (i <> slot) by (intros ->; congruence). by rewrite <- Htomb. }
  pose proof Hwf as [_ Hbytes Hend Hbegin Hslots Horder]. split_and!.
  - split.
    + done.
    + apply seal_bytes_ok. unfold set_slot. auto with buf.
    + by rewrite He, Hsc.
    + by rewrite Hb, He.
    + intros i Hi Ht. rewrite Hsc in Hi. destruct (Hlive i Hi Ht) as [Hne Ht'].
      destruct (Hsame i Hi Hne) as [-> ->]. rewrite Hb. by apply Hslots.
    + intros i j Hij Hj Hti Htj. rewrite Hsc in Hj.
      destruct (Hlive i ltac:(lia) Hti), (Hlive j ltac:(lia) Htj).
      destruct (Hsame i ltac:(lia)) as [-> ->]; [done|]. destruct (Hsame j ltac:(lia)) as [-> _]; [done|].
      by apply Horder.
  - apply heap_rows_eq; [lia| |].
    + unfold zlen. rewrite length_insert, length_heap_rows. lia.
    + intros i Hi. rewrite Hsc in Hi. destruct (decide (i = slot)) as [->|Hne].
      * rewrite list_lookup_insert_eq by (rewrite length_heap_rows; lia).
        unfold slot_record. by rewrite Htm.
      * rewrite list_lookup_insert_ne by lia. rewrite heap_rows_lookup, decide_True by lia. f_equal.
        destruct (Hsame i Hi Hne). symmetry. apply slot_record_ext; [done..|]. intros Ht.
        destruct (Hslots i Hi Ht). destruct (slot_len_nonneg p i Hl Hbytes ltac:(lia)).
        unfold PAGE_HEADER_SIZE in *. apply Hold; lia.
  - unfold heap_delete. apply page_valid_seal.
    + punfold. plen.
    + punfold. by getput.
  - done.
Qed.
End delete.

(** [heap_delete] refines clearing one entry of the record list: the slot becomes a
    tombstone, all other slots keep their records and numbers (so row references stay
    valid), and the page stays well formed and checksum-valid. *)
Theorem heap_delete_spec p slot : heap_wf p -> 0 <= slot < h_slot_count p ->
  heap_wf (heap_delete p slot) /\
  heap_rows (heap_delete p slot) = <[Z.to_nat slot := None]> (heap_rows p) /\
  page_valid (heap_delete p slot) (h_magic p) = true /\
  h_next_page (heap_delete p slot) = h_next_page p.
Proof. apply heap_delete_ok. Qed.

(** * Concrete pages *)
Definition demo_page : bytes := (append_page (init_page MAGIC_HEAP PtHeap) [1; 2; 3]).
Lemma demo_page_wf : heap_wf demo_page.
Proof.
  destruct (init_page_wf MAGIC_HEAP PtHeap) as (Hw & _ & _ & _ & Hf); [unfold MAGIC_HEAP; lia|].
  apply append_page_wf; [done|repeat constructor; unfold byte_ok; lia|]. rewrite Hf. done.
Qed.

Lemma heap_append_spec_witness :
  match heap_append demo_page [4; 5] with
  | None => False
  | Some (p', slot) => slot = 1 /\ heap_rows p' = heap_rows demo_page ++ [Some [4; 5]]
  end.
Proof.
  pose proof (heap_append_spec demo_page [4; 5] demo_page_wf
    ltac:(repeat constructor; unfold byte_ok; lia)) as H.
  assert (h_slot_count demo_page = 1) as Hs by (by vm_compute).
  assert (h_free_end demo_page - h_free_begin demo_page = 4065) as Hf by (by vm_compute).
  destruct (heap_append demo_page [4; 5]) as [[p' slot]|].
  - destruct H as (_ & -> & _ & -> & _). done.
  - rewrite Hf in H. cbv in H. done.
Defined.

Lemma heap_delete_spec_witness :
  heap_wf (heap_delete demo_page 0) /\
  heap_rows (heap_delete demo_page 0) = <[Z.to_nat 0 := None]> (heap_rows demo_page) /\
  page_valid (heap_delete demo_page 0) (h_magic demo_page) = true /\
  h_next_page (heap_delete demo_page 0) = h_next_page demo_page.
Proof. apply (heap_delete_spec demo_page 0 demo_page_wf). split; [lia|by vm_compute]. Defined.
