(* ===== verification/Wal.v ===== *)
(** The write-ahead log (src/storage/wal.h, wal.cpp): the record format, the appending writer,
    the buffered reader, and the theorems that reading returns exactly the records that are
    complete in a possibly torn log file. *)
From S2P Require Import Prelude Types Page.

(** * Records *)
Inductive WalOp := PagePatch | DropFile | Commit | Abort.
Definition op_code (op : WalOp) : Z :=
  match op with PagePatch => 1 | DropFile => 2 | Commit => 3 | Abort => 4 end.

Definition WAL_HEADER_SIZE : Z := 25.
Definition WAL_PATCH_HEADER_SIZE : Z := 20.
Definition WAL_PAYLOAD_MAX : Z := WAL_PATCH_HEADER_SIZE + 2 * PAGE_SIZE.

Definition wal_get_u64 (p : bytes) (off : Z) : Z := get_u 8 off p.
Definition wal_get_u32 (p : bytes) (off : Z) : Z := get_u 4 off p.
Definition wal_put_u64 (v : Z) : bytes := le_bytes 8 v.
Definition wal_put_u32 (v : Z) : bytes := le_bytes 4 v.

(** A parsed record: [rop] is the raw operation byte, checked by the consumer. *)
Record WalRecord := mkRec { lsn : Z; txn : Z; rop : Z; payload : bytes }.
#[export] Instance WalRecord_eq_dec : EqDecision WalRecord.
Proof. solve_decision. Defined.

(** * The writer *)
(** [wfile] is the content of wal.log; the first [synced] bytes have been fsynced. *)
Record Wal := mkWal {
  wfile : bytes; synced : Z; next_lsn : Z; next_txn_id : Z; bytes_since_reset : Z }.

Definition wal_new (content : bytes) : Wal := mkWal content (zlen content) 1 1 0.

(** The byte image [Wal::append] writes: [len][lsn][txn][op][crc][payload]. *)
Definition record_bytes (r : WalRecord) : bytes :=
  let crc_src := wal_put_u64 (lsn r) ++ wal_put_u64 (txn r) ++ [rop r] ++ payload r in
  wal_put_u32 (zlen (payload r)) ++ wal_put_u64 (lsn r) ++ wal_put_u64 (txn r) ++ [rop r]
    ++ wal_put_u32 (crc32 crc_src) ++ payload r.

Definition wal_append (w : Wal) (op : WalOp) (t : Z) (pl : bytes) : Wal * Z :=
  let l := next_lsn w in
  let image := record_bytes (mkRec l t (op_code op) pl) in
  (mkWal (wfile w ++ image) (synced w) (wrap 64 (l + 1)) (next_txn_id w)
     (wrap 64 (bytes_since_reset w + zlen image)), l).

Definition wal_alloc_txn_id (w : Wal) : Wal * Z :=
  (mkWal (wfile w) (synced w) (next_lsn w) (wrap 64 (next_txn_id w + 1)) (bytes_since_reset w),
   next_txn_id w).

Definition wal_sync (w : Wal) : Wal :=
  mkWal (wfile w) (zlen (wfile w)) (next_lsn w) (next_txn_id w) (bytes_since_reset w).

Definition wal_reset (w : Wal) : Wal := mkWal [] 0 (next_lsn w) (next_txn_id w) 0.

(** * The reader *)
(** [rest]: bytes of the file not yet read; [rbuf]: bytes read and not yet consumed. *)
Record WalReader := mkReader { rest : bytes; rbuf : bytes; eof : bool; valid_bytes : Z }.

Definition reader_open (content : option bytes) : WalReader :=
  match content with Some c => mkReader c [] false 0 | None => mkReader [] [] true 0 end.

Definition CHUNK : Z := 16 * 1024.

Definition reader_fill (r : WalReader) : WalReader * bool :=
  if eof r then (r, false)
  else
    match slice 0 CHUNK (rest r) with
    | [] => (mkReader (rest r) (rbuf r) true (valid_bytes r), false)
    | chunk => (mkReader (drop (length chunk) (rest r)) (rbuf r ++ chunk) false (valid_bytes r), true)
    end.

(** [while (buf_.size() < n) if (!fill()) return false;] — each round reads at least one byte of
    [rest], so its length plus one rounds are enough. *)
Fixpoint fill_until (fuel : nat) (n : Z) (r : WalReader) : WalReader * bool :=
  if n <=? zlen (rbuf r) then (r, true)
  else match fuel with
       | O => (r, false)
       | S fuel => let '(r', ok) := reader_fill r in
                   if ok then fill_until fuel n r' else (r', false)
       end.
Definition reader_fuel (r : WalReader) : nat := S (length (rest r)).

(** The record at the head of a buffer that holds it entirely. *)
Definition record_crc_ok (b : bytes) (len : Z) : bool :=
  crc32 (slice 4 17 b ++ slice WAL_HEADER_SIZE len b) =? wal_get_u32 b 21.
Definition record_at (b : bytes) (len : Z) : WalRecord :=
  mkRec (wal_get_u64 b 4) (wal_get_u64 b 12) (get_u 1 20 b) (slice WAL_HEADER_SIZE len b).

Definition reader_next (r : WalReader) : WalReader * option WalRecord :=
  let '(r, ok) := fill_until (reader_fuel r) WAL_HEADER_SIZE r in
  if negb ok then (r, None)
  else
    let len := wal_get_u32 (rbuf r) 0 in
    if len >? WAL_PAYLOAD_MAX then (r, None)
    else
      let '(r, ok) := fill_until (reader_fuel r) (WAL_HEADER_SIZE + len) r in
      if negb ok then (r, None)
      else if negb (record_crc_ok (rbuf r) len) then (r, None)
      else
        (mkReader (rest r) (drop (Z.to_nat (WAL_HEADER_SIZE + len)) (rbuf r)) (eof r)
           (valid_bytes r + (WAL_HEADER_SIZE + len)),
         Some (record_at (rbuf r) len)).

(** [while (reader.next(&rec))]: at most one record per 25 bytes. *)
Fixpoint reader_all (fuel : nat) (r : WalReader) : list WalRecord :=
  match fuel with
  | O => []
  | S fuel => match reader_next r with (r', Some x) => x :: reader_all fuel r' | (_, None) => [] end
  end.
Definition read_log (content : bytes) : list WalRecord :=
  reader_all (S (length content)) (reader_open (Some content)).

(** * Specification: parsing a byte string *)
Definition parse1 (b : bytes) : option (WalRecord * bytes) :=
  if zlen b <? WAL_HEADER_SIZE then None
  else
    let len := wal_get_u32 b 0 in
    if len >? WAL_PAYLOAD_MAX then None
    else if zlen b <? WAL_HEADER_SIZE + len then None
    else if negb (record_crc_ok b len) then None
    else Some (record_at b len, drop (Z.to_nat (WAL_HEADER_SIZE + len)) b).

Fixpoint parse_all (fuel : nat) (b : bytes) : list WalRecord :=
  match fuel with
  | O => []
  | S fuel => match parse1 b with Some (x, b') => x :: parse_all fuel b' | None => [] end
  end.

(** The fields fit their widths. *)
Definition rec_ok (r : WalRecord) : Prop :=
  0 <= lsn r < 2 ^ 64 /\ 0 <= txn r < 2 ^ 64 /\ byte_ok (rop r) /\
  Forall byte_ok (payload r) /\ zlen (payload r) <= WAL_PAYLOAD_MAX.

Definition log_bytes (rs : list WalRecord) : bytes := rs ≫= record_bytes.

(** How many records are complete within the first [n] bytes. *)
Fixpoint complete (rs : list WalRecord) (n : Z) : nat :=
  match rs with
  | [] => 0
  | r :: rs => if zlen (record_bytes r) <=? n then S (complete rs (n - zlen (record_bytes r))) else 0
  end.

(** * Reading refines parsing *)
Definition reader_ok (r : WalReader) : Prop := eof r = true -> rest r = [].
Definition pending (r : WalReader) : bytes := rbuf r ++ rest r.

Lemma reader_fill_spec r : reader_ok r ->
  match reader_fill r with
  | (r', true) => reader_ok r' /\ pending r' = pending r /\ valid_bytes r' = valid_bytes r /\
                  (length (rest r') < length (rest r))%nat
  | (r', false) => reader_ok r' /\ rest r = [] /\ pending r' = pending r /\ valid_bytes r' = valid_bytes r
  end.
Proof.
  intros Hok. unfold reader_fill, reader_ok, pending in *. destruct (eof r) eqn:E; [auto|].
  destruct (rest r) as [|b l] eqn:Er; [by rewrite ?Er|].
  rewrite <- Er in *. assert (0 < length (rest r))%nat as Hpos by (rewrite Er; simpl; lia).
  pose proof (take_drop (Z.to_nat CHUNK) (rest r)) as Hsplit.
  change (slice 0 CHUNK (rest r)) with (take (Z.to_nat CHUNK) (rest r)).
  assert (0 < length (take (Z.to_nat CHUNK) (rest r)))%nat as Hc by (rewrite length_take; unfold CHUNK; lia).
  destruct (take (Z.to_nat CHUNK) (rest r)) as [|c ch] eqn:Et; [simpl in Hc; lia|].
  cbn [eof rest rbuf valid_bytes]. split_and!; try done.
  - rewrite <- app_assoc. f_equal. rewrite <- Hsplit at 1. rewrite drop_app_length. done.
  - rewrite length_drop. simpl length in *. lia.
Qed.

Lemma fill_until_spec fuel n r : reader_ok r -> (length (rest r) < fuel)%nat -> 0 <= n ->
  let '(r', ok) := fill_until fuel n r in
  reader_ok r' /\ pending r' = pending r /\ valid_bytes r' = valid_bytes r /\
  ok = (n <=? zlen (pending r)) /\ (ok = true -> n <= zlen (rbuf r')).
Proof.
  revert r; induction fuel as [|fuel IH]; intros r Hok Hf Hn; [lia|]. cbn [fill_until].
  destruct (Z.leb_spec n (zlen (rbuf r))) as [Hle|Hgt].
  - split_and!; try done. unfold pending. rewrite zlen_app. pose proof (zlen_nonneg (rest r)).
    symmetry. apply Z.leb_le. lia.
  - pose proof (reader_fill_spec r Hok) as Hfs. destruct (reader_fill r) as [r' [|]].
    + destruct Hfs as (Hok' & Hp & Hv & Hl). specialize (IH r' Hok' ltac:(lia) Hn).
      destruct (fill_until fuel n r') as [r'' ok]. rewrite Hp, Hv in IH. done.
    + destruct Hfs as (Hok' & Hr & Hp & Hv). split_and!; try done.
      unfold pending. rewrite Hr, app_nil_r. symmetry. apply Z.leb_gt. lia.
Qed.

Lemma record_reads_app b b' len :
  0 <= len -> WAL_HEADER_SIZE + len <= zlen b ->
  wal_get_u32 (b ++ b') 0 = wal_get_u32 b 0 /\ record_crc_ok (b ++ b') len = record_crc_ok b len /\
  record_at (b ++ b') len = record_at b len.
Proof.
  unfold record_crc_ok, record_at, wal_get_u32, wal_get_u64, get_u, WAL_HEADER_SIZE. intros Hl Hb.
  rewrite !slice_app_lo by lia. done.
Qed.

Lemma wal_len_bound b : Forall byte_ok b -> WAL_HEADER_SIZE <= zlen b -> 0 <= wal_get_u32 b 0.
Proof. intros Hb Hl. apply (get_u_bound 4 0 b); try done; unfold WAL_HEADER_SIZE in *; lia. Qed.

(** One call of the buffered reader consumes what [parse1] consumes. *)
Lemma reader_next_spec r : reader_ok r -> Forall byte_ok (pending r) ->
  match reader_next r, parse1 (pending r) with
  | (r', Some x), Some (y, b) =>
      x = y /\ pending r' = b /\ reader_ok r' /\ valid_bytes r' = valid_bytes r + (zlen (pending r) - zlen b)
  | (r', None), None => valid_bytes r' = valid_bytes r
  | _, _ => False
  end.
Proof.
  intros Hok Hb. unfold reader_next, parse1.
  pose proof (fill_until_spec (reader_fuel r) WAL_HEADER_SIZE r Hok ltac:(unfold reader_fuel; lia) ltac:(done)) as H1.
  destruct (fill_until (reader_fuel r) WAL_HEADER_SIZE r) as [r1 ok1].
  destruct H1 as (Hok1 & Hp1 & Hv1 & -> & Hn1). rewrite <- Hp1 in *.
  rewrite Z.leb_antisym, negb_involutive.
  destruct (zlen (pending r1) <? WAL_HEADER_SIZE) eqn:E1; [done|]. specialize (Hn1 ltac:(lia)).
  destruct (record_reads_app (rbuf r1) (rest r1) 0 ltac:(lia) ltac:(lia)) as (Hlen & _ & _).
  fold (pending r1) in Hlen. rewrite Hlen. set (len := wal_get_u32 (rbuf r1) 0) in *.
  assert (0 <= len) as Hl0.
  { rewrite <- Hlen. apply wal_len_bound; [done|]. apply Z.ltb_ge in E1. done. }
  destruct (len >? WAL_PAYLOAD_MAX); [done|].
  pose proof (fill_until_spec (reader_fuel r1) (WAL_HEADER_SIZE + len) r1 Hok1
    ltac:(unfold reader_fuel; lia) ltac:(unfold WAL_HEADER_SIZE; lia)) as H2.
  destruct (fill_until (reader_fuel r1) (WAL_HEADER_SIZE + len) r1) as [r2 ok2].
  destruct H2 as (Hok2 & Hp2 & Hv2 & -> & Hn2). rewrite <- Hp2 in *.
  rewrite Z.leb_antisym, negb_involutive.
  destruct (zlen (pending r2) <? WAL_HEADER_SIZE + len) eqn:E2; [lia|]. specialize (Hn2 ltac:(lia)).
  destruct (record_reads_app (rbuf r2) (rest r2) len Hl0 Hn2) as (_ & Hcrc & Hat).
  fold (pending r2) in Hcrc, Hat. rewrite Hcrc, Hat.
  destruct (record_crc_ok (rbuf r2) len); cbn [negb]; [|lia].
  cbn [rest rbuf eof valid_bytes]. unfold pending in *. cbn [rest rbuf].
  unfold WAL_HEADER_SIZE in *. split_and!; try done.
  - rewrite drop_app_le; [done|]. unfold zlen in Hn2. lia.
  - apply Z.ltb_ge in E2. rewrite zlen_drop by lia. lia.
Qed.

Lemma parse1_shrinks b x b' : parse1 b = Some (x, b') -> Forall byte_ok b ->
  (length b' < length b)%nat /\ Forall byte_ok b'.
Proof.
  unfold parse1. intros H Hb. destruct (Z.ltb_spec (zlen b) WAL_HEADER_SIZE) as [|Hh]; [done|].
  destruct (wal_get_u32 b 0 >? WAL_PAYLOAD_MAX); [done|].
  destruct (Z.ltb_spec (zlen b) (WAL_HEADER_SIZE + wal_get_u32 b 0)) as [|Hl]; [done|].
  destruct (negb _); [done|]. simplify_eq. split; [|by apply Forall_drop]. rewrite length_drop.
  pose proof (wal_len_bound b Hb Hh). unfold zlen, WAL_HEADER_SIZE in *. lia.
Qed.

Lemma reader_all_parse fuel r : reader_ok r -> Forall byte_ok (pending r) ->
  reader_all fuel r = parse_all fuel (pending r).
Proof.
  revert r; induction fuel as [|fuel IH]; intros r Hok Hb; [done|]. cbn [reader_all parse_all].
  pose proof (reader_next_spec r Hok Hb) as Hs. destruct (reader_next r) as [r' [x|]];
    destruct (parse1 (pending r)) as [[y b]|] eqn:E; try done.
  destruct Hs as (-> & <- & Hok' & _). f_equal. apply IH; [done|].
  by apply (parse1_shrinks _ _ _ E).
Qed.

(** * Writing then reading *)
Lemma zlen_record_bytes r : zlen (record_bytes r) = WAL_HEADER_SIZE + zlen (payload r).
Proof. unfold record_bytes, wal_put_u32, wal_put_u64, WAL_HEADER_SIZE. buf. Qed.

Lemma record_bytes_ok r : rec_ok r -> Forall byte_ok (record_bytes r).
Proof.
  intros (_ & _ & Hop & Hp & _). unfold record_bytes, wal_put_u32, wal_put_u64.
  repeat apply Forall_app_2; auto using le_bytes_ok.
Qed.

(** The fields of a record image followed by anything. *)
Lemma record_fields r tl : rec_ok r ->
  let b := record_bytes r ++ tl in
  wal_get_u32 b 0 = zlen (payload r) /\ wal_get_u64 b 4 = lsn r /\ wal_get_u64 b 12 = txn r /\
  get_u 1 20 b = rop r /\
  slice 4 17 b = wal_put_u64 (lsn r) ++ wal_put_u64 (txn r) ++ [rop r] /\
  wal_get_u32 b 21 = crc32 (wal_put_u64 (lsn r) ++ wal_put_u64 (txn r) ++ [rop r] ++ payload r) /\
  slice WAL_HEADER_SIZE (zlen (payload r)) b = payload r.
Proof.
  intros (Hl & Ht & Hop & Hp & Hmax). cbv zeta. pose proof (zlen_nonneg (payload r)).
  pose proof (crc32_bound (wal_put_u64 (lsn r) ++ wal_put_u64 (txn r) ++ [rop r] ++ payload r)) as Hc.
  unfold record_bytes, wal_get_u32, wal_get_u64, WAL_HEADER_SIZE, wal_put_u32, wal_put_u64,
    WAL_PAYLOAD_MAX, WAL_PATCH_HEADER_SIZE, PAGE_SIZE in *. rewrite <- !app_assoc.
  split_and!.
  - apply (get_u_head 4); lia.
  - rewrite get_u_skip by buf. apply (get_u_head 8); lia.
  - rewrite !get_u_skip by buf. apply (get_u_head 8); lia.
  - rewrite !get_u_skip by buf. apply get_u_byte.
  - rewrite slice_tail by done. rewrite (app_assoc (le_bytes 8 (lsn r))), (app_assoc (_ ++ _)).
    rewrite slice_app_l by done. by rewrite <- app_assoc.
  - rewrite !get_u_skip by buf. apply (get_u_head 4); lia.
  - rewrite !slice_app_r by buf. autorewrite with buf. by apply slice_app_l.
Qed.

Lemma parse1_record r tl : rec_ok r -> parse1 (record_bytes r ++ tl) = Some (r, tl).
Proof.
  intros Hr. pose proof (record_fields r tl Hr) as (F1 & F2 & F3 & F4 & F5 & F6 & F7).
  pose proof Hr as (_ & _ & _ & _ & Hmax). pose proof (zlen_record_bytes r) as Hz.
  pose proof (zlen_nonneg (payload r)). pose proof (zlen_nonneg tl).
  unfold parse1, record_crc_ok, record_at. rewrite F1, F2, F3, F4, F5, F6, F7, zlen_app, Hz.
  destruct (Z.ltb_spec (WAL_HEADER_SIZE + zlen (payload r) + zlen tl) WAL_HEADER_SIZE); [lia|].
  destruct (Z.gtb_spec (zlen (payload r)) WAL_PAYLOAD_MAX); [lia|].
  destruct (Z.ltb_spec (WAL_HEADER_SIZE + zlen (payload r) + zlen tl) (WAL_HEADER_SIZE + zlen (payload r))); [lia|].
  rewrite <- !app_assoc, Z.eqb_refl. cbn [negb]. do 2 f_equal; [by destruct r|].
  apply drop_app_length'. unfold zlen in *. lia.
Qed.

(** A record cut short is not parsed. *)
Lemma parse1_torn r n : rec_ok r -> 0 <= n < zlen (record_bytes r) ->
  parse1 (slice 0 n (record_bytes r)) = None.
Proof.
  intros Hr Hn. pose proof Hr as (_ & _ & _ & _ & Hmax). rewrite zlen_record_bytes in Hn.
  pose proof (zlen_record_bytes r) as Hz. pose proof (zlen_nonneg (payload r)).
  unfold parse1. rewrite zlen_slice by (unfold WAL_HEADER_SIZE in *; lia).
  destruct (Z.ltb_spec n WAL_HEADER_SIZE); [done|].
  assert (wal_get_u32 (slice 0 n (record_bytes r)) 0 = zlen (payload r)) as ->.
  { unfold wal_get_u32, get_u. rewrite slice_slice by (unfold WAL_HEADER_SIZE in *; lia).
    pose proof (record_fields r [] Hr) as (F1 & _). rewrite app_nil_r in F1. exact F1. }
  destruct (zlen (payload r) >? WAL_PAYLOAD_MAX); [done|].
  destruct (Z.ltb_spec n (WAL_HEADER_SIZE + zlen (payload r))); [done|lia].
Qed.

Lemma log_bytes_cons r rs : log_bytes (r :: rs) = record_bytes r ++ log_bytes rs.
Proof. done. Qed.
Lemma log_bytes_ok rs : Forall rec_ok rs -> Forall byte_ok (log_bytes rs).
Proof.
  induction 1; [constructor|]. rewrite log_bytes_cons. apply Forall_app_2; [by apply record_bytes_ok|done].
Qed.

Lemma parse_all_log fuel rs n :
  Forall rec_ok rs -> 0 <= n <= zlen (log_bytes rs) -> n < Z.of_nat fuel ->
  parse_all fuel (slice 0 n (log_bytes rs)) = take (complete rs n) rs.
Proof.
  intros Hrs. revert fuel n. induction Hrs as [|r rs Hr Hrs IH]; intros [|fuel] n Hn Hf; try lia.
  { unfold slice, log_bytes. change (drop (Z.to_nat 0) (mbind record_bytes [])) with (@nil Z). by rewrite take_nil, take_nil. }
  pose proof (zlen_record_bytes r) as Hz. pose proof (zlen_nonneg (payload r)).
  unfold WAL_HEADER_SIZE in Hz. rewrite log_bytes_cons in *. rewrite zlen_app in Hn. cbn [complete parse_all].
  destruct (Z.leb_spec (zlen (record_bytes r)) n) as [Hle|Hlt].
  - replace n with (zlen (record_bytes r) + (n - zlen (record_bytes r))) at 1 by lia.
    rewrite slice_split by (rewrite ?zlen_app; lia). rewrite slice_app_l by done.
    rewrite Z.add_0_l, slice_tail, parse1_record by done. simpl. f_equal. apply IH; lia.
  - rewrite slice_app_lo by lia. rewrite parse1_torn; [done|done|lia].
Qed.

(** [complete] counts the longest prefix of records that fits in [n] bytes. *)
Lemma complete_spec rs n : 0 <= n ->
  zlen (log_bytes (take (complete rs n) rs)) <= n /\
  (forall r, rs !! complete rs n = Some r -> n < zlen (log_bytes (take (complete rs n) rs ++ [r]))).
Proof.
  revert n; induction rs as [|r rs IH]; intros n Hn; [done|]. cbn [complete].
  destruct (Z.leb_spec (zlen (record_bytes r)) n) as [Hle|Hlt].
  - destruct (IH (n - zlen (record_bytes r)) ltac:(lia)) as [H1 H2].
    cbn [take lookup list_lookup]. rewrite log_bytes_cons, zlen_app. split; [lia|].
    intros x Hx. specialize (H2 x Hx). rewrite <- app_comm_cons, log_bytes_cons, zlen_app. lia.
  - split; [done|]. intros x [= <-]. cbn [take app]. rewrite log_bytes_cons, zlen_app. 
    pose proof (zlen_nonneg (log_bytes [])). lia.
Qed.
Lemma read_log_slice rs n :
  Forall rec_ok rs -> 0 <= n <= zlen (log_bytes rs) ->
  read_log (slice 0 n (log_bytes rs)) = take (complete rs n) rs.
Proof.
  intros Hrs Hn. unfold read_log. rewrite reader_all_parse.
  - apply parse_all_log; [done..|]. pose proof (zlen_slice 0 n (log_bytes rs)) as H. unfold zlen in *. lia.
  - done.
  - simpl. by apply Forall_slice, log_bytes_ok.
Qed.
Lemma complete_length rs n : (complete rs n <= length rs)%nat.
Proof. revert n; induction rs as [|r rs IH]; intros n; simpl; [lia|]. case_match; [|lia]. specialize (IH (n - zlen (record_bytes r))). lia. Qed.
Lemma complete_full rs : complete rs (zlen (log_bytes rs)) = length rs.
Proof.
  induction rs as [|r rs IH]; [done|]. rewrite log_bytes_cons, zlen_app. cbn [complete length].
  pose proof (zlen_nonneg (log_bytes rs)). destruct (Z.leb_spec (zlen (record_bytes r)) (zlen (record_bytes r) + zlen (log_bytes rs))); [|lia].
  f_equal. rewrite <- IH. f_equal. lia.
Qed.
Lemma read_log_full rs : Forall rec_ok rs -> read_log (log_bytes rs) = rs.
Proof.
  intros H. pose proof (zlen_nonneg (log_bytes rs)) as Hz.
  rewrite <- (slice_full (log_bytes rs) (zlen (log_bytes rs))) at 1 by done.
  rewrite read_log_slice by (done || lia). by rewrite complete_full, take_ge by lia.
Qed.

(** C30. Reading a torn log: when wal.log holds the first [n] bytes of the records appended so far
    (a crash cuts the file anywhere), the buffered reader returns exactly the records that are
    complete within those [n] bytes, in order, and nothing of the torn one; those records are
    as many as their bytes allow: one more would not fit. *)
Theorem read_log_torn rs n :
  Forall rec_ok rs -> 0 <= n <= zlen (log_bytes rs) ->
  read_log (slice 0 n (log_bytes rs)) = take (complete rs n) rs /\
  zlen (log_bytes (take (complete rs n) rs)) <= n /\
  (forall r, rs !! complete rs n = Some r -> n < zlen (log_bytes (take (complete rs n) rs ++ [r]))).
Proof.
  intros Hrs Hn. split; [by apply read_log_slice|]. apply complete_spec. lia.
Qed.

(** Every append is one record of the log, in order. *)
Lemma wal_append_file w op t pl :
  wfile (wal_append w op t pl).1 =
    wfile w ++ record_bytes (mkRec (next_lsn w) t (op_code op) pl).
Proof. done. Qed.

Definition demo_rec : WalRecord := mkRec 1 1 3 [].
Definition demo_log : list WalRecord := [demo_rec; mkRec 2 1 2 [7; 0; 0; 0; 0; 0; 0; 0]].
Lemma read_log_torn_witness :
  read_log (slice 0 30 (log_bytes demo_log)) = take (complete demo_log 30) demo_log /\
  zlen (log_bytes (take (complete demo_log 30) demo_log)) <= 30 /\
  (forall r, demo_log !! complete demo_log 30 = Some r ->
     30 < zlen (log_bytes (take (complete demo_log 30) demo_log ++ [r]))).
Proof.
  apply (read_log_torn demo_log 30).
  - repeat constructor; try done.
  - by vm_compute.
Defined.
