(* ===== verification/Disk.v ===== *)
(** The data files (src/storage/file_manager.cpp): a directory of byte files read and written one
    page at a time. The file descriptor cache and the I/O failures of the operating system are not
    modelled; opening a missing file creates it empty, as O_CREAT does. *)
From S2P Require Import Prelude Types Page.

(** Data file [t_<id>.dat] by [file_id]. *)
Abbreviation Disk := (gmap Z (list Z)) (only parsing).

Definition file_bytes (d : Disk) (f : Z) : bytes := default [] (d !! f).
Definition fd_for (d : Disk) (f : Z) : Disk :=
  match d !! f with Some _ => d | None => <[f := []]> d end.
Definition file_size (d : Disk) (f : Z) : Z := zlen (file_bytes d f).
(** [ftruncate]: cut, or extend with zero bytes. *)
Definition truncate (n : Z) (b : bytes) : bytes :=
  take (Z.to_nat n) b ++ replicate (Z.to_nat n - length b) 0.
Definition create_table_file (d : Disk) (f : Z) : Disk :=
  <[f := truncate PAGE_SIZE (file_bytes d f)]> (fd_for d f).
Definition remove_table_file (d : Disk) (f : Z) : Disk := delete f d.
Definition table_file_exists (d : Disk) (f : Z) : bool := bool_decide (is_Some (d !! f)).
Definition page_count (d : Disk) (f : Z) : Z := wrap 32 (file_size d f / PAGE_SIZE).

(** A short read is completed with zero bytes. *)
Definition read_page (d : Disk) (f pg : Z) : Disk * bytes :=
  (fd_for d f, truncate PAGE_SIZE (slice (pg * PAGE_SIZE) PAGE_SIZE (file_bytes d f))).
(** [pwrite] past the end of the file leaves a hole of zero bytes. *)
Definition write_page (d : Disk) (f pg : Z) (data : bytes) : Disk :=
  let off := pg * PAGE_SIZE in
  let b := file_bytes d f in
  <[f := truncate off b ++ data ++ drop (Z.to_nat off + length data) b]> (fd_for d f).
Definition append_page (d : Disk) (f : Z) (data : bytes) : Disk * Z :=
  let pg := page_count d f in (write_page d f pg data, pg).

(** * Cells: byte [i] of file [f], zero past the end *)
Definition byte_at (b : bytes) (i : Z) : Z := nth (Z.to_nat i) b 0.
Definition cell (d : Disk) (f i : Z) : Z := byte_at (file_bytes d f) i.

Lemma byte_at_app b b' i : 0 <= i ->
  byte_at (b ++ b') i = if i <? zlen b then byte_at b i else byte_at b' (i - zlen b).
Proof.
  intros Hi. unfold byte_at, zlen. destruct (Z.ltb_spec i (Z.of_nat (length b))).
  - rewrite app_nth1 by lia. done.
  - rewrite app_nth2 by lia. f_equal. lia.
Qed.
Lemma byte_at_zeros n i : byte_at (replicate n 0) i = 0.
Proof.
  unfold byte_at. rewrite nth_lookup. destruct (replicate n 0 !! _) eqn:E; [|done].
  by apply lookup_replicate in E as [-> _].
Qed.
Lemma byte_at_drop n b i : 0 <= i -> 0 <= n -> byte_at (drop (Z.to_nat n) b) i = byte_at b (n + i).
Proof. intros. unfold byte_at. rewrite !nth_lookup, lookup_drop. do 2 f_equal. lia. Qed.
Lemma byte_at_take n b i : 0 <= i ->
  byte_at (take (Z.to_nat n) b) i = if i <? n then byte_at b i else 0.
Proof.
  intros. unfold byte_at. rewrite !nth_lookup, lookup_take.
  destruct (Z.ltb_spec i n); [rewrite decide_True by lia|rewrite decide_False by lia]; done.
Qed.
Lemma byte_at_past b i : zlen b <= i -> byte_at b i = 0.
Proof. intros. unfold byte_at, zlen in *. rewrite nth_overflow; [done|lia]. Qed.
Lemma zlen_truncate n b : 0 <= n -> zlen (truncate n b) = n.
Proof.
  intros. unfold truncate, zlen. rewrite length_app, length_take, length_replicate. lia.
Qed.
Lemma byte_at_truncate n b i : 0 <= n -> 0 <= i ->
  byte_at (truncate n b) i = if i <? n then byte_at b i else 0.
Proof.
  intros Hn Hi. unfold truncate. rewrite byte_at_app by done. rewrite byte_at_zeros, byte_at_take by done.
  assert (zlen (take (Z.to_nat n) b) = Z.min n (zlen b)) as -> by (unfold zlen; rewrite length_take; lia).
  destruct (Z.ltb_spec i n), (Z.ltb_spec i (Z.min n (zlen b))); try done. symmetry. apply byte_at_past. lia.
Qed.
Lemma byte_at_slice off n b i : 0 <= off -> 0 <= i ->
  byte_at (slice off n b) i = if i <? n then byte_at b (off + i) else 0.
Proof. intros. unfold slice. rewrite byte_at_take by done. by rewrite byte_at_drop by done. Qed.
Lemma byte_at_splice off bs b i : 0 <= i -> 0 <= off -> off + zlen bs <= zlen b ->
  byte_at (splice off bs b) i =
    if (off <=? i) && (i <? off + zlen bs) then byte_at bs (i - off) else byte_at b i.
Proof.
  intros Hi Ho Hl. unfold byte_at. rewrite !nth_lookup, lookup_splice by done.
  destruct (Z.leb_spec off i), (Z.ltb_spec i (off + zlen bs)); simpl;
    [rewrite decide_True by lia; do 2 f_equal; lia|rewrite decide_False by lia; done..].
Qed.

(** * The page operations, cell by cell *)
Lemma file_bytes_fd d f g : file_bytes (fd_for d f) g = file_bytes d g.
Proof.
  unfold file_bytes, fd_for. destruct (d !! f) eqn:E; [done|].
  destruct (decide (f = g)) as [->|]; [|by rewrite lookup_insert_ne].
  by rewrite lookup_insert_eq, E.
Qed.
Lemma cell_fd d f g i : cell (fd_for d f) g i = cell d g i.
Proof. unfold cell. by rewrite file_bytes_fd. Qed.

(** A page read is the file's bytes at that page, whatever the length of the file. *)
Lemma read_page_cells d f pg : 0 <= pg ->
  zlen (read_page d f pg).2 = PAGE_SIZE /\
  (forall g i, cell (read_page d f pg).1 g i = cell d g i) /\
  (forall i, 0 <= i < PAGE_SIZE -> byte_at (read_page d f pg).2 i = cell d f (pg * PAGE_SIZE + i)).
Proof.
  intros Hp. unfold read_page, PAGE_SIZE. simpl fst. simpl snd. split_and!.
  - by apply zlen_truncate.
  - apply cell_fd.
  - intros i Hi. rewrite byte_at_truncate, byte_at_slice by lia.
    destruct (Z.ltb_spec i 4096); [done|lia].
Qed.

(** A page write changes the cells of that page and no other. *)
Lemma write_page_cells d f pg data g i : 0 <= pg -> 0 <= i -> zlen data = PAGE_SIZE ->
  cell (write_page d f pg data) g i =
    if bool_decide (g = f) && (pg * PAGE_SIZE <=? i) && (i <? (pg + 1) * PAGE_SIZE)
    then byte_at data (i - pg * PAGE_SIZE) else cell d g i.
Proof.
  intros Hp Hi Hl. unfold cell, write_page, file_bytes, PAGE_SIZE in *.
  destruct (decide (g = f)) as [->|Hne].
  - rewrite bool_decide_true by done. rewrite lookup_insert_eq. simpl default.
    rewrite byte_at_app by done. rewrite zlen_truncate by lia. rewrite byte_at_truncate by lia.
    destruct (Z.ltb_spec i (pg * 4096)), (Z.leb_spec (pg * 4096) i); try lia; [done|]. simpl.
    rewrite byte_at_app by lia. rewrite Hl.
    destruct (Z.ltb_spec (i - pg * 4096) 4096), (Z.ltb_spec i ((pg + 1) * 4096)); try lia.
    replace (Z.to_nat (pg * 4096) + length data)%nat with (Z.to_nat ((pg + 1) * 4096)) by (unfold zlen in *; lia).
    rewrite byte_at_drop by lia. f_equal. lia.
  - rewrite bool_decide_false by done. rewrite lookup_insert_ne by done. simpl.
    apply (f_equal (fun b => byte_at b i) (file_bytes_fd d f g)).
Qed.

Lemma remove_cells d f g i :
  cell (remove_table_file d f) g i = if bool_decide (g = f) then 0 else cell d g i.
Proof.
  unfold cell, remove_table_file, file_bytes. case_bool_decide as H; [subst; rewrite lookup_delete_eq|
    rewrite lookup_delete_ne by done]; [|done]. unfold byte_at. by destruct (Z.to_nat i).
Qed.
Lemma missing_cells d f i : table_file_exists d f = false -> cell d f i = 0.
Proof.
  unfold table_file_exists, cell, file_bytes. intros H%bool_decide_eq_false.
  destruct (d !! f); [by destruct H|]. unfold byte_at. by destruct (Z.to_nat i).
Qed.

(** * Page counts *)
Lemma write_page_size d f pg data : 0 <= pg -> zlen data = PAGE_SIZE ->
  file_size (write_page d f pg data) f = Z.max (file_size d f) ((pg + 1) * PAGE_SIZE).
Proof.
  intros Hp Hl. unfold file_size, write_page, file_bytes, PAGE_SIZE in *. rewrite lookup_insert_eq. simpl default.
  set (b := default [] (d !! f)). rewrite !zlen_app, zlen_truncate by lia. unfold zlen in *.
  rewrite length_drop. lia.
Qed.

(** Appending returns the old page count and grows the file by exactly one page. *)
Lemma append_page_count d f data :
  zlen data = PAGE_SIZE -> file_size d f mod PAGE_SIZE = 0 -> page_count d f < 2 ^ 32 - 1 ->
  file_size d f < 2 ^ 32 * PAGE_SIZE ->
  (append_page d f data).2 = file_size d f / PAGE_SIZE /\
  page_count (append_page d f data).1 f = (append_page d f data).2 + 1 /\
  file_size (append_page d f data).1 f mod PAGE_SIZE = 0.
Proof.
  intros Hl Hm Hlt Hsz. unfold append_page. cbn [fst snd].
  pose proof (zlen_nonneg (file_bytes d f)) as H0. fold (file_size d f) in H0.
  assert (page_count d f = file_size d f / PAGE_SIZE) as Hpc.
  { unfold page_count. apply wrap_small. unfold PAGE_SIZE in *.
    split; [apply Z.div_pos; lia|]. apply Z.div_lt_upper_bound; lia. }
  assert (file_size d f = page_count d f * PAGE_SIZE) as Hfs.
  { rewrite Hpc. unfold PAGE_SIZE in *. pose proof (Z.div_mod (file_size d f) 4096). lia. }
  assert (0 <= page_count d f) by (rewrite Hpc; apply Z.div_pos; [done|unfold PAGE_SIZE; lia]).
  assert (file_size (write_page d f (page_count d f) data) f = (page_count d f + 1) * PAGE_SIZE) as Hnew.
  { rewrite write_page_size by done. unfold PAGE_SIZE in *. lia. }
  split_and!; [done| |].
  - unfold page_count at 1. rewrite Hnew. rewrite Z.div_mul by done.
    apply wrap_small. lia.
  - rewrite Hnew. by apply Z.mod_mul.
Qed.
