(* ===== verification/Recovery.v ===== *)
(** Crash recovery (src/storage/recovery.cpp): the three passes over the log, and the theorems
    that recovery from any crash point rebuilds exactly the committed state. *)
From S2P Require Import Prelude Types Page Wal Disk.

(** * Patch records *)
Definition patch_file (r : WalRecord) : Z := wal_get_u64 (payload r) 0.
Definition patch_page (r : WalRecord) : Z := wal_get_u32 (payload r) 8.
Definition patch_off (r : WalRecord) : Z := wal_get_u32 (payload r) 12.
Definition patch_len (r : WalRecord) : Z := wal_get_u32 (payload r) 16.
Definition patch_bytes (r : WalRecord) (undo : bool) : bytes :=
  slice (WAL_PATCH_HEADER_SIZE + if undo then patch_len r else 0) (patch_len r) (payload r).
Definition drop_file (r : WalRecord) : Z := wal_get_u64 (payload r) 0.

(** The validations: [false] is the [raise_corrupt] exit. The length test comes last in the code;
    a payload shorter than the patch header fails it whatever the header reads returned. *)
Definition validate_patch (r : WalRecord) : bool :=
  let file_id := patch_file r in
  let offset := patch_off r in
  let len := patch_len r in
  if file_id =? 0 then false
  else if (offset >? PAGE_SIZE) || (len =? 0) || (len >? PAGE_SIZE - offset) then false
  else zlen (payload r) =? WAL_PATCH_HEADER_SIZE + 2 * len.
Definition validate_drop (r : WalRecord) : bool :=
  if negb (zlen (payload r) =? 8) then false else negb (drop_file r =? 0).

Definition apply_patch (d : Disk) (r : WalRecord) (undo : bool) : Disk :=
  let '(d, page) := read_page d (patch_file r) (patch_page r) in
  write_page d (patch_file r) (patch_page r) (splice (patch_off r) (patch_bytes r undo) page).

(** * The passes *)
Record RecoveryStats := mkStats { replayed : Z; patches : Z; drops : Z; undone : Z }.
Record collected := mkCol {
  records : list WalRecord; committed : gset Z; aborted : gset Z; commit_abort_count : Z }.

Definition collect1 (st : collected) (r : WalRecord) : result collected :=
  if rop r =? 1 then
    if validate_patch r
    then Ok (mkCol (records st ++ [r]) (committed st) (aborted st) (commit_abort_count st)) else Fatal
  else if rop r =? 2 then
    if validate_drop r
    then Ok (mkCol (records st ++ [r]) (committed st) (aborted st) (commit_abort_count st)) else Fatal
  else if (rop r =? 3) || (rop r =? 4) then
    if bool_decide (payload r = []) then
      Ok (mkCol (records st)
            (if rop r =? 3 then {[txn r]} ∪ committed st else committed st)
            (if rop r =? 3 then aborted st else {[txn r]} ∪ aborted st)
            (commit_abort_count st + 1))
    else Fatal
  else Fatal.
Fixpoint collect (st : collected) (rs : list WalRecord) : result collected :=
  match rs with [] => Ok st | r :: rs => st' ← collect1 st r; collect st' rs end.

Definition redo1 (com : gset Z) (st : Disk * RecoveryStats) (r : WalRecord) : Disk * RecoveryStats :=
  let '(d, s) := st in
  if bool_decide (txn r ∉ com) then (d, s)
  else if rop r =? 1 then
    (apply_patch d r false, mkStats (replayed s) (patches s + 1) (drops s) (undone s))
  else if table_file_exists d (drop_file r) then
    (remove_table_file d (drop_file r), mkStats (replayed s) (patches s) (drops s + 1) (undone s))
  else (d, s).
Definition undo1 (com abt : gset Z) (st : Disk * RecoveryStats) (r : WalRecord) : Disk * RecoveryStats :=
  let '(d, s) := st in
  if bool_decide (txn r ∈ com) || bool_decide (txn r ∈ abt) || negb (rop r =? 1) then (d, s)
  else (apply_patch d r true, mkStats (replayed s) (patches s) (drops s) (undone s + 1)).

Definition recover (d : Disk) (w : Wal) : result (Disk * Wal * RecoveryStats) :=
  c ← collect (mkCol [] ∅ ∅ 0) (read_log (wfile w));
  let stats := mkStats (zlen (records c) + commit_abort_count c) 0 0 0 in
  let '(d, stats) := fold_left (redo1 (committed c)) (records c) (d, stats) in
  let '(d, stats) := fold_left (undo1 (committed c) (aborted c)) (rev (records c)) (d, stats) in
  if replayed stats =? 0 then
    Ok (d, if zlen (wfile w) >? 0 then wal_reset w else w, stats)
  else Ok (d, wal_reset w, stats).

(** * Specification: what the log says about every byte of every file *)
Abbreviation cells := (Z -> Z -> Z) (only parsing).

Definition patch_start (r : WalRecord) : Z := patch_page r * PAGE_SIZE + patch_off r.
(** [r] writes byte [i] of file [f]. *)
Definition touches (r : WalRecord) (f i : Z) : bool :=
  if rop r =? 1 then
    (f =? patch_file r) && (patch_start r <=? i) && (i <? patch_start r + patch_len r)
  else f =? drop_file r.
Definition effect (c : cells) (r : WalRecord) : cells := fun f i =>
  if touches r f i then
    if rop r =? 1 then byte_at (patch_bytes r false) (i - patch_start r) else 0
  else c f i.
Definition undo_effect (c : cells) (r : WalRecord) : cells := fun f i =>
  if (rop r =? 1) && touches r f i then byte_at (patch_bytes r true) (i - patch_start r) else c f i.

Definition data_ok (r : WalRecord) : bool :=
  if rop r =? 1 then validate_patch r else (rop r =? 2) && validate_drop r.
Definition is_data (r : WalRecord) : bool := (rop r =? 1) || (rop r =? 2).
Definition ends (op : WalOp) (t : Z) (r : WalRecord) : bool := (rop r =? op_code op) && (txn r =? t).
Definition has_end (op : WalOp) (rs : list WalRecord) (t : Z) : bool := existsb (ends op t) rs.

(** The state after the committed transactions of [rs], in log order. *)
Definition redo_list (rs all : list WalRecord) : list WalRecord :=
  List.filter (fun r => is_data r && has_end Commit all (txn r)) rs.
Definition committed_state (c0 : cells) (rs : list WalRecord) : cells :=
  fold_left effect (redo_list rs rs) c0.
(** The patches of transactions that neither committed nor aborted. *)
Definition undo_list (rs all : list WalRecord) : list WalRecord :=
  List.filter (fun r => (rop r =? 1) && negb (has_end Commit all (txn r)) && negb (has_end Abort all (txn r))) rs.

(** ** Logs the engine writes *)
(** Each patch carries the bytes it replaces; a logged file drop takes effect at commit. *)
Fixpoint undo_chain (c : cells) (ops : list WalRecord) : Prop :=
  match ops with
  | [] => True
  | r :: ops =>
      if rop r =? 1 then
        (forall f i, touches r f i = true -> byte_at (patch_bytes r true) (i - patch_start r) = c f i) /\
        undo_chain (effect c r) ops
      else undo_chain c ops
  end.
Definition running (t : Z) (c : cells) (ops : list WalRecord) : Prop :=
  Forall (fun r => txn r = t /\ data_ok r = true) ops /\ undo_chain c ops.
Definition fresh (t : Z) (rs : list WalRecord) : Prop := Forall (fun r => txn r <> t) rs.
Definition end_record (op : WalOp) (t : Z) (r : WalRecord) : Prop :=
  rop r = op_code op /\ txn r = t /\ payload r = [].

(** Transactions run one after the other: [closed_log c0 rs c] holds of a log [rs] of finished
    transactions that leads from state [c0] to the committed state [c]. *)
Inductive closed_log (c0 : cells) : list WalRecord -> cells -> Prop :=
| closed_nil : closed_log c0 [] c0
| closed_commit rs c t ops e : closed_log c0 rs c -> fresh t rs -> running t c ops ->
    end_record Commit t e -> closed_log c0 (rs ++ ops ++ [e]) (fold_left effect ops c)
| closed_abort rs c t ops e : closed_log c0 rs c -> fresh t rs -> running t c ops ->
    end_record Abort t e -> closed_log c0 (rs ++ ops ++ [e]) c.
(** A log the engine can leave behind: finished transactions, then one that may be unfinished. *)
Inductive open_log (c0 : cells) : list WalRecord -> cells -> Prop :=
| open_intro rs c t ops : closed_log c0 rs c -> fresh t rs -> running t c ops ->
    open_log c0 (rs ++ ops) c.

(** The write-ahead condition on the files a crash leaves: a byte differs from its value at the last
    checkpoint only if a surviving record of a committed or unfinished transaction writes it. *)
Definition write_ahead (c0 : cells) (rs : list WalRecord) (d : Disk) : Prop :=
  forall f i, 0 <= i ->
    Forall (fun r => touches r f i = false) (redo_list rs rs ++ undo_list rs rs) -> cell d f i = c0 f i.

(** The page writes and file removals recovery performs, in order. *)
Definition actions (rs : list WalRecord) : list (WalRecord * bool) :=
  ((fun r => (r, false)) <$> redo_list rs rs) ++ ((fun r => (r, true)) <$> rev (undo_list rs rs)).
Definition act (d : Disk) (a : WalRecord * bool) : Disk :=
  if rop a.1 =? 1 then apply_patch d a.1 a.2
  else if table_file_exists d (drop_file a.1) then remove_table_file d (drop_file a.1) else d.

(** * The actions, cell by cell *)
Lemma validate_patch_true r : validate_patch r = true -> Forall byte_ok (payload r) ->
  0 < patch_len r /\ 0 <= patch_off r /\ patch_off r + patch_len r <= PAGE_SIZE /\ 0 <= patch_page r /\
  zlen (payload r) = WAL_PATCH_HEADER_SIZE + 2 * patch_len r /\
  (forall undo, zlen (patch_bytes r undo) = patch_len r).
Proof.
  unfold validate_patch. intros H Hb.
  destruct (patch_file r =? 0); [done|].
  destruct (Z.gtb_spec (patch_off r) PAGE_SIZE), (Z.eqb_spec (patch_len r) 0),
    (Z.gtb_spec (patch_len r) (PAGE_SIZE - patch_off r)); try done. cbn [orb] in H.
  apply Z.eqb_eq in H.
  assert (20 <= zlen (payload r)) as H20.
  { unfold WAL_PATCH_HEADER_SIZE in H. unfold patch_len, wal_get_u32 in *.
    pose proof (le_val_bound (slice 16 4 (payload r)) ltac:(by apply Forall_slice)) as Hb'.
    unfold get_u in *. lia. }
  assert (0 <= patch_page r) by (apply (get_u_bound 4 8 (payload r)); try lia; done).
  assert (0 <= patch_off r) by (apply (get_u_bound 4 12 (payload r)); try lia; done).
  assert (0 <= patch_len r) by (apply (get_u_bound 4 16 (payload r)); try lia; done).
  split_and!; try lia. intros undo. unfold patch_bytes, WAL_PATCH_HEADER_SIZE in *.
  destruct undo; rewrite zlen_slice; lia.
Qed.

Lemma apply_patch_cells d r undo f i :
  validate_patch r = true -> Forall byte_ok (payload r) -> 0 <= i ->
  cell (apply_patch d r undo) f i =
    if (f =? patch_file r) && (patch_start r <=? i) && (i <? patch_start r + patch_len r)
    then byte_at (patch_bytes r undo) (i - patch_start r) else cell d f i.
Proof.
  intros Hv Hb Hi. destruct (validate_patch_true r Hv Hb) as (Hl & Ho & Hle & Hp & _ & Hz). specialize (Hz undo).
  pose proof (read_page_cells d (patch_file r) (patch_page r) Hp) as (Hzl & Hsame & Hpg).
  unfold apply_patch. destruct (read_page d (patch_file r) (patch_page r)) as [d1 page]. cbn [fst snd] in *.
  assert (zlen (splice (patch_off r) (patch_bytes r undo) page) = PAGE_SIZE) by (rewrite zlen_splice; lia).
  rewrite write_page_cells by done. rewrite Hsame. unfold patch_start, PAGE_SIZE in *.
  destruct (decide (f = patch_file r)) as [->|Hne].
  - rewrite bool_decide_true, Z.eqb_refl by done. simpl.
    destruct (Z.leb_spec (patch_page r * 4096) i), (Z.ltb_spec i ((patch_page r + 1) * 4096)),
      (Z.leb_spec (patch_page r * 4096 + patch_off r) i),
      (Z.ltb_spec i (patch_page r * 4096 + patch_off r + patch_len r)); simpl; try lia; try done.
    all: rewrite byte_at_splice by lia; rewrite Hz;
      destruct (Z.leb_spec (patch_off r) (i - patch_page r * 4096)),
        (Z.ltb_spec (i - patch_page r * 4096) (patch_off r + patch_len r)); simpl; try lia.
    all: try (rewrite Hpg by lia; f_equal; lia).
    f_equal. lia.
  - rewrite bool_decide_false by done. rewrite (proj2 (Z.eqb_neq f (patch_file r))) by done. done.
Qed.

Section cellwise.
Context (d : Disk) (r : WalRecord) (Hd : data_ok r = true) (Hb : Forall byte_ok (payload r)).

Lemma act_redo_cells f i : 0 <= i -> cell (act d (r, false)) f i = effect (cell d) r f i.
Proof using Hd Hb.
  intros Hi. unfold act, effect, touches, data_ok in *. cbn [fst snd].
  destruct (rop r =? 1); [by rewrite apply_patch_cells|].
  destruct (table_file_exists d (drop_file r)) eqn:E.
  - rewrite remove_cells. by case_bool_decide; [rewrite (proj2 (Z.eqb_eq _ _))|rewrite (proj2 (Z.eqb_neq _ _))].
  - destruct (Z.eqb_spec f (drop_file r)); [subst|done]. by apply missing_cells.
Qed.

Lemma act_undo_cells f i : 0 <= i -> rop r = 1 -> cell (act d (r, true)) f i = undo_effect (cell d) r f i.
Proof using Hd Hb.
  intros Hi H1. unfold act, undo_effect, touches, data_ok in *. cbn [fst snd]. rewrite H1 in *. change (1 =? 1) with true in *. cbn [andb].
  by rewrite apply_patch_cells.
Qed.
End cellwise.

(** * Folding effects *)
Lemma effect_ext c c' r f i : c f i = c' f i -> effect c r f i = effect c' r f i.
Proof. intros H. unfold effect. by rewrite H. Qed.
Lemma effects_ext l c c' f i : c f i = c' f i -> fold_left effect l c f i = fold_left effect l c' f i.
Proof. revert c c'; induction l as [|r l IH]; intros c c' H; [done|]. apply IH. by apply effect_ext. Qed.
Lemma effects_untouched l c f i :
  Forall (fun r => touches r f i = false) l -> fold_left effect l c f i = c f i.
Proof.
  intros H. revert c. induction H as [|r l Hr H IH]; intros c; [done|].
  simpl. rewrite IH. unfold effect. by rewrite Hr.
Qed.
(** A byte some record of the list writes ends up the same whatever it was before. *)
Lemma effects_touched l c c' f i :
  ~ Forall (fun r => touches r f i = false) l -> fold_left effect l c f i = fold_left effect l c' f i.
Proof.
  revert c c'; induction l as [|r l IH]; intros c c' H; [by destruct H|].
  cbn [fold_left]. destruct (touches r f i) eqn:E.
  - apply effects_ext. unfold effect. by rewrite E.
  - apply IH. intros Hl. apply H. by constructor.
Qed.

Lemma acts_redo l d f i : Forall (fun r => data_ok r = true /\ Forall byte_ok (payload r)) l -> 0 <= i ->
  cell (fold_left act ((fun r => (r, false)) <$> l) d) f i = fold_left effect l (cell d) f i.
Proof.
  intros Hl Hi. revert d. induction Hl as [|r l [Hd Hb] Hl IH]; intros d; [done|].
  simpl. rewrite IH. apply effects_ext. by apply act_redo_cells.
Qed.

(** Undoing a chain of patches, latest first, restores every byte they wrote. *)
Lemma acts_undo l c d f i :
  Forall (fun r => (data_ok r = true /\ Forall byte_ok (payload r)) /\ rop r = 1) l -> 0 <= i ->
  undo_chain c l ->
  cell (fold_left act ((fun r => (r, true)) <$> rev l) d) f i =
    if decide (Forall (fun r => touches r f i = false) l) then cell d f i else c f i.
Proof.
  intros Hl Hi. revert c d. induction Hl as [|r l [[Hd Hb] H1] Hl IH]; intros c d Hc; [done|].
  simpl in Hc. rewrite H1 in Hc. cbn [Z.eqb Pos.eqb] in Hc. destruct Hc as [Hr Hc].
  simpl rev. rewrite fmap_app, fold_left_app. simpl.
  rewrite act_undo_cells by done. unfold undo_effect. rewrite H1. simpl.
  rewrite (IH (effect c r)) by done.
  destruct (touches r f i) eqn:E.
  - rewrite decide_False by (intros [? ?]%Forall_cons_iff; congruence). by apply Hr.
  - destruct (decide (Forall _ l)) as [Hf|Hf].
    + by rewrite decide_True by (by constructor).
    + rewrite decide_False by (by intros [? ?]%Forall_cons_iff). unfold effect. by rewrite E.
Qed.

(** * The shape of the logs *)
Lemma has_end_app op rs rs' t : has_end op (rs ++ rs') t = has_end op rs t || has_end op rs' t.
Proof. apply existsb_app. Qed.
Lemma has_end_other op rs t : Forall (fun r => txn r <> t) rs -> has_end op rs t = false.
Proof.
  induction 1 as [|r rs Hr _ IH]; [done|]. unfold has_end in *. simpl. rewrite IH.
  unfold ends. rewrite (proj2 (Z.eqb_neq (txn r) t)) by done. by rewrite andb_false_r.
Qed.
Lemma has_end_data op ops t : 2 < op_code op -> Forall (fun r => data_ok r = true) ops -> has_end op ops t = false.
Proof.
  intros Hop. induction 1 as [|r rs Hr _ IH]; [done|]. unfold has_end in *. simpl. rewrite IH.
  unfold ends, data_ok in *. destruct (Z.eqb_spec (rop r) (op_code op)) as [E|]; [|done].
  destruct (Z.eqb_spec (rop r) 1), (Z.eqb_spec (rop r) 2); try done; lia.
Qed.
Lemma data_ok_is_data r : data_ok r = true -> is_data r = true.
Proof. unfold data_ok, is_data. by destruct (rop r =? 1), (rop r =? 2). Qed.


(** Records of other transactions do not change what is redone or undone. *)
Lemma lists_fresh rs ext t : fresh t rs -> Forall (fun r => txn r = t) ext ->
  redo_list rs (rs ++ ext) = redo_list rs rs /\ undo_list rs (rs ++ ext) = undo_list rs rs.
Proof.
  intros Hf He.
  assert (forall op r, In r rs -> has_end op (rs ++ ext) (txn r) = has_end op rs (txn r)) as Hsame.
  { intros op r Hr. rewrite has_end_app, (has_end_other op ext), orb_false_r; [done|].
    refine (Forall_impl _ _ He). intros x ->. unfold fresh in Hf. rewrite Forall_forall in Hf.
    intros Heq. by apply (Hf r Hr). }
  split; apply filter_ext_in; intros r Hr; by rewrite ?Hsame.
Qed.

Section block.
Context (rs ops : list WalRecord) (t : Z) (c : cells) (Hf : fresh t rs) (Hrun : running t c ops).

Lemma run_txn : Forall (fun r => txn r = t) ops.
Proof using Hrun. refine (Forall_impl _ _ (proj1 Hrun)). by intros r [? ?]. Qed.
Lemma run_data : Forall (fun r => data_ok r = true) ops.
Proof using Hrun. refine (Forall_impl _ _ (proj1 Hrun)). by intros r [? ?]. Qed.

(** Only the transaction's own end record decides about it. *)
Lemma block_end op l : 2 < op_code op -> has_end op (rs ++ ops ++ l) t = has_end op l t.
Proof using Hf Hrun.
  intros. rewrite !has_end_app, (has_end_other op rs t Hf), (has_end_data op ops t); [done..|].
  by apply run_data.
Qed.
Lemma block_redo l : Forall (fun r => is_data r = false /\ txn r = t) l ->
  redo_list (rs ++ ops ++ l) (rs ++ ops ++ l) =
    redo_list rs rs ++ (if has_end Commit l t then ops else []).
Proof using Hf Hrun.
  intros Hl. pose proof run_txn as Ht. pose proof run_data as Hdt. unfold redo_list at 1. rewrite !filter_app.
  change (redo_list rs (rs ++ ops ++ l) ++ redo_list ops (rs ++ ops ++ l) ++ redo_list l (rs ++ ops ++ l) =
    redo_list rs rs ++ (if has_end Commit l t then ops else [])).
  destruct (lists_fresh rs (ops ++ l) t Hf) as [-> _].
  { apply Forall_app_2; [done|]. refine (Forall_impl _ _ Hl). by intros r [? ?]. }
  f_equal. unfold redo_list. rewrite (filter_none _ l), app_nil_r
    by (refine (Forall_impl _ _ Hl); by intros r [-> ?]).
  destruct (has_end Commit l t) eqn:E; [apply filter_all|apply filter_none];
    rewrite Forall_forall in *; intros r Hr; rewrite (Ht r Hr), block_end, E by done;
    [by rewrite (data_ok_is_data r (Hdt r Hr))|by rewrite andb_false_r].
Qed.
Lemma block_undo l : Forall (fun r => is_data r = false /\ txn r = t) l ->
  undo_list (rs ++ ops ++ l) (rs ++ ops ++ l) = undo_list rs rs ++
    (if has_end Commit l t || has_end Abort l t then [] else List.filter (fun r => rop r =? 1) ops).
Proof using Hf Hrun.
  intros Hl. pose proof run_txn as Ht. pose proof run_data as Hdt. unfold undo_list at 1. rewrite !filter_app.
  change (undo_list rs (rs ++ ops ++ l) ++ undo_list ops (rs ++ ops ++ l) ++ undo_list l (rs ++ ops ++ l) =
    undo_list rs rs ++ (if has_end Commit l t || has_end Abort l t then []
                        else List.filter (fun r => rop r =? 1) ops)).
  destruct (lists_fresh rs (ops ++ l) t Hf) as [_ ->].
  { apply Forall_app_2; [done|]. refine (Forall_impl _ _ Hl). by intros r [? ?]. }
  f_equal. unfold undo_list. rewrite (filter_none _ l), app_nil_r
    by (refine (Forall_impl _ _ Hl); intros r [Hd ?]; unfold is_data in Hd; by destruct (rop r =? 1)).
  destruct (has_end Commit l t) eqn:E, (has_end Abort l t) eqn:E'; cbn [orb];
    try apply filter_none; try apply filter_ext_in; rewrite ?Forall_forall in *; intros r Hr;
    rewrite (Ht r Hr), !block_end, E, E' by done; simpl; by rewrite ?andb_false_r, ?andb_true_r.
Qed.
End block.

Lemma end_not_data op t e : 2 < op_code op -> end_record op t e -> is_data e = false /\ txn e = t.
Proof. intros Hop (H1 & H2 & _). unfold is_data. rewrite H1. split; [|done]. destruct op; simpl in *; [lia..|done|done]. Qed.

(** The committed state of a closed log, read off its records; nothing is left to undo. *)
Lemma closed_log_state c0 rs c : closed_log c0 rs c -> committed_state c0 rs = c /\ undo_list rs rs = [].
Proof.
  induction 1 as [|rs c t ops e Hcl [IH1 IH2] Hf Hrun He|rs c t ops e Hcl [IH1 IH2] Hf Hrun He]; [done|..].
  all: assert (Forall (fun r => is_data r = false /\ txn r = t) [e])
    by (repeat constructor; by eapply end_not_data; [|done]).
  all: assert (forall op, has_end op [e] t = (op_code op =? rop e)) as Hend
    by (destruct He as (_ & Ht & _); intros op; unfold has_end, ends; simpl;
        by rewrite Ht, Z.eqb_refl, orb_false_r, andb_true_r, Z.eqb_sym).
  all: unfold committed_state; rewrite (block_redo rs ops t c), (block_undo rs ops t c), !Hend by done.
  all: destruct He as (-> & _); cbn [op_code Z.eqb Pos.eqb orb]; rewrite ?IH2; split; [|done].
  - rewrite fold_left_app. change (fold_left effect ops (committed_state c0 rs) = fold_left effect ops c). by rewrite IH1.
  - by rewrite app_nil_r.
Qed.

Lemma open_log_state c0 rs c : open_log c0 rs c ->
  committed_state c0 rs = c /\ undo_chain c (undo_list rs rs).
Proof.
  intros [rs' c' t ops Hcl Hf Hrun]. destruct (closed_log_state _ _ _ Hcl) as [Hc Hu].
  pose proof (block_redo rs' ops t c' Hf Hrun [] ltac:(constructor)) as Hr.
  pose proof (block_undo rs' ops t c' Hf Hrun [] ltac:(constructor)) as Hud.
  rewrite app_nil_r in *. rewrite Hu in Hud. cbn [has_end existsb orb app] in Hr, Hud.
  unfold committed_state. rewrite Hr, Hud, app_nil_r. split; [done|].
  destruct Hrun as [_ Hch]. clear -Hch. revert c' Hch.
  induction ops as [|r ops IH]; intros c Hch; [done|]. simpl in *. destruct (rop r =? 1) eqn:E; [|by apply IH].
  simpl. rewrite E. split; [apply Hch|apply IH, Hch].
Qed.

Lemma running_take t c ops n : running t c ops -> running t c (take n ops).
Proof.
  intros [Ha Hc]. split; [by apply Forall_take|]. revert c ops Ha Hc; induction n as [|n IH]; intros c ops Ha Hc.
  { done. }
  destruct ops as [|r ops]; [done|]. inversion_clear Ha. simpl in *.
  destruct (rop r =? 1); [split; [apply Hc|apply IH; [done|apply Hc]]|by apply IH].
Qed.
Lemma closed_open c0 rs c : closed_log c0 rs c -> open_log c0 rs c.
Proof.
  intros H. rewrite <- (app_nil_r rs). apply (open_intro c0 rs c (fold_right Z.max 0 (txn <$> rs) + 1)); [done| |by split].
  clear H. unfold fresh. apply List.Forall_forall. intros r Hr Heq.
  assert (forall x, In x rs -> txn x <= fold_right Z.max 0 (txn <$> rs)) as Hmax.
  { clear. induction rs as [|y rs IH]; [done|]. intros x [->|Hx]; rewrite fmap_cons; cbn [fold_right]; [lia|]. specialize (IH _ Hx). lia. }
  specialize (Hmax r Hr). lia.
Qed.

(** Cutting such a log anywhere leaves such a log. *)
Lemma closed_log_take c0 rs c n : closed_log c0 rs c -> exists c', open_log c0 (take n rs) c'.
Proof.
  intros H. assert (forall rs c t ops e, closed_log c0 rs c -> fresh t rs -> running t c ops ->
    (exists c', closed_log c0 (rs ++ ops ++ [e]) c') -> (exists c', open_log c0 (take n rs) c') ->
    exists c', open_log c0 (take n (rs ++ ops ++ [e])) c') as Hstep.
  { clear rs c H. intros rs c t ops e Hcl Hf Hrun [c1 Hall] IH.
    destruct (decide (n <= length rs)%nat); [by rewrite take_app_le|].
    rewrite take_app_ge by lia. destruct (decide (n - length rs <= length ops)%nat).
    - rewrite take_app_le by lia. exists c. apply (open_intro c0 rs c t); [done..|]. by apply running_take.
    - exists c1. rewrite (take_ge (ops ++ [e])) by (rewrite length_app; simpl; lia). by apply closed_open. }
  induction H as [|rs c t ops e Hcl IH Hf Hrun He|rs c t ops e Hcl IH Hf Hrun He].
  - exists c0. rewrite take_nil. apply closed_open. constructor.
  - apply (Hstep rs c t ops e); try done. eexists. by eapply closed_commit.
  - apply (Hstep rs c t ops e); try done. eexists. by eapply closed_abort.
Qed.
Lemma open_log_take c0 rs c n : open_log c0 rs c -> exists c', open_log c0 (take n rs) c'.
Proof.
  intros [rs' c' t ops Hcl Hf Hrun]. destruct (decide (n <= length rs')%nat).
  - rewrite take_app_le by done. by eapply closed_log_take.
  - rewrite take_app_ge by lia. exists c'. apply (open_intro c0 rs' c' t); [done..|]. by apply running_take.
Qed.

(** * The passes are the actions *)
Definition rec_valid (r : WalRecord) : Prop :=
  data_ok r = true \/ ((rop r = 3 \/ rop r = 4) /\ payload r = []).

Lemma or_no (P : Prop) : P <-> P \/ false = true.
Proof. split; [by left|by intros [?|?]]. Qed.
Lemma add_end (C : gset Z) t r :
  t ∈ ({[txn r]} ∪ C) <-> t ∈ C \/ (txn r =? t) = true.
Proof. rewrite elem_of_union, elem_of_singleton, Z.eqb_eq. split; intros [?|?]; auto. Qed.

Lemma collect1_ok st r : rec_valid r -> exists st1, collect1 st r = Ok st1 /\
  records st1 = records st ++ (if is_data r then [r] else []) /\
  (forall t, t ∈ committed st1 <-> t ∈ committed st \/ ends Commit t r = true) /\
  (forall t, t ∈ aborted st1 <-> t ∈ aborted st \/ ends Abort t r = true) /\
  zlen (records st1) + commit_abort_count st1 = zlen (records st) + commit_abort_count st + 1.
Proof.
  intros Hr. unfold collect1, ends, op_code, is_data. destruct Hr as [Hd|[[H3|H3] Hp]].
  - unfold data_ok in Hd.
    destruct (Z.eqb_spec (rop r) 1) as [H1|]; [|destruct (Z.eqb_spec (rop r) 2) as [H2|]; [|done]];
      cbn [andb] in Hd; rewrite Hd; eexists; (split; [done|]); cbn [records committed aborted commit_abort_count orb];
      rewrite ?H1, ?H2; cbn [Z.eqb Pos.eqb andb]; split_and!; try (intros t; exact (or_no _)); try done; try (rewrite zlen_app, zlen_cons, zlen_nil; lia).
  - rewrite H3, Hp. cbn [Z.eqb Pos.eqb orb]. rewrite bool_decide_true by done. eexists; (split; [done|]).
    cbn [records committed aborted commit_abort_count andb]. rewrite app_nil_r.
    split_and!; try (intros t; exact (or_no _)); try (intros t; exact (add_end _ t _)); try done; lia.
  - rewrite H3, Hp. cbn [Z.eqb Pos.eqb orb]. rewrite bool_decide_true by done. eexists; (split; [done|]).
    cbn [records committed aborted commit_abort_count andb]. rewrite app_nil_r.
    split_and!; try (intros t; exact (or_no _)); try (intros t; exact (add_end _ t _)); try done; lia.
Qed.

Lemma collect_ok rs st : Forall rec_valid rs -> exists st', collect st rs = Ok st' /\
  records st' = records st ++ List.filter is_data rs /\
  (forall t, t ∈ committed st' <-> t ∈ committed st \/ has_end Commit rs t = true) /\
  (forall t, t ∈ aborted st' <-> t ∈ aborted st \/ has_end Abort rs t = true) /\
  zlen (records st') + commit_abort_count st' = zlen (records st) + commit_abort_count st + zlen rs.
Proof.
  intros H. revert st. induction H as [|r rs Hr _ IH]; intros st.
  { exists st. rewrite app_nil_r, zlen_nil. split_and!; try (intros t; exact (or_no _)); try done; lia. }
  destruct (collect1_ok st r Hr) as (st1 & E1 & R1 & C1 & A1 & N1).
  destruct (IH st1) as (st' & E & R & C & A & N). exists st'. simpl. rewrite E1. simpl. rewrite E.
  clear IH. split_and!.
  - done.
  - rewrite R, R1, <- app_assoc. by destruct (is_data r).
  - intros t. rewrite C, C1. unfold has_end. simpl. rewrite orb_true_iff. tauto.
  - intros t. rewrite A, A1. unfold has_end. simpl. rewrite orb_true_iff. tauto.
  - rewrite N, N1, zlen_cons. lia.
Qed.

Lemma redo_acts com all rs d s :
  (forall t, t ∈ com <-> has_end Commit all t = true) ->
  exists s', fold_left (redo1 com) (List.filter is_data rs) (d, s) =
    (fold_left act ((fun r => (r, false)) <$> redo_list rs all) d, s') /\ replayed s' = replayed s.
Proof.
  intros Hc. revert d s. induction rs as [|r rs IH]; intros d s; [by exists s|].
  unfold redo_list. simpl. destruct (is_data r) eqn:Ed; simpl; [|apply IH].
  destruct (has_end Commit all (txn r)) eqn:E.
  - rewrite bool_decide_false by (rewrite Hc, E; tauto). simpl. unfold act at 2. cbn [fst snd].
    destruct (rop r =? 1); [|destruct (table_file_exists d (drop_file r))].
    all: match goal with |- exists _, fold_left _ _ (?d, ?s) = _ /\ _ => destruct (IH d s) as (s' & -> & H) end; by exists s'.
  - rewrite bool_decide_true by (rewrite Hc, E; done). apply IH.
Qed.
Lemma undo_acts com abt all rs d s :
  (forall t, t ∈ com <-> has_end Commit all t = true) -> (forall t, t ∈ abt <-> has_end Abort all t = true) ->
  exists s', fold_left (undo1 com abt) (rev (List.filter is_data rs)) (d, s) =
    (fold_left act ((fun r => (r, true)) <$> rev (undo_list rs all)) d, s') /\ replayed s' = replayed s.
Proof.
  intros Hc Ha. revert d s.
  assert (forall t, bool_decide (t ∈ com) = has_end Commit all t) as Hc'
    by (intros t; destruct (has_end Commit all t) eqn:E; [apply bool_decide_true|apply bool_decide_false]; rewrite Hc, E; done).
  assert (forall t, bool_decide (t ∈ abt) = has_end Abort all t) as Ha'
    by (intros t; destruct (has_end Abort all t) eqn:E; [apply bool_decide_true|apply bool_decide_false]; rewrite Ha, E; done).
  induction rs as [|r rs IH]; intros d s; [by exists s|].
  unfold undo_list. simpl. fold (undo_list rs all).
  destruct (is_data r) eqn:Ed.
  - simpl. rewrite fold_left_app. destruct (IH d s) as (s1 & -> & <-). simpl. rewrite Hc', Ha'.
    destruct (rop r =? 1) eqn:E1, (has_end Commit all (txn r)), (has_end Abort all (txn r)); simpl; try by eexists.
    rewrite fmap_app, fold_left_app. simpl. unfold act at 2. cbn [fst snd]. rewrite E1. by eexists.
  - unfold is_data in Ed. destruct (rop r =? 1); [done|]. apply IH.
Qed.

(** Recovery performs the actions, then empties the log. *)
Lemma recover_acts d w rs : Forall rec_valid rs -> read_log (wfile w) = rs ->
  exists w' s, recover d w = Ok (fold_left act (actions rs) d, w', s) /\ wfile w' = [] /\ replayed s = zlen rs.
Proof.
  intros Hv Hr. unfold recover. rewrite Hr. destruct (collect_ok rs (mkCol [] ∅ ∅ 0) Hv) as (st & -> & R & C & A & N).
  simpl. simpl in R, N.
  assert (forall t, t ∈ committed st <-> has_end Commit rs t = true) as HC by (intros; rewrite C; simpl; set_solver).
  assert (forall t, t ∈ aborted st <-> has_end Abort rs t = true) as HA by (intros; rewrite A; simpl; set_solver).
  rewrite R. destruct (redo_acts (committed st) rs rs d (mkStats (zlen (List.filter is_data rs) + commit_abort_count st) 0 0 0) HC)
    as (s1 & -> & H1).
  match goal with |- context [fold_left (undo1 _ _) _ (?d, ?s)] =>
    destruct (undo_acts _ _ rs rs d s HC HA) as (s2 & -> & H2) end.
  unfold actions. rewrite fold_left_app. rewrite (@zlen_nil WalRecord) in N. simpl in H1, N.
  assert (replayed s2 = zlen rs) as Hs by (rewrite <- R in H1; lia). destruct (replayed s2 =? 0).
  - eexists _, s2. split; [done|]. split; [|done].
    destruct (Z.gtb_spec (zlen (wfile w)) 0); [done|]. destruct (wfile w); [done|rewrite zlen_cons in *].
    pose proof (zlen_nonneg l). lia.
  - by eexists _, s2.
Qed.

(** * Correctness *)
Lemma closed_valid c0 rs c : closed_log c0 rs c -> Forall rec_valid rs.
Proof.
  induction 1 as [|rs c t ops e _ IH _ Hrun He|rs c t ops e _ IH _ Hrun He]; [constructor|..].
  all: apply Forall_app_2; [done|]; apply Forall_app_2;
    [refine (Forall_impl _ _ (run_data _ _ _ Hrun)); by left|constructor; [right|constructor]].
  all: destruct He as (-> & _ & ->); auto.
Qed.
Lemma open_valid c0 rs c : open_log c0 rs c -> Forall rec_valid rs.
Proof.
  intros [rs' c' t ops Hcl _ Hrun]. apply Forall_app_2; [by eapply closed_valid|].
  refine (Forall_impl _ _ (run_data _ _ _ Hrun)). by left.
Qed.

Section correct.
Context (c0 : cells) (rs : list WalRecord) (c : cells).
Context (Hlog : open_log c0 rs c) (Hok : Forall rec_ok rs).

Definition act_ok (r : WalRecord) : Prop := data_ok r = true /\ Forall byte_ok (payload r).
Lemma lists_ok : Forall act_ok (redo_list rs rs) /\
  Forall (fun r => act_ok r /\ rop r = 1) (undo_list rs rs).
Proof using Hlog Hok.
  pose proof (open_valid _ _ _ Hlog) as Hv.
  assert (forall r, In r rs -> is_data r = true -> act_ok r) as Hin.
  { intros r Hr Hd. rewrite List.Forall_forall in *. split; [|apply Hok, Hr].
    destruct (Hv r Hr) as [?|[[H|H] _]]; [done|..]; unfold is_data in Hd; by rewrite H in Hd. }
  split; apply List.Forall_forall; intros r [Hr H]%filter_In.
  - apply andb_true_iff in H as [? _]. by apply Hin.
  - apply andb_true_iff in H as [[H _]%andb_true_iff _]. split; [|by apply Z.eqb_eq].
    apply Hin; [done|]. unfold is_data. by rewrite H.
Qed.

(** Any disk that satisfies the write-ahead condition ends up at the committed state. *)
Lemma actions_correct d : write_ahead c0 rs d ->
  forall f i, 0 <= i -> cell (fold_left act (actions rs) d) f i = committed_state c0 rs f i.
Proof using Hlog Hok.
  intros Hwa f i Hi. destruct lists_ok as [Hr Hu]. destruct (open_log_state _ _ _ Hlog) as [Hc Hch].
  unfold actions. rewrite fold_left_app.
  pose proof (acts_undo (undo_list rs rs) c (fold_left act ((fun r => (r, false)) <$> redo_list rs rs) d) f i
    Hu Hi Hch) as E. rewrite E. clear E.
  destruct (decide (Forall _ (undo_list rs rs))) as [Hnone|]; [|by rewrite Hc].
  pose proof (acts_redo (redo_list rs rs) d f i Hr Hi) as E. rewrite E. clear E. unfold committed_state.
  destruct (decide (Forall (fun r => touches r f i = false) (redo_list rs rs))) as [Hno|Hyes].
  - rewrite !effects_untouched by done. apply Hwa; [done|]. by apply Forall_app_2.
  - by apply effects_touched.
Qed.

(** Interrupting recovery between any two of its writes keeps the condition. *)
Lemma write_ahead_acts d k : write_ahead c0 rs d -> write_ahead c0 rs (fold_left act (take k (actions rs)) d).
Proof using Hlog Hok.
  intros Hwa f i Hi Hun. rewrite <- (Hwa f i Hi Hun). destruct lists_ok as [Hr Hu].
  assert (Forall (fun a => act_ok a.1 /\ touches a.1 f i = false /\ (a.2 = true -> rop a.1 = 1)) (actions rs)) as Ha.
  { unfold actions. apply Forall_app in Hun as [Hun1 Hun2].
    apply Forall_app_2; apply List.Forall_forall; intros a (r & <- & Hin)%in_map_iff; rewrite List.Forall_forall in *.
    - split_and!; [by apply Hr|by apply Hun1|done].
    - apply in_rev in Hin. split_and!; [by apply Hu|by apply Hun2|intros; by apply Hu]. }
  apply (Forall_take _ k) in Ha. clear Hwa. revert d. induction Ha as [|[r b] l [[Hd Hb] [Ht H1]] _ IH]; intros d; [done|].
  cbn [fold_left]. rewrite IH. simpl in *.
  destruct b; [rewrite act_undo_cells by auto; unfold undo_effect|rewrite act_redo_cells by done; unfold effect];
    rewrite Ht; [by rewrite andb_false_r|done].
Qed.

Lemma recover_correct d w : write_ahead c0 rs d -> read_log (wfile w) = rs ->
  exists d' w' s, recover d w = Ok (d', w', s) /\ wfile w' = [] /\ replayed s = zlen rs /\
    forall f i, 0 <= i -> cell d' f i = committed_state c0 rs f i.
Proof using Hlog Hok.
  intros Hwa Hr. destruct (recover_acts d w rs (open_valid _ _ _ Hlog) Hr) as (w' & s & H & Hw & Hs).
  exists (fold_left act (actions rs) d), w', s. split_and!; [done..|]. by apply actions_correct.
Qed.
End correct.

(** C1. Recovery is correct at every crash point: let [rs] be any log the engine writes, cut after
    any [n] bytes, and let the data files be any files in which a byte differs from its checkpoint
    value only where a surviving record of a committed or unfinished transaction writes it. Then
    [recover] succeeds, empties the log, and leaves every byte of every file at its value in the
    state of exactly the transactions whose commit record survived. *)
Theorem recover_committed_state c0 rs c n d w :
  open_log c0 rs c -> Forall rec_ok rs -> 0 <= n <= zlen (log_bytes rs) ->
  wfile w = slice 0 n (log_bytes rs) -> write_ahead c0 (take (complete rs n) rs) d ->
  exists d' w' s, recover d w = Ok (d', w', s) /\ wfile w' = [] /\ replayed s = Z.of_nat (complete rs n) /\
    forall f i, 0 <= i -> cell d' f i = committed_state c0 (take (complete rs n) rs) f i.
Proof.
  intros Hlog Hok Hn Hw Hwa. destruct (open_log_take _ _ _ (complete rs n) Hlog) as [c' Hlog'].
  assert (Forall rec_ok (take (complete rs n) rs)) as Hok' by (by apply Forall_take).
  destruct (recover_correct c0 _ c' Hlog' Hok' d w Hwa) as (d' & w' & s & H & Hf & Hr & Hc).
  { rewrite Hw. by apply read_log_slice. }
  exists d', w', s. split_and!; [done..| |done]. rewrite Hr. unfold zlen. rewrite length_take.
  pose proof (complete_length rs n). lia.
Qed.

(** C19. Recovery can be interrupted and run again: its disk effect is a sequence of page writes and
    file removals, and a crash after any number of them, followed by recovery of the same log,
    gives the same bytes as one undisturbed run. *)
Theorem recover_restartable c0 rs c d w k :
  open_log c0 rs c -> Forall rec_ok rs -> wfile w = log_bytes rs -> write_ahead c0 rs d ->
  (exists w' s, recover d w = Ok (fold_left act (actions rs) d, w', s)) /\
  exists d' w' s, recover (fold_left act (take k (actions rs)) d) w = Ok (d', w', s) /\
    forall f i, 0 <= i -> cell d' f i = cell (fold_left act (actions rs) d) f i.
Proof.
  intros Hlog Hok Hw Hwa. assert (read_log (wfile w) = rs) as Hr by (rewrite Hw; by apply read_log_full).
  split.
  - destruct (recover_acts d w rs (open_valid _ _ _ Hlog) Hr) as (w' & s & H & _). by exists w', s.
  - pose proof (write_ahead_acts c0 rs c Hlog Hok d k Hwa) as Hk.
    destruct (recover_correct c0 rs c Hlog Hok _ w Hk Hr) as (d' & w' & s & H & _ & _ & Hc).
    exists d', w', s. split; [done|]. intros f i Hi. rewrite Hc by done. symmetry. by eapply actions_correct.
Qed.

(** * A crash with one committed and one unfinished transaction *)
Definition demo_patch (l t after before : Z) : WalRecord :=
  mkRec l t 1 (le_bytes 8 5 ++ le_bytes 4 0 ++ le_bytes 4 3 ++ le_bytes 4 1 ++ [after; before]).
Definition demo_commit : WalRecord := mkRec 2 1 3 [].
Definition demo_crash : list WalRecord := [demo_patch 1 1 7 0; demo_commit; demo_patch 3 2 9 7].
Definition demo_disk : Disk := {[5 := [0; 0; 0; 9]]}.
Definition zero_cells : cells := fun _ _ => 0.

Lemma demo_touches l t a b f i : touches (demo_patch l t a b) f i = (f =? 5) && (3 <=? i) && (i <? 4).
Proof. done. Qed.
Lemma demo_crash_open : open_log zero_cells demo_crash (effect zero_cells (demo_patch 1 1 7 0)).
Proof.
  apply (open_intro _ [demo_patch 1 1 7 0; demo_commit] _ 2 [demo_patch 3 2 9 7]).
  - apply (closed_commit _ [] zero_cells 1 [demo_patch 1 1 7 0] demo_commit); [constructor|constructor| |done].
    split; [by repeat constructor|]. split; [|done]. intros f i H. rewrite demo_touches in H.
    assert (i = 3) as -> by lia. done.
  - by repeat constructor.
  - split; [by repeat constructor|]. split; [|done]. intros f i H. rewrite demo_touches in H.
    assert (i = 3) as -> by lia. assert (f = 5) as -> by lia. done.
Qed.
Lemma demo_crash_ok : Forall rec_ok demo_crash.
Proof. repeat constructor; try done. Qed.
Lemma demo_write_ahead : write_ahead zero_cells demo_crash demo_disk.
Proof.
  intros f i Hi H. apply Forall_inv in H as H1. rewrite demo_touches in H1.
  unfold cell, demo_disk, file_bytes, zero_cells. destruct (decide (f = 5)) as [->|Hne].
  - rewrite lookup_singleton_eq. simpl. unfold byte_at.
    destruct (Z.to_nat i) as [|[|[|[|k]]]] eqn:E; try done; [lia|by destruct k].
  - rewrite lookup_singleton_ne by done. unfold byte_at. by destruct (Z.to_nat i).
Qed.

Lemma recover_committed_state_witness :
  exists d' w' s, recover demo_disk (wal_new (log_bytes demo_crash)) = Ok (d', w', s) /\ wfile w' = [] /\
    replayed s = 3 /\ forall f i, 0 <= i -> cell d' f i = committed_state zero_cells demo_crash f i.
Proof.
  apply (recover_committed_state zero_cells demo_crash (effect zero_cells (demo_patch 1 1 7 0))
    (zlen (log_bytes demo_crash)) demo_disk (wal_new (log_bytes demo_crash))).
  - apply demo_crash_open.
  - apply demo_crash_ok.
  - by vm_compute.
  - by vm_compute.
  - rewrite complete_full. apply demo_write_ahead.
Defined.
Lemma recover_restartable_witness :
  (exists w' s, recover demo_disk (wal_new (log_bytes demo_crash)) =
     Ok (fold_left act (actions demo_crash) demo_disk, w', s)) /\
  exists d' w' s, recover (fold_left act (take 1 (actions demo_crash)) demo_disk)
     (wal_new (log_bytes demo_crash)) = Ok (d', w', s) /\
    forall f i, 0 <= i -> cell d' f i = cell (fold_left act (actions demo_crash) demo_disk) f i.
Proof.
  apply (recover_restartable zero_cells demo_crash (effect zero_cells (demo_patch 1 1 7 0)));
    [apply demo_crash_open|apply demo_crash_ok|done|apply demo_write_ahead].
Defined.
(** The committed byte is back; the unfinished transaction's is gone. *)
Example demo_recovered : committed_state zero_cells demo_crash 5 3 = 7.
Proof. by vm_compute. Qed.
