(* ===== verification/State.v ===== *)
(** The state-and-error monad of the storage layer: a C++ call that reads and writes the engine's
    state, returns a value, throws a [DbError] (the state it had reached is kept, for the rollback
    that follows) or ends the process. *)
From S2P Require Import Prelude.

Definition ST (S A : Type) : Type := S -> result A * S.
#[export] Instance st_ret {S} : MRet (ST S) := fun A a s => (Ok a, s).
#[export] Instance st_bind {S} : MBind (ST S) := fun A B f m s =>
  match m s with (Ok a, s) => f a s | (Raise c, s) => (Raise c, s) | (Fatal, s) => (Fatal, s) end.

Definition gets {S A} (f : S -> A) : ST S A := fun s => (Ok (f s), s).
Definition modify {S} (f : S -> S) : ST S unit := fun s => (Ok tt, f s).
Definition raise {S A} (c : ErrCode) : ST S A := fun s => (Raise c, s).
Definition crash {S A} : ST S A := fun s => (Fatal, s).
Definition lift {S A} (r : result A) : ST S A := fun s => (r, s).

(** A destructor that runs while an exception leaves the block of [m]. *)
Definition unwinding {S A} (cleanup : ST S unit) (m : ST S A) : ST S A := fun s =>
  match m s with
  | (Raise c, s) => match cleanup s with (Fatal, s) => (Fatal, s) | (_, s) => (Raise c, s) end
  | r => r
  end.

(** A [for] loop over a list. *)
Fixpoint forM {S A} (l : list A) (f : A -> ST S unit) : ST S unit :=
  match l with [] => mret tt | x :: l => _ ← f x; forM l f end.
Fixpoint traverse {S A B} (l : list A) (f : A -> ST S B) : ST S (list B) :=
  match l with [] => mret [] | x :: l => y ← f x; ys ← traverse l f; mret (y :: ys) end.

(** * Running *)
Section run.
Context {S A B : Type}.
Implicit Types (m : ST S A) (f : A -> ST S B) (s : S).
Lemma run_bind m f s a s1 : m s = (Ok a, s1) -> (m ≫= f) s = f a s1.
Proof. intros H. unfold mbind, st_bind. by rewrite H. Qed.
Lemma run_match m f s :
  (m ≫= f) s = match m s with (Ok a, s1) => f a s1 | (Raise c, s1) => (Raise c, s1) | (Fatal, s1) => (Fatal, s1) end.
Proof. reflexivity. Qed.
Lemma bind_run_ok m f s b s2 :
  (m ≫= f) s = (Ok b, s2) -> exists a s1, m s = (Ok a, s1) /\ f a s1 = (Ok b, s2).
Proof. unfold mbind, st_bind. destruct (m s) as [[a| |] s1]; [eauto|done..]. Qed.
End run.
Lemma run_gets {S A B} (g : S -> A) (f : A -> ST S B) s : (gets g ≫= f) s = f (g s) s.
Proof. done. Qed.
Lemma run_modify {S B} (g : S -> S) (f : unit -> ST S B) s : (modify g ≫= f) s = f tt (g s).
Proof. done. Qed.
Lemma run_ret {S A B} (a : A) (f : A -> ST S B) s : (mret a ≫= f) s = f a s.
Proof. done. Qed.
Lemma run_assoc {S A B C} (m : ST S A) (f : A -> ST S B) (g : B -> ST S C) s :
  ((m ≫= f) ≫= g) s = (m ≫= (fun a => f a ≫= g)) s.
Proof. unfold mbind, st_bind. by destruct (m s) as [[a| |] s1]. Qed.

(** Run the first call of a sequence, whose outcome is known. *)
Ltac run H := first [rewrite (run_bind _ _ _ _ _ H) | rewrite run_assoc; rewrite (run_bind _ _ _ _ _ H) | rewrite H].
Ltac run1 := first [rewrite run_gets | rewrite run_modify | rewrite run_ret | rewrite run_assoc].
