(* ===== verification/Node.v ===== *)
(** The pages of a B+ tree (src/storage/btree.cpp): the composite order of entries, the leaf and internal node
    layouts, binary search, insertion and rebuilding, and their refinement to sorted lists. *)
From Stdlib Require Import Sorting.Sorted.
From stdpp Require Import sorting.
From S2P Require Import Prelude Types Page Key.

(** * Entries *)
Definition entry_cmp (a b : BTreeEntry) : Z :=
  let c := key_cmp (ekey a) (ekey b) in
  if negb (c =? 0) then c
  else if negb (page_no a =? page_no b) then if page_no a <? page_no b then -1 else 1
  else if negb (slot a =? slot b) then if slot a <? slot b then -1 else 1
  else 0.

Definition BTREE_CELL_SIZE : Z := 15.
Definition CELL_KEY_OFF : Z := 0.
Definition CELL_NULL_OFF : Z := 8.
Definition CELL_PAGE_OFF : Z := CELL_NULL_OFF + 1.
Definition CELL_SLOT_OFF : Z := CELL_PAGE_OFF + 4.

(** The fields of a cell at offset [c]. *)
Definition get_cell (p : bytes) (c : Z) : BTreeEntry :=
  mkEntry (mkKey (get_u 8 (c + CELL_KEY_OFF) p) (negb (get_u 1 (c + CELL_NULL_OFF) p =? 0)))
    (get_u 4 (c + CELL_PAGE_OFF) p) (get_u 2 (c + CELL_SLOT_OFF) p).
Definition put_cell (c : Z) (e : BTreeEntry) (p : bytes) : bytes :=
  put_u 2 (c + CELL_SLOT_OFF) (slot e) (put_u 4 (c + CELL_PAGE_OFF) (page_no e)
    (put_u 1 (c + CELL_NULL_OFF) (if knull (ekey e) then 1 else 0) (put_u 8 (c + CELL_KEY_OFF) (kval (ekey e)) p))).

(** [while (lo < hi)]: the first index where [right] fails. *)
Fixpoint bsearch (fuel : nat) (right : Z -> bool) (lo hi : Z) : Z :=
  match fuel with
  | O => lo
  | S fuel =>
      if lo <? hi then
        let mid := wrap 16 (lo + (hi - lo) / 2) in
        if right mid then bsearch fuel right (wrap 16 (mid + 1)) hi else bsearch fuel right lo mid
      else lo
  end.

(** * Leaves *)
Definition leaf_slot (i : Z) : Z := PAGE_HEADER_SIZE + i * SLOT_SIZE.
Definition leaf_off (p : bytes) (i : Z) : Z := get_u 2 (leaf_slot i) p.
Definition leaf_entry (p : bytes) (i : Z) : BTreeEntry := get_cell p (leaf_off p i).
Definition leaf_lower_bound (p : bytes) (e : BTreeEntry) : Z :=
  bsearch (S (Z.to_nat (h_slot_count p))) (fun i => entry_cmp (leaf_entry p i) e <? 0) 0 (h_slot_count p).
Definition leaf_insert_at (p : bytes) (pos : Z) (e : BTreeEntry) : bytes :=
  let n := h_slot_count p in
  let p := splice (leaf_slot (wrap 16 (pos + 1))) (slice (leaf_slot pos) ((n - pos) * SLOT_SIZE) p) p in
  let p := set_free_end (wrap 16 (h_free_end p - BTREE_CELL_SIZE)) p in
  let p := put_cell (h_free_end p) e p in
  let p := put_u 2 (leaf_slot pos + 2) BTREE_CELL_SIZE (put_u 2 (leaf_slot pos) (h_free_end p) p) in
  let p := set_free_begin (wrap 16 (h_free_begin p + SLOT_SIZE)) p in
  set_slot_count (wrap 16 (n + 1)) p.
Fixpoint leaf_build_loop (p : bytes) (i : Z) (es : list BTreeEntry) : bytes :=
  match es with [] => p | e :: es => leaf_build_loop (leaf_insert_at p i e) (wrap 16 (i + 1)) es end.
Definition leaf_build (entries : list BTreeEntry) (from to : Z) : bytes :=
  leaf_build_loop (init_page MAGIC_BTREE_LEAF PtBTreeLeaf) 0 (slice from (to - from) entries).

(** * Internal nodes *)
Definition node_cell (i : Z) : Z := PAGE_HEADER_SIZE + i * BTREE_CELL_SIZE.
Definition node_ptr (j : Z) : Z := PAGE_SIZE - (j + 1) * 4.
Definition node_sep (p : bytes) (i : Z) : BTreeEntry := get_cell p (node_cell i).
Definition set_node_sep (i : Z) (e : BTreeEntry) (p : bytes) : bytes := put_cell (node_cell i) e p.
Definition node_child (p : bytes) (j : Z) : Z := get_u 4 (node_ptr j) p.
Definition set_node_child (j child : Z) (p : bytes) : bytes := put_u 4 (node_ptr j) child p.
Definition node_child_index (p : bytes) (e : BTreeEntry) : Z :=
  bsearch (S (Z.to_nat (h_slot_count p))) (fun i => entry_cmp (node_sep p i) e <=? 0) 0 (h_slot_count p).
Definition node_insert_at (p : bytes) (i : Z) (sep : BTreeEntry) (right : Z) : bytes :=
  let n := h_slot_count p in
  let p := splice (node_cell (i + 1)) (slice (node_cell i) ((n - i) * BTREE_CELL_SIZE) p) p in
  let p := splice (node_ptr (n + 1)) (slice (node_ptr n) ((n - i) * 4) p) p in
  let p := set_node_sep i sep p in
  let p := set_node_child (wrap 16 (i + 1)) right p in
  let p := set_free_begin (wrap 16 (h_free_begin p + BTREE_CELL_SIZE)) p in
  let p := set_free_end (wrap 16 (h_free_end p - 4)) p in
  set_slot_count (wrap 16 (n + 1)) p.
Fixpoint node_build_loop (p : bytes) (i : Z) (seps : list BTreeEntry) (children : list Z) : bytes :=
  match seps, children with
  | e :: seps, c :: children => node_build_loop (set_node_child i c (set_node_sep i e p)) (wrap 16 (i + 1)) seps children
  | _, _ => p
  end.
Definition node_build (seps : list BTreeEntry) (children : list Z) (from to : Z) : bytes :=
  let p := node_build_loop (init_page MAGIC_BTREE_LEAF PtBTreeInternal) 0
             (slice from (to - from) seps) (slice from (to - from) children) in
  let m := wrap 16 (to - from) in
  let p := set_node_child m (nth (Z.to_nat to) children 0) p in
  let p := set_free_begin (wrap 16 (PAGE_HEADER_SIZE + m * BTREE_CELL_SIZE)) p in
  let p := set_free_end (wrap 16 (PAGE_SIZE - (m + 1) * 4)) p in
  set_slot_count m p.
Definition tree_page_type (t : Z) : bool := (t =? page_type_code PtBTreeLeaf) || (t =? page_type_code PtBTreeInternal).

(** * The composite order *)
Definition btree_entry_ok (e : BTreeEntry) : Prop := key_ok (ekey e) /\ 0 <= page_no e < 2 ^ 32 /\ 0 <= slot e < 2 ^ 16.
(** Entries compare as integers: key, page and slot in one. *)
Definition erank (e : BTreeEntry) : Z := rank_of (ekey e) * 2 ^ 48 + page_no e * 2 ^ 16 + slot e.
Lemma entry_cmp_rank a b : btree_entry_ok a -> btree_entry_ok b ->
  entry_cmp a b = if erank a <? erank b then -1 else if erank b <? erank a then 1 else 0.
Proof.
  intros (Ka & Pa & Sa) (Kb & Pb & Sb). unfold entry_cmp, erank. rewrite key_cmp_rank by done.
  generalize dependent (rank_of (ekey a)). generalize dependent (rank_of (ekey b)). intros ra rb.
  change (2 ^ 48) with 281474976710656. change (2 ^ 16) with 65536 in *. change (2 ^ 32) with 4294967296 in *.
  destruct (Z.ltb_spec rb ra), (Z.ltb_spec ra rb), (Z.eqb_spec (page_no a) (page_no b)), (Z.ltb_spec (page_no a) (page_no b)),
    (Z.eqb_spec (slot a) (slot b)), (Z.ltb_spec (slot a) (slot b)); cbn [negb Z.eqb]; try lia;
    repeat match goal with |- context [?x <? ?y] => destruct (Z.ltb_spec x y) end; lia.
Qed.
Lemma entry_cmp_lt a b : btree_entry_ok a -> btree_entry_ok b -> (entry_cmp a b <? 0) = (erank a <? erank b).
Proof. intros. rewrite entry_cmp_rank by done. destruct (Z.ltb_spec (erank a) (erank b)), (Z.ltb_spec (erank b) (erank a)); lia. Qed.
Lemma entry_cmp_le a b : btree_entry_ok a -> btree_entry_ok b -> (entry_cmp a b <=? 0) = (erank a <=? erank b).
Proof.
  intros. rewrite entry_cmp_rank by done.
  destruct (Z.ltb_spec (erank a) (erank b)), (Z.ltb_spec (erank b) (erank a)), (Z.leb_spec (erank a) (erank b)); lia.
Qed.
Lemma erank_inj a b : btree_entry_ok a -> btree_entry_ok b -> erank a = erank b -> a = b.
Proof.
  intros ([Ka Na] & Pa & Sa) ([Kb Nb] & Pb & Sb) H. destruct a as [[ka na] pa sa], b as [[kb nb] pb sb].
  unfold erank, rank_of in H. cbn [ekey kval knull page_no slot] in *.
  assert (pa = pb /\ sa = sb /\ (if na then 2 ^ 64 else ka) = (if nb then 2 ^ 64 else kb)) as (-> & -> & Hr) by lia.
  destruct na, nb; try lia; [rewrite Na, Nb; done|by subst].
Qed.

(** * Binary search *)
Lemma bsearch_spec fuel right lo hi : 0 <= lo -> lo <= hi -> hi < 65536 -> hi - lo < Z.of_nat fuel ->
  (forall i j, lo <= i <= j -> j < hi -> right j = true -> right i = true) ->
  let r := bsearch fuel right lo hi in lo <= r <= hi /\ (forall i, lo <= i < r -> right i = true) /\ (forall i, r <= i < hi -> right i = false).
Proof.
  revert lo hi; induction fuel as [|fuel IH]; intros lo hi H0 Hlh H1 Hf Hmono; [lia|]. cbn [bsearch].
  destruct (Z.ltb_spec lo hi) as [Hlt|Hge]; [|split_and!; try lia; intros; lia].
  assert (0 <= (hi - lo) / 2 < hi - lo) as Hm by (split; [apply Z.div_pos; lia|apply Z.div_lt_upper_bound; lia]).
  rewrite (wrap_small 16 (lo + _)) by lia. set (mid := lo + (hi - lo) / 2) in *. rewrite (wrap_small 16 (mid + 1)) by lia.
  destruct (right mid) eqn:E.
  - destruct (IH (mid + 1) hi) as (I1 & I2 & I3); try lia.
    { intros i j Hi Hj. apply Hmono; lia. }
    split_and!; [lia|lia| |done]. intros i Hi. destruct (decide (mid + 1 <= i)); [apply I2; lia|]. apply (Hmono i mid); try lia. done.
  - destruct (IH lo mid) as (I1 & I2 & I3); try lia.
    { intros i j Hi Hj. apply Hmono; lia. }
    split_and!; [lia|lia|done|]. intros i Hi. destruct (decide (i < mid)); [apply I3; lia|].
    destruct (right i) eqn:Ei; [|done]. rewrite (Hmono mid i) in E; [done|lia|lia|done].
Qed.

(** * Cells *)
Ltac cell := unfold get_cell, put_cell, CELL_SLOT_OFF, CELL_PAGE_OFF, CELL_NULL_OFF, CELL_KEY_OFF, BTREE_CELL_SIZE in *.
Lemma zlen_put_cell c e p : 0 <= c -> c + 15 <= zlen p -> zlen (put_cell c e p) = zlen p.
Proof. intros. cell. plen. Qed.
Lemma put_cell_ok c e p : Forall byte_ok p -> Forall byte_ok (put_cell c e p).
Proof. intros. cell. by repeat apply put_u_ok. Qed.
Lemma get_put_cell c e p : 0 <= c -> c + 15 <= zlen p -> btree_entry_ok e -> get_cell (put_cell c e p) c = e.
Proof.
  intros Hc Hl ([Hk _] & Hp & Hs). cell. destruct e as [[k n] pg sl]. cbn [ekey kval knull page_no slot] in *.
  assert (0 <= (if n then 1 else 0) < 256 ^ 1) by (destruct n; lia). getput. by destruct n.
Qed.
Lemma slice_put_cell c e p off n : 0 <= c -> c + 15 <= zlen p -> 0 <= off -> off + n <= c \/ c + 15 <= off ->
  slice off n (put_cell c e p) = slice off n p.
Proof. intros. cell. by getput. Qed.
Lemma get_u_put_cell c e p off n : 0 <= c -> c + 15 <= zlen p -> 0 <= off -> off + n <= c \/ c + 15 <= off ->
  get_u n off (put_cell c e p) = get_u n off p.
Proof. intros. unfold get_u. by rewrite slice_put_cell. Qed.
Lemma get_u_slice_eq n off p q : slice off n p = slice off n q -> get_u n off p = get_u n off q.
Proof. unfold get_u. by intros ->. Qed.
(** A cell read where another buffer has the same bytes at another place. *)
Lemma get_cell_move p q c c' : 0 <= c -> 0 <= c' -> slice c 15 p = slice c' 15 q -> get_cell p c = get_cell q c'.
Proof.
  intros Hc Hc' E. cell.
  assert (forall k n, 0 <= k -> 0 <= n -> k + n <= 15 -> get_u n (c + k) p = get_u n (c' + k) q) as H.
  { intros k n Hk Hn Hkn. unfold get_u. rewrite <- (slice_slice c 15 k n p), <- (slice_slice c' 15 k n q) by lia. by rewrite E. }
  rewrite !H by lia. done.
Qed.
Lemma get_cell_eq p q c : 0 <= c -> slice c 15 p = slice c 15 q -> get_cell p c = get_cell q c.
Proof. intros. by apply get_cell_move. Qed.
Lemma get_cell_ok p c : 0 <= c -> c + 15 <= zlen p -> Forall byte_ok p ->
  (get_u 1 (c + 8) p <> 0 -> get_u 8 c p = 0) -> btree_entry_ok (get_cell p c).
Proof.
  intros Hc Hl Hb Hn. cell. split; [split|split]; cbn [ekey kval knull page_no slot].
  - rewrite Z.add_0_r. apply (get_u_bound 8); try lia. done.
  - rewrite Z.add_0_r. intros H. apply Hn. destruct (Z.eqb_spec (get_u 1 (c + 8) p) 0); done.
  - apply (get_u_bound 4); try lia. done.
  - apply (get_u_bound 2); try lia. done.
Qed.
(** Slices of a shifted region. *)
Lemma slice_shift {A} off off' m k n (p : list A) : 0 <= off -> 0 <= off' -> 0 <= m -> off + m <= zlen p -> off' + m <= zlen p ->
  0 <= k -> 0 <= n -> k + n <= m ->
  slice (off' + k) n (splice off' (slice off m p) p) = slice (off + k) n p.
Proof.
  intros. assert (zlen (slice off m p) = m) as Hl by (rewrite zlen_slice; lia).
  rewrite slice_splice_in by lia. replace (off' + k - off') with k by lia. apply slice_slice; lia.
Qed.

(** * Fields as lists *)
Lemma lookup_fmap_seq {A} (f : Z -> A) n i : ((fun i => f (Z.of_nat i)) <$> seq 0 n) !! i = if decide (i < n)%nat then Some (f (Z.of_nat i)) else None.
Proof.
  rewrite list_lookup_fmap. case_decide.
  - by rewrite lookup_seq_lt by lia.
  - by rewrite lookup_seq_ge by lia.
Qed.
(** A list of [n + 1] fields that grew by one at [i]. *)
Lemma fmap_seq_insert {A} (f g : Z -> A) (n : nat) (i : Z) (x : A) : 0 <= i <= Z.of_nat n ->
  (forall k, 0 <= k <= Z.of_nat n -> g k = if k <? i then f k else if k =? i then x else f (k - 1)) ->
  ((fun k => g (Z.of_nat k)) <$> seq 0 (S n)) =
  take (Z.to_nat i) ((fun k => f (Z.of_nat k)) <$> seq 0 n) ++ x :: drop (Z.to_nat i) ((fun k => f (Z.of_nat k)) <$> seq 0 n).
Proof.
  intros Hi Hg. set (l := (fun k => f (Z.of_nat k)) <$> seq 0 n). assert (length l = n) as Hl by (unfold l; by rewrite length_fmap, length_seq).
  assert (length (take (Z.to_nat i) l) = Z.to_nat i) as Ht by (rewrite length_take; lia).
  apply list_eq. intros k. rewrite lookup_fmap_seq. destruct (decide (Z.of_nat k < i)) as [H1|H1].
  - rewrite decide_True by lia. rewrite lookup_app_l, lookup_take_lt by lia. unfold l. rewrite lookup_fmap_seq, decide_True by lia.
    rewrite Hg by lia. destruct (Z.ltb_spec (Z.of_nat k) i); [done|lia].
  - rewrite lookup_app_r by lia. rewrite Ht. destruct (decide (Z.of_nat k = i)) as [H2|H2].
    + replace (k - Z.to_nat i)%nat with 0%nat by lia. rewrite decide_True, Hg by lia.
      destruct (Z.ltb_spec (Z.of_nat k) i), (Z.eqb_spec (Z.of_nat k) i); try lia. done.
    + rewrite lookup_cons_ne_0 by lia. rewrite lookup_drop. replace (Z.to_nat i + Nat.pred (k - Z.to_nat i))%nat with (k - 1)%nat by lia.
      unfold l. rewrite lookup_fmap_seq. destruct (decide (k < S n)%nat); [|by rewrite decide_False by lia].
      rewrite decide_True, Hg by lia. destruct (Z.ltb_spec (Z.of_nat k) i), (Z.eqb_spec (Z.of_nat k) i); try lia. do 2 f_equal. lia.
Qed.

(** * Leaves as lists *)
Definition leaf_entries (p : bytes) : list BTreeEntry :=
  (fun i => leaf_entry p (Z.of_nat i)) <$> seq 0 (Z.to_nat (h_slot_count p)).
Record leaf_wf (p : bytes) : Prop := {
  lw_len : zlen p = PAGE_SIZE;
  lw_bytes : Forall byte_ok p;
  lw_magic : h_magic p = MAGIC_BTREE_LEAF;
  lw_type : h_type p = page_type_code PtBTreeLeaf;
  lw_begin : h_free_begin p = PAGE_HEADER_SIZE + SLOT_SIZE * h_slot_count p;
  lw_end : h_free_end p = PAGE_SIZE - BTREE_CELL_SIZE * h_slot_count p;
  lw_count : 0 <= h_slot_count p;
  lw_fits : h_free_begin p <= h_free_end p;
  lw_cells i : 0 <= i < h_slot_count p -> h_free_end p <= leaf_off p i /\ leaf_off p i + BTREE_CELL_SIZE <= PAGE_SIZE;
  lw_entries : Forall btree_entry_ok (leaf_entries p) }.
Definition LEAF_MAX : Z := 214.
Lemma leaf_entries_lookup p i : leaf_entries p !! i = if decide (Z.of_nat i < h_slot_count p) then Some (leaf_entry p (Z.of_nat i)) else None.
Proof.
  unfold leaf_entries. rewrite lookup_fmap_seq. repeat case_decide; done || lia.
Qed.
Lemma length_leaf_entries p : length (leaf_entries p) = Z.to_nat (h_slot_count p).
Proof. unfold leaf_entries. by rewrite length_fmap, length_seq. Qed.
Lemma zlen_leaf_entries p : leaf_wf p -> zlen (leaf_entries p) = h_slot_count p.
Proof. intros H. unfold zlen. rewrite length_leaf_entries. pose proof (lw_count _ H). lia. Qed.
Lemma leaf_count_max p : leaf_wf p -> h_slot_count p <= LEAF_MAX.
Proof. intros []. unfold LEAF_MAX, PAGE_HEADER_SIZE, PAGE_SIZE, SLOT_SIZE, BTREE_CELL_SIZE in *. lia. Qed.
Lemma leaf_free_space p : leaf_wf p -> free_space p = 4072 - 19 * h_slot_count p.
Proof.
  intros Hwf. pose proof (leaf_count_max p Hwf). destruct Hwf. unfold free_space, LEAF_MAX, PAGE_HEADER_SIZE, PAGE_SIZE, SLOT_SIZE, BTREE_CELL_SIZE in *.
  rewrite wrap_small; lia.
Qed.
Lemma init_page_header magic t : 0 <= magic < 2 ^ 32 ->
  h_magic (init_page magic t) = magic /\ h_type (init_page magic t) = page_type_code t /\ h_slot_count (init_page magic t) = 0 /\
  h_free_begin (init_page magic t) = PAGE_HEADER_SIZE /\ h_free_end (init_page magic t) = PAGE_SIZE /\ h_next_page (init_page magic t) = 0 /\
  zlen (init_page magic t) = PAGE_SIZE /\ Forall byte_ok (init_page magic t).
Proof.
  intros Hm. destruct (init_page_wf magic t Hm) as (Hwf & _ & _ & Hn & _). unfold init_page in *. set (q := set_free_end _ _) in *.
  assert (zlen zero_page = 4096) as Hz by done. assert (0 <= page_type_code t < 5) as Ht by (destruct t; simpl; lia).
  assert (zlen q = 4096) as Hq by (unfold q; punfold; plen).
  destruct (seal_reads q ltac:(lia)) as (H1 & H2 & H3 & H4 & H5 & H6 & H7 & _). rewrite H1, H2, H3, H4, H5, H7.
  split_and!; [..|exact Hn|exact Hq|apply Hwf]; unfold q; punfold; getput; reflexivity.
Qed.
Lemma leaf_init : leaf_wf (init_page MAGIC_BTREE_LEAF PtBTreeLeaf) /\ leaf_entries (init_page MAGIC_BTREE_LEAF PtBTreeLeaf) = [] /\
  h_next_page (init_page MAGIC_BTREE_LEAF PtBTreeLeaf) = 0.
Proof.
  destruct (init_page_header MAGIC_BTREE_LEAF PtBTreeLeaf ltac:(done)) as (H1 & H2 & H3 & H4 & H5 & H6 & H7 & H8).
  set (p := init_page _ _) in *. assert (leaf_entries p = []) as He by (unfold leaf_entries; by rewrite H3).
  split_and!; [|exact He|exact H6]. split; try assumption; rewrite ?H3, ?H4, ?H5, ?He; try done. lia.
Qed.

(** ** Insertion into a leaf *)
Section leaf_insert.
Context (p : bytes) (pos : Z) (e : BTreeEntry) (Hwf : leaf_wf p) (He : btree_entry_ok e).
Context (Hpos : 0 <= pos <= h_slot_count p) (Hroom : h_slot_count p < LEAF_MAX).
Notation n := (h_slot_count p).
Notation fe := (4096 - 15 * n - 15).
Lemma li_bounds : zlen p = 4096 /\ 0 <= n < 214 /\ h_free_begin p = 24 + 4 * n /\ h_free_end p = 4096 - 15 * n.
Proof using Hwf Hroom.
  destruct Hwf. unfold LEAF_MAX, PAGE_HEADER_SIZE, PAGE_SIZE, SLOT_SIZE, BTREE_CELL_SIZE in *. split_and!; lia.
Qed.
(** The steps of the insertion, arithmetic evaluated. *)
Definition li_shift : bytes := splice (leaf_slot (pos + 1)) (slice (leaf_slot pos) ((n - pos) * 4) p) p.
Definition li_page : bytes :=
  set_slot_count (n + 1) (set_free_begin (28 + 4 * n)
    (put_u 2 (leaf_slot pos + 2) 15 (put_u 2 (leaf_slot pos) fe (put_cell fe e (set_free_end fe li_shift))))).
Lemma li_shift_len : zlen (slice (leaf_slot pos) ((n - pos) * 4) p) = (n - pos) * 4 /\ zlen li_shift = 4096.
Proof using All.
  destruct li_bounds as (Hl & Hn & _). unfold li_shift, leaf_slot, PAGE_HEADER_SIZE, SLOT_SIZE in *.
  assert (zlen (slice (24 + pos * 4) ((n - pos) * 4) p) = (n - pos) * 4) as E by (rewrite zlen_slice; lia).
  split; [exact E|]. rewrite zlen_splice; lia.
Qed.
Definition li_base : bytes := put_cell fe e (set_free_end fe li_shift).
Lemma li_base_len : zlen li_base = 4096 /\ zlen (set_free_end fe li_shift) = 4096.
Proof using All.
  destruct li_bounds as (Hl & Hn & Hb & Hfe). destruct li_shift_len as [Hs1 Hs2].
  assert (zlen (set_free_end fe li_shift) = 4096) as E by (punfold; plen). split; [|exact E].
  unfold li_base. rewrite zlen_put_cell; lia.
Qed.
(** Outside the new cell and [free_end] the bytes are those of the shifted directory. *)
Lemma li_base_slice off m : 0 <= off -> 0 <= m -> off + m <= fe \/ fe + 15 <= off -> off + m <= 12 \/ 14 <= off ->
  slice off m li_base = slice off m li_shift.
Proof using All.
  intros. destruct li_bounds as (Hl & Hn & Hb & Hfe). destruct li_shift_len as [Hs1 Hs2]. destruct li_base_len as [_ He2].
  unfold li_base. rewrite slice_put_cell by lia. unfold set_free_end. rewrite slice_put_u_ne; lia || done.
Qed.
Lemma li_base_get m off : 0 <= off -> 0 <= m -> off + m <= fe -> off + m <= 12 \/ 14 <= off -> get_u m off li_base = get_u m off li_shift.
Proof using All. intros. unfold get_u. rewrite li_base_slice; lia || done. Qed.
Lemma li_shift_get m off : 0 <= off -> 0 <= m -> off + m <= 24 -> get_u m off li_shift = get_u m off p.
Proof using All.
  intros. destruct li_bounds as (Hl & Hn & Hb & Hfe). destruct li_shift_len as [Hs1 Hs2].
  unfold li_shift, leaf_slot, PAGE_HEADER_SIZE, SLOT_SIZE in *. rewrite get_u_splice_ne; lia.
Qed.
Lemma li_base_end : get_u 2 12 li_base = fe.
Proof using All.
  destruct li_bounds as (Hl & Hn & Hb & Hfe). destruct li_shift_len as [Hs1 Hs2]. destruct li_base_len as [_ He2].
  unfold li_base. rewrite get_u_put_cell by lia. unfold set_free_end. by getput.
Qed.
Lemma li_eq : leaf_insert_at p pos e = li_page.
Proof using All.
  destruct li_bounds as (Hl & Hn & Hb & Hfe). destruct li_shift_len as [Hs1 Hs2].
  unfold leaf_insert_at. rewrite (wrap_small 16 (pos + 1)) by lia. change (splice _ (slice _ ((n - pos) * SLOT_SIZE) p) p) with li_shift.
  assert (h_free_end li_shift = 4096 - 15 * n) as -> by (rewrite <- Hfe; unfold h_free_end; rewrite li_shift_get; lia).
  unfold BTREE_CELL_SIZE. rewrite (wrap_small 16 (4096 - 15 * n - 15)) by lia.
  assert (h_free_end (set_free_end fe li_shift) = fe) as -> by (unfold h_free_end, set_free_end; by getput).
  change (put_cell fe e (set_free_end fe li_shift)) with li_base.
  assert (h_free_end li_base = fe) as -> by exact li_base_end.
  unfold li_page. change (put_cell fe e (set_free_end fe li_shift)) with li_base. destruct li_base_len as [Hbl _].
  assert (h_free_begin (put_u 2 (leaf_slot pos + 2) 15 (put_u 2 (leaf_slot pos) fe li_base)) = 24 + 4 * n) as ->.
  { rewrite <- Hb. unfold leaf_slot, PAGE_HEADER_SIZE, SLOT_SIZE, h_free_begin. getput. rewrite li_base_get, li_shift_get; lia. }
  unfold SLOT_SIZE. rewrite !wrap_small by lia. do 2 f_equal. lia.
Qed.
Lemma li_header : zlen li_page = 4096 /\ h_magic li_page = h_magic p /\ h_type li_page = h_type p /\ h_next_page li_page = h_next_page p /\
  h_slot_count li_page = n + 1 /\ h_free_begin li_page = 28 + 4 * n /\ h_free_end li_page = fe.
Proof using All.
  destruct li_bounds as (Hl & Hn & Hb & Hfe). destruct li_base_len as [Hbl _].
  assert (forall m off, 0 <= off -> 0 <= m -> off + m <= 24 -> off + m <= 12 \/ 14 <= off -> get_u m off li_base = get_u m off p) as Hg.
  { intros. rewrite li_base_get, li_shift_get; lia. }
  pose proof li_base_end as Hg2. unfold li_page. change (put_cell fe e (set_free_end fe li_shift)) with li_base.
  unfold leaf_slot. split_and!; punfold; [plen|..]; getput; try (apply Hg; lia); try reflexivity. exact Hg2.
Qed.
Lemma li_bytes : Forall byte_ok li_page.
Proof using All.
  unfold li_page, set_slot_count, set_free_begin, set_free_end. do 4 apply put_u_ok. apply put_cell_ok, put_u_ok.
  apply Forall_splice; [apply Forall_slice|]; apply Hwf.
Qed.
(** Slot [i] of the new page. *)
Lemma li_off i : 0 <= i <= n -> leaf_off li_page i = if i <? pos then leaf_off p i else if i =? pos then fe else leaf_off p (i - 1).
Proof using All.
  intros Hi. destruct li_bounds as (Hl & Hn & Hb & Hfe). destruct li_shift_len as [Hs1 Hs2]. destruct li_base_len as [Hbl _].
  assert (get_u 2 (leaf_slot i) li_base = get_u 2 (leaf_slot i) li_shift) as Hg.
  { unfold leaf_slot, PAGE_HEADER_SIZE, SLOT_SIZE. apply li_base_get; lia. }
  unfold leaf_off, li_page. change (put_cell fe e (set_free_end fe li_shift)) with li_base. unfold set_slot_count, set_free_begin.
  destruct (Z.ltb_spec i pos) as [Hlt|Hge]; [|destruct (Z.eqb_spec i pos) as [->|Hne]].
  - assert (get_u 2 (leaf_slot i) li_shift = get_u 2 (leaf_slot i) p) as E.
    { unfold li_shift, leaf_slot, PAGE_HEADER_SIZE, SLOT_SIZE in *. apply get_u_splice_ne; lia. }
    rewrite <- E, <- Hg. clear Hg E. unfold leaf_slot, PAGE_HEADER_SIZE, SLOT_SIZE in *. by getput.
  - clear Hg. unfold leaf_slot, PAGE_HEADER_SIZE, SLOT_SIZE in *. by getput.
  - assert (get_u 2 (leaf_slot i) li_shift = get_u 2 (leaf_slot (i - 1)) p) as E.
    { unfold get_u. f_equal. unfold li_shift, leaf_slot, PAGE_HEADER_SIZE, SLOT_SIZE in *.
      replace (24 + i * 4) with (24 + (pos + 1) * 4 + (i - pos - 1) * 4) by lia.
      rewrite slice_shift by lia. f_equal. lia. }
    rewrite <- E, <- Hg. clear Hg E. unfold leaf_slot, PAGE_HEADER_SIZE, SLOT_SIZE in *. by getput.
Qed.
Lemma li_page_cell c : fe <= c -> c + 15 <= 4096 -> get_cell li_page c = get_cell li_base c.
Proof using All.
  intros H1 H2. destruct li_bounds as (Hl & Hn & Hb & Hfe). destruct li_base_len as [Hbl _].
  apply get_cell_eq; [lia|]. unfold li_page. change (put_cell fe e (set_free_end fe li_shift)) with li_base.
  unfold leaf_slot, set_slot_count, set_free_begin, PAGE_HEADER_SIZE, SLOT_SIZE. by getput.
Qed.
Lemma li_cell c : fe + 15 <= c -> c + 15 <= 4096 -> get_cell li_page c = get_cell p c.
Proof using All.
  intros H1 H2. destruct li_bounds as (Hl & Hn & Hb & Hfe). destruct li_shift_len as [Hs1 Hs2].
  rewrite li_page_cell by lia. apply get_cell_eq; [lia|]. rewrite li_base_slice by lia.
  unfold li_shift, leaf_slot, PAGE_HEADER_SIZE, SLOT_SIZE in *. rewrite slice_splice_ne; lia || done.
Qed.
Lemma li_new : get_cell li_page fe = e.
Proof using All.
  destruct li_bounds as (Hl & Hn & Hb & Hfe). destruct li_base_len as [_ He2].
  rewrite li_page_cell by lia. unfold li_base. apply get_put_cell; lia || done.
Qed.
Lemma li_entry i : 0 <= i <= n -> leaf_entry li_page i = if i <? pos then leaf_entry p i else if i =? pos then e else leaf_entry p (i - 1).
Proof using All.
  intros Hi. unfold leaf_entry. rewrite li_off by done. destruct li_bounds as (_ & _ & _ & Hfe).
  destruct (Z.ltb_spec i pos); [|destruct (Z.eqb_spec i pos)].
  - destruct (lw_cells _ Hwf i ltac:(lia)) as [H1 H2]. unfold PAGE_SIZE, BTREE_CELL_SIZE in *. apply li_cell; lia.
  - apply li_new.
  - destruct (lw_cells _ Hwf (i - 1) ltac:(lia)) as [H1 H2]. unfold PAGE_SIZE, BTREE_CELL_SIZE in *. apply li_cell; lia.
Qed.
Lemma li_entries : leaf_entries li_page = take (Z.to_nat pos) (leaf_entries p) ++ e :: drop (Z.to_nat pos) (leaf_entries p).
Proof using All.
  destruct li_header as (_ & _ & _ & _ & Hn & _). pose proof (lw_count _ Hwf). unfold leaf_entries at 1. rewrite Hn.
  replace (Z.to_nat (n + 1)) with (S (Z.to_nat n)) by lia. apply fmap_seq_insert; [lia|]. intros k Hk. apply li_entry. lia.
Qed.
Lemma leaf_insert_ok : let p' := leaf_insert_at p pos e in
  leaf_wf p' /\ leaf_entries p' = take (Z.to_nat pos) (leaf_entries p) ++ e :: drop (Z.to_nat pos) (leaf_entries p) /\ h_next_page p' = h_next_page p.
Proof using All.
  cbv zeta. rewrite li_eq. destruct li_header as (H1 & H2 & H3 & H4 & H5 & H6 & H7). destruct li_bounds as (_ & Hn & Hb & Hfe).
  split; [|split; [apply li_entries|exact H4]]. split; rewrite ?H2, ?H3, ?H5, ?H6, ?H7; try apply Hwf; try apply li_bytes;
    unfold PAGE_SIZE, PAGE_HEADER_SIZE, SLOT_SIZE, BTREE_CELL_SIZE; try lia.
  - intros i Hi. rewrite li_off by lia.
    assert (forall j, 0 <= j < n -> fe <= leaf_off p j /\ leaf_off p j + 15 <= 4096) as Hc.
    { intros j Hj. pose proof (lw_cells _ Hwf j Hj). unfold PAGE_SIZE, BTREE_CELL_SIZE in *. lia. }
    destruct (Z.ltb_spec i pos); [apply Hc; lia|]. destruct (Z.eqb_spec i pos); [lia|]. apply Hc. lia.
  - rewrite li_entries. apply Forall_app. split; [apply Forall_take; apply Hwf|]. constructor; [done|]. apply Forall_drop; apply Hwf.
Qed.
End leaf_insert.

(** ** Rebuilding a leaf *)
Lemma leaf_build_loop_ok es : forall p, leaf_wf p -> Forall btree_entry_ok es -> h_slot_count p + zlen es <= LEAF_MAX ->
  let r := leaf_build_loop p (h_slot_count p) es in
  leaf_wf r /\ leaf_entries r = leaf_entries p ++ es /\ h_next_page r = h_next_page p.
Proof.
  induction es as [|e es IH]; intros p Hwf Hes Hmax; cbn [leaf_build_loop]; [by rewrite app_nil_r|].
  apply Forall_cons_1 in Hes as [He Hes]. unfold zlen in *. cbn [length] in Hmax. pose proof (lw_count _ Hwf) as Hc. unfold LEAF_MAX in *.
  destruct (leaf_insert_ok p (h_slot_count p) e Hwf He ltac:(lia) ltac:(unfold LEAF_MAX; lia)) as (H1 & H2 & H3).
  set (q := leaf_insert_at p (h_slot_count p) e) in *.
  assert (leaf_entries q = leaf_entries p ++ [e]) as H4.
  { rewrite H2. rewrite take_ge, drop_ge by (rewrite length_leaf_entries; lia). done. }
  assert (h_slot_count q = h_slot_count p + 1) as Hq.
  { rewrite <- (zlen_leaf_entries q H1), H4, zlen_app, (zlen_leaf_entries p Hwf). done. }
  rewrite wrap_small by lia. rewrite <- Hq. destruct (IH q H1 Hes) as (I1 & I2 & I3); [lia|].
  split_and!; [done| |by rewrite I3]. rewrite I2, H4. by rewrite <- app_assoc.
Qed.
Lemma leaf_build_ok es from to : Forall btree_entry_ok es -> 0 <= from -> to - from <= LEAF_MAX -> from <= to ->
  leaf_wf (leaf_build es from to) /\ leaf_entries (leaf_build es from to) = slice from (to - from) es /\ h_next_page (leaf_build es from to) = 0.
Proof.
  intros Hes H0 H1 H2. destruct leaf_init as (I1 & I2 & I3). unfold leaf_build.
  assert (h_slot_count (init_page MAGIC_BTREE_LEAF PtBTreeLeaf) = 0) as Hn.
  { rewrite <- (zlen_leaf_entries _ I1), I2. done. }
  destruct (leaf_build_loop_ok (slice from (to - from) es) _ I1) as (J1 & J2 & J3).
  - by apply Forall_slice.
  - rewrite Hn. unfold zlen, slice. rewrite length_take. unfold LEAF_MAX in *. lia.
  - rewrite Hn in J1, J2, J3. rewrite I2 in J2. rewrite I3 in J3. done.
Qed.

(** ** The entries of a leaf in order *)
Definition ranks (l : list BTreeEntry) : list Z := erank <$> l.
Definition ordered (l : list BTreeEntry) : Prop := StronglySorted Z.lt (ranks l).
(** The place of a new entry: the first element whose rank is not below (not above) it. *)
Definition splits_at (l : list BTreeEntry) (r : Z) (before after : BTreeEntry -> Prop) : Prop :=
  0 <= r <= zlen l /\ Forall before (take (Z.to_nat r) l) /\ Forall after (drop (Z.to_nat r) l).
Lemma splits_at_lookup l r (before after : BTreeEntry -> Prop) : 0 <= r <= zlen l ->
  (forall i x, l !! i = Some x -> Z.of_nat i < r -> before x) -> (forall i x, l !! i = Some x -> r <= Z.of_nat i -> after x) ->
  splits_at l r before after.
Proof.
  intros Hr H1 H2. split; [done|]. split; apply Forall_lookup; intros i x Hi.
  - apply lookup_take_Some in Hi as [Hi Hlt]. apply (H1 i); [done|lia].
  - rewrite lookup_drop in Hi. apply (H2 _ _ Hi). lia.
Qed.
Lemma splits_at_impl l r (b a b' a' : BTreeEntry -> Prop) : splits_at l r b a ->
  (forall x, x ∈ l -> b x -> b' x) -> (forall x, x ∈ l -> a x -> a' x) -> splits_at l r b' a'.
Proof.
  intros (H1 & H2 & H3) Hb Ha. split; [done|]. rewrite list.Forall_forall in H2, H3. split; apply list.Forall_forall; intros x Hx.
  - apply Hb; [by apply (subseteq_take (Z.to_nat r))|by apply H2].
  - apply Ha; [by apply (subseteq_drop (Z.to_nat r))|by apply H3].
Qed.
Lemma ordered_lookup l i j x y : ordered l -> (i < j)%nat -> l !! i = Some x -> l !! j = Some y -> erank x < erank y.
Proof.
  unfold ordered, ranks. intros Hs Hij Hi Hj. rewrite <- (take_drop_middle l i x Hi), fmap_app, fmap_cons in Hs.
  apply StronglySorted_app_1_r in Hs. apply StronglySorted_inv in Hs as [_ Hs]. rewrite list.Forall_forall in Hs. apply Hs.
  apply list_elem_of_fmap_2, list_elem_of_lookup. exists (j - S i)%nat. rewrite lookup_drop, <- Hj. f_equal. lia.
Qed.
Lemma bsearch_splits l (right : BTreeEntry -> bool) n (get : Z -> BTreeEntry) :
  n = zlen l -> n < 65536 -> (forall i, l !! i = if decide (Z.of_nat i < n) then Some (get (Z.of_nat i)) else None) ->
  (forall i j x y, (i < j)%nat -> l !! i = Some x -> l !! j = Some y -> right y = true -> right x = true) ->
  splits_at l (bsearch (S (Z.to_nat n)) (fun i => right (get i)) 0 n) (fun x => right x = true) (fun x => right x = false).
Proof.
  intros Hn Hmax Hget Hmono. unfold zlen in Hn.
  assert (forall i, 0 <= i < n -> l !! Z.to_nat i = Some (get i)) as Hg.
  { intros i Hi. rewrite Hget, decide_True by lia. by rewrite Z2Nat.id by lia. }
  destruct (bsearch_spec (S (Z.to_nat n)) (fun i => right (get i)) 0 n) as (H1 & H2 & H3); try lia.
  { intros i j Hi Hj Hr. destruct (decide (i = j)) as [->|]; [done|].
    apply (Hmono (Z.to_nat i) (Z.to_nat j) (get i) (get j)); [lia|apply Hg; lia|apply Hg; lia|done]. }
  apply splits_at_lookup; [unfold zlen; lia|intros i x Hi Hlt; rewrite Hget in Hi; case_decide; [|done]; injection Hi as <-; [apply H2; lia]..|].
  intros i x Hi Hle. rewrite Hget in Hi. case_decide; [|done]. injection Hi as <-. apply H3. lia.
Qed.
Lemma leaf_lower_bound_spec p e : leaf_wf p -> ordered (leaf_entries p) -> btree_entry_ok e ->
  splits_at (leaf_entries p) (leaf_lower_bound p e) (fun x => erank x < erank e) (fun x => erank e <= erank x).
Proof.
  intros Hwf Ho He. unfold leaf_lower_bound. pose proof (leaf_count_max p Hwf). pose proof (lw_entries _ Hwf) as Hok. unfold LEAF_MAX in *.
  rewrite list.Forall_forall in Hok. eapply splits_at_impl; [apply (bsearch_splits (leaf_entries p) (fun x => entry_cmp x e <? 0) (h_slot_count p) (leaf_entry p))|..].
  - by rewrite zlen_leaf_entries.
  - lia.
  - intros i. apply leaf_entries_lookup.
  - intros i j x y Hij Hi Hj. pose proof (ordered_lookup _ i j x y Ho Hij Hi Hj).
    rewrite !entry_cmp_lt by (done || (apply Hok; by eapply list_elem_of_lookup_2)). lia.
  - intros x Hx. cbv beta. rewrite entry_cmp_lt by (done || by apply Hok). lia.
  - intros x Hx. cbv beta. rewrite entry_cmp_lt by (done || by apply Hok). lia.
Qed.

(** * Internal nodes as lists *)
Definition NODE_MAX : Z := 214.
Definition node_seps (p : bytes) : list BTreeEntry := (fun i => node_sep p (Z.of_nat i)) <$> seq 0 (Z.to_nat (h_slot_count p)).
Definition node_children (p : bytes) : list Z := (fun j => node_child p (Z.of_nat j)) <$> seq 0 (S (Z.to_nat (h_slot_count p))).
Record node_wf (p : bytes) : Prop := {
  nw_len : zlen p = PAGE_SIZE;
  nw_bytes : Forall byte_ok p;
  nw_magic : h_magic p = MAGIC_BTREE_LEAF;
  nw_type : h_type p = page_type_code PtBTreeInternal;
  nw_begin : h_free_begin p = PAGE_HEADER_SIZE + BTREE_CELL_SIZE * h_slot_count p;
  nw_end : h_free_end p = PAGE_SIZE - 4 * (h_slot_count p + 1);
  nw_count : 0 <= h_slot_count p <= NODE_MAX;
  nw_seps : Forall btree_entry_ok (node_seps p) }.
Lemma zlen_node_seps p : node_wf p -> zlen (node_seps p) = h_slot_count p.
Proof. intros H. pose proof (nw_count _ H). unfold zlen, node_seps. rewrite length_fmap, length_seq. lia. Qed.
Lemma zlen_node_children p : node_wf p -> zlen (node_children p) = h_slot_count p + 1.
Proof. intros H. pose proof (nw_count _ H). unfold zlen, node_children. rewrite length_fmap, length_seq. lia. Qed.
Lemma node_free_space p : node_wf p -> free_space p = 4068 - 19 * h_slot_count p.
Proof.
  intros []. unfold free_space, NODE_MAX, PAGE_HEADER_SIZE, PAGE_SIZE, SLOT_SIZE, BTREE_CELL_SIZE in *. rewrite wrap_small; lia.
Qed.
Lemma node_child_bound p j : node_wf p -> 0 <= j <= h_slot_count p -> 0 <= node_child p j < 2 ^ 32.
Proof.
  intros [] Hj. unfold node_child, node_ptr, NODE_MAX, PAGE_SIZE in *. apply (get_u_bound 4); try lia. done.
Qed.

(** ** Insertion into an internal node *)
Section node_insert.
Context (p : bytes) (i : Z) (sep : BTreeEntry) (right : Z) (Hwf : node_wf p) (He : btree_entry_ok sep).
Context (Hi : 0 <= i <= h_slot_count p) (Hr : 0 <= right < 2 ^ 32) (Hroom : h_slot_count p < NODE_MAX).
Notation n := (h_slot_count p).
Lemma ni_bounds : zlen p = 4096 /\ 0 <= n < 214 /\ h_free_begin p = 24 + 15 * n /\ h_free_end p = 4092 - 4 * n.
Proof using Hwf Hroom.
  destruct Hwf. unfold NODE_MAX, PAGE_HEADER_SIZE, PAGE_SIZE, SLOT_SIZE, BTREE_CELL_SIZE in *. split_and!; lia.
Qed.
Definition ni_shift1 : bytes := splice (24 + (i + 1) * 15) (slice (24 + i * 15) ((n - i) * 15) p) p.
Definition ni_shift : bytes := splice (4096 - (n + 2) * 4) (slice (4096 - (n + 1) * 4) ((n - i) * 4) ni_shift1) ni_shift1.
Definition ni_base : bytes := put_u 4 (4096 - (i + 2) * 4) right (put_cell (24 + i * 15) sep ni_shift).
Definition ni_page : bytes := set_slot_count (n + 1) (set_free_end (4088 - 4 * n) (set_free_begin (39 + 15 * n) ni_base)).
Lemma ni_lens : zlen (slice (24 + i * 15) ((n - i) * 15) p) = (n - i) * 15 /\ zlen ni_shift1 = 4096 /\
  zlen (slice (4096 - (n + 1) * 4) ((n - i) * 4) ni_shift1) = (n - i) * 4 /\ zlen ni_shift = 4096 /\
  zlen (put_cell (24 + i * 15) sep ni_shift) = 4096 /\ zlen ni_base = 4096.
Proof using All.
  destruct ni_bounds as (Hl & Hn & _).
  assert (zlen (slice (24 + i * 15) ((n - i) * 15) p) = (n - i) * 15) as E1 by (rewrite zlen_slice; lia).
  assert (zlen ni_shift1 = 4096) as E2 by (unfold ni_shift1; rewrite zlen_splice; lia).
  assert (zlen (slice (4096 - (n + 1) * 4) ((n - i) * 4) ni_shift1) = (n - i) * 4) as E3 by (rewrite zlen_slice; lia).
  assert (zlen ni_shift = 4096) as E4 by (unfold ni_shift; rewrite zlen_splice; lia).
  assert (zlen (put_cell (24 + i * 15) sep ni_shift) = 4096) as E5 by (rewrite zlen_put_cell; lia).
  split_and!; try done. unfold ni_base. rewrite zlen_put_u; lia.
Qed.
(** The header is untouched. *)
Lemma ni_base_header m off : 0 <= off -> 0 <= m -> off + m <= 24 -> get_u m off ni_base = get_u m off p.
Proof using All.
  intros. destruct ni_bounds as (Hl & Hn & _). destruct ni_lens as (E1 & E2 & E3 & E4 & E5 & E6).
  unfold ni_base. rewrite get_put_u_ne by lia. rewrite get_u_put_cell by lia.
  unfold ni_shift. rewrite get_u_splice_ne by lia. unfold ni_shift1. rewrite get_u_splice_ne; lia.
Qed.
Lemma ni_eq : node_insert_at p i sep right = ni_page.
Proof using All.
  destruct ni_bounds as (Hl & Hn & Hb & Hfe). destruct ni_lens as (E1 & E2 & E3 & E4 & E5 & E6). unfold node_insert_at.
  change (splice (node_cell (i + 1)) _ p) with ni_shift1.
  unfold node_ptr, PAGE_SIZE. replace (n + 1 + 1) with (n + 2) by lia.
  change (splice (4096 - (n + 2) * 4) (slice _ _ ni_shift1) ni_shift1) with ni_shift. unfold set_node_child. rewrite (wrap_small 16 (i + 1)) by lia.
  unfold node_ptr, PAGE_SIZE. replace (i + 1 + 1) with (i + 2) by lia.
  change (put_u 4 _ right (set_node_sep i sep ni_shift)) with ni_base.
  assert (h_free_begin ni_base = 24 + 15 * n) as -> by (rewrite <- Hb; apply ni_base_header; lia).
  assert (h_free_end (set_free_begin (wrap 16 (24 + 15 * n + BTREE_CELL_SIZE)) ni_base) = 4092 - 4 * n) as ->.
  { rewrite <- Hfe. unfold h_free_end, set_free_begin. rewrite get_put_u_ne by lia. apply ni_base_header; lia. }
  unfold ni_page, BTREE_CELL_SIZE. rewrite !wrap_small by lia.
  replace (24 + 15 * n + 15) with (39 + 15 * n) by lia. replace (4092 - 4 * n - 4) with (4088 - 4 * n) by lia. reflexivity.
Qed.
Lemma ni_page_slice off m : 24 <= off -> 0 <= m -> slice off m ni_page = slice off m ni_base.
Proof using All.
  intros. destruct ni_lens as (E1 & E2 & E3 & E4 & E5 & E6).
  unfold ni_page, set_slot_count, set_free_end, set_free_begin. by getput.
Qed.
Lemma ni_header : zlen ni_page = 4096 /\ h_magic ni_page = h_magic p /\ h_type ni_page = h_type p /\
  h_slot_count ni_page = n + 1 /\ h_free_begin ni_page = 39 + 15 * n /\ h_free_end ni_page = 4088 - 4 * n.
Proof using All.
  destruct ni_bounds as (Hl & Hn & Hb & Hfe). destruct ni_lens as (E1 & E2 & E3 & E4 & E5 & E6). pose proof ni_base_header as Hg.
  unfold ni_page. split_and!; punfold; [plen|..]; getput; try (apply Hg; lia); reflexivity.
Qed.
Lemma ni_bytes : Forall byte_ok ni_page.
Proof using All.
  unfold ni_page, set_slot_count, set_free_begin, set_free_end, ni_base. do 4 apply put_u_ok. apply put_cell_ok. pose proof (nw_bytes _ Hwf).
  assert (Forall byte_ok ni_shift1) by (unfold ni_shift1; apply Forall_splice; [by apply Forall_slice|done]).
  unfold ni_shift. apply Forall_splice; [by apply Forall_slice|done].
Qed.
Lemma ni_sep k : 0 <= k <= n -> node_sep ni_page k = if k <? i then node_sep p k else if k =? i then sep else node_sep p (k - 1).
Proof using All.
  intros Hk. destruct ni_bounds as (Hl & Hn & Hb & Hfe). destruct ni_lens as (E1 & E2 & E3 & E4 & E5 & E6).
  unfold node_sep, node_cell, PAGE_HEADER_SIZE, BTREE_CELL_SIZE.
  assert (get_cell ni_page (24 + k * 15) = get_cell (put_cell (24 + i * 15) sep ni_shift) (24 + k * 15)) as ->.
  { apply get_cell_eq; [lia|]. rewrite ni_page_slice by lia. unfold ni_base. rewrite slice_put_u_ne by lia. done. }
  assert (k <> i -> get_cell (put_cell (24 + i * 15) sep ni_shift) (24 + k * 15) = get_cell ni_shift1 (24 + k * 15)) as Hs.
  { intros Hne. apply get_cell_eq; [lia|]. rewrite slice_put_cell by lia. unfold ni_shift. rewrite slice_splice_ne; lia || done. }
  destruct (Z.ltb_spec k i) as [Hlt|Hge]; [|destruct (Z.eqb_spec k i) as [->|Hne]].
  - rewrite Hs by lia. apply get_cell_eq; [lia|]. unfold ni_shift1. rewrite slice_splice_ne; lia || done.
  - apply get_put_cell; lia || done.
  - rewrite Hs by lia. apply get_cell_move; [lia..|]. unfold ni_shift1.
    replace (24 + k * 15) with (24 + (i + 1) * 15 + (k - i - 1) * 15) by lia.
    replace (24 + (k - 1) * 15) with (24 + i * 15 + (k - i - 1) * 15) by lia. apply slice_shift; lia.
Qed.
Lemma ni_child k : 0 <= k <= n + 1 -> node_child ni_page k = if k <? i + 1 then node_child p k else if k =? i + 1 then right else node_child p (k - 1).
Proof using All.
  intros Hk. destruct ni_bounds as (Hl & Hn & Hb & Hfe). destruct ni_lens as (E1 & E2 & E3 & E4 & E5 & E6).
  unfold node_child, node_ptr, PAGE_SIZE.
  assert (get_u 4 (4096 - (k + 1) * 4) ni_page = get_u 4 (4096 - (k + 1) * 4) ni_base) as ->.
  { apply get_u_slice_eq, ni_page_slice; lia. }
  assert (forall off, 4096 - (n + 2) * 4 <= off -> get_u 4 off ni_shift1 = get_u 4 off p) as H1.
  { intros off Ho. unfold ni_shift1. apply get_u_splice_ne; lia. }
  assert (k <> i + 1 -> get_u 4 (4096 - (k + 1) * 4) ni_base = get_u 4 (4096 - (k + 1) * 4) ni_shift) as Hs.
  { intros Hne. unfold ni_base. rewrite get_put_u_ne by lia. apply get_u_put_cell; lia. }
  destruct (Z.ltb_spec k (i + 1)) as [Hlt|Hge]; [|destruct (Z.eqb_spec k (i + 1)) as [->|Hne]].
  - rewrite Hs by lia. rewrite <- H1 by lia. unfold ni_shift. apply get_u_splice_ne; lia.
  - unfold ni_base. replace (i + 1 + 1) with (i + 2) by lia. apply get_put_u; lia.
  - rewrite Hs by lia. rewrite <- H1 by lia. unfold get_u. f_equal. unfold ni_shift.
    replace (4096 - (k + 1) * 4) with (4096 - (n + 2) * 4 + (n + 1 - k) * 4) by lia.
    replace (4096 - (k - 1 + 1) * 4) with (4096 - (n + 1) * 4 + (n + 1 - k) * 4) by lia. apply slice_shift; lia.
Qed.
Lemma node_insert_ok : let p' := node_insert_at p i sep right in
  node_wf p' /\ node_seps p' = take (Z.to_nat i) (node_seps p) ++ sep :: drop (Z.to_nat i) (node_seps p) /\
  node_children p' = take (Z.to_nat (i + 1)) (node_children p) ++ right :: drop (Z.to_nat (i + 1)) (node_children p).
Proof using All.
  cbv zeta. rewrite ni_eq. destruct ni_bounds as (_ & Hn & Hb & Hfe). destruct ni_header as (H1 & H2 & H3 & H4 & H5 & H6).
  assert (node_seps ni_page = take (Z.to_nat i) (node_seps p) ++ sep :: drop (Z.to_nat i) (node_seps p)) as Hseps.
  { unfold node_seps at 1. rewrite H4. replace (Z.to_nat (n + 1)) with (S (Z.to_nat n)) by lia.
    apply fmap_seq_insert; [lia|]. intros k Hk. apply ni_sep. lia. }
  split_and!; [|exact Hseps|].
  - split; rewrite ?H2, ?H3, ?H4, ?H5, ?H6; try apply Hwf; try apply ni_bytes;
      unfold PAGE_SIZE, PAGE_HEADER_SIZE, SLOT_SIZE, BTREE_CELL_SIZE, NODE_MAX; try lia.
    rewrite Hseps. apply Forall_app. split; [apply Forall_take; apply Hwf|]. constructor; [done|]. apply Forall_drop; apply Hwf.
  - unfold node_children at 1. rewrite H4. replace (S (Z.to_nat (n + 1))) with (S (S (Z.to_nat n))) by lia.
    apply fmap_seq_insert; [lia|]. intros k Hk. apply ni_child. lia.
Qed.
End node_insert.

(** ** Rebuilding an internal node *)
Section node_fields.
Context (p : bytes) (Hl : zlen p = 4096).
Lemma sep_set_sep i k e : 0 <= i < 214 -> 0 <= k < 214 -> btree_entry_ok e ->
  node_sep (set_node_sep i e p) k = if k =? i then e else node_sep p k.
Proof using Hl.
  intros. unfold node_sep, set_node_sep, node_cell, PAGE_HEADER_SIZE, BTREE_CELL_SIZE. destruct (Z.eqb_spec k i) as [->|].
  - apply get_put_cell; lia || done.
  - apply get_cell_eq; [lia|]. apply slice_put_cell; lia.
Qed.
Lemma sep_set_child i k c : 0 <= i <= 214 -> 0 <= k < 214 -> node_sep (set_node_child i c p) k = node_sep p k.
Proof using Hl.
  intros. unfold node_sep, set_node_child, node_cell, node_ptr, PAGE_SIZE, PAGE_HEADER_SIZE, BTREE_CELL_SIZE.
  apply get_cell_eq; [lia|]. apply slice_put_u_ne; lia.
Qed.
Lemma child_set_sep i k e : 0 <= i < 214 -> 0 <= k <= 214 -> node_child (set_node_sep i e p) k = node_child p k.
Proof using Hl.
  intros. unfold node_child, set_node_sep, node_cell, node_ptr, PAGE_SIZE, PAGE_HEADER_SIZE, BTREE_CELL_SIZE.
  apply get_u_put_cell; lia.
Qed.
Lemma child_set_child i k c : 0 <= i <= 214 -> 0 <= k <= 214 -> 0 <= c < 2 ^ 32 ->
  node_child (set_node_child i c p) k = if k =? i then c else node_child p k.
Proof using Hl.
  intros. unfold node_child, set_node_child, node_ptr, PAGE_SIZE. destruct (Z.eqb_spec k i) as [->|].
  - apply get_put_u; lia.
  - apply get_put_u_ne; lia.
Qed.
Lemma set_sep_keeps i e : 0 <= i < 214 -> zlen (set_node_sep i e p) = 4096 /\ slice 0 24 (set_node_sep i e p) = slice 0 24 p.
Proof using Hl.
  intros. unfold set_node_sep, node_cell, PAGE_HEADER_SIZE, BTREE_CELL_SIZE. split; [rewrite zlen_put_cell; lia|apply slice_put_cell; lia].
Qed.
Lemma set_child_keeps i c : 0 <= i <= 214 -> zlen (set_node_child i c p) = 4096 /\ slice 0 24 (set_node_child i c p) = slice 0 24 p.
Proof using Hl.
  intros. unfold set_node_child, node_ptr, PAGE_SIZE. split; [rewrite zlen_put_u; lia|apply slice_put_u_ne; lia].
Qed.
End node_fields.
Lemma node_build_loop_ok seps : forall children i p, zlen p = 4096 -> Forall byte_ok p -> 0 <= i -> i + zlen seps <= 214 ->
  length children = length seps -> Forall btree_entry_ok seps -> Forall (fun c => 0 <= c < 2 ^ 32) children ->
  let r := node_build_loop p i seps children in
  zlen r = 4096 /\ Forall byte_ok r /\ slice 0 24 r = slice 0 24 p /\
  (forall k, 0 <= k < i -> node_sep r k = node_sep p k /\ node_child r k = node_child p k) /\
  (forall j e, seps !! j = Some e -> node_sep r (i + Z.of_nat j) = e) /\
  (forall j c, children !! j = Some c -> node_child r (i + Z.of_nat j) = c).
Proof.
  induction seps as [|e seps IH]; intros [|c children] i p Hl Hb Hi Hmax Hlen Hs Hc; try discriminate; cbn [node_build_loop].
  { split_and!; done. }
  apply Forall_cons_1 in Hs as [He Hs]. apply Forall_cons_1 in Hc as [Hc Hcs]. unfold zlen in Hmax. cbn [length] in *.
  destruct (set_sep_keeps p Hl i e ltac:(lia)) as [K1 K2]. destruct (set_child_keeps _ K1 i c ltac:(lia)) as [K3 K4].
  set (q := set_node_child i c (set_node_sep i e p)) in *. rewrite wrap_small by lia.
  assert (Forall byte_ok q) as Hq by (unfold q, set_node_child, set_node_sep; by apply put_u_ok, put_cell_ok).
  destruct (IH children (i + 1) q) as (I1 & I2 & I3 & I4 & I5 & I6); try done; try (unfold zlen; lia).
  assert (forall k, 0 <= k <= i -> node_sep q k = (if k =? i then e else node_sep p k) /\ node_child q k = (if k =? i then c else node_child p k)) as Hq2.
  { intros k Hk. unfold q. rewrite sep_set_child, sep_set_sep, child_set_child, child_set_sep by (done || lia). done. }
  split_and!; [done|done|by rewrite I3, K4, K2|..].
  - intros k Hk. destruct (I4 k ltac:(lia)) as [-> ->], (Hq2 k ltac:(lia)) as [-> ->]. destruct (Z.eqb_spec k i); [lia|done].
  - intros [|j] x Hj; cbn in Hj.
    + injection Hj as <-. rewrite Z.add_0_r. destruct (I4 i ltac:(lia)) as [-> _], (Hq2 i ltac:(lia)) as [-> _]. by rewrite Z.eqb_refl.
    + rewrite <- (I5 j x Hj). f_equal. lia.
  - intros [|j] x Hj; cbn in Hj.
    + injection Hj as <-. rewrite Z.add_0_r. destruct (I4 i ltac:(lia)) as [_ ->], (Hq2 i ltac:(lia)) as [_ ->]. by rewrite Z.eqb_refl.
    + rewrite <- (I6 j x Hj). f_equal. lia.
Qed.
(** A list read field by field. *)
Lemma fields_eq {A} (f : Z -> A) (l : list A) n : length l = n -> (forall j x, l !! j = Some x -> f (Z.of_nat j) = x) ->
  (fun i => f (Z.of_nat i)) <$> seq 0 n = l.
Proof.
  intros Hl H. apply list_eq. intros i. rewrite lookup_fmap_seq. case_decide as Hd.
  - destruct (lookup_lt_is_Some_2 l i) as [x Hx]; [lia|]. rewrite Hx. f_equal. by apply H.
  - symmetry. apply lookup_ge_None_2. lia.
Qed.
Lemma lookup_slice_2 {A} off n (l : list A) j x : 0 <= off -> slice off n l !! j = Some x -> l !! (Z.to_nat off + j)%nat = Some x /\ Z.of_nat j < n.
Proof. unfold slice. intros H0 [H Hj]%lookup_take_Some. rewrite lookup_drop in H. split; [done|lia]. Qed.
Lemma node_build_ok seps children from to : Forall btree_entry_ok seps -> Forall (fun c => 0 <= c < 2 ^ 32) children ->
  zlen children = zlen seps + 1 -> 0 <= from -> from <= to -> to <= zlen seps -> to - from <= NODE_MAX ->
  node_wf (node_build seps children from to) /\ node_seps (node_build seps children from to) = slice from (to - from) seps /\
  node_children (node_build seps children from to) = slice from (to - from + 1) children.
Proof.
  intros Hs Hc Hlen H0 H1 H2 H3. unfold NODE_MAX in H3. set (m := to - from) in *.
  destruct (init_page_header MAGIC_BTREE_LEAF PtBTreeInternal ltac:(done)) as (P1 & P2 & P3 & P4 & P5 & P6 & P7 & P8).
  unfold node_build. fold m. set (q := init_page MAGIC_BTREE_LEAF PtBTreeInternal) in *. unfold PAGE_SIZE in P7.
  assert (zlen (slice from m seps) = m) as L1 by (rewrite zlen_slice; lia). assert (zlen (slice from m children) = m) as L2 by (rewrite zlen_slice; lia).
  destruct (node_build_loop_ok (slice from m seps) (slice from m children) 0 q P7 P8) as (B1 & B2 & B3 & _ & B5 & B6).
  { lia. } { lia. } { unfold zlen in L1, L2. lia. } { by apply Forall_slice. } { by apply Forall_slice. }
  set (r := node_build_loop q 0 _ _) in *. rewrite (wrap_small 16 m) by lia.
  destruct (nth_lookup_or_length children (Z.to_nat to) 0) as [Hlast|Hbad]; [|unfold zlen in *; lia].
  set (last := nth (Z.to_nat to) children 0) in *. assert (0 <= last < 2 ^ 32) as Hlb by (eapply (Forall_lookup_1 _ _ _ _ Hc); exact Hlast).
  destruct (set_child_keeps r B1 m last ltac:(lia)) as [C1 C2]. set (r' := set_node_child m last r) in *.
  unfold PAGE_HEADER_SIZE, PAGE_SIZE, BTREE_CELL_SIZE. rewrite !wrap_small by lia.
  assert (forall off k, 0 <= off -> 0 <= k -> off + k <= 24 -> get_u k off r' = get_u k off q) as Hh.
  { intros off k ? ? ?. unfold get_u. pose proof (slice_slice 0 24 off k r') as S1. pose proof (slice_slice 0 24 off k q) as S2.
    rewrite Z.add_0_l in S1, S2. rewrite <- S1, <- S2 by lia. by rewrite C2, B3. }
  set (z := set_slot_count m _).
  assert (forall off k, 24 <= off -> 0 <= k -> slice off k z = slice off k r') as Hz.
  { intros off k ? ?. unfold z, set_slot_count, set_free_end, set_free_begin. by getput. }
  assert (zlen z = 4096 /\ h_magic z = h_magic q /\ h_type z = h_type q /\ h_slot_count z = m /\ h_free_begin z = 24 + m * 15 /\
    h_free_end z = 4096 - (m + 1) * 4) as (Z1 & Z2 & Z3 & Z4 & Z5 & Z6).
  { clear Hz. unfold z. split_and!; punfold; [plen|..]; getput; try (apply Hh; lia); reflexivity. }
  assert (forall k, 0 <= k < 214 -> node_sep z k = node_sep r k) as Zs.
  { intros k Hk. unfold r'. rewrite <- (sep_set_child r B1 m k last) by lia. apply get_cell_eq; [unfold node_cell, PAGE_HEADER_SIZE, BTREE_CELL_SIZE; lia|].
    apply Hz; unfold node_cell, PAGE_HEADER_SIZE, BTREE_CELL_SIZE; lia. }
  assert (forall k, 0 <= k <= 214 -> node_child z k = if k =? m then last else node_child r k) as Zc.
  { intros k Hk. rewrite <- (child_set_child r B1 m k last) by lia. fold r'. apply get_u_slice_eq, Hz; unfold node_ptr, PAGE_SIZE; lia. }
  assert (node_seps z = slice from m seps) as Hseps.
  { unfold node_seps. rewrite Z4. apply fields_eq; [unfold zlen in L1; lia|]. intros j x Hj.
    pose proof (lookup_slice_2 _ _ _ _ _ H0 Hj) as [_ ?]. rewrite Zs by lia. rewrite <- (B5 j x Hj). f_equal. }
  split_and!; [|done|].
  - split; rewrite ?Z2, ?Z3, ?Z4, ?Z5, ?Z6; unfold PAGE_SIZE, PAGE_HEADER_SIZE, BTREE_CELL_SIZE, NODE_MAX; try done; try lia.
    + unfold z, set_slot_count, set_free_end, set_free_begin, r', set_node_child. by repeat apply put_u_ok.
    + rewrite Hseps. by apply Forall_slice.
  - unfold node_children. rewrite Z4. apply fields_eq.
    { assert (zlen (slice from (m + 1) children) = m + 1) as L3 by (rewrite zlen_slice; lia). unfold zlen in L3. lia. }
    intros j x Hj. apply lookup_slice_2 in Hj as [Hj Hjm]; [|lia]. rewrite Zc by lia. destruct (Z.eqb_spec (Z.of_nat j) m) as [He|Hne].
    + replace (Z.to_nat from + j)%nat with (Z.to_nat to) in Hj by lia. congruence.
    + rewrite <- (B6 j x); [f_equal|]. unfold slice. rewrite lookup_take_lt by lia. by rewrite lookup_drop.
Qed.
Lemma nodes_ordered_index p e : node_wf p -> ordered (node_seps p) -> btree_entry_ok e ->
  splits_at (node_seps p) (node_child_index p e) (fun x => erank x <= erank e) (fun x => erank e < erank x).
Proof.
  intros Hwf Ho He. unfold node_child_index. pose proof (nw_count _ Hwf) as Hc. pose proof (nw_seps _ Hwf) as Hok. unfold NODE_MAX in *.
  rewrite list.Forall_forall in Hok. eapply splits_at_impl; [apply (bsearch_splits (node_seps p) (fun x => entry_cmp x e <=? 0) (h_slot_count p) (node_sep p))|..].
  - by rewrite zlen_node_seps.
  - lia.
  - intros i. unfold node_seps. rewrite lookup_fmap_seq. repeat case_decide; done || lia.
  - intros i j x y Hij Hi Hj. pose proof (ordered_lookup _ i j x y Ho Hij Hi Hj).
    rewrite !entry_cmp_le by (done || (apply Hok; by eapply list_elem_of_lookup_2)). lia.
  - intros x Hx. cbv beta. rewrite entry_cmp_le by (done || by apply Hok). lia.
  - intros x Hx. cbv beta. rewrite entry_cmp_le by (done || by apply Hok). lia.
Qed.

(** * The checksum and the chain *)
(** A page with the same header, [next_page] and checksum apart, and the same body. *)
Record same_node (p q : bytes) : Prop := {
  sn_len : zlen q = zlen p;
  sn_header : h_magic q = h_magic p /\ h_type q = h_type p /\ h_slot_count q = h_slot_count p /\
    h_free_begin q = h_free_begin p /\ h_free_end q = h_free_end p;
  sn_body off n : 24 <= off -> slice off n q = slice off n p;
  sn_bytes : Forall byte_ok p -> Forall byte_ok q }.
Lemma same_node_leaf p q : same_node p q -> leaf_wf p -> leaf_wf q /\ leaf_entries q = leaf_entries p.
Proof.
  intros [Hl (H1 & H2 & H3 & H4 & H5) Hb Hby] [].
  assert (forall i, 0 <= i -> leaf_off q i = leaf_off p i) as Ho.
  { intros i Hi. apply get_u_slice_eq, Hb. unfold leaf_slot, PAGE_HEADER_SIZE, SLOT_SIZE. lia. }
  assert (leaf_entries q = leaf_entries p) as He.
  { unfold leaf_entries. rewrite H3. apply list_eq. intros i. rewrite !lookup_fmap_seq. case_decide; [|done]. f_equal.
    unfold leaf_entry. rewrite Ho by lia. destruct (lw_cells0 (Z.of_nat i)) as [Hc _]; [lia|].
    assert (24 <= leaf_off p (Z.of_nat i)) by (unfold PAGE_HEADER_SIZE, SLOT_SIZE in *; lia). apply get_cell_eq; [lia|]. apply Hb. lia. }
  split; [|done]. split; rewrite ?H1, ?H2, ?H3, ?H4, ?H5, ?Hl, ?He; auto. intros i Hi. rewrite Ho by lia. auto.
Qed.
Lemma same_node_node p q : same_node p q -> node_wf p -> node_wf q /\ node_seps q = node_seps p /\ node_children q = node_children p.
Proof.
  intros [Hl (H1 & H2 & H3 & H4 & H5) Hb Hby] []. unfold NODE_MAX in *.
  assert (node_seps q = node_seps p) as He.
  { unfold node_seps. rewrite H3. apply list_eq. intros i. rewrite !lookup_fmap_seq. case_decide; [|done]. f_equal.
    apply get_cell_eq; [|apply Hb]; unfold node_cell, PAGE_HEADER_SIZE, BTREE_CELL_SIZE; lia. }
  split_and!; [|done|].
  - split; rewrite ?H1, ?H2, ?H3, ?H4, ?H5, ?Hl, ?He; auto.
  - unfold node_children. rewrite H3. apply list_eq. intros i. rewrite !lookup_fmap_seq. case_decide; [|done]. f_equal.
    apply get_u_slice_eq, Hb. unfold node_ptr, PAGE_SIZE. lia.
Qed.
Lemma seal_same_node p : 24 <= zlen p -> same_node p (seal p) /\ h_next_page (seal p) = h_next_page p.
Proof.
  intros Hl. destruct (seal_reads p Hl) as (H1 & H2 & H3 & H4 & H5 & H6 & H7 & H8). split; [|exact H6]. split; [exact H7|by split_and!|intros off n Ho; by apply H8|].
  unfold seal, set_checksum. apply put_u_ok.
Qed.
Lemma set_next_same_node v p : 24 <= zlen p -> 0 <= v < 2 ^ 32 -> same_node p (set_next_page v p) /\ h_next_page (set_next_page v p) = v.
Proof.
  intros Hl Hv. split; [split|].
  - punfold. plen.
  - split_and!; punfold; by getput.
  - intros. punfold. by getput.
  - unfold set_next_page. apply put_u_ok.
  - punfold. by getput.
Qed.
Lemma same_node_trans p q r : same_node p q -> same_node q r -> same_node p r.
Proof.
  intros [L1 (A1 & A2 & A3 & A4 & A5) B1 C1] [L2 (A1' & A2' & A3' & A4' & A5') B2 C2].
  split; [congruence|split_and!; congruence| |auto]. intros off n Ho. by rewrite B2, B1.
Qed.
