(* ===== verification/Pool.v ===== *)
(** The buffer pool (src/storage/buffer_pool.cpp): frames, clock eviction, the log of page diffs and
    the rollback of a byte range; its refinement to a map of pages, and the exactness of the diffs. *)
From S2P Require Import Prelude Types Page Wal Disk Recovery State.

(** * State *)
Record PageFrame := mkFrame {
  fpage : PageId; valid : bool; dirty : bool; fref : bool; pin : Z; fdata : bytes; before : bytes }.
Definition empty_frame : PageFrame := mkFrame INVALID_PAGE false false false 0 zero_page zero_page.
Record UndoEntry := mkUndo { u_fid : Z; u_page : Z; u_off : Z; u_len : Z; u_before : bytes }.
Record TailUndo := mkTail { t_fid : Z; had : bool; old_tail : Z }.
Record TxnContext := mkTxn {
  txn_id : Z; wrote : bool; undo : list UndoEntry; tail_undo : list TailUndo; pending_drops : list Z }.

(** The pool with what it refers to: the files, the log and the transaction context the engine owns.
    [attached] is the pool's pointer to that context, set or null. *)
Record Store := mkStore {
  disk : gmap Z bytes; wal : Wal; frames : list PageFrame; page_table : gmap PageId nat; clock_hand : nat;
  ctx : option TxnContext; attached : bool }.

Definition set_disk (d : gmap Z bytes) (s : Store) : Store :=
  mkStore d (wal s) (frames s) (page_table s) (clock_hand s) (ctx s) (attached s).
Definition set_wal (w : Wal) (s : Store) : Store :=
  mkStore (disk s) w (frames s) (page_table s) (clock_hand s) (ctx s) (attached s).
Definition set_frames (fs : list PageFrame) (s : Store) : Store :=
  mkStore (disk s) (wal s) fs (page_table s) (clock_hand s) (ctx s) (attached s).
Definition set_table (t : gmap PageId nat) (s : Store) : Store :=
  mkStore (disk s) (wal s) (frames s) t (clock_hand s) (ctx s) (attached s).
Definition set_hand (h : nat) (s : Store) : Store :=
  mkStore (disk s) (wal s) (frames s) (page_table s) h (ctx s) (attached s).
Definition set_ctx (c : option TxnContext) (s : Store) : Store :=
  mkStore (disk s) (wal s) (frames s) (page_table s) (clock_hand s) c (attached s).
Definition set_txn (on : bool) (s : Store) : Store :=
  mkStore (disk s) (wal s) (frames s) (page_table s) (clock_hand s) (ctx s) on.

Definition set_frame (i : nat) (f : PageFrame) (s : Store) : Store := set_frames (<[i := f]> (frames s)) s.
Definition frame_at (i : nat) (s : Store) : PageFrame := default empty_frame (frames s !! i).

Definition frame_dirty (b : bool) (f : PageFrame) : PageFrame :=
  mkFrame (fpage f) (valid f) b (fref f) (pin f) (fdata f) (before f).
Definition frame_valid (b : bool) (f : PageFrame) : PageFrame :=
  mkFrame (fpage f) b (dirty f) (fref f) (pin f) (fdata f) (before f).
Definition frame_ref (b : bool) (f : PageFrame) : PageFrame :=
  mkFrame (fpage f) (valid f) (dirty f) b (pin f) (fdata f) (before f).
Definition frame_pin (n : Z) (f : PageFrame) : PageFrame :=
  mkFrame (fpage f) (valid f) (dirty f) (fref f) n (fdata f) (before f).
Definition frame_data (b : bytes) (f : PageFrame) : PageFrame :=
  mkFrame (fpage f) (valid f) (dirty f) (fref f) (pin f) b (before f).
Definition frame_before (b : bytes) (f : PageFrame) : PageFrame :=
  mkFrame (fpage f) (valid f) (dirty f) (fref f) (pin f) (fdata f) b.

(** * Operations *)
Definition find (page : PageId) (s : Store) : option nat := page_table s !! page.
(** A [char*] into the pool is the index of its frame. *)
Definition frame_index (i : nat) (s : Store) : option nat :=
  match frames s !! i with Some f => if valid f then Some i else None | None => None end.

Definition write_back (i : nat) : ST Store unit := fun s =>
  let f := frame_at i s in
  if negb (valid f) || negb (dirty f) then (Ok tt, s)
  else if negb (bool_decide (before f = fdata f)) then (Fatal, s)
  else
    (Ok tt, set_frame i (frame_dirty false f)
              (set_disk (write_page (disk s) (file_id (fpage f)) (page_no (fpage f)) (fdata f)) s)).

(** The maximal runs of differing 8-byte words. *)
Definition WORDS : Z := PAGE_SIZE / 8.
Definition word_ne (b d : bytes) (w : Z) : bool := negb (bool_decide (slice (8 * w) 8 b = slice (8 * w) 8 d)).
Fixpoint extend (fuel : nat) (b d : bytes) (w hi : Z) : Z * Z :=
  match fuel with
  | O => (w, hi)
  | S fuel =>
      if (w <? WORDS) && (w <=? hi) then extend fuel b d (w + 1) (if word_ne b d w then w + 1 else hi) else (w, hi)
  end.
Fixpoint diff_loop (fuel : nat) (b d : bytes) (w : Z) : list (Z * Z) :=
  match fuel with
  | O => []
  | S fuel =>
      if w <? WORDS then
        if negb (word_ne b d w) then diff_loop fuel b d (w + 1)
        else let '(w', hi) := extend fuel b d (w + 1) (w + 1) in
             (8 * w, 8 * (hi - w)) :: diff_loop fuel b d w'
      else []
  end.
Definition diff_regions (b d : bytes) : list (Z * Z) := diff_loop (S (Z.to_nat WORDS)) b d 0.

Definition patch_payload (page : PageId) (b d : bytes) (r : Z * Z) : bytes :=
  wal_put_u64 (file_id page) ++ wal_put_u32 (page_no page) ++ wal_put_u32 r.1 ++ wal_put_u32 r.2
    ++ slice r.1 r.2 d ++ slice r.1 r.2 b.
Definition undo_entry (page : PageId) (b : bytes) (r : Z * Z) : UndoEntry :=
  mkUndo (file_id page) (page_no page) r.1 r.2 (slice r.1 r.2 b).
Definition log_region (page : PageId) (b d : bytes) (t : Z) (w : Wal) (r : Z * Z) : Wal :=
  (wal_append w PagePatch t (patch_payload page b d r)).1.
Definition log_page_diff (i : nat) : ST Store unit := fun s =>
  let f := frame_at i s in
  match ctx s with
  | None => (Fatal, s)
  | Some c =>
      let rs := diff_regions (before f) (fdata f) in
      let w := fold_left (log_region (fpage f) (before f) (fdata f) (txn_id c)) rs (wal s) in
      let c := mkTxn (txn_id c) (wrote c || negb (is_nil rs)) (undo c ++ (undo_entry (fpage f) (before f) <$> rs))
                 (tail_undo c) (pending_drops c) in
      (Ok tt, set_frame i (frame_before (fdata f) f) (set_ctx (Some c) (set_wal w s)))
  end.

(** [evict], from step [k] of the clock on, [n] steps left. *)
Fixpoint evict_loop (n k : nat) : ST Store nat :=
  match n with
  | O => raise Internal
  | S n => fun s =>
      let idx := ((clock_hand s + k) mod length (frames s))%nat in
      let f := frame_at idx s in
      if 0 <? pin f then evict_loop n (S k) s
      else if valid f && fref f then evict_loop n (S k) (set_frame idx (frame_ref false f) s)
      else
        (_ ← write_back idx;
         _ ← modify (fun s => if valid (frame_at idx s) then set_table (delete (fpage (frame_at idx s)) (page_table s)) s else s);
         _ ← modify (fun s => set_frame idx (frame_valid false (frame_at idx s)) s);
         _ ← modify (fun s => set_hand ((idx + 1) mod length (frames s)) s);
         mret idx) s
  end.
Definition evict : ST Store nat := fun s => evict_loop (2 * length (frames s)) 0 s.

Definition read (page : PageId) (expect_magic : Z) : ST Store nat := fun s =>
  match find page s with
  | Some i =>
      let f := frame_at i s in (Ok i, set_frame i (frame_pin (wrap 16 (pin f + 1)) (frame_ref true f)) s)
  | None =>
      (idx ← evict;
       _ ← modify (fun s => set_frame idx (mkFrame page true false true 1 zero_page zero_page) (set_table (<[page := idx]> (page_table s)) s));
       d ← gets (fun s => read_page (disk s) (file_id page) (page_no page));
       _ ← modify (fun s => set_frame idx (frame_data d.2 (frame_at idx s)) (set_disk d.1 s));
       if negb (page_valid d.2 expect_magic) then
         _ ← modify (fun s => set_frame idx empty_frame (set_table (delete page (page_table s)) s)); crash
       else
         _ ← modify (fun s => set_frame idx (frame_before d.2 (frame_at idx s)) s); mret idx) s
  end.

Definition allocate (page : PageId) : ST Store nat := fun s =>
  match find page s with
  | Some i => let f := frame_at i s in (Ok i, set_frame i (frame_pin (wrap 16 (pin f + 1)) f) s)
  | None =>
      (idx ← evict;
       _ ← modify (fun s => set_frame idx (mkFrame page true true true 1 zero_page zero_page) (set_table (<[page := idx]> (page_table s)) s));
       mret idx) s
  end.

Definition unpin (i : nat) : ST Store unit := fun s =>
  match frame_index i s with
  | None => (Raise Internal, s)
  | Some i => let f := frame_at i s in (Ok tt, if 0 <? pin f then set_frame i (frame_pin (pin f - 1) f) s else s)
  end.

Definition mark_dirty (i : nat) : ST Store unit := fun s =>
  match frame_index i s with
  | None => (Raise Internal, s)
  | Some i =>
      if negb (attached s) then (Raise Internal, s)
      else (_ ← log_page_diff i; modify (fun s => set_frame i (frame_dirty true (frame_at i s)) s)) s
  end.

Definition restore_region (page : PageId) (off len : Z) (b : bytes) : ST Store unit := fun s =>
  match find page s with
  | None =>
      let '(d, buf) := read_page (disk s) (file_id page) (page_no page) in
      (Ok tt, set_disk (write_page d (file_id page) (page_no page) (splice off (slice 0 len b) buf)) s)
  | Some i =>
      let f := frame_at i s in
      (Ok tt, set_frame i (frame_dirty true (frame_before (splice off (slice 0 len b) (before f))
                 (frame_data (splice off (slice 0 len b) (fdata f)) f))) s)
  end.

Definition flush (page : PageId) : ST Store unit := fun s =>
  match find page s with None => (Ok tt, s) | Some i => write_back i s end.
Definition flush_all : ST Store unit := fun s => forM (seq 0 (length (frames s))) write_back s.
Definition invalidate_all : ST Store unit :=
  modify (fun s => set_hand 0 (set_table ∅ (set_frames (replicate (length (frames s)) empty_frame) s))).
(** The order of the page table's entries is unspecified. *)
Definition drop_table (fid : Z) : ST Store unit := fun s =>
  forM (map_to_list (page_table s)) (fun '(page, i) =>
    if file_id page =? fid
    then _ ← write_back i; modify (fun s => set_frame i empty_frame (set_table (delete page (page_table s)) s))
    else mret tt) s.

(** The caller's use of the frame it holds: the bytes of the page, and writing them in place. *)
Definition data (i : nat) (s : Store) : bytes := fdata (frame_at i s).
Definition poke (i : nat) (b : bytes) : ST Store unit := modify (fun s => set_frame i (frame_data b (frame_at i s)) s).

(** * Construction *)
Definition pool_new (capacity : nat) (d : gmap Z bytes) (w : Wal) : Store :=
  mkStore d w (replicate capacity empty_frame) ∅ 0 None false.
