(* ===== verification/Diff.v ===== *)
(** The page diffs the buffer pool logs (src/storage/buffer_pool.cpp, log_page_diff): every region lies in
    the page, the regions cover every changed byte, so the after-images redo the change and the
    before-images undo it; and recovery accepts the records they become. *)
From S2P Require Import Prelude Types Page Wal Disk Recovery State Pool.

Definition region_ok (r : Z * Z) : Prop := 0 <= r.1 /\ 0 < r.2 /\ r.1 + r.2 <= PAGE_SIZE.
Definition covers (r : Z * Z) (i : Z) : bool := (r.1 <=? i) && (i <? r.1 + r.2).
Definition covered (rs : list (Z * Z)) (i : Z) : bool := existsb (fun r => covers r i) rs.

(** * The scan *)
Lemma WORDS_eq : WORDS = 512.
Proof. reflexivity. Qed.
Lemma extend_spec fuel b d w hi : hi <= w <= hi + 1 -> w <= WORDS -> hi <= WORDS -> (Z.to_nat (WORDS - w) < fuel)%nat ->
  let '(w', hi') := extend fuel b d w hi in
  hi <= hi' <= WORDS /\ w <= w' <= WORDS /\ hi' <= w' /\ (forall v, hi' <= v < w' -> w <= v -> word_ne b d v = false).
Proof.
  revert w hi; induction fuel as [|fuel IH]; intros w hi H1 H2 H3 Hf; [lia|]. simpl.
  destruct (Z.ltb_spec w WORDS), (Z.leb_spec w hi); simpl; try (split_and!; lia).
  assert (w = hi) by lia. subst w.
  destruct (word_ne b d hi) eqn:E.
  - specialize (IH (hi + 1) (hi + 1) ltac:(lia) ltac:(lia) ltac:(lia) ltac:(lia)).
    destruct (extend fuel b d (hi + 1) (hi + 1)) as [w' hi']. destruct IH as (I1 & I2 & I3 & I4). split_and!; try lia. intros v Hv Hw. apply I4; lia.
  - specialize (IH (hi + 1) hi ltac:(lia) ltac:(lia) ltac:(lia) ltac:(lia)).
    destruct (extend fuel b d (hi + 1) hi) as [w' hi']. destruct IH as (I1 & I2 & I3 & I4). split_and!; try lia. intros v Hv Hw.
    destruct (decide (v = hi)) as [->|]; [done|]. apply I4; lia.
Qed.
Lemma diff_loop_spec fuel b d w : 0 <= w <= WORDS -> (Z.to_nat (WORDS - w) < fuel)%nat ->
  Forall region_ok (diff_loop fuel b d w) /\
  (forall v, w <= v < WORDS -> word_ne b d v = true -> forall i, 8 * v <= i < 8 * v + 8 -> covered (diff_loop fuel b d w) i = true).
Proof.
  revert w; induction fuel as [|fuel IH]; intros w Hw Hf; [lia|]. cbn [diff_loop].
  destruct (Z.ltb_spec w WORDS); [|split; [constructor|intros; lia]].
  destruct (word_ne b d w) eqn:E; cbn [negb].
  - pose proof (extend_spec fuel b d (w + 1) (w + 1) ltac:(lia) ltac:(lia) ltac:(lia) ltac:(lia)) as He.
    destruct (extend fuel b d (w + 1) (w + 1)) as [w' hi]. destruct He as (H1 & H2 & H3 & H4).
    destruct (IH w' ltac:(lia) ltac:(lia)) as [IH1 IH2]. rewrite WORDS_eq in *. split.
    + constructor; [|done]. unfold region_ok, PAGE_SIZE. cbn [fst snd]. lia.
    + intros v Hv Hne i Hi. cbn [covered existsb]. destruct (decide (v < hi)) as [Hlt|Hge].
      * unfold covers at 1. cbn [fst snd]. apply orb_true_iff. left. apply andb_true_iff. rewrite Z.leb_le, Z.ltb_lt. lia.
      * apply orb_true_iff. right. destruct (decide (v < w')) as [Hlt|Hge']; [rewrite H4 in Hne by lia; done|]. apply (IH2 v); [lia|done|lia].
  - destruct (IH (w + 1) ltac:(lia) ltac:(lia)) as [IH1 IH2]. split; [done|]. intros v Hv Hne i Hi.
    destruct (decide (v = w)) as [->|]; [congruence|]. apply (IH2 v); [lia|done|lia].
Qed.
(** The regions are in the page and cover every byte that differs. *)
Lemma diff_regions_ok b d : Forall region_ok (diff_regions b d).
Proof. unfold diff_regions. apply diff_loop_spec; rewrite WORDS_eq; lia. Qed.
Lemma diff_regions_cover b d i : zlen b = PAGE_SIZE -> zlen d = PAGE_SIZE -> 0 <= i < PAGE_SIZE ->
  covered (diff_regions b d) i = false -> b !! Z.to_nat i = d !! Z.to_nat i.
Proof.
  intros Hb Hd Hi Hc. unfold PAGE_SIZE in *. destruct (word_ne b d (i / 8)) eqn:E.
  - destruct (diff_loop_spec (S (Z.to_nat WORDS)) b d 0) as [_ H]; [rewrite WORDS_eq; lia..|].
    rewrite (H (i / 8)) in Hc; [done| |done|]; rewrite ?WORDS_eq; pose proof (Z.div_mod i 8); pose proof (Z.mod_pos_bound i 8); lia.
  - unfold word_ne in E. apply negb_false_iff, bool_decide_eq_true in E.
    pose proof (f_equal (fun l => l !! Z.to_nat (i mod 8)) E) as H. cbv beta in H. rewrite !lookup_slice in H.
    pose proof (Z.div_mod i 8 ltac:(lia)). pose proof (Z.mod_pos_bound i 8 ltac:(lia)).
    rewrite !decide_True in H by lia. replace (Z.to_nat (8 * (i / 8)) + Z.to_nat (i mod 8))%nat with (Z.to_nat i) in H by lia. exact H.
Qed.

(** * Applying regions *)
Definition patch (src : bytes) (b : bytes) (r : Z * Z) : bytes := splice r.1 (slice r.1 r.2 src) b.
Lemma zlen_patch src b r : zlen src = PAGE_SIZE -> zlen b = PAGE_SIZE -> region_ok r -> zlen (patch src b r) = PAGE_SIZE.
Proof.
  intros Hs Hb (H1 & H2 & H3). unfold patch. rewrite zlen_splice; rewrite ?zlen_slice; lia.
Qed.
Lemma patch_lookup src b r i : zlen src = PAGE_SIZE -> zlen b = PAGE_SIZE -> region_ok r ->
  patch src b r !! i = if covers r (Z.of_nat i) then src !! i else b !! i.
Proof.
  intros Hs Hb (H1 & H2 & H3). unfold patch. rewrite lookup_splice by (rewrite ?zlen_slice; lia). rewrite zlen_slice by lia.
  unfold covers. destruct (Z.leb_spec r.1 (Z.of_nat i)), (Z.ltb_spec (Z.of_nat i) (r.1 + r.2)); cbn [andb];
    [rewrite decide_True by lia|rewrite decide_False by lia; done..].
  rewrite lookup_slice, decide_True by lia. f_equal. lia.
Qed.
Lemma patches_lookup src b rs i : zlen src = PAGE_SIZE -> zlen b = PAGE_SIZE -> Forall region_ok rs ->
  fold_left (patch src) rs b !! i = if covered rs (Z.of_nat i) then src !! i else b !! i.
Proof.
  intros Hs Hb Hrs. revert b Hb. induction Hrs as [|r rs Hr _ IH]; intros b Hb; [done|]. cbn [fold_left covered existsb].
  rewrite IH by (by apply zlen_patch). rewrite patch_lookup by done. fold (covered rs (Z.of_nat i)).
  by destruct (covers r _), (covered rs _).
Qed.
Lemma covered_rev rs i : covered (rev rs) i = covered rs i.
Proof.
  unfold covered. induction rs as [|r rs IH]; [done|]. simpl. rewrite existsb_app, IH. simpl. rewrite orb_false_r. apply orb_comm.
Qed.
(** Copying the regions of a diff, in any order of the two used, turns one page into the other. *)
Lemma patches_diff src b b0 d0 rs : zlen b0 = PAGE_SIZE -> zlen d0 = PAGE_SIZE -> (src = b0 /\ b = d0 \/ src = d0 /\ b = b0) ->
  rs = diff_regions b0 d0 \/ rs = rev (diff_regions b0 d0) -> fold_left (patch src) rs b = src.
Proof.
  intros Hb0 Hd0 Hsrc Hrs. apply list_eq. intros i. rewrite patches_lookup.
  - assert (covered rs (Z.of_nat i) = covered (diff_regions b0 d0) (Z.of_nat i)) as -> by (destruct Hrs as [->| ->]; [done|apply covered_rev]).
    destruct (covered _ _) eqn:E; [done|]. destruct (decide (Z.of_nat i < PAGE_SIZE)).
    + apply diff_regions_cover in E; [|done..|lia]. rewrite Nat2Z.id in E. destruct Hsrc as [[-> ->]|[-> ->]]; congruence.
    + unfold zlen in *. rewrite !lookup_ge_None_2; [done|destruct Hsrc as [[-> ->]|[-> ->]]; lia..].
  - by destruct Hsrc as [[-> ->]|[-> ->]].
  - by destruct Hsrc as [[-> ->]|[-> ->]].
  - destruct Hrs as [->| ->]; [|apply Forall_rev]; apply diff_regions_ok.
Qed.

(** * Undo entries, page by page *)
Definition undo_one (p : PageId) (b : bytes) (e : UndoEntry) : bytes :=
  if decide (mkPid (u_fid e) (u_page e) = p) then splice (u_off e) (slice 0 (u_len e) (u_before e)) b else b.
Definition undo_page (p : PageId) (es : list UndoEntry) (b : bytes) : bytes := fold_left (undo_one p) es b.
Lemma undo_page_app p es es' b : undo_page p (es ++ es') b = undo_page p es' (undo_page p es b).
Proof. apply fold_left_app. Qed.
Lemma undo_entry_patch p b0 b r : zlen b0 = PAGE_SIZE -> region_ok r -> undo_one p b (undo_entry p b0 r) = patch b0 b r.
Proof.
  intros Hb (H1 & H2 & H3). unfold undo_one, undo_entry, patch. cbn. destruct p. cbn. rewrite decide_True by done.
  f_equal. apply slice_full. rewrite zlen_slice; lia.
Qed.
Lemma undo_page_other p q b0 rs b : p <> q -> undo_page q (undo_entry p b0 <$> rs) b = b.
Proof.
  intros Hne. unfold undo_page. induction rs as [|r rs IH]; [done|]. rewrite fmap_cons. cbn [fold_left].
  unfold undo_one at 2. cbn. destruct p. rewrite decide_False by done. exact IH.
Qed.
(** The undo entries of a diff, in reverse order, give the page before. *)
Lemma undo_page_diff p b d : zlen b = PAGE_SIZE -> zlen d = PAGE_SIZE ->
  undo_page p (rev (undo_entry p b <$> diff_regions b d)) d = b.
Proof.
  intros Hb Hd. assert (rev (undo_entry p b <$> diff_regions b d) = undo_entry p b <$> rev (diff_regions b d)) as -> by (symmetry; apply map_rev).
  unfold undo_page.
  assert (Forall region_ok (rev (diff_regions b d))) as Hok by (apply Forall_rev, diff_regions_ok).
  assert (forall x, fold_left (undo_one p) (undo_entry p b <$> rev (diff_regions b d)) x = fold_left (patch b) (rev (diff_regions b d)) x) as ->.
  { clear Hd. intros x. revert x. induction Hok as [|r rs Hr _ IH]; intros x; [done|]. rewrite fmap_cons. cbn [fold_left].
    rewrite undo_entry_patch by done. apply IH. }
  apply (patches_diff b d b d); auto.
Qed.

(** * The records recovery reads *)
Definition patch_record (page : PageId) (b d : bytes) (l t : Z) (r : Z * Z) : WalRecord := mkRec l t (op_code PagePatch) (patch_payload page b d r).
Definition replay (undo : bool) (pg : bytes) (r : WalRecord) : bytes := splice (patch_off r) (patch_bytes r undo) pg.

Section record.
Context (page : PageId) (b d : bytes) (l t : Z).
Context (Hf : 0 < file_id page < 2 ^ 64) (Hp : 0 <= page_no page < 2 ^ 32) (Hb : zlen b = PAGE_SIZE) (Hd : zlen d = PAGE_SIZE).
Lemma patch_fields r : region_ok r -> let x := patch_record page b d l t r in
  patch_file x = file_id page /\ patch_page x = page_no page /\ patch_off x = r.1 /\ patch_len x = r.2 /\
  patch_bytes x false = slice r.1 r.2 d /\ patch_bytes x true = slice r.1 r.2 b /\ zlen (payload x) = WAL_PATCH_HEADER_SIZE + 2 * r.2.
Proof using Hf Hp Hb Hd.
  intros (H1 & H2 & H3). unfold PAGE_SIZE in *.
  assert (patch_off (patch_record page b d l t r) = r.1 /\ patch_len (patch_record page b d l t r) = r.2) as [Ho Hl].
  { unfold patch_off, patch_len, patch_record, patch_payload, wal_get_u32, wal_put_u32, wal_put_u64. cbn [payload]. split.
    - rewrite get_u_skip by buf. rewrite get_u_skip by buf. buf. change (12 - Z.of_nat 8 - Z.of_nat 4) with 0. apply (get_u_head 4); lia.
    - rewrite get_u_skip by buf. rewrite get_u_skip by buf. rewrite get_u_skip by buf. buf.
      change (16 - Z.of_nat 8 - Z.of_nat 4 - Z.of_nat 4) with 0. apply (get_u_head 4); lia. }
  split_and!; [| |exact Ho|exact Hl|..].
  - apply (get_u_head 8); lia.
  - unfold patch_page, patch_record, patch_payload, wal_get_u32, wal_put_u32, wal_put_u64. cbn [payload].
    rewrite get_u_skip by buf. buf. apply (get_u_head 4); lia.
  - unfold patch_bytes. rewrite Hl. cbv iota. unfold patch_record. cbn [payload]. unfold patch_payload, wal_put_u32, wal_put_u64, WAL_PATCH_HEADER_SIZE.
    rewrite !app_assoc. rewrite <- (app_assoc _ (slice r.1 r.2 d)). rewrite slice_tail by buf. apply slice_app_l. rewrite zlen_slice; lia.
  - unfold patch_bytes. rewrite Hl. cbv iota. unfold patch_record. cbn [payload]. unfold patch_payload, wal_put_u32, wal_put_u64, WAL_PATCH_HEADER_SIZE.
    rewrite !app_assoc. assert (zlen (slice r.1 r.2 d) = r.2) by (rewrite zlen_slice; lia).
    rewrite slice_tail by buf. apply slice_full. rewrite zlen_slice; lia.
  - unfold patch_record, patch_payload, wal_put_u32, wal_put_u64, WAL_PATCH_HEADER_SIZE. cbn [payload]. buf. rewrite !zlen_slice; lia.
Qed.
Lemma patch_record_valid r : region_ok r -> validate_patch (patch_record page b d l t r) = true.
Proof using Hf Hp Hb Hd.
  intros Hr. destruct (patch_fields r Hr) as (E1 & E2 & E3 & E4 & _ & _ & E7). destruct Hr as (H1 & H2 & H3).
  unfold validate_patch. rewrite E1, E3, E4, E7. unfold PAGE_SIZE in *.
  destruct (Z.eqb_spec (file_id page) 0); [lia|]. destruct (Z.gtb_spec r.1 4096); [lia|]. destruct (Z.eqb_spec r.2 0); [lia|].
  destruct (Z.gtb_spec r.2 (4096 - r.1)); [lia|]. cbn. apply Z.eqb_eq. lia.
Qed.
Lemma replay_patch u r pg : region_ok r -> replay u pg (patch_record page b d l t r) = patch (if u then b else d) pg r.
Proof using Hf Hp Hb Hd.
  intros Hr. destruct (patch_fields r Hr) as (_ & _ & E3 & _ & E5 & E6 & _). unfold replay, patch. rewrite E3. by destruct u; [rewrite E6|rewrite E5].
Qed.
Lemma replay_patches u rs pg : Forall region_ok rs -> fold_left (replay u) (patch_record page b d l t <$> rs) pg = fold_left (patch (if u then b else d)) rs pg.
Proof using Hf Hp Hb Hd.
  intros H. revert pg. induction H as [|r rs Hr _ IH]; intros pg; [done|]. rewrite fmap_cons. cbn [fold_left]. rewrite replay_patch by done. apply IH.
Qed.
End record.

(** A page whose bytes 3 and 20 change: words 0 and 2 are two regions, though one equal word lies between
    them (the comment on [log_page_diff] says such gaps are merged). *)
Lemma gap_not_merged : diff_regions zero_page (<[3%nat := 1]> (<[20%nat := 2]> zero_page)) = [(0, 8); (16, 8)].
Proof. by vm_compute. Qed.
