(* ===== verification/PoolSpec.v ===== *)
(** The buffer pool refines a map of pages: the invariant of its frames and page table, and, for every
    operation, its effect on the logical pages, the logged pages and the pins. *)
From S2P Require Import Prelude Types Page Wal Disk Recovery State Pool Diff.

(** * Pages on disk *)
(** The bytes of a page of the data files, sealed: proofs use its equations only. *)
Definition dpage_aux : base.seal (fun (d : gmap Z bytes) (p : PageId) => (read_page d (file_id p) (page_no p)).2).
Proof. by eexists. Qed.
Definition dpage : gmap Z bytes -> PageId -> bytes := dpage_aux.(unseal).
Lemma dpage_eq d p : dpage d p = (read_page d (file_id p) (page_no p)).2.
Proof. unfold dpage. by rewrite seal_eq. Qed.
Definition disk_page (s : Store) (p : PageId) : bytes := dpage (disk s) p.

Lemma bytes_ext (b b' : bytes) n : zlen b = n -> zlen b' = n ->
  (forall i, 0 <= i < n -> byte_at b i = byte_at b' i) -> b = b'.
Proof.
  intros Hb Hb' H. apply list_eq. intros i. unfold zlen in *. destruct (decide (i < length b)%nat) as [Hi|Hi].
  - specialize (H (Z.of_nat i) ltac:(lia)). unfold byte_at in H. rewrite !nth_lookup, Nat2Z.id in H.
    destruct (lookup_lt_is_Some_2 b i) as [x Hx]; [lia|]. destruct (lookup_lt_is_Some_2 b' i) as [y Hy]; [lia|].
    rewrite Hx, Hy in *. simpl in H. congruence.
  - rewrite !lookup_ge_None_2 by lia. done.
Qed.
Lemma zlen_read_page d f p : 0 <= p -> zlen (read_page d f p).2 = PAGE_SIZE.
Proof. intros Hp. by destruct (read_page_cells d f p Hp). Qed.
Lemma read_page_ext d d' f p : 0 <= p -> (forall i, 0 <= i -> cell d f i = cell d' f i) -> (read_page d f p).2 = (read_page d' f p).2.
Proof.
  intros Hp H. destruct (read_page_cells d f p Hp) as (L & _ & C), (read_page_cells d' f p Hp) as (L' & _ & C').
  apply (bytes_ext _ _ PAGE_SIZE); [exact L|exact L'|]. intros i Hi. rewrite C, C' by done. apply H. unfold PAGE_SIZE. lia.
Qed.
Lemma read_write_page d f p b g q : 0 <= p -> 0 <= q -> zlen b = PAGE_SIZE ->
  (read_page (write_page d f p b) g q).2 = if bool_decide (g = f /\ q = p) then b else (read_page d g q).2.
Proof.
  intros Hp Hq Hb. destruct (read_page_cells (write_page d f p b) g q Hq) as (L & _ & C).
  destruct (read_page_cells d g q Hq) as (L' & _ & C'). unfold PAGE_SIZE in *.
  case_bool_decide as E.
  - destruct E as [-> ->]. apply (bytes_ext _ _ 4096); [exact L|exact Hb|]. intros i Hi. rewrite C by done.
    rewrite write_page_cells by (done || lia). unfold PAGE_SIZE. rewrite bool_decide_true by done.
    destruct (Z.leb_spec (p * 4096) (p * 4096 + i)), (Z.ltb_spec (p * 4096 + i) ((p + 1) * 4096)); try lia. simpl. f_equal. lia.
  - apply (bytes_ext _ _ 4096); [exact L|exact L'|]. intros i Hi. rewrite C, C' by done.
    rewrite write_page_cells by (done || lia). unfold PAGE_SIZE. case_bool_decide as Eg; [|done]. subst g.
    destruct (Z.leb_spec (p * 4096) (q * 4096 + i)), (Z.ltb_spec (q * 4096 + i) ((p + 1) * 4096)); try done.
    destruct E. split; [done|]. lia.
Qed.
Lemma read_page_fd d f p g q : 0 <= q -> (read_page (read_page d f p).1 g q).2 = (read_page d g q).2.
Proof. intros Hq. apply read_page_ext; [done|]. intros i Hi. apply cell_fd. Qed.
Lemma read_page_past d f p : 0 <= p -> file_size d f <= p * PAGE_SIZE -> (read_page d f p).2 = zero_page.
Proof.
  intros Hp Hs. destruct (read_page_cells d f p Hp) as (L & _ & C). apply (bytes_ext _ _ PAGE_SIZE); [done|by vm_compute|].
  intros i Hi. rewrite C by done. unfold cell. rewrite byte_at_past by (unfold file_size in Hs; lia). symmetry. apply byte_at_zeros.
Qed.
Lemma write_page_size_ne d f p b g : g <> f -> file_size (write_page d f p b) g = file_size d g.
Proof. intros Hg. unfold file_size, file_bytes, write_page. rewrite lookup_insert_ne by congruence. exact (f_equal zlen (file_bytes_fd d f g)). Qed.
Lemma zlen_zero_page : zlen zero_page = PAGE_SIZE.
Proof. by vm_compute. Qed.
Lemma zlen_dpage d p : 0 <= page_no p -> zlen (dpage d p) = PAGE_SIZE.
Proof. rewrite dpage_eq. apply zlen_read_page. Qed.
Lemma dpage_write d p b q : 0 <= page_no p -> 0 <= page_no q -> zlen b = PAGE_SIZE ->
  dpage (write_page d (file_id p) (page_no p) b) q = if decide (p = q) then b else dpage d q.
Proof.
  intros Hp Hq Hb. rewrite !dpage_eq, read_write_page by assumption. case_decide as E.
  - subst q. by rewrite bool_decide_true.
  - rewrite bool_decide_false; [reflexivity|]. intros [H1 H2]. destruct p, q. simpl in *. by subst.
Qed.
Lemma dpage_fd d p q : 0 <= page_no q -> dpage (read_page d (file_id p) (page_no p)).1 q = dpage d q.
Proof. rewrite !dpage_eq. apply read_page_fd. Qed.
Lemma dpage_past d p : 0 <= page_no p -> file_size d (file_id p) <= page_no p * PAGE_SIZE -> dpage d p = zero_page.
Proof. rewrite dpage_eq. apply read_page_past. Qed.
#[global] Opaque read_page write_page zero_page.

(** * Logical state *)
Definition cached (s : Store) (p : PageId) : option PageFrame := i ← page_table s !! p; frames s !! i.
(** The page as its users see it, and as the log knows it. *)
Definition view (s : Store) (p : PageId) : bytes := match cached s p with Some f => fdata f | None => disk_page s p end.
Definition base (s : Store) (p : PageId) : bytes := match cached s p with Some f => before f | None => disk_page s p end.
(** Which page a frame holds pinned, and how often. *)
Definition pin_at (s : Store) (i : nat) : option (PageId * Z) :=
  match frames s !! i with Some f => if 0 <? pin f then Some (fpage f, pin f) else None | None => None end.
Definition pin_count (o : option (PageId * Z)) : Z := match o with Some (_, n) => n | None => 0 end.
Definition sum_pins (fs : list PageFrame) : Z := foldr (fun f n => pin f + n) 0 fs.
Definition pins (s : Store) : Z := sum_pins (frames s).

(** [W]: pages being written, whose change is not yet in the log. *)
Record frame_ok (d : gmap Z bytes) (W : gset PageId) (f : PageFrame) : Prop := {
  fo_data : zlen (fdata f) = PAGE_SIZE;
  fo_before : zlen (before f) = PAGE_SIZE;
  fo_pin : 0 <= pin f;
  fo_pinned : 0 < pin f -> valid f = true;
  fo_page : valid f = true -> 0 <= page_no (fpage f);
  fo_clean : valid f = true -> dirty f = false -> before f = dpage d (fpage f);
  fo_logged : valid f = true -> fpage f ∉ W -> fdata f = before f;
  fo_writing : valid f = true -> fpage f ∈ W -> 0 < pin f }.
Record pool_ok (W : gset PageId) (s : Store) : Prop := {
  po_table p i : page_table s !! p = Some i <-> exists f, frames s !! i = Some f /\ valid f = true /\ fpage f = p;
  po_frames : Forall (frame_ok (disk s) W) (frames s);
  po_size : zlen (frames s) <= 65535 }.

(** Every page of file [f], on disk or cached, is below [n]. *)
Definition within (s : Store) (f n : Z) : Prop :=
  file_size (disk s) f <= n * PAGE_SIZE /\
  forall p i, page_table s !! p = Some i -> file_id p = f -> page_no p < n.

(** A page on disk changes only by taking the contents its users see; a file of whole pages stays one. *)
Definition whole (d : gmap Z bytes) (f : Z) : Prop := (PAGE_SIZE | file_size d f).
Record disk_moves (s s' : Store) : Prop := {
  dm_page p : 0 <= page_no p -> disk_page s' p = disk_page s p \/ disk_page s' p = view s p;
  dm_whole f : whole (disk s) f -> whole (disk s') f }.
Lemma disk_moves_eq s s' : (forall p, 0 <= page_no p -> disk_page s' p = disk_page s p) -> (forall f, file_size (disk s') f = file_size (disk s) f) -> disk_moves s s'.
Proof. intros H1 H2. split; [intros p Hp; left; by apply H1|]. intros f. unfold whole. by rewrite H2. Qed.
Lemma disk_moves_trans s1 s2 s3 : disk_moves s1 s2 -> (forall p, 0 <= page_no p -> view s2 p = view s1 p) -> disk_moves s2 s3 -> disk_moves s1 s3.
Proof. intros [A1 A2] V [B1 B2]. split; [|auto]. intros p Hp. destruct (B1 p Hp) as [->| ->]; [by apply A1|right; by apply V]. Qed.

(** What no operation but its own purpose changes. *)
Record keeps (s s' : Store) : Prop := {
  k_view p : 0 <= page_no p -> view s' p = view s p;
  k_base p : 0 <= page_no p -> base s' p = base s p;
  k_disk : disk_moves s s';
  k_pin i : pin_at s' i = pin_at s i;
  k_pins : pins s' = pins s;
  k_wal : wal s' = wal s; k_ctx : ctx s' = ctx s; k_att : attached s' = attached s;
  k_len : length (frames s') = length (frames s);
  k_table p : page_table s !! p = None -> page_table s' !! p = None;
  k_within f n : 0 <= n -> within s f n -> within s' f n }.
Lemma keeps_refl s : keeps s s.
Proof. split; try done. by apply disk_moves_eq. Qed.
Lemma keeps_trans s1 s2 s3 : keeps s1 s2 -> keeps s2 s3 -> keeps s1 s3.
Proof.
  intros [] []. split; intros; try congruence.
  - rewrite k_view1 by done. by apply k_view0.
  - rewrite k_base1 by done. by apply k_base0.
  - by eapply disk_moves_trans.
  - auto.
  - auto.
Qed.

(** * Frames *)
Lemma frame_at_lookup s i f : frames s !! i = Some f -> frame_at i s = f.
Proof. unfold frame_at. by intros ->. Qed.
Lemma pool_frame W s i f : pool_ok W s -> frames s !! i = Some f -> frame_ok (disk s) W f.
Proof. intros Hok Hf. exact (Forall_lookup_1 _ _ _ _ (po_frames _ _ Hok) Hf). Qed.
Lemma cached_spec W s p f : pool_ok W s -> cached s p = Some f <-> exists i, frames s !! i = Some f /\ valid f = true /\ fpage f = p.
Proof.
  intros Hok. unfold cached. split.
  - intros (i & Hi & Hf)%bind_Some. exists i. split; [done|]. apply (po_table _ _ Hok) in Hi as (f' & Hf' & Hv). by simplify_eq.
  - intros (i & Hf & Hv & Hp). apply bind_Some. exists i. split; [|done]. apply (po_table _ _ Hok). eauto.
Qed.
Lemma frame_unique W s i j f g : pool_ok W s -> frames s !! i = Some f -> frames s !! j = Some g ->
  valid f = true -> valid g = true -> fpage f = fpage g -> i = j.
Proof.
  intros Hok Hf Hg Vf Vg Hp.
  assert (page_table s !! fpage f = Some i) as H1 by (apply (po_table _ _ Hok); eauto).
  assert (page_table s !! fpage f = Some j) as H2 by (apply (po_table _ _ Hok); eauto). congruence.
Qed.
Lemma pin_at_spec s i p n : pin_at s i = Some (p, n) -> exists f, frames s !! i = Some f /\ fpage f = p /\ pin f = n /\ 0 < n.
Proof.
  unfold pin_at. destruct (frames s !! i) as [f|]; [|done]. destruct (Z.ltb_spec 0 (pin f)); [|done].
  intros [= <- <-]. by exists f.
Qed.
Lemma sum_pins_insert fs i f g : fs !! i = Some f -> sum_pins (<[i := g]> fs) = sum_pins fs - pin f + pin g.
Proof.
  unfold sum_pins. revert i; induction fs as [|h fs IH]; intros [|i] H; [done..| |]; simpl in *.
  - injection H as ->. lia.
  - rewrite (IH i H). lia.
Qed.
Lemma pins_nonneg W s : pool_ok W s -> 0 <= pins s.
Proof.
  intros Hok. unfold pins, sum_pins. pose proof (po_frames _ _ Hok) as H. induction H as [|f fs [] _ IH]; simpl; lia.
Qed.
Lemma pin_le W s i f : pool_ok W s -> frames s !! i = Some f -> pin f <= pins s.
Proof.
  intros Hok. pose proof (po_frames _ _ Hok) as H. unfold pins, sum_pins. revert i. induction H as [|g fs [] Hfs IH]; intros i Hf; [done|].
  assert (0 <= foldr (fun f n => pin f + n) 0 fs) by (clear -Hfs; induction Hfs as [|h l [] _ IH]; simpl; lia).
  destruct i as [|i]; simpl in *; [injection Hf as ->; lia|]. specialize (IH i Hf). lia.
Qed.
(** Fewer pins than frames leave a frame unpinned. *)
Lemma free_frame W s : pool_ok W s -> pins s < zlen (frames s) -> exists i f, frames s !! i = Some f /\ pin f = 0.
Proof.
  intros Hok. pose proof (po_frames _ _ Hok) as H. unfold pins, sum_pins. induction H as [|g fs [] _ IH]; simpl; rewrite ?zlen_cons; intros Hlt.
  - unfold zlen in Hlt. simpl in Hlt. lia.
  - destruct (decide (pin g = 0)) as [E|E]; [by exists 0%nat, g|].
    destruct IH as (i & f & Hf & Hz); [lia|]. by exists (S i), f.
Qed.

(** Changing a frame that stays at its page. *)
Section set_frame.
Context (W W' : gset PageId) (s : Store) (i : nat) (f g : PageFrame) (d : gmap Z bytes).
Context (Hok : pool_ok W s) (Hf : frames s !! i = Some f) (Hv : valid g = valid f) (Hp : fpage g = fpage f).
Notation s' := (set_frame i g (set_disk d s)).

Lemma sf_lookup j : frames s' !! j = if decide (i = j) then Some g else frames s !! j.
Proof using Hf.
  simpl. case_decide as E; [subst j|by apply list_lookup_insert_ne].
  apply list_lookup_insert_eq. by eapply lookup_lt_Some.
Qed.
Lemma sf_table p j : page_table s' !! p = Some j <-> exists f, frames s' !! j = Some f /\ valid f = true /\ fpage f = p.
Proof using Hok Hf Hv Hp.
  cbn [set_frame set_frames set_disk page_table]. rewrite (po_table _ _ Hok). setoid_rewrite sf_lookup.
  case_decide as E; [subst j|done]. rewrite Hf. split; intros (h & [= <-] & H1 & H2); [exists g|exists f]; split_and!; (done || congruence).
Qed.
Lemma sf_cached p : cached s' p = if decide (valid f = true /\ fpage f = p) then Some g else cached s p.
Proof using Hok Hf Hv Hp.
  unfold cached. cbn [set_frame set_frames set_disk page_table].
  destruct (page_table s !! p) as [j|] eqn:E; cbn.
  - apply (po_table _ _ Hok) in E as (h & Hh & Vh & Ph). rewrite sf_lookup. case_decide as Ei.
    + subst j. rewrite Hf in Hh. injection Hh as <-. by rewrite decide_True.
    + rewrite decide_False; [done|]. intros [H1 H2]. apply Ei. by eapply (frame_unique W s i j f h); try done; congruence.
  - rewrite decide_False; [done|]. intros [H1 H2].
    assert (page_table s !! p = Some i) as H3 by (apply (po_table _ _ Hok); eauto). congruence.
Qed.
Lemma sf_pin_at j : pin_at s' j = if decide (i = j) then (if 0 <? pin g then Some (fpage f, pin g) else None) else pin_at s j.
Proof using Hf Hp. unfold pin_at. rewrite sf_lookup. case_decide; [|done]. by rewrite Hp. Qed.
Lemma sf_pins : pins s' = pins s - pin f + pin g.
Proof using Hf. by apply sum_pins_insert. Qed.
Lemma sf_ok : (forall h j, j <> i -> frames s !! j = Some h -> frame_ok (disk s) W h -> frame_ok d W' h) -> frame_ok d W' g -> pool_ok W' s'.
Proof using All.
  intros Hothers Hg. split.
  - apply sf_table.
  - apply Forall_lookup. intros j h Hh. rewrite sf_lookup in Hh. case_decide as E; [by injection Hh as <-|].
    apply (Hothers h j); [done..|]. by eapply pool_frame.
  - cbn [frames set_frame set_frames set_disk]. unfold zlen. rewrite length_insert. apply (po_size _ _ Hok).
Qed.
End set_frame.

Lemma set_disk_id s : set_disk (disk s) s = s.
Proof. by destruct s. Qed.
(** A frame rewritten with the same page, contents and pin, over a disk that agrees elsewhere. *)
Lemma keeps_set_frame W s i f g d : pool_ok W s -> frames s !! i = Some f -> valid g = valid f -> fpage g = fpage f ->
  fdata g = fdata f -> before g = before f -> pin g = pin f ->
  (forall p, 0 <= page_no p -> ~ (valid f = true /\ fpage f = p) ->
     dpage d p = dpage (disk s) p) ->
  (forall p, 0 <= page_no p -> valid f = true -> fpage f = p -> dpage d p = dpage (disk s) p \/ dpage d p = fdata f) ->
  (forall fid n, 0 <= n -> within s fid n -> file_size d fid <= n * PAGE_SIZE) -> (forall f, whole (disk s) f -> whole d f) ->
  keeps s (set_frame i g (set_disk d s)).
Proof.
  intros Hok Hf Hv Hp Hd Hb Hn Hdisk Hown Hsize Hwhole.
  assert (forall p, 0 <= page_no p -> cached (set_frame i g (set_disk d s)) p = Some g /\ cached s p = Some f \/
    cached (set_frame i g (set_disk d s)) p = cached s p /\ disk_page (set_frame i g (set_disk d s)) p = disk_page s p) as Hc.
  { intros p H0. rewrite (sf_cached W s i f g d Hok Hf Hv Hp). case_decide as E.
    - left. split; [reflexivity|]. apply (cached_spec W s _ _ Hok). by exists i.
    - right. split; [reflexivity|]. by apply (Hdisk p H0). }
  split; [| | | | |reflexivity|reflexivity|reflexivity| | |].
  - intros p H0. unfold view. by destruct (Hc p H0) as [[-> ->]|[-> ->]].
  - intros p H0. unfold base. by destruct (Hc p H0) as [[-> ->]|[-> ->]].
  - split; [|exact Hwhole]. intros p H0. destruct (decide (valid f = true /\ fpage f = p)) as [[V E]|E]; [|left; by apply (Hdisk p H0)].
    assert (view s p = fdata f) as ->; [|by apply (Hown p H0)].
    unfold view. assert (cached s p = Some f) as ->; [|done]. apply (cached_spec W s _ _ Hok). by exists i.
  - intros j. rewrite (sf_pin_at s i f g d Hf Hp). case_decide as E; [subst|reflexivity]. unfold pin_at. by rewrite Hf, Hn.
  - rewrite (sf_pins s i f g d Hf). lia.
  - cbn. by rewrite length_insert.
  - done.
  - intros fid n Hn0 Hw. split; [by apply Hsize|exact (proj2 Hw)].
Qed.
Lemma keeps_flags W s i f g : pool_ok W s -> frames s !! i = Some f -> valid g = valid f -> fpage g = fpage f ->
  fdata g = fdata f -> before g = before f -> pin g = pin f -> keeps s (set_frame i g s).
Proof.
  intros Hok Hf Hv Hp Hd Hb Hn. rewrite <- (set_disk_id s) at 2. apply (keeps_set_frame W s i f g (disk s)); try done.
  - by left.
  - by intros fid n Hn0 [H _].
Qed.
Lemma ok_flags W s i f g : pool_ok W s -> frames s !! i = Some f -> valid g = valid f -> fpage g = fpage f ->
  frame_ok (disk s) W g -> pool_ok W (set_frame i g s).
Proof.
  intros Hok Hf Hv Hp Hg. rewrite <- (set_disk_id s). apply (sf_ok W W s i f g (disk s)); done.
Qed.

(** * Writing back *)
Definition cleaned (f : PageFrame) : PageFrame := if valid f then frame_dirty false f else f.
Lemma cleaned_clean f : valid f = true -> dirty f = false -> cleaned f = f.
Proof. intros V D. unfold cleaned. rewrite V. destruct f. simpl in *. by subst. Qed.
Lemma frame_ok_cleaned d d' W f : frame_ok d W f -> (valid f = true -> before f = dpage d' (fpage f)) ->
  frame_ok d' W (cleaned f).
Proof.
  intros [] Hd. unfold cleaned. destruct (valid f) eqn:E; split; cbn; try assumption; try congruence; intros; try rewrite E; auto.
Qed.
Lemma write_back_ok W s i f : pool_ok W s -> frames s !! i = Some f -> (valid f = true -> fpage f ∉ W) ->
  exists s', write_back i s = (Ok tt, s') /\ pool_ok W s' /\ keeps s s' /\
    frames s' = <[i := cleaned f]> (frames s) /\ page_table s' = page_table s /\ clock_hand s' = clock_hand s.
Proof.
  intros Hok Hf HW. pose proof (pool_frame _ _ _ _ Hok Hf) as Hfo. pose proof Hfo as [L1 L2 _ _ Hpv _ Hlog _].
  unfold write_back. rewrite (frame_at_lookup _ _ _ Hf).
  destruct (negb (valid f) || negb (dirty f)) eqn:E.
  - exists s. assert (cleaned f = f) as ->.
    { destruct (valid f) eqn:V; [apply cleaned_clean; [done|by destruct (dirty f)]|]. unfold cleaned. by rewrite V. }
    rewrite list_insert_id by done. split_and!; try done; apply keeps_refl.
  - apply orb_false_iff in E as [V D]. apply negb_false_iff in V, D.
    pose proof (Hpv V) as Hp. rewrite (Hlog V (HW V)). rewrite bool_decide_true by done. cbn [negb].
    set (p := fpage f) in *. set (d := write_page (disk s) (file_id p) (page_no p) (before f)).
    assert (forall q, 0 <= page_no q -> dpage d q = if decide (p = q) then before f else dpage (disk s) q) as Hd.
    { intros q Hq. by apply dpage_write. }
    assert (frame_ok d W (frame_dirty false f)) as Hg.
    { pose proof (frame_ok_cleaned (disk s) d W f Hfo) as H. unfold cleaned in H. rewrite V in H. apply H. intros _.
      fold p. rewrite (Hd p Hp). by rewrite decide_True. }
    eexists. split; [reflexivity|]. split_and!.
    + apply (sf_ok W W s i f (frame_dirty false f) d Hok Hf); [reflexivity|reflexivity| |exact Hg].
      intros h j Hj Hh []. split; try assumption. intros Vh Dh. rewrite (Hd _ (fo_page0 Vh)).
      rewrite decide_False; [by apply fo_clean0|]. intros E. apply Hj. by eapply (frame_unique W s j i h f).
    + apply (keeps_set_frame W s i f (frame_dirty false f) d Hok Hf); try done.
      * intros q Hq Hne. rewrite (Hd q Hq). rewrite decide_False; [done|]. intros E. by apply Hne.
      * intros q Hq _ E. right. rewrite (Hd q Hq), decide_True by exact E. by rewrite (Hlog V (HW V)).
      * intros fid n Hn [H1 H2]. destruct (decide (file_id p = fid)) as [Ef|Ef].
        -- subst fid. unfold d. rewrite write_page_size by done.
           assert (page_no p < n) as Hlt by (apply (H2 p i); [apply (po_table _ _ Hok); eauto|done]).
           unfold PAGE_SIZE in *. lia.
        -- unfold d. by rewrite write_page_size_ne.
      * intros fid [k Hk]. unfold whole, d. destruct (decide (file_id p = fid)) as [<-|Ef].
        -- rewrite write_page_size by done. rewrite Hk. destruct (Z.max_spec (k * PAGE_SIZE) ((page_no p + 1) * PAGE_SIZE)) as [[_ ->]|[_ ->]]; apply Z.divide_factor_r.
        -- rewrite write_page_size_ne by done. by exists k.
    + cbn. unfold cleaned. by rewrite V.
    + done.
    + done.
Qed.

(** * Eviction *)
(** An unpinned clean frame leaves the table. *)
Definition vacate (i : nat) (h : nat) (s : Store) : Store :=
  let f := frame_at i s in
  set_hand h (set_frame i (frame_valid false f) (if valid f then set_table (delete (fpage f) (page_table s)) s else s)).
Section vacate.
Context (W : gset PageId) (s : Store) (i h : nat) (f : PageFrame).
Context (Hok : pool_ok W s) (Hf : frames s !! i = Some f) (Hpin : pin f = 0) (Hclean : valid f = true -> dirty f = false).
Notation s' := (vacate i h s).
Lemma vac_lookup j : frames s' !! j = if decide (i = j) then Some (frame_valid false f) else frames s !! j.
Proof using All.
  unfold vacate. rewrite (frame_at_lookup _ _ _ Hf).
  assert (forall t, frames (set_hand h (set_frame i (frame_valid false f) t)) = <[i := frame_valid false f]> (frames t)) as -> by reflexivity.
  assert (frames (if valid f then set_table (delete (fpage f) (page_table s)) s else s) = frames s) as -> by (by destruct (valid f)).
  case_decide as E; [subst j; apply list_lookup_insert_eq; by eapply lookup_lt_Some|by apply list_lookup_insert_ne].
Qed.
Lemma vac_table p : page_table s' !! p = if decide (valid f = true /\ fpage f = p) then None else page_table s !! p.
Proof using All.
  unfold vacate. rewrite (frame_at_lookup _ _ _ Hf).
  assert (forall t, page_table (set_hand h (set_frame i (frame_valid false f) t)) = page_table t) as -> by reflexivity.
  destruct (valid f) eqn:V; cbn.
  - case_decide as E; [destruct E as [_ <-]; apply lookup_delete_eq|]. apply lookup_delete_ne. intros E2. by apply E.
  - rewrite decide_False; [reflexivity|]. by intros [? _].
Qed.
Lemma vac_disk : disk s' = disk s.
Proof using All. unfold vacate. by destruct (valid (frame_at i s)). Qed.
Lemma vac_logged p : valid f = true -> fpage f = p -> fdata f = dpage (disk s) p /\ before f = dpage (disk s) p.
Proof using All.
  intros V <-. pose proof (pool_frame _ _ _ _ Hok Hf) as [].
  assert (before f = dpage (disk s) (fpage f)) as H by (apply fo_clean0; auto). split; [|exact H].
  rewrite <- H. apply fo_logged0; [exact V|]. intros HW. specialize (fo_writing0 V HW). lia.
Qed.
Lemma vac_cached p : cached s' p = if decide (valid f = true /\ fpage f = p) then None else cached s p.
Proof using All.
  unfold cached. rewrite vac_table. case_decide as E; [reflexivity|].
  destruct (page_table s !! p) as [j|] eqn:Ej; [|reflexivity]. cbn. rewrite vac_lookup.
  apply (po_table _ _ Hok) in Ej as (g & Hg & Vg & Pg). case_decide as Eij; [|reflexivity]. subst j.
  rewrite Hf in Hg. injection Hg as <-. by destruct E.
Qed.
Lemma vacate_ok : pool_ok W s' /\ keeps s s' /\ frames s' !! i = Some (frame_valid false f).
Proof using All.
  assert (forall p, 0 <= page_no p -> view s' p = view s p /\ base s' p = base s p) as Hv.
  { intros p Hp. unfold view, base. rewrite vac_cached. unfold disk_page. rewrite vac_disk. case_decide as E; [|by split].
    destruct E as [V E]. assert (cached s p = Some f) as -> by (apply (cached_spec W s _ _ Hok); by exists i).
    destruct (vac_logged p V E) as [H1 H2]. by split. }
  split; [|split].
  - split.
    + intros p j. rewrite vac_table. setoid_rewrite vac_lookup. case_decide as E.
      * split; [discriminate|]. intros (g & Hg & Vg & Pg). case_decide as Eij; [injection Hg as <-; discriminate|].
        destruct E as [V <-]. destruct Eij. by eapply (frame_unique W s i j f g).
      * rewrite (po_table _ _ Hok). split; intros (g & Hg & Vg & Pg).
        -- exists g. case_decide as Eij; [|done]. subst j. rewrite Hf in Hg. injection Hg as <-. by destruct E.
        -- case_decide as Eij; [injection Hg as <-; discriminate|]. by exists g.
    + apply Forall_lookup. intros j g Hg. rewrite vac_lookup in Hg. rewrite vac_disk. case_decide; [|by eapply pool_frame].
      injection Hg as <-. pose proof (pool_frame _ _ _ _ Hok Hf) as []. split; cbn; try assumption; try discriminate. lia.
    + pose proof (po_size _ _ Hok). unfold vacate. cbn. unfold zlen in *. rewrite length_insert. by destruct (valid (frame_at i s)).
  - split.
    + intros p Hp. by apply Hv.
    + intros p Hp. by apply Hv.
    + apply disk_moves_eq; [intros p Hp; unfold disk_page|intros fid]; by rewrite vac_disk.
    + intros j. unfold pin_at. rewrite vac_lookup. case_decide; [|reflexivity]. subst. rewrite Hf. cbn. by rewrite Hpin.
    + unfold pins, vacate. rewrite (frame_at_lookup _ _ _ Hf). cbn.
      assert (frames (if valid f then set_table (delete (fpage f) (page_table s)) s else s) = frames s) as -> by (by destruct (valid f)).
      rewrite (sum_pins_insert _ i f) by exact Hf. cbn. lia.
    + unfold vacate. by destruct (valid (frame_at i s)).
    + unfold vacate. by destruct (valid (frame_at i s)).
    + unfold vacate. by destruct (valid (frame_at i s)).
    + unfold vacate. cbn. rewrite length_insert. by destruct (valid (frame_at i s)).
    + intros p Hp. rewrite vac_table. by case_decide.
    + intros fid n Hn [H1 H2]. split; [by rewrite vac_disk|]. intros p j. rewrite vac_table. case_decide; [done|]. apply H2.
  - rewrite vac_lookup. by rewrite decide_True.
Qed.
End vacate.

Definition vacant (s : Store) (i : nat) : Prop := exists f, frames s !! i = Some f /\ valid f = false /\ pin f = 0.
Definition clock (s : Store) (k : nat) : nat := ((clock_hand s + k) mod length (frames s))%nat.
Lemma clock_lt s k : frames s <> [] -> (clock s k < length (frames s))%nat.
Proof. intros H. apply Nat.mod_upper_bound. by destruct (frames s). Qed.

Lemma evict_step n k s f : frames s !! clock s k = Some f ->
  evict_loop (S n) k s =
    if 0 <? pin f then evict_loop n (S k) s
    else if valid f && fref f then evict_loop n (S k) (set_frame (clock s k) (frame_ref false f) s)
    else match write_back (clock s k) s with
         | (Ok _, s1) => (Ok (clock s k), vacate (clock s k) ((clock s k + 1) mod length (frames s1)) s1)
         | (Raise c, s1) => (Raise c, s1) | (Fatal, s1) => (Fatal, s1) end.
Proof.
  intros Hf. cbn [evict_loop]. fold (clock s k). rewrite (frame_at_lookup _ _ _ Hf).
  destruct (0 <? pin f); [reflexivity|]. destruct (valid f && fref f); [reflexivity|].
  rewrite run_match. destruct (write_back (clock s k) s) as [[[]| |] s1]; [|reflexivity..].
  rewrite !run_modify. unfold vacate, mret, st_ret.
  destruct (valid (frame_at (clock s k) s1)) eqn:V; cbn; by rewrite length_insert.
Qed.
Lemma write_back_vacate W s i h f : pool_ok W s -> frames s !! i = Some f -> pin f = 0 ->
  exists s1, write_back i s = (Ok tt, s1) /\ pool_ok W (vacate i h s1) /\ keeps s (vacate i h s1) /\ vacant (vacate i h s1) i.
Proof.
  intros Hok Hf Hp. destruct (write_back_ok W s i f Hok Hf) as (s1 & H1 & Hok1 & Hk1 & Hfr & _).
  { intros V HW. pose proof (fo_writing _ _ _ (pool_frame _ _ _ _ Hok Hf) V HW). lia. }
  assert (frames s1 !! i = Some (cleaned f)) as Hf1 by (rewrite Hfr; apply list_lookup_insert_eq; by eapply lookup_lt_Some).
  assert (pin (cleaned f) = 0) as Hp1 by (unfold cleaned; by destruct (valid f)).
  destruct (vacate_ok W s1 i h (cleaned f) Hok1 Hf1 Hp1) as (H2 & H3 & H4).
  { unfold cleaned. destruct (valid f) eqn:V; [reflexivity|congruence]. }
  exists s1. split_and!; [exact H1|exact H2|by eapply keeps_trans|]. exists (frame_valid false (cleaned f)). split_and!; done.
Qed.

Definition evicted (W : gset PageId) (s : Store) (r : result nat * Store) : Prop :=
  exists i s', r = (Ok i, s') /\ pool_ok W s' /\ keeps s s' /\ vacant s' i.
Lemma evicted_keeps W s s1 r : keeps s s1 -> evicted W s1 r -> evicted W s r.
Proof. intros Hk (i & s' & -> & H1 & H2 & H3). exists i, s'. split_and!; try done. by eapply keeps_trans. Qed.
Lemma clear_ref W s i f : pool_ok W s -> frames s !! i = Some f ->
  pool_ok W (set_frame i (frame_ref false f) s) /\ keeps s (set_frame i (frame_ref false f) s).
Proof.
  intros Hok Hf. split.
  - apply (ok_flags W s i f _ Hok Hf); [done..|]. pose proof (pool_frame _ _ _ _ Hok Hf) as []. by split.
  - by apply (keeps_flags W s i f _ Hok Hf).
Qed.
(** A step either picks the frame under the hand or goes on, the hand's frame unreferenced. *)
Lemma evict_cases W s n k f : pool_ok W s -> frames s !! clock s k = Some f ->
  evicted W s (evict_loop (S n) k s) \/
  0 < pin f /\ evict_loop (S n) k s = evict_loop n (S k) s \/
  pin f = 0 /\ fref f = true /\ evict_loop (S n) k s = evict_loop n (S k) (set_frame (clock s k) (frame_ref false f) s).
Proof.
  intros Hok Hf. rewrite (evict_step n k s f Hf). pose proof (fo_pin _ _ _ (pool_frame _ _ _ _ Hok Hf)).
  destruct (Z.ltb_spec 0 (pin f)); [by right; left|]. assert (pin f = 0) as Hp by lia.
  destruct (valid f && fref f) eqn:E; [right; right; apply andb_true_iff in E as [_ E]; by split_and!|]. left.
  destruct (write_back_vacate W s (clock s k) 0 f Hok Hf Hp) as (s1 & H1 & _).
  destruct (write_back_vacate W s (clock s k) ((clock s k + 1) mod length (frames s1)) f Hok Hf Hp) as (s2 & H2 & H3 & H4 & H5).
  rewrite H1 in H2. injection H2 as <-. rewrite H1. eexists _, _. split; [reflexivity|]. by split_and!.
Qed.
Definition ready (s : Store) (i : nat) : Prop := exists f, frames s !! i = Some f /\ pin f = 0 /\ fref f = false.
Lemma set_frame_clock i g s k : clock (set_frame i g s) k = clock s k.
Proof. unfold clock. cbn. by rewrite length_insert. Qed.
Lemma evict_ready W n k k' s : pool_ok W s -> ready s (clock s k') -> (k <= k' < k + n)%nat -> evicted W s (evict_loop n k s).
Proof.
  revert k s; induction n as [|n IH]; intros k s Hok Hr Hk; [lia|].
  assert (frames s <> []) as Hne by (destruct Hr as (f & Hf & _); by intros E; rewrite E in Hf).
  destruct (lookup_lt_is_Some_2 _ _ (clock_lt s k Hne)) as [f Hf].
  destruct (evict_cases W s n k f Hok Hf) as [H|[[Hp ->]|(Hp & Hrf & ->)]]; [done|..].
  - apply IH; [done..|]. destruct (decide (k = k')); [|lia]. subst k'. destruct Hr as (g & Hg & Hgp & _). rewrite Hf in Hg. injection Hg as <-. lia.
  - destruct (clear_ref W s _ f Hok Hf) as [H1 H2]. eapply evicted_keeps; [exact H2|]. apply IH; [done| |].
    + rewrite set_frame_clock. destruct Hr as (g & Hg & Hgp & Hgr). destruct (decide (clock s k = clock s k')) as [E|E].
      * rewrite <- E in Hg. rewrite Hf in Hg. injection Hg as <-. congruence.
      * exists g. split_and!; try done. cbn. by rewrite list_lookup_insert_ne.
    + destruct (decide (k = k')); [|lia]. subst k'. destruct Hr as (g & Hg & _ & Hgr). rewrite Hf in Hg. injection Hg as <-. congruence.
Qed.
Lemma clock_wrap s k : frames s <> [] -> clock s (k + length (frames s)) = clock s k.
Proof. intros H. unfold clock. replace (clock_hand s + (k + length (frames s)))%nat with (clock_hand s + k + 1 * length (frames s))%nat by lia.
  apply Nat.Div0.mod_add. Qed.
(** Two turns of the clock reach an unpinned frame, the first turn unreferencing it. *)
Lemma evict_two_turns W n k k' s f : pool_ok W s -> frames s !! clock s k' = Some f -> pin f = 0 ->
  (k <= k')%nat -> (k' + length (frames s) < k + n)%nat -> evicted W s (evict_loop n k s).
Proof.
  revert k s f; induction n as [|n IH]; intros k s f Hok Hf Hp Hk Hn; [lia|].
  assert (frames s <> []) as Hne by (by intros E; rewrite E in Hf).
  destruct (lookup_lt_is_Some_2 _ _ (clock_lt s k Hne)) as [g Hg].
  destruct (evict_cases W s n k g Hok Hg) as [H|[[Hpg ->]|(Hpg & Hrf & ->)]]; [done|..].
  - apply (IH (S k) s f); try done; [|lia]. destruct (decide (k = k')); [|lia]. subst k'. rewrite Hf in Hg. injection Hg as ->. lia.
  - destruct (clear_ref W s _ g Hok Hg) as [H1 H2]. eapply evicted_keeps; [exact H2|].
    destruct (decide (clock s k = clock s k')) as [E|E].
    + apply (evict_ready W n (S k) (k' + length (frames s))); [done| |].
      * rewrite set_frame_clock, clock_wrap by done. exists (frame_ref false g). rewrite <- E. split_and!; try done.
        cbn. apply list_lookup_insert_eq. by apply clock_lt.
      * destruct (frames s); [done|]. simpl in *. lia.
    + apply (IH (S k) _ f); try done.
      * rewrite set_frame_clock. cbn. by rewrite list_lookup_insert_ne.
      * destruct (decide (k = k')); [by subst|lia].
      * cbn. rewrite length_insert. lia.
Qed.
Definition unpinned_frame (s : Store) : Prop := exists i f, frames s !! i = Some f /\ pin f = 0.
Lemma evict_finds W s : pool_ok W s -> unpinned_frame s -> evicted W s (evict s).
Proof.
  intros Hok (i & f & Hf & Hp). pose proof (lookup_lt_Some _ _ _ Hf) as Hi.
  set (N := length (frames s)) in *. assert (exists k, (k < N)%nat /\ clock s k = i) as (k & Hk & Hc).
  { exists ((i + N - clock_hand s mod N) mod N)%nat. split; [apply Nat.mod_upper_bound; lia|].
    pose proof (Nat.mod_upper_bound (clock_hand s) N ltac:(lia)).
    unfold clock. fold N. rewrite Nat.Div0.add_mod_idemp_r. rewrite <- Nat.Div0.add_mod_idemp_l.
    replace (clock_hand s mod N + (i + N - clock_hand s mod N))%nat with (i + 1 * N)%nat by lia.
    rewrite Nat.Div0.mod_add. by apply Nat.mod_small. }
  unfold evict. apply (evict_two_turns W _ 0 k s f); [done|by rewrite Hc|done|lia|]. fold N. lia.
Qed.

Lemma evict_none s n k : (forall i f, frames s !! i = Some f -> 0 < pin f) -> evict_loop n k s = (Raise Internal, s) \/ frames s = [].
Proof.
  intros H. destruct (frames s) as [|f0 fs] eqn:E; [by right|]. left. rewrite <- E in *. assert (frames s <> []) as Hne by (by rewrite E).
  revert k; induction n as [|n IH]; intros k; [done|].
  destruct (lookup_lt_is_Some_2 _ _ (clock_lt s k Hne)) as [f Hf]. rewrite (evict_step n k s f Hf).
  destruct (Z.ltb_spec 0 (pin f)); [apply IH|]. specialize (H _ _ Hf). lia.
Qed.
Lemma evict_full W s : pool_ok W s -> ~ unpinned_frame s -> evict s = (Raise Internal, s).
Proof.
  intros Hok Hno. unfold evict. destruct (evict_none s (2 * length (frames s)) 0) as [H|H]; [|done|by rewrite H].
  intros i f Hf. pose proof (fo_pin _ _ _ (pool_frame _ _ _ _ Hok Hf)). destruct (decide (pin f = 0)) as [E|E]; [|lia].
  destruct Hno. by exists i, f.
Qed.

(** * Reading and allocating *)
(** The logical pages, the log, the transaction and the capacity are the same. *)
Record same (s s' : Store) : Prop := {
  s_view p : 0 <= page_no p -> view s' p = view s p;
  s_base p : 0 <= page_no p -> base s' p = base s p;
  s_disk : disk_moves s s';
  s_wal : wal s' = wal s; s_ctx : ctx s' = ctx s; s_att : attached s' = attached s;
  s_len : length (frames s') = length (frames s) }.
Lemma keeps_same s s' : keeps s s' -> same s s'.
Proof. intros []. by split. Qed.
Lemma same_refl s : same s s.
Proof. split; try done. by apply disk_moves_eq. Qed.
Lemma same_trans s1 s2 s3 : same s1 s2 -> same s2 s3 -> same s1 s3.
Proof.
  intros [] []. split; try congruence.
  - intros p Hp. rewrite s_view1 by done. by apply s_view0.
  - intros p Hp. rewrite s_base1 by done. by apply s_base0.
  - by eapply disk_moves_trans.
Qed.
(** One more pin of page [p], in frame [i]. *)
Record pinned (s s' : Store) (p : PageId) (i : nat) : Prop := {
  g_same : same s s';
  g_pin : pin_at s' i = Some (p, pin_count (pin_at s i) + 1);
  g_was : pin_at s i = None \/ exists n, pin_at s i = Some (p, n);
  g_ne j : j <> i -> pin_at s' j = pin_at s j;
  g_pins : pins s' = pins s + 1;
  g_within f n : 0 <= n -> (file_id p = f -> page_no p < n) -> within s f n -> within s' f n }.

(** Filling a vacant frame with a page that is not cached. *)
Section fill.
Context (W : gset PageId) (s : Store) (i : nat) (p : PageId) (g : PageFrame) (d : gmap Z bytes).
Context (Hok : pool_ok W s) (Hvac : vacant s i) (Hnone : page_table s !! p = None).
Context (Vg : valid g = true) (Pg : fpage g = p) (Ng : pin g = 1) (Hp : 0 <= page_no p).
Context (Hd : forall q, 0 <= page_no q -> dpage d q = dpage (disk s) q) (Hsize : forall f, file_size d f = file_size (disk s) f).
Context (Hg : frame_ok d W g) (Hview : fdata g = dpage (disk s) p) (Hbase : before g = dpage (disk s) p).
Notation s' := (set_frame i g (set_table (<[p := i]> (page_table s)) (set_disk d s))).
Lemma fill_lookup j : frames s' !! j = if decide (i = j) then Some g else frames s !! j.
Proof using All.
  destruct Hvac as (f & Hf & _). cbn. case_decide as E; [subst j; apply list_lookup_insert_eq; by eapply lookup_lt_Some|].
  by apply list_lookup_insert_ne.
Qed.
Lemma fill_table q : page_table s' !! q = if decide (p = q) then Some i else page_table s !! q.
Proof using All. cbn. case_decide as E; [subst q; apply lookup_insert_eq|by apply lookup_insert_ne]. Qed.
Lemma fill_cached q : cached s' q = if decide (p = q) then Some g else cached s q.
Proof using All.
  unfold cached. rewrite fill_table. case_decide as E; cbn; [rewrite fill_lookup; by rewrite decide_True|].
  destruct (page_table s !! q) as [j|] eqn:Ej; [|reflexivity]. cbn. change (<[i:=g]> (frames s)) with (frames s'). rewrite fill_lookup.
  case_decide as Eij; [|reflexivity]. subst j. apply (po_table _ _ Hok) in Ej as (f & Hf & Vf & _).
  destruct Hvac as (f' & Hf' & Vf' & _). congruence.
Qed.
Lemma fill_ok : pool_ok W s' /\ pinned s s' p i.
Proof using All.
  destruct Hvac as (f & Hf & Vf & Nf). assert (pin_at s i = None) as Hpi by (unfold pin_at; by rewrite Hf, Nf).
  assert (cached s p = None) as Hcp by (unfold cached; by rewrite Hnone).
  split.
  - split.
    + intros q j. rewrite fill_table. setoid_rewrite fill_lookup. case_decide as E.
      * subst q. split; [intros [= <-]; exists g; by rewrite decide_True|]. intros (h & Hh & Vh & Ph). case_decide as Eij; [by subst|].
        assert (page_table s !! p = Some j) by (apply (po_table _ _ Hok); by exists h). congruence.
      * rewrite (po_table _ _ Hok). split; intros (h & Hh & Vh & Ph).
        -- exists h. case_decide as Eij; [|done]. subst j. congruence.
        -- case_decide as Eij; [injection Hh as <-; congruence|]. by exists h.
    + apply Forall_lookup. intros j h Hh. rewrite fill_lookup in Hh. case_decide; [by injection Hh as <-|].
      pose proof (pool_frame _ _ _ _ Hok Hh) as []. split; try assumption. intros Vh Dh. cbn. rewrite Hd by auto. auto.
    + pose proof (po_size _ _ Hok). cbn. unfold zlen in *. by rewrite length_insert.
  - split.
    + split; try reflexivity; [| | |cbn; apply length_insert].
      * intros q Hq. unfold view. rewrite fill_cached. case_decide as E.
        -- subst q. rewrite Hcp. exact Hview.
        -- destruct (cached s q); [reflexivity|]. exact (Hd q Hq).
      * intros q Hq. unfold base. rewrite fill_cached. case_decide as E.
        -- subst q. rewrite Hcp. exact Hbase.
        -- destruct (cached s q); [reflexivity|]. exact (Hd q Hq).
      * apply disk_moves_eq; [intros q Hq; exact (Hd q Hq)|exact Hsize].
    + unfold pin_at at 1. rewrite fill_lookup, decide_True by done. rewrite Hpi, Ng, Pg. reflexivity.
    + by left.
    + intros j Hj. unfold pin_at. rewrite fill_lookup. by rewrite decide_False by congruence.
    + unfold pins. cbn. rewrite (sum_pins_insert _ i f) by exact Hf. lia.
    + intros fid n Hn Hlt [H1 H2]. split; [cbn; by rewrite Hsize|]. intros q j. rewrite fill_table. case_decide as E; [subst q; auto|apply H2].
Qed.
End fill.

(** Another pin of a cached page. *)
Lemma repin_ok W s p i f r : pool_ok W s -> page_table s !! p = Some i -> frames s !! i = Some f ->
  pins s < 65535 -> let s' := set_frame i (frame_pin (wrap 16 (pin f + 1)) (frame_ref r f)) s in pool_ok W s' /\ pinned s s' p i.
Proof.
  intros Hok Hi Hf Hpins s'. pose proof Hi as Hi'. apply (po_table _ _ Hok) in Hi' as (f' & Hf' & Vf & Pf). rewrite Hf in Hf'. injection Hf' as <-.
  pose proof (pool_frame _ _ _ _ Hok Hf) as Hfo. pose proof (pin_le _ _ _ _ Hok Hf). pose proof (fo_pin _ _ _ Hfo).
  assert (wrap 16 (pin f + 1) = pin f + 1) as Hw by (apply wrap_small; lia). subst s'. rewrite Hw. set (g := frame_pin (pin f + 1) (frame_ref r f)).
  assert (forall q, cached (set_frame i g s) q = if decide (p = q) then Some g else cached s q) as Hc.
  { intros q. rewrite <- (set_disk_id s) at 1. rewrite (sf_cached W s i f g (disk s) Hok Hf eq_refl eq_refl).
    destruct (decide (p = q)) as [E|E]; [rewrite decide_True by (split; congruence)|rewrite decide_False by (intros [_ E2]; congruence)]; reflexivity. }
  assert (cached s p = Some f) as Hcp by (apply (cached_spec W s _ _ Hok); by exists i).
  split.
  - apply (ok_flags W s i f g Hok Hf); [done..|]. destruct Hfo. split; cbn; try assumption; auto; lia.
  - split.
    + split; try reflexivity; [| |by apply disk_moves_eq|cbn; apply length_insert].
      * intros q Hq. unfold view. rewrite Hc. case_decide; [|reflexivity]. subst q. by rewrite Hcp.
      * intros q Hq. unfold base. rewrite Hc. case_decide; [|reflexivity]. subst q. by rewrite Hcp.
    + unfold pin_at. cbn. rewrite list_lookup_insert_eq by (by eapply lookup_lt_Some). rewrite Hf. cbn.
      destruct (Z.ltb_spec 0 (pin f + 1)); [|lia]. rewrite Pf. destruct (Z.ltb_spec 0 (pin f)); cbn; [done|]. do 2 f_equal. lia.
    + unfold pin_at. rewrite Hf, Pf. destruct (0 <? pin f); [right; eauto|by left].
    + intros j Hj. unfold pin_at. cbn. by rewrite list_lookup_insert_ne by congruence.
    + unfold pins. cbn. rewrite (sum_pins_insert _ i f) by done. cbn. lia.
    + by intros.
Qed.

Lemma pinned_keeps s s1 s2 p i : keeps s s1 -> pinned s1 s2 p i -> pinned s s2 p i.
Proof.
  intros Hk []. pose proof (k_pin _ _ Hk) as Hp. split.
  - eapply same_trans; [by apply keeps_same|done].
  - by rewrite <- Hp.
  - by rewrite <- Hp.
  - intros j Hj. rewrite <- Hp. by apply g_ne0.
  - rewrite g_pins0. by rewrite (k_pins _ _ Hk).
  - intros f n Hn Hlt Hw. apply g_within0; [done..|]. by apply (k_within _ _ Hk).
Qed.

Lemma set_frame_twice i g h s : set_frame i g (set_frame i h s) = set_frame i g s.
Proof. unfold set_frame, set_frames. cbn. by rewrite list_insert_insert_eq. Qed.
Lemma frame_at_set i g s : (i < length (frames s))%nat -> frame_at i (set_frame i g s) = g.
Proof. intros Hi. unfold frame_at. cbn. by rewrite list_lookup_insert_eq. Qed.
Lemma file_size_fd d f g : file_size (fd_for d f) g = file_size d g.
Proof. unfold file_size. by rewrite file_bytes_fd. Qed.
Lemma read_page_dpage d p : (read_page d (file_id p) (page_no p)).2 = dpage d p.
Proof. by rewrite dpage_eq. Qed.
Lemma read_page_files d f pg : (read_page d f pg).1 = fd_for d f.
Proof. with_strategy transparent [read_page] reflexivity. Qed.

(** Reading pins the page, whatever the cache does; a page not cached is checked. *)
Lemma read_gen W s p m : pool_ok W s -> 0 <= page_no p -> pins s < 65535 ->
  (page_table s !! p = None -> unpinned_frame s) -> (page_table s !! p = None -> page_valid (view s p) m = true) ->
  exists i s', read p m s = (Ok i, s') /\ pool_ok W s' /\ pinned s s' p i.
Proof.
  intros Hok Hp Hpins Hroom Hvalid. unfold read, find. destruct (page_table s !! p) as [i|] eqn:Ei.
  - pose proof Ei as Hi. apply (po_table _ _ Hok) in Hi as (f & Hf & _). rewrite (frame_at_lookup _ _ _ Hf).
    eexists _, _. split; [reflexivity|]. by apply (repin_ok W s p i f true Hok Ei Hf).
  - destruct (evict_finds W s Hok (Hroom eq_refl)) as (i & s1 & He & Hok1 & Hk & Hv). run He. rewrite run_modify.
    pose proof Hv as (f & Hf & _). pose proof (lookup_lt_Some _ _ _ Hf) as Hi.
    rewrite run_gets, run_modify. cbn [disk set_frame set_frames set_table]. fold (set_frames (frames s1) s1).
    rewrite read_page_dpage. assert (dpage (disk s1) p = view s p) as Hd.
    { rewrite <- (k_view _ _ Hk p Hp). unfold view, cached. by rewrite (k_table _ _ Hk p Ei). }
    rewrite Hd. rewrite (Hvalid eq_refl). cbn [negb]. rewrite run_modify. cbv beta.
    set (g := mkFrame p true false true 1 (view s p) (view s p)).
    set (d := (read_page (disk s1) (file_id p) (page_no p)).1).
    exists i, (set_frame i g (set_table (<[p := i]> (page_table s1)) (set_disk d s1))). split.
    { unfold mret, st_ret. f_equal. rewrite !frame_at_set by (cbn; rewrite ?length_insert; exact Hi).
      unfold set_frame, set_frames, set_table, set_disk. cbn. by rewrite !list_insert_insert_eq. }
    assert (zlen (view s p) = PAGE_SIZE) as Hl by (rewrite <- Hd; by apply zlen_dpage).
    destruct (fill_ok W s1 i p g d Hok1 Hv (k_table _ _ Hk p Ei)) as [H1 H2]; try done.
    + intros q Hq. by apply dpage_fd.
    + intros fid. unfold d. rewrite read_page_files. apply file_size_fd.
    + split; cbn; try done; try lia. intros _ _. unfold d. rewrite dpage_fd by done. by rewrite Hd.
    + split; [exact H1|by eapply pinned_keeps].
Qed.

(** Allocating pins a page that reads as zeros so far. *)
Lemma allocate_gen W s p : pool_ok W s -> 0 <= page_no p -> pins s < 65535 ->
  (page_table s !! p = None -> unpinned_frame s) -> (page_table s !! p = None -> view s p = zero_page) ->
  exists i s', allocate p s = (Ok i, s') /\ pool_ok W s' /\ pinned s s' p i.
Proof.
  intros Hok Hp Hpins Hroom Hzero. unfold allocate, find. destruct (page_table s !! p) as [i|] eqn:Ei.
  - pose proof Ei as Hi. apply (po_table _ _ Hok) in Hi as (f & Hf & _). rewrite (frame_at_lookup _ _ _ Hf).
    eexists _, _. split; [reflexivity|].
    assert (frame_pin (wrap 16 (pin f + 1)) f = frame_pin (wrap 16 (pin f + 1)) (frame_ref (fref f) f)) as -> by (by destruct f).
    by apply (repin_ok W s p i f (fref f) Hok Ei Hf).
  - destruct (evict_finds W s Hok (Hroom eq_refl)) as (i & s1 & He & Hok1 & Hk & Hv). run He. rewrite run_modify.
    eexists i, _. split; [reflexivity|].
    assert (dpage (disk s1) p = zero_page) as Hd.
    { rewrite <- (Hzero eq_refl), <- (k_view _ _ Hk p Hp). unfold view, cached. by rewrite (k_table _ _ Hk p Ei). }
    destruct (fill_ok W s1 i p (mkFrame p true true true 1 zero_page zero_page) (disk s1) Hok1 Hv (k_table _ _ Hk p Ei)) as [H1 H2]; try done.
    rewrite set_disk_id in H1, H2. split; [exact H1|by eapply pinned_keeps].
Qed.

(** With fewer pins than frames. *)
Lemma read_ok W s p m : pool_ok W s -> 0 <= page_no p -> pins s < zlen (frames s) ->
  (page_table s !! p = None -> page_valid (view s p) m = true) ->
  exists i s', read p m s = (Ok i, s') /\ pool_ok W s' /\ pinned s s' p i.
Proof.
  intros Hok Hp Hlt Hv. pose proof (po_size _ _ Hok). apply read_gen; try done; [lia|]. intros _. by apply (free_frame W).
Qed.
Lemma allocate_ok W s p : pool_ok W s -> 0 <= page_no p -> pins s < zlen (frames s) ->
  (page_table s !! p = None -> view s p = zero_page) ->
  exists i s', allocate p s = (Ok i, s') /\ pool_ok W s' /\ pinned s s' p i.
Proof.
  intros Hok Hp Hlt Hv. pose proof (po_size _ _ Hok). apply allocate_gen; try done; [lia|]. intros _. by apply (free_frame W).
Qed.

(** * Using a pinned page *)
(** What rolling back now would leave in page [p]. *)
Definition undo_list (s : Store) : list UndoEntry := match ctx s with Some c => undo c | None => [] end.
Definition rolled (s : Store) (p : PageId) : bytes := undo_page p (rev (undo_list s)) (base s p).
Lemma same_rolled s s' p : same s s' -> 0 <= page_no p -> rolled s' p = rolled s p.
Proof. intros [] Hp. unfold rolled, undo_list. by rewrite s_ctx0, s_base0. Qed.

(** A frame that stays at its page takes new contents [g]; the disk, the table and the pins stay. *)
Section rewrite_frame.
Context (W W' : gset PageId) (s : Store) (i : nat) (p : PageId) (n : Z) (f g : PageFrame).
Context (Hok : pool_ok W s) (Hpin : pin_at s i = Some (p, n)) (Hf : frames s !! i = Some f).
Context (Hv : valid g = valid f) (Hp : fpage g = fpage f) (Hn : pin g = pin f).
Context (Hg : frame_ok (disk s) W' g) (HW : forall q, q <> p -> q ∈ W <-> q ∈ W').
Notation s' := (set_frame i g s).
Lemma rf_valid : valid f = true /\ fpage f = p /\ pin f = n /\ 0 < n.
Proof using All.
  apply pin_at_spec in Hpin as (f' & Hf' & H1 & H2 & H3). rewrite Hf in Hf'. injection Hf' as <-.
  split; [|done]. apply (fo_pinned _ _ _ (pool_frame _ _ _ _ Hok Hf)). lia.
Qed.
Lemma rf_cached q : cached s' q = if decide (q = p) then Some g else cached s q.
Proof using All.
  destruct rf_valid as (V & P & _). rewrite <- (set_disk_id s) at 1. rewrite (sf_cached W s i f g (disk s) Hok Hf Hv Hp).
  destruct (decide (q = p)) as [->|E]; [by rewrite decide_True|]. rewrite decide_False; [done|]. intros [_ E2]. congruence.
Qed.
Lemma rf_was : cached s p = Some f.
Proof using All. destruct rf_valid as (V & P & _). apply (cached_spec W s _ _ Hok). by exists i. Qed.
Lemma rf_ok : pool_ok W' s'.
Proof using All.
  destruct rf_valid as (V & P & _). rewrite <- (set_disk_id s). apply (sf_ok W W' s i f g (disk s) Hok Hf Hv Hp); [|exact Hg].
  intros h j Hj Hh []. split; try assumption.
  - intros Vh Hnot. apply fo_logged0; [done|]. intros Hin. apply Hnot. apply (HW (fpage h)); [|done].
    intros E. apply Hj. eapply (frame_unique W s j i h f); [done..|]. congruence.
  - intros Vh Hin. apply fo_writing0; [done|]. apply (HW (fpage h)); [|done].
    intros E. apply Hj. eapply (frame_unique W s j i h f); [done..|]. congruence.
Qed.
Lemma rf_view q : view s' q = if decide (q = p) then fdata g else view s q.
Proof using All. unfold view. rewrite rf_cached. by case_decide. Qed.
Lemma rf_base q : base s' q = if decide (q = p) then before g else base s q.
Proof using All. unfold base. rewrite rf_cached. by case_decide. Qed.
Lemma rf_pin_at j : pin_at s' j = pin_at s j.
Proof using All.
  rewrite <- (set_disk_id s) at 1. rewrite (sf_pin_at s i f g (disk s) Hf Hp). case_decide as E; [subst j|done].
  unfold pin_at. by rewrite Hf, Hn.
Qed.
Lemma rf_pins : pins s' = pins s.
Proof using All. unfold pins. cbn. rewrite (sum_pins_insert _ i f) by done. lia. Qed.
End rewrite_frame.

(** The contents of page [p] become [b]; [logged]: the log knows. *)
Record wrote_page (s s' : Store) (p : PageId) (b : bytes) (logged : bool) : Prop := {
  w_view q : view s' q = if decide (q = p) then b else view s q;
  w_base q : base s' q = if decide (q = p) then (if logged then b else base s p) else base s q;
  w_rolled q : rolled s' q = rolled s q;
  w_pin i : pin_at s' i = pin_at s i;
  w_pins : pins s' = pins s;
  w_att : attached s' = attached s;
  w_ctx : is_Some (ctx s') <-> is_Some (ctx s);
  w_len : length (frames s') = length (frames s);
  w_within f n : within s f n <-> within s' f n;
  w_disk : disk s' = disk s }.

Lemma poke_ok W s i p n b : pool_ok W s -> pin_at s i = Some (p, n) -> zlen b = PAGE_SIZE ->
  exists s', poke i b s = (Ok tt, s') /\ pool_ok ({[p]} ∪ W) s' /\ wrote_page s s' p b false /\ wal s' = wal s /\ ctx s' = ctx s.
Proof.
  intros Hok Hpin Hb. pose proof Hpin as (f & Hf & Hp & Hn & Hpos)%pin_at_spec.
  set (g := frame_data b f). eexists. split; [unfold poke, modify; rewrite (frame_at_lookup _ _ _ Hf); reflexivity|].
  pose proof (pool_frame _ _ _ _ Hok Hf) as Hfo.
  assert (frame_ok (disk s) ({[p]} ∪ W) g) as Hg.
  { destruct Hfo. split; cbn; try assumption; intros; [set_solver|lia]. }
  assert (forall q, q <> p -> q ∈ W <-> q ∈ {[p]} ∪ W) as HW by set_solver.
  split; [|split; [|by split]].
  - by apply (rf_ok W ({[p]} ∪ W) s i p n f g).
  - assert (forall q, base (set_frame i g s) q = base s q) as Hbase.
    { intros q. rewrite (rf_base W ({[p]} ∪ W) s i p n f g) by done. case_decide as E; [subst q|done].
      unfold base. by rewrite (rf_was W ({[p]} ∪ W) s i p n f g). }
    split; try reflexivity.
    + intros q. by rewrite (rf_view W ({[p]} ∪ W) s i p n f g).
    + intros q. rewrite Hbase. case_decide; by subst.
    + intros q. unfold rolled. by rewrite Hbase.
    + intros j. by apply (rf_pin_at W ({[p]} ∪ W) s i p n f g).
    + by apply (rf_pins W ({[p]} ∪ W) s i p n f g).
    + cbn. apply length_insert.
Qed.

Definition logged_ctx (c : TxnContext) (p : PageId) (b d : bytes) : TxnContext :=
  mkTxn (txn_id c) (wrote c || negb (is_nil (diff_regions b d))) (undo c ++ (undo_entry p b <$> diff_regions b d)) (tail_undo c) (pending_drops c).
Definition logged_wal (w : Wal) (t : Z) (p : PageId) (b d : bytes) : Wal := fold_left (log_region p b d t) (diff_regions b d) w.
Lemma mark_dirty_ok W s i p n c : pool_ok W s -> pin_at s i = Some (p, n) -> attached s = true -> ctx s = Some c -> 0 <= page_no p ->
  exists s', mark_dirty i s = (Ok tt, s') /\ pool_ok (W ∖ {[p]}) s' /\ wrote_page s s' p (view s p) true /\
    wal s' = logged_wal (wal s) (txn_id c) p (base s p) (view s p) /\ ctx s' = Some (logged_ctx c p (base s p) (view s p)).
Proof.
  intros Hok Hpin Ha Hc Hp0. pose proof Hpin as (f & Hf & Hp & Hn & Hpos)%pin_at_spec.
  pose proof (pool_frame _ _ _ _ Hok Hf) as Hfo. assert (valid f = true) as V by (apply (fo_pinned _ _ _ Hfo); lia).
  assert (cached s p = Some f) as Hcp by (apply (cached_spec W s _ _ Hok); by exists i).
  assert (view s p = fdata f) as -> by (unfold view; by rewrite Hcp).
  assert (base s p = before f) as -> by (unfold base; by rewrite Hcp).
  set (g := frame_dirty true (frame_before (fdata f) f)).
  set (c' := logged_ctx c p (before f) (fdata f)). set (w := logged_wal (wal s) (txn_id c) p (before f) (fdata f)).
  set (s0 := set_ctx (Some c') (set_wal w s)).
  exists (set_frame i g s0). split.
  { unfold mark_dirty, frame_index. rewrite Hf, V, Ha. cbn [negb].
    rewrite (run_bind _ _ s tt (set_frame i (frame_before (fdata f) f) s0)).
    - unfold modify. f_equal. rewrite frame_at_set by (by eapply lookup_lt_Some). by rewrite set_frame_twice.
    - unfold log_page_diff. rewrite (frame_at_lookup _ _ _ Hf), Hc, Hp. reflexivity. }
  assert (pool_ok W s0) as Hok0 by (destruct Hok; by split).
  assert (frame_ok (disk s0) (W ∖ {[p]}) g) as Hg.
  { destruct Hfo. split; cbn; try done. intros _ Hin. set_solver. }
  assert (forall q, q <> p -> q ∈ W <-> q ∈ W ∖ {[p]}) as HW by set_solver.
  assert (pin_at s0 i = Some (p, n)) as Hpin0 by exact Hpin.
  split; [by apply (rf_ok W (W ∖ {[p]}) s0 i p n f g)|]. split; [|by split]. split; try reflexivity.
  - intros q. rewrite (rf_view W (W ∖ {[p]}) s0 i p n f g) by done. case_decide; [by subst|reflexivity].
  - intros q. rewrite (rf_base W (W ∖ {[p]}) s0 i p n f g) by done. by case_decide.
  - intros q. unfold rolled. rewrite (rf_base W (W ∖ {[p]}) s0 i p n f g) by done.
    unfold undo_list. cbn [ctx set_frame set_frames s0 set_ctx]. rewrite Hc. unfold c', logged_ctx. cbn [undo].
    rewrite rev_app_distr, undo_page_app. destruct (decide (q = p)) as [->|Hne].
    + f_equal. cbn [before g frame_dirty frame_before]. rewrite undo_page_diff by apply Hfo. unfold base. by rewrite Hcp.
    + f_equal. rewrite <- map_rev. by apply undo_page_other.
  - intros j. by apply (rf_pin_at W (W ∖ {[p]}) s0 i p n f g).
  - by apply (rf_pins W (W ∖ {[p]}) s0 i p n f g).
  - cbn. rewrite Hc. split; eauto.
  - cbn. apply length_insert.
Qed.

(** One pin less. *)
Record unpinned (s s' : Store) (p : PageId) (i : nat) (n : Z) : Prop := {
  n_same : same s s';
  n_pin : pin_at s' i = if n =? 1 then None else Some (p, n - 1);
  n_ne j : j <> i -> pin_at s' j = pin_at s j;
  n_pins : pins s' = pins s - 1;
  n_within f m : within s f m -> within s' f m;
  n_disk : disk s' = disk s }.
Lemma unpin_ok W s i p n : pool_ok W s -> pin_at s i = Some (p, n) -> p ∉ W ->
  exists s', unpin i s = (Ok tt, s') /\ pool_ok W s' /\ unpinned s s' p i n.
Proof.
  intros Hok Hpin HW. pose proof Hpin as (f & Hf & Hp & Hn & Hpos)%pin_at_spec.
  pose proof (pool_frame _ _ _ _ Hok Hf) as Hfo. assert (valid f = true) as V by (apply (fo_pinned _ _ _ Hfo); lia).
  unfold unpin, frame_index. rewrite Hf, V, (frame_at_lookup _ _ _ Hf), Hn. destruct (Z.ltb_spec 0 n); [|lia].
  set (g := frame_pin (n - 1) f). eexists. split; [reflexivity|].
  assert (frame_ok (disk s) W g) as Hg.
  { destruct Hfo. split; cbn; try assumption; intros; auto; try lia. subst p. by destruct HW. }
  assert (forall q, cached (set_frame i g s) q = if decide (q = p) then Some g else cached s q) as Hc.
  { intros q. rewrite <- (set_disk_id s) at 1. rewrite (sf_cached W s i f g (disk s) Hok Hf eq_refl eq_refl).
    destruct (decide (q = p)) as [E|E]; [rewrite decide_True by (split; congruence)|rewrite decide_False by (intros [_ E2]; congruence)]; reflexivity. }
  assert (cached s p = Some f) as Hcp by (apply (cached_spec W s _ _ Hok); by exists i).
  split.
  - apply (ok_flags W s i f g Hok Hf); done.
  - split.
    + split; try reflexivity; [| |by apply disk_moves_eq|cbn; apply length_insert].
      * intros q Hq. unfold view. rewrite Hc. case_decide; [|reflexivity]. subst q. by rewrite Hcp.
      * intros q Hq. unfold base. rewrite Hc. case_decide; [|reflexivity]. subst q. by rewrite Hcp.
    + unfold pin_at. cbn. rewrite list_lookup_insert_eq by (by eapply lookup_lt_Some). cbn. rewrite Hp.
      destruct (Z.ltb_spec 0 (n - 1)), (Z.eqb_spec n 1); try lia; done.
    + intros j Hj. unfold pin_at. cbn. by rewrite list_lookup_insert_ne by congruence.
    + unfold pins. cbn. rewrite (sum_pins_insert _ i f) by done. cbn. lia.
    + by intros.
    + done.
Qed.

(** Flushing a page, logged or not cached. *)
Lemma flush_ok W s p : pool_ok W s -> p ∉ W -> exists s', flush p s = (Ok tt, s') /\ pool_ok W s' /\ keeps s s'.
Proof.
  intros Hok HW. unfold flush, find. destruct (page_table s !! p) as [i|] eqn:Ei; [|exists s; split_and!; try done; apply keeps_refl].
  apply (po_table _ _ Hok) in Ei as (f & Hf & V & P). destruct (write_back_ok W s i f Hok Hf) as (s' & H1 & H2 & H3 & _); [congruence|].
  by exists s'.
Qed.

(** * Construction, and the liveness of the clock *)
Lemma pool_new_ok n d w : Z.of_nat n <= 65535 -> pool_ok ∅ (pool_new n d w).
Proof.
  intros Hn. split.
  - intros p i. cbn. rewrite lookup_empty. split; [done|]. intros (f & Hf & V & _). apply lookup_replicate in Hf as [-> _]. done.
  - apply Forall_replicate. split; cbn; try done; apply zlen_zero_page.
  - cbn. by rewrite zlen_replicate.
Qed.

Lemma unpinned_or_not s : unpinned_frame s \/ ~ unpinned_frame s.
Proof.
  destruct (decide (Exists (fun f => pin f = 0) (frames s))) as [H|H].
  - left. apply Exists_exists in H as (f & Hf & Hp). apply list_elem_of_In, list_elem_of_lookup in Hf as [i Hi]. by exists i, f.
  - right. intros (i & f & Hf & Hp). apply H. apply Exists_exists. exists f. split; [|done]. apply list_elem_of_In. by eapply list_elem_of_lookup_2.
Qed.
(** C36. The clock always finds a frame when there is one: if some frame is unpinned, eviction ends within its
    two turns with a vacant frame and every logical page unchanged; if all frames are pinned, it
    reports Internal and changes nothing. *)
Theorem clock_liveness W s : pool_ok W s ->
  (unpinned_frame s /\ exists i s', evict s = (Ok i, s') /\ pool_ok W s' /\ keeps s s' /\ vacant s' i) \/
  (~ unpinned_frame s /\ evict s = (Raise Internal, s)).
Proof.
  intros Hok. destruct (unpinned_or_not s) as [H|H].
  - left. split; [done|]. by apply evict_finds.
  - right. split; [done|]. by apply (evict_full W).
Qed.
Lemma clock_liveness_witness :
  let s := pool_new 2 ∅ (wal_new []) in
  (unpinned_frame s /\ exists i s', evict s = (Ok i, s') /\ pool_ok ∅ s' /\ keeps s s' /\ vacant s' i) \/
  (~ unpinned_frame s /\ evict s = (Raise Internal, s)).
Proof. apply (clock_liveness ∅ (pool_new 2 ∅ (wal_new []))). apply pool_new_ok. lia. Defined.
