(* ===== verification/Txn.v ===== *)
(** Transactions over the buffer pool (src/storage/buffer_pool.cpp, engine.cpp): the pool as a state machine
    that simulates a map of pages, the clock's liveness, and the rollback that restores the pages a
    transaction found. *)
From S2P Require Import Prelude Types Page Wal Disk Recovery State Pool Diff PoolSpec.

(** * Steps *)
(** One call of a user that holds pins: [W] are the pages it has written and not yet marked dirty. *)
Inductive pool_step : gset PageId * Store -> gset PageId * Store -> Prop :=
| ps_read W s p m i s' : 0 <= page_no p -> pins s < 65535 -> read p m s = (Ok i, s') -> pool_step (W, s) (W, s')
| ps_allocate W s p i s' : 0 <= page_no p -> pins s < 65535 -> view s p = zero_page \/ page_table s !! p <> None ->
    allocate p s = (Ok i, s') -> pool_step (W, s) (W, s')
| ps_poke W s i p n b s' : pin_at s i = Some (p, n) -> zlen b = PAGE_SIZE -> poke i b s = (Ok tt, s') -> pool_step (W, s) ({[p]} ∪ W, s')
| ps_mark_dirty W s i p n s' : pin_at s i = Some (p, n) -> is_Some (ctx s) -> mark_dirty i s = (Ok tt, s') -> pool_step (W, s) (W ∖ {[p]}, s')
| ps_unpin W s i p n s' : pin_at s i = Some (p, n) -> p ∉ W -> unpin i s = (Ok tt, s') -> pool_step (W, s) (W, s')
| ps_flush W s p s' : p ∉ W -> flush p s = (Ok tt, s') -> pool_step (W, s) (W, s').

Lemma evict_unpinned W s i s' : pool_ok W s -> evict s = (Ok i, s') -> unpinned_frame s.
Proof. intros Hok He. destruct (unpinned_or_not s) as [H|H]; [done|]. rewrite (evict_full W s Hok H) in He. done. Qed.
Lemma allocate_pins W s p i s' : pool_ok W s -> 0 <= page_no p -> pins s < 65535 -> view s p = zero_page \/ page_table s !! p <> None ->
  allocate p s = (Ok i, s') -> pool_ok W s' /\ pinned s s' p i.
Proof.
  intros Hok Hp Hpins Hz Ha. destruct (allocate_gen W s p Hok Hp Hpins) as (i' & s1 & H1 & H2 & H3).
  - intros Hn. unfold allocate, find in Ha. rewrite Hn in Ha. apply bind_run_ok in Ha as (j & s1 & He & _). by eapply evict_unpinned.
  - intros Hn. by destruct Hz.
  - rewrite Ha in H1. by injection H1 as <- <-.
Qed.
Lemma read_pins W s p m i s' : pool_ok W s -> 0 <= page_no p -> pins s < 65535 ->
  read p m s = (Ok i, s') -> pool_ok W s' /\ pinned s s' p i.
Proof.
  intros Hok Hp Hpins Hr. destruct (read_gen W s p m Hok Hp Hpins) as (i' & s1 & H1 & H2 & H3).
  - intros Hn. unfold read, find in Hr. rewrite Hn in Hr. apply bind_run_ok in Hr as (j & s1 & He & _). by eapply evict_unpinned.
  - intros Hn. unfold read, find in Hr. rewrite Hn in Hr. apply bind_run_ok in Hr as (j & s1 & He & Hr).
    destruct (evict_finds W s Hok (evict_unpinned W s j s1 Hok He)) as (j' & s1' & He' & _ & Hk & _). rewrite He in He'. injection He' as <- <-.
    rewrite run_modify, run_gets, run_modify in Hr. cbn [disk set_frame set_frames set_table] in Hr. rewrite read_page_dpage in Hr.
    assert (dpage (disk s1) p = view s p) as Hd.
    { rewrite <- (k_view _ _ Hk p Hp). unfold view, cached. by rewrite (k_table _ _ Hk p Hn). }
    rewrite Hd in Hr. destruct (page_valid (view s p) m); [done|]. cbn [negb] in Hr. by rewrite run_modify in Hr.
  - rewrite Hr in H1. by injection H1 as <- <-.
Qed.

(** ** The abstract machine *)
(** Pages, as the users see them and as the log knows them. *)
Inductive map_step : (PageId -> bytes) * (PageId -> bytes) -> (PageId -> bytes) * (PageId -> bytes) -> Prop :=
| ms_same V B V' B' : (forall p, 0 <= page_no p -> V' p = V p) -> (forall p, 0 <= page_no p -> B' p = B p) -> map_step (V, B) (V', B')
| ms_poke V B p b V' B' : (forall q, V' q = if decide (q = p) then b else V q) -> (forall q, B' q = B q) -> map_step (V, B) (V', B')
| ms_log V B p V' B' : (forall q, V' q = V q) -> (forall q, B' q = if decide (q = p) then V p else B q) -> map_step (V, B) (V', B').

Lemma pin_page_nonneg W s i p n : pool_ok W s -> pin_at s i = Some (p, n) -> 0 <= page_no p.
Proof.
  intros Hok Hp. apply pin_at_spec in Hp as (f & Hf & <- & Hn & Hpos). pose proof (pool_frame _ _ _ _ Hok Hf) as Hfo.
  apply (fo_page _ _ _ Hfo), (fo_pinned _ _ _ Hfo). lia.
Qed.
(** Undo entries that fit their pages. *)
Definition entry_ok (e : UndoEntry) : Prop :=
  0 <= u_page e /\ 0 <= u_off e /\ 0 <= u_len e /\ u_len e <= zlen (u_before e) /\ u_off e + u_len e <= PAGE_SIZE.
Definition undo_ok (s : Store) : Prop := Forall entry_ok (undo_list s).
Lemma base_len W s i p n : pool_ok W s -> pin_at s i = Some (p, n) -> zlen (base s p) = PAGE_SIZE.
Proof.
  intros Hok Hp. apply pin_at_spec in Hp as (f & Hf & Hpg & Hn & Hpos). pose proof (pool_frame _ _ _ _ Hok Hf) as Hfo.
  unfold base. assert (cached s p = Some f) as ->; [|apply Hfo]. apply (cached_spec W s _ _ Hok). exists i. split_and!; [done| |done].
  apply (fo_pinned _ _ _ Hfo). lia.
Qed.
Lemma logged_undo_ok c p b d : zlen b = PAGE_SIZE -> 0 <= page_no p -> Forall entry_ok (undo c) -> Forall entry_ok (undo (logged_ctx c p b d)).
Proof.
  intros Hb Hp Hc. unfold logged_ctx. cbn [undo]. apply Forall_app. split; [done|]. apply Forall_fmap. eapply Forall_impl; [|apply (diff_regions_ok b d)].
  intros r (H1 & H2 & H3). unfold entry_ok, compose, undo_entry. cbn [u_fid u_page u_off u_len u_before]. rewrite zlen_slice by lia. lia.
Qed.
Definition txn_on (s : Store) : Prop := is_Some (ctx s).
Record stepped (W' : gset PageId) (s s' : Store) : Prop := {
  st_ok : pool_ok W' s';
  st_map : map_step (view s, base s) (view s', base s');
  st_rolled p : 0 <= page_no p -> rolled s' p = rolled s p;
  st_undo : undo_ok s -> undo_ok s';
  st_txn : txn_on s -> txn_on s' }.
Lemma same_stepped W s s' : pool_ok W s' -> same s s' -> stepped W s s'.
Proof.
  intros Hok Hs. split; [done| |intros; by apply same_rolled| |].
  - constructor; intros; [by apply (s_view _ _ Hs)|by apply (s_base _ _ Hs)].
  - unfold undo_ok, undo_list. by rewrite (s_ctx _ _ Hs).
  - unfold txn_on. by rewrite (s_ctx _ _ Hs).
Qed.
Lemma step_ok W s W' s' : pool_ok W s -> pool_step (W, s) (W', s') -> stepped W' s s'.
Proof.
  intros Hok Hs. inversion Hs; subst.
  - match goal with H : read _ _ _ = _ |- _ => apply (read_pins W' s) in H as [Q1 Q2]; [|done..] end.
    apply same_stepped; [done|apply Q2].
  - match goal with H : allocate _ _ = _ |- _ => apply (allocate_pins W' s) in H as [Q1 Q2]; [|done..] end.
    apply same_stepped; [done|apply Q2].
  - match goal with H : pin_at _ _ = _, Hb : zlen _ = _ |- _ => destruct (poke_ok W s i p n b Hok H Hb) as (s1 & Q1 & Q2 & Hw & _ & Q3) end.
    match goal with H : poke _ _ _ = _ |- _ => rewrite Q1 in H; injection H as <- end. split; [done| |intros; apply (w_rolled _ _ _ _ _ Hw)| |apply (w_ctx _ _ _ _ _ Hw)]; [|unfold undo_ok, undo_list; rewrite Q3; exact id].
    apply (ms_poke _ _ p b); [apply (w_view _ _ _ _ _ Hw)|]. intros q. rewrite (w_base _ _ _ _ _ Hw). case_decide; by subst.
  - match goal with H : pin_at _ _ = _, Hc : is_Some _ |- _ => destruct Hc as [c Hsome]; rename H into Hpin end.
    match goal with H : mark_dirty _ _ = _ |- _ => rename H into Hm end.
    assert (attached s = true) as Ha.
    { unfold mark_dirty in Hm. destruct (frame_index i s); [|done]. by destruct (attached s). }
    destruct (mark_dirty_ok W s i p n c Hok Hpin Ha Hsome (pin_page_nonneg _ _ _ _ _ Hok Hpin)) as (s1 & Q1 & Q2 & Hw & _ & Q3).
    rewrite Q1 in Hm. injection Hm as <-. split; [done| |intros; apply (w_rolled _ _ _ _ _ Hw)| |apply (w_ctx _ _ _ _ _ Hw)];
      [|unfold undo_ok, undo_list; rewrite Q3, Hsome; intros Hu; apply logged_undo_ok; [exact (base_len W s i p n Hok Hpin)|exact (pin_page_nonneg W s i p n Hok Hpin)|exact Hu]].
    apply (ms_log _ _ p); [|apply (w_base _ _ _ _ _ Hw)]. intros q. rewrite (w_view _ _ _ _ _ Hw). case_decide; by subst.
  - match goal with H : pin_at _ _ = _, HW : _ ∉ _ |- _ => destruct (unpin_ok W' s i p n Hok H HW) as (s1 & Q1 & Q2 & Q3) end.
    match goal with H : unpin _ _ = _ |- _ => rewrite Q1 in H; injection H as <- end. apply same_stepped; [done|apply Q3].
  - match goal with HW : _ ∉ _ |- _ => destruct (flush_ok W' s p Hok HW) as (s1 & Q1 & Q2 & Q3) end.
    match goal with H : flush _ _ = _ |- _ => rewrite Q1 in H; injection H as <- end. apply same_stepped; [done|by apply keeps_same].
Qed.

Lemma steps_ok W s W' s' : pool_ok W s -> rtc pool_step (W, s) (W', s') ->
  pool_ok W' s' /\ rtc map_step (view s, base s) (view s', base s') /\ (forall p, 0 <= page_no p -> rolled s' p = rolled s p) /\
  (undo_ok s -> undo_ok s') /\ (txn_on s -> txn_on s').
Proof.
  intros Hok Hs. remember (W, s) as a eqn:Ea. remember (W', s') as c eqn:Ec. revert W s Ea Hok.
  induction Hs as [x|x [W1 s1] z H1 _ IH]; intros W s -> Hok.
  - injection Ec as -> ->. split_and!; (done || apply rtc_refl).
  - destruct (step_ok W s W1 s1 Hok H1) as [K1 K2 K3 K4 K5]. destruct (IH Ec W1 s1 eq_refl K1) as (I1 & I2 & I3 & I4 & I5).
    split_and!; [done|by eapply rtc_l| |auto|auto]. intros p Hp. rewrite I3 by done. by apply K3.
Qed.

(** * Rollback *)
Lemma restore_ok s e : pool_ok ∅ s -> entry_ok e -> let p := mkPid (u_fid e) (u_page e) in
  exists s', restore_region p (u_off e) (u_len e) (u_before e) s = (Ok tt, s') /\ pool_ok ∅ s' /\
    (forall q, 0 <= page_no q -> view s' q = undo_one q (view s q) e) /\ length (frames s') = length (frames s) /\ pins s' = pins s /\
    attached s' = attached s /\ ctx s' = ctx s /\ wal s' = wal s.
Proof.
  intros Hok (Hp & H1 & H2 & H3 & H4) p. unfold restore_region, find. set (b := slice 0 (u_len e) (u_before e)).
  assert (zlen b = u_len e) as Hb by (unfold b; rewrite zlen_slice; lia).
  assert (forall x, zlen x = PAGE_SIZE -> zlen (splice (u_off e) b x) = PAGE_SIZE) as Hsp by (intros x Hx; rewrite zlen_splice; lia).
  destruct (page_table s !! p) as [i|] eqn:Ei.
  - apply (po_table _ _ Hok) in Ei as (f & Hf & V & P). rewrite (frame_at_lookup _ _ _ Hf).
    pose proof (pool_frame _ _ _ _ Hok Hf) as Hfo.
    set (g := frame_dirty true (frame_before (splice (u_off e) b (before f)) (frame_data (splice (u_off e) b (fdata f)) f))).
    assert (fdata f = before f) as Hdb by (apply (fo_logged _ _ _ Hfo); [done|set_solver]).
    assert (frame_ok (disk s) ∅ g) as Hg.
    { destruct Hfo. split; cbn; auto; try done. intros _ _. by rewrite Hdb. }
    exists (set_frame i g s). split; [done|]. split; [|split_and!; try done].
    + rewrite <- (set_disk_id s). by apply (sf_ok ∅ ∅ s i f g (disk s)).
    + intros q Hq. unfold view. rewrite <- (set_disk_id s) at 1. rewrite (sf_cached ∅ s i f g (disk s) Hok Hf eq_refl eq_refl).
      unfold undo_one. fold p b. destruct (decide (p = q)) as [<-|Hne].
      * rewrite decide_True by done. by assert (cached s p = Some f) as -> by (apply (cached_spec ∅ s _ _ Hok); by exists i).
      * rewrite decide_False; [done|]. intros [_ E]. congruence.
    + cbn. apply length_insert.
    + unfold pins. cbn. rewrite (sum_pins_insert _ i f) by done. cbn. lia.
  - change (page_no p) with (u_page e). change (file_id p) with (u_fid e).
    assert (dpage (disk s) p = (read_page (disk s) (u_fid e) (u_page e)).2) as Hbuf by apply dpage_eq.
    assert (read_page (disk s) (u_fid e) (u_page e) = ((read_page (disk s) (u_fid e) (u_page e)).1, dpage (disk s) p)) as ->
      by (rewrite Hbuf; by destruct (read_page _ _ _)).
    set (d := (read_page (disk s) (u_fid e) (u_page e)).1). fold b.
    assert (forall q, 0 <= page_no q -> dpage (write_page d (u_fid e) (u_page e) (splice (u_off e) b (dpage (disk s) p))) q =
      if decide (p = q) then splice (u_off e) b (dpage (disk s) p) else dpage (disk s) q) as Hd.
    { intros q Hq. rewrite (dpage_write d p) by (try done; apply Hsp; by apply zlen_dpage). case_decide; [done|]. by apply (dpage_fd (disk s) p). }
    eexists. split; [reflexivity|]. split; [|split_and!; try done].
    + split; [apply Hok| |apply Hok]. apply Forall_lookup. intros j h Hh. pose proof (pool_frame _ _ _ _ Hok Hh) as [].
      split; try assumption. intros V D. cbn [disk set_disk]. rewrite Hd by auto. rewrite decide_False; [auto|].
      intros E. assert (page_table s !! p = Some j) by (apply (po_table _ _ Hok); exists h; by rewrite E). congruence.
    + intros q Hq. unfold view. change (cached (set_disk ?x s) q) with (cached s q). unfold undo_one. fold p b.
      destruct (decide (p = q)) as [<-|Hne].
      * unfold cached. rewrite Ei. cbn. unfold disk_page. cbn [disk set_disk]. rewrite Hd by done. by rewrite decide_True.
      * destruct (cached s q); [done|]. unfold disk_page. cbn [disk set_disk]. rewrite Hd by done. by rewrite decide_False.
Qed.

Definition restore_entry (e : UndoEntry) : ST Store unit := restore_region (mkPid (u_fid e) (u_page e)) (u_off e) (u_len e) (u_before e).
Lemma restore_all s es : pool_ok ∅ s -> Forall entry_ok es ->
  exists s', forM es restore_entry s = (Ok tt, s') /\ pool_ok ∅ s' /\ (forall q, 0 <= page_no q -> view s' q = undo_page q es (view s q)) /\
    length (frames s') = length (frames s) /\ pins s' = pins s /\ attached s' = attached s /\ ctx s' = ctx s /\ wal s' = wal s.
Proof.
  intros Hok Hes. revert s Hok. induction Hes as [|e es He _ IH]; intros s Hok; [by exists s|].
  destruct (restore_ok s e Hok He) as (s1 & R1 & R2 & R3 & R4 & R5 & R6 & R7 & R8).
  destruct (IH s1 R2) as (s2 & I1 & I2 & I3 & I4 & I5 & I6 & I7 & I8). exists s2. cbn [forM]. unfold restore_entry at 1. run R1.
  split_and!; [done|done| |congruence..]. intros q Hq. rewrite I3, R3 by done. done.
Qed.

Lemma view_base s p : pool_ok ∅ s -> view s p = base s p.
Proof.
  intros Hok. unfold view, base. destruct (cached s p) as [f|] eqn:E; [|done].
  apply (cached_spec ∅ s _ _ Hok) in E as (i & Hf & V & _). apply (fo_logged _ _ _ (pool_frame _ _ _ _ Hok Hf)); [done|set_solver].
Qed.
(** Undoing gives every page the contents [rolled] names. *)
Lemma rollback_view s : pool_ok ∅ s -> undo_ok s ->
  exists s', forM (rev (undo_list s)) restore_entry s = (Ok tt, s') /\ pool_ok ∅ s' /\ (forall p, 0 <= page_no p -> view s' p = rolled s p) /\
    length (frames s') = length (frames s) /\ pins s' = pins s /\ attached s' = attached s /\ ctx s' = ctx s /\ wal s' = wal s.
Proof.
  intros Hok Hu. destruct (restore_all s (rev (undo_list s)) Hok) as (s' & R1 & R2 & R3 & R4); [by apply Forall_rev|].
  exists s'. split_and!; try done; try apply R4. intros p Hp. rewrite R3 by done. unfold rolled. by rewrite (view_base s p Hok).
Qed.
Lemma rolled_start s p : pool_ok ∅ s -> undo_list s = [] -> rolled s p = view s p.
Proof. intros Hok Hu. unfold rolled. rewrite Hu. cbn. symmetry. by apply view_base. Qed.
Lemma step_tail W s W' s' : pool_ok W s -> pool_step (W, s) (W', s') -> tail_undo <$> ctx s' = tail_undo <$> ctx s.
Proof.
  intros Hok Hs. inversion Hs; subst.
  - match goal with H : read _ _ _ = _ |- _ => apply (read_pins W' s) in H as [_ Q2]; [|done..] end. by rewrite (s_ctx _ _ (g_same _ _ _ _ Q2)).
  - match goal with H : allocate _ _ = _ |- _ => apply (allocate_pins W' s) in H as [_ Q2]; [|done..] end. by rewrite (s_ctx _ _ (g_same _ _ _ _ Q2)).
  - match goal with H : poke _ _ _ = _ |- _ => unfold poke, modify in H; by injection H as <- end.
  - match goal with H : mark_dirty _ _ = _, Hp : pin_at _ _ = _, Hc : is_Some _ |- _ => rename H into Hm, Hp into Hpin; destruct Hc as [c Hsome] end.
    assert (attached s = true) as Ha.
    { unfold mark_dirty in Hm. destruct (frame_index i s); [|done]. by destruct (attached s). }
    destruct (mark_dirty_ok W s i p n c Hok Hpin Ha Hsome (pin_page_nonneg _ _ _ _ _ Hok Hpin)) as (s1 & Q1 & _ & _ & _ & Q3).
    rewrite Q1 in Hm. injection Hm as <-. by rewrite Q3, Hsome.
  - match goal with H : pin_at _ _ = _, HW : _ ∉ _ |- _ => destruct (unpin_ok W' s i p n Hok H HW) as (s1 & Q1 & _ & Q3) end.
    match goal with H : unpin _ _ = _ |- _ => rewrite Q1 in H; injection H as <- end. by rewrite (s_ctx _ _ (n_same _ _ _ _ _ Q3)).
  - match goal with HW : _ ∉ _ |- _ => destruct (flush_ok W' s p Hok HW) as (s1 & Q1 & _ & Q3) end.
    match goal with H : flush _ _ = _ |- _ => rewrite Q1 in H; injection H as <- end. by rewrite (k_ctx _ _ Q3).
Qed.


(** One frame, two pages: the second allocation evicts the first page and writes it back. *)
Definition demo_store : Store := set_txn true (set_ctx (Some (mkTxn 1 false [] [] [])) (pool_new 1 ∅ (wal_new []))).
Definition demo_one : bytes := <[0%nat := 1]> zero_page.
Definition demo_run : list Store :=
  let s1 := (allocate (mkPid 5 1) demo_store).2 in let s2 := (poke 0 demo_one s1).2 in let s3 := (mark_dirty 0 s2).2 in
  let s4 := (unpin 0 s3).2 in let s5 := (allocate (mkPid 5 2) s4).2 in [s1; s2; s3; s4; s5].
Definition demo_at (i : nat) : Store := nth i demo_run demo_store.
Lemma demo_zero s p : cached s p = None -> bool_decide (0 <= page_no p /\ file_size (disk s) (file_id p) <= page_no p * PAGE_SIZE) = true ->
  view s p = zero_page.
Proof. intros Hc [H1 H2]%bool_decide_eq_true. unfold view. rewrite Hc. by apply dpage_past. Qed.
