(* ===== verification/Session.v ===== *)
(** Sessions over the buffer pool: what a run of reads, page rewrites and unpins by a client of the pool leaves
    unchanged, stated once for the B+ tree and the engine. *)
From S2P Require Import Prelude Types Page Wal Disk Recovery State Pool Diff PoolSpec Txn.

(** The pages outside [T] keep their contents, rolling back leads where it led, and only pages of [U] are
    brought into the pool. *)
Record evolves (T U : PageId -> Prop) (s s' : Store) : Prop := {
  ev_view p : 0 <= page_no p -> ~ T p -> view s' p = view s p;
  ev_rolled p : 0 <= page_no p -> rolled s' p = rolled s p;
  ev_disk p : 0 <= page_no p -> ~ T p -> disk_page s' p = disk_page s p \/ disk_page s' p = view s' p;
  ev_whole f : whole (disk s) f -> whole (disk s') f;
  ev_undo : undo_ok s -> undo_ok s';
  ev_att : attached s' = attached s;
  ev_txn : txn_on s -> txn_on s';
  ev_drops : pending_drops <$> ctx s' = pending_drops <$> ctx s;
  ev_len : length (frames s') = length (frames s);
  ev_within f n : 0 <= n -> (forall p, U p -> file_id p = f -> page_no p < n) -> within s f n -> within s' f n }.
Lemma evolves_refl T U s : evolves T U s s.
Proof. split; try done. by left. Qed.
Lemma evolves_trans T U s1 s2 s3 : evolves T U s1 s2 -> evolves T U s2 s3 -> evolves T U s1 s3.
Proof.
  intros A B. split.
  - intros p Hp Ht. by rewrite (ev_view _ _ _ _ B), (ev_view _ _ _ _ A).
  - intros p Hp. by rewrite (ev_rolled _ _ _ _ B), (ev_rolled _ _ _ _ A).
  - intros p Hp Ht. destruct (ev_disk _ _ _ _ B p Hp Ht) as [-> |]; [|by right].
    rewrite (ev_view _ _ _ _ B) by done. by apply (ev_disk _ _ _ _ A).
  - intros f H. by apply (ev_whole _ _ _ _ B), (ev_whole _ _ _ _ A).
  - intros H. by apply (ev_undo _ _ _ _ B), (ev_undo _ _ _ _ A).
  - by rewrite (ev_att _ _ _ _ B), (ev_att _ _ _ _ A).
  - intros H. by apply (ev_txn _ _ _ _ B), (ev_txn _ _ _ _ A).
  - by rewrite (ev_drops _ _ _ _ B), (ev_drops _ _ _ _ A).
  - by rewrite (ev_len _ _ _ _ B), (ev_len _ _ _ _ A).
  - intros f n Hn Hu Hw. apply (ev_within _ _ _ _ B); [done..|]. by apply (ev_within _ _ _ _ A).
Qed.
Lemma evolves_weaken (T U T' U' : PageId -> Prop) s s' : evolves T U s s' -> (forall p, T p -> T' p) -> (forall p, U p -> U' p) -> evolves T' U' s s'.
Proof.
  intros A Ht Hu. split; try apply A.
  - intros p Hp Hn. apply (ev_view _ _ _ _ A); [done|]. auto.
  - intros p Hp Hn. apply (ev_disk _ _ _ _ A); [done|]. auto.
  - intros f n Hn Hl. apply (ev_within _ _ _ _ A); auto.
Qed.
Lemma same_evolves (T U : PageId -> Prop) s s' : same s s' ->
  (forall f n, 0 <= n -> (forall p, U p -> file_id p = f -> page_no p < n) -> within s f n -> within s' f n) -> evolves T U s s'.
Proof.
  intros Hs Hw. split; try apply Hs; try done.
  - intros p Hp _. by apply (s_view _ _ Hs).
  - intros p Hp. by apply same_rolled.
  - intros p Hp _. rewrite (s_view _ _ Hs) by done. by apply (dm_page _ _ (s_disk _ _ Hs)).
  - unfold undo_ok, undo_list. by rewrite (s_ctx _ _ Hs).
  - unfold txn_on. by rewrite (s_ctx _ _ Hs).
  - by rewrite (s_ctx _ _ Hs).
Qed.

(** * Pins *)
Definition pins_eq (s s' : Store) : Prop := (forall i, pin_at s' i = pin_at s i) /\ pins s' = pins s.
(** One pin more, of page [p] in frame [i]. *)
Record holds (s s' : Store) (p : PageId) (i : nat) : Prop := {
  ho_pin : pin_at s' i = Some (p, pin_count (pin_at s i) + 1);
  ho_was : pin_at s i = None \/ exists n, pin_at s i = Some (p, n);
  ho_ne j : j <> i -> pin_at s' j = pin_at s j;
  ho_pins : pins s' = pins s + 1 }.
Lemma pins_eq_refl s : pins_eq s s.
Proof. done. Qed.
Lemma pins_eq_trans s1 s2 s3 : pins_eq s1 s2 -> pins_eq s2 s3 -> pins_eq s1 s3.
Proof. intros [A1 A2] [B1 B2]. split; [intros i; by rewrite B1|by rewrite B2]. Qed.
Lemma pinned_holds s s' p i : pinned s s' p i -> holds s s' p i.
Proof. intros []. by split. Qed.
Lemma holds_eq s0 s s' p i : holds s0 s p i -> pins_eq s s' -> holds s0 s' p i.
Proof.
  intros [] [E1 E2]. split; [by rewrite E1|done| |by rewrite E2]. intros j Hj. rewrite E1. auto.
Qed.
Lemma eq_holds s0 s s' p i : pins_eq s0 s -> holds s s' p i -> holds s0 s' p i.
Proof.
  intros [E1 E2] []. split; rewrite <- ?E1, <- ?E2; try done. intros j Hj. rewrite <- E1. auto.
Qed.
Lemma pin_at_pos W s i p n : pool_ok W s -> pin_at s i = Some (p, n) -> 0 < n.
Proof. intros Hok (f & _ & _ & _ & H)%pin_at_spec. done. Qed.
Lemma holds_unpinned W s0 s s' p i n : pool_ok W s0 -> holds s0 s p i -> pin_at s i = Some (p, n) -> unpinned s s' p i n -> pins_eq s0 s'.
Proof.
  intros Hok [] Hn Hu. rewrite ho_pin0 in Hn. injection Hn as <-. split; [|pose proof (n_pins _ _ _ _ _ Hu); lia].
  intros j. destruct (decide (j = i)) as [E|Hne]; [subst j|].
  - rewrite (n_pin _ _ _ _ _ Hu). destruct ho_was0 as [E|[m E]]; rewrite E; cbn [pin_count].
    + done.
    + pose proof (pin_at_pos W s0 i p m Hok E). destruct (Z.eqb_spec (m + 1) 1); [lia|]. do 2 f_equal. lia.
  - rewrite (n_ne _ _ _ _ _ Hu) by done. auto.
Qed.
Lemma holds_frames s0 s s' p i q j : holds s0 s p i -> holds s s' q j -> p <> q -> i <> j.
Proof.
  intros H1 H2 Hne ->. destruct (ho_was _ _ _ _ H2) as [E|[n E]]; rewrite (ho_pin _ _ _ _ H1) in E; [done|]. injection E as E1 E2. congruence.
Qed.
(** Two pins released in the order they were taken. *)
Lemma holds_swap W s0 s1 s2 s' p i q j n : pool_ok W s0 -> holds s0 s1 p i -> holds s1 s2 q j -> p <> q -> pin_at s2 i = Some (p, n) ->
  unpinned s2 s' p i n -> holds s0 s' q j.
Proof.
  intros Hok H1 H2 Hne Hn Hu. pose proof (holds_frames _ _ _ _ _ _ _ H1 H2 Hne) as Hij.
  assert (pin_at s1 j = pin_at s0 j) as E1 by (apply (ho_ne _ _ _ _ H1); congruence).
  rewrite (ho_ne _ _ _ _ H2 i Hij), (ho_pin _ _ _ _ H1) in Hn. injection Hn as <-. split.
  - rewrite (n_ne _ _ _ _ _ Hu) by congruence. by rewrite (ho_pin _ _ _ _ H2), E1.
  - rewrite <- E1. apply (ho_was _ _ _ _ H2).
  - intros k Hk. destruct (decide (k = i)) as [E|E]; [subst k|].
    + rewrite (n_pin _ _ _ _ _ Hu). destruct (ho_was _ _ _ _ H1) as [X|[m X]]; rewrite X; cbn [pin_count]; [done|].
      pose proof (pin_at_pos W s0 i p m Hok X). destruct (Z.eqb_spec (m + 1) 1); [lia|]. do 2 f_equal. lia.
    + rewrite (n_ne _ _ _ _ _ Hu) by done. rewrite (ho_ne _ _ _ _ H2) by done. by apply (ho_ne _ _ _ _ H1).
  - rewrite (n_pins _ _ _ _ _ Hu), (ho_pins _ _ _ _ H2), (ho_pins _ _ _ _ H1). lia.
Qed.
Lemma data_view W s i p n : pool_ok W s -> pin_at s i = Some (p, n) -> data i s = view s p.
Proof.
  intros Hok Hp. pose proof Hp as (f & Hf & Hpg & _ & Hpos)%pin_at_spec. unfold data. rewrite (frame_at_lookup _ _ _ Hf).
  unfold view. assert (cached s p = Some f) as ->; [|reflexivity]. apply (cached_spec W s _ _ Hok). exists i. split_and!; [done| |done].
  apply (fo_pinned _ _ _ (pool_frame _ _ _ _ Hok Hf)). apply pin_at_spec in Hp as (f' & Hf' & _ & <- & ?). rewrite Hf in Hf'. by injection Hf' as <-.
Qed.
Lemma holds_page_nonneg W s0 s p i : pool_ok W s -> holds s0 s p i -> 0 <= page_no p.
Proof. intros Hok H. eapply pin_page_nonneg; [done|apply (ho_pin _ _ _ _ H)]. Qed.

(** * The calls of a session *)
Definition no_page : PageId -> Prop := fun _ => False.
Section calls.
Context (W : gset PageId) (s : Store) (Hok : pool_ok W s).
Lemma read_session p m : 0 <= page_no p -> pins s < zlen (frames s) -> page_valid (view s p) m = true ->
  exists i s', read p m s = (Ok i, s') /\ pool_ok W s' /\ evolves no_page (eq p) s s' /\ holds s s' p i /\ data i s' = view s p.
Proof using Hok.
  intros Hp Hpins Hv. destruct (read_ok W s p m Hok Hp Hpins) as (i & s' & H1 & H2 & H3); [done|].
  exists i, s'. split_and!; [done|done| |by apply pinned_holds|].
  - apply same_evolves; [apply H3|]. intros f n Hn Hu. apply (g_within _ _ _ _ H3); [done|]. intros Hf. by apply Hu.
  - rewrite (data_view W s' i p _ H2 (g_pin _ _ _ _ H3)). by apply (s_view _ _ (g_same _ _ _ _ H3)).
Qed.
Lemma allocate_session p : 0 <= page_no p -> pins s < zlen (frames s) -> view s p = zero_page ->
  exists i s', allocate p s = (Ok i, s') /\ pool_ok W s' /\ evolves no_page (eq p) s s' /\ holds s s' p i.
Proof using Hok.
  intros Hp Hpins Hv. destruct (allocate_ok W s p Hok Hp Hpins) as (i & s' & H1 & H2 & H3); [done|].
  exists i, s'. split_and!; [done|done| |by apply pinned_holds].
  apply same_evolves; [apply H3|]. intros f n Hn Hu. apply (g_within _ _ _ _ H3); [done|]. intros Hf. by apply Hu.
Qed.
Lemma unpin_session W0 s0 p i : pool_ok W0 s0 -> holds s0 s p i -> p ∉ W ->
  exists s', unpin i s = (Ok tt, s') /\ pool_ok W s' /\ evolves no_page no_page s s' /\ pins_eq s0 s' /\ disk s' = disk s.
Proof using Hok.
  intros Hok0 Hh HW. destruct (unpin_ok W s i p _ Hok (ho_pin _ _ _ _ Hh) HW) as (s' & H1 & H2 & H3).
  exists s'. split_and!; [done|done| |by eapply (holds_unpinned W0 s0 s); [|exact Hh|apply (ho_pin _ _ _ _ Hh)|]|apply H3].
  apply same_evolves; [apply H3|]. intros f n _ _. apply (n_within _ _ _ _ _ H3).
Qed.
Lemma flush_session p : p ∉ W -> exists s', flush p s = (Ok tt, s') /\ pool_ok W s' /\ evolves no_page no_page s s' /\ pins_eq s s'.
Proof using Hok.
  intros HW. destruct (flush_ok W s p Hok HW) as (s' & H1 & H2 & H3). exists s'. split_and!; [done|done| |split; apply H3].
  apply same_evolves; [by apply keeps_same|]. intros f n Hn _. by apply (k_within _ _ H3).
Qed.
(** A pinned page takes the contents [b]; then the change is logged. *)
Lemma poke_session p i n b : pin_at s i = Some (p, n) -> zlen b = PAGE_SIZE ->
  exists s', poke i b s = (Ok tt, s') /\ pool_ok ({[p]} ∪ W) s' /\ evolves (eq p) no_page s s' /\ pins_eq s s' /\ view s' p = b /\ disk s' = disk s.
Proof using Hok.
  intros Hpin Hb. destruct (poke_ok W s i p n b Hok Hpin Hb) as (s' & P1 & P2 & P3 & P4 & P5).
  exists s'. split_and!; [done|done| |split; apply P3|rewrite (w_view _ _ _ _ _ P3); by rewrite decide_True|apply P3]. split.
  - intros q Hq Hne. rewrite (w_view _ _ _ _ _ P3), decide_False by congruence. done.
  - intros q Hq. apply (w_rolled _ _ _ _ _ P3).
  - intros q _ _. left. unfold disk_page. by rewrite (w_disk _ _ _ _ _ P3).
  - intros f. by rewrite (w_disk _ _ _ _ _ P3).
  - unfold undo_ok, undo_list. by rewrite P5.
  - apply (w_att _ _ _ _ _ P3).
  - unfold txn_on. by rewrite P5.
  - by rewrite P5.
  - apply (w_len _ _ _ _ _ P3).
  - intros f m _ _ Hw. by apply (w_within _ _ _ _ _ P3).
Qed.
Lemma mark_session p i n : pin_at s i = Some (p, n) -> attached s = true -> txn_on s ->
  exists s', mark_dirty i s = (Ok tt, s') /\ pool_ok (W ∖ {[p]}) s' /\ evolves no_page no_page s s' /\ pins_eq s s' /\ disk s' = disk s.
Proof using Hok.
  intros Hpin Ha [c Hc]. pose proof (pin_page_nonneg _ _ _ _ _ Hok Hpin) as Hp.
  destruct (mark_dirty_ok W s i p n c Hok Hpin Ha Hc Hp) as (s' & M1 & M2 & M3 & M4 & M5).
  exists s'. split_and!; [done|done| |split; apply M3|apply M3]. split.
  - intros q Hq _. rewrite (w_view _ _ _ _ _ M3). case_decide; by subst.
  - intros q Hq. apply (w_rolled _ _ _ _ _ M3).
  - intros q _ _. left. unfold disk_page. by rewrite (w_disk _ _ _ _ _ M3).
  - intros f. by rewrite (w_disk _ _ _ _ _ M3).
  - unfold undo_ok, undo_list. rewrite Hc, M5. intros Hu. apply logged_undo_ok; [|done|done]. exact (base_len W s i p n Hok Hpin).
  - apply (w_att _ _ _ _ _ M3).
  - intros _. unfold txn_on. rewrite M5. by eexists.
  - by rewrite M5, Hc.
  - apply (w_len _ _ _ _ _ M3).
  - intros f m _ _ Hw. by apply (w_within _ _ _ _ _ M3).
Qed.
End calls.
Lemma unpinned_evolves s s' p i n : unpinned s s' p i n -> evolves no_page no_page s s'.
Proof. intros H. apply same_evolves; [apply H|]. intros f m _ _. apply (n_within _ _ _ _ _ H). Qed.
Lemma evolves_no T U s s' : evolves no_page no_page s s' -> evolves T U s s'.
Proof. intros H. apply (evolves_weaken _ _ _ _ _ _ H); by intros ? []. Qed.
(** Both at once. *)
Lemma rewrite_session s p i n b : pool_ok ∅ s -> pin_at s i = Some (p, n) -> attached s = true -> txn_on s -> zlen b = PAGE_SIZE ->
  exists s1 s', poke i b s = (Ok tt, s1) /\ mark_dirty i s1 = (Ok tt, s') /\ pool_ok ∅ s' /\ evolves (eq p) no_page s s' /\ pins_eq s s' /\ view s' p = b /\ disk s' = disk s.
Proof.
  intros Hok Hpin Ha Ht Hb. destruct (poke_session ∅ s Hok p i n b Hpin Hb) as (s1 & P1 & P2 & P3 & P4 & P5 & P6).
  destruct (mark_session _ s1 P2 p i n) as (s' & M1 & M2 & M3 & M4 & M5);
    [by rewrite (proj1 P4)|by rewrite (ev_att _ _ _ _ P3)|by apply (ev_txn _ _ _ _ P3)|].
  exists s1, s'. split_and!; [done|done| | | | |congruence].
  - assert (({[p]} ∪ ∅) ∖ {[p]} = (∅ : gset PageId)) as E by set_solver. by rewrite E in M2.
  - eapply evolves_trans; [exact P3|by apply evolves_no].
  - by eapply pins_eq_trans.
  - rewrite <- P5. apply (ev_view _ _ _ _ M3); [exact (pin_page_nonneg _ _ _ _ _ Hok Hpin)|by intros []].
Qed.

(** Pages past the end of a file read as zeros. *)
Lemma beyond_zero s f n p : within s f n -> file_id p = f -> n <= page_no p -> 0 <= n -> view s p = zero_page.
Proof.
  intros [H1 H2] Hf Hp Hn. unfold view, cached. destruct (page_table s !! p) as [i|] eqn:E.
  - pose proof (H2 p i E Hf). lia.
  - cbn. apply dpage_past; [lia|]. rewrite Hf. unfold PAGE_SIZE in *. lia.
Qed.
Lemma page_count_within s f n : within s f n -> 0 <= n -> n < 2 ^ 32 -> page_count (disk s) f <= n.
Proof.
  intros [H _] Hn Hb. unfold page_count. unfold file_size in *. pose proof (zlen_nonneg (file_bytes (disk s) f)).
  assert (0 <= zlen (file_bytes (disk s) f) / PAGE_SIZE <= n) as Hd.
  { split; [apply Z.div_pos; unfold PAGE_SIZE; lia|]. apply Z.div_le_upper_bound; unfold PAGE_SIZE in *; lia. }
  rewrite wrap_small; lia.
Qed.

(** A read past the pool opens the file. *)
Lemma touch_session W s f n : pool_ok W s -> let s' := set_disk (read_page (disk s) f n).1 s in
  pool_ok W s' /\ evolves no_page no_page s s' /\ pins_eq s s' /\ forall p, 0 <= page_no p -> disk_page s' p = disk_page s p.
Proof.
  intros Hok s'. assert (forall p, 0 <= page_no p -> disk_page s' p = disk_page s p) as Hd.
  { intros p Hp. unfold disk_page, s'. cbn [disk set_disk]. by apply (dpage_fd (disk s) (mkPid f n)). }
  assert (forall q, 0 <= page_no q -> view s' q = view s q /\ base s' q = base s q) as Hv.
  { intros q Hq. unfold view, base. change (cached s' q) with (cached s q). destruct (cached s q); [done|]. by rewrite Hd. }
  split; [|split; [|done]].
  - split; [apply Hok| |apply Hok]. apply Forall_lookup. intros i fr Hi. destruct (pool_frame _ _ _ _ Hok Hi).
    split; try assumption. intros V D. specialize (Hd (fpage fr) (fo_page V)). unfold disk_page in Hd. rewrite Hd. auto.
  - split; try done.
    + intros q Hq _. by apply Hv.
    + intros q Hq. unfold rolled. by rewrite (proj2 (Hv q Hq)).
    + intros q Hq _. left. by apply Hd.
    + intros g. unfold whole, s'. cbn [disk set_disk]. by rewrite read_page_files, file_size_fd.
    + intros g m _ _ [W1 W2]. split; [|done]. unfold s'. cbn [disk set_disk]. by rewrite read_page_files, file_size_fd.
Qed.

(** * A new file *)
Lemma cell_create d f g i : file_size d f = 0 -> 0 <= i -> cell (create_table_file d f) g i = cell d g i.
Proof.
  intros Hs Hi. unfold cell, create_table_file, file_bytes. destruct (decide (g = f)) as [->|Hne].
  - rewrite lookup_insert_eq. cbn [default]. assert (default [] (d !! f) = []) as ->.
    { unfold file_size, file_bytes, zlen in Hs. destruct (default [] (d !! f)); [done|]. cbn [length] in Hs. lia. }
    unfold id. rewrite byte_at_truncate by (unfold PAGE_SIZE; lia). rewrite (byte_at_past []) by done. by destruct (_ <? _).
  - rewrite lookup_insert_ne by done. unfold fd_for. destruct (d !! f); [done|]. by rewrite lookup_insert_ne.
Qed.
Lemma dpage_create d f q : file_size d f = 0 -> 0 <= page_no q -> dpage (create_table_file d f) q = dpage d q.
Proof. intros Hs Hq. rewrite !dpage_eq. apply read_page_ext; [done|]. intros i Hi. by apply cell_create. Qed.
Lemma file_size_create d f g : file_size (create_table_file d f) g = if decide (g = f) then PAGE_SIZE else file_size d g.
Proof.
  unfold file_size, create_table_file, file_bytes. case_decide as E.
  - subst g. rewrite lookup_insert_eq. cbn [default]. unfold id. apply zlen_truncate. unfold PAGE_SIZE. lia.
  - rewrite lookup_insert_ne by done. unfold fd_for. destruct (d !! f); [done|]. by rewrite lookup_insert_ne.
Qed.
Lemma create_file_session W s f : pool_ok W s -> within s f 0 -> let s' := set_disk (create_table_file (disk s) f) s in
  pool_ok W s' /\ evolves no_page (eq (mkPid f 0)) s s' /\ pins_eq s s' /\ within s' f 1.
Proof.
  intros Hok [Hsz Htab] s'. assert (file_size (disk s) f = 0) as Hs.
  { pose proof (zlen_nonneg (file_bytes (disk s) f)). unfold file_size in *. lia. }
  assert (forall q, 0 <= page_no q -> view s' q = view s q /\ base s' q = base s q) as Hv.
  { intros q Hq. unfold view, base. change (cached s' q) with (cached s q). destruct (cached s q); [done|].
    unfold disk_page, s'. cbn [disk set_disk]. by rewrite dpage_create. }
  split; [|split; [|split; [done|]]].
  - split; [apply Hok| |apply Hok]. apply Forall_lookup. intros i fr Hi. destruct (pool_frame _ _ _ _ Hok Hi).
    split; try assumption. intros V D. unfold s'. cbn [disk set_disk]. rewrite dpage_create by auto. auto.
  - split; try done.
    + intros q Hq _. by apply Hv.
    + intros q Hq. unfold rolled. rewrite (proj2 (Hv q Hq)). done.
    + intros q Hq _. left. unfold disk_page, s'. cbn [disk set_disk]. by apply dpage_create.
    + intros g. unfold whole, s'. cbn [disk set_disk]. rewrite file_size_create. case_decide; [|done]. intros _. by exists 1.
    + intros g n Hn Hu [W1 W2]. split; [|done]. unfold s'. cbn [disk set_disk]. rewrite file_size_create. case_decide as E; [|done].
      subst g. specialize (Hu _ eq_refl eq_refl). cbn in Hu. unfold PAGE_SIZE. lia.
  - split; [unfold s'; cbn [disk set_disk]; rewrite file_size_create, decide_True by done; lia|].
    intros q i Hq Hf. specialize (Htab q i Hq Hf). lia.
Qed.
