(* ===== verification/Shape.v ===== *)
(** The shape of a B+ tree over the pages of its file: the height-indexed representation predicate, its frame
    rule, the routing of an entry to a child, and the chain of leaves. *)
From Stdlib Require Import Sorting.Sorted.
From stdpp Require Import sorting.
From S2P Require Import Prelude Types Page Key Node.

(** * Representation *)
(** [V no] is the content of page [no]; entries are bounded by ranks [lo <= . < hi]; [first] is the leftmost
    leaf, [nxt] the page after the last leaf, [es] the entries, [fp] the pages. *)
Definition Subtree : Type := Z -> Z -> Z -> Z -> Z -> list BTreeEntry -> list Z -> Prop.
Inductive forest (T : Subtree) : Z -> list (BTreeEntry * Z) -> Z -> Z -> Z -> Z -> list BTreeEntry -> list Z -> Prop :=
| f_one c lo hi first nxt es fp : lo < hi -> T c lo hi first nxt es fp -> forest T c [] lo hi first nxt es fp
| f_cons c k c' rest lo hi first mid nxt es es' fp fp' : lo < erank k ->
    T c lo (erank k) first mid es fp -> forest T c' rest (erank k) hi mid nxt es' fp' ->
    forest T c ((k, c') :: rest) lo hi first nxt (es ++ es') (fp ++ fp').
Definition leaf_ok (p : bytes) : Prop := leaf_wf p /\ page_valid p MAGIC_BTREE_LEAF = true.
Definition node_ok (p : bytes) : Prop := node_wf p /\ page_valid p MAGIC_BTREE_LEAF = true.
Fixpoint tree_at (V : Z -> bytes) (h : nat) : Subtree :=
  match h with
  | O => fun no lo hi first nxt es fp =>
      leaf_ok (V no) /\ leaf_entries (V no) = es /\ ordered es /\ Forall (fun e => lo <= erank e < hi) es /\
      first = no /\ h_next_page (V no) = nxt /\ fp = [no]
  | S h => fun no lo hi first nxt es fp =>
      exists c rest fp', node_ok (V no) /\ node_seps (V no) = rest.*1 /\ node_children (V no) = c :: rest.*2 /\
        forest (tree_at V h) c rest lo hi first nxt es fp' /\ fp = no :: fp'
  end.

(** * The frame rule *)
Lemma forest_mono (T T' : Subtree) c rest lo hi first nxt es fp : forest T c rest lo hi first nxt es fp ->
  (forall x a b f n l g, T x a b f n l g -> g ⊆ fp -> T' x a b f n l g) -> forest T' c rest lo hi first nxt es fp.
Proof.
  induction 1 as [|c k c' rest lo hi first mid nxt es es' fp fp' Hk Ht _ IH]; intros HT.
  - constructor; [done|]. by apply HT.
  - econstructor; [done|apply HT; [done|set_solver]|]. apply IH. intros. apply HT; [done|set_solver].
Qed.
Lemma tree_frame V V' h : forall no lo hi first nxt es fp, tree_at V h no lo hi first nxt es fp ->
  (forall p, p ∈ fp -> V' p = V p) -> tree_at V' h no lo hi first nxt es fp.
Proof.
  induction h as [|h IH]; cbn [tree_at]; intros no lo hi first nxt es fp.
  - intros (H1 & H2 & H3 & H4 & H5 & H6 & ->) HV. rewrite !HV by set_solver. done.
  - intros (c & rest & fp' & H1 & H2 & H3 & H4 & ->) HV. exists c, rest, fp'. rewrite !HV by set_solver. split_and!; try done.
    eapply forest_mono; [done|]. intros x a b f n l g Ht Hg. apply (IH _ _ _ _ _ _ _ Ht). intros p Hp. apply HV. set_solver.
Qed.

(** * Order and bounds *)
Definition sound (T : Subtree) : Prop := forall no lo hi first nxt es fp, T no lo hi first nxt es fp ->
  ordered es /\ Forall (fun e => lo <= erank e < hi) es /\ Forall btree_entry_ok es.
Lemma ordered_app l l' m : ordered l -> ordered l' -> Forall (fun e => erank e < m) l -> Forall (fun e => m <= erank e) l' -> ordered (l ++ l').
Proof.
  unfold ordered, ranks. intros H1 H2 F1 F2. rewrite fmap_app. apply StronglySorted_app; split_and!; [|done|done].
  intros x y Hx Hy. apply list_elem_of_fmap_1 in Hx as (a & -> & Ha). apply list_elem_of_fmap_1 in Hy as (b & -> & Hb).
  rewrite list.Forall_forall in F1, F2. specialize (F1 _ Ha). specialize (F2 _ Hb). cbv beta in *. lia.
Qed.
Lemma forest_sound (T : Subtree) c rest lo hi first nxt es fp : sound T -> forest T c rest lo hi first nxt es fp ->
  lo < hi /\ ordered es /\ Forall (fun e => lo <= erank e < hi) es /\ Forall btree_entry_ok es.
Proof.
  intros HT. induction 1 as [c lo hi first nxt es fp Hlt Ht|c k c' rest lo hi first mid nxt es es' fp fp' Hk Ht _ (I1 & I2 & I3 & I4)].
  - split; [done|]. by apply (HT _ _ _ _ _ _ _ Ht).
  - destruct (HT _ _ _ _ _ _ _ Ht) as (J1 & J2 & J3). split; [lia|]. split_and!.
    + apply (ordered_app _ _ (erank k)); [done|done|eapply list.Forall_impl; [exact J2|cbv beta; lia]|eapply list.Forall_impl; [exact I3|cbv beta; lia]].
    + apply Forall_app. split; [eapply list.Forall_impl; [exact J2|]|eapply list.Forall_impl; [exact I3|]]; cbv beta; lia.
    + by apply Forall_app.
Qed.
Lemma tree_sound V h : sound (tree_at V h).
Proof.
  induction h as [|h IH]; intros no lo hi first nxt es fp; cbn [tree_at].
  - intros ([H1 _] & <- & H3 & H4 & _). split_and!; [done|done|apply H1].
  - intros (c & rest & fp' & _ & _ & _ & Hf & _). apply (forest_sound _ _ _ _ _ _ _ _ _ IH) in Hf as (_ & H). exact H.
Qed.
(** The separators of a forest are in order, strictly between the bounds. *)
Lemma forest_seps (T : Subtree) c rest lo hi first nxt es fp : forest T c rest lo hi first nxt es fp ->
  lo < hi /\ ordered rest.*1 /\ Forall (fun k => lo < erank k < hi) rest.*1.
Proof.
  induction 1 as [|c k c' rest lo hi first mid nxt es es' fp fp' Hk Ht _ (I1 & I2 & I3)]; [split_and!; [done|constructor|constructor]|].
  split; [lia|]. cbn [fmap list_fmap fst]. split.
  - unfold ordered, ranks. cbn [fmap list_fmap]. constructor; [exact I2|]. apply Forall_fmap. eapply list.Forall_impl; [exact I3|]. unfold compose. lia.
  - constructor; [lia|]. eapply list.Forall_impl; [exact I3|]. cbv beta. lia.
Qed.

(** * Routing *)
(** Child [j] of a forest, and what the forest becomes when the child is replaced, or split in two, while the
    other subtrees stay. *)
Record routed (T : Subtree) (c : Z) (rest : list (BTreeEntry * Z)) (lo hi first nxt : Z) (es : list BTreeEntry) (fp : list Z)
  (j : nat) (r : Z) (cj lo' hi' first' nxt' : Z) (L1 Lj L2 : list BTreeEntry) (F1 Fj F2 : list Z) : Prop := {
  ro_child : (c :: rest.*2) !! j = Some cj;
  ro_tree : T cj lo' hi' first' nxt' Lj Fj;
  ro_range : lo' <= r < hi';
  ro_bounds : lo <= lo' /\ hi' <= hi;
  ro_es : es = L1 ++ Lj ++ L2;
  ro_fp : fp = F1 ++ Fj ++ F2;
  ro_plug (T' : Subtree) :
    (forall x a b f n l g, T x a b f n l g -> g ⊆ F1 ++ F2 -> T' x a b f n l g) ->
    (forall Lj' Fj', T' cj lo' hi' first' nxt' Lj' Fj' -> forest T' c rest lo hi first nxt (L1 ++ Lj' ++ L2) (F1 ++ Fj' ++ F2)) /\
    (forall k right mid La Lb Fa Fb, lo' < erank k < hi' -> T' cj lo' (erank k) first' mid La Fa -> T' right (erank k) hi' mid nxt' Lb Fb ->
      forest T' c (take j rest ++ (k, right) :: drop j rest) lo hi first nxt (L1 ++ (La ++ Lb) ++ L2) (F1 ++ (Fa ++ Fb) ++ F2)) }.
Lemma forest_route (T : Subtree) c rest lo hi first nxt es fp j r : forest T c rest lo hi first nxt es fp -> lo <= r < hi ->
  (j <= length rest)%nat -> Forall (fun k => erank k <= r) (take j rest.*1) -> Forall (fun k => r < erank k) (drop j rest.*1) ->
  exists cj lo' hi' first' nxt' L1 Lj L2 F1 Fj F2, routed T c rest lo hi first nxt es fp j r cj lo' hi' first' nxt' L1 Lj L2 F1 Fj F2.
Proof.
  intros Hf. revert j. induction Hf as [c lo hi first nxt es fp Hlt Ht|c k c' rest lo hi first mid nxt es es' fp fp' Hk Ht Hf IH]; intros j Hr Hj H1 H2.
  - cbn in Hj. assert (j = 0%nat) as -> by lia. exists c, lo, hi, first, nxt, [], es, [], [], fp, []. split; cbn; rewrite ?app_nil_r; try done; try lia.
    intros T' HT'. split; [intros; rewrite ?app_nil_r; by constructor|]. intros k right mid La Lb Fa Fb Hk Ha Hb. rewrite !app_nil_r.
    econstructor; [lia|done|]. constructor; [lia|done].
  - destruct (forest_seps _ _ _ _ _ _ _ _ _ Hf) as (Hkh & _). destruct j as [|j]; cbn in Hj, H1, H2.
    + apply Forall_cons_1 in H2 as [H2 _]. exists c, lo, (erank k), first, mid, [], es, es', [], fp, fp'. split; cbn; try done; try lia.
      intros T' HT'. assert (forest T' c' rest (erank k) hi mid nxt es' fp') as Hf'.
      { eapply forest_mono; [done|]. intros. by apply HT'. }
      split; [intros; by econstructor|]. intros k' right mid' La Lb Fa Fb Hk' Ha Hb. rewrite <- !app_assoc.
      econstructor; [lia|done|]. econstructor; [lia|done|done].
    + apply Forall_cons_1 in H1 as [H1 H1']. destruct (IH j ltac:(lia) ltac:(lia) H1' H2)
        as (cj & lo' & hi' & first' & nxt' & L1 & Lj & L2 & F1 & Fj & F2 & [R1 R2 R3 R4 R5 R6 R7]).
      exists cj, lo', hi', first', nxt', (es ++ L1), Lj, L2, (fp ++ F1), Fj, F2. subst es' fp'. split; cbn; rewrite <- ?app_assoc; try done; try lia.
      intros T' HT'. assert (T' c lo (erank k) first mid es fp) as Ht' by (apply HT'; [done|set_solver]).
      destruct (R7 T') as [P1 P2]. { intros. apply HT'; [done|set_solver]. }
      split.
      * intros Lj' Fj' Hj'. rewrite <- !app_assoc. econstructor; [done|done|]. by apply P1.
      * intros k' right mid' La Lb Fa Fb Hk' Ha Hb. rewrite <- !(app_assoc es), <- !(app_assoc fp). econstructor; [done|done|]. by eapply P2.
Qed.
(** A forest cut at a separator. *)
Lemma forest_split (T : Subtree) c r1 k c' r2 lo hi first nxt es fp : forest T c (r1 ++ (k, c') :: r2) lo hi first nxt es fp ->
  exists mid es1 es2 fp1 fp2, es = es1 ++ es2 /\ fp = fp1 ++ fp2 /\ lo < erank k < hi /\
    forest T c r1 lo (erank k) first mid es1 fp1 /\ forest T c' r2 (erank k) hi mid nxt es2 fp2.
Proof.
  revert c lo first es fp. induction r1 as [|[k1 c1] r1 IH]; intros c lo first es fp Hf; cbn in Hf; inversion Hf; subst.
  - match goal with H : forest _ _ r2 _ _ _ _ _ _ |- _ => pose proof (forest_seps _ _ _ _ _ _ _ _ _ H) as (? & _) end.
    eexists _, _, _, _, _. split_and!; [done|done|done|done|by constructor|done].
  - match goal with H : forest _ _ (r1 ++ _) _ _ _ _ _ _ |- _ => apply IH in H as (mid' & e1 & e2 & f1 & f2 & -> & -> & ? & G1 & G2) end.
    eexists mid', _, _, _, _. split_and!; [apply app_assoc|apply app_assoc|lia|lia|by econstructor|done].
Qed.
