(* ===== verification/Tree.v ===== *)
(** The B+ tree (src/storage/btree.cpp, btree.h): creation, opening, insertion with page splits and the range
    scanner, over the buffer pool. *)
From S2P Require Import Prelude Types Page Key Wal Disk Recovery State Node Pool.

(** * The root in the file header page *)
Definition file_root (p : bytes) : Z := get_u 4 PAGE_HEADER_SIZE p.
Definition set_file_root (v : Z) (p : bytes) : bytes := put_u 4 PAGE_HEADER_SIZE v p.

(** * State *)
Record BTree := mkTree { tree_file : Z; root_page : Z; next_page_hint : Z }.
Record TreeState := mkTS { store : Store; tree : BTree }.
(** A call of the pool or of the file manager. *)
Definition pooled {A} (m : ST Store A) : ST TreeState A := fun t =>
  let '(r, s) := m (store t) in (r, mkTS s (tree t)).
Definition set_tree (b : BTree) (t : TreeState) : TreeState := mkTS (store t) b.
Definition set_root_page (no : Z) (b : BTree) : BTree := mkTree (tree_file b) no (next_page_hint b).
Definition set_hint (n : Z) (b : BTree) : BTree := mkTree (tree_file b) (root_page b) n.

(** [split] with the entry raised and the new right page, or none. *)
Definition BTreeSplit : Type := option (BTreeEntry * Z).

(** * Operations *)
Definition tree_page (no : Z) : ST TreeState PageId := gets (fun t => mkPid (tree_file (tree t)) no).
Definition page_bytes (i : nat) : ST TreeState bytes := gets (fun t => data i (store t)).
(** The end of a page's rewriting: its bytes are in place, the checksum is not. *)
Definition finish (i : nat) (b : bytes) : ST TreeState unit :=
  _ ← pooled (poke i (seal b));
  _ ← pooled (mark_dirty i);
  pooled (unpin i).

Definition create : ST TreeState unit :=
  pid0 ← tree_page 0;
  _ ← pooled (modify (fun s => set_disk (create_table_file (disk s) (file_id pid0)) s));
  h0 ← pooled (allocate pid0);
  _ ← pooled (poke h0 (init_page MAGIC_FILE_HEADER PtFileHeader));
  pid1 ← tree_page 1;
  root ← pooled (allocate pid1);
  _ ← pooled (poke root (init_page MAGIC_BTREE_LEAF PtBTreeLeaf));
  p0 ← page_bytes h0;
  _ ← finish h0 (set_file_root 1 p0);
  _ ← pooled (flush pid0);
  _ ← pooled (mark_dirty root);
  _ ← pooled (unpin root);
  modify (fun t => set_tree (mkTree (tree_file (tree t)) 1 2) t).

Definition open : ST TreeState unit :=
  pid0 ← tree_page 0;
  there ← gets (fun t => table_file_exists (disk (store t)) (file_id pid0));
  if negb there then crash else
  h0 ← pooled (read pid0 MAGIC_FILE_HEADER);
  p0 ← page_bytes h0;
  _ ← pooled (unpin h0);
  let root := file_root p0 in
  if root =? 0 then crash else
  n ← gets (fun t => page_count (disk (store t)) (file_id pid0));
  modify (fun t => set_tree (mkTree (tree_file (tree t)) root (Z.max n (wrap 32 (root + 1)))) t).

Definition new_page : ST TreeState (Z * nat) :=
  no ← gets (fun t => Z.max (page_count (disk (store t)) (tree_file (tree t))) (next_page_hint (tree t)));
  pid ← tree_page no;
  pg ← pooled (allocate pid);
  _ ← modify (fun t => set_tree (set_hint (wrap 32 (no + 1)) (tree t)) t);
  mret (no, pg).

Definition read_tree (no : Z) : ST TreeState nat :=
  pid ← tree_page no;
  pg ← pooled (read pid MAGIC_BTREE_LEAF);
  p ← page_bytes pg;
  if negb (tree_page_type (h_type p)) then _ ← pooled (unpin pg); crash else mret pg.

Definition set_root (no : Z) : ST TreeState unit :=
  pid0 ← tree_page 0;
  h0 ← pooled (read pid0 MAGIC_FILE_HEADER);
  p0 ← page_bytes h0;
  _ ← finish h0 (set_file_root no p0);
  modify (fun t => set_tree (set_root_page no (tree t)) t).

(** Insertion below page [no], pinned in frame [pg] and holding [p]. *)
Definition insert_leaf (pg : nat) (p : bytes) (e : BTreeEntry) : ST TreeState BTreeSplit :=
  let n := h_slot_count p in
  let pos := leaf_lower_bound p e in
  if SLOT_SIZE + BTREE_CELL_SIZE <=? free_space p then
    _ ← finish pg (leaf_insert_at p pos e); mret None
  else
    let entries := leaf_entries p in
    let entries := take (Z.to_nat pos) entries ++ e :: drop (Z.to_nat pos) entries in
    let cnt := wrap 16 (zlen entries) in
    let mid := cnt / 2 in
    let old_next := h_next_page p in
    let sep := nth (Z.to_nat mid) entries e in
    '(rno, rpg) ← new_page;
    _ ← finish rpg (set_next_page old_next (leaf_build entries mid cnt));
    _ ← finish pg (set_next_page rno (leaf_build entries 0 mid));
    mret (Some (sep, rno)).
Definition insert_node (pg : nat) (p : bytes) (j : Z) (r : BTreeSplit) : ST TreeState BTreeSplit :=
  match r with
  | None => _ ← pooled (unpin pg); mret None
  | Some (rsep, rright) =>
      let n := h_slot_count p in
      if BTREE_CELL_SIZE + 4 <=? free_space p then
        _ ← finish pg (node_insert_at p j rsep rright); mret None
      else
        let seps := take (Z.to_nat j) (node_seps p) ++ rsep :: drop (Z.to_nat j) (node_seps p) in
        let children := take (Z.to_nat (j + 1)) (node_children p) ++ rright :: drop (Z.to_nat (j + 1)) (node_children p) in
        let cnt := wrap 16 (zlen seps) in
        let mid := cnt / 2 in
        let sep := nth (Z.to_nat mid) seps rsep in
        '(rno, rpg) ← new_page;
        _ ← finish rpg (node_build seps children (wrap 16 (mid + 1)) cnt);
        _ ← finish pg (node_build seps children 0 mid);
        mret (Some (sep, rno))
  end.
(** One page per level stays pinned: a path of pages, each seen once, is no longer than the pool. *)
Fixpoint insert_rec (fuel : nat) (no : Z) (e : BTreeEntry) : ST TreeState BTreeSplit :=
  match fuel with
  | O => crash
  | S fuel =>
      pg ← read_tree no;
      p ← page_bytes pg;
      if h_type p =? page_type_code PtBTreeLeaf then insert_leaf pg p e
      else
        let j := node_child_index p e in
        r ← insert_rec fuel (node_child p j) e;
        p ← page_bytes pg;
        insert_node pg p j r
  end.
Definition insert (e : BTreeEntry) : ST TreeState unit := fun t =>
  (root ← gets (fun t => root_page (tree t));
   r ← insert_rec (S (length (frames (store t)))) root e;
   match r with
   | None => mret tt
   | Some (sep, rright) =>
       old ← gets (fun t => root_page (tree t));
       '(no, pg) ← new_page;
       _ ← finish pg (node_build [sep] [old; rright] 0 1);
       set_root no
   end) t.

(** * The scanner *)
Record BTreeScanner := mkScan {
  lo_bound : option ScanBound; hi_bound : option ScanBound;
  cur : option nat; next_no : Z; slot_idx : Z; finished : bool }.
Definition set_lo (b : option ScanBound) (c : BTreeScanner) : BTreeScanner :=
  mkScan b (hi_bound c) (cur c) (next_no c) (slot_idx c) (finished c).
Definition set_slot_idx (i : Z) (c : BTreeScanner) : BTreeScanner :=
  mkScan (lo_bound c) (hi_bound c) (cur c) (next_no c) i (finished c).
Definition set_cur (o : option nat) (c : BTreeScanner) : BTreeScanner :=
  mkScan (lo_bound c) (hi_bound c) o (next_no c) (slot_idx c) (finished c).
Definition set_finished (c : BTreeScanner) : BTreeScanner :=
  mkScan (lo_bound c) (hi_bound c) (cur c) (next_no c) (slot_idx c) true.

(** The descent of the constructor, from a pinned page. *)
Fixpoint descend (fuel : nat) (lo : option ScanBound) (probe : BTreeEntry) (pg : nat) : ST TreeState nat :=
  p ← page_bytes pg;
  if h_type p =? page_type_code PtBTreeInternal then
    match fuel with
    | O => crash
    | S fuel =>
        let child := match lo with Some _ => node_child_index p probe | None => 0 end in
        _ ← pooled (unpin pg);
        pid ← tree_page (node_child p child);
        pg ← pooled (read pid MAGIC_BTREE_LEAF);
        descend fuel lo probe pg
    end
  else mret pg.
Definition scan_open (fuel : nat) (lo hi : option ScanBound) : ST TreeState BTreeScanner :=
  let probe := mkEntry (match lo with Some b => bkey b | None => mkKey 0 false end) 0 0 in
  root ← gets (fun t => root_page (tree t));
  pid ← tree_page root;
  pg ← pooled (read pid MAGIC_BTREE_LEAF);
  pg ← descend fuel lo probe pg;
  p ← page_bytes pg;
  if negb (h_type p =? page_type_code PtBTreeLeaf) then _ ← pooled (unpin pg); crash
  else mret (mkScan lo hi (Some pg) (h_next_page p) (match lo with Some _ => leaf_lower_bound p probe | None => 0 end) false).
Definition scan_close (c : BTreeScanner) : ST TreeState BTreeScanner :=
  _ ← match cur c with Some pg => pooled (unpin pg) | None => mret tt end;
  mret (set_finished (set_cur None c)).

(** One turn of [next]: the scan ends, an entry is produced, or the loop goes on. *)
Inductive turn := Done | Entry (e : BTreeEntry) | Again.
Definition scan_turn (c : BTreeScanner) : ST TreeState (turn * BTreeScanner) :=
  match cur c with
  | None =>
      if next_no c =? 0 then mret (Done, set_finished c)
      else
        pid ← tree_page (next_no c);
        pg ← pooled (read pid MAGIC_BTREE_LEAF);
        p ← page_bytes pg;
        if negb (h_type p =? page_type_code PtBTreeLeaf) then _ ← pooled (unpin pg); crash
        else mret (Again, mkScan (lo_bound c) (hi_bound c) (Some pg) (h_next_page p) 0 (finished c))
  | Some pg =>
      p ← page_bytes pg;
      if slot_idx c <? h_slot_count p then
        let e := leaf_entry p (slot_idx c) in
        let past := match hi_bound c with
                    | Some b => let r := key_cmp (ekey e) (bkey b) in if inclusive b then r >? 0 else r >=? 0
                    | None => false
                    end in
        if past then mret (Done, set_finished c)
        else
          let next := set_slot_idx (wrap 16 (slot_idx c + 1)) c in
          match lo_bound c with
          | Some b =>
              if inclusive b then mret (Entry e, next)
              else if key_cmp (ekey e) (bkey b) =? 0 then mret (Again, next)
              else mret (Entry e, set_lo None next)
          | None => mret (Entry e, next)
          end
      else
        _ ← pooled (unpin pg);
        mret (Again, set_cur None c)
  end.
Fixpoint scan_next (fuel : nat) (c : BTreeScanner) : ST TreeState (option BTreeEntry * BTreeScanner) :=
  match fuel with
  | O => crash
  | S fuel =>
      if finished c then mret (None, c)
      else
        '(t, c) ← scan_turn c;
        match t with
        | Done => mret (None, c)
        | Entry e => mret (Some e, c)
        | Again => scan_next fuel c
        end
  end.
(** Every entry until the scan ends, then [close]. *)
Fixpoint scan_drain (fuel : nat) (c : BTreeScanner) : ST TreeState (list BTreeEntry) :=
  match fuel with
  | O => crash
  | S n =>
      '(o, c) ← scan_next fuel c;
      match o with
      | None => _ ← scan_close c; mret []
      | Some e => es ← scan_drain n c; mret (e :: es)
      end
  end.
Definition scan (fuel : nat) (lo hi : option ScanBound) : ST TreeState (list BTreeEntry) :=
  c ← scan_open fuel lo hi; scan_drain fuel c.
