(* ===== verification/TreeSpec.v ===== *)
(** Steps of the B+ tree over the pool: what one rewriting of a page, one new page or one page split does to
    the tree's pages and to everything else; the cases of insertion at a leaf and at an internal node. *)
From stdpp Require Import sorting.
From S2P Require Import Prelude Key Types Page Wal Disk Recovery State Node Pool Diff PoolSpec Txn Session Shape Tree.

#[local] Opaque node_build leaf_build leaf_insert_at node_insert_at seal init_page.

(** * Steps on the tree's state *)
Lemma pooled_run {A} (m : ST Store A) t a s : m (store t) = (Ok a, s) -> pooled m t = (Ok a, mkTS s (tree t)).
Proof. unfold pooled. by intros ->. Qed.
Lemma run_page_bytes {A} i (f : bytes -> ST TreeState A) t : (page_bytes i ≫= f) t = f (data i (store t)) t.
Proof. done. Qed.
#[local] Notation fid t := (tree_file (tree t)).
#[local] Notation hint t := (next_page_hint (tree t)).
(** Page [no] of the tree's file. *)
Definition content (t : TreeState) (no : Z) : bytes := view (store t) (mkPid (fid t) no).
Definition writable (s : Store) : Prop := pool_ok ∅ s /\ attached s = true /\ txn_on s.
Lemma evolves_writable T U s s' : evolves T U s s' -> pool_ok ∅ s' -> writable s -> writable s'.
Proof.
  intros He Hok (_ & H1 & H2). split_and!; [done|by rewrite (ev_att _ _ _ _ He)|by apply (ev_txn _ _ _ _ He)].
Qed.

(** Writing a pinned page and letting it go. *)
Lemma finish_ok t s0 p i b : pool_ok ∅ s0 -> writable (store t) -> holds s0 (store t) p i -> zlen b = PAGE_SIZE ->
  exists s', finish i b t = (Ok tt, mkTS s' (tree t)) /\ pool_ok ∅ s' /\ evolves (eq p) no_page (store t) s' /\ pins_eq s0 s' /\ view s' p = seal b.
Proof.
  intros Hok0 (Hok & Ha & Ht) Hh Hb.
  destruct (rewrite_session (store t) p i _ (seal b) Hok (ho_pin _ _ _ _ Hh) Ha Ht) as (s1 & s2 & H1 & H2 & H3 & H4 & H5 & H6 & _).
  { destruct (seal_reads b) as (_ & _ & _ & _ & _ & _ & -> & _); [rewrite Hb; unfold PAGE_SIZE; lia|done]. }
  destruct (unpin_session ∅ s2 H3 ∅ s0 p i Hok0 (holds_eq _ _ _ _ _ Hh H5) ltac:(set_solver)) as (s3 & U1 & U2 & U3 & U4 & _).
  exists s3. unfold finish. run (pooled_run _ t _ _ H1). run (pooled_run _ (mkTS s1 (tree t)) _ _ H2).
  rewrite (pooled_run _ (mkTS s2 _) _ _ U1). cbn [tree]. split_and!; [done|done| |done|].
  - eapply evolves_trans; [exact H4|]. eapply evolves_weaken; [exact U3|done|done].
  - rewrite <- H6. apply (ev_view _ _ _ _ U3); [exact (holds_page_nonneg ∅ s0 (store t) p i Hok Hh)|by intros []].
Qed.

(** ** The tree's file *)
(** [room]: pages that can still be pinned and allocated. *)
Record tree_env (t : TreeState) (room : Z) : Prop := {
  te_ok : writable (store t);
  te_hint : 0 < hint t;
  te_within : within (store t) (fid t) (hint t);
  te_bound : hint t + room < 2 ^ 32;
  te_pins : pins (store t) + room < zlen (frames (store t)) }.
Definition tree_pages (t : TreeState) (P : Z -> Prop) : PageId -> Prop := fun p => file_id p = fid t /\ P (page_no p).
(** What a step does to the rest: pages of the tree in [P], or past [hint], may change. *)
Record tree_step (P : Z -> Prop) (n : Z) (t t' : TreeState) : Prop := {
  ts_file : fid t' = fid t;
  ts_hint : hint t <= hint t' <= hint t + n;
  ts_evolves : evolves (tree_pages t (fun no => P no \/ hint t <= no)) (tree_pages t (fun no => no < hint t')) (store t) (store t');
  ts_ok : pool_ok ∅ (store t');
  ts_within : within (store t') (fid t) (hint t') }.
Lemma tree_step_writable P n t t' : tree_step P n t t' -> writable (store t) -> writable (store t').
Proof. intros H. exact (evolves_writable _ _ _ _ (ts_evolves _ _ _ _ H) (ts_ok _ _ _ _ H)). Qed.
Lemma tree_step_content P n t t' no : tree_step P n t t' -> 0 <= no < hint t -> ~ P no -> content t' no = content t no.
Proof.
  intros [] Hn HP. unfold content. rewrite ts_file0. apply (ev_view _ _ _ _ ts_evolves0); [cbn; lia|].
  unfold tree_pages. cbn [page_no file_id]. intros [_ [?|?]]; [done|lia].
Qed.
Lemma tree_step_env P n t t' room : tree_step P n t t' -> tree_env t (room + n) -> 0 <= n -> pins (store t') <= pins (store t) + n -> tree_env t' room.
Proof.
  intros Hs [] Hn Hp. pose proof Hs as []. split.
  - by apply (tree_step_writable _ _ _ _ Hs).
  - lia.
  - by rewrite ts_file0.
  - lia.
  - pose proof (ev_len _ _ _ _ ts_evolves0) as Hl. unfold zlen in *. lia.
Qed.
Lemma tree_step_weaken (P P' : Z -> Prop) n n' t t' : tree_step P n t t' -> (forall no, P no -> P' no) -> n <= n' -> tree_step P' n' t t'.
Proof.
  intros [] HP Hn. split; [done|lia| |done|done]. eapply evolves_weaken; [exact ts_evolves0| |done].
  unfold tree_pages. naive_solver.
Qed.
Lemma tree_step_trans (P : Z -> Prop) n m t1 t2 t3 : tree_step P n t1 t2 ->
  tree_step (fun no => P no \/ hint t1 <= no) m t2 t3 -> tree_step P (n + m) t1 t3.
Proof.
  intros A B. pose proof (ts_hint _ _ _ _ A). pose proof (ts_hint _ _ _ _ B). pose proof (ts_file _ _ _ _ A) as F1. pose proof (ts_file _ _ _ _ B) as F2.
  split; [congruence|lia| |exact (ts_ok _ _ _ _ B)|rewrite <- F1; exact (ts_within _ _ _ _ B)].
  apply (evolves_trans _ _ _ (store t2)).
  - eapply evolves_weaken; [apply (ts_evolves _ _ _ _ A)|done|]. unfold tree_pages. intros p [H1 H2]. split; [done|lia].
  - eapply evolves_weaken; [apply (ts_evolves _ _ _ _ B)| |].
    + unfold tree_pages. rewrite F1. intros p [H1 [[H2|H2]|H2]]; (split; [done|]); [by left|by right|right; lia].
    + unfold tree_pages. rewrite F1. intros p [H1 H2]. split; [done|lia].
Qed.
(** A step of the store alone. *)
Lemma store_step (P : Z -> Prop) T U t s' : pool_ok ∅ s' -> 0 < hint t -> within (store t) (fid t) (hint t) -> evolves T U (store t) s' ->
  (forall p, T p -> file_id p = fid t /\ P (page_no p)) -> (forall p, U p -> file_id p = fid t /\ page_no p < hint t) ->
  tree_step P 0 t (mkTS s' (tree t)).
Proof.
  intros Hok Hpos Hw He HT HU. split; cbn [tree store]; [done|lia| |done|].
  - eapply evolves_weaken; [exact He| |].
    + intros p Hp. destruct (HT p Hp). split; [done|by left].
    + intros p Hp. apply (HU p Hp).
  - apply (ev_within _ _ _ _ He); [lia| |done]. intros p Hp _. by apply HU.
Qed.

(** ** Pages *)
Lemma new_page_ok t room : tree_env t room -> 1 <= room ->
  exists pg s', new_page t = (Ok (hint t, pg), mkTS s' (set_hint (hint t + 1) (tree t))) /\ holds (store t) s' (mkPid (fid t) (hint t)) pg /\
    tree_step (fun _ => False) 1 t (mkTS s' (set_hint (hint t + 1) (tree t))).
Proof.
  intros [] Hroom. destruct te_ok0 as (Hok & Ha & Ht). unfold new_page.
  rewrite run_gets. pose proof (page_count_within _ _ _ te_within0 ltac:(lia) ltac:(lia)). rewrite Z.max_r by lia.
  unfold tree_page. rewrite run_gets. set (pid := mkPid (fid t) (hint t)).
  assert (view (store t) pid = zero_page) as Hz.
  { apply (beyond_zero _ (fid t) (hint t)); unfold pid; cbn [file_id page_no]; done || lia. }
  destruct (allocate_session ∅ (store t) Hok pid ltac:(cbn; lia) ltac:(lia) Hz) as (pg & s' & H1 & H2 & H3 & H4).
  exists pg, s'. run (pooled_run _ t _ _ H1). rewrite run_modify. cbn [tree store]. rewrite wrap_small by lia. split; [done|]. split; [exact H4|].
  assert (within s' (fid t) (hint t + 1)) as Hw.
  { apply (ev_within _ _ _ _ H3); [lia|intros q <- _; unfold pid; cbn; lia|]. destruct te_within0 as [W1 W2]. split; [unfold PAGE_SIZE in *; lia|].
    intros q j Hq Hf. specialize (W2 q j Hq Hf). lia. }
  split; cbn [tree store set_tree set_hint tree_file next_page_hint]; [done|lia| |done|done].
  eapply evolves_weaken; [exact H3|done|]. intros q <-. unfold tree_pages, pid. cbn. split; [done|lia].
Qed.
Lemma read_tree_ok t room no : tree_env t room -> 0 <= room -> 0 <= no < hint t -> page_valid (content t no) MAGIC_BTREE_LEAF = true ->
  tree_page_type (h_type (content t no)) = true ->
  exists pg s', read_tree no t = (Ok pg, mkTS s' (tree t)) /\ holds (store t) s' (mkPid (fid t) no) pg /\ data pg s' = content t no /\
    tree_step (fun _ => False) 0 t (mkTS s' (tree t)).
Proof.
  intros [] Hroom Hno Hv Hty. destruct te_ok0 as (Hok & Ha & Ht). unfold read_tree, tree_page. rewrite run_gets.
  destruct (read_session ∅ (store t) Hok (mkPid (fid t) no) MAGIC_BTREE_LEAF ltac:(cbn; lia) ltac:(lia) Hv) as (pg & s' & H1 & H2 & H3 & H4 & H5).
  exists pg, s'. run (pooled_run _ t _ _ H1). rewrite run_page_bytes. cbn [store]. rewrite H5. fold (content t no). rewrite Hty. cbn [negb].
  split_and!; [done|done|done|]. eapply store_step; [done|done|done|exact H3|by intros ? []|]. intros p <-. cbn. split; [done|lia].
Qed.

(** ** Writing pages of the tree *)
Lemma finish_step t s0 no pg b : pool_ok ∅ s0 -> writable (store t) -> 0 <= no < hint t -> within (store t) (fid t) (hint t) ->
  holds s0 (store t) (mkPid (fid t) no) pg -> zlen b = PAGE_SIZE ->
  exists s', finish pg b t = (Ok tt, mkTS s' (tree t)) /\ tree_step (eq no) 0 t (mkTS s' (tree t)) /\ pins_eq s0 s' /\
    content (mkTS s' (tree t)) no = seal b.
Proof.
  intros Hok0 Hw Hno Hwi Hh Hb. destruct (finish_ok t s0 _ pg b Hok0 Hw Hh Hb) as (s' & H1 & H2 & H3 & H4 & H5).
  exists s'. split_and!; [done| |done|exact H5]. eapply store_step; [done|lia|done|exact H3| |by intros ? []]. intros p <-. done.
Qed.
(** A new page on the right, then the page itself. *)
Lemma split_pages_ok t s0 no pg bR (bL : Z -> bytes) sep : tree_env t 1 -> pool_ok ∅ s0 -> 0 <= no < hint t ->
  holds s0 (store t) (mkPid (fid t) no) pg -> zlen bR = PAGE_SIZE -> (forall n, zlen (bL n) = PAGE_SIZE) ->
  exists t', ('(rno, rpg) ← new_page; _ ← finish rpg bR; _ ← finish pg (bL rno); mret (Some (sep, rno) : BTreeSplit)) t = (Ok (Some (sep, hint t)), t') /\
    tree_step (eq no) 1 t t' /\ hint t' = hint t + 1 /\ pins_eq s0 (store t') /\ content t' (hint t) = seal bR /\ content t' no = seal (bL (hint t)).
Proof.
  intros He Hok0 Hno Hh HbR HbL. pose proof He as []. destruct (new_page_ok t 1 He ltac:(lia)) as (rpg & s1 & N1 & N2 & N3). run N1.
  set (t1 := mkTS s1 (set_hint (hint t + 1) (tree t))) in *.
  assert (writable (store t1)) as W1 by (by apply (tree_step_writable _ _ _ _ N3)).
  destruct (finish_step t1 (store t) (hint t) rpg bR (proj1 te_ok0) W1 ltac:(cbn; lia) (ts_within _ _ _ _ N3) N2 HbR) as (s2 & F1 & F2 & F3 & F4). run F1.
  set (t2 := mkTS s2 (tree t1)) in *. assert (writable (store t2)) as W2 by (by apply (tree_step_writable _ _ _ _ F2)).
  destruct (finish_step t2 s0 no pg (bL (hint t)) Hok0 W2 ltac:(cbn; lia) (ts_within _ _ _ _ F2) (holds_eq _ _ _ _ _ Hh F3) (HbL _)) as (s3 & G1 & G2 & G3 & G4). run G1.
  exists (mkTS s3 (tree t2)). split_and!; [done| |done|done| |done].
  - replace 1 with (1 + (0 + 0)) by lia. eapply tree_step_trans; [apply (tree_step_weaken _ (eq no) _ 1 _ _ N3); [done|lia]|].
    eapply tree_step_trans; [apply (tree_step_weaken _ (fun q => no = q \/ hint t <= q) _ 0 _ _ F2); [intros q <-; by right; lia|lia]|].
    apply (tree_step_weaken _ _ _ 0 _ _ G2); [intros q <-; left; by left|lia].
  - rewrite (tree_step_content _ _ _ _ (hint t) G2); [done|cbn; lia|lia].
Qed.

(** * Leaves *)
Lemma ordered_insert l r e : ordered l -> splits_at l r (fun x => erank x < erank e) (fun x => erank e <= erank x) -> erank e ∉ ranks l ->
  ordered (take (Z.to_nat r) l ++ e :: drop (Z.to_nat r) l).
Proof.
  intros Ho (_ & H1 & H2) Hn. assert (ordered (take (Z.to_nat r) l) /\ ordered (drop (Z.to_nat r) l)) as [O1 O2].
  { rewrite <- (take_drop (Z.to_nat r) l) in Ho. unfold ordered, ranks in *. rewrite fmap_app in Ho. by apply StronglySorted_app in Ho as (_ & ? & ?). }
  apply (ordered_app _ _ (erank e)); [done| |exact H1|].
  - unfold ordered, ranks. cbn [fmap list_fmap]. constructor; [exact O2|]. apply Forall_fmap, list.Forall_forall. intros x Hx.
    rewrite list.Forall_forall in H2. specialize (H2 x Hx). cbv beta in H2. unfold compose.
    assert (erank e <> erank x); [|lia]. intros E. apply Hn. unfold ranks. rewrite E. apply list_elem_of_fmap_2. by apply (subseteq_drop (Z.to_nat r)).
  - constructor; [lia|exact H2].
Qed.
Lemma seal_leaf p b nx : leaf_wf b -> h_next_page b = nx -> p = seal b -> leaf_ok p /\ leaf_entries p = leaf_entries b /\ h_next_page p = nx.
Proof.
  intros Hwf Hn ->. assert (24 <= zlen b) as Hl by (rewrite (lw_len _ Hwf); unfold PAGE_SIZE; lia).
  destruct (seal_same_node b Hl) as [Hs Hnx]. destruct (same_node_leaf b _ Hs Hwf) as [H1 H2]. split_and!; [|done|congruence].
  split; [done|]. apply page_valid_seal; [done|apply Hwf].
Qed.
Lemma seal_node p b : node_wf b -> p = seal b -> node_ok p /\ node_seps p = node_seps b /\ node_children p = node_children b.
Proof.
  intros Hwf ->. assert (24 <= zlen b) as Hl by (rewrite (nw_len _ Hwf); unfold PAGE_SIZE; lia).
  destruct (seal_same_node b Hl) as [Hs _]. destruct (same_node_node b _ Hs Hwf) as (H1 & H2 & H3). split_and!; [|done|done].
  split; [done|]. apply page_valid_seal; [done|apply Hwf].
Qed.
Lemma tree_page_leaf p : leaf_wf p -> tree_page_type (h_type p) = true /\ (h_type p =? page_type_code PtBTreeLeaf) = true /\
  (h_type p =? page_type_code PtBTreeInternal) = false.
Proof. intros H. rewrite (lw_type _ H). done. Qed.
Lemma tree_page_node p : node_wf p -> tree_page_type (h_type p) = true /\ (h_type p =? page_type_code PtBTreeLeaf) = false /\
  (h_type p =? page_type_code PtBTreeInternal) = true.
Proof. intros H. rewrite (nw_type _ H). done. Qed.

(** What an insertion below page [no] achieves. *)
Definition inserted (h : nat) (t t' : TreeState) (no lo hi first nxt : Z) (es : list BTreeEntry) (fp : list Z) (e : BTreeEntry) (r : BTreeSplit) : Prop :=
  exists A B, es = A ++ B /\
  match r with
  | None => exists fp', tree_at (content t') h no lo hi first nxt (A ++ e :: B) fp' /\ fp' ≡ₚ fp ++ seqZ (hint t) (hint t' - hint t)
  | Some (sep, rgt) => exists mid La Lb Fa Fb, A ++ e :: B = La ++ Lb /\ lo < erank sep < hi /\ btree_entry_ok sep /\ 0 <= rgt < 2 ^ 32 /\
      tree_at (content t') h no lo (erank sep) first mid La Fa /\ tree_at (content t') h rgt (erank sep) hi mid nxt Lb Fb /\
      Fa ++ Fb ≡ₚ fp ++ seqZ (hint t) (hint t' - hint t)
  end.
Lemma middle_split l mid d : ordered l -> Forall btree_entry_ok l -> 0 < mid < zlen l -> let sep := nth (Z.to_nat mid) l d in
  let La := slice 0 mid l in let Lb := slice mid (zlen l - mid) l in
  l = La ++ Lb /\ ordered La /\ ordered Lb /\ Forall (fun x => erank x < erank sep) La /\ Forall (fun x => erank sep <= erank x) Lb /\ btree_entry_ok sep /\
  sep ∈ l /\ (exists x, x ∈ l /\ erank x < erank sep).
Proof.
  intros Ho Hok Hm sep La Lb. unfold zlen in *.
  assert (l !! Z.to_nat mid = Some sep) as Hs by (destruct (nth_lookup_or_length l (Z.to_nat mid) d) as [H|H]; [done|lia]).
  assert (La = take (Z.to_nat mid) l) as EA by (unfold La, slice; by rewrite drop_0).
  assert (Lb = drop (Z.to_nat mid) l) as EB.
  { unfold Lb, slice. apply take_ge. rewrite length_drop. lia. }
  rewrite EA, EB. split_and!.
  - by rewrite take_drop.
  - rewrite <- (take_drop (Z.to_nat mid) l) in Ho. unfold ordered, ranks in *. rewrite fmap_app in Ho. by apply StronglySorted_app in Ho as (_ & ? & ?).
  - rewrite <- (take_drop (Z.to_nat mid) l) in Ho. unfold ordered, ranks in *. rewrite fmap_app in Ho. by apply StronglySorted_app in Ho as (_ & ? & ?).
  - apply Forall_lookup. intros i x Hi. apply lookup_take_Some in Hi as [Hi Hlt]. by apply (ordered_lookup l i (Z.to_nat mid) x sep).
  - apply Forall_lookup. intros i x Hi. rewrite lookup_drop in Hi. destruct i as [|i].
    + rewrite Nat.add_0_r in Hi. rewrite Hs in Hi. injection Hi as <-. lia.
    + apply Z.lt_le_incl. apply (ordered_lookup l (Z.to_nat mid) (Z.to_nat mid + S i)); [done|lia|done|done].
  - by eapply Forall_lookup_1.
  - by eapply list_elem_of_lookup_2.
  - destruct (lookup_lt_is_Some_2 l 0) as [x Hx]; [lia|]. exists x. split; [by eapply list_elem_of_lookup_2|].
    by apply (ordered_lookup l 0 (Z.to_nat mid) x sep); [done|lia|..].
Qed.
Lemma insert_leaf_ok t s0 pg no lo hi first nxt es fp e : tree_env t 1 -> pool_ok ∅ s0 -> 0 <= no < hint t ->
  holds s0 (store t) (mkPid (fid t) no) pg -> tree_at (content t) 0 no lo hi first nxt es fp -> 0 <= nxt < 2 ^ 32 ->
  btree_entry_ok e -> lo <= erank e < hi -> erank e ∉ ranks es ->
  exists r t', insert_leaf pg (content t no) e t = (Ok r, t') /\ tree_step (eq no) 1 t t' /\ pins_eq s0 (store t') /\
    inserted 0 t t' no lo hi first nxt es fp e r.
Proof.
  intros Henv Hok0 Hno Hh ([Hwf Hval] & Hes & Ho & Hb & -> & Hnx & ->) Hnb He Hr Hnew. unfold insert_leaf. set (p := content t no) in *.
  pose proof Henv as []. pose proof (leaf_count_max p Hwf) as Hmax. pose proof (lw_count p Hwf) as Hc0.
  assert (splits_at es (leaf_lower_bound p e) (fun x => erank x < erank e) (fun x => erank e <= erank x)) as Hpos.
  { rewrite <- Hes. apply leaf_lower_bound_spec; [done|by rewrite Hes|done]. }
  pose proof (ordered_insert es _ e Ho Hpos Hnew) as Ho'. set (pos := leaf_lower_bound p e) in *.
  assert (zlen es = h_slot_count p) as Hlen by (rewrite <- Hes; by apply zlen_leaf_entries).
  assert (0 <= pos <= h_slot_count p) as Hpb by (destruct Hpos as [H _]; lia).
  assert (Forall btree_entry_ok es) as Hoks by (rewrite <- Hes; apply Hwf).
  set (es' := take (Z.to_nat pos) es ++ e :: drop (Z.to_nat pos) es) in *.
  assert (Forall btree_entry_ok es') as Hoks'.
  { apply Forall_app. split; [by apply Forall_take|]. constructor; [done|by apply Forall_drop]. }
  assert (Forall (fun x => lo <= erank x < hi) es') as Hb'.
  { apply Forall_app. split; [by apply Forall_take|]. constructor; [done|by apply Forall_drop]. }
  rewrite (leaf_free_space p Hwf). unfold SLOT_SIZE, BTREE_CELL_SIZE. destruct (Z.leb_spec (4 + 15) (4072 - 19 * h_slot_count p)) as [Hfit|Hfull].
  - destruct (leaf_insert_ok p pos e Hwf He Hpb ltac:(unfold LEAF_MAX; lia)) as (L1 & L2 & L3).
    destruct (finish_step t s0 no pg (leaf_insert_at p pos e) Hok0 te_ok0 Hno te_within0 Hh (lw_len _ L1)) as (s' & F1 & F2 & F3 & F4). run F1.
    destruct (seal_leaf _ _ nxt L1 ltac:(congruence) F4) as (S1 & S2 & S3).
    exists None, (mkTS s' (tree t)). split_and!; [done|by apply (tree_step_weaken _ _ _ 1 _ _ F2)|done|].
    exists (take (Z.to_nat pos) es), (drop (Z.to_nat pos) es). split; [by rewrite take_drop|]. exists [no]. fold es'. split.
    + cbn [tree_at]. split_and!; try done. rewrite S2, L2, Hes. done.
    + cbn [tree next_page_hint]. rewrite Z.sub_diag. by rewrite app_nil_r.
  - unfold LEAF_MAX in *. assert (h_slot_count p = 214) as Hn by lia. rewrite Hes. fold es'.
    assert (zlen es' = 215) as Hl'.
    { unfold es', zlen in *. rewrite length_app, length_take. cbn [length]. rewrite length_drop. lia. }
    rewrite Hl', (wrap_small 16 215) by lia. change (215 / 2) with 107.
    destruct (middle_split es' 107 e Ho' Hoks' ltac:(lia)) as (M1 & M2 & M3 & M4 & M5 & M6 & M7 & x & M8 & M9). rewrite Hl' in M1, M3, M5.
    change (215 - 107) with 108 in *. set (sep := nth (Z.to_nat 107) es' e) in *.
    destruct (leaf_build_ok es' 107 215 Hoks' ltac:(lia) ltac:(unfold LEAF_MAX; lia) ltac:(lia)) as (R1 & R2 & _).
    destruct (leaf_build_ok es' 0 107 Hoks' ltac:(lia) ltac:(unfold LEAF_MAX; lia) ltac:(lia)) as (Q1 & Q2 & _).
    assert (forall b v, leaf_wf b -> 0 <= v < 2 ^ 32 -> leaf_wf (set_next_page v b) /\ leaf_entries (set_next_page v b) = leaf_entries b /\ h_next_page (set_next_page v b) = v) as Hset.
    { intros b v Hwb Hv. destruct (set_next_same_node v b) as [G1 G2]; [rewrite (lw_len _ Hwb); unfold PAGE_SIZE; lia|done|].
      destruct (same_node_leaf _ _ G1 Hwb). done. }
    destruct (Hset _ (h_next_page p) R1 ltac:(lia)) as (A1 & A2 & A3).
    assert (forall n, zlen (set_next_page n (leaf_build es' 0 107)) = PAGE_SIZE) as HbL.
    { intros n. pose proof (lw_len _ Q1) as Hq. unfold PAGE_SIZE in *. punfold. plen. }
    destruct (split_pages_ok t s0 no pg _ (fun rno => set_next_page rno (leaf_build es' 0 107)) sep Henv Hok0 Hno Hh (lw_len _ A1) HbL)
      as (t' & S1 & S2 & S3 & S4 & S5 & S6).
    destruct (Hset _ (hint t) Q1 ltac:(lia)) as (B1 & B2 & B3).
    destruct (seal_leaf _ _ (h_next_page p) A1 A3 S5) as (U1 & U2 & U3). destruct (seal_leaf _ _ (hint t) B1 B3 S6) as (V1 & V2 & V3).
    exists (Some (sep, hint t)), t'. split_and!; [exact S1|done|done|].
    exists (take (Z.to_nat pos) es), (drop (Z.to_nat pos) es). split; [by rewrite take_drop|]. fold es'.
    rewrite list.Forall_forall in Hb'. pose proof (Hb' _ M7) as Hsep. pose proof (Hb' _ M8) as Hx. cbv beta in Hsep, Hx.
    exists (hint t), (slice 0 107 es'), (slice 107 108 es'), [no], [hint t]. split_and!; try done; try lia.
    + cbn [tree_at]. split_and!; try done; [by rewrite V2, B2, Q2|]. apply list.Forall_forall. intros y Hy. rewrite list.Forall_forall in M4.
      split; [|by apply M4]. apply Hb'. rewrite M1. apply elem_of_app. by left.
    + cbn [tree_at]. split_and!; try done; [by rewrite U2, A2, R2| |congruence]. apply list.Forall_forall. intros y Hy. rewrite list.Forall_forall in M5.
      split; [by apply M5|]. apply Hb'. rewrite M1. apply elem_of_app. by right.
    + rewrite S3. by replace (hint t + 1 - hint t) with 1 by lia.
Qed.

(** * Internal nodes *)
Lemma slice_fst0 {A B} (rest : list (A * B)) n : slice 0 n rest.*1 = (take (Z.to_nat n) rest).*1.
Proof. unfold slice. rewrite drop_0. by rewrite fmap_take. Qed.
Lemma insert_pairs {A B} (rest : list (A * B)) (c : B) (j : nat) (k : A) (x : B) :
  take j rest.*1 ++ k :: drop j rest.*1 = (take j rest ++ (k, x) :: drop j rest).*1 /\
  take (S j) (c :: rest.*2) ++ x :: drop (S j) (c :: rest.*2) = c :: (take j rest ++ (k, x) :: drop j rest).*2.
Proof. split; cbn [take drop app]; rewrite fmap_app, fmap_take, fmap_cons, fmap_drop; done. Qed.
(** Halving the lists of an internal node: separators and children, as pairs. *)
Lemma pairs_slices {A B} (rest r1 r2 : list (A * B)) (c c' : B) (k : A) : rest = r1 ++ (k, c') :: r2 ->
  let m := Z.of_nat (length r1) in let n := Z.of_nat (length r2) in
  slice 0 m rest.*1 = r1.*1 /\ slice 0 (m + 1) (c :: rest.*2) = c :: r1.*2 /\
  slice (m + 1) n rest.*1 = r2.*1 /\ slice (m + 1) (n + 1) (c :: rest.*2) = c' :: r2.*2.
Proof.
  intros -> m n. subst m n. unfold slice. rewrite !fmap_app, !fmap_cons. cbn [fst snd]. split_and!.
  - rewrite drop_0, Nat2Z.id. apply take_app_length'. by rewrite length_fmap.
  - replace (Z.to_nat (Z.of_nat (length r1) + 1)) with (S (length r1)) by lia. change (Z.to_nat 0) with 0%nat. cbn [drop take]. f_equal. apply take_app_length'. by rewrite length_fmap.
  - replace (Z.to_nat (Z.of_nat (length r1) + 1)) with (S (length r1)) by lia.
    rewrite drop_app_ge by (rewrite length_fmap; lia). rewrite length_fmap. replace (S (length r1) - length r1)%nat with 1%nat by lia. cbn [drop].
    apply take_ge. rewrite length_fmap. lia.
  - replace (Z.to_nat (Z.of_nat (length r1) + 1)) with (S (length r1)) by lia. cbn [drop].
    rewrite drop_app_ge by (rewrite length_fmap; lia). rewrite length_fmap, Nat.sub_diag. cbn [drop].
    apply take_ge. cbn [length]. rewrite length_fmap. lia.
Qed.

Section insert_node.
Context (h : nat) (ta t : TreeState) (s0 : Store) (pg : nat) (no : Z) (p : bytes).
Context (c : Z) (rest : list (BTreeEntry * Z)) (lo hi first nxt : Z) (es : list BTreeEntry) (fp : list Z) (e : BTreeEntry).
Context (cj lo' hi' first' nxt' : Z) (L1 Lj L2 : list BTreeEntry) (F1 Fj F2 : list Z) (j : Z).
Context (Henv : tree_env t 1) (Hok0 : pool_ok ∅ s0) (Hh : holds s0 (store t) (mkPid (fid t) no) pg).
Context (Hp : content t no = p) (Hn : node_ok p) (Hseps : node_seps p = rest.*1) (Hch : node_children p = c :: rest.*2).
Context (Hj : 0 <= j <= h_slot_count p).
Context (Hroute : routed (tree_at (content ta) h) c rest lo hi first nxt es fp (Z.to_nat j) (erank e) cj lo' hi' first' nxt' L1 Lj L2 F1 Fj F2).
Context (Hnd : NoDup (no :: fp)) (Hfp : Forall (fun q => 0 <= q < hint ta) (no :: fp)) (Hhint : hint ta <= hint t).
Context (Hframe : forall q, q ∈ F1 ++ F2 -> content t q = content ta q).

Lemma in_rest : zlen rest = h_slot_count p.
Proof using All. rewrite <- (zlen_node_seps p (proj1 Hn)), Hseps. unfold zlen. by rewrite length_fmap. Qed.
Lemma in_pages q : q ∈ F1 ++ Fj ++ F2 -> q <> no /\ 0 <= q < hint ta.
Proof using All.
  rewrite <- (ro_fp _ _ _ _ _ _ _ _ _ _ _ _ _ _ _ _ _ _ _ _ _ _ Hroute). intros Hq. apply list.NoDup_cons in Hnd as [Hnot _].
  apply Forall_cons_1 in Hfp as [_ Hf]. rewrite list.Forall_forall in Hf. split; [set_solver|by apply Hf].
Qed.
Lemma in_no : 0 <= no < hint ta.
Proof using Hfp. by apply Forall_cons_1 in Hfp as [? _]. Qed.
(** The subtrees after the last step. *)
Section after.
Context (t' : TreeState) (Hstep : tree_step (eq no) 1 t t').
Lemma in_others x a b f n l g : tree_at (content ta) h x a b f n l g -> g ⊆ F1 ++ F2 -> tree_at (content t') h x a b f n l g.
Proof using All.
  intros Ht Hg. apply (tree_frame (content ta)); [done|]. intros q Hq. destruct (in_pages q ltac:(set_solver)).
  rewrite (tree_step_content _ _ _ _ q Hstep) by lia. apply Hframe. set_solver.
Qed.
Lemma in_child x a b f n l g : tree_at (content t) h x a b f n l g -> (forall q, q ∈ g -> q ∈ Fj ++ seqZ (hint ta) (hint t - hint ta)) ->
  tree_at (content t') h x a b f n l g.
Proof using All.
  intros Ht Hg. apply (tree_frame (content t)); [done|]. intros q Hq. specialize (Hg q Hq). pose proof in_no.
  apply elem_of_app in Hg as [Hg|Hg].
  - destruct (in_pages q ltac:(set_solver)). apply (tree_step_content _ _ _ _ q Hstep); lia.
  - apply elem_of_seqZ in Hg. apply (tree_step_content _ _ _ _ q Hstep); lia.
Qed.
Definition plug := ro_plug _ _ _ _ _ _ _ _ _ _ _ _ _ _ _ _ _ _ _ _ _ _ Hroute (tree_at (content t') h) in_others.
End after.
Lemma in_seqZ : seqZ (hint ta) (hint t + 1 - hint ta) = seqZ (hint ta) (hint t - hint ta) ++ [hint t].
Proof using Hhint.
  replace (hint t + 1 - hint ta) with ((hint t - hint ta) + 1) by lia. rewrite seqZ_app by lia. f_equal.
  replace (hint ta + (hint t - hint ta)) with (hint t) by lia. done.
Qed.
Lemma in_fp : fp = F1 ++ Fj ++ F2.
Proof using Hroute. exact (ro_fp _ _ _ _ _ _ _ _ _ _ _ _ _ _ _ _ _ _ _ _ _ _ Hroute). Qed.
Lemma in_es : es = L1 ++ Lj ++ L2.
Proof using Hroute. exact (ro_es _ _ _ _ _ _ _ _ _ _ _ _ _ _ _ _ _ _ _ _ _ _ Hroute). Qed.

(** The child did not split. *)
Lemma insert_node_same : inserted h ta t cj lo' hi' first' nxt' Lj Fj e None ->
  exists t', insert_node pg p j None t = (Ok None, t') /\ tree_step (eq no) 1 t t' /\ pins_eq s0 (store t') /\
    inserted (S h) ta t' no lo hi first nxt es (no :: fp) e None.
Proof using All.
  intros (A & B & HAB & fp' & Ht & Hperm). pose proof Henv as [(Hok & Ha & Htx) Hpos Hwi _ _].
  destruct (unpin_session ∅ (store t) Hok ∅ s0 _ pg Hok0 Hh ltac:(set_solver)) as (s' & U1 & U2 & U3 & U4 & _).
  exists (mkTS s' (tree t)). cbn [insert_node].
  assert (tree_step (eq no) 0 t (mkTS s' (tree t))) as Hstep by (eapply store_step; [done|done|done|exact U3|by intros ? []|by intros ? []]).
  split_and!; [by run (pooled_run _ t _ _ U1)|by apply (tree_step_weaken _ _ _ 1 _ _ Hstep)|done|].
  assert (forall q, 0 <= q -> content (mkTS s' (tree t)) q = content t q) as Hc.
  { intros q Hq. unfold content. cbn [store tree]. apply (ev_view _ _ _ _ U3); [done|by intros []]. }
  pose proof in_no as Hno. destruct (plug _ (tree_step_weaken _ (eq no) _ 1 _ _ Hstep ltac:(done) ltac:(lia))) as [P1 _].
  exists (L1 ++ A), (B ++ L2). split; [rewrite in_es, HAB; by rewrite !app_assoc|]. exists (no :: F1 ++ fp' ++ F2). split.
  - cbn [tree_at]. exists c, rest, (F1 ++ fp' ++ F2). rewrite Hc, Hp by lia. split_and!; try done.
    replace ((L1 ++ A) ++ e :: B ++ L2) with (L1 ++ (A ++ e :: B) ++ L2) by (by rewrite <- !app_assoc).
    apply P1. apply (in_child _ (tree_step_weaken _ (eq no) _ 1 _ _ Hstep ltac:(done) ltac:(lia)) _ _ _ _ _ _ _ Ht). intros q Hq. by rewrite Hperm in Hq.
  - cbn [tree]. rewrite in_fp, Hperm. solve_Permutation.
Qed.
(** The child split: the new separator and right page go in here. *)
Section child_split.
Context (sep : BTreeEntry) (rgt : Z) (A B La Lb : list BTreeEntry) (mid : Z) (Fa Fb : list Z).
Context (HAB : Lj = A ++ B) (HAe : A ++ e :: B = La ++ Lb) (Hsep : lo' < erank sep < hi') (Hok : btree_entry_ok sep) (Hrgt : 0 <= rgt < 2 ^ 32).
Context (Ta : tree_at (content t) h cj lo' (erank sep) first' mid La Fa) (Tb : tree_at (content t) h rgt (erank sep) hi' mid nxt' Lb Fb).
Context (Hperm : Fa ++ Fb ≡ₚ Fj ++ seqZ (hint ta) (hint t - hint ta)).
Notation rest' := (take (Z.to_nat j) rest ++ (sep, rgt) :: drop (Z.to_nat j) rest).
Lemma cs_forest t' : tree_step (eq no) 1 t t' ->
  forest (tree_at (content t') h) c rest' lo hi first nxt (L1 ++ (A ++ e :: B) ++ L2) (F1 ++ (Fa ++ Fb) ++ F2).
Proof using All.
  intros Hs. destruct (plug t' Hs) as [_ P2]. rewrite HAe. eapply P2; [exact Hsep| |].
  - apply (in_child t' Hs _ _ _ _ _ _ _ Ta). intros q Hq. rewrite <- Hperm. apply elem_of_app. by left.
  - apply (in_child t' Hs _ _ _ _ _ _ _ Tb). intros q Hq. rewrite <- Hperm. apply elem_of_app. by right.
Qed.
Lemma cs_lists : take (Z.to_nat j) (node_seps p) ++ sep :: drop (Z.to_nat j) (node_seps p) = rest'.*1 /\
  take (Z.to_nat (j + 1)) (node_children p) ++ rgt :: drop (Z.to_nat (j + 1)) (node_children p) = c :: rest'.*2.
Proof using All.
  rewrite Hseps, Hch. replace (Z.to_nat (j + 1)) with (S (Z.to_nat j)) by lia. apply insert_pairs.
Qed.
Lemma cs_bounds : Forall btree_entry_ok rest'.*1 /\ Forall (fun x => 0 <= x < 2 ^ 32) (c :: rest'.*2).
Proof using All.
  destruct cs_lists as [<- <-]. destruct Hn as [Hwf _]. split.
  - apply Forall_app. split; [apply Forall_take; apply Hwf|]. constructor; [done|apply Forall_drop; apply Hwf].
  - assert (Forall (fun x => 0 <= x < 2 ^ 32) (node_children p)) as H.
    { apply list.Forall_forall. intros x Hx. unfold node_children in Hx. apply list_elem_of_fmap_1 in Hx as (i & -> & Hi).
      apply elem_of_seq in Hi. pose proof (nw_count _ Hwf). apply node_child_bound; [done|lia]. }
    apply Forall_app. split; [by apply Forall_take|]. constructor; [done|by apply Forall_drop].
Qed.
Lemma cs_split : exists A' B', es = A' ++ B' /\ L1 ++ (A ++ e :: B) ++ L2 = A' ++ e :: B'.
Proof using All. exists (L1 ++ A), (B ++ L2). rewrite in_es, HAB. split; by rewrite <- !app_assoc. Qed.
Lemma cs_fits : h_slot_count p < 214 -> exists t', insert_node pg p j (Some (sep, rgt)) t = (Ok None, t') /\ tree_step (eq no) 1 t t' /\
  pins_eq s0 (store t') /\ inserted (S h) ta t' no lo hi first nxt es (no :: fp) e None.
Proof using All.
  intros Hfit. destruct Hn as [Hwf Hval]. cbn [insert_node]. rewrite (node_free_space p Hwf). unfold BTREE_CELL_SIZE.
  destruct (Z.leb_spec (15 + 4) (4068 - 19 * h_slot_count p)); [|lia].
  destruct (node_insert_ok p j sep rgt Hwf Hok Hj Hrgt ltac:(unfold NODE_MAX; lia)) as (N1 & N2 & N3). pose proof Henv as [Hw Hpos Hwi _ _].
  pose proof in_no as Hno. destruct cs_lists as [E1 E2].
  destruct (finish_step t s0 no pg (node_insert_at p j sep rgt) Hok0 Hw ltac:(lia) Hwi Hh (nw_len _ N1)) as (s' & G1 & G2 & G3 & G4).
  run G1. pose proof (tree_step_weaken _ (eq no) _ 1 _ _ G2 ltac:(done) ltac:(lia)) as Hs.
  exists (mkTS s' (tree t)). split_and!; [done|done|done|]. destruct (seal_node _ _ N1 G4) as (S1 & S2 & S3).
  destruct cs_split as (A' & B' & X1 & X2). exists A', B'. split; [done|]. rewrite <- X2. exists (no :: F1 ++ (Fa ++ Fb) ++ F2). split.
  - cbn [tree_at]. exists c, rest', (F1 ++ (Fa ++ Fb) ++ F2). split_and!; [done|by rewrite S2, N2|by rewrite S3, N3|by apply cs_forest|done].
  - cbn [tree]. rewrite in_fp, Hperm. solve_Permutation.
Qed.
Lemma cs_full : h_slot_count p = 214 -> exists r t', insert_node pg p j (Some (sep, rgt)) t = (Ok (Some r), t') /\ tree_step (eq no) 1 t t' /\
  pins_eq s0 (store t') /\ inserted (S h) ta t' no lo hi first nxt es (no :: fp) e (Some r).
Proof using All.
  intros Hfull. destruct Hn as [Hwf Hval]. cbn [insert_node]. rewrite (node_free_space p Hwf). unfold BTREE_CELL_SIZE.
  destruct (Z.leb_spec (15 + 4) (4068 - 19 * h_slot_count p)); [lia|]. destruct cs_lists as [E1 E2]. rewrite E1, E2.
  pose proof in_rest as Hlr. assert (length rest' = 215%nat) as Hl by (unfold zlen in Hlr; rewrite length_app, length_take; cbn [length]; rewrite length_drop; lia).
  assert (zlen rest'.*1 = 215) as -> by (unfold zlen; by rewrite length_fmap, Hl). rewrite (wrap_small 16 215) by lia. change (215 / 2) with 107.
  rewrite (wrap_small 16 (107 + 1)) by lia. change (107 + 1) with 108.
  destruct (lookup_lt_is_Some_2 rest' 107) as [[k c'] Hk]; [lia|]. pose proof (take_drop_middle _ _ _ Hk) as Hr.
  set (r1 := take 107 rest') in *. set (r2 := drop 108 rest') in *.
  assert (length r1 = 107%nat /\ length r2 = 107%nat) as [Hl1 Hl2] by (unfold r1, r2; rewrite length_take, length_drop; lia).
  destruct (pairs_slices rest' r1 r2 c c' k (eq_sym Hr)) as (P1 & P2 & P3 & P4). rewrite Hl1 in P1, P2, P3, P4. rewrite Hl2 in P3, P4.
  assert (nth (Z.to_nat 107) rest'.*1 sep = k) as ->.
  { apply nth_lookup_Some. change (Z.to_nat 107) with 107%nat. by rewrite list_lookup_fmap, Hk. }
  destruct cs_bounds as [Hs1 Hc1]. assert (zlen (c :: rest'.*2) = zlen rest'.*1 + 1) as Hlc.
  { unfold zlen. cbn [length]. rewrite !length_fmap. lia. }
  assert (zlen rest'.*1 = 215) as Hls by (unfold zlen; by rewrite length_fmap, Hl).
  destruct (node_build_ok rest'.*1 (c :: rest'.*2) 108 215 Hs1 Hc1 Hlc ltac:(lia) ltac:(lia) ltac:(lia) ltac:(unfold NODE_MAX; lia)) as (R1 & R2 & R3).
  destruct (node_build_ok rest'.*1 (c :: rest'.*2) 0 107 Hs1 Hc1 Hlc ltac:(lia) ltac:(lia) ltac:(lia) ltac:(unfold NODE_MAX; lia)) as (Q1 & Q2 & Q3).
  pose proof in_no as Hno.
  destruct (split_pages_ok t s0 no pg _ (fun _ => node_build rest'.*1 (c :: rest'.*2) 0 107) k Henv Hok0 ltac:(lia) Hh (nw_len _ R1) (fun _ => nw_len _ Q1))
    as (t' & S1 & S2 & S3 & S4 & S5 & S6).
  destruct (seal_node _ _ R1 S5) as (U1 & U2 & U3). destruct (seal_node _ _ Q1 S6) as (V1 & V2 & V3).
  pose proof (cs_forest t' S2) as Hf. rewrite <- Hr in Hf. apply forest_split in Hf as (mid' & es1 & es2 & fp1 & fp2 & X1 & X2 & X3 & X4 & X5).
  exists (k, hint t), t'. split_and!; [exact S1|done|done|]. destruct cs_split as (A' & B' & Y1 & Y2). exists A', B'. split; [done|].
  exists mid', es1, es2, (no :: fp1), (hint t :: fp2). pose proof Henv as []. split_and!; try lia.
  - by rewrite <- X1, <- Y2.
  - apply (list.Forall_forall _ _) with (x := k) in Hs1; [done|]. rewrite <- Hr, fmap_app, fmap_cons. apply elem_of_app. right. apply elem_of_cons. by left.
  - cbn [tree_at]. exists c, r1, fp1. split_and!; try done; [by rewrite V2, Q2|by rewrite V3, Q3].
  - cbn [tree_at]. exists c', r2, fp2. split_and!; try done; [by rewrite U2, R2|by rewrite U3, R3].
  - rewrite S3, in_seqZ, in_fp. transitivity (no :: hint t :: fp1 ++ fp2); [solve_Permutation|]. rewrite <- X2, Hperm. solve_Permutation.
Qed.
End child_split.
End insert_node.
