(* ===== verification/Insert.v ===== *)
(** The B+ tree implements a sorted list of entries: insertion keeps the shape, the order, the leaf chain and the
    pages of everything else, and adds exactly the new entry. *)
From stdpp Require Import sorting.
From S2P Require Import Prelude Key Types Page Wal Disk Recovery State Node Pool Diff PoolSpec Txn Session Shape Tree TreeSpec.

#[local] Opaque node_build leaf_build leaf_insert_at node_insert_at seal init_page.
#[local] Notation fid t := (tree_file (tree t)).
#[local] Notation hint t := (next_page_hint (tree t)).

(** * Insertion below a page *)
Lemma insert_node_ok h ta t s0 pg no c rest lo hi first nxt es fp e cj lo' hi' first' nxt' L1 Lj L2 F1 Fj F2 j r :
  tree_env t 1 -> pool_ok ∅ s0 -> holds s0 (store t) (mkPid (fid t) no) pg ->
  node_ok (content t no) -> node_seps (content t no) = rest.*1 -> node_children (content t no) = c :: rest.*2 ->
  0 <= j <= h_slot_count (content t no) ->
  routed (tree_at (content ta) h) c rest lo hi first nxt es fp (Z.to_nat j) (erank e) cj lo' hi' first' nxt' L1 Lj L2 F1 Fj F2 ->
  NoDup (no :: fp) -> Forall (fun q => 0 <= q < hint ta) (no :: fp) -> hint ta <= hint t ->
  (forall q, q ∈ F1 ++ F2 -> content t q = content ta q) -> inserted h ta t cj lo' hi' first' nxt' Lj Fj e r ->
  exists r' t', insert_node pg (content t no) j r t = (Ok r', t') /\ tree_step (eq no) 1 t t' /\ pins_eq s0 (store t') /\
    inserted (S h) ta t' no lo hi first nxt es (no :: fp) e r'.
Proof.
  intros Henv Hok0 Hh Hn Hs Hc Hj Hro Hnd Hfp Hhint Hfr Hins. destruct r as [[sep rgt]|].
  - destruct Hins as (A & B & HAB & mid & La & Lb & Fa & Fb & HAe & Hsep & Hok & Hr & Ta & Tb & Hperm).
    assert (h_slot_count (content t no) <= 214) as Hmax by (destruct Hn as [Hwf _]; exact (proj2 (nw_count _ Hwf))).
    destruct (decide (h_slot_count (content t no) < 214)) as [Hlt|Hge].
    + destruct (cs_fits h ta t s0 pg no _ c rest lo hi first nxt es fp e cj lo' hi' first' nxt' L1 Lj L2 F1 Fj F2 j Henv Hok0 Hh eq_refl Hn Hs Hc Hj
        Hro Hnd Hfp Hhint Hfr sep rgt A B La Lb mid Fa Fb HAB HAe Hsep Hok Hr Ta Tb Hperm Hlt) as (t' & ?). by exists None, t'.
    + destruct (cs_full h ta t s0 pg no _ c rest lo hi first nxt es fp e cj lo' hi' first' nxt' L1 Lj L2 F1 Fj F2 j Henv Hok0 Hh eq_refl Hn Hs Hc Hj
        Hro Hnd Hfp Hhint Hfr sep rgt A B La Lb mid Fa Fb HAB HAe Hsep Hok Hr Ta Tb Hperm ltac:(lia)) as (r & t' & ?). by exists (Some r), t'.
  - destruct (insert_node_same h ta t s0 pg no _ c rest lo hi first nxt es fp e cj lo' hi' first' nxt' L1 Lj L2 F1 Fj F2 j Henv Hok0 Hh eq_refl Hn Hs Hc Hj
      Hro Hnd Hfp Hhint Hfr Hins) as (t' & ?). by exists None, t'.
Qed.
Lemma tree_next_bound V h : forall no lo hi first nxt es fp, (forall q, q ∈ fp -> Forall byte_ok (V q)) -> tree_at V h no lo hi first nxt es fp -> 0 <= nxt < 2 ^ 32.
Proof.
  induction h as [|h IH]; intros no lo hi first nxt es fp Hb; cbn [tree_at].
  - intros (Hl & _ & _ & _ & _ & <- & ->). unfold h_next_page. apply (get_u_bound 4); [lia|lia| |apply Hb; set_solver].
    rewrite (lw_len _ (proj1 Hl)). unfold PAGE_SIZE. lia.
  - intros (c & rest & fp' & _ & _ & _ & Hf & ->). assert (forall q, q ∈ fp' -> Forall byte_ok (V q)) as Hb' by (intros; apply Hb; set_solver).
    clear Hb. induction Hf as [c lo hi first nxt es fp Hlt Ht|c k c' rest lo hi first mid nxt es es' fp fp' Hk Ht Hf IHf].
    + by eapply IH.
    + apply IHf. intros q Hq. apply Hb'. set_solver.
Qed.
(** The root page of a subtree, and its bytes. *)
Lemma tree_root_page V h no lo hi first nxt es fp : tree_at V h no lo hi first nxt es fp ->
  no ∈ fp /\ page_valid (V no) MAGIC_BTREE_LEAF = true /\ tree_page_type (h_type (V no)) = true.
Proof.
  destruct h; cbn [tree_at].
  - intros ([H1 H2] & _ & _ & _ & _ & _ & ->). split_and!; [set_solver|done|by apply tree_page_leaf].
  - intros (c & rest & fp' & [H1 H2] & _ & _ & _ & ->). split_and!; [set_solver|done|by apply tree_page_node].
Qed.
Lemma tree_bytes V h : forall no lo hi first nxt es fp, tree_at V h no lo hi first nxt es fp -> forall q, q ∈ fp -> Forall byte_ok (V q).
Proof.
  induction h as [|h IH]; intros no lo hi first nxt es fp; cbn [tree_at].
  - intros (Hl & _ & _ & _ & _ & _ & ->) q Hq. apply list_elem_of_singleton in Hq as ->. apply Hl.
  - intros (c & rest & fp' & Hn & _ & _ & Hf & ->) q Hq. apply elem_of_cons in Hq as [->|Hq]; [apply Hn|]. clear Hn.
    induction Hf as [c lo hi first nxt es fp Hlt Ht|c k c' rest lo hi first mid nxt es es' fp fp' Hk Ht Hf IHf].
    + by eapply IH.
    + apply elem_of_app in Hq as [Hq|Hq]; [by eapply IH|by apply IHf].
Qed.
Lemma insert_rec_ok h : forall fuel t no lo hi first nxt es fp e, (h < fuel)%nat -> tree_env t (Z.of_nat h + 2) ->
  tree_at (content t) h no lo hi first nxt es fp -> NoDup fp -> Forall (fun q => 0 <= q < hint t) fp ->
  btree_entry_ok e -> lo <= erank e < hi -> erank e ∉ ranks es ->
  exists r t', insert_rec fuel no e t = (Ok r, t') /\ tree_step (fun q => q ∈ fp) (Z.of_nat h + 1) t t' /\ pins_eq (store t) (store t') /\
    inserted h t t' no lo hi first nxt es fp e r.
Proof.
  induction h as [|h IH]; intros [|fuel] t no lo hi first nxt es fp e Hfuel Henv Ht Hnd Hfp He Hr Hnew; try lia; cbn [insert_rec];
    destruct (tree_root_page _ _ _ _ _ _ _ _ _ Ht) as (Hin & Hval & Hty); pose proof (proj1 (list.Forall_forall _ _) Hfp _ Hin) as Hno; cbv beta in Hno.
  - destruct (read_tree_ok t _ no Henv ltac:(lia) Hno Hval Hty) as (pg & s1 & R1 & R2 & R3 & R4). run R1. rewrite run_page_bytes.
    cbn [store]. rewrite R3. pose proof Ht as ([Hwf _] & _). destruct (tree_page_leaf _ Hwf) as (_ & -> & _). set (t1 := mkTS s1 (tree t)) in *.
    assert (content t1 no = content t no) as Hc by (by apply (tree_step_content _ _ _ _ no R4); [|intros []]). rewrite <- Hc.
    assert (tree_at (content t1) 0 no lo hi first nxt es fp) as Ht1.
    { apply (tree_frame (content t)); [done|]. intros q Hq. apply (tree_step_content _ _ _ _ q R4); [|by intros []]. by apply (proj1 (list.Forall_forall _ _) Hfp). }
    assert (tree_env t1 1) as Henv1.
    { apply (tree_step_env _ 1 t t1 1 (tree_step_weaken _ _ _ 1 _ _ R4 ltac:(done) ltac:(lia)) Henv ltac:(lia)). change (store t1) with s1. rewrite (ho_pins _ _ _ _ R2). lia. }
    pose proof Henv as [Hw _ _ _ _].
    destruct (insert_leaf_ok t1 (store t) pg no lo hi first nxt es fp e Henv1 (proj1 Hw) Hno R2 Ht1) as (r & t' & I1 & I2 & I3 & I4); try done.
    { apply (tree_next_bound _ _ _ _ _ _ _ _ _ (tree_bytes _ _ _ _ _ _ _ _ _ Ht1) Ht1). }
    exists r, t'. split_and!; [done| |done|done]. replace (Z.of_nat 0 + 1) with (0 + 1) by lia.
    eapply tree_step_trans; [apply (tree_step_weaken _ _ _ 0 _ _ R4); [by intros ? []|lia]|].
    apply (tree_step_weaken _ _ _ 1 _ _ I2); [intros q <-; by left|lia].
  - destruct (read_tree_ok t _ no Henv ltac:(lia) Hno Hval Hty) as (pg & s1 & R1 & R2 & R3 & R4). run R1. rewrite run_page_bytes.
    cbn [store]. rewrite R3. pose proof Ht as (c & rest & fp' & Hn & Hseps & Hch & Hf & ->). destruct (tree_page_node _ (proj1 Hn)) as (_ & -> & _).
    set (t1 := mkTS s1 (tree t)) in *. pose proof (proj1 (list.Forall_forall _ _) Hfp) as Hfp2. cbv beta in Hfp2.
    assert (forall q, 0 <= q < hint t -> content t1 q = content t q) as Hc by (intros q Hq; by apply (tree_step_content _ _ _ _ q R4); [|intros []]).
    assert (tree_env t1 (Z.of_nat h + 2)) as Henv1.
    { apply (tree_step_env _ 1 t t1 _ (tree_step_weaken _ _ _ 1 _ _ R4 ltac:(done) ltac:(lia))).
      - by replace (Z.of_nat h + 2 + 1) with (Z.of_nat (S h) + 2) by lia.
      - lia.
      - change (store t1) with s1. rewrite (ho_pins _ _ _ _ R2). lia. }
    destruct (nodes_ordered_index (content t no) e (proj1 Hn)) as (Hjb & Hj1 & Hj2); [rewrite Hseps; by apply (forest_seps _ _ _ _ _ _ _ _ _ Hf)|done|].
    rewrite (zlen_node_seps _ (proj1 Hn)) in Hjb. set (j := node_child_index (content t no) e) in *. rewrite Hseps in Hj1, Hj2.
    assert (zlen rest = h_slot_count (content t no)) as Hlr by (rewrite <- (zlen_node_seps _ (proj1 Hn)), Hseps; unfold zlen; by rewrite length_fmap).
    assert (forest (tree_at (content t1) h) c rest lo hi first nxt es fp') as Hf1.
    { eapply forest_mono; [exact Hf|]. intros x a b f n l g Htx Hg. apply (tree_frame (content t)); [done|]. intros q Hq. apply Hc, Hfp2. set_solver. }
    destruct (forest_route _ _ _ _ _ _ _ _ _ (Z.to_nat j) (erank e) Hf1 Hr ltac:(unfold zlen in Hlr; lia) Hj1 Hj2)
      as (cj & lo' & hi' & first' & nxt' & L1 & Lj & L2 & F1 & Fj & F2 & Hro).
    assert (node_child (content t no) j = cj) as Hcj.
    { pose proof (ro_child _ _ _ _ _ _ _ _ _ _ _ _ _ _ _ _ _ _ _ _ _ _ Hro) as E. rewrite <- Hch in E. unfold node_children in E.
      rewrite lookup_fmap_seq in E. rewrite Z2Nat.id in E by lia. case_decide; congruence. }
    pose proof (ro_fp _ _ _ _ _ _ _ _ _ _ _ _ _ _ _ _ _ _ _ _ _ _ Hro) as Efp. pose proof (ro_es _ _ _ _ _ _ _ _ _ _ _ _ _ _ _ _ _ _ _ _ _ _ Hro) as Ees.
    pose proof Hnd as Hnd0. apply list.NoDup_cons in Hnd as [Hnin Hnd']. rewrite Efp in Hnd'. apply list.NoDup_app in Hnd' as (_ & Hd1 & Hnd').
    apply list.NoDup_app in Hnd' as (HndJ & Hd2 & _).
    destruct (IH fuel t1 cj lo' hi' first' nxt' Lj Fj e) as (r & t2 & I1 & I2 & I3 & I4); try done; try lia.
    { exact (ro_tree _ _ _ _ _ _ _ _ _ _ _ _ _ _ _ _ _ _ _ _ _ _ Hro). }
    { apply list.Forall_forall. intros q Hq. apply Hfp2. rewrite Efp. set_solver. }
    { exact (ro_range _ _ _ _ _ _ _ _ _ _ _ _ _ _ _ _ _ _ _ _ _ _ Hro). }
    { intros Hin2. apply Hnew. rewrite Ees. unfold ranks in *. rewrite !fmap_app. set_solver. }
    rewrite Hcj. run I1. rewrite run_page_bytes.
    assert (content t2 no = content t no) as Hno2.
    { rewrite (tree_step_content _ _ _ _ no I2); [apply Hc; done|done|]. intros Hq. apply Hnin. rewrite Efp. set_solver. }
    pose proof (ts_hint _ _ _ _ I2) as Hh2. change (hint t1) with (hint t) in Hh2. pose proof (ts_file _ _ _ _ I2) as Hf2. change (fid t1) with (fid t) in Hf2.
    assert (holds (store t) (store t2) (mkPid (fid t2) no) pg) as Hh by (rewrite Hf2; eapply holds_eq; [exact R2|exact I3]).
    assert (data pg (store t2) = content t2 no) as -> by (exact (data_view ∅ _ _ _ _ (ts_ok _ _ _ _ I2) (ho_pin _ _ _ _ Hh))).
    assert (tree_env t2 1) as Henv2.
    { apply (tree_step_env _ _ t1 t2 1 I2); [by replace (1 + (Z.of_nat h + 1)) with (Z.of_nat h + 2) by lia|lia|]. rewrite (proj2 I3). lia. }
    pose proof Henv as [Hw _ _ _ _].
    destruct (insert_node_ok h t1 t2 (store t) pg no c rest lo hi first nxt es fp' e cj lo' hi' first' nxt' L1 Lj L2 F1 Fj F2 j r)
      as (r' & t3 & J1 & J2 & J3 & J4); rewrite ?Hno2; try done; try lia.
    { apply Hw. }
    { change (hint t1) with (hint t). lia. }
    { intros q Hq. apply (tree_step_content _ _ _ _ q I2); [change (hint t1) with (hint t); apply Hfp2; rewrite Efp; set_solver|]. set_solver. }
    exists r', t3. rewrite Hno2 in J1. split_and!; [exact J1| |done|exact J4].
    replace (Z.of_nat (S h) + 1) with (0 + (Z.of_nat h + 1 + 1)) by lia.
    eapply tree_step_trans; [apply (tree_step_weaken _ _ _ 0 _ _ R4); [by intros ? []|lia]|].
    eapply tree_step_trans; [apply (tree_step_weaken _ _ _ _ _ _ I2); [|lia]|].
    { intros q Hq. left. rewrite Efp. set_solver. }
    apply (tree_step_weaken _ _ _ 1 _ _ J2); [|lia]. intros q <-. left. left. set_solver.
Qed.

(** * The whole tree *)
Definition RANKS : Z := 2 ^ 113.
Lemma erank_bound e : btree_entry_ok e -> 0 <= erank e < RANKS.
Proof.
  intros ([Hk _] & Hp & Hs). unfold erank, rank_of, RANKS. destruct (knull (ekey e)).
  - change (2 ^ 113) with (2 * 2 ^ 64 * 2 ^ 48). lia.
  - change (2 ^ 113) with (2 * 2 ^ 64 * 2 ^ 48). lia.
Qed.
(** The file header page holds the root; the tree below it holds [es], in order; the leaves end the chain. *)
Record tree_ok (t : TreeState) (h : nat) (es : list BTreeEntry) (first : Z) (fp : list Z) : Prop := {
  tk_len : zlen (content t 0) = PAGE_SIZE;
  tk_magic : h_magic (content t 0) = MAGIC_FILE_HEADER;
  tk_valid : page_valid (content t 0) MAGIC_FILE_HEADER = true;
  tk_root : file_root (content t 0) = root_page (tree t);
  tk_tree : tree_at (content t) h (root_page (tree t)) 0 RANKS first 0 es fp;
  tk_nodup : NoDup fp;
  tk_pages : Forall (fun q => 0 < q < hint t) fp }.
Lemma set_root_ok t room no : tree_env t room -> 0 <= room -> zlen (content t 0) = PAGE_SIZE -> h_magic (content t 0) = MAGIC_FILE_HEADER ->
  page_valid (content t 0) MAGIC_FILE_HEADER = true -> 0 <= no < 2 ^ 32 ->
  exists t', set_root no t = (Ok tt, t') /\ tree_step (eq 0) 0 t t' /\ pins_eq (store t) (store t') /\ root_page (tree t') = no /\ hint t' = hint t /\
    zlen (content t' 0) = PAGE_SIZE /\ h_magic (content t' 0) = MAGIC_FILE_HEADER /\ page_valid (content t' 0) MAGIC_FILE_HEADER = true /\
    file_root (content t' 0) = no.
Proof.
  intros Henv Hroom Hl Hm Hv Hno. pose proof Henv as [(Hok & Ha & Htx) Hpos Hwi Hb Hp]. unfold set_root, tree_page. rewrite run_gets.
  destruct (read_session ∅ (store t) Hok (mkPid (fid t) 0) MAGIC_FILE_HEADER ltac:(cbn; lia) ltac:(lia) Hv) as (pg & s1 & R1 & R2 & R3 & R4 & R5).
  run (pooled_run _ t _ _ R1). rewrite run_page_bytes. change (store (mkTS s1 (tree t))) with s1. rewrite R5. fold (content t 0).
  set (t1 := mkTS s1 (tree t)). assert (tree_step (fun _ => False) 0 t t1) as Hs1.
  { eapply store_step; [done|done|done|exact R3|by intros ? []|]. intros p <-. cbn. split; [done|lia]. }
  assert (zlen (set_file_root no (content t 0)) = PAGE_SIZE) as Hl2.
  { unfold set_file_root, PAGE_HEADER_SIZE, PAGE_SIZE in *. rewrite zlen_put_u; lia. }
  destruct (finish_step t1 (store t) 0 pg _ Hok (tree_step_writable _ _ _ _ Hs1 ltac:(by split_and!)) ltac:(cbn; lia) (ts_within _ _ _ _ Hs1) R4 Hl2)
    as (s2 & F1 & F2 & F3 & F4).
  run F1. exists (mkTS s2 (set_root_page no (tree t1))). split; [done|].
  assert (content (mkTS s2 (set_root_page no (tree t1))) 0 = seal (set_file_root no (content t 0))) as Hc by exact F4.
  destruct (seal_reads (set_file_root no (content t 0))) as (S1 & _ & _ & _ & _ & _ & S7 & S8); [rewrite Hl2; unfold PAGE_SIZE; lia|].
  assert (h_magic (set_file_root no (content t 0)) = MAGIC_FILE_HEADER) as Hm2.
  { rewrite <- Hm. unfold set_file_root, PAGE_HEADER_SIZE, h_magic, PAGE_SIZE in *. apply get_put_u_ne; lia. }
  rewrite Hc. split_and!; try done.
  - assert (tree_step (eq 0) 0 t (mkTS s2 (tree t1))) as [X1 X2 X3 X4 X5]; [|by split].
    apply (tree_step_trans _ 0 0 t t1); [apply (tree_step_weaken _ _ _ 0 _ _ Hs1); [by intros ? []|lia]|].
    apply (tree_step_weaken _ _ _ 0 _ _ F2); [intros q <-; by left|lia].
  - by rewrite S7.
  - by rewrite S1.
  - apply page_valid_seal; [rewrite Hl2; unfold PAGE_SIZE; lia|done].
  - unfold file_root, get_u. rewrite S8 by (unfold PAGE_HEADER_SIZE; lia). fold (get_u 4 PAGE_HEADER_SIZE (set_file_root no (content t 0))).
    unfold set_file_root, PAGE_HEADER_SIZE, PAGE_SIZE in *. apply get_put_u; lia.
Qed.

(** Inserting below the root leaves the root alone. *)
Lemma pooled_tree {A} (m : ST Store A) t r t' : pooled m t = (r, t') -> tree t' = tree t.
Proof. unfold pooled. destruct (m (store t)). by intros [= _ <-]. Qed.
Definition keeps_root {A} (m : ST TreeState A) : Prop := forall t r t', m t = (r, t') -> root_page (tree t') = root_page (tree t).
Lemma kr_bind {A B} (m : ST TreeState A) (f : A -> ST TreeState B) : keeps_root m -> (forall a, keeps_root (f a)) -> keeps_root (m ≫= f).
Proof.
  intros Hm Hf t r t' H. rewrite run_match in H. destruct (m t) as [[a| |] t1] eqn:E; [|injection H as _ <-; by eapply Hm..].
  etrans; [by eapply Hf|by eapply Hm].
Qed.
Lemma kr_pooled {A} (m : ST Store A) : keeps_root (pooled m).
Proof. intros t r t' H. by rewrite (pooled_tree _ _ _ _ H). Qed.
Lemma kr_ret {A} (a : A) : keeps_root (mret a).
Proof. intros t r t' H. by injection H as _ <-. Qed.
Lemma kr_gets {A} (f : TreeState -> A) : keeps_root (gets f).
Proof. intros t r t' H. by injection H as _ <-. Qed.
Lemma kr_crash {A} : keeps_root (crash (A := A)).
Proof. intros t r t' H. by injection H as _ <-. Qed.
Lemma kr_hint n : keeps_root (modify (fun t => set_tree (set_hint (n t) (tree t)) t)).
Proof. intros t r t' H. by injection H as _ <-. Qed.
Ltac kr := repeat first [apply kr_pooled | apply kr_ret | apply kr_gets | apply kr_crash | apply (kr_hint (fun _ => _)) | apply kr_bind; intros].
Lemma insert_rec_root fuel no e t r t' : insert_rec fuel no e t = (r, t') -> root_page (tree t') = root_page (tree t).
Proof.
  assert (keeps_root new_page) as Hnew by (unfold new_page, tree_page; kr).
  assert (forall i b, keeps_root (finish i b)) as Hfin by (intros; unfold finish; kr).
  assert (forall f n, keeps_root (insert_rec f n e)) as H; [|apply H]. clear. 
  assert (keeps_root new_page) as Hnew by (unfold new_page, tree_page; kr).
  assert (forall i b, keeps_root (finish i b)) as Hfin by (intros; unfold finish; kr).
  induction f as [|f IH]; intros n; cbn [insert_rec]; [apply kr_crash|]. apply kr_bind; [unfold read_tree, tree_page, page_bytes; kr; destruct (negb _); kr|].
  intros pg. apply kr_bind; [unfold page_bytes; kr|]. intros p. destruct (_ =? _).
  - unfold insert_leaf. destruct (_ <=? _); [apply kr_bind; [apply Hfin|intros; kr]|]. apply kr_bind; [apply Hnew|]. intros [rno rpg].
    apply kr_bind; [apply Hfin|]. intros. apply kr_bind; [apply Hfin|]. intros. kr.
  - apply kr_bind; [apply IH|]. intros r. apply kr_bind; [unfold page_bytes; kr|]. intros q. unfold insert_node. destruct r as [[rs rr]|]; [|kr].
    destruct (_ <=? _); [apply kr_bind; [apply Hfin|intros; kr]|]. apply kr_bind; [apply Hnew|]. intros [rno rpg].
    apply kr_bind; [apply Hfin|]. intros. apply kr_bind; [apply Hfin|]. intros. kr.
Qed.
(** A root with two children. *)
Lemma grow_root V h no first mid es1 es2 fp1 fp2 old rgt sep p : tree_at V h old 0 (erank sep) first mid es1 fp1 -> tree_at V h rgt (erank sep) RANKS mid 0 es2 fp2 ->
  0 < erank sep < RANKS -> btree_entry_ok sep -> 0 <= old < 2 ^ 32 -> 0 <= rgt < 2 ^ 32 -> V no = seal p -> p = node_build [sep] [old; rgt] 0 1 ->
  tree_at V (S h) no 0 RANKS first 0 (es1 ++ es2) (no :: fp1 ++ fp2).
Proof.
  intros T1 T2 Hs Hok Ho Hr HV ->. destruct (node_build_ok [sep] [old; rgt] 0 1) as (N1 & N2 & N3); [| |reflexivity|lia|lia|reflexivity|unfold NODE_MAX; lia|].
  { by apply list.Forall_singleton. } { by apply list.Forall_cons; split; [|apply list.Forall_singleton]. }
  destruct (seal_node _ _ N1 HV) as (S1 & S2 & S3). cbn [tree_at]. exists old, [(sep, rgt)], (fp1 ++ fp2). split_and!; [exact S1| | | |reflexivity].
  - by rewrite S2, N2.
  - by rewrite S3, N3.
  - econstructor; [lia|done|]. constructor; [lia|done].
Qed.
Lemma insert_ok t h es first fp e : tree_ok t h es first fp -> tree_env t (Z.of_nat h + 3) -> btree_entry_ok e -> e ∉ es ->
  exists t' h' A B fp', insert e t = (Ok tt, t') /\ es = A ++ B /\ tree_ok t' h' (A ++ e :: B) first fp' /\ (h <= h' <= h + 1)%nat /\
    tree_step (fun _ => True) (Z.of_nat h + 2) t t' /\ pins_eq (store t) (store t').
Proof.
  intros Hk Henv He Hnew. pose proof Hk as [Hl Hm Hv Hroot Ht Hnd Hfp]. pose proof Henv as [Hw Hpos Hwi Hb Hp].
  destruct (tree_sound _ _ _ _ _ _ _ _ _ Ht) as (Ho & Hbd & Hoks). pose proof (erank_bound e He) as Her.
  pose proof (proj1 (list.Forall_forall _ _) Hfp) as Hfp2. cbv beta in Hfp2.
  destruct (insert_rec_ok h (S (length (frames (store t)))) t (root_page (tree t)) 0 RANKS first 0 es fp e) as (r & t1 & I1 & I2 & I3 & A & B & HAB & I4); try done.
  { pose proof (pins_nonneg _ _ (proj1 Hw)). unfold zlen in *. lia. }
  { split; try done; lia. }
  { apply list.Forall_forall. intros q Hq. specialize (Hfp2 q Hq). lia. }
  { intros Hin. apply list_elem_of_fmap_1 in Hin as (x & Hx & Hin). rewrite list.Forall_forall in Hoks. apply Hnew. by rewrite (erank_inj e x He (Hoks x Hin) Hx). }
  pose proof (ts_hint _ _ _ _ I2) as Hh1. pose proof (ts_file _ _ _ _ I2) as Hf1.
  assert (forall q, q ∈ fp ++ seqZ (hint t) (hint t1 - hint t) -> 0 < q < hint t1) as Hpg.
  { intros q Hq. apply elem_of_app in Hq as [Hq|Hq]; [specialize (Hfp2 q Hq); lia|]. apply elem_of_seqZ in Hq. lia. }
  assert (NoDup (fp ++ seqZ (hint t) (hint t1 - hint t))) as Hnd1.
  { apply list.NoDup_app. split_and!; [done| |apply NoDup_seqZ]. intros q Hq Hq2. apply elem_of_seqZ in Hq2. specialize (Hfp2 q Hq). lia. }
  assert (content t1 0 = content t 0) as Hc0.
  { apply (tree_step_content _ _ _ _ 0 I2); [lia|]. intros Hq. specialize (Hfp2 0 Hq). lia. }
  unfold insert. rewrite run_gets. run I1. destruct r as [[sep rgt]|].
  - destruct I4 as (mid & La & Lb & Fa & Fb & HAe & Hsep & Hok & Hr & Ta & Tb & Hperm). rewrite run_gets.
    assert (tree_env t1 1) as Henv1.
    { apply (tree_step_env _ _ t t1 1 I2); [|lia|rewrite (proj2 I3); lia]. split; try done; lia. }
    destruct (new_page_ok t1 1 Henv1 ltac:(lia)) as (pg & s2 & N1 & N2 & N3). run N1. set (t2 := mkTS s2 (set_hint (hint t1 + 1) (tree t1))) in *.
    set (old := root_page (tree t1)) in *. set (b := node_build [sep] [old; rgt] 0 1).
    assert (old = root_page (tree t)) as Hold by (eapply insert_rec_root; exact I1).
    assert (0 <= old < 2 ^ 32) as Hob.
    { rewrite Hold. specialize (Hfp2 _ (proj1 (tree_root_page _ _ _ _ _ _ _ _ _ Ht))). lia. }
    destruct (node_build_ok [sep] [old; rgt] 0 1) as (B1 & _); [| |reflexivity|lia|lia|reflexivity|unfold NODE_MAX; lia|]. { by apply list.Forall_singleton. } { by apply list.Forall_cons; split; [|apply list.Forall_singleton]. }
    pose proof (tree_step_writable _ _ _ _ I2 Hw) as Hw1. pose proof (tree_step_writable _ _ _ _ N3 Hw1) as Hw2.
    destruct (finish_step t2 (store t1) (hint t1) pg b (proj1 Hw1) Hw2 ltac:(cbn; lia) (ts_within _ _ _ _ N3) N2 (nw_len _ B1)) as (s3 & F1 & F2 & F3 & F4).
    run F1. set (t3 := mkTS s3 (tree t2)) in *.
    assert (forall q, 0 <= q < hint t1 -> content t3 q = content t1 q) as Hc3.
    { intros q Hq. rewrite (tree_step_content _ _ _ _ q F2); [|cbn; lia|lia]. apply (tree_step_content _ _ _ _ q N3); [lia|by intros []]. }
    assert (tree_step (fun _ => True) (Z.of_nat h + 1 + (1 + 0)) t t3) as Hs3.
    { eapply tree_step_trans; [apply (tree_step_weaken _ _ _ _ _ _ I2); [done|lia]|].
      eapply tree_step_trans; [apply (tree_step_weaken _ _ _ 1 _ _ N3); [by intros ? []|lia]|].
      apply (tree_step_weaken _ _ _ 0 _ _ F2); [intros q <-; left; by left|lia]. }
    destruct (set_root_ok t3 0 (hint t1)) as (t4 & G1 & G2 & G3 & G4 & G5 & G6 & G7 & G8 & G9).
    { pose proof (tree_step_writable _ _ _ _ F2 Hw2). pose proof (te_bound _ _ Henv1). pose proof (te_pins _ _ Henv1). split; cbn [hint]; try done; cbn; try lia; [apply (ts_within _ _ _ _ F2)|].
      pose proof (ev_len _ _ _ _ (ts_evolves _ _ _ _ N3)) as Hl1. pose proof (ev_len _ _ _ _ (ts_evolves _ _ _ _ F2)) as Hl2.
      change (store t3) with s3 in Hl2. change (store t2) with s2 in Hl1, Hl2. unfold zlen in *. rewrite (proj2 F3). lia. }
    { lia. } { by rewrite Hc3, Hc0 by lia. } { by rewrite Hc3, Hc0 by lia. } { by rewrite Hc3, Hc0 by lia. } { lia. }
    assert (forall q, 0 < q < hint t1 + 1 -> content t4 q = content t3 q) as Hc4.
    { intros q Hq. apply (tree_step_content _ _ _ _ q G2); [cbn; lia|lia]. }
    exists t4, (S h), A, B, (hint t1 :: Fa ++ Fb). split_and!; [exact G1|done| |lia|lia| |].
    + split; try done; [by rewrite G9, G4| | |].
      * rewrite G4, HAe. apply (grow_root _ h (hint t1) first mid La Lb Fa Fb old rgt sep b); try done.
        -- rewrite Hold. apply (tree_frame (content t1)); [exact Ta|]. intros q Hq. assert (0 < q < hint t1) by (apply Hpg; rewrite <- Hperm; set_solver).
           rewrite Hc4, Hc3 by lia. done.
        -- apply (tree_frame (content t1)); [exact Tb|]. intros q Hq. assert (0 < q < hint t1) by (apply Hpg; rewrite <- Hperm; set_solver).
           rewrite Hc4, Hc3 by lia. done.
        -- rewrite Hc4 by lia. exact F4.
      * apply list.NoDup_cons. rewrite Hperm. split; [|done]. intros Hq. specialize (Hpg _ Hq). lia.
      * rewrite G5. apply list.Forall_forall. intros q Hq. cbn. apply elem_of_cons in Hq as [->|Hq]; [lia|]. rewrite Hperm in Hq. specialize (Hpg _ Hq). lia.
    + replace (Z.of_nat h + 2) with (Z.of_nat h + 1 + (1 + 0) + 0) by lia. eapply tree_step_trans; [exact Hs3|].
      apply (tree_step_weaken _ _ _ 0 _ _ G2); [intros; by left|lia].
    + eapply pins_eq_trans; [exact I3|]. eapply pins_eq_trans; [exact F3|exact G3].
  - destruct I4 as (fp' & Ta & Hperm). exists t1, h, A, B, fp'. assert (root_page (tree t1) = root_page (tree t)) as Hr1 by (eapply insert_rec_root; exact I1).
    split_and!; [done|done| |lia|lia| |done].
    + split; rewrite ?Hc0, ?Hr1; try done; [by rewrite Hperm|]. rewrite Hperm. by apply list.Forall_forall.
    + apply (tree_step_weaken _ _ _ _ _ _ I2); [done|lia].
Qed.

(** * A new tree *)
Lemma pooled_bind {A B} (m : ST Store A) (k : A -> ST TreeState B) s b a s' : m s = (Ok a, s') -> (pooled m ≫= k) (mkTS s b) = k a (mkTS s' b).
Proof. intros H. apply run_bind. by apply pooled_run. Qed.
Lemma two_pages (p q : PageId) : p <> q -> ({[p]} ∪ ({[q]} ∪ ({[p]} ∪ ∅))) ∖ {[p]} = ({[q]} : gset PageId).
Proof. set_solver. Qed.
Lemma one_page (p : PageId) : ({[p]} : gset PageId) ∖ {[p]} = ∅.
Proof. set_solver. Qed.
Lemma other_page (p q : PageId) : p <> q -> p ∉ ({[q]} : gset PageId).
Proof. set_solver. Qed.
Lemma empty_leaf_valid : page_valid (init_page MAGIC_BTREE_LEAF PtBTreeLeaf) MAGIC_BTREE_LEAF = true.
Proof. by vm_compute. Qed.
Lemma create_ok t : writable (store t) -> within (store t) (fid t) 0 -> pins (store t) + 1 < zlen (frames (store t)) ->
  exists s', let t' := mkTS s' (mkTree (fid t) 1 2) in create t = (Ok tt, t') /\ tree_ok t' 0 [] 1 [1] /\ writable s' /\ within s' (fid t) 2 /\
    evolves (tree_pages t (fun _ => True)) (tree_pages t (fun no => no < 2)) (store t) s' /\ pins_eq (store t) s'.
Proof.
  intros (Hok & Ha & Ht) Hwi Hp. destruct t as [s b]. cbn [store tree] in *. set (f := tree_file b) in *. set (p0 := mkPid f 0). set (p1 := mkPid f 1).
  set (initH := init_page MAGIC_FILE_HEADER PtFileHeader). set (initL := init_page MAGIC_BTREE_LEAF PtBTreeLeaf).
  destruct (init_page_header MAGIC_FILE_HEADER PtFileHeader ltac:(done)) as (H1 & _ & _ & _ & _ & _ & H7 & _). fold initH in H1, H7.
  destruct leaf_init as (L1 & L2 & L3). fold initL in L1, L2, L3.
  assert (p0 <> p1) as Hne by (unfold p0, p1; congruence). assert (0 <= page_no p0 /\ 0 <= page_no p1) as [N0 N1] by done.
  set (T := tree_pages (mkTS s b) (fun _ => True)). set (U := tree_pages (mkTS s b) (fun no => no < 2)).
  assert (T p0 /\ T p1 /\ U p0 /\ U p1) as (T0 & T1 & U0 & U1) by done.
  unfold create. change ((tree_page 0 ≫= ?k) (mkTS s b)) with (k p0 (mkTS s b)). cbv beta.
  destruct (create_file_session ∅ s f Hok Hwi) as (A1 & A2 & A3 & A4). set (s1 := set_disk _ _) in *.
  rewrite (pooled_bind _ _ s b tt s1) by done.
  assert (view s1 p0 = zero_page) as Hz0.
  { rewrite (ev_view _ _ _ _ A2 p0) by (try done; by intros []). apply (beyond_zero _ f 0); done || (cbn; lia). }
  destruct (allocate_session ∅ s1 A1 p0 N0) as (h0 & s2 & B1 & B2 & B3 & B4); [rewrite (proj2 A3); change (frames s1) with (frames s); lia|done|].
  rewrite (pooled_bind _ _ s1 b _ _ B1).
  destruct (poke_session ∅ s2 B2 p0 h0 _ initH (ho_pin _ _ _ _ B4) H7) as (s3 & C1 & C2 & C3 & C4 & C5 & _). rewrite (pooled_bind _ _ s2 b _ _ C1).
  change ((tree_page 1 ≫= ?k) (mkTS s3 b)) with (k p1 (mkTS s3 b)). cbv beta.
  assert (evolves T U s s3) as E3.
  { eapply evolves_trans; [apply (evolves_weaken _ _ _ _ _ _ A2); [by intros ? []|by intros ? <-]|].
    eapply evolves_trans; [apply (evolves_weaken _ _ _ _ _ _ B3); [by intros ? []|by intros ? <-]|].
    apply (evolves_weaken _ _ _ _ _ _ C3); [by intros ? <-|by intros ? []]. }
  assert (within s3 f 1) as W3.
  { apply (ev_within _ _ _ _ C3); [lia|by intros ? []|]. apply (ev_within _ _ _ _ B3); [lia|intros q <- _; cbn; lia|done]. }
  pose proof (holds_eq _ _ _ _ _ B4 C4) as B5.
  destruct (allocate_session _ s3 C2 p1 N1) as (root & s4 & D1 & D2 & D3 & D4).
  { rewrite (ho_pins _ _ _ _ B5), (proj2 A3). pose proof (ev_len _ _ _ _ E3). unfold zlen in *. lia. }
  { apply (beyond_zero _ f 1); [done|done|cbn; lia|lia]. }
  rewrite (pooled_bind _ _ s3 b _ _ D1).
  destruct (poke_session _ s4 D2 p1 root _ initL (ho_pin _ _ _ _ D4) (lw_len _ L1)) as (s5 & F1 & F2 & F3 & F4 & F5 & _). rewrite (pooled_bind _ _ s4 b _ _ F1).
  pose proof (holds_eq _ _ _ _ _ D4 F4) as D5.
  assert (evolves T U s s5) as E5.
  { eapply evolves_trans; [exact E3|]. eapply evolves_trans; [apply (evolves_weaken _ _ _ _ _ _ D3); [by intros ? []|by intros ? <-]|].
    apply (evolves_weaken _ _ _ _ _ _ F3); [by intros ? <-|by intros ? []]. }
  assert (pin_at s5 h0 = Some (p0, pin_count (pin_at s1 h0) + 1)) as P5.
  { rewrite (ho_ne _ _ _ _ D5) by (by apply (holds_frames _ _ _ _ _ _ _ B5 D5)). apply (ho_pin _ _ _ _ B5). }
  assert (data h0 s5 = initH) as Hd.
  { rewrite (data_view _ _ _ _ _ F2 P5). rewrite (ev_view _ _ _ _ F3) by (done || congruence). rewrite (ev_view _ _ _ _ D3) by (done || by intros []). exact C5. }
  rewrite run_page_bytes. change (store (mkTS s5 b)) with s5. rewrite Hd. set (hp := set_file_root 1 initH).
  assert (zlen hp = PAGE_SIZE) as Hhp by (unfold hp, set_file_root, PAGE_HEADER_SIZE, PAGE_SIZE in *; rewrite zlen_put_u; lia).
  destruct (seal_reads hp) as (S1 & _ & _ & _ & _ & _ & S7 & S8); [rewrite Hhp; unfold PAGE_SIZE; lia|].
  destruct (poke_session _ s5 F2 p0 h0 _ (seal hp) P5 ltac:(congruence)) as (s6 & G1 & G2 & G3 & G4 & G5 & _).
  destruct (mark_session _ s6 G2 p0 h0 _ ltac:(rewrite (proj1 G4); exact P5)) as (s7 & I1 & I2 & I3 & I4 & _).
  { rewrite (ev_att _ _ _ _ G3), (ev_att _ _ _ _ E5). done. } { apply (ev_txn _ _ _ _ G3), (ev_txn _ _ _ _ E5). done. }
  rewrite (two_pages p0 p1 Hne) in I2.
  assert (pins_eq s5 s7) as P57 by (by eapply pins_eq_trans).
  assert (pin_at s7 h0 = Some (p0, pin_count (pin_at s1 h0) + 1)) as P7 by (by rewrite (proj1 P57)).
  destruct (unpin_ok _ s7 h0 p0 _ I2 P7 (other_page p0 p1 Hne)) as (s8 & J1 & J2 & J3).
  pose proof (holds_swap _ _ _ _ _ _ _ _ _ _ A1 B5 (holds_eq _ _ _ _ _ D5 P57) Hne P7 J3) as D8.
  destruct (flush_session _ s8 J2 p0 (other_page p0 p1 Hne)) as (s9 & K1 & K2 & K3 & K4). pose proof (holds_eq _ _ _ _ _ D8 K4) as D9.
  assert (evolves T U s s9) as E9.
  { eapply evolves_trans; [exact E5|]. eapply evolves_trans; [apply (evolves_weaken _ _ _ _ _ _ G3); [by intros ? <-|by intros ? []]|].
    eapply evolves_trans; [by apply evolves_no|]. eapply evolves_trans; [apply evolves_no; by eapply unpinned_evolves|]. by apply evolves_no. }
  destruct (mark_session _ s9 K2 p1 root _ (ho_pin _ _ _ _ D9)) as (s10 & M1 & M2 & M3 & M4 & _).
  { by rewrite (ev_att _ _ _ _ E9). } { by apply (ev_txn _ _ _ _ E9). }
  rewrite one_page in M2.
  destruct (unpin_session ∅ s10 M2 ∅ s1 p1 root A1 (holds_eq _ _ _ _ _ D9 M4) (not_elem_of_empty p1)) as (s11 & Q1 & Q2 & Q3 & Q4 & _).
  unfold finish. rewrite run_assoc, (pooled_bind _ _ s5 b _ _ G1), run_assoc, (pooled_bind _ _ s6 b _ _ I1), (pooled_bind _ _ s7 b _ _ J1),
    (pooled_bind _ _ s8 b _ _ K1), (pooled_bind _ _ s9 b _ _ M1), (pooled_bind _ _ s10 b _ _ Q1).
  assert (evolves T U s s11) as E11.
  { eapply evolves_trans; [exact E9|]. eapply evolves_trans; by apply evolves_no. }
  exists s11. cbv zeta. split; [done|].
  assert (view s11 p0 = seal hp /\ view s11 p1 = initL) as [V0 V1].
  { assert (evolves no_page no_page s6 s11) as E611.
    { eapply evolves_trans; [exact I3|]. eapply evolves_trans; [by eapply unpinned_evolves|]. eapply evolves_trans; [exact K3|]. by eapply evolves_trans. }
    rewrite !(ev_view _ _ _ _ E611) by (done || by intros []). split; [exact G5|]. rewrite (ev_view _ _ _ _ G3) by (done || congruence). exact F5. }
  assert (h_magic hp = MAGIC_FILE_HEADER) as Hm2.
  { rewrite <- H1. unfold hp, set_file_root, PAGE_HEADER_SIZE, h_magic, PAGE_SIZE in *. apply get_put_u_ne; lia. }
  split_and!; [|by eapply evolves_writable| |done|by eapply pins_eq_trans].
  - split; unfold content; cbn [store tree tree_file root_page]; fold f; fold p0; rewrite ?V0.
    + congruence.
    + congruence.
    + apply page_valid_seal; [rewrite Hhp; unfold PAGE_SIZE; lia|done].
    + unfold file_root, get_u. rewrite S8 by (unfold PAGE_HEADER_SIZE; lia). fold (get_u 4 PAGE_HEADER_SIZE hp).
      unfold hp, set_file_root, PAGE_HEADER_SIZE, PAGE_SIZE in *. apply get_put_u; lia.
    + cbn [tree_at]. fold p1. rewrite V1. split_and!; [split; [exact L1|exact empty_leaf_valid]|exact L2|constructor|constructor|reflexivity|exact L3|reflexivity].
    + apply NoDup_singleton.
    + constructor; [cbn; lia|constructor].
  - assert (within s4 f 2) as W4.
    { apply (ev_within _ _ _ _ D3); [lia|intros q <- _; cbn; lia|]. apply (ev_within _ _ _ _ (evolves_refl no_page no_page s3)); [lia|by intros ? []|].
      destruct W3 as [X1 X2]. split; [unfold PAGE_SIZE in *; lia|]. intros q i Hq Hf. specialize (X2 q i Hq Hf). lia. }
    assert (evolves T no_page s4 s11) as E411.
    { eapply evolves_trans; [apply (evolves_weaken _ _ _ _ _ _ F3); [by intros ? <-|done]|]. eapply evolves_trans; [apply (evolves_weaken _ _ _ _ _ _ G3); [by intros ? <-|done]|].
      eapply evolves_trans; [by apply evolves_no|]. eapply evolves_trans; [apply evolves_no; by eapply unpinned_evolves|]. eapply evolves_trans; [by apply evolves_no|].
      eapply evolves_trans; by apply evolves_no. }
    apply (ev_within _ _ _ _ E411); [lia|by intros ? []|done].
Qed.

(** * The contract *)
Fixpoint sorted_add (e : BTreeEntry) (es : list BTreeEntry) : list BTreeEntry :=
  match es with [] => [e] | x :: es => if erank e <? erank x then e :: x :: es else x :: sorted_add e es end.
Lemma sorted_add_middle A B e : ordered (A ++ e :: B) -> sorted_add e (A ++ B) = A ++ e :: B.
Proof.
  unfold ordered, ranks. induction A as [|x A IH]; cbn; intros Ho; apply StronglySorted_cons in Ho as [H Ho].
  - destruct B as [|y B]; cbn; [done|]. cbn in H. apply Forall_cons_1 in H as [H _]. by destruct (Z.ltb_spec (erank e) (erank y)); [|lia].
  - rewrite list.Forall_forall in H. assert (erank x < erank e) as Hlt by (apply H, list_elem_of_fmap_2, elem_of_app; right; by left).
    destruct (Z.ltb_spec (erank e) (erank x)); [lia|]. f_equal. by apply IH.
Qed.
(** C9. Inserting an entry into a B+ tree of any height, through the buffer pool, splitting pages up to the root
    where they are full, gives a well-formed tree that holds exactly the old entries and the new one, in
    order. The call cannot fail while the pool has a frame per level and two more; it lets go of every page it pinned, and pages of
    other files, and what a rollback would restore, stay as they were. *)
Theorem btree_insert_refines t h es first fp e : tree_ok t h es first fp -> tree_env t (Z.of_nat h + 3) -> btree_entry_ok e -> e ∉ es ->
  exists t' h' fp', insert e t = (Ok tt, t') /\ tree_ok t' h' (sorted_add e es) first fp' /\ (h <= h' <= h + 1)%nat /\
    pool_ok ∅ (store t') /\ pins_eq (store t) (store t') /\ within (store t') (fid t') (hint t') /\
    (forall p, 0 <= page_no p -> file_id p <> fid t -> view (store t') p = view (store t) p) /\
    (forall p, 0 <= page_no p -> rolled (store t') p = rolled (store t) p).
Proof.
  intros Hk Henv He Hnew. destruct (insert_ok t h es first fp e Hk Henv He Hnew) as (t' & h' & A & B & fp' & I1 & -> & I3 & I4 & I5 & I6).
  exists t', h', fp'. destruct (tree_sound _ _ _ _ _ _ _ _ _ (tk_tree _ _ _ _ _ I3)) as (Ho & _). rewrite (sorted_add_middle _ _ _ Ho).
  split_and!; try done; try apply I4; try apply I6.
  - exact (ts_ok _ _ _ _ I5).
  - rewrite (ts_file _ _ _ _ I5). exact (ts_within _ _ _ _ I5).
  - intros p Hp Hf. apply (ev_view _ _ _ _ (ts_evolves _ _ _ _ I5)); [done|]. intros [Hf2 _]. done.
  - apply (ts_evolves _ _ _ _ I5).
Qed.

(** A tree of one leaf in a pool of four frames. *)
Definition demo_state : TreeState := mkTS (set_txn true (set_ctx (Some (mkTxn 1 false [] [] [])) (pool_new 4 ∅ (wal_new [])))) (mkTree 7 0 0).
Definition demo_tree : TreeState := (create demo_state).2.
Lemma demo_tree_ok : tree_ok demo_tree 0 [] 1 [1] /\ tree_env demo_tree (Z.of_nat 0 + 3).
Proof.
  destruct (create_ok demo_state) as (s' & C1 & C2 & C3 & C4 & C5 & C6).
  { split_and!; [destruct (pool_new_ok 4 ∅ (wal_new []) ltac:(lia)); by split|done|by eexists]. }
  { split; [done|]. intros p i Hi. cbn in Hi. by rewrite lookup_empty in Hi. }
  { done. }
  assert (demo_tree = mkTS s' (mkTree 7 1 2)) as -> by (unfold demo_tree; by rewrite C1). split; [exact C2|].
  split; cbn [tree store tree_file next_page_hint]; [done|lia|done|lia|]. rewrite (proj2 C6). pose proof (ev_len _ _ _ _ C5) as Hl.
  unfold zlen. rewrite Hl. done.
Qed.
Definition demo_entry : BTreeEntry := mkEntry (mkKey 5 false) 1 0.
Lemma btree_insert_refines_witness : exists t' h' fp', insert demo_entry demo_tree = (Ok tt, t') /\ tree_ok t' h' [demo_entry] 1 fp' /\ (0 <= h' <= 0 + 1)%nat /\
    pool_ok ∅ (store t') /\ pins_eq (store demo_tree) (store t') /\ within (store t') (fid t') (hint t') /\
    (forall p, 0 <= page_no p -> file_id p <> fid demo_tree -> view (store t') p = view (store demo_tree) p) /\
    (forall p, 0 <= page_no p -> rolled (store t') p = rolled (store demo_tree) p).
Proof.
  apply (btree_insert_refines demo_tree 0 [] 1 [1] demo_entry); [apply demo_tree_ok|apply demo_tree_ok| |apply not_elem_of_nil].
  unfold btree_entry_ok, key_ok, demo_entry. cbn. lia.
Defined.
