(* ===== verification/Scan.v ===== *)
(** The range scanner of the B+ tree returns exactly the entries of the tree in the range, in key order: the
    descent to the first leaf, the walk along the chain of leaves, and the termination of both. *)
From stdpp Require Import sorting.
From S2P Require Import Prelude Key Types Page Wal Disk Recovery State Node Pool Diff PoolSpec Txn Session Shape Tree TreeSpec Insert.

#[local] Opaque node_build leaf_build leaf_insert_at node_insert_at seal init_page.
#[local] Notation fid t := (tree_file (tree t)).
#[local] Notation hint t := (next_page_hint (tree t)).

(** * The chain of leaves *)
Fixpoint chain (V : Z -> bytes) (p : Z) (ls : list (Z * list BTreeEntry)) (stop : Z) : Prop :=
  match ls with
  | [] => p = stop
  | (q, es) :: ls => p = q /\ leaf_ok (V q) /\ leaf_entries (V q) = es /\ chain V (h_next_page (V q)) ls stop
  end.
Definition entries_of (ls : list (Z * list BTreeEntry)) : list BTreeEntry := concat ls.*2.
Lemma chain_app V p a ls1 ls2 b : chain V p ls1 a -> chain V a ls2 b -> chain V p (ls1 ++ ls2) b.
Proof.
  revert p. induction ls1 as [|[q es] ls1 IH]; cbn; intros p; [by intros ->|]. intros (-> & H1 & H2 & H3) H. split_and!; [done|done|done|]. by apply IH.
Qed.
Lemma entries_of_app l1 l2 : entries_of (l1 ++ l2) = entries_of l1 ++ entries_of l2.
Proof. unfold entries_of. by rewrite fmap_app, concat_app. Qed.
Definition chained (V : Z -> bytes) (T : Subtree) : Prop := forall no lo hi first nxt es fp, T no lo hi first nxt es fp ->
  exists ls, chain V first ls nxt /\ entries_of ls = es /\ ls.*1 `sublist_of` fp.
Lemma forest_chained V (T : Subtree) c rest lo hi first nxt es fp : chained V T -> forest T c rest lo hi first nxt es fp ->
  exists ls, chain V first ls nxt /\ entries_of ls = es /\ ls.*1 `sublist_of` fp.
Proof.
  intros HT Hf. induction Hf as [c lo hi first nxt es fp Hlt Ht|c k c' rest lo hi first mid nxt es es' fp fp' Hk Ht Hf IHf]; [by eapply HT|].
  destruct (HT _ _ _ _ _ _ _ Ht) as (l1 & A1 & A2 & A3). destruct IHf as (l2 & B1 & B2 & B3). exists (l1 ++ l2). split_and!.
  - by eapply chain_app.
  - by rewrite entries_of_app, A2, B2.
  - rewrite fmap_app. by apply sublist_app.
Qed.
Lemma tree_chain V h : chained V (tree_at V h).
Proof.
  induction h as [|h IH]; intros no lo hi first nxt es fp; cbn [tree_at].
  - intros (H1 & H2 & _ & _ & -> & H3 & ->). exists [(no, es)]. cbn. unfold entries_of. cbn. rewrite app_nil_r. split_and!; done.
  - intros (c & rest & fp' & _ & _ & _ & Hf & ->). destruct (forest_chained _ _ _ _ _ _ _ _ _ _ IH Hf) as (ls & H1 & H2 & H3).
    exists ls. split_and!; [done|done|by apply sublist_cons].
Qed.
Definition forest_chain V h := fun c rest lo hi first nxt es fp => forest_chained V (tree_at V h) c rest lo hi first nxt es fp (tree_chain V h).
Lemma tree_height V h : forall no lo hi first nxt es fp, tree_at V h no lo hi first nxt es fp -> (h < length fp)%nat.
Proof.
  induction h as [|h IH]; intros no lo hi first nxt es fp; cbn [tree_at].
  - intros (_ & _ & _ & _ & _ & _ & ->). cbn. lia.
  - intros (c & rest & fp' & _ & _ & _ & Hf & ->). cbn. apply -> Nat.succ_lt_mono. destruct Hf as [c lo hi first nxt es fp Hlt Ht|c k c' rest lo hi first mid nxt es es' fp fp' Hk Ht Hf].
    + by eapply IH.
    + rewrite length_app. apply IH in Ht. lia.
Qed.
(** Child [j] of a forest, with what comes before it and the chain that follows it. *)
Lemma forest_suffix V h c rest lo hi first nxt es fp : forest (tree_at V h) c rest lo hi first nxt es fp -> forall j, (j <= length rest)%nat ->
  exists cj lo' hi' first' nxt' L1 Lj Fj ls2, (c :: rest.*2) !! j = Some cj /\ tree_at V h cj lo' hi' first' nxt' Lj Fj /\
    es = L1 ++ Lj ++ entries_of ls2 /\ Fj ++ ls2.*1 `sublist_of` fp /\ chain V nxt' ls2 nxt /\ Forall (fun e => erank e < lo') L1 /\
    Forall (fun e => hi' <= erank e) (entries_of ls2) /\ (j = 0%nat -> L1 = []) /\ lo <= lo' /\
    (forall r, lo <= r -> Forall (fun k => erank k <= r) (take j rest.*1) -> lo' <= r) /\
    (forall r, r < hi -> Forall (fun k => r < erank k) (drop j rest.*1) -> r < hi').
Proof.
  induction 1 as [c lo hi first nxt es fp Hlt Ht|c k c' rest lo hi first mid nxt es es' fp fp' Hk Ht Hf IH]; intros j Hj.
  - cbn in Hj. assert (j = 0%nat) as -> by lia. exists c, lo, hi, first, nxt, [], es, fp, []. cbn. unfold entries_of. cbn. rewrite app_nil_r.
    split_and!; try done; try lia. by rewrite app_nil_r.
  - destruct j as [|j].
    + destruct (forest_chain _ _ _ _ _ _ _ _ _ _ Hf) as (ls & H1 & H2 & H3).
      destruct (forest_sound _ _ _ _ _ _ _ _ _ (tree_sound V h) Hf) as (_ & _ & Hb & _).
      exists c, lo, (erank k), first, mid, [], es, fp, ls. rewrite H2. cbn. split_and!; try done; try lia.
      * by apply sublist_app.
      * eapply list.Forall_impl; [exact Hb|]. cbv beta. lia.
      * intros r _ Hd. by apply Forall_cons_1 in Hd as [Hd _].
    + cbn in Hj. destruct (IH j ltac:(lia)) as (cj & lo' & hi' & first' & nxt' & L1 & Lj & Fj & ls2 & H1 & H2 & -> & H4 & H5 & H7 & H7' & H8 & H9 & H10 & H11).
      destruct (tree_sound _ _ _ _ _ _ _ _ _ Ht) as (_ & Hb & _).
      exists cj, lo', hi', first', nxt', (es ++ L1), Lj, Fj, ls2. split_and!; [done|done|by rewrite <- app_assoc|by apply sublist_inserts_l|done| |done|done| | |].
      * apply Forall_app. split; [|done]. eapply list.Forall_impl; [exact Hb|]. cbv beta. lia.
      * lia.
      * cbn. intros r Hr Hk2. apply Forall_cons_1 in Hk2 as [Hk2 Hk3]. by apply H10.
      * exact H11.
Qed.

(** * What the scanner yields from a sequence of entries *)
Fixpoint drained (hi lo : option ScanBound) (R : list BTreeEntry) : list BTreeEntry :=
  match R with
  | [] => []
  | e :: R =>
      if negb (below hi (ekey e)) then []
      else match lo with
           | Some b =>
               if inclusive b then e :: drained hi lo R
               else if key_cmp (ekey e) (bkey b) =? 0 then drained hi lo R else e :: drained hi None R
           | None => e :: drained hi None R
           end
  end.
Definition in_bounds (lo hi : option ScanBound) (e : BTreeEntry) : bool := in_range (mkRange lo hi) (ekey e).
Lemma erank_key a b : btree_entry_ok a -> btree_entry_ok b -> erank a <= erank b -> rank_of (ekey a) <= rank_of (ekey b).
Proof.
  intros (_ & Pa & Sa) (_ & Pb & Sb). unfold erank. change (2 ^ 48) with 281474976710656. change (2 ^ 16) with 65536 in *. change (2 ^ 32) with 4294967296 in *. lia.
Qed.
Lemma below_mono hi a b : bound_ok hi -> btree_entry_ok a -> btree_entry_ok b -> erank a <= erank b -> below hi (ekey b) = true -> below hi (ekey a) = true.
Proof.
  intros Hh Ha Hb Hab. pose proof (erank_key _ _ Ha Hb Hab) as Hk. destruct hi as [h|]; [|done]. cbn in Hh |- *. destruct Ha as [Ha _], Hb as [Hb _].
  rewrite !key_cmp_rank by done. repeat case_match; lia.
Qed.
(** At or above the lower bound's key. *)
Definition from (lo : option ScanBound) (e : BTreeEntry) : Prop := match lo with Some b => rank_of (bkey b) <= rank_of (ekey e) | None => True end.
Lemma drained_filter hi lo R : bound_ok lo -> bound_ok hi -> Forall btree_entry_ok R -> ordered R -> Forall (from lo) R ->
  drained hi lo R = List.filter (in_bounds lo hi) R.
Proof.
  intros Hlo Hhi. revert lo Hlo. induction R as [|e R IH]; intros lo Hlo Hok Ho Hf; [done|]. cbn [drained List.filter].
  apply Forall_cons_1 in Hok as [He Hok]. apply Forall_cons_1 in Hf as [Hfe Hf]. unfold ordered, ranks in Ho. cbn [fmap list_fmap] in Ho.
  apply StronglySorted_cons in Ho as [Hlt Ho]. rewrite list.Forall_forall in Hlt.
  assert (forall x, x ∈ R -> erank e <= erank x) as Hle by (intros x Hx; apply Z.lt_le_incl, Hlt; by apply list_elem_of_fmap_2).
  pose proof (proj1 (list.Forall_forall _ _) Hok) as Hok2. unfold in_bounds at 1, in_range. cbn [Key.lo Key.hi].
  destruct (below hi (ekey e)) eqn:Eb; cbn [negb].
  2: { rewrite andb_false_r. symmetry. apply filter_none, list.Forall_forall. intros x Hx. unfold in_bounds, in_range. cbn [Key.lo Key.hi].
       destruct (below hi (ekey x)) eqn:Ex; [|apply andb_false_r]. rewrite (below_mono hi e x) in Eb; try done; [by apply Hok2|by apply Hle]. }
  rewrite andb_true_r. destruct lo as [b|]; [|cbn [above]; f_equal; by apply IH].
  cbn [above from] in *. destruct He as [Hek Her]. rewrite (key_cmp_rank (ekey e) (bkey b)) by done. destruct (inclusive b) eqn:Ei.
  - destruct (Z.ltb_spec (rank_of (ekey e)) (rank_of (bkey b))); [lia|].
    replace ((if rank_of (bkey b) <? rank_of (ekey e) then 1 else 0) >=? 0) with true by (by destruct (_ <? _)). f_equal. by apply IH.
  - destruct (Z.ltb_spec (rank_of (ekey e)) (rank_of (bkey b))); [lia|]. destruct (Z.ltb_spec (rank_of (bkey b)) (rank_of (ekey e))) as [Hgt|Hge]; cbn.
    + f_equal. rewrite (IH None) by (done || by apply list.Forall_forall). apply List.filter_ext_in. intros x Hx%list_elem_of_In.
      unfold in_bounds, in_range. cbn [Key.lo Key.hi above]. f_equal. rewrite Ei. rewrite key_cmp_rank by (done || by apply Hok2).
      pose proof (erank_key e x ltac:(by split) (Hok2 _ Hx) (Hle _ Hx)).
      destruct (Z.ltb_spec (rank_of (ekey x)) (rank_of (bkey b))); [lia|]. destruct (Z.ltb_spec (rank_of (bkey b)) (rank_of (ekey x))); [done|lia].
    + by apply IH.
Qed.

(** * The cursor *)
Section cursor.
Context (t0 : TreeState) (Hok0 : pool_ok ∅ (store t0)) (Hwi : within (store t0) (fid t0) (hint t0)) (Hpos : 0 < hint t0).
Context (Hroom : pins (store t0) < zlen (frames (store t0))).
Notation V := (content t0).
Record scanning (t : TreeState) : Prop := {
  sg_tree : tree t = tree t0;
  sg_ok : pool_ok ∅ (store t);
  sg_evolves : evolves no_page (tree_pages t0 (fun no => no < hint t0)) (store t0) (store t) }.
Definition at_rest (t : TreeState) : Prop := scanning t /\ pins_eq (store t0) (store t).
Definition on_page (t : TreeState) (q : Z) (pg : nat) : Prop := scanning t /\ holds (store t0) (store t) (mkPid (fid t0) q) pg.
Lemma scanning_content t q : scanning t -> 0 <= q -> content t q = V q.
Proof using All.
  intros [H1 H2 H3] Hq. unfold content. rewrite H1. apply (ev_view _ _ _ _ H3); [done|by intros []].
Qed.
Lemma on_page_data t q pg : on_page t q pg -> 0 <= q -> data pg (store t) = V q.
Proof using All.
  intros [H1 H2] Hq. rewrite (data_view ∅ _ _ _ _ (sg_ok _ H1) (ho_pin _ _ _ _ H2)). rewrite <- (scanning_content t q H1 Hq). unfold content. by rewrite (sg_tree _ H1).
Qed.
Lemma load_ok t q : at_rest t -> 0 <= q < hint t0 -> page_valid (V q) MAGIC_BTREE_LEAF = true ->
  exists pg t', pooled (read (mkPid (fid t) q) MAGIC_BTREE_LEAF) t = (Ok pg, t') /\ on_page t' q pg.
Proof using All.
  intros [[H1 H2 H3] H4] Hq Hv. rewrite H1.
  destruct (read_session ∅ (store t) H2 (mkPid (fid t0) q) MAGIC_BTREE_LEAF) as (pg & s' & R1 & R2 & R3 & R4 & R5).
  { cbn. lia. } { rewrite (proj2 H4). pose proof (ev_len _ _ _ _ H3). unfold zlen in *. lia. }
  { rewrite (ev_view _ _ _ _ H3); [exact Hv|cbn; lia|by intros []]. }
  exists pg, (mkTS s' (tree t)). split; [by apply pooled_run|]. split.
  - split; cbn [tree store]; [done|done|]. eapply evolves_trans; [exact H3|]. apply (evolves_weaken _ _ _ _ _ _ R3); [by intros ? []|]. intros p <-. split; cbn; [done|lia].
  - cbn [store]. by eapply eq_holds.
Qed.
Lemma leave_ok t q pg : on_page t q pg -> exists t', pooled (unpin pg) t = (Ok tt, t') /\ at_rest t'.
Proof using All.
  intros [[H1 H2 H3] H4]. destruct (unpin_session ∅ (store t) H2 ∅ (store t0) _ pg Hok0 H4 (not_elem_of_empty _)) as (s' & U1 & U2 & U3 & U4 & _).
  exists (mkTS s' (tree t)). split; [by apply pooled_run|]. split; [|exact U4]. split; cbn [tree store]; [done|done|].
  eapply evolves_trans; [exact H3|by apply evolves_no].
Qed.

(** ** The descent *)
Definition before (lo : option ScanBound) (probe e : BTreeEntry) : Prop := lo <> None /\ erank e < erank probe.
Definition after (lo : option ScanBound) (probe e : BTreeEntry) : Prop := lo <> None -> erank probe <= erank e.
Lemma descend_ok lb probe : btree_entry_ok probe -> forall h fuel t pg no lo hi first nxt es fp, (h <= fuel)%nat -> on_page t no pg ->
  tree_at V h no lo hi first nxt es fp -> Forall (fun q => 0 < q < hint t0) fp -> lo <= erank probe -> erank probe < hi \/ lb = None ->
  exists pg' t' q E1 ls, descend fuel lb probe pg t = (Ok pg', t') /\ on_page t' q pg' /\ q ∈ fp /\ leaf_ok (V q) /\
    es = E1 ++ leaf_entries (V q) ++ entries_of ls /\ chain V (h_next_page (V q)) ls nxt /\ ls.*1 `sublist_of` fp /\
    Forall (before lb probe) E1 /\ Forall (after lb probe) (entries_of ls).
Proof using All.
  intros Hp. induction h as [|h IH]; intros fuel t pg no lo hi first nxt es fp Hfuel Hpg Ht Hfp Hlo Hhi;
    destruct (tree_root_page _ _ _ _ _ _ _ _ _ Ht) as (Hin & _); pose proof (proj1 (list.Forall_forall _ _) Hfp) as Hfp2; cbv beta in Hfp2; pose proof (Hfp2 _ Hin) as Hno.
  - destruct Ht as (H1 & <- & _ & _ & _ & <- & ->). exists pg, t, no, [], []. split_and!; try done.
    + destruct fuel; cbn [descend]; rewrite run_page_bytes, (on_page_data _ _ _ Hpg) by lia; destruct (tree_page_leaf _ (proj1 H1)) as (_ & _ & ->); done.
    + unfold entries_of. cbn. by rewrite app_nil_r.
    + apply sublist_nil_l.
  - destruct fuel as [|fuel]; [lia|]. destruct Ht as (c & rest & fp' & Hn & Hseps & Hch & Hf & ->). cbn [descend].
    rewrite run_page_bytes, (on_page_data _ _ _ Hpg) by lia. destruct (tree_page_node _ (proj1 Hn)) as (_ & _ & ->).
    destruct (leave_ok t no pg Hpg) as (t1 & U1 & U2). run U1. set (j := match lb with Some _ => node_child_index (V no) probe | None => 0 end).
    destruct (nodes_ordered_index (V no) probe (proj1 Hn)) as (Hjb & Hj1 & Hj2); [rewrite Hseps; by apply (forest_seps _ _ _ _ _ _ _ _ _ Hf)|done|].
    rewrite (zlen_node_seps _ (proj1 Hn)) in Hjb.
    assert (zlen rest = h_slot_count (V no)) as Hlr by (rewrite <- (zlen_node_seps _ (proj1 Hn)), Hseps; unfold zlen; by rewrite length_fmap).
    assert (0 <= j <= h_slot_count (V no)) as Hj by (unfold j; destruct lb; lia).
    assert (Forall (fun k => erank k <= erank probe) (take (Z.to_nat j) rest.*1)) as Hjt.
    { unfold j. destruct lb; [by rewrite <- Hseps|constructor]. }
    assert (lb = None \/ Forall (fun k => erank probe < erank k) (drop (Z.to_nat j) rest.*1)) as Hjd.
    { unfold j. destruct lb; [right; by rewrite <- Hseps|by left]. }
    destruct (forest_suffix _ _ _ _ _ _ _ _ _ _ Hf (Z.to_nat j)) as (cj & lo' & hi' & first' & nxt' & L1 & Lj & Fj & ls & F1 & F2 & F3 & F4 & F5 & F7 & F7' & F8 & F9 & F10 & F11);
      [unfold zlen in Hlr; lia|]. assert (Fj ⊆ fp') as F6 by (intros x Hx; apply (elem_of_sublist _ _ _ (proj2 (elem_of_app _ _ _) (or_introl Hx)) F4)).
    assert (node_child (V no) j = cj) as ->.
    { rewrite <- Hch in F1. unfold node_children in F1. rewrite lookup_fmap_seq in F1. rewrite Z2Nat.id in F1 by lia. case_decide; congruence. }
    unfold tree_page. rewrite run_gets. destruct (tree_root_page _ _ _ _ _ _ _ _ _ F2) as (Hcin & Hcv & _).
    assert (0 < cj < hint t0) as Hcj by (apply Hfp2, elem_of_cons; right; by apply F6).
    destruct (load_ok t1 cj U2) as (pg2 & t2 & R1 & R2); [lia|done|]. run R1.
    assert (erank probe < hi' \/ lb = None) as Hhi'.
    { destruct Hhi as [Hhi| ->]; [|by right]. destruct Hjd as [->|Hjd]; [by right|]. left. by apply F11. }
    destruct (IH fuel t2 pg2 cj lo' hi' first' nxt' Lj Fj) as (pg' & t' & q & E1 & ls' & I1 & I2 & I3 & I4 & I5 & I6 & I7 & I8 & I9); try done; try lia.
    { apply list.Forall_forall. intros x Hx. apply Hfp2, elem_of_cons. right. by apply F6. } { by apply F10. }
    exists pg', t', q, (L1 ++ E1), (ls' ++ ls). split_and!; [done|done|apply elem_of_cons; right; by apply F6|done| |by eapply chain_app| | |].
    + rewrite F3, I5, entries_of_app. by rewrite <- !app_assoc.
    + rewrite fmap_app. apply sublist_cons. etrans; [|exact F4]. by apply sublist_app.
    + apply Forall_app. split; [|done]. unfold before. destruct lb as [b|].
      * eapply list.Forall_impl; [exact F7|]. cbv beta. intros x Hx. split; [done|]. specialize (F10 _ Hlo Hjt). lia.
      * rewrite F8 by done. constructor.
    + rewrite entries_of_app. apply Forall_app. split; [done|]. eapply list.Forall_impl; [exact F7'|]. cbv beta. intros x Hx Hlb.
      destruct Hhi' as [Hh|Hh]; [lia|done].
Qed.

(** ** The walk *)
Context (Hbytes : hint t0 < 2 ^ 32).
(** The scanner has [R] entries before it; [ls] are the leaves still to be loaded. *)
Inductive scan_at (t : TreeState) (c : BTreeScanner) (ls : list (Z * list BTreeEntry)) : list BTreeEntry -> Prop :=
| sa_leaf pg q : finished c = false -> cur c = Some pg -> on_page t q pg -> 0 < q -> leaf_ok (V q) -> 0 <= slot_idx c <= h_slot_count (V q) ->
    chain V (next_no c) ls 0 -> Forall (fun q => 0 < q < hint t0) ls.*1 ->
    scan_at t c ls (drop (Z.to_nat (slot_idx c)) (leaf_entries (V q)) ++ entries_of ls)
| sa_between : finished c = false -> cur c = None -> at_rest t -> chain V (next_no c) ls 0 -> Forall (fun q => 0 < q < hint t0) ls.*1 ->
    scan_at t c ls (entries_of ls).
Definition work (c : BTreeScanner) (ls : list (Z * list BTreeEntry)) (R : list BTreeEntry) : nat :=
  (2 * length ls + length R + match cur c with Some _ => 1 | None => 0 end)%nat.
(** After the last entry: the current page, if any, is pinned. *)
Definition scan_over (t : TreeState) (c : BTreeScanner) : Prop :=
  finished c = true /\ match cur c with Some pg => exists q, on_page t q pg | None => at_rest t end.

(** What one call of [next] makes of the entries ahead. *)
Fixpoint picked (hi lo : option ScanBound) (R : list BTreeEntry) : option (BTreeEntry * option ScanBound * list BTreeEntry) :=
  match R with
  | [] => None
  | e :: R =>
      if negb (below hi (ekey e)) then None
      else match lo with
           | Some b =>
               if inclusive b then Some (e, lo, R) else if key_cmp (ekey e) (bkey b) =? 0 then picked hi lo R else Some (e, None, R)
           | None => Some (e, None, R)
           end
  end.
Lemma drained_picked hi lo R : drained hi lo R = match picked hi lo R with None => [] | Some (e, lo', R') => e :: drained hi lo' R' end.
Proof using.
  induction R as [|e R IH]; [done|]. cbn [drained picked]. destruct (negb _); [done|]. destruct lo as [b|]; [|done].
  destruct (inclusive b); [done|]. destruct (_ =? 0); [exact IH|done].
Qed.
Lemma past_below (b : option ScanBound) (e : BTreeEntry) :
  (match b with Some b => let r := key_cmp (ekey e) (bkey b) in if inclusive b then r >? 0 else r >=? 0 | None => false end) = negb (below b (ekey e)).
Proof using. destruct b as [b|]; [|done]. cbn. destruct (inclusive b); lia. Qed.
(** One turn of the loop. *)
Definition turned (t : TreeState) (c : BTreeScanner) (R : list BTreeEntry) (n : nat) (r : turn) (t' : TreeState) (c' : BTreeScanner) : Prop :=
  hi_bound c' = hi_bound c /\
  match r with
  | Done => picked (hi_bound c) (lo_bound c) R = None /\ scan_over t' c'
  | Entry e => exists ls' R', picked (hi_bound c) (lo_bound c) R = Some (e, lo_bound c', R') /\ scan_at t' c' ls' R' /\ (work c' ls' R' < n)%nat
  | Again => exists ls' R', picked (hi_bound c) (lo_bound c) R = picked (hi_bound c') (lo_bound c') R' /\ scan_at t' c' ls' R' /\ (work c' ls' R' < n)%nat
  end.
Lemma leaf_drop q i : leaf_ok (V q) -> 0 <= i -> (i <? h_slot_count (V q)) = true ->
  drop (Z.to_nat i) (leaf_entries (V q)) = leaf_entry (V q) i :: drop (Z.to_nat (wrap 16 (i + 1))) (leaf_entries (V q)) /\
  0 <= wrap 16 (i + 1) <= h_slot_count (V q).
Proof using.
  intros [Hwf _] Hi Hlt. pose proof (leaf_count_max _ Hwf) as Hm. unfold LEAF_MAX in *. rewrite wrap_small by lia. split; [|lia].
  replace (Z.to_nat (i + 1)) with (S (Z.to_nat i)) by lia. apply drop_S. rewrite leaf_entries_lookup, decide_True by lia. by rewrite Z2Nat.id by lia.
Qed.
Lemma turn_entry t c ls pg q : finished c = false -> cur c = Some pg -> on_page t q pg -> 0 < q -> leaf_ok (V q) -> 0 <= slot_idx c ->
  chain V (next_no c) ls 0 -> Forall (fun q => 0 < q < hint t0) ls.*1 -> (slot_idx c <? h_slot_count (V q)) = true ->
  let R := drop (Z.to_nat (slot_idx c)) (leaf_entries (V q)) ++ entries_of ls in
  exists r c', scan_turn c t = (Ok (r, c'), t) /\ turned t c R (work c ls R) r t c'.
Proof using All.
  intros Hfin Hcur Hpg Hq Hl Hs Hch Hls Hlt R. destruct (leaf_drop q _ Hl Hs Hlt) as [Hd Hs']. unfold R. rewrite Hd. clear R. cbn [app].
  set (e := leaf_entry (V q) (slot_idx c)). set (R' := drop _ _ ++ entries_of ls). set (next := set_slot_idx (wrap 16 (slot_idx c + 1)) c).
  assert (forall b, scan_at t (set_lo b next) ls R') as Hat by (intros b; exact (sa_leaf t (set_lo b next) ls pg q Hfin Hcur Hpg Hq Hl Hs' Hch Hls)).
  assert (forall b, (work (set_lo b next) ls R' < work c ls (e :: R'))%nat) as Hw by (intros b; unfold work; cbn; lia).
  assert (next = set_lo (lo_bound c) next) as Hnext by (by destruct c).
  unfold scan_turn. rewrite Hcur, run_page_bytes, (on_page_data _ _ _ Hpg), Hlt, past_below by lia. fold e. cbn [picked].
  destruct (negb (below (hi_bound c) (ekey e))) eqn:Ep.
  { exists Done, (set_finished c). split; [done|]. split; [done|]. cbn [picked]. rewrite Ep. split; [done|]. split; [done|]. cbn. rewrite Hcur. by exists q. }
  unfold turned. cbn [picked]. rewrite Ep. destruct (lo_bound c) as [b|] eqn:El.
  - destruct (inclusive b) eqn:Ei; [|destruct (key_cmp _ _ =? 0) eqn:Ek].
    + exists (Entry e), next. split; [done|]. split; [done|]. exists ls, R'. rewrite Hnext. cbn [lo_bound set_lo]. split_and!; [done|apply Hat|apply Hw].
    + exists Again, next. split; [done|]. split; [done|]. exists ls, R'. rewrite Hnext. cbn [lo_bound hi_bound set_lo]. split_and!; [done|apply Hat|apply Hw].
    + exists (Entry e), (set_lo None next). split; [done|]. split; [done|]. exists ls, R'. split_and!; [done|apply Hat|apply Hw].
  - exists (Entry e), next. split; [done|]. split; [done|]. exists ls, R'. rewrite Hnext. cbn [lo_bound set_lo]. split_and!; [done|apply Hat|apply Hw].
Qed.
Lemma turn_ok t c ls R : scan_at t c ls R -> exists r c' t', scan_turn c t = (Ok (r, c'), t') /\ turned t c R (work c ls R) r t' c'.
Proof using All.
  intros [pg q Hfin Hcur Hpg Hq Hl Hs Hch Hls|Hfin Hcur Hrest Hch Hls].
  - destruct (slot_idx c <? h_slot_count (V q)) eqn:Hlt.
    + destruct (turn_entry t c ls pg q) as (r & c' & H1 & H2); [done..|lia|done|done|done|]. by exists r, c', t.
    + unfold scan_turn. rewrite Hcur, run_page_bytes, (on_page_data _ _ _ Hpg), Hlt by lia.
      destruct (leave_ok t q pg Hpg) as (t' & U1 & U2). exists Again, (set_cur None c), t'. split; [by run U1|]. split; [done|].
      assert (drop (Z.to_nat (slot_idx c)) (leaf_entries (V q)) = []) as -> by (apply drop_ge; rewrite length_leaf_entries; lia).
      exists ls, (entries_of ls). split_and!; [done|by apply sa_between|]. unfold work. cbn. rewrite Hcur. lia.
  - destruct ls as [|[q es] ls]; cbn [chain] in Hch.
    + unfold scan_turn. rewrite Hcur, Hch. exists Done, (set_finished c), t. split; [done|]. split; [done|]. split; [done|]. split; [done|]. cbn. by rewrite Hcur.
    + destruct Hch as (Hn & Hl & He & Hch). cbn in Hls. apply Forall_cons_1 in Hls as [Hq Hls].
      destruct (load_ok t q Hrest) as (pg & t' & L1 & L2); [lia|apply Hl|].
      unfold scan_turn. rewrite Hcur, Hn. destruct (Z.eqb_spec q 0); [lia|]. unfold tree_page. rewrite run_gets. run L1.
      rewrite run_page_bytes, (on_page_data _ _ _ L2) by lia. destruct (tree_page_leaf _ (proj1 Hl)) as (_ & -> & _). cbn [negb].
      eexists Again, _, t'. split; [done|]. split; [done|].
      exists ls, (drop (Z.to_nat 0) (leaf_entries (V q)) ++ entries_of ls). split_and!.
      * cbn. by rewrite He.
      * eapply (sa_leaf _ (mkScan (lo_bound c) (hi_bound c) (Some pg) (h_next_page (V q)) 0 (finished c)) ls pg q); try done; cbn; [lia|].
        pose proof (lw_count _ (proj1 Hl)). lia.
      * unfold work. cbn [cur]. rewrite Hcur, He. change (drop (Z.to_nat 0) es) with es. change (entries_of ((q, es) :: ls)) with (es ++ entries_of ls). cbn [length]. lia.
Qed.
Lemma next_ok fuel : forall t c ls R, scan_at t c ls R -> (work c ls R < fuel)%nat ->
  exists o c' t', scan_next fuel c t = (Ok (o, c'), t') /\ hi_bound c' = hi_bound c /\
    match o with
    | None => picked (hi_bound c) (lo_bound c) R = None /\ scan_over t' c'
    | Some e => exists ls' R', picked (hi_bound c) (lo_bound c) R = Some (e, lo_bound c', R') /\ scan_at t' c' ls' R' /\ (work c' ls' R' < work c ls R)%nat
    end.
Proof using All.
  induction fuel as [|fuel IH]; intros t c ls R Hat Hw; [lia|]. cbn [scan_next]. assert (finished c = false) as -> by (by destruct Hat).
  destruct (turn_ok t c ls R Hat) as (r & c' & t' & T1 & T2 & T3). run T1. destruct r as [|e|].
  - by exists None, c', t'.
  - by exists (Some e), c', t'.
  - destruct T3 as (ls' & R' & P1 & P2 & P3). destruct (IH t' c' ls' R' P2 ltac:(lia)) as (o & c2 & t2 & I1 & I2 & I3). exists o, c2, t2.
    split; [done|]. split; [congruence|]. rewrite P1. destruct o; [|done]. destruct I3 as (l3 & R3 & Q1 & Q2 & Q3). exists l3, R3. split_and!; [done|done|lia].
Qed.
Lemma close_ok t c : scan_over t c -> exists c' t', scan_close c t = (Ok c', t') /\ at_rest t'.
Proof using All.
  intros [_ H]. unfold scan_close. destruct (cur c) as [pg|].
  - destruct H as [q Hq]. destruct (leave_ok t q pg Hq) as (t' & U1 & U2). exists (set_finished (set_cur None c)), t'. by run U1.
  - by exists (set_finished (set_cur None c)), t.
Qed.
Lemma drain_ok fuel : forall t c ls R, scan_at t c ls R -> (work c ls R < fuel)%nat ->
  exists t', scan_drain fuel c t = (Ok (drained (hi_bound c) (lo_bound c) R), t') /\ at_rest t'.
Proof using All.
  induction fuel as [|fuel IH]; intros t c ls R Hat Hw; [lia|]. cbn [scan_drain].
  destruct (next_ok (S fuel) t c ls R Hat Hw) as (o & c' & t1 & N1 & N2 & N3). run N1. rewrite drained_picked. destruct o as [e|].
  - destruct N3 as (ls' & R' & -> & P2 & P3). destruct (IH t1 c' ls' R' P2 ltac:(lia)) as (t2 & I1 & I2). run I1. rewrite <- N2. by exists t2.
  - destruct N3 as [-> N3]. destruct (close_ok t1 c' N3) as (c2 & t2 & C1 & C2). run C1. by exists t2.
Qed.

(** ** The whole scan *)
Definition probe_of (lo : option ScanBound) : BTreeEntry := mkEntry (match lo with Some b => bkey b | None => mkKey 0 false end) 0 0.
Lemma probe_ok lo : bound_ok lo -> btree_entry_ok (probe_of lo).
Proof using. intros H. destruct lo as [b|]; (split; [|done]); [exact H|done]. Qed.
(** Entries before the probe are below the bound; entries from the probe on are at or above it. *)
Lemma before_out lo hi x : bound_ok lo -> btree_entry_ok x -> before lo (probe_of lo) x -> in_bounds lo hi x = false.
Proof using.
  intros Hlo [Hk [Hp Hs]] [Hne Hr]. destruct lo as [b|]; [|done]. clear Hne. unfold erank in Hr. cbn [probe_of ekey page_no Key.page_no slot] in Hr.
  assert (rank_of (ekey x) < rank_of (bkey b)) as Hlt by lia. unfold in_bounds, in_range. cbn [Key.lo above].
  rewrite key_cmp_rank by done. destruct (Z.ltb_spec (rank_of (ekey x)) (rank_of (bkey b))); [|lia]. by destruct (inclusive b).
Qed.
Lemma after_from lo x : bound_ok lo -> btree_entry_ok x -> after lo (probe_of lo) x -> from lo x.
Proof using.
  intros Hlo Hx Ha. destruct lo as [b|]; [|done]. apply (erank_key (probe_of (Some b)) x (probe_ok _ Hlo) Hx). by apply Ha.
Qed.
Lemma ordered_app_r l l' : ordered (l ++ l') -> ordered l'.
Proof using. unfold ordered, ranks. rewrite fmap_app. apply StronglySorted_app_1_r. Qed.
Lemma ordered_app_l l l' : ordered (l ++ l') -> ordered l.
Proof using. unfold ordered, ranks. rewrite fmap_app. apply StronglySorted_app_1_l. Qed.
Lemma scan_ok h es first fp lo hi fuel : tree_ok t0 h es first fp -> bound_ok lo -> bound_ok hi -> (h + 2 * length fp + length es + 1 < fuel)%nat ->
  exists t', scan fuel lo hi t0 = (Ok (List.filter (in_bounds lo hi) es), t') /\ at_rest t'.
Proof using All.
  intros [_ _ _ _ Ht _ Hfp] Hlo Hhi Hfuel. destruct (tree_sound _ _ _ _ _ _ _ _ _ Ht) as (Ho & _ & Hoks).
  pose proof (probe_ok lo Hlo) as Hpr. pose proof (erank_bound _ Hpr) as Hpb. destruct (tree_root_page _ _ _ _ _ _ _ _ _ Ht) as (Hin & Hv & _).
  pose proof (proj1 (list.Forall_forall _ _) Hfp _ Hin) as Hroot. cbv beta in Hroot.
  unfold scan, scan_open. fold (probe_of lo). rewrite run_assoc, run_gets, run_assoc. unfold tree_page. rewrite run_gets.
  destruct (load_ok t0 (root_page (tree t0))) as (pg & t1 & L1 & L2); [|lia|done|].
  { split; [|done]. split; [done|done|apply evolves_refl]. }
  rewrite run_assoc. run L1.
  destruct (descend_ok lo (probe_of lo) Hpr h fuel t1 pg (root_page (tree t0)) 0 RANKS first 0 es fp) as (pg' & t2 & q & E1 & ls & D1 & D2 & D3 & D4 & D5 & D6 & D7 & D8 & D9);
    [lia|done|done|done|lia|left; lia|].
  rewrite run_assoc. run D1. pose proof (proj1 (list.Forall_forall _ _) Hfp _ D3) as Hq. cbv beta in Hq.
  rewrite run_assoc, run_page_bytes, (on_page_data _ _ _ D2) by lia. destruct (tree_page_leaf _ (proj1 D4)) as (_ & -> & _). cbn [negb]. rewrite run_ret.
  set (pos := match lo with Some _ => leaf_lower_bound (V q) (probe_of lo) | None => 0 end). subst es.
  set (c := mkScan lo hi (Some pg') (h_next_page (V q)) pos false). apply Forall_app in Hoks as [Ok1 Ok2]. apply Forall_app in Ok2 as [Ok2 Ok3].
  pose proof (ordered_app_l _ _ (ordered_app_r _ _ Ho)) as Hol.
  assert (0 <= pos <= h_slot_count (V q) /\ Forall (before lo (probe_of lo)) (take (Z.to_nat pos) (leaf_entries (V q))) /\
    Forall (after lo (probe_of lo)) (drop (Z.to_nat pos) (leaf_entries (V q)))) as (Hps & Hb1 & Ha1).
  { unfold pos. destruct lo as [b|].
    - destruct (leaf_lower_bound_spec (V q) (probe_of (Some b)) (proj1 D4) Hol Hpr) as (S1 & S2 & S3). rewrite (zlen_leaf_entries _ (proj1 D4)) in S1.
      split_and!; [lia|lia|eapply list.Forall_impl; [exact S2|by intros x; split]|eapply list.Forall_impl; [exact S3|by intros x ? _]].
    - pose proof (lw_count _ (proj1 D4)). split_and!; [lia|lia|constructor|]. apply list.Forall_forall. intros x _ Hn. done. }
  assert (scan_at t2 c ls (drop (Z.to_nat pos) (leaf_entries (V q)) ++ entries_of ls)) as Hat.
  { apply (sa_leaf t2 c ls pg' q); try done; [lia|]. apply list.Forall_forall. intros x Hx. apply (proj1 (list.Forall_forall _ _) Hfp). by eapply elem_of_sublist. }
  set (R := drop (Z.to_nat pos) (leaf_entries (V q)) ++ entries_of ls) in *.
  destruct (drain_ok fuel t2 c ls R Hat) as (t3 & R1 & R2).
  { apply sublist_length in D7. rewrite length_fmap in D7. unfold work, R. cbn [cur c]. rewrite !length_app, length_drop in *. lia. }
  exists t3. split; [|exact R2]. rewrite R1. cbn [hi_bound lo_bound c]. do 2 f_equal.
  assert (leaf_entries (V q) ++ entries_of ls = take (Z.to_nat pos) (leaf_entries (V q)) ++ R) as HR by (unfold R; by rewrite app_assoc, take_drop).
  assert (Forall btree_entry_ok R) as HokR by (unfold R; apply Forall_app; split; [by apply Forall_drop|done]).
  rewrite drained_filter; [|done|done|done| |].
  - rewrite HR, !List.filter_app, (filter_none _ E1), (filter_none _ (take _ _)); [done| |].
    + apply Forall_take with (n := Z.to_nat pos) in Ok2. apply list.Forall_forall. intros x Hx. rewrite list.Forall_forall in Ok2, Hb1. apply before_out; auto.
    + apply list.Forall_forall. intros x Hx. rewrite list.Forall_forall in Ok1, D8. apply before_out; auto.
  - rewrite HR in Ho. exact (ordered_app_r _ _ (ordered_app_r _ _ Ho)).
  - apply list.Forall_forall. intros x Hx. rewrite list.Forall_forall in HokR. apply after_from; [done|by apply HokR|].
    unfold R in Hx. rewrite list.Forall_forall in Ha1, D9. apply elem_of_app in Hx as [Hx|Hx]; auto.
Qed.
End cursor.

(** * The contract *)
(** C10. A scan of a B+ tree between two bounds, each open, closed or absent and possibly NULL, ends, and returns
    exactly the entries of the tree in the range, in key order; it changes no page and lets go of
    every page it pinned. *)
Theorem btree_scan_correct t h es first fp lo hi fuel : tree_ok t h es first fp -> pool_ok ∅ (store t) -> within (store t) (fid t) (hint t) ->
  0 < hint t < 2 ^ 32 -> pins (store t) < zlen (frames (store t)) -> bound_ok lo -> bound_ok hi -> (h + 2 * length fp + length es + 1 < fuel)%nat ->
  exists t', scan fuel lo hi t = (Ok (List.filter (in_bounds lo hi) es), t') /\
    tree t' = tree t /\ pool_ok ∅ (store t') /\ pins_eq (store t) (store t') /\ forall p, 0 <= page_no p -> view (store t') p = view (store t) p.
Proof.
  intros Hk Hok Hwi Hh Hp Hlo Hhi Hfuel.
  destruct (scan_ok t Hok Hwi ltac:(lia) Hp ltac:(lia) h es first fp lo hi fuel Hk Hlo Hhi Hfuel) as (t' & S1 & [S2 S3 S4] & S5).
  exists t'. split_and!; try done; try apply S5. intros p Hpp. apply (ev_view _ _ _ _ S4); [done|by intros []].
Qed.
Definition demo_grown : TreeState := (insert demo_entry demo_tree).2.
Lemma btree_scan_correct_witness : exists t', scan 100 (Some (mkBound (mkKey 3 false) false)) None demo_grown =
    (Ok (List.filter (fun e => in_range (mkRange (Some (mkBound (mkKey 3 false) false)) None) (ekey e)) [demo_entry]), t') /\
    tree t' = tree demo_grown /\ pool_ok ∅ (store t') /\ pins_eq (store demo_grown) (store t') /\
    forall p, 0 <= page_no p -> view (store t') p = view (store demo_grown) p.
Proof.
  destruct demo_tree_ok as [Hk Henv].
  destruct (insert_ok demo_tree 0 [] 1 [1] demo_entry Hk Henv) as (t' & h' & A & B & fp' & I1 & I2 & I3 & I4 & I5 & I6).
  { unfold btree_entry_ok, key_ok, demo_entry. cbn. lia. } { apply not_elem_of_nil. }
  assert (demo_grown = t') as -> by (unfold demo_grown; by rewrite I1). symmetry in I2. apply app_eq_nil in I2 as [-> ->].
  pose proof (tree_height _ _ _ _ _ _ _ _ _ (tk_tree _ _ _ _ _ I3)) as Hh. pose proof (ts_hint _ _ _ _ I5) as Hhint.
  assert (hint demo_tree = 2) as H2 by (by vm_compute).
  assert (length fp' <= 4)%nat as Hl.
  { pose proof (NoDup_submseteq fp' (seqZ 1 4) (tk_nodup _ _ _ _ _ I3)) as Hsub. apply submseteq_length in Hsub; [by rewrite length_seqZ in Hsub|].
    intros q Hq. apply elem_of_seqZ. pose proof (proj1 (list.Forall_forall _ _) (tk_pages _ _ _ _ _ I3) q Hq) as Hq2. cbv beta in Hq2. cbn in *. lia. }
  apply (btree_scan_correct t' h' [demo_entry] 1 fp'); [exact I3|exact (ts_ok _ _ _ _ I5)| | | |unfold bound_ok, key_ok; cbn; lia|done|cbn [length]; lia].
  - rewrite (ts_file _ _ _ _ I5). exact (ts_within _ _ _ _ I5).
  - pose proof (ts_hint _ _ _ _ I5). cbn in *. lia.
  - rewrite (proj2 I6). pose proof (ev_len _ _ _ _ (ts_evolves _ _ _ _ I5)) as He. unfold zlen. rewrite He. pose proof (te_pins _ _ Henv). unfold zlen in *. lia.
Defined.
