(* ===== verification/Engine.v ===== *)
(** The file engine (src/storage/engine.cpp, engine.h): transactions, table files, rows and index files over the
    buffer pool, the log and the B+ trees. *)
From S2P Require Import Prelude Key Types Codec Page Wal Disk Recovery State Node Pool Tree.

(** * State *)
(** [tail_pages]: the highest page of each table written to since opening. *)
Record Engine := mkEngine { pool : Store; tail_pages : gmap Z Z; trees : gmap Z BTree; is_open : bool }.
Definition set_pool (s : Store) (e : Engine) : Engine := mkEngine s (tail_pages e) (trees e) (is_open e).
Definition set_tails (m : gmap Z Z) (e : Engine) : Engine := mkEngine (pool e) m (trees e) (is_open e).
Definition set_trees (m : gmap Z BTree) (e : Engine) : Engine := mkEngine (pool e) (tail_pages e) m (is_open e).
Definition set_open (b : bool) (e : Engine) : Engine := mkEngine (pool e) (tail_pages e) (trees e) b.
(** A call of the pool, of the file manager or of the log. *)
Definition stored {A} (m : ST Store A) : ST Engine A := fun e => let '(r, s) := m (pool e) in (r, set_pool s e).
(** A call of the tree of file [fid]. *)
Definition treed {A} (fid : Z) (m : ST TreeState A) : ST Engine A := fun e =>
  match trees e !! fid with
  | None => (Fatal, e)
  | Some b => let '(r, t) := m (mkTS (pool e) b) in (r, set_trees (<[fid := tree t]> (trees e)) (set_pool (store t) e))
  end.
Definition bytes_of (i : nat) : ST Engine bytes := gets (fun e => data i (pool e)).
Definition on_wal (f : Wal -> Wal) : ST Engine unit := stored (modify (fun s => set_wal (f (wal s)) s)).

(** * Opening and closing *)
Definition engine_new (frames : nat) (d : gmap Z bytes) (log : bytes) : Engine :=
  mkEngine (mkStore d (wal_new log) (replicate frames empty_frame) ∅ 0 None false) ∅ ∅ false.
Definition engine_open : ST Engine unit := fun e =>
  match recover (disk (pool e)) (wal (pool e)) with
  | Ok (d, w, _) =>
      (_ ← stored (modify (fun s => set_wal w (set_disk d s)));
       _ ← stored invalidate_all;
       _ ← modify (set_tails ∅);
       _ ← modify (set_trees ∅);
       modify (set_open true)) e
  | Raise c => (Raise c, e)
  | Fatal => (Fatal, e)
  end.
(** [fsync] of the data files and of the directory has no effect on this model of the disk. *)
Definition checkpoint : ST Engine unit :=
  c ← gets (fun e => ctx (pool e));
  match c with
  | Some _ => raise Internal
  | None => _ ← stored flush_all; _ ← on_wal wal_sync; on_wal wal_reset
  end.
Definition engine_close : ST Engine unit := _ ← checkpoint; modify (set_open false).
Definition wal_bytes_since_reset (e : Engine) : Z := bytes_since_reset (wal (pool e)).

(** * Transactions *)
Definition check_txn (fid : Z) : ST Engine unit :=
  c ← gets (fun e => ctx (pool e));
  match c with
  | None => raise Internal
  | Some c => if existsb (Z.eqb fid) (pending_drops c) then raise Internal else mret tt
  end.
Definition begin_txn : ST Engine unit :=
  c ← gets (fun e => ctx (pool e));
  match c with
  | Some _ => raise Internal
  | None =>
      stored (modify (fun s =>
        let '(w, t) := wal_alloc_txn_id (wal s) in
        set_txn true (set_ctx (Some (mkTxn t false [] [] [])) (set_wal w s))))
  end.
Definition on_ctx (f : TxnContext -> TxnContext) : ST Engine unit :=
  stored (modify (fun s => set_ctx (f <$> ctx s) s)).
Definition commit_txn : ST Engine unit :=
  c ← gets (fun e => ctx (pool e));
  match c with
  | None => raise Internal
  | Some c =>
      _ ← stored (modify (set_txn false));
      _ ← (if wrote c then _ ← on_wal (fun w => (wal_append w Commit (txn_id c) []).1); on_wal wal_sync else mret tt);
      _ ← forM (pending_drops c) (fun fid => stored (modify (fun s => set_disk (Disk.remove_table_file (disk s) fid) s)));
      stored (modify (set_ctx None))
  end.
Definition restore_tail (m : gmap Z Z) (u : TailUndo) : gmap Z Z :=
  if had u then <[t_fid u := old_tail u]> m else delete (t_fid u) m.
Definition rollback_txn : ST Engine unit :=
  c ← gets (fun e => ctx (pool e));
  match c with
  | None => raise Internal
  | Some c =>
      _ ← stored (modify (set_txn false));
      _ ← stored (forM (rev (undo c)) (fun u => restore_region (mkPid (u_fid u) (u_page u)) (u_off u) (u_len u) (u_before u)));
      _ ← modify (fun e => set_tails (fold_left restore_tail (rev (tail_undo c)) (tail_pages e)) e);
      _ ← (if wrote c then on_wal (fun w => (wal_append w Abort (txn_id c) []).1) else mret tt);
      stored (modify (set_ctx None))
  end.

(** * Table files *)
Definition init_table_file (fid : Z) : ST Engine unit :=
  _ ← check_txn fid;
  _ ← stored (modify (fun s => set_disk (create_table_file (disk s) fid) s));
  h ← stored (allocate (mkPid fid 0));
  _ ← stored (poke h (init_page MAGIC_FILE_HEADER PtFileHeader));
  _ ← stored (mark_dirty h);
  _ ← stored (unpin h);
  stored (flush (mkPid fid 0)).
(** [DropFile] is logged, the pages leave the pool, the file goes when the transaction commits. *)
Definition log_drop (fid : Z) : ST Engine unit :=
  c ← gets (fun e => ctx (pool e));
  match c with
  | None => crash
  | Some c =>
      _ ← on_wal (fun w => (wal_append w DropFile (txn_id c) (wal_put_u64 fid)).1);
      _ ← on_ctx (fun c => mkTxn (txn_id c) true (undo c) (tail_undo c) (pending_drops c));
      stored (drop_table fid)
  end.
Definition defer_drop (fid : Z) : ST Engine unit :=
  on_ctx (fun c => mkTxn (txn_id c) (wrote c) (undo c) (tail_undo c) (pending_drops c ++ [fid])).
Definition remove_table_file (fid : Z) : ST Engine unit :=
  _ ← check_txn 0;
  _ ← log_drop fid;
  _ ← modify (fun e => set_tails (delete fid (tail_pages e)) e);
  defer_drop fid.

(** * Rows *)
Definition link_header_to_first_data_page (fid : Z) : ST Engine Z :=
  h ← stored (read (mkPid fid 0) MAGIC_FILE_HEADER);
  np ← stored (allocate (mkPid fid 1));
  _ ← stored (poke np (init_page MAGIC_HEAP PtHeap));
  _ ← stored (mark_dirty np);
  _ ← stored (unpin np);
  p ← bytes_of h;
  _ ← stored (poke h (seal (set_next_page 1 p)));
  _ ← stored (mark_dirty h);
  _ ← stored (unpin h);
  mret 1.
(** Down from the last page of the file to one that is not all zeros. *)
Fixpoint skip_zero (n : nat) (fid : Z) : ST Engine Z :=
  match n with
  | O => mret 0
  | S k =>
      b ← stored (fun s => let '(d, b) := read_page (disk s) fid (Z.of_nat n) in (Ok b, set_disk d s));
      if page_all_zero b then skip_zero k fid else mret (Z.of_nat n)
  end.
Definition disk_tail_page (fid : Z) : ST Engine Z :=
  pages ← gets (fun e => page_count (disk (pool e)) fid);
  skip_zero (Z.to_nat (if pages =? 0 then 0 else pages - 1)) fid.
Definition track_tail (fid tail : Z) : ST Engine unit :=
  old ← gets (fun e => tail_pages e !! fid);
  _ ← on_ctx (fun c => mkTxn (txn_id c) (wrote c) (undo c)
        (tail_undo c ++ [mkTail fid (bool_decide (is_Some old)) (default 0 old)]) (pending_drops c));
  modify (fun e => set_tails (<[fid := tail]> (tail_pages e)) e).
(** A page that refuses the record gets a successor that takes it: two rounds. *)
Fixpoint append_loop (fuel : nat) (fid : Z) (rec : bytes) (tail : Z) : ST Engine RowRef :=
  match fuel with
  | O => crash
  | S fuel =>
      pg ← stored (read (mkPid fid tail) MAGIC_HEAP);
      p ← bytes_of pg;
      match heap_append p rec with
      | Some (p', slot) =>
          _ ← stored (poke pg p');
          _ ← stored (mark_dirty pg);
          _ ← stored (unpin pg);
          _ ← track_tail fid tail;
          mret (mkRef (mkPid fid tail) slot)
      | None =>
          new_no ← gets (fun e => Z.max (page_count (disk (pool e)) fid) (wrap 32 (tail + 1)));
          np ← stored (allocate (mkPid fid new_no));
          _ ← stored (poke np (init_page MAGIC_HEAP PtHeap));
          _ ← stored (mark_dirty np);
          _ ← stored (unpin np);
          p ← bytes_of pg;
          _ ← stored (poke pg (seal (set_next_page new_no p)));
          _ ← stored (mark_dirty pg);
          _ ← stored (unpin pg);
          append_loop fuel fid rec new_no
      end
  end.
Definition find_tail (fid : Z) : ST Engine Z :=
  known ← gets (fun e => tail_pages e !! fid);
  match known with Some t => mret t | None => disk_tail_page fid end.
Definition insert_row (fid : Z) (cs : list ColumnSpec) (values : list Value) : ST Engine (Z * RowRef) :=
  _ ← check_txn fid;
  rec ← lift (encode_row cs values);
  match rec with
  | None => raise ValueMismatch
  | Some rec =>
      if zlen rec >? MAX_RECORD_LEN then raise RecordTooLong
      else
        h ← stored (read (mkPid fid 0) MAGIC_FILE_HEADER);
        p ← bytes_of h;
        let id := wrap 64 (file_next_rowid p + 1) in
        _ ← stored (poke h (seal (set_file_next_rowid id p)));
        _ ← stored (mark_dirty h);
        _ ← stored (unpin h);
        tail ← find_tail fid;
        tail ← (if tail =? 0 then link_header_to_first_data_page fid else mret tail);
        ref ← append_loop 2 fid rec tail;
        mret (id, ref)
  end.
Definition check_row_ref (ref : RowRef) : ST Engine unit :=
  if bool_decide (rpage ref = INVALID_PAGE) then raise Internal
  else if Types.page_no (rpage ref) =? 0 then raise Internal
  else
    pages ← gets (fun e => page_count (disk (pool e)) (file_id (rpage ref)));
    tail ← gets (fun e => tail_pages e !! file_id (rpage ref));
    let max_no := if pages =? 0 then 0 else pages - 1 in
    let max_no := match tail with Some t => if t >? max_no then t else max_no | None => max_no end in
    if Types.page_no (rpage ref) >? max_no then raise Internal else mret tt.
Definition slot_gone (p : bytes) (i : Z) : bool := (h_slot_count p <=? i) || slot_tombstone p i.
Definition read_row (ref : RowRef) (cs : list ColumnSpec) : ST Engine (option (list Value)) :=
  _ ← check_row_ref ref;
  pg ← stored (read (rpage ref) MAGIC_HEAP);
  p ← bytes_of pg;
  if slot_gone p (rslot ref) then _ ← stored (unpin pg); mret None
  else
    v ← lift (decode_row cs (record p (rslot ref)) (slot_len p (rslot ref)));
    _ ← stored (unpin pg);
    match v with None => crash | Some vs => mret (Some vs) end.
Definition delete_row (ref : RowRef) : ST Engine Z :=
  _ ← check_txn (file_id (rpage ref));
  _ ← check_row_ref ref;
  pg ← stored (read (rpage ref) MAGIC_HEAP);
  p ← bytes_of pg;
  if slot_gone p (rslot ref) then _ ← stored (unpin pg); mret 0
  else
    _ ← stored (poke pg (heap_delete p (rslot ref)));
    _ ← stored (mark_dirty pg);
    _ ← stored (unpin pg);
    mret 1.

(** ** Along the chain of pages; [fuel] bounds its length *)
Definition first_page (fid : Z) : ST Engine Z :=
  h ← stored (read (mkPid fid 0) MAGIC_FILE_HEADER);
  p ← bytes_of h;
  _ ← stored (unpin h);
  mret (h_next_page p).
(** [visit] sees every page of the chain, pinned. *)
Fixpoint walk {A} (fuel : nat) (fid pno : Z) (visit : Z -> bytes -> ST Engine (list A)) : ST Engine (list A) :=
  if pno =? 0 then mret []
  else match fuel with
  | O => crash
  | S fuel =>
      pg ← stored (read (mkPid fid pno) MAGIC_HEAP);
      p ← bytes_of pg;
      xs ← visit pno p;
      _ ← stored (unpin pg);
      ys ← walk fuel fid (h_next_page p) visit;
      mret (xs ++ ys)
  end.
Definition live_slots (p : bytes) : list Z :=
  List.filter (fun i => negb (slot_tombstone p i)) (Z.of_nat <$> seq 0 (Z.to_nat (h_slot_count p))).
Definition decode_slot (cs : list ColumnSpec) (p : bytes) (i : Z) : ST Engine (list Value) :=
  v ← lift (decode_row cs (record p i) (slot_len p i));
  match v with Some vs => mret vs | None => crash end.
Definition read_rows (fuel : nat) (fid : Z) (cs : list ColumnSpec) : ST Engine (list (list Value)) :=
  pno ← first_page fid;
  walk fuel fid pno (fun _ p => traverse (live_slots p) (decode_slot cs p)).
Definition live_refs (fid pno : Z) (p : bytes) : list RowRef := mkRef (mkPid fid pno) <$> live_slots p.
Definition delete_all_rows (fuel : nat) (fid : Z) : ST Engine Z :=
  _ ← check_txn fid;
  pno ← first_page fid;
  refs ← walk fuel fid pno (fun no p => mret (live_refs fid no p));
  _ ← forM refs (fun r => _ ← delete_row r; mret tt);
  mret (zlen refs).
Definition row_count (fuel : nat) (fid : Z) : ST Engine Z :=
  pno ← first_page fid;
  refs ← walk fuel fid pno (fun no p => mret (live_refs fid no p));
  mret (zlen refs).

(** ** The table scanner *)
Record Scanner := mkScanner {
  sc_fid : Z; sc_cols : list ColumnSpec; cur_data : option nat; cur_page : PageId; sc_slot : Z; next_page_no : Z; sc_done : bool }.
Definition scanner_open (fid : Z) (cs : list ColumnSpec) : ST Engine Scanner :=
  no ← first_page fid; mret (mkScanner fid cs None INVALID_PAGE 0 no false).
Definition scanner_close (c : Scanner) : ST Engine Scanner :=
  _ ← match cur_data c with Some pg => stored (unpin pg) | None => mret tt end;
  mret (mkScanner (sc_fid c) (sc_cols c) None (cur_page c) (sc_slot c) (next_page_no c) true).
Definition advance_page (c : Scanner) : ST Engine Scanner :=
  _ ← match cur_data c with Some pg => stored (unpin pg) | None => mret tt end;
  if next_page_no c =? 0 then mret (mkScanner (sc_fid c) (sc_cols c) None (cur_page c) (sc_slot c) (next_page_no c) true)
  else
    let pid := mkPid (sc_fid c) (next_page_no c) in
    pg ← stored (read pid MAGIC_HEAP);
    p ← bytes_of pg;
    mret (mkScanner (sc_fid c) (sc_cols c) (Some pg) pid 0 (h_next_page p) (sc_done c)).
(** [while (slot_ < slot_count && slot_tombstone(...)) ++slot_]; [n] slots are left. *)
Fixpoint skip_dead (n : nat) (p : bytes) (i : Z) : Z :=
  match n with
  | O => i
  | S n => if (i <? h_slot_count p) && slot_tombstone p i then skip_dead n p (wrap 16 (i + 1)) else i
  end.
(** The scanner does not outlive an exception of [next]: its destructor unpins the page. *)
Fixpoint scanner_next (fuel : nat) (c : Scanner) : ST Engine (option Row * Scanner) :=
  match fuel with
  | O => crash
  | S fuel =>
      if sc_done c then mret (None, c)
      else
        c ← match cur_data c with None => advance_page c | Some _ => mret c end;
        match cur_data c with
        | None => mret (None, c)
        | Some pg =>
            p ← bytes_of pg;
            let i := skip_dead (Z.to_nat (h_slot_count p)) p (sc_slot c) in
            let at_slot k := mkScanner (sc_fid c) (sc_cols c) (cur_data c) (cur_page c) k (next_page_no c) (sc_done c) in
            if i <? h_slot_count p then
              vs ← unwinding (stored (unpin pg)) (decode_slot (sc_cols c) p i);
              mret (Some (mkRow 0 (mkRef (cur_page c) i) vs), at_slot (wrap 16 (i + 1)))
            else
              c ← advance_page (at_slot i);
              scanner_next fuel c
        end
  end.

(** A scan opened, pulled to its end and closed. *)
Fixpoint scanner_drain (fuel : nat) (c : Scanner) : ST Engine (list Row) :=
  match fuel with
  | O => crash
  | S n =>
      '(r, c) ← scanner_next fuel c;
      match r with
      | None => _ ← scanner_close c; mret []
      | Some row => rows ← scanner_drain n c; mret (row :: rows)
      end
  end.
Definition table_scan (fuel : nat) (fid : Z) (cs : list ColumnSpec) : ST Engine (list Row) :=
  c ← scanner_open fid cs; scanner_drain fuel c.

(** * Indexes *)
Definition tree_for (fid : Z) : ST Engine unit :=
  t ← gets (fun e => trees e !! fid);
  match t with
  | Some _ => mret tt
  | None =>
      _ ← modify (fun e => set_trees (<[fid := mkTree fid 0 0]> (trees e)) e);
      treed fid Tree.open
  end.
Definition init_index_file (fid : Z) : ST Engine unit :=
  _ ← check_txn fid;
  _ ← modify (fun e => set_trees (<[fid := mkTree fid 0 0]> (delete fid (trees e))) e);
  _ ← treed fid Tree.create;
  stored (flush (mkPid fid 1)).
Definition remove_index_file (fid : Z) : ST Engine unit :=
  _ ← check_txn 0;
  _ ← log_drop fid;
  _ ← modify (fun e => set_trees (delete fid (trees e)) e);
  defer_drop fid.
Definition index_insert (fid : Z) (key : IndexKey) (ref : RowRef) : ST Engine unit :=
  _ ← check_txn fid;
  _ ← tree_for fid;
  treed fid (Tree.insert (mkEntry key (Types.page_no (rpage ref)) (rslot ref))).
(** A scan opened, read to its end and closed. *)
Definition index_scan (fuel : nat) (fid : Z) (lo hi : option ScanBound) : ST Engine (list BTreeEntry) :=
  _ ← tree_for fid;
  treed fid (Tree.scan fuel lo hi).
(** Each row of the scan goes into the tree before the next one is read; the scanner is closed however the
    loop ends. *)
Fixpoint build_loop (fuel : nat) (cs : list ColumnSpec) (ordinal : nat) (ifid : Z) (c : Scanner) (n : Z) : ST Engine Z :=
  match fuel with
  | O => crash
  | S k =>
      '(r, c) ← scanner_next fuel c;
      match r with
      | None => _ ← scanner_close c; mret n
      | Some row =>
          match cs !! ordinal, rvalues row !! ordinal with
          | Some col, Some v =>
              _ ← unwinding (_ ← scanner_close c; mret tt)
                    (key ← lift (encode_key (ctype col) v);
                     treed ifid (Tree.insert (mkEntry key (Types.page_no (rpage (rref row))) (rslot (rref row)))));
              build_loop k cs ordinal ifid c (n + 1)
          | _, _ => crash
          end
      end
  end.
Definition build_index (fuel : nat) (tfid : Z) (cs : list ColumnSpec) (ordinal : nat) (ifid : Z) : ST Engine Z :=
  _ ← check_txn ifid;
  if (length cs <=? ordinal)%nat then raise Internal
  else
    _ ← tree_for ifid;
    c ← scanner_open tfid cs;
    build_loop fuel cs ordinal ifid c 0.
