(* ===== verification/Rollback.v ===== *)
(** Transactions of the engine: what a rollback restores after any use of the pool, and the run in which a
    committed row is out of reach after a rollback. *)
From S2P Require Import Prelude Key Types Codec Page Wal Disk Recovery State Node Pool Diff PoolSpec Txn Tree Engine.

(** * Steps of a transaction *)
(** The engine changes its pages through the pool, records the tail page of a table, and tracks trees; [W] as
    in [pool_step]. *)
Inductive engine_step : gset PageId * Engine -> gset PageId * Engine -> Prop :=
| es_pool W e W' s' : pool_step (W, pool e) (W', s') -> engine_step (W, e) (W', set_pool s' e)
| es_tail W e fid tail e' : track_tail fid tail e = (Ok tt, e') -> engine_step (W, e) (W, e')
| es_trees W e m : engine_step (W, e) (W, set_trees m e).

(** What rolling back now leads to: the pages [V] and the tail pages [M]. *)
Definition tails_undone (e : Engine) : option (gmap Z Z) :=
  c ← ctx (pool e); Some (fold_left restore_tail (rev (tail_undo c)) (tail_pages e)).
Record bound_to (V : PageId -> bytes) (M : gmap Z Z) (W : gset PageId) (e : Engine) : Prop := {
  bt_ok : pool_ok W (pool e);
  bt_undo : undo_ok (pool e);
  bt_view p : 0 <= page_no p -> rolled (pool e) p = V p;
  bt_tails : tails_undone e = Some M }.
Lemma restore_insert (m : gmap Z Z) fid tail : restore_tail (<[fid := tail]> m) (mkTail fid (bool_decide (is_Some (m !! fid))) (default 0 (m !! fid))) = m.
Proof.
  unfold restore_tail. cbn [had t_fid old_tail]. destruct (m !! fid) as [x|] eqn:E; cbn.
  - rewrite insert_insert_eq. by apply insert_id.
  - rewrite delete_insert_eq. by apply delete_id.
Qed.
Lemma bound_step V M W e W' e' : bound_to V M W e -> engine_step (W, e) (W', e') -> bound_to V M W' e'.
Proof.
  intros [H1 H2 H3 H4] Hs. inversion Hs; subst.
  - match goal with H : pool_step _ _ |- _ => rename H into Hp end.
    destruct (step_ok _ _ _ _ H1 Hp) as [K1 _ K3 K4 _]. pose proof (step_tail _ _ _ _ H1 Hp) as Ht. split; [done|auto| |].
    + intros p Hp0. cbn [pool set_pool]. rewrite K3 by done. auto.
    + revert Ht H4. unfold tails_undone. cbn [pool set_pool tail_pages]. intros Ht H4.
      destruct (ctx s') as [c'|], (ctx (pool e)) as [c|]; cbn in *; congruence.
  - match goal with H : track_tail _ _ _ = _ |- _ => revert H end.
    unfold track_tail. rewrite run_gets. unfold on_ctx, stored, modify. rewrite run_match. intros [= <-].
    revert H4. unfold tails_undone. cbn [pool set_tails set_pool tail_pages ctx set_ctx]. destruct (ctx (pool e)) as [c|] eqn:Ec; [|done].
    intros H4. split; cbn [pool set_tails set_pool].
    + destruct H1. by split.
    + revert H2. unfold undo_ok, undo_list. cbn [ctx set_ctx]. by rewrite Ec.
    + intros p Hp. rewrite <- (H3 p Hp). unfold rolled, undo_list. cbn [ctx set_ctx]. by rewrite Ec.
    + cbn in *. rewrite rev_unit. cbn [fold_left]. by rewrite restore_insert.
  - by split.
Qed.
Lemma bound_steps V M W e W' e' : bound_to V M W e -> rtc engine_step (W, e) (W', e') -> bound_to V M W' e'.
Proof.
  intros H Hs. remember (W, e) as a eqn:Ea. remember (W', e') as b eqn:Eb. revert W e Ea H.
  induction Hs as [x|x [W1 e1] z H1 _ IH]; intros W e -> H; [by injection Eb as -> ->|]. apply (IH Eb W1 e1 eq_refl). by eapply bound_step.
Qed.
Lemma begin_bound e0 e1 : pool_ok ∅ (pool e0) -> begin_txn e0 = (Ok tt, e1) ->
  bound_to (view (pool e0)) (tail_pages e0) ∅ e1 /\ trees e1 = trees e0.
Proof.
  intros Hok. unfold begin_txn. rewrite run_gets. destruct (ctx (pool e0)) as [c|] eqn:Ec; [done|].
  unfold stored, modify. destruct (wal_alloc_txn_id (wal (pool e0))) as [w t] eqn:Ew. intros [= <-]. split; [|done]. split; cbn [pool set_pool].
  - destruct Hok. by split.
  - by apply Forall_nil.
  - intros p Hp. rewrite rolled_start; [done|by destruct Hok|done].
  - done.
Qed.
(** The end of a rollback, whatever led there. *)
Lemma rollback_bound V M e : bound_to V M ∅ e ->
  exists e', rollback_txn e = (Ok tt, e') /\ pool_ok ∅ (pool e') /\ ctx (pool e') = None /\ tail_pages e' = M /\ trees e' = trees e /\
    pins (pool e') = pins (pool e) /\ forall p, 0 <= page_no p -> view (pool e') p = V p.
Proof.
  intros [H1 H2 H3 H4]. unfold rollback_txn. rewrite run_gets. unfold tails_undone in H4.
  destruct (ctx (pool e)) as [c|] eqn:Ec; [|done]. cbn in H4. injection H4 as H4.
  rewrite run_match. unfold stored at 1, modify at 1. cbn [set_pool].
  set (s1 := set_txn false (pool e)). assert (pool_ok ∅ s1) as Hok1 by (by destruct H1).
  destruct (rollback_view s1 Hok1 H2) as (s2 & R1 & R2 & R3 & R4 & R5 & R6 & R7 & R8).
  assert (undo_list s1 = undo c) as Eu by (unfold undo_list; cbn [s1 ctx set_txn]; by rewrite Ec). rewrite Eu in R1.
  rewrite run_match. unfold stored at 1. cbn [pool set_pool]. fold s1.
  change (fun u : UndoEntry => restore_region _ _ _ _) with restore_entry. rewrite R1. rewrite run_modify. rewrite run_match.
  cbn [tail_pages set_pool]. rewrite H4.
  assert (exists s3, (if wrote c then on_wal (fun w => (wal_append w Abort (txn_id c) []).1) else mret tt)
    (set_tails M (set_pool s2 e)) = (Ok tt, set_tails M (set_pool s3 e)) /\ pool_ok ∅ s3 /\ view s3 = view s2 /\ pins s3 = pins s2) as (s3 & E3 & P1 & P2 & P3).
  { destruct (wrote c); [|by exists s2]. exists (set_wal (wal_append (wal s2) Abort (txn_id c) []).1 s2). split; [done|]. split; [by destruct R2|done]. }
  change (set_tails M (set_pool s2 (set_pool s1 e))) with (set_tails M (set_pool s2 e)). rewrite E3.
  eexists. split; [reflexivity|]. cbn [pool set_pool set_tails]. split; [by destruct P1|]. split_and!; try done.
  - transitivity (pins s3); [done|]. by rewrite P3, R5.
  - intros p Hp. change (view (set_ctx None s3) p) with (view s3 p). rewrite P2, R3 by done. apply (H3 p Hp).
Qed.

(** * The properties *)
(** C7. A rollback restores what the transaction found: after [begin_txn] and any sequence of page reads,
    allocations, in-place writes, logged changes, unpins, flushes - whatever the clock evicts and writes to
    disk meanwhile - and tail updates that leaves no page half written, [rollback_txn] succeeds, ends the
    transaction, and every page of every file and the tail page of every table are what they were when it began. *)
Theorem rollback_restores e0 e1 e2 : pool_ok ∅ (pool e0) -> begin_txn e0 = (Ok tt, e1) -> rtc engine_step (∅, e1) (∅, e2) ->
  exists e3, rollback_txn e2 = (Ok tt, e3) /\ pool_ok ∅ (pool e3) /\ ctx (pool e3) = None /\ tail_pages e3 = tail_pages e0 /\
    forall p, 0 <= page_no p -> view (pool e3) p = view (pool e0) p.
Proof.
  intros Hok Hb Hs. destruct (begin_bound e0 e1 Hok Hb) as [H _].
  destruct (rollback_bound _ _ _ (bound_steps _ _ _ _ _ _ H Hs)) as (e3 & R1 & R2 & R3 & R4 & _ & _ & R5). by exists e3.
Qed.
Definition demo_begun : Engine := (begin_txn (engine_new 1 ∅ [])).2.
Definition demo_calls : list Store :=
  let s0 := pool demo_begun in let s1 := (allocate (mkPid 5 1) s0).2 in let s2 := (poke 0 (<[3%nat := 7]> zero_page) s1).2 in
  let s3 := (mark_dirty 0 s2).2 in [s0; s1; s2; s3; (unpin 0 s3).2].
Definition demo_pool (k : nat) : Store := nth k demo_calls (pool demo_begun).
Definition demo_engine (k : nat) : Engine := set_pool (demo_pool k) demo_begun.
Definition demo_tracked : Engine := (track_tail 5 1 (demo_engine 4)).2.
Lemma rollback_restores_witness : exists e3, rollback_txn demo_tracked = (Ok tt, e3) /\ pool_ok ∅ (pool e3) /\ ctx (pool e3) = None /\
  tail_pages e3 = ∅ /\ forall p, 0 <= page_no p -> view (pool e3) p = view (pool (engine_new 1 ∅ [])) p.
Proof.
  apply (rollback_restores (engine_new 1 ∅ []) demo_begun demo_tracked); [apply (pool_new_ok 1 ∅ (wal_new [])); lia|reflexivity|].
  eapply rtc_l; [apply (es_pool ∅ demo_begun ∅ (demo_pool 1)), (ps_allocate ∅ _ (mkPid 5 1) 0);
    [done|by vm_compute|left; apply demo_zero; vm_compute; reflexivity|by vm_compute]|].
  eapply rtc_l; [apply (es_pool ∅ (demo_engine 1) ({[mkPid 5 1]} ∪ ∅) (demo_pool 2)), (ps_poke ∅ (demo_pool 1) 0 (mkPid 5 1) 1 (<[3%nat := 7]> zero_page)); by vm_compute|].
  eapply rtc_l; [apply (es_pool ({[mkPid 5 1]} ∪ ∅) (demo_engine 2) (({[mkPid 5 1]} ∪ ∅) ∖ {[mkPid 5 1]}) (demo_pool 3)), (ps_mark_dirty _ (demo_pool 2) 0 (mkPid 5 1) 1); [by vm_compute|by eexists|by vm_compute]|].
  assert (({[mkPid 5 1]} ∪ ∅) ∖ {[mkPid 5 1]} = (∅ : gset PageId)) as -> by set_solver.
  eapply rtc_l; [apply (es_pool ∅ (demo_engine 3) ∅ (demo_pool 4)), (ps_unpin _ (demo_pool 3) 0 (mkPid 5 1) 1); [by vm_compute|set_solver|by vm_compute]|].
  apply rtc_once. by apply (es_tail _ (demo_engine 4) 5 1).
Defined.

(** ** A committed row lost *)
(** Table 5 gets a row on page 1, the database is closed and opened; a transaction writes page 2, whose frame the
    clock evicts to disk, writes it again and rolls back: page 2 is zero in the pool and not on disk. The next
    insertion takes page 2 for the last page of the table, where it links page 3 for the new row. *)
Definition wide : list ColumnSpec := [Types.mkCol "a" kVarChar 4000 false 0].
Definition wide_row (n : nat) : list Value := [str_val kVarChar (replicate n 65)].
Definition reopened : ST Engine unit :=
  _ ← engine_open;
  _ ← begin_txn; _ ← init_table_file 5; _ ← init_table_file 6; _ ← insert_row 5 wide (wide_row 3000); _ ← commit_txn;
  _ ← engine_close; engine_open.
Definition rolled_back : ST Engine unit :=
  _ ← begin_txn; _ ← insert_row 5 wide (wide_row 3000); _ ← insert_row 6 wide (wide_row 3000); _ ← insert_row 5 wide (wide_row 1); rollback_txn.
Definition insert_committed : ST Engine (list (list Value)) :=
  _ ← begin_txn; _ ← insert_row 5 wide (wide_row 3000); _ ← commit_txn; read_rows 10 5 wide.
Definition rows_of (m : ST Engine (list (list Value))) : option nat :=
  match (m (engine_new 3 ∅ [])).1 with Ok rows => Some (length rows) | _ => None end.
