(* ===== verification/Table.v ===== *)
(** Table files as lists of rows: the chain of heap pages that stores a table, and the engine's row operations
    as operations on the list of its live rows. *)
From stdpp Require Import sorting.
From S2P Require Import Prelude Key Types Codec Page Wal Disk Recovery State Node Pool Diff PoolSpec Txn Session Tree Engine.

#[local] Opaque seal init_page.

(** * Calls of the pool by the engine *)
Lemma stored_ok {A} (m : ST Store A) e a s' : m (pool e) = (Ok a, s') -> stored m e = (Ok a, set_pool s' e).
Proof. unfold stored. by intros ->. Qed.
Lemma set_pool_twice s s' e : set_pool s (set_pool s' e) = set_pool s e.
Proof. done. Qed.
(** Two pages of one file. *)
Ltac ne_page := let E := fresh in intros [= E]; lia.
Lemma fresh_len : zlen (init_page MAGIC_HEAP PtHeap) = PAGE_SIZE.
Proof. destruct (init_page_wf MAGIC_HEAP PtHeap) as (H & _); [unfold MAGIC_HEAP; lia|]. exact (hw_len _ H). Qed.
Section calls.
Context (e : Engine) (Hok : pool_ok ∅ (pool e)).
Lemma read_run p m : 0 <= page_no p -> pins (pool e) < zlen (frames (pool e)) ->
  page_valid (view (pool e) p) m = true ->
  exists i s', stored (read p m) e = (Ok i, set_pool s' e) /\ bytes_of i (set_pool s' e) = (Ok (view (pool e) p), set_pool s' e) /\
    pool_ok ∅ s' /\ evolves no_page (eq p) (pool e) s' /\ holds (pool e) s' p i.
Proof using Hok.
  intros Hp Hn Hv. destruct (read_session ∅ _ Hok p m Hp Hn Hv) as (i & s' & R1 & R2 & R3 & R4 & R5).
  exists i, s'. split_and!; try done; [by apply stored_ok|]. unfold bytes_of, gets. cbn [pool set_pool]. by rewrite R5.
Qed.
Lemma alloc_run p : 0 <= page_no p -> pins (pool e) < zlen (frames (pool e)) ->
  view (pool e) p = zero_page ->
  exists i s', stored (allocate p) e = (Ok i, set_pool s' e) /\
    pool_ok ∅ s' /\ evolves no_page (eq p) (pool e) s' /\ holds (pool e) s' p i.
Proof using Hok.
  intros Hp Hn Hv. destruct (allocate_session ∅ _ Hok p Hp Hn Hv) as (i & s' & R1 & R2 & R3 & R4).
  exists i, s'. split; [|done]. by apply stored_ok.
Qed.
Lemma unpin_run s0 p i : pool_ok ∅ s0 -> holds s0 (pool e) p i ->
  exists s', stored (unpin i) e = (Ok tt, set_pool s' e) /\ pool_ok ∅ s' /\ evolves no_page no_page (pool e) s' /\ pins_eq s0 s'.
Proof using Hok.
  intros H0 Hh. destruct (unpin_session ∅ _ Hok ∅ s0 p i H0 Hh) as (s' & R1 & R2 & R3 & R4 & _); [set_solver|].
  exists s'. split; [|done]. by apply stored_ok.
Qed.
(** The page held in frame [i] becomes [b], is logged and unpinned. *)
Lemma finish_run s0 p i b : pool_ok ∅ s0 -> holds s0 (pool e) p i -> attached (pool e) = true -> txn_on (pool e) ->
  zlen b = PAGE_SIZE ->
  exists s', (forall A (k : ST Engine A), (_ ← stored (poke i b); _ ← stored (mark_dirty i); _ ← stored (unpin i); k) e = k (set_pool s' e)) /\
    pool_ok ∅ s' /\ evolves (eq p) no_page (pool e) s' /\ pins_eq s0 s' /\ view s' p = b /\ disk s' = disk (pool e).
Proof using Hok.
  intros H0 Hh Ha Ht Hb. destruct (rewrite_session _ p i _ b Hok (ho_pin _ _ _ _ Hh) Ha Ht Hb) as (s1 & s2 & P1 & P2 & P3 & P4 & P5 & P6 & P7).
  destruct (unpin_session ∅ s2 P3 ∅ s0 p i H0 (holds_eq _ _ _ _ _ Hh P5)) as (s3 & U1 & U2 & U3 & U4 & U5); [set_solver|].
  exists s3. split; [|split_and!; [done| |done| |congruence]].
  - intros A k. run (stored_ok (poke i b) e _ _ P1). run (stored_ok (mark_dirty i) (set_pool s1 e) _ _ P2). by run (stored_ok (unpin i) (set_pool s2 e) _ _ U1).
  - eapply evolves_trans; [exact P4|by apply evolves_no].
  - rewrite (ev_view _ _ _ _ U3); [done| |by intros []]. apply (holds_page_nonneg ∅ s0 (pool e) p i Hok Hh).
Qed.
(** A new page. *)
Lemma fresh_run p b : zlen b = PAGE_SIZE -> 0 <= page_no p -> pins (pool e) < zlen (frames (pool e)) -> view (pool e) p = zero_page ->
  attached (pool e) = true -> txn_on (pool e) ->
  exists s', (forall A (k : ST Engine A), (np ← stored (allocate p); _ ← stored (poke np b);
      _ ← stored (mark_dirty np); _ ← stored (unpin np); k) e = k (set_pool s' e)) /\
    pool_ok ∅ s' /\ evolves (eq p) (eq p) (pool e) s' /\ pins_eq (pool e) s' /\ view s' p = b.
Proof using Hok.
  intros Hl Hp Hn Hv Ha Ht. destruct (alloc_run p Hp Hn Hv) as (j & s1 & A1 & A2 & A3 & A4).
  pose proof (rewrite_session s1 p j _ b A2 (ho_pin _ _ _ _ A4)) as (s2 & s3 & P1 & P2 & P3 & P4 & P5 & P6 & _);
    [by rewrite (ev_att _ _ _ _ A3)|by apply (ev_txn _ _ _ _ A3)|exact Hl|].
  destruct (unpin_session ∅ s3 P3 ∅ (pool e) p j Hok (holds_eq _ _ _ _ _ A4 P5)) as (s4 & U1 & U2 & U3 & U4 & _); [set_solver|].
  exists s4. split; [|split_and!; [done| |done|]].
  - intros A k. run A1. run (stored_ok (poke j b) (set_pool s1 e) _ _ P1).
    run (stored_ok (mark_dirty j) (set_pool s2 e) _ _ P2). by run (stored_ok (unpin j) (set_pool s3 e) _ _ U1).
  - eapply evolves_trans; [eapply (evolves_weaken _ _ _ _ _ _ A3); [by intros ? []|done]|].
    eapply evolves_trans; [eapply (evolves_weaken _ _ _ _ _ _ P4); [done|by intros ? []]|by apply evolves_no].
  - rewrite (ev_view _ _ _ _ U3); [exact P6|exact Hp|by intros []].
Qed.
End calls.

(** * The shape of a table *)
(** The live records of a page, each with its reference, in slot order from slot [k]. *)
Fixpoint rows_from (fid no k : Z) (l : list (option bytes)) : list (RowRef * bytes) :=
  match l with
  | [] => []
  | None :: l => rows_from fid no (k + 1) l
  | Some r :: l => (mkRef (mkPid fid no) k, r) :: rows_from fid no (k + 1) l
  end.
Definition page_rows (fid no : Z) (p : bytes) : list (RowRef * bytes) := rows_from fid no 0 (heap_rows p).
Lemma rows_from_app fid no k l1 l2 : rows_from fid no k (l1 ++ l2) = rows_from fid no k l1 ++ rows_from fid no (k + zlen l1) l2.
Proof.
  revert k; induction l1 as [|[r|] l1 IH]; intros k; cbn [rows_from app]; rewrite ?IH, ?zlen_cons; unfold zlen; cbn [length].
  - f_equal. lia.
  - by replace (k + 1 + Z.of_nat (length l1)) with (k + (1 + Z.of_nat (length l1))) by lia.
  - by replace (k + 1 + Z.of_nat (length l1)) with (k + (1 + Z.of_nat (length l1))) by lia.
Qed.
Lemma rows_from_ref fid no k l x : x ∈ rows_from fid no k l -> exists i, x.1 = mkRef (mkPid fid no) i /\ k <= i < k + zlen l.
Proof.
  revert k; induction l as [|[r|] l IH]; intros k; cbn [rows_from]; rewrite ?zlen_cons.
  - by intros ?%elem_of_nil.
  - pose proof (zlen_nonneg l). intros [->|Hx]%elem_of_cons; [exists k; split; [done|lia]|]. destruct (IH _ Hx) as (i & E & ?). exists i. split; [done|lia].
  - intros Hx. destruct (IH _ Hx) as (i & E & ?). exists i. split; [done|lia].
Qed.
Lemma rows_from_delete fid no k l (i : nat) : rows_from fid no k (<[i := None]> l) =
  filter (fun x => x.1 <> mkRef (mkPid fid no) (k + Z.of_nat i)) (rows_from fid no k l).
Proof.
  assert (forall k i l, k > i -> filter (fun x : RowRef * bytes => x.1 <> mkRef (mkPid fid no) i) (rows_from fid no k l) = rows_from fid no k l) as Hid.
  { clear. intros k i l; revert k; induction l as [|[r|] l IH]; intros k Hi; cbn [rows_from]; [done| |apply IH; lia].
    rewrite filter_cons_True by (intros [= E]; lia). f_equal. apply IH. lia. }
  revert k i; induction l as [|o l IH]; intros k i; [done|]. destruct i as [|i].
  - change (<[0%nat := None]> (o :: l)) with (None :: l). cbn [rows_from]. rewrite Z.add_0_r. destruct o as [r|].
    + rewrite filter_cons_False by (intros H; by apply H). symmetry. apply Hid. lia.
    + symmetry. apply Hid. lia.
  - change (<[S i := None]> (o :: l)) with (o :: <[i := None]> l). cbn [rows_from]. destruct o as [r|].
    + rewrite filter_cons_True by (intros [= E]; lia). f_equal. rewrite IH. by replace (k + 1 + Z.of_nat i) with (k + Z.of_nat (S i)) by lia.
    + rewrite IH. by replace (k + 1 + Z.of_nat i) with (k + Z.of_nat (S i)) by lia.
Qed.
(** The slots the code visits. *)
Lemma rows_from_slots fid no p k n : rows_from fid no (Z.of_nat k) ((fun i => slot_record p (Z.of_nat i)) <$> seq k n) =
  (fun i => (mkRef (mkPid fid no) i, record p i)) <$> List.filter (fun i => negb (slot_tombstone p i)) (Z.of_nat <$> seq k n).
Proof.
  revert k; induction n as [|n IH]; intros k; [done|]. cbn [seq fmap list_fmap rows_from List.filter]. unfold slot_record at 1.
  specialize (IH (S k)). replace (Z.of_nat (S k)) with (Z.of_nat k + 1) in IH by lia. destruct (slot_tombstone p (Z.of_nat k)); cbn [negb]; [exact IH|].
  cbn [fmap list_fmap]. f_equal. exact IH.
Qed.
Lemma page_rows_live fid no p : page_rows fid no p = (fun i => (mkRef (mkPid fid no) i, record p i)) <$> live_slots p.
Proof. exact (rows_from_slots fid no p 0 _). Qed.

(** ** The chain of pages *)
Definition heap_page (p : bytes) : Prop := heap_wf p /\ page_valid p MAGIC_HEAP = true.
Fixpoint segment (V : Z -> bytes) (no : Z) (ps : list Z) (stop : Z) : Prop :=
  match ps with
  | [] => no = stop
  | p :: ps => no = p /\ 0 < p /\ heap_page (V p) /\ segment V (h_next_page (V p)) ps stop
  end.
Lemma segment_app V no ps qs stop : segment V no (ps ++ qs) stop <-> exists m, segment V no ps m /\ segment V m qs stop.
Proof.
  revert no; induction ps as [|p ps IH]; intros no; cbn [segment app].
  - split; [intros H; by exists no|intros (m & -> & H); done].
  - rewrite IH. split; [intros (? & ? & ? & m & ? & ?); exists m; done|intros (m & (? & ? & ? & ?) & ?); split_and!; try done; by exists m].
Qed.
Lemma segment_ext V V' no ps stop : (forall q, q ∈ ps -> V' q = V q) -> segment V no ps stop -> segment V' no ps stop.
Proof.
  revert no; induction ps as [|p ps IH]; intros no Hv; cbn [segment]; [done|]. rewrite (Hv p) by (by left).
  intros (? & ? & ? & ?). split_and!; try done. apply IH; [|done]. intros q Hq. apply Hv. by right.
Qed.
Definition table_rows (fid : Z) (V : Z -> bytes) (ps : list Z) : list (RowRef * bytes) := concat ((fun no => page_rows fid no (V no)) <$> ps).
Lemma table_rows_app fid V ps qs : table_rows fid V (ps ++ qs) = table_rows fid V ps ++ table_rows fid V qs.
Proof. unfold table_rows. by rewrite fmap_app, concat_app. Qed.
Lemma table_rows_map {A} (h : RowRef * bytes -> A) fid V ps :
  h <$> table_rows fid V ps = concat ((fun q => h <$> page_rows fid q (V q)) <$> ps).
Proof. induction ps as [|p ps IH]; [done|]. unfold table_rows in *. cbn [fmap list_fmap concat]. by rewrite fmap_app, <- IH. Qed.
Lemma table_rows_ext fid V V' ps : (forall q, q ∈ ps -> V' q = V q) -> table_rows fid V' ps = table_rows fid V ps.
Proof.
  intros H. unfold table_rows. f_equal. apply list_fmap_ext. intros i q Hq%list_elem_of_lookup_2. by rewrite H.
Qed.

(** ** The table and its last page *)
Definition page_of (e : Engine) (fid no : Z) : bytes := view (pool e) (mkPid fid no).
Definition last_page (ps : list Z) : Z := List.last ps 0.
(** The engine knows the last page of the chain; if not, the pages on disk tell. *)
Definition tail_found (e : Engine) (fid : Z) (ps : list Z) : Prop :=
  match tail_pages e !! fid with
  | Some t => ps <> [] /\ t = last_page ps
  | None => (forall no, last_page ps < no -> disk_page (pool e) (mkPid fid no) = zero_page) /\
            (ps <> [] -> disk_page (pool e) (mkPid fid (last_page ps)) <> zero_page) /\ whole (disk (pool e)) fid
  end.
Record table_shape (e : Engine) (fid : Z) (ps : list Z) : Prop := {
  tb_header : page_valid (page_of e fid 0) MAGIC_FILE_HEADER = true;
  tb_bytes : Forall byte_ok (page_of e fid 0);
  tb_chain : segment (page_of e fid) (h_next_page (page_of e fid 0)) ps 0;
  tb_sorted : StronglySorted Z.lt ps;
  tb_zero no : last_page ps < no -> page_of e fid no = zero_page }.
Definition table_ok (e : Engine) (fid : Z) (ps : list Z) : Prop := table_shape e fid ps /\ tail_found e fid ps.
Definition rows_in (e : Engine) (fid : Z) (ps : list Z) : list (RowRef * bytes) := table_rows fid (page_of e fid) ps.
(** A transaction is open, the pool is consistent and has two frames to spare, and the file has [N] pages at most. *)
Record row_env (e : Engine) (fid N : Z) : Prop := {
  re_ok : pool_ok ∅ (pool e);
  re_att : attached (pool e) = true;
  re_ctx : exists c, ctx (pool e) = Some c /\ fid ∉ pending_drops c;
  re_pins : pins (pool e) + 2 <= zlen (frames (pool e));
  re_within : within (pool e) fid N }.
(** What an operation on table [fid] leaves alone; it brings in pages below [N]. *)
Record row_step (fid N : Z) (e e' : Engine) : Prop := {
  rs_evolves : evolves (fun p => file_id p = fid) (fun p => file_id p = fid /\ page_no p < N) (pool e) (pool e');
  rs_pins : pins_eq (pool e) (pool e');
  rs_ok : pool_ok ∅ (pool e');
  rs_trees : trees e' = trees e;
  rs_open : is_open e' = is_open e;
  rs_tails g : g <> fid -> tail_pages e' !! g = tail_pages e !! g }.
Lemma row_step_trans fid N e1 e2 e3 : row_step fid N e1 e2 -> row_step fid N e2 e3 -> row_step fid N e1 e3.
Proof.
  intros [] []. split; try congruence; [by eapply evolves_trans|by eapply pins_eq_trans|]. intros g Hg. rewrite rs_tails1 by done. auto.
Qed.
Lemma row_step_mono fid N N' e e' : N <= N' -> row_step fid N e e' -> row_step fid N' e e'.
Proof. intros Hn []. split; try done. eapply evolves_weaken; [done|done|]. intros p [H1 H2]. split; [done|lia]. Qed.
Lemma row_env_step fid N N' e e' : 0 <= N <= N' -> row_env e fid N -> row_step fid N' e e' -> row_env e' fid N'.
Proof.
  intros HN [] [Hev [_ Hp] Hk _ _]. destruct re_ctx0 as (c & Hc & Hd). split; [done| | | |].
  - by rewrite (ev_att _ _ _ _ Hev).
  - pose proof (ev_drops _ _ _ _ Hev) as E. rewrite Hc in E. destruct (ctx (pool e')) as [c'|]; [|done]. cbn in E. injection E as E.
    exists c'. by rewrite E.
  - rewrite Hp. unfold zlen in *. by rewrite (ev_len _ _ _ _ Hev).
  - apply (ev_within _ _ _ _ Hev); [lia|by intros p [-> H]|]. destruct re_within0 as [W1 W2]. split; [unfold PAGE_SIZE in *; lia|].
    intros p i Hi Hf. specialize (W2 p i Hi Hf). lia.
Qed.
Lemma row_env_txn e fid N : row_env e fid N -> txn_on (pool e).
Proof. intros [_ _ (c & Hc & _) _ _]. by exists c. Qed.

Lemma view_len W s p : pool_ok W s -> 0 <= page_no p -> zlen (view s p) = PAGE_SIZE.
Proof.
  intros Hok Hp. unfold view. destruct (cached s p) as [f|] eqn:E; [|by apply zlen_dpage].
  apply (cached_spec W s _ _ Hok) in E as (i & Hf & _). apply (pool_frame _ _ _ _ Hok Hf).
Qed.
Lemma valid_not_zero p m : m <> 0 -> page_valid p m = true -> p <> zero_page.
Proof.
  intros Hm Hv ->. unfold page_valid in Hv. apply andb_true_iff in Hv as [Hv _].
  assert (h_magic zero_page = 0) as E by (with_strategy transparent [zero_page] reflexivity). rewrite E in Hv. lia.
Qed.
Lemma last_page_app ps p : last_page (ps ++ [p]) = p.
Proof. apply List.last_last. Qed.
Lemma segment_pos V no ps stop q : segment V no ps stop -> q ∈ ps -> 0 < q /\ heap_page (V q).
Proof.
  revert no; induction ps as [|p ps IH]; intros no; cbn [segment]; [by intros _ ?%elem_of_nil|].
  intros (-> & Hp & Hh & Hs) [->|Hq]%elem_of_cons; [done|]. by apply (IH _ Hs).
Qed.
Lemma skip_zero_ok fid last n e : 0 <= last <= Z.of_nat n -> pool_ok ∅ (pool e) ->
  (forall no, last < no -> disk_page (pool e) (mkPid fid no) = zero_page) ->
  (0 < last -> disk_page (pool e) (mkPid fid last) <> zero_page) ->
  exists s', skip_zero n fid e = (Ok last, set_pool s' e) /\ pool_ok ∅ s' /\ evolves no_page no_page (pool e) s' /\ pins_eq (pool e) s'.
Proof.
  revert e. induction n as [|n IH]; intros e Hl Hok Hz Hnz.
  - exists (pool e). replace last with 0 by lia. split; [by destruct e|]. split_and!; [done|apply evolves_refl|apply pins_eq_refl].
  - cbn [skip_zero]. destruct (touch_session ∅ (pool e) fid (Z.of_nat (S n)) Hok) as (H1 & H2 & H3 & H4).
    set (s1 := set_disk (read_page (disk (pool e)) fid (Z.of_nat (S n))).1 (pool e)) in *.
    assert (stored (fun s => let '(d, b) := read_page (disk s) fid (Z.of_nat (S n)) in (Ok b, set_disk d s)) e =
      (Ok (disk_page (pool e) (mkPid fid (Z.of_nat (S n)))), set_pool s1 e)) as Hr.
    { apply stored_ok. unfold disk_page. rewrite <- read_page_dpage. cbn [file_id page_no]. unfold s1. by destruct (read_page _ _ _). }
    run Hr. unfold page_all_zero. destruct (decide (last = Z.of_nat (S n))) as [->|Hne].
    + rewrite bool_decide_false by (apply Hnz; lia). by exists s1.
    + rewrite Hz by lia. rewrite bool_decide_true by done.
      destruct (IH (set_pool s1 e)) as (s' & I1 & I2 & I3 & I4); [lia|done| | |].
      * intros no Hno. cbn [pool set_pool]. rewrite H4 by (cbn; lia). by apply Hz.
      * intros H0. cbn [pool set_pool]. rewrite H4 by (cbn; lia). by apply Hnz.
      * exists s'. split_and!; [exact I1|done|by eapply evolves_trans|by eapply pins_eq_trans].
Qed.

(** ** Changing one page of the chain *)
Lemma sorted_snoc ps t : StronglySorted Z.lt (ps ++ [t]) <-> StronglySorted Z.lt ps /\ Forall (fun q => q < t) ps.
Proof.
  induction ps as [|p ps IH]; cbn.
  - split; [by split; constructor|intros _; repeat constructor].
  - split.
    + intros [H1 H2]%StronglySorted_inv. apply IH in H1 as [H3 H4]. apply Forall_app in H2 as [H5 H6%Forall_cons_1].
      split; constructor; (done || apply H6).
    + intros [[H1 H2]%StronglySorted_inv [H3 H4]%Forall_cons_1]. constructor; [by apply IH|]. apply Forall_app. split; [done|]. by constructor.
Qed.
Lemma sorted_last ps q : StronglySorted Z.lt ps -> q ∈ ps -> q <= last_page ps.
Proof.
  intros Hs Hq. destruct ps as [|t ps' _] using rev_ind; [by apply elem_of_nil in Hq|]. rewrite last_page_app.
  apply sorted_snoc in Hs as [_ Hf]. apply elem_of_app in Hq as [Hq|Hq%list_elem_of_singleton]; [|lia].
  rewrite list.Forall_forall in Hf. specialize (Hf q Hq). lia.
Qed.
Lemma segment_last V V' no ps t stop x : segment V no (ps ++ [t]) stop -> t ∉ ps -> (forall q, q ∈ ps -> V' q = V q) ->
  heap_page (V' t) -> h_next_page (V' t) = x -> segment V' no (ps ++ [t]) x.
Proof.
  intros Hs Ht Hv Hp Hn. apply segment_app in Hs as (m & H1 & H2). apply segment_app. exists m. split; [by eapply segment_ext|].
  cbn [segment] in *. destruct H2 as (-> & ? & _). by split_and!.
Qed.
Lemma heap_page_len p : heap_page p -> zlen p = PAGE_SIZE.
Proof. intros [[] _]. done. Qed.
Lemma heap_page_magic p : heap_page p -> h_magic p = MAGIC_HEAP.
Proof. intros [_ H]. unfold page_valid in H. apply andb_true_iff in H as [H _]. lia. Qed.
(** [header(p)->next_page = no] and the checksum. *)
Lemma relink_reads p no : zlen p = PAGE_SIZE -> Forall byte_ok p -> 0 <= no < 2 ^ 32 -> let q := seal (set_next_page no p) in
  zlen q = PAGE_SIZE /\ Forall byte_ok q /\ h_magic q = h_magic p /\ h_next_page q = no /\ h_slot_count q = h_slot_count p /\
  h_free_begin q = h_free_begin p /\ h_free_end q = h_free_end p /\ (forall off n, 24 <= off -> slice off n q = slice off n p) /\
  page_valid q (h_magic p) = true.
Proof.
  intros Hl Hb Hn q. unfold PAGE_SIZE in Hl. assert (zlen (set_next_page no p) = 4096) as Hz by (punfold; plen).
  destruct (seal_reads (set_next_page no p) ltac:(lia)) as (S1 & _ & S3 & S4 & S5 & S6 & S7 & S8). unfold q.
  rewrite S1, S3, S4, S5, S6, S7. split_and!.
  - by rewrite Hz.
  - apply seal_bytes_ok. unfold set_next_page. auto with buf.
  - punfold. by getput.
  - punfold. by getput.
  - punfold. by getput.
  - punfold. by getput.
  - punfold. by getput.
  - intros off n Ho. rewrite S8 by done. punfold. by getput.
  - apply page_valid_seal; [lia|]. punfold. by getput.
Qed.
Lemma heap_wf_ext p q : heap_wf p -> zlen q = PAGE_SIZE -> Forall byte_ok q -> h_slot_count q = h_slot_count p ->
  h_free_begin q = h_free_begin p -> h_free_end q = h_free_end p -> (forall off n, 24 <= off -> slice off n q = slice off n p) ->
  heap_wf q /\ heap_rows q = heap_rows p.
Proof.
  intros Hwf Hl Hb Hc Hfb Hfe Hs. pose proof (heap_bounds p Hwf) as (_ & Hn & _).
  assert (forall i, 0 <= i < h_slot_count p -> slot_off q i = slot_off p i /\ slot_len q i = slot_len p i) as Hso.
  { intros i Hi. apply slot_reads_slice; [unfold slot_at, PAGE_SIZE, SLOT_SIZE; lia|]. apply Hs. unfold slot_at, PAGE_SIZE, SLOT_SIZE. lia. }
  assert (forall i, 0 <= i < h_slot_count p -> slot_tombstone q i = slot_tombstone p i) as Hto.
  { intros i Hi. apply tombstone_reads; by apply Hso. }
  pose proof Hwf as [_ _ We Wb Ws Wo]. split.
  - split; rewrite ?Hc, ?Hfb, ?Hfe; try done.
    + intros i Hi. rewrite Hto by done. destruct (Hso i Hi) as [-> ->]. auto.
    + intros i j Hij Hj. rewrite !Hto by lia. destruct (Hso i ltac:(lia)) as [-> ->]. destruct (Hso j ltac:(lia)) as [-> _]. auto.
  - apply heap_rows_eq; [lia|rewrite Hc; unfold zlen; rewrite length_heap_rows; lia|]. intros i Hi. rewrite Hc in Hi.
    rewrite heap_rows_lookup, decide_True by lia. f_equal. symmetry. apply slot_record_ext; [apply Hso; lia..|].
    intros Ht. apply Hs. destruct (Ws i Hi Ht) as [H24 _]. unfold PAGE_HEADER_SIZE in H24. lia.
Qed.
Lemma relink_heap p no : heap_page p -> 0 <= no < 2 ^ 32 -> let q := seal (set_next_page no p) in
  heap_page q /\ heap_rows q = heap_rows p /\ h_next_page q = no /\ zlen q = PAGE_SIZE.
Proof.
  intros Hp Hn q. pose proof Hp as [Hwf Hv]. destruct (relink_reads p no (hw_len _ Hwf) (hw_bytes _ Hwf) Hn) as (R1 & R2 & R3 & R4 & R5 & R6 & R7 & R8 & R9).
  rewrite (heap_page_magic p Hp) in R9. destruct (heap_wf_ext p q Hwf R1 R2 R5 R6 R7 R8) as [W1 W2]. by split_and!.
Qed.
Lemma fresh_heap : heap_page (init_page MAGIC_HEAP PtHeap) /\ heap_rows (init_page MAGIC_HEAP PtHeap) = [] /\
  h_next_page (init_page MAGIC_HEAP PtHeap) = 0 /\ h_free_end (init_page MAGIC_HEAP PtHeap) - h_free_begin (init_page MAGIC_HEAP PtHeap) = 4072.
Proof. destruct (init_page_wf MAGIC_HEAP PtHeap) as (H1 & H2 & H3 & H4 & H5); [unfold MAGIC_HEAP; lia|]. exact (conj (conj H1 H3) (conj H2 (conj H4 H5))). Qed.
Lemma heap_page_append p rec : heap_page p -> Forall byte_ok rec -> zlen rec + 4 <= h_free_end p - h_free_begin p ->
  exists p' slot, heap_append p rec = Some (p', slot) /\ heap_page p' /\ heap_rows p' = heap_rows p ++ [Some rec] /\ h_next_page p' = h_next_page p /\
    slot = zlen (heap_rows p).
Proof.
  intros Hp Hr Hf. pose proof (heap_append_ok p rec (proj1 Hp) Hr) as H. destruct (heap_append p rec) as [[p' slot]|].
  - destruct H as (_ & -> & H1 & H2 & H3 & H4 & _). rewrite (heap_page_magic p Hp) in H3. exists p', (h_slot_count p). split_and!; try done.
    pose proof (heap_bounds p (proj1 Hp)). unfold zlen. rewrite length_heap_rows. lia.
  - unfold SLOT_SIZE in H. lia.
Qed.
Lemma page_rows_append fid no p p' rec : heap_rows p' = heap_rows p ++ [Some rec] ->
  page_rows fid no p' = page_rows fid no p ++ [(mkRef (mkPid fid no) (zlen (heap_rows p)), rec)].
Proof. intros E. unfold page_rows. by rewrite E, rows_from_app. Qed.

(** ** The engine on one table *)
Section within.
Context (e : Engine) (fid N : Z) (Hwi : within (pool e) fid N) (HN : 0 <= N).
Lemma in_file no : 0 <= no -> page_of e fid no <> zero_page -> no < N.
Proof using Hwi HN.
  intros Hno Hz. destruct (Z.lt_ge_cases no N) as [H|H]; [done|]. destruct Hz. by apply (beyond_zero (pool e) fid N (mkPid fid no) Hwi).
Qed.
Lemma table_page ps no : table_shape e fid ps -> no ∈ ps -> 0 < no < N /\ heap_page (page_of e fid no).
Proof using Hwi HN.
  intros Hs Hin. destruct (segment_pos _ _ _ _ _ (tb_chain _ _ _ Hs) Hin) as [Hp Hh]. split; [|done]. split; [done|].
  apply in_file; [lia|]. by apply (valid_not_zero _ MAGIC_HEAP), Hh.
Qed.
Lemma header_in_file ps : table_shape e fid ps -> 0 < N.
Proof using Hwi HN. intros Hs. apply in_file; [done|]. by apply (valid_not_zero _ MAGIC_FILE_HEADER), Hs. Qed.
End within.
Section table.
Context (e : Engine) (fid N : Z) (Henv : row_env e fid N) (HN : 0 <= N).
Lemma check_txn_ok : check_txn fid e = (Ok tt, e).
Proof using Henv.
  destruct (re_ctx _ _ _ Henv) as (c & Hc & Hd). unfold check_txn. rewrite run_gets, Hc.
  destruct (existsb (Z.eqb fid) (pending_drops c)) eqn:E; [|done]. apply existsb_exists in E as (x & Hx & E). destruct Hd.
  apply Z.eqb_eq in E. subst x. by apply list_elem_of_In.
Qed.
Lemma track_run t : exists s', track_tail fid t e = (Ok tt, set_tails (<[fid := t]> (tail_pages e)) (set_pool s' e)) /\ pool_ok ∅ s' /\
  evolves no_page no_page (pool e) s' /\ pins_eq (pool e) s'.
Proof using Henv.
  destruct (re_ctx _ _ _ Henv) as (c & Hc & Hd). eexists. split; [done|]. split; [by destruct Henv as [[]]; split|]. split; [|done].
  split; try done.
  - intros p _. unfold rolled, undo_list. cbn [ctx set_ctx]. rewrite Hc. done.
  - by left.
  - unfold undo_ok, undo_list. cbn [ctx set_ctx]. by rewrite Hc.
  - intros _. cbn [ctx set_ctx]. rewrite Hc. by eexists.
  - cbn [ctx set_ctx]. by rewrite Hc.
Qed.
End table.
Lemma tail_in (ps : list Z) t : t ∈ ps ++ [t].
Proof. apply elem_of_app. right. by left. Qed.
(** A page of the chain takes new contents that keep its link. *)
Lemma segment_update V V' no ps stop t : segment V no ps stop -> (forall q, q ∈ ps -> q <> t -> V' q = V q) -> heap_page (V' t) ->
  h_next_page (V' t) = h_next_page (V t) -> segment V' no ps stop.
Proof.
  intros Hs Hq Ht Hn. revert no Hs. induction ps as [|p ps IH]; intros no; cbn [segment]; [done|]. intros (-> & Hp & Hh & Hs).
  assert (segment V' (h_next_page (V p)) ps stop) as IH' by (apply IH; [|done]; intros q Hin; apply Hq; by right).
  destruct (decide (p = t)) as [->|Hne]; [by rewrite Hn|]. rewrite (Hq p) by (done || by left). done.
Qed.
Lemma shape_update e e' fid ps t : table_shape e fid ps -> t ∈ ps -> (forall q, 0 <= q -> q <> t -> page_of e' fid q = page_of e fid q) ->
  heap_page (page_of e' fid t) -> h_next_page (page_of e' fid t) = h_next_page (page_of e fid t) -> table_shape e' fid ps.
Proof.
  intros Hs Hin Hq Hp Hn. pose proof Hs as [T1 T2 T3 T4 T5]. destruct (segment_pos _ _ _ _ t T3 Hin) as [Ht _]. pose proof (sorted_last ps t T4 Hin).
  assert (page_of e' fid 0 = page_of e fid 0) as H0 by (apply Hq; lia). split; rewrite ?H0; try done.
  - eapply segment_update; try done. intros q Hqs Hne. apply Hq; [|done]. destruct (segment_pos _ _ _ _ q T3 Hqs). lia.
  - intros no Hno. rewrite Hq by lia. by apply T5.
Qed.
(** The last page of the chain takes new contents. *)
Lemma shape_replace e e' fid ps t p' : table_shape e fid (ps ++ [t]) -> (forall q, 0 <= q -> q <> t -> page_of e' fid q = page_of e fid q) ->
  page_of e' fid t = p' -> heap_page p' -> h_next_page p' = h_next_page (page_of e fid t) ->
  table_shape e' fid (ps ++ [t]) /\ rows_in e' fid (ps ++ [t]) = rows_in e fid ps ++ page_rows fid t p'.
Proof.
  intros Hs Hq <- Hp Hn. pose proof (tb_sorted _ _ _ Hs) as [_ Hlt]%sorted_snoc. rewrite list.Forall_forall in Hlt.
  split; [apply (shape_update e e' fid _ t Hs); try done; by apply tail_in|].
  unfold rows_in. rewrite table_rows_app. f_equal; [|unfold table_rows; cbn; by rewrite app_nil_r].
  apply table_rows_ext. intros q Hqs. specialize (Hlt q Hqs). apply Hq; [|lia].
  destruct (segment_pos _ _ _ _ q (tb_chain _ _ _ Hs)); [apply elem_of_app; by left|lia].
Qed.

(** A fresh page goes behind the last page of the chain. *)
Lemma shape_extend e e' fid ps t no p0 : table_shape e fid (ps ++ [t]) -> t < no < 2 ^ 32 ->
  (forall q, 0 <= q -> q <> t -> q <> no -> page_of e' fid q = page_of e fid q) ->
  page_of e' fid t = seal (set_next_page no (page_of e fid t)) -> page_of e' fid no = p0 ->
  heap_page p0 -> heap_rows p0 = [] -> h_next_page p0 = 0 ->
  table_shape e' fid ((ps ++ [t]) ++ [no]) /\ rows_in e' fid ((ps ++ [t]) ++ [no]) = rows_in e fid (ps ++ [t]).
Proof.
  intros [T1 T2 T3 T4 T5] Hno Hq Ht Hp Hp0 Hr Hn. pose proof T4 as [_ Hlt]%sorted_snoc. rewrite list.Forall_forall in Hlt.
  assert (t ∈ ps ++ [t]) as Hin by (apply elem_of_app; right; by left). destruct (segment_pos _ _ _ _ _ T3 Hin) as [Ht0 Hh].
  destruct (relink_heap _ no Hh ltac:(lia)) as (L1 & L2 & L3 & _). rewrite <- Ht in L1, L2, L3.
  assert (t ∉ ps) as Hnot by (intros H; specialize (Hlt t H); lia).
  assert (forall q, q ∈ ps -> page_of e' fid q = page_of e fid q) as Hps.
  { intros q Hqs. assert (q ∈ ps ++ [t]) as H by (apply elem_of_app; by left). destruct (segment_pos _ _ _ _ _ T3 H). specialize (Hlt q Hqs).
    apply Hq; lia. }
  assert (page_of e' fid 0 = page_of e fid 0) as H0 by (apply Hq; lia).
  split.
  - split; rewrite ?H0; try done.
    + apply segment_app. exists no. split; [by eapply segment_last|]. cbn [segment]. rewrite Hp. split_and!; try done. lia.
    + apply sorted_snoc. split; [done|]. apply Forall_app. split; [|by constructor; [lia|]]. apply list.Forall_forall. intros q Hqs. specialize (Hlt q Hqs). lia.
    + intros q. rewrite last_page_app. intros Hqn. rewrite Hq by lia. apply T5. rewrite last_page_app. lia.
  - unfold rows_in. rewrite !table_rows_app. unfold table_rows. cbn. rewrite !app_nil_r. unfold page_rows. rewrite Hp, Hr, L2. cbn. rewrite app_nil_r.
    f_equal. f_equal. apply list_fmap_ext. intros k q Hqs%list_elem_of_lookup_2. by rewrite Hps.
Qed.

(** The steps of one call of the pool, on a table's file. *)
Lemma step_of fid N (T U : PageId -> Prop) e s' : evolves T U (pool e) s' -> (forall p, T p -> file_id p = fid) ->
  (forall p, U p -> file_id p = fid /\ page_no p < N) -> pins_eq (pool e) s' -> pool_ok ∅ s' -> row_step fid N e (set_pool s' e).
Proof. intros He Ht Hu Hp Hk. split; try done. by eapply evolves_weaken. Qed.
Lemma tail_step fid N m e s' : row_step fid N e (set_pool s' e) -> (forall g, g <> fid -> m !! g = tail_pages e !! g) ->
  row_step fid N e (set_tails m (set_pool s' e)).
Proof. intros [] Hm. by split. Qed.
(** What a step does to the slots of the table's pages: nothing, or one more at the end of one page. *)
Definition same_slots (fid : Z) (e e' : Engine) : Prop := forall q, 0 < q -> heap_rows (page_of e' fid q) = heap_rows (page_of e fid q).
Definition appended (fid : Z) (e e' : Engine) (ref : RowRef) (rec : bytes) : Prop := exists no, 0 < no /\
  ref = mkRef (mkPid fid no) (zlen (heap_rows (page_of e fid no))) /\ heap_rows (page_of e' fid no) = heap_rows (page_of e fid no) ++ [Some rec] /\
  forall q, 0 < q -> q <> no -> heap_rows (page_of e' fid q) = heap_rows (page_of e fid q).
Lemma same_slots_view fid e e' : (forall q, 0 < q -> page_of e' fid q = page_of e fid q) -> same_slots fid e e'.
Proof. intros H q Hq. by rewrite H. Qed.
Lemma same_slots_trans fid e1 e2 e3 : same_slots fid e1 e2 -> same_slots fid e2 e3 -> same_slots fid e1 e3.
Proof. intros H1 H2 q Hq. rewrite H2 by done. by apply H1. Qed.
Lemma appended_after fid e1 e2 e3 ref rec : same_slots fid e1 e2 -> appended fid e2 e3 ref rec -> appended fid e1 e3 ref rec.
Proof.
  intros H (no & Hno & -> & H1 & H2). exists no. rewrite <- (H no Hno). split; [done|]. split; [done|]. split; [done|]. intros q Hq Hne. rewrite H2 by done. by apply H.
Qed.
Lemma zero_page_rows : heap_rows zero_page = [].
Proof. unfold heap_rows. assert (h_slot_count zero_page = 0) as -> by (with_strategy transparent [zero_page] reflexivity). done. Qed.
Section append.
Context (e : Engine) (fid N : Z) (Henv : row_env e fid N) (HN : 0 <= N) (rec : bytes) (Hrec : Forall byte_ok rec).
Context (ps : list Z) (t : Z) (Hs : table_shape e fid (ps ++ [t])).
Notation pg := (page_of e fid t).
(** The last page has room. *)
Lemma append_accept n : zlen rec + 4 <= h_free_end pg - h_free_begin pg ->
  exists e', append_loop (S n) fid rec t e = (Ok (mkRef (mkPid fid t) (zlen (heap_rows pg))), e') /\ table_shape e' fid (ps ++ [t]) /\
    tail_pages e' = <[fid := t]> (tail_pages e) /\
    rows_in e' fid (ps ++ [t]) = rows_in e fid (ps ++ [t]) ++ [(mkRef (mkPid fid t) (zlen (heap_rows pg)), rec)] /\
    row_step fid N e e' /\ page_of e' fid 0 = page_of e fid 0 /\ appended fid e e' (mkRef (mkPid fid t) (zlen (heap_rows pg))) rec.
Proof using All.
  intros Hfit. destruct (table_page e fid N (re_within _ _ _ Henv) HN _ t Hs (tail_in ps t)) as [Ht Hh].
  destruct (heap_page_append pg rec Hh Hrec Hfit) as (p' & slot & Ha & A1 & A2 & A3 & ->).
  pose proof Henv as [Hok Hatt Hctx Hpins Hwi].
  cbn [append_loop]. destruct (read_run e Hok (mkPid fid t) MAGIC_HEAP) as (i & s1 & R1 & R5 & R2 & R3 & R4); [cbn; lia|lia|apply Hh|].
  run R1. run R5. change (view (pool e) (mkPid fid t)) with pg. rewrite Ha.
  destruct (finish_run (set_pool s1 e) R2 (pool e) (mkPid fid t) i p' Hok R4)
    as (s2 & F1 & F2 & F3 & F4 & F5 & _); [by rewrite <- Hatt; apply R3|apply (ev_txn _ _ _ _ R3), (row_env_txn e fid N Henv)|by apply heap_page_len|].
  rewrite F1. clear F1. rewrite set_pool_twice.
  assert (row_step fid N e (set_pool s2 e)) as Hst.
  { apply (step_of fid N (eq (mkPid fid t)) (eq (mkPid fid t))); [|by intros p <-|intros p <-; cbn; split; [done|lia]|done|done].
    eapply evolves_trans; [eapply (evolves_weaken _ _ _ (eq (mkPid fid t)) _ _ R3); [by intros ? []|done]|].
    eapply (evolves_weaken _ _ _ (eq (mkPid fid t)) _ _ F3); [done|by intros ? []]. }
  destruct (track_run (set_pool s2 e) fid N (row_env_step fid N N _ _ ltac:(lia) Henv Hst) t) as (s3 & G1 & G2 & G3 & G4).
  run G1. rewrite set_pool_twice. cbn [tail_pages set_pool].
  assert (row_step fid N e (set_pool s3 e)) as Hst3.
  { eapply row_step_trans; [exact Hst|]. rewrite <- (set_pool_twice s3 s2 e). by eapply (step_of fid N no_page no_page); [exact G3|intros ? []|intros ? []| |]. }
  assert (forall q, 0 <= q -> view s3 (mkPid fid q) = view s2 (mkPid fid q)) as G5 by (intros q Hq; apply (ev_view _ _ _ _ G3); [done|by intros []]).
  eexists. split; [done|]. set (e' := set_tails _ _).
  assert (forall q, 0 <= q -> q <> t -> page_of e' fid q = page_of e fid q) as V.
  { intros q Hq Hne. unfold page_of, e'. cbn [pool set_tails set_pool]. rewrite G5 by done. rewrite (ev_view _ _ _ _ F3) by (cbn; lia || ne_page).
    by rewrite (ev_view _ _ _ _ R3) by (cbn; lia || by intros []). }
  assert (page_of e' fid t = p') as Vt by (unfold page_of, e'; cbn [pool set_tails set_pool]; by rewrite G5 by lia).
  destruct (shape_replace e e' fid ps t p' Hs V Vt A1 A3) as [S1 S2].
  split_and!; [done|done| | | |].
  - rewrite S2. unfold rows_in. rewrite table_rows_app, <- app_assoc. f_equal. rewrite (page_rows_append fid t pg p' rec A2).
    unfold table_rows. cbn. by rewrite app_nil_r.
  - apply tail_step; [done|]. intros g Hg. by rewrite lookup_insert_ne.
  - apply V; lia.
  - exists t. split; [lia|]. split; [done|]. split; [by rewrite Vt|]. intros q Hq Hne. by rewrite V by lia.
Qed.
(** The last page has no room: a new page is linked behind it. *)
Lemma append_grow n : N < 2 ^ 32 -> heap_append pg rec = None ->
  exists e' no, append_loop (S n) fid rec t e = append_loop n fid rec no e' /\ table_shape e' fid ((ps ++ [t]) ++ [no]) /\
    rows_in e' fid ((ps ++ [t]) ++ [no]) = rows_in e fid (ps ++ [t]) /\ page_of e' fid no = init_page MAGIC_HEAP PtHeap /\
    tail_pages e' = tail_pages e /\ row_step fid (N + 1) e e' /\ page_of e' fid 0 = page_of e fid 0 /\ same_slots fid e e'.
Proof using All.
  intros HN32 Ha. destruct (table_page e fid N (re_within _ _ _ Henv) HN _ t Hs (tail_in ps t)) as [Ht Hh].
  destruct fresh_heap as (Z1 & Z2 & Z3 & _). pose proof Henv as [Hok Hatt Hctx Hpins Hwi].
  cbn [append_loop]. destruct (read_run e Hok (mkPid fid t) MAGIC_HEAP) as (i & s1 & R1 & R5 & R2 & R3 & R4); [cbn; lia|lia|apply Hh|].
  run R1. run R5. change (view (pool e) (mkPid fid t)) with pg. rewrite Ha. rewrite run_gets. cbn [pool set_pool].
  assert (within s1 fid N) as Hw1.
  { apply (ev_within _ _ _ _ R3); [lia| |done]. intros p <- _. cbn. lia. }
  pose proof (page_count_within s1 fid N Hw1 ltac:(lia) ltac:(lia)) as Hpc. rewrite (wrap_small 32) by lia.
  set (no := Z.max (page_count (disk s1) fid) (t + 1)) in *. assert (t + 1 <= no <= N) as Hno by lia.
  assert (forall q, 0 <= q -> view s1 (mkPid fid q) = page_of e fid q) as V1 by (intros q Hq; apply (ev_view _ _ _ _ R3); [done|by intros []]).
  destruct (fresh_run (set_pool s1 e) R2 (mkPid fid no) _ fresh_len) as (s3 & F1 & F2 & F3 & F4 & F5).
  { cbn. lia. }
  { cbn [pool set_pool]. rewrite (ho_pins _ _ _ _ R4). unfold zlen in *. rewrite (ev_len _ _ _ _ R3). lia. }
  { cbn [pool set_pool]. rewrite V1 by lia. apply (tb_zero _ _ _ Hs). rewrite last_page_app. lia. }
  { cbn [pool set_pool]. by rewrite (ev_att _ _ _ _ R3). }
  { apply (ev_txn _ _ _ _ R3), (row_env_txn e fid N Henv). }
  rewrite F1. clear F1. rewrite set_pool_twice. cbn [pool set_pool] in F3, F4.
  pose proof (holds_eq _ _ _ _ _ R4 F4) as R4'.
  assert (forall q, 0 <= q -> q <> no -> view s3 (mkPid fid q) = page_of e fid q) as V3.
  { intros q Hq Hne. rewrite (ev_view _ _ _ _ F3) by (cbn; lia || ne_page). by apply V1. }
  assert (bytes_of i (set_pool s3 e) = (Ok pg, set_pool s3 e)) as B1.
  { unfold bytes_of, gets. cbn [pool set_pool]. rewrite (data_view ∅ s3 i _ _ F2 (ho_pin _ _ _ _ R4')). by rewrite V3 by lia. }
  run B1. destruct (relink_heap pg no Hh ltac:(lia)) as (_ & L2 & _ & L4).
  destruct (finish_run (set_pool s3 e) F2 (pool e) (mkPid fid t) i (seal (set_next_page no pg)) Hok R4') as (s4 & G1 & G2 & G3 & G4 & G5 & _).
  { cbn [pool set_pool]. by rewrite (ev_att _ _ _ _ F3), (ev_att _ _ _ _ R3). }
  { apply (ev_txn _ _ _ _ F3), (ev_txn _ _ _ _ R3), (row_env_txn e fid N Henv). }
  { exact L4. }
  rewrite G1. clear G1. rewrite set_pool_twice. exists (set_pool s4 e), no. split; [done|].
  assert (forall q, 0 <= q -> q <> t -> q <> no -> page_of (set_pool s4 e) fid q = page_of e fid q) as V4.
  { intros q Hq Hne Hne'. unfold page_of. cbn [pool set_pool]. rewrite (ev_view _ _ _ _ G3) by (cbn; lia || ne_page). by apply V3. }
  destruct (shape_extend e (set_pool s4 e) fid ps t no (init_page MAGIC_HEAP PtHeap) Hs) as [S1 S2]; [lia|exact V4|exact G5| |exact Z1|exact Z2|exact Z3|].
  { unfold page_of. cbn [pool set_pool]. rewrite (ev_view _ _ _ _ G3) by (cbn; lia || ne_page). exact F5. }
  assert (page_of (set_pool s4 e) fid no = init_page MAGIC_HEAP PtHeap) as Vno.
  { unfold page_of. cbn [pool set_pool]. rewrite (ev_view _ _ _ _ G3) by (cbn; lia || ne_page). exact F5. }
  split; [exact S1|]. split; [exact S2|]. split; [exact Vno|]. split; [done|]. split; [|split; [apply V4; lia|]].
  2: { intros q Hq. destruct (decide (q = t)) as [->|Hne]; [by rewrite (G5 : page_of (set_pool s4 e) fid t = _), L2|].
    destruct (decide (q = no)) as [->|Hne']; [|by rewrite V4 by lia]. rewrite Vno, Z2. rewrite (tb_zero _ _ _ Hs) by (rewrite last_page_app; lia).
    by rewrite zero_page_rows. }
  apply (step_of fid (N + 1) (fun p => file_id p = fid) (fun p => file_id p = fid /\ page_no p < N + 1)); [|done|done|done|done].
  eapply evolves_trans; [eapply (evolves_weaken _ _ _ _ _ _ R3)|eapply evolves_trans; [eapply (evolves_weaken _ _ _ _ _ _ F3)|eapply (evolves_weaken _ _ _ _ _ _ G3)]];
    try (by intros ? []); intros p <-; cbn; lia || (split; [done|lia]).
Qed.
End append.

(** ** Insertion *)
(** Two rounds of the loop are enough: a fresh page takes every record that is not too long. *)
Lemma append_ok e fid N rec ps t : row_env e fid N -> 0 <= N -> N + 1 < 2 ^ 32 -> Forall byte_ok rec -> zlen rec <= MAX_RECORD_LEN ->
  table_shape e fid (ps ++ [t]) ->
  exists e' ps' ref, append_loop 2 fid rec t e = (Ok ref, e') /\ table_ok e' fid ps' /\ rows_in e' fid ps' = rows_in e fid (ps ++ [t]) ++ [(ref, rec)] /\
    row_step fid (N + 1) e e' /\ page_of e' fid 0 = page_of e fid 0 /\ appended fid e e' ref rec /\ ps ++ [t] ⊆ ps'.
Proof.
  intros Henv HN HN32 Hrec Hlen Hs. unfold MAX_RECORD_LEN, PAGE_HEADER_SIZE, SLOT_SIZE in Hlen.
  destruct (table_page e fid N (re_within _ _ _ Henv) HN _ t Hs (tail_in ps t)) as [Ht Hh]. pose proof (heap_append_ok _ rec (proj1 Hh) Hrec) as Ha.
  destruct (heap_append (page_of e fid t) rec) as [[p' slot]|] eqn:E.
  - destruct (append_accept e fid N Henv HN rec Hrec ps t Hs 1) as (e' & A1 & A2 & A3 & A4 & A5 & A6 & A7); [unfold SLOT_SIZE in Ha; lia|].
    exists e', (ps ++ [t]), (mkRef (mkPid fid t) (zlen (heap_rows (page_of e fid t)))). split_and!; try done; [|by apply (row_step_mono fid N); [lia|]].
    split; [done|]. unfold tail_found. rewrite A3, lookup_insert_eq. split; [by destruct ps|]. by rewrite last_page_app.
  - destruct (append_grow e fid N Henv HN rec Hrec ps t Hs 1) as (e1 & no & G1 & G2 & G3 & G4 & G5 & G6 & G7 & G8); [lia|done|].
    destruct fresh_heap as (_ & _ & _ & Z4).
    destruct (append_accept e1 fid (N + 1) (row_env_step fid N (N + 1) e e1 ltac:(lia) Henv G6) ltac:(lia) rec Hrec (ps ++ [t]) no G2 0)
      as (e' & A1 & A2 & A3 & A4 & A5 & A6 & A7); [rewrite G4; lia|].
    eexists e', ((ps ++ [t]) ++ [no]), _. split; [rewrite G1; exact A1|]. split.
    { split; [done|]. unfold tail_found. rewrite A3, lookup_insert_eq. split; [by destruct ps|]. by rewrite last_page_app. }
    split; [rewrite A4; by rewrite G3|]. split; [by eapply row_step_trans|]. split; [by rewrite A6|]. split; [by eapply appended_after|].
    intros q Hq. apply elem_of_app. by left.
Qed.

Lemma last_page_pos V no ps stop : segment V no ps stop -> 0 <= last_page ps /\ (last_page ps = 0 <-> ps = []).
Proof.
  intros Hs. destruct ps as [|t ps' _] using rev_ind; [done|]. rewrite last_page_app.
  destruct (segment_pos _ _ _ _ t Hs) as [H _]; [apply elem_of_app; right; by left|]. split; [lia|]. split; [lia|]. by destruct ps'.
Qed.
Lemma shape_last e fid ps : table_shape e fid ps -> 0 <= last_page ps /\ (last_page ps = 0 <-> ps = []).
Proof. intros Hs. eapply last_page_pos, Hs. Qed.
(** The header page takes new contents that keep its link. *)
Lemma shape_header e e' fid ps p' : table_shape e fid ps -> (forall q, 0 < q -> page_of e' fid q = page_of e fid q) ->
  page_of e' fid 0 = p' -> page_valid p' MAGIC_FILE_HEADER = true -> Forall byte_ok p' -> h_next_page p' = h_next_page (page_of e fid 0) ->
  table_shape e' fid ps /\ rows_in e' fid ps = rows_in e fid ps.
Proof.
  intros Hs Hq H0 Hv Hb Hn. pose proof Hs as [T1 T2 T3 T4 T5].
  assert (forall q, q ∈ ps -> page_of e' fid q = page_of e fid q) as Hps.
  { intros q Hqs. destruct (segment_pos _ _ _ _ _ T3 Hqs). apply Hq; lia. }
  split; [|by apply table_rows_ext]. split; rewrite ?H0; try done.
  - rewrite Hn. by eapply segment_ext.
  - intros no Hno. pose proof (shape_last _ _ _ Hs). rewrite Hq by lia. by apply T5.
Qed.
Lemma shape_same e e' fid ps : table_shape e fid ps -> (forall q, 0 <= q -> page_of e' fid q = page_of e fid q) ->
  table_shape e' fid ps /\ rows_in e' fid ps = rows_in e fid ps.
Proof. intros Hs Hq. eapply shape_header; try done; rewrite ?Hq by lia; try apply Hs; try done. intros q H. apply Hq. lia. Qed.
(** What is known of the last page survives what other pages go through. *)
Lemma tail_found_step e e' fid ps (T U : PageId -> Prop) : table_shape e fid ps -> tail_found e fid ps -> evolves T U (pool e) (pool e') ->
  (forall q, 0 < q -> ~ T (mkPid fid q)) -> tail_pages e' !! fid = tail_pages e !! fid -> tail_found e' fid ps.
Proof.
  intros Hs Hf Hev HT Et. unfold tail_found in *. rewrite Et. destruct (tail_pages e !! fid); [done|]. destruct Hf as (F1 & F2 & F4).
  pose proof (shape_last _ _ _ Hs) as [Hl Hnil]. split_and!.
  - intros no Hno. destruct (ev_disk _ _ _ _ Hev (mkPid fid no) ltac:(cbn; lia) (HT no ltac:(lia))) as [E|E]; rewrite E; [by apply F1|].
    rewrite (ev_view _ _ _ _ Hev) by (cbn; lia || apply HT; lia). by apply (tb_zero _ _ _ Hs).
  - intros Hne. assert (0 < last_page ps) as Hlp by (destruct (decide (last_page ps = 0)) as [E|E]; [by apply Hnil in E|lia]).
    destruct (ev_disk _ _ _ _ Hev (mkPid fid (last_page ps)) ltac:(cbn; lia) (HT _ Hlp)) as [E|E]; rewrite E; [by apply F2|].
    rewrite (ev_view _ _ _ _ Hev) by (cbn; lia || apply HT; lia). destruct ps as [|t ps' _] using rev_ind; [done|]. rewrite last_page_app.
    destruct (segment_pos _ _ _ _ t (tb_chain _ _ _ Hs) (tail_in ps' t)) as [_ [_ Hv]]. by apply (valid_not_zero _ MAGIC_HEAP).
  - by apply (ev_whole _ _ _ _ Hev).
Qed.
(** Tables do not interfere. *)
Lemma table_frame fid g N e e' ps : fid <> g -> table_ok e fid ps -> row_step g N e e' -> table_ok e' fid ps /\ rows_in e' fid ps = rows_in e fid ps.
Proof.
  intros Hne [Hs Hf] Hst. destruct (shape_same e e' fid ps Hs) as [S1 S2].
  { intros q Hq. apply (ev_view _ _ _ _ (rs_evolves _ _ _ _ Hst)); [done|]. intros E. by apply Hne. }
  split; [|done]. split; [done|]. eapply (tail_found_step e); [done|done|apply Hst|intros q _ E; by apply Hne|by apply (rs_tails _ _ _ _ Hst)].
Qed.

(** *** The header page *)
Lemma rowid_reads p id : zlen p = PAGE_SIZE -> Forall byte_ok p -> 0 <= id < 2 ^ 64 -> let q := seal (set_file_next_rowid id p) in
  zlen q = PAGE_SIZE /\ Forall byte_ok q /\ h_next_page q = h_next_page p /\ file_next_rowid q = id /\ page_valid q (h_magic p) = true.
Proof.
  intros Hl Hb Hid q. unfold PAGE_SIZE in Hl. assert (zlen (set_file_next_rowid id p) = 4096) as Hz by (punfold; plen).
  destruct (seal_reads (set_file_next_rowid id p) ltac:(lia)) as (S1 & _ & _ & _ & _ & S6 & S7 & S8). unfold q. rewrite S6, S7. split_and!.
  - by rewrite Hz.
  - apply seal_bytes_ok. unfold set_file_next_rowid. auto with buf.
  - punfold. by getput.
  - unfold file_next_rowid, get_u. rewrite S8 by (unfold PAGE_HEADER_SIZE; lia).
    change (get_u 8 PAGE_HEADER_SIZE (set_file_next_rowid id p) = id). punfold. by getput.
  - apply page_valid_seal; [lia|]. punfold. by getput.
Qed.
Lemma header_magic p : page_valid p MAGIC_FILE_HEADER = true -> h_magic p = MAGIC_FILE_HEADER.
Proof. intros H. unfold page_valid in H. apply andb_true_iff in H as [H _]. lia. Qed.
Section header.
Context (e : Engine) (fid N : Z) (Henv : row_env e fid N) (HN : 0 <= N) (ps : list Z) (Hs : table_shape e fid ps).
Lemma header_page : zlen (page_of e fid 0) = PAGE_SIZE /\ Forall byte_ok (page_of e fid 0) /\ page_valid (page_of e fid 0) MAGIC_FILE_HEADER = true.
Proof using Henv Hs. split_and!; try apply Hs. apply (view_len ∅); [apply Henv|done]. Qed.
(** The header page, pinned: unchanged so far, and it can take other contents. *)
Lemma header_run : exists i s1, stored (read (mkPid fid 0) MAGIC_FILE_HEADER) e = (Ok i, set_pool s1 e) /\
  bytes_of i (set_pool s1 e) = (Ok (page_of e fid 0), set_pool s1 e) /\
  pool_ok ∅ s1 /\ evolves no_page (eq (mkPid fid 0)) (pool e) s1 /\ holds (pool e) s1 (mkPid fid 0) i.
Proof using All.
  pose proof Henv as [Hok _ _ Hpins _]. destruct header_page as (_ & _ & Hv).
  by apply (read_run e Hok (mkPid fid 0) MAGIC_FILE_HEADER); [cbn; lia|lia|].
Qed.
Lemma header_finish M s1 s2 i b : N <= M -> evolves no_page (eq (mkPid fid 0)) (pool e) s1 -> pool_ok ∅ s2 -> evolves (fun p => file_id p = fid /\ 0 < page_no p) (fun p => file_id p = fid /\ page_no p < M) s1 s2 ->
  holds (pool e) s2 (mkPid fid 0) i -> zlen b = PAGE_SIZE ->
  exists s', (forall A (k : ST Engine A), (_ ← stored (poke i b); _ ← stored (mark_dirty i); _ ← stored (unpin i); k) (set_pool s2 e) = k (set_pool s' e)) /\
    row_step fid M e (set_pool s' e) /\ page_of (set_pool s' e) fid 0 = b /\ evolves (eq (mkPid fid 0)) no_page s2 s' /\
    (forall q, 0 < q -> page_of (set_pool s' e) fid q = view s2 (mkPid fid q)).
Proof using All.
  intros HM E1 K2 E2 Hh Hb. pose proof Henv as [Hok Hatt _ _ _].
  destruct (finish_run (set_pool s2 e) K2 (pool e) (mkPid fid 0) i b Hok Hh) as (s3 & F1 & F2 & F3 & F4 & F5 & _); [| |done|].
  { cbn [pool set_pool]. by rewrite (ev_att _ _ _ _ E2), (ev_att _ _ _ _ E1). }
  { apply (ev_txn _ _ _ _ E2), (ev_txn _ _ _ _ E1), (row_env_txn e fid N Henv). }
  pose proof (header_in_file e fid N (re_within _ _ _ Henv) HN ps Hs) as H0.
  exists s3. split; [intros A k; rewrite F1; done|]. split; [|split; [done|split; [done|]]].
  - apply (step_of fid M (fun p => file_id p = fid) (fun p => file_id p = fid /\ page_no p < M)); [|done|done|done|done].
    eapply evolves_trans; [eapply (evolves_weaken _ _ _ _ _ _ E1); [by intros ? []|intros p <-; cbn; done || (split; [done|lia])]|].
    eapply evolves_trans; [eapply (evolves_weaken _ _ _ _ _ _ E2); [by intros p []|done]|eapply (evolves_weaken _ _ _ _ _ _ F3); [by intros p <-|by intros ? []]].
  - intros q Hq. unfold page_of. cbn [pool set_pool]. by rewrite (ev_view _ _ _ _ F3) by (cbn; lia || ne_page).
Qed.
End header.

Lemma relink_header p no : zlen p = PAGE_SIZE -> Forall byte_ok p -> 0 <= no < 2 ^ 32 -> file_next_rowid (seal (set_next_page no p)) = file_next_rowid p.
Proof.
  intros Hl Hb Hn. destruct (relink_reads p no Hl Hb Hn) as (_ & _ & _ & _ & _ & _ & _ & R8 & _). unfold file_next_rowid, get_u.
  by rewrite R8 by (unfold PAGE_HEADER_SIZE; lia).
Qed.
(** An empty table gets its first page. *)
Lemma link_ok e fid N : row_env e fid N -> 0 <= N -> N < 2 ^ 32 -> table_shape e fid [] ->
  exists e', link_header_to_first_data_page fid e = (Ok 1, e') /\ table_shape e' fid [1] /\ rows_in e' fid [1] = [] /\ row_step fid (N + 1) e e' /\
    tail_pages e' = tail_pages e /\ file_next_rowid (page_of e' fid 0) = file_next_rowid (page_of e fid 0) /\ same_slots fid e e'.
Proof.
  intros Henv HN HN32 Hs. destruct (header_page e fid N Henv [] Hs) as (Hl & Hb & Hv). pose proof (header_in_file e fid N (re_within _ _ _ Henv) HN [] Hs) as H0.
  destruct fresh_heap as (Z1 & Z2 & Z3 & _).
  destruct (header_run e fid N Henv HN [] Hs) as (i & s1 & R1 & R2 & R3 & R4 & R5). unfold link_header_to_first_data_page. run R1.
  destruct (fresh_run (set_pool s1 e) R3 (mkPid fid 1) _ fresh_len) as (s3 & F1 & F2 & E13 & F4 & F5).
  { done. }
  { cbn [pool set_pool]. rewrite (ho_pins _ _ _ _ R5). unfold zlen. rewrite (ev_len _ _ _ _ R4). pose proof (re_pins _ _ _ Henv) as Hp. unfold zlen in Hp. lia. }
  { cbn [pool set_pool]. rewrite (ev_view _ _ _ _ R4) by (cbn; lia || by intros []). by apply (tb_zero _ _ _ Hs 1). }
  { cbn [pool set_pool]. rewrite (ev_att _ _ _ _ R4). apply Henv. }
  { apply (ev_txn _ _ _ _ R4), (row_env_txn e fid N Henv). }
  rewrite F1. clear F1. rewrite set_pool_twice. cbn [pool set_pool] in E13, F4.
  pose proof (holds_eq _ _ _ _ _ R5 F4) as R5'.
  assert (bytes_of i (set_pool s3 e) = (Ok (page_of e fid 0), set_pool s3 e)) as B1.
  { unfold bytes_of, gets. cbn [pool set_pool]. rewrite (data_view ∅ s3 i _ _ F2 (ho_pin _ _ _ _ R5')).
    rewrite (ev_view _ _ _ _ E13) by (cbn; lia || ne_page). by rewrite (ev_view _ _ _ _ R4) by (cbn; lia || by intros []). }
  run B1. destruct (relink_reads (page_of e fid 0) 1 Hl Hb ltac:(lia)) as (L1 & L2 & L3 & L4 & _ & _ & _ & _ & L9). rewrite (header_magic _ Hv) in L9.
  destruct (header_finish e fid N Henv HN [] Hs (N + 1) s1 s3 i (seal (set_next_page 1 (page_of e fid 0))) ltac:(lia) R4 F2) as (s4 & G1 & G2 & G3 & G4 & G5); [|exact R5'|exact L1|].
  { eapply (evolves_weaken _ _ _ _ _ _ E13); intros p <-; cbn; (split; [done|lia]). }
  rewrite G1. clear G1. exists (set_pool s4 e). split; [done|].
  assert (page_of (set_pool s4 e) fid 1 = init_page MAGIC_HEAP PtHeap) as P1 by (rewrite G5 by lia; exact F5).
  split; [|split_and!].
  - split; rewrite ?G3; [done|done| |by repeat constructor|].
    + rewrite L4. cbn [segment]. rewrite P1. split_and!; [done|lia|done|done].
    + intros q Hq. change (last_page [1]) with 1 in Hq. rewrite G5 by lia. rewrite (ev_view _ _ _ _ E13) by (cbn; lia || ne_page).
      rewrite (ev_view _ _ _ _ R4) by (cbn; lia || by intros []). apply (tb_zero _ _ _ Hs). change (last_page []) with 0. lia.
  - unfold rows_in, table_rows. cbn. rewrite app_nil_r. unfold page_rows. by rewrite P1, Z2.
  - exact G2.
  - done.
  - rewrite G3. by apply relink_header.
  - intros q Hq. destruct (decide (q = 1)) as [->|Hne]; [by rewrite P1, Z2, (tb_zero _ _ _ Hs), zero_page_rows|]. rewrite G5 by lia.
    rewrite (ev_view _ _ _ _ E13) by (cbn; lia || ne_page). by rewrite (ev_view _ _ _ _ R4) by (cbn; lia || by intros []).
Qed.

(** The last page of the chain is found, in memory or on disk. *)
Lemma disk_last e fid N ps : within (pool e) fid N -> 0 <= N -> N < 2 ^ 32 -> tail_pages e !! fid = None -> tail_found e fid ps ->
  0 < last_page ps -> last_page ps < page_count (disk (pool e)) fid.
Proof.
  intros [Hsz _] HN HN32 Ht Hf Hl. unfold tail_found in Hf. rewrite Ht in Hf. destruct Hf as (_ & F2 & [k Hk]).
  destruct (Z.lt_ge_cases (last_page ps) (page_count (disk (pool e)) fid)) as [?|Hge]; [done|].
  destruct F2; [intros ->; change (last_page []) with 0 in Hl; lia|].
  apply dpage_past; cbn [file_id page_no]; [lia|]. revert Hge. unfold page_count. rewrite Hk in *.
  pose proof (zlen_nonneg (file_bytes (disk (pool e)) fid)) as Hnn. fold (file_size (disk (pool e)) fid) in Hnn. rewrite Hk in Hnn.
  rewrite Z.div_mul by done. unfold PAGE_SIZE in *. rewrite wrap_small by lia. lia.
Qed.
Lemma find_tail_ok e fid N ps : row_env e fid N -> 0 <= N -> N < 2 ^ 32 -> table_ok e fid ps ->
  exists e', find_tail fid e = (Ok (last_page ps), e') /\ table_shape e' fid ps /\ rows_in e' fid ps = rows_in e fid ps /\ row_step fid N e e' /\
    tail_pages e' = tail_pages e /\ page_of e' fid 0 = page_of e fid 0 /\ same_slots fid e e'.
Proof.
  intros Henv HN HN32 [Hs Hf]. unfold find_tail. rewrite run_gets. pose proof Hf as Hf'. unfold tail_found in Hf'. destruct (tail_pages e !! fid) as [t|] eqn:Hf0.
  - destruct Hf' as [_ ->]. exists e. split_and!; try done. split; try done; [apply evolves_refl|apply Henv].
  - destruct Hf' as (F1 & F2 & _). pose proof (shape_last _ _ _ Hs) as [Hl Hnil]. unfold disk_tail_page. rewrite run_gets.
    pose proof (page_count_within _ _ _ (re_within _ _ _ Henv) HN ltac:(lia)) as Hpc.
    assert (0 < last_page ps -> disk_page (pool e) (mkPid fid (last_page ps)) <> zero_page) as F3.
    { intros H. apply F2. intros ->. change (last_page []) with 0 in H. lia. }
    pose proof (disk_last e fid N ps (re_within _ _ _ Henv) HN HN32 Hf0 Hf) as Hcount.
    destruct (skip_zero_ok fid (last_page ps) (Z.to_nat (if page_count (disk (pool e)) fid =? 0 then 0 else page_count (disk (pool e)) fid - 1)) e)
      as (s' & K1 & K2 & K3 & K4); [|apply Henv|done|done|].
    { split; [done|]. destruct (Z.eqb_spec (page_count (disk (pool e)) fid) 0); destruct (decide (last_page ps = 0)); try lia;
        specialize (Hcount ltac:(lia)); lia. }
    exists (set_pool s' e). split; [exact K1|].
    assert (forall q, 0 <= q -> page_of (set_pool s' e) fid q = page_of e fid q) as Hq by (intros q Hq; apply (ev_view _ _ _ _ K3); [done|by intros []]).
    destruct (shape_same e (set_pool s' e) fid ps Hs Hq) as [S1 S2]. split_and!; try done; [|by apply Hq|apply same_slots_view; intros q Hq0; apply Hq; lia].
    by eapply (step_of fid N no_page no_page); [exact K3|intros ? []|intros ? []| |].
Qed.

(** A row record fits its page's slot array. *)
Lemma insert_row_ok e fid N ps cs vs rec : row_env e fid N -> 0 <= N -> N + 2 < 2 ^ 32 -> table_ok e fid ps ->
  encode_row cs vs = Ok (Some rec) -> zlen rec <= MAX_RECORD_LEN -> Forall byte_ok rec ->
  let id := wrap 64 (file_next_rowid (page_of e fid 0) + 1) in
  exists e' ps' ref, insert_row fid cs vs e = (Ok (id, ref), e') /\ table_ok e' fid ps' /\
    rows_in e' fid ps' = rows_in e fid ps ++ [(ref, rec)] /\ row_step fid (N + 2) e e' /\ file_next_rowid (page_of e' fid 0) = id /\
    appended fid e e' ref rec /\ ps ⊆ ps'.
Proof.
  intros Henv HN HN32 Hok Henc Hlen Hrec id. pose proof Hok as [Hs Hf]. unfold insert_row. run (check_txn_ok e fid N Henv).
  rewrite Henc. rewrite run_match. cbn [lift]. destruct (Z.gtb_spec (zlen rec) MAX_RECORD_LEN); [lia|].
  destruct (header_page e fid N Henv ps Hs) as (Hl & Hb & Hv).
  destruct (header_run e fid N Henv HN ps Hs) as (i & s1 & R1 & R2 & R3 & R4 & R5). run R1. run R2. fold id.
  assert (0 <= id < 2 ^ 64) as Hid by (apply wrap_bound; lia).
  destruct (rowid_reads (page_of e fid 0) id Hl Hb Hid) as (L1 & L2 & L3 & L4 & L5). rewrite (header_magic _ Hv) in L5.
  destruct (header_finish e fid N Henv HN ps Hs N s1 s1 i (seal (set_file_next_rowid id (page_of e fid 0))) ltac:(lia) R4 R3 (evolves_refl _ _ _) R5 L1)
    as (s2 & G1 & G2 & G3 & G4 & G5). rewrite G1. clear G1. set (e2 := set_pool s2 e) in *.
  assert (forall q, 0 < q -> page_of e2 fid q = page_of e fid q) as V2.
  { intros q Hq. rewrite G5 by done. by rewrite (ev_view _ _ _ _ R4) by (cbn; lia || by intros []). }
  destruct (shape_header e e2 fid ps _ Hs V2 G3 L5 L2 L3) as [S2 Q2].
  pose proof (row_env_step fid N N e e2 ltac:(lia) Henv G2) as Henv2.
  assert (table_ok e2 fid ps) as Hok2.
  { split; [done|]. apply (tail_found_step e e2 fid ps (eq (mkPid fid 0)) (eq (mkPid fid 0)) Hs Hf); [|intros q Hq; ne_page|done].
    eapply evolves_trans; [eapply (evolves_weaken _ _ _ _ _ _ R4); [by intros ? []|done]|eapply (evolves_weaken _ _ _ _ _ _ G4); [done|by intros ? []]]. }
  destruct (find_tail_ok e2 fid N ps Henv2 HN ltac:(lia) Hok2) as (e3 & T1 & T2 & T3 & T4 & T5 & T6 & T7). run T1.
  assert (same_slots fid e e3) as Sl by (eapply same_slots_trans; [by apply same_slots_view|exact T7]).
  pose proof (row_env_step fid N N e2 e3 ltac:(lia) Henv2 T4) as Henv3.
  assert (row_step fid N e e3) as St3 by (by eapply row_step_trans).
  assert (file_next_rowid (page_of e3 fid 0) = id) as I3 by (rewrite T6, G3; exact L4).
  destruct (decide (ps = [])) as [->|Hne].
  - change (last_page []) with 0. destruct (link_ok e3 fid N Henv3 HN ltac:(lia) T2) as (e4 & K1 & K2 & K3 & K4 & K5 & K6 & K7). run K1.
    destruct (append_ok e4 fid (N + 1) rec [] 1) as (e5 & ps' & ref & A1 & A2 & A3 & A4 & A5 & A6 & A7); [by eapply (row_env_step fid N); [lia|exact Henv3|]|lia|lia|done|done|done|].
    run A1. exists e5, ps', ref. split; [done|]. split; [done|]. split; [rewrite A3; cbn [app]; rewrite K3; by rewrite <- Q2, <- T3|].
    replace (N + 1 + 1) with (N + 2) in A4 by lia. split; [|split; [rewrite A5; congruence|]].
    2: { split; [|intros ? []%elem_of_nil]. eapply appended_after; [exact Sl|]. by eapply appended_after. }
    eapply row_step_trans; [apply (row_step_mono fid N); [lia|exact St3]|]. eapply row_step_trans; [apply (row_step_mono fid (N + 1)); [lia|exact K4]|done].
  - destruct (shape_last _ _ _ Hs) as [Hl0 Hnil]. destruct (Z.eqb_spec (last_page ps) 0) as [E|_]; [by apply Hnil in E|].
    rewrite run_ret. destruct ps as [|t ps0 _] using rev_ind; [done|]. rewrite last_page_app.
    destruct (append_ok e3 fid N rec ps0 t Henv3 HN ltac:(lia) Hrec Hlen T2) as (e5 & ps' & ref & A1 & A2 & A3 & A4 & A5 & A6 & A7).
    run A1. exists e5, ps', ref. split; [done|]. split; [done|]. split; [rewrite A3; by rewrite T3, Q2|]. split; [|split; [rewrite A5; congruence|split; [by eapply appended_after|done]]].
    eapply row_step_trans; [apply (row_step_mono fid N); [lia|exact St3]|]. by apply (row_step_mono fid (N + 1)); [lia|].
Qed.

(** ** A new table *)
Lemma header_init : zlen (init_page MAGIC_FILE_HEADER PtFileHeader) = PAGE_SIZE /\ Forall byte_ok (init_page MAGIC_FILE_HEADER PtFileHeader) /\
  page_valid (init_page MAGIC_FILE_HEADER PtFileHeader) MAGIC_FILE_HEADER = true /\ h_next_page (init_page MAGIC_FILE_HEADER PtFileHeader) = 0.
Proof.
  destruct (init_page_wf MAGIC_FILE_HEADER PtFileHeader) as (H & _ & Hv & Hn & _); [unfold MAGIC_FILE_HEADER; lia|].
  exact (conj (hw_len _ H) (conj (hw_bytes _ H) (conj Hv Hn))).
Qed.
Lemma init_table_ok e fid : row_env e fid 0 -> tail_pages e !! fid = None ->
  exists e', init_table_file fid e = (Ok tt, e') /\ table_ok e' fid [] /\ row_step fid 1 e e'.
Proof.
  intros Henv Ht. pose proof Henv as [Hok Hatt _ Hpins Hwi]. destruct header_init as (Z1 & Z2 & Z3 & Z4). unfold init_table_file. run (check_txn_ok e fid 0 Henv).
  destruct (create_file_session ∅ (pool e) fid Hok Hwi) as (C1 & C2 & C3 & C4). set (s1 := set_disk _ _) in *.
  assert (stored (modify (fun s => set_disk (create_table_file (disk s) fid) s)) e = (Ok tt, set_pool s1 e)) as Hc by done. run Hc.
  destruct (fresh_run (set_pool s1 e) C1 (mkPid fid 0) _ Z1) as (s2 & F1 & F2 & F3 & F4 & F5).
  { done. }
  { cbn [pool set_pool]. rewrite (proj2 C3). change (frames s1) with (frames (pool e)). lia. }
  { cbn [pool set_pool]. rewrite (ev_view _ _ _ _ C2) by (cbn; lia || by intros []). apply (beyond_zero (pool e) fid 0); done || (cbn; lia). }
  { done. }
  { apply (ev_txn _ _ _ _ C2), (row_env_txn e fid 0 Henv). }
  rewrite F1. clear F1. cbn [pool set_pool] in F3, F4. rewrite set_pool_twice.
  destruct (flush_session ∅ s2 F2 (mkPid fid 0)) as (s3 & G1 & G2 & G3 & G4); [apply not_elem_of_empty|].
  rewrite (stored_ok (flush (mkPid fid 0)) (set_pool s2 e) _ _ G1), set_pool_twice. exists (set_pool s3 e). split; [done|].
  assert (evolves (eq (mkPid fid 0)) (eq (mkPid fid 0)) (pool e) s3) as Ev.
  { eapply evolves_trans; [eapply (evolves_weaken _ _ _ _ _ _ C2); [by intros ? []|done]|]. eapply evolves_trans; [exact F3|by apply evolves_no]. }
  assert (within s3 fid 1) as W.
  { apply (ev_within _ _ _ _ G3); [lia|by intros ? []|]. apply (ev_within _ _ _ _ F3); [lia|intros q <- _; cbn; lia|exact C4]. }
  assert (page_of (set_pool s3 e) fid 0 = init_page MAGIC_FILE_HEADER PtFileHeader) as P0.
  { unfold page_of. cbn [pool set_pool]. by rewrite (ev_view _ _ _ _ G3) by (cbn; lia || by intros []). }
  assert (whole (disk s1) fid) as Hwh by (exists 1; unfold s1; cbn [disk set_disk]; by rewrite file_size_create, decide_True).
  split; [split|].
  - split; rewrite ?P0; [exact Z3|exact Z2|exact Z4|constructor|]. intros q Hq. change (last_page []) with 0 in Hq.
    apply (beyond_zero _ fid 1 (mkPid fid q) W); cbn; lia.
  - unfold tail_found. cbn [tail_pages set_pool pool]. rewrite Ht. split; [|split; [intros E; by destruct E|]].
    + intros q Hq. change (last_page []) with 0 in Hq. unfold disk_page. destruct W as [W _]. apply dpage_past; cbn [page_no file_id]; [lia|]. unfold PAGE_SIZE in *. lia.
    + exact (ev_whole _ _ _ _ G3 fid (ev_whole _ _ _ _ F3 fid Hwh)).
  - eapply (step_of fid 1); [exact Ev|intros ? <-; reflexivity|intros ? <-; split; [reflexivity|cbn; lia]| |exact G2].
    eapply pins_eq_trans; [exact C3|]. exact (pins_eq_trans _ _ _ F4 G4).
Qed.

(** * The property *)
(** C38. An insertion adds its row and nothing else: in a transaction, with two frames to spare, [insert_row] on a
    table raises [ValueMismatch] or [RecordTooLong] and changes nothing when the row does not suit the columns or its
    record is longer than a page takes; otherwise it returns the table's next row id and a reference, the table is
    its old rows followed by that reference with the record, through a new first page or a linked page where the
    last one is full, and every other table keeps its rows. *)
Theorem insert_row_appends e fid N ps cs vs : row_env e fid N -> 0 <= N -> N + 2 < 2 ^ 32 -> table_ok e fid ps ->
  Forall col_ok cs -> Forall (fun v => wf_box (box v)) vs ->
  exists r, encode_row cs vs = Ok r /\
  match r with
  | None => insert_row fid cs vs e = (Raise ValueMismatch, e)
  | Some rec =>
      if zlen rec >? MAX_RECORD_LEN then insert_row fid cs vs e = (Raise RecordTooLong, e)
      else exists e' ps' ref, insert_row fid cs vs e = (Ok (wrap 64 (file_next_rowid (page_of e fid 0) + 1), ref), e') /\
        table_ok e' fid ps' /\ rows_in e' fid ps' = rows_in e fid ps ++ [(ref, rec)] /\ row_env e' fid (N + 2) /\
        forall g qs, g <> fid -> table_ok e g qs -> table_ok e' g qs /\ rows_in e' g qs = rows_in e g qs
  end.
Proof.
  intros Henv HN HN32 Hok Hcs Hvs. pose proof (encode_row_bytes cs vs) as Hb. pose proof (encode_row_eq cs vs Hcs Hvs) as He.
  eexists; split; [exact He|].
  assert (forall r, encode_row cs vs = Ok r -> match r with None => True | Some rec => (zlen rec >? MAX_RECORD_LEN) = true end ->
    insert_row fid cs vs e = (Raise (match r with None => ValueMismatch | Some _ => RecordTooLong end), e)) as Hr.
  { intros r Hr Hl. unfold insert_row. run (check_txn_ok e fid N Henv). rewrite Hr. rewrite run_match. cbn [lift]. destruct r as [rec|]; [|done]. by rewrite Hl. }
  destruct (_ && _) in *; [|by apply (Hr _ He)]. destruct (_ >? _) eqn:E; [by apply (Hr _ He)|].
  destruct (insert_row_ok e fid N ps cs vs _ Henv HN HN32 Hok He) as (e' & ps' & ref & I1 & I2 & I3 & I4 & _); [lia|by apply Hb|].
  exists e', ps', ref. split_and!; try done; [by eapply (row_env_step fid N); [lia|..]|]. intros g qs Hg Hq. by eapply table_frame.
Qed.
(** A database with the empty table 5. *)
Definition demo_db : Engine := (begin_txn (engine_new 3 ∅ [])).2.
Definition demo_table : Engine := (init_table_file 5 demo_db).2.
Lemma demo_db_env : row_env demo_db 5 0.
Proof.
  split; [|done| | |done].
  - destruct (pool_new_ok 3 ∅ (wal_new []) ltac:(lia)). by split.
  - eexists. split; [done|]. apply not_elem_of_nil.
  - by vm_compute.
Qed.
Lemma demo_table_ok : row_env demo_table 5 1 /\ table_ok demo_table 5 [].
Proof.
  destruct (init_table_ok demo_db 5 demo_db_env eq_refl) as (e' & E & Hok & Hst). unfold demo_table. rewrite E. cbn [snd].
  split; [|done]. eapply (row_env_step 5 0); [lia|apply demo_db_env|exact Hst].
Qed.
Lemma insert_row_appends_witness : exists r, encode_row demo_cols demo_row = Ok r /\
  match r with
  | None => insert_row 5 demo_cols demo_row demo_table = (Raise ValueMismatch, demo_table)
  | Some rec =>
      if zlen rec >? MAX_RECORD_LEN then insert_row 5 demo_cols demo_row demo_table = (Raise RecordTooLong, demo_table)
      else exists e' ps' ref, insert_row 5 demo_cols demo_row demo_table =
          (Ok (wrap 64 (file_next_rowid (page_of demo_table 5 0) + 1), ref), e') /\
        table_ok e' 5 ps' /\ rows_in e' 5 ps' = rows_in demo_table 5 [] ++ [(ref, rec)] /\ row_env e' 5 (1 + 2) /\
        forall g qs, g <> 5 -> table_ok demo_table g qs -> table_ok e' g qs /\ rows_in e' g qs = rows_in demo_table g qs
  end.
Proof.
  exact (insert_row_appends demo_table 5 1 [] demo_cols demo_row (proj1 demo_table_ok) ltac:(lia) ltac:(lia) (proj2 demo_table_ok) demo_cols_ok demo_row_ok).
Defined.
