(* ===== verification/Rows.v ===== *)
(** Reading the rows of a table: whole-table reads along the chain of pages, single rows by reference, deletion,
    and the table scanner as a state machine over the rows that are left. *)
From stdpp Require Import sorting.
From S2P Require Import Prelude Key Types Codec Page Wal Disk Recovery State Node Pool Diff PoolSpec Txn Session Tree Engine Table.

#[local] Opaque seal init_page.

(** * Reading leaves the pages alone *)
Record read_env (e : Engine) (fid N : Z) : Prop := {
  rd_ok : pool_ok ∅ (pool e);
  rd_pins : pins (pool e) < zlen (frames (pool e));
  rd_within : within (pool e) fid N }.
Lemma row_read_env e fid N : row_env e fid N -> read_env e fid N.
Proof. intros []. split; [done|lia|done]. Qed.
(** From [e] to the state [s]: no page changes, and only pages of the file come into the pool. *)
Record reads (fid N : Z) (e : Engine) (s : Store) : Prop := {
  rr_ok : pool_ok ∅ s;
  rr_evolves : evolves no_page (fun p => file_id p = fid /\ page_no p < N) (pool e) s }.
Lemma reads_refl fid N e : pool_ok ∅ (pool e) -> reads fid N e (pool e).
Proof. intros H. split; [done|apply evolves_refl]. Qed.
Lemma reads_trans fid N e s1 s2 : reads fid N e s1 -> reads fid N (set_pool s1 e) s2 -> reads fid N e s2.
Proof. intros [] []. split; [done|by eapply evolves_trans]. Qed.
Lemma reads_page fid N e s g no : reads fid N e s -> 0 <= no -> page_of (set_pool s e) g no = page_of e g no.
Proof. intros [_ H] Hno. apply (ev_view _ _ _ _ H); [done|by intros []]. Qed.
Lemma reads_within fid N e s : 0 <= N -> within (pool e) fid N -> reads fid N e s -> within s fid N.
Proof. intros HN Hw [_ H]. apply (ev_within _ _ _ _ H); [done|by intros p [-> ?]|done]. Qed.
Lemma reads_env fid N e s : 0 <= N -> read_env e fid N -> reads fid N e s -> pins_eq (pool e) s -> read_env (set_pool s e) fid N.
Proof.
  intros HN [] Hr [_ Hp]. pose proof Hr as [Hok Hev]. split; cbn [pool set_pool]; [done| |by eapply reads_within].
  rewrite Hp. unfold zlen in *. by rewrite (ev_len _ _ _ _ Hev).
Qed.
Lemma reads_of fid N e s (U : PageId -> Prop) : pool_ok ∅ s -> evolves no_page U (pool e) s -> (forall p, U p -> file_id p = fid /\ page_no p < N) -> reads fid N e s.
Proof. intros Hok He Hu. split; [done|]. by eapply evolves_weaken. Qed.
Lemma reads_shape fid N e s ps : reads fid N e s -> table_shape e fid ps -> table_shape (set_pool s e) fid ps.
Proof. intros Hr Hs. apply (shape_same e (set_pool s e) fid ps Hs). intros q Hq. by eapply reads_page. Qed.
Lemma reads_table fid N e s ps : reads fid N e s -> table_ok e fid ps -> table_ok (set_pool s e) fid ps.
Proof.
  intros Hr [Hs Hf]. split; [by eapply reads_shape|]. apply (tail_found_step e (set_pool s e) fid ps _ _ Hs Hf (rr_evolves _ _ _ _ Hr)); [by intros q _ []|done].
Qed.

Lemma reads_step fid N e s : reads fid N e s -> pins_eq (pool e) s -> row_step fid N e (set_pool s e).
Proof. intros [Hok He] Hp. split; try done. eapply evolves_weaken; [exact He|by intros ? []|done]. Qed.

(** ** One page, pinned and released *)
Section page.
Context (e : Engine) (fid N : Z) (Henv : read_env e fid N) (HN : 0 <= N).
Lemma pin_page no m : 0 <= no < N -> page_valid (page_of e fid no) m = true ->
  exists i s, stored (read (mkPid fid no) m) e = (Ok i, set_pool s e) /\ bytes_of i (set_pool s e) = (Ok (page_of e fid no), set_pool s e) /\
    reads fid N e s /\ holds (pool e) s (mkPid fid no) i.
Proof using All.
  intros Hno Hv. destruct Henv as [Hok Hp Hw]. destruct (read_run e Hok (mkPid fid no) m) as (i & s & R1 & R2 & R3 & R4 & R5); [cbn; lia|lia|done|].
  exists i, s. split_and!; try done. eapply reads_of; [done|exact R4|]. intros p <-. cbn. split; [done|lia].
Qed.
Lemma release_page s no i : reads fid N e s -> holds (pool e) s (mkPid fid no) i ->
  exists s', stored (unpin i) (set_pool s e) = (Ok tt, set_pool s' e) /\ reads fid N e s' /\ pins_eq (pool e) s'.
Proof using All.
  intros Hr Hh. destruct (unpin_run (set_pool s e) (rr_ok _ _ _ _ Hr) (pool e) (mkPid fid no) i (rd_ok _ _ _ Henv) Hh) as (s' & U1 & U2 & U3 & U4).
  exists s'. split_and!; [done| |done]. eapply reads_trans; [exact Hr|]. eapply reads_of; [done|exact U3|by intros ? []].
Qed.
End page.
Lemma first_page_ok e fid N ps : read_env e fid N -> 0 <= N -> table_shape e fid ps ->
  exists s, first_page fid e = (Ok (h_next_page (page_of e fid 0)), set_pool s e) /\ reads fid N e s /\ pins_eq (pool e) s.
Proof.
  intros Henv HN Hs. pose proof (header_in_file e fid N (rd_within _ _ _ Henv) HN ps Hs) as H0.
  destruct (pin_page e fid N Henv HN 0 MAGIC_FILE_HEADER) as (i & s1 & R1 & R2 & R3 & R4); [lia|apply Hs|].
  destruct (release_page e fid N Henv HN s1 0 i R3 R4) as (s2 & U1 & U2 & U3).
  exists s2. split_and!; [|done|done]. unfold first_page. run R1. run R2. run U1. done.
Qed.

(** ** The walk along the chain *)
(** A visit computes [g] from the page and changes nothing. *)
Lemma walk_ok {A} fid N (visit : Z -> bytes -> ST Engine (list A)) (g : Z -> bytes -> list A) ps : 0 <= N ->
  forall e no fuel, read_env e fid N -> (length ps <= fuel)%nat ->
  segment (page_of e fid) no ps 0 -> Forall (fun q => q < N) ps ->
  (forall q s, q ∈ ps -> visit q (page_of e fid q) (set_pool s e) = (Ok (g q (page_of e fid q)), set_pool s e)) ->
  exists s, walk fuel fid no visit e = (Ok (concat ((fun q => g q (page_of e fid q)) <$> ps)), set_pool s e) /\ reads fid N e s /\ pins_eq (pool e) s.
Proof.
  intros HN. induction ps as [|p ps IH]; intros e no fuel Henv Hfuel Hseg Hb Hv.
  - cbn [segment] in Hseg. subst no. exists (pool e). split_and!; [by destruct fuel, e|apply reads_refl, Henv|done].
  - destruct Hseg as (-> & Hp & Hh & Hseg). destruct fuel as [|fuel]; [cbn in Hfuel; lia|]. cbn [walk].
    destruct (Z.eqb_spec p 0); [lia|]. apply Forall_cons_1 in Hb as [Hpn Hb].
    destruct (pin_page e fid N Henv HN p MAGIC_HEAP) as (i & s1 & R1 & R2 & R3 & R4); [lia|apply Hh|]. run R1. run R2.
    assert (p ∈ p :: ps) as Hin by (by left). run (Hv p s1 Hin).
    destruct (release_page e fid N Henv HN s1 p i R3 R4) as (s2 & U1 & U2 & U3). run U1.
    pose proof (reads_env fid N e s2 HN Henv U2 U3) as Henv2.
    assert (forall q, q ∈ ps -> page_of (set_pool s2 e) fid q = page_of e fid q) as V2.
    { intros q Hq. eapply reads_page; [exact U2|]. destruct (segment_pos _ _ _ _ q Hseg Hq). lia. }
    destruct (IH (set_pool s2 e) (h_next_page (page_of e fid p)) fuel Henv2) as (s3 & I1 & I2 & I3); [cbn in Hfuel; lia| |done| |].
    + by eapply segment_ext.
    + intros q s Hq. rewrite V2 by done. apply (Hv q s). by right.
    + rewrite set_pool_twice in I1. run I1. exists s3. split_and!; [|by eapply reads_trans|by eapply pins_eq_trans].
      cbn [fmap list_fmap concat]. unfold mret, st_ret. do 3 f_equal. f_equal. apply list_fmap_ext. intros k q Hq%list_elem_of_lookup_2. by rewrite V2.
Qed.

(** * Whole tables *)
(** The record [x] holds the values [vs] of the columns [cs]. *)
Definition decodes (cs : list ColumnSpec) (x : RowRef * bytes) (vs : list Value) : Prop := decode_row cs x.2 (zlen x.2) = Ok (Some vs).
Definition decoded (cs : list ColumnSpec) (x : RowRef * bytes) : list Value :=
  match decode_row cs x.2 (zlen x.2) with Ok (Some vs) => vs | _ => [] end.
Lemma decodes_decoded cs xs vss : Forall2 (decodes cs) xs vss <-> Forall (fun x => decodes cs x (decoded cs x)) xs /\ vss = decoded cs <$> xs.
Proof.
  split.
  - induction 1 as [|x vs xs vss Hx _ [IH1 ->]]; [done|]. assert (decoded cs x = vs) as E by (unfold decoded; by rewrite Hx).
    split; [constructor; [by rewrite E|done]|]. cbn [fmap list_fmap]. by rewrite E.
  - intros [H ->]. induction H as [|x xs Hx _ IH]; [constructor|]. by constructor.
Qed.
Lemma live_slots_spec p i : heap_wf p -> i ∈ live_slots p <-> 0 <= i < h_slot_count p /\ slot_tombstone p i = false.
Proof.
  intros Hp. pose proof (heap_bounds p Hp) as (_ & Hn & _). unfold live_slots. rewrite list_elem_of_In, filter_In, <- list_elem_of_In, negb_true_iff.
  rewrite list_elem_of_fmap. setoid_rewrite elem_of_seq. split.
  - intros [(k & -> & Hk) ?]. split; [lia|done].
  - intros [Hi ?]. split; [|done]. exists (Z.to_nat i). lia.
Qed.
Lemma record_len p i : heap_wf p -> i ∈ live_slots p -> zlen (record p i) = slot_len p i.
Proof.
  intros Hp Hi. apply (live_slots_spec p i Hp) in Hi as [Hi Ht]. pose proof (heap_bounds p Hp) as (Hl & Hn & Hb & Hfe).
  destruct (hw_slots p Hp i Hi Ht) as [S1 S2]. destruct (slot_len_nonneg p i Hl (hw_bytes p Hp) ltac:(lia)). unfold PAGE_HEADER_SIZE in S1.
  unfold record. rewrite zlen_slice by lia. lia.
Qed.
Lemma decode_slot_ok {cs p i} vs e : heap_wf p -> i ∈ live_slots p -> decode_row cs (record p i) (zlen (record p i)) = Ok (Some vs) ->
  decode_slot cs p i e = (Ok vs, e).
Proof. intros Hp Hi Hd. unfold decode_slot. rewrite <- (record_len p i Hp Hi), Hd. done. Qed.
Lemma traverse_ok {S A B} (f : A -> ST S B) (g : A -> B) l s : Forall (fun x => f x s = (Ok (g x), s)) l -> traverse l f s = (Ok (g <$> l), s).
Proof. induction 1 as [|x l Hx _ IH]; [done|]. cbn [traverse]. run Hx. by run IH. Qed.
Lemma rows_page fid V ps q : q ∈ ps -> forall x, x ∈ page_rows fid q (V q) -> x ∈ table_rows fid V ps.
Proof.
  intros Hq x Hx. unfold table_rows. apply list_elem_of_In, in_concat. exists (page_rows fid q (V q)). split; [|by apply list_elem_of_In].
  apply list_elem_of_In, list_elem_of_fmap. by exists q.
Qed.
Lemma table_bounds e fid N ps : 0 <= N -> within (pool e) fid N -> table_shape e fid ps -> Forall (fun q => q < N) ps.
Proof. intros HN Hw Hs. apply list.Forall_forall. intros q Hq. by destruct (table_page e fid N Hw HN ps q Hs Hq) as [[_ ?] _]. Qed.
Section whole.
Context (e : Engine) (fid N : Z) (ps : list Z) (Henv : read_env e fid N) (HN : 0 <= N) (Hs : table_shape e fid ps).
Context (fuel : nat) (Hfuel : (length ps <= fuel)%nat).
(** A visit of every page, from the header on. *)
Lemma visit_all {A} (visit : Z -> bytes -> ST Engine (list A)) (g : Z -> bytes -> list A) :
  (forall q s, q ∈ ps -> visit q (page_of e fid q) (set_pool s e) = (Ok (g q (page_of e fid q)), set_pool s e)) ->
  exists s, (pno ← first_page fid; walk fuel fid pno visit) e = (Ok (concat ((fun q => g q (page_of e fid q)) <$> ps)), set_pool s e) /\
    reads fid N e s /\ pins_eq (pool e) s.
Proof using All.
  intros Hv. destruct (first_page_ok e fid N ps Henv HN Hs) as (s1 & F1 & F2 & F3). run F1.
  assert (forall q, 0 <= q -> page_of (set_pool s1 e) fid q = page_of e fid q) as V1 by (intros q Hq; by eapply reads_page).
  assert (forall q, q ∈ ps -> page_of (set_pool s1 e) fid q = page_of e fid q) as V2.
  { intros q Hq. apply V1. destruct (segment_pos _ _ _ _ q (tb_chain _ _ _ Hs) Hq). lia. }
  destruct (walk_ok fid N visit g ps HN (set_pool s1 e) (h_next_page (page_of e fid 0)) fuel (reads_env fid N e s1 HN Henv F2 F3) Hfuel) as (s2 & W1 & W2 & W3).
  - eapply segment_ext; [exact V2|apply Hs].
  - exact (table_bounds e fid N ps HN (rd_within _ _ _ Henv) Hs).
  - intros q s Hq. rewrite V2 by done. rewrite set_pool_twice. by apply Hv.
  - exists s2. rewrite set_pool_twice in W1. rewrite W1. split_and!; [|by eapply reads_trans|by eapply pins_eq_trans].
    do 3 f_equal. apply list_fmap_ext. intros k q Hq%list_elem_of_lookup_2. by rewrite V2.
Qed.
Lemma read_rows_ok cs vss : Forall2 (decodes cs) (rows_in e fid ps) vss ->
  exists s, read_rows fuel fid cs e = (Ok vss, set_pool s e) /\ reads fid N e s /\ pins_eq (pool e) s.
Proof using All.
  intros [Hd ->]%decodes_decoded.
  destruct (visit_all (fun _ p => traverse (live_slots p) (decode_slot cs p)) (fun q p => decoded cs <$> page_rows fid q p)) as (s & H1 & H2 & H3).
  - intros q s Hq. destruct (segment_pos _ _ _ _ q (tb_chain _ _ _ Hs) Hq) as [_ [Hwf _]].
    rewrite page_rows_live, <- list_fmap_compose. apply traverse_ok. apply list.Forall_forall. intros i Hi.
    apply decode_slot_ok; [done|done|]. rewrite list.Forall_forall in Hd. apply (Hd (mkRef (mkPid fid q) i, record (page_of e fid q) i)).
    apply (rows_page fid _ ps q Hq). rewrite page_rows_live. apply list_elem_of_fmap. by exists i.
  - exists s. unfold read_rows. rewrite H1. split_and!; try done. do 2 f_equal. unfold rows_in. by rewrite table_rows_map.
Qed.
Lemma live_refs_rows q p : live_refs fid q p = (page_rows fid q p).*1.
Proof using. rewrite page_rows_live, <- list_fmap_compose. done. Qed.
Lemma all_refs_ok : exists s, (pno ← first_page fid; walk fuel fid pno (fun no p => mret (live_refs fid no p))) e = (Ok (rows_in e fid ps).*1, set_pool s e) /\
  reads fid N e s /\ pins_eq (pool e) s.
Proof using All.
  destruct (visit_all (fun no p => mret (live_refs fid no p)) (fun q p => live_refs fid q p)) as (s & H1 & H2 & H3); [done|].
  exists s. rewrite H1. split_and!; try done. do 2 f_equal. unfold rows_in. rewrite table_rows_map. f_equal.
  apply list_fmap_ext. intros k q _. apply live_refs_rows.
Qed.
Lemma row_count_ok : exists s, row_count fuel fid e = (Ok (zlen (rows_in e fid ps)), set_pool s e) /\ reads fid N e s /\ pins_eq (pool e) s.
Proof using All.
  destruct all_refs_ok as (s & H1 & H2 & H3). exists s. split_and!; try done. unfold row_count. rewrite <- run_assoc. run H1.
  unfold mret, st_ret, zlen. by rewrite length_fmap.
Qed.
End whole.

(** * Single rows *)
Lemma rows_in_spec e fid ps ref b : (ref, b) ∈ rows_in e fid ps <->
  exists no i, no ∈ ps /\ i ∈ live_slots (page_of e fid no) /\ ref = mkRef (mkPid fid no) i /\ b = record (page_of e fid no) i.
Proof.
  unfold rows_in, table_rows. split.
  - intros (l & Hl & Hx)%list_elem_of_In%in_concat. apply list_elem_of_In, list_elem_of_fmap in Hl as (no & -> & Hno).
    apply list_elem_of_In in Hx. rewrite page_rows_live in Hx. apply list_elem_of_fmap in Hx as (i & [= -> ->] & Hi). by exists no, i.
  - intros (no & i & Hno & Hi & -> & ->). apply (rows_page fid _ ps no Hno). rewrite page_rows_live. apply list_elem_of_fmap. by exists i.
Qed.
Lemma slot_gone_spec p i : heap_wf p -> 0 <= i -> slot_gone p i = false <-> i ∈ live_slots p.
Proof.
  intros Hp Hi. rewrite live_slots_spec by done. unfold slot_gone. rewrite orb_false_iff, Z.leb_gt. split; [intros []|intros [[] ?]]; split; try done; lia.
Qed.
(** A page of the chain is within what the engine takes for the end of the file. *)
Lemma check_ref_ok e fid N ps no i : within (pool e) fid N -> 0 <= N -> N < 2 ^ 32 -> table_ok e fid ps -> no ∈ ps ->
  check_row_ref (mkRef (mkPid fid no) i) e = (Ok tt, e).
Proof.
  intros Hw HN HN32 [Hs Hf] Hno. destruct (segment_pos _ _ _ _ no (tb_chain _ _ _ Hs) Hno) as [Hp _].
  pose proof (sorted_last ps no (tb_sorted _ _ _ Hs) Hno) as Hl. unfold check_row_ref. cbn [rpage file_id Types.page_no].
  rewrite bool_decide_false by (intros [= E]; unfold INVALID_PAGE in *; lia). destruct (Z.eqb_spec no 0); [lia|]. rewrite !run_gets.
  pose proof (disk_last e fid N ps Hw HN HN32) as Hd. pose proof Hf as Hf'. unfold tail_found in Hf'.
  destruct (tail_pages e !! fid) as [t|].
  - destruct Hf' as [_ ->]. set (m := if _ =? 0 then 0 else _).
    assert ((no >? (if last_page ps >? m then last_page ps else m)) = false) as ->; [|done]. destruct (Z.gtb_spec (last_page ps) m); lia.
  - specialize (Hd eq_refl Hf ltac:(lia)). destruct (Z.eqb_spec (page_count (disk (pool e)) fid) 0); [lia|].
    destruct (Z.gtb_spec no (page_count (disk (pool e)) fid - 1)); [lia|done].
Qed.
Section row.
Context (e : Engine) (fid N : Z) (ps : list Z) (Henv : read_env e fid N) (HN : 0 <= N < 2 ^ 32) (Hok : table_ok e fid ps).
Context (no i : Z) (Hno : no ∈ ps) (Hi : 0 <= i).
Notation p := (page_of e fid no).
Notation ref := (mkRef (mkPid fid no) i).
Lemma row_page : 0 <= no < N /\ heap_page p.
Proof using All. destruct (table_page e fid N (rd_within _ _ _ Henv) ltac:(lia) ps no (proj1 Hok) Hno). split; [lia|done]. Qed.
Lemma read_row_ok cs :
  if decide (i ∈ live_slots p) then
    forall vs, decodes cs (ref, record p i) vs -> exists s, read_row ref cs e = (Ok (Some vs), set_pool s e) /\ reads fid N e s /\ pins_eq (pool e) s
  else exists s, read_row ref cs e = (Ok None, set_pool s e) /\ reads fid N e s /\ pins_eq (pool e) s.
Proof using All.
  destruct row_page as [Hb [Hwf Hv]]. pose proof (slot_gone_spec p i Hwf Hi) as Hg.
  assert (exists pg s1, read_row ref cs e = (if slot_gone p i then _ ← stored (unpin pg); mret None else
      v ← lift (decode_row cs (record p i) (slot_len p i)); _ ← stored (unpin pg); match v with None => crash | Some vs => mret (Some vs) end) (set_pool s1 e) /\
    reads fid N e s1 /\ holds (pool e) s1 (mkPid fid no) pg) as (pg & s1 & -> & R3 & R4).
  { destruct (pin_page e fid N Henv ltac:(lia) no MAGIC_HEAP) as (pg & s1 & R1 & R2 & R3 & R4); [lia|done|]. exists pg, s1. split_and!; try done.
    unfold read_row. run (check_ref_ok e fid N ps no i (rd_within _ _ _ Henv) ltac:(lia) ltac:(lia) Hok Hno). cbn [rpage rslot]. run R1. by run R2. }
  destruct (release_page e fid N Henv ltac:(lia) s1 no pg R3 R4) as (s2 & U1 & U2 & U3). case_decide as Hl.
  - intros vs Hd. unfold decodes in Hd. cbn in Hd. rewrite <- (record_len p i Hwf Hl). apply Hg in Hl as ->. rewrite Hd. rewrite run_match. cbn [lift]. run U1. by exists s2.
  - destruct (slot_gone p i) eqn:E; [|by destruct Hl; apply Hg]. run U1. by exists s2.
Qed.
End row.
Lemma page_rows_other fid no q i p : q <> no -> filter (fun x : RowRef * bytes => x.1 <> mkRef (mkPid fid no) i) (page_rows fid q p) = page_rows fid q p.
Proof.
  intros Hq. rewrite page_rows_live. induction (live_slots p) as [|k l IH]; [done|]. cbn [fmap list_fmap]. rewrite filter_cons_True by (intros [= E]; done).
  f_equal. exact IH.
Qed.
Lemma page_rows_delete fid no p p' (i : Z) : 0 <= i -> heap_rows p' = <[Z.to_nat i := None]> (heap_rows p) ->
  page_rows fid no p' = filter (fun x => x.1 <> mkRef (mkPid fid no) i) (page_rows fid no p).
Proof. intros Hi E. unfold page_rows. rewrite E, rows_from_delete. by rewrite Z2Nat.id, Z.add_0_l by done. Qed.
Lemma table_rows_delete fid V V' ps no (i : Z) : 0 <= i -> (forall q, q ∈ ps -> q <> no -> V' q = V q) ->
  heap_rows (V' no) = <[Z.to_nat i := None]> (heap_rows (V no)) ->
  table_rows fid V' ps = filter (fun x => x.1 <> mkRef (mkPid fid no) i) (table_rows fid V ps).
Proof.
  intros Hi Hq Hr. induction ps as [|p ps IH]; [done|]. unfold table_rows in *. cbn [fmap list_fmap concat]. rewrite list.filter_app. f_equal.
  - destruct (decide (p = no)) as [->|Hne]; [by apply page_rows_delete|]. rewrite (Hq p) by (done || by left). by rewrite page_rows_other.
  - apply IH. intros q Hin. apply Hq. by right.
Qed.
Lemma heap_page_delete p i : heap_page p -> i ∈ live_slots p ->
  heap_page (heap_delete p i) /\ heap_rows (heap_delete p i) = <[Z.to_nat i := None]> (heap_rows p) /\ h_next_page (heap_delete p i) = h_next_page p.
Proof.
  intros Hp Hi. apply (live_slots_spec p i (proj1 Hp)) in Hi as [Hi _].
  destruct (heap_delete_ok p i (proj1 Hp) Hi) as (D1 & D2 & D3 & D4). rewrite (heap_page_magic p Hp) in D3. by split_and!.
Qed.
Section delete.
Context (e : Engine) (fid N : Z) (ps : list Z) (Henv : row_env e fid N) (HN : 0 <= N < 2 ^ 32) (Hok : table_ok e fid ps).
Context (no i : Z) (Hno : no ∈ ps) (Hi : 0 <= i).
Notation p := (page_of e fid no).
Notation ref := (mkRef (mkPid fid no) i).
(** Deleting a live row; a row already gone stays gone. *)
Lemma delete_row_ok :
  if decide (i ∈ live_slots p) then
    exists e', delete_row ref e = (Ok 1, e') /\ table_ok e' fid ps /\ rows_in e' fid ps = filter (fun x => x.1 <> ref) (rows_in e fid ps) /\ row_step fid N e e'
  else exists s, delete_row ref e = (Ok 0, set_pool s e) /\ reads fid N e s /\ pins_eq (pool e) s.
Proof using All.
  pose proof (row_read_env e fid N Henv) as Hre. pose proof Hok as [Hs Hf].
  destruct (row_page e fid N ps Hre HN Hok no i Hno Hi) as [Hb Hp]. pose proof (slot_gone_spec p i (proj1 Hp) Hi) as Hg.
  assert (exists pg s1, delete_row ref e = (if slot_gone p i then _ ← stored (unpin pg); mret 0 else
      _ ← stored (poke pg (heap_delete p i)); _ ← stored (mark_dirty pg); _ ← stored (unpin pg); mret 1) (set_pool s1 e) /\
    reads fid N e s1 /\ holds (pool e) s1 (mkPid fid no) pg) as (pg & s1 & -> & R3 & R4).
  { destruct (pin_page e fid N Hre ltac:(lia) no MAGIC_HEAP) as (pg & s1 & R1 & R2 & R3 & R4); [lia|apply Hp|]. exists pg, s1. split_and!; try done.
    unfold delete_row. run (check_txn_ok e fid N Henv). run (check_ref_ok e fid N ps no i (re_within _ _ _ Henv) ltac:(lia) ltac:(lia) Hok Hno).
    cbn [rpage rslot]. run R1. by run R2. }
  case_decide as Hl.
  - rewrite (proj2 Hg Hl). destruct (heap_page_delete p i Hp Hl) as (D1 & D2 & D3). pose proof R3 as [K1 E1].
    destruct (finish_run (set_pool s1 e) K1 (pool e) (mkPid fid no) pg (heap_delete p i) (re_ok _ _ _ Henv) R4) as (s2 & F1 & F2 & F3 & F4 & F5 & F6).
    { cbn [pool set_pool]. rewrite (ev_att _ _ _ _ E1). apply Henv. }
    { apply (ev_txn _ _ _ _ E1), (row_env_txn e fid N Henv). }
    { by apply heap_page_len. }
    rewrite F1. clear F1. rewrite set_pool_twice. exists (set_pool s2 e). split; [done|].
    assert (forall q, 0 <= q -> q <> no -> page_of (set_pool s2 e) fid q = page_of e fid q) as Hq.
    { intros q Hq Hne. unfold page_of. cbn [pool set_pool]. rewrite (ev_view _ _ _ _ F3) by (cbn; lia || ne_page). by apply (reads_page fid N e s1). }
    assert (page_of (set_pool s2 e) fid no = heap_delete p i) as Hn by exact F5.
    assert (table_shape (set_pool s2 e) fid ps) as Hs2 by (apply (shape_update e _ fid ps no Hs Hno Hq); by rewrite Hn).
    split; [split; [done|]|split].
    + pose proof (proj2 (reads_table fid N e s1 ps R3 Hok)) as Hf1. revert Hf1. unfold tail_found, disk_page. cbn [pool set_pool tail_pages]. by rewrite F6.
    + unfold rows_in. apply table_rows_delete; [done| |by rewrite Hn].
      intros q Hin Hne. apply Hq; [|done]. destruct (segment_pos _ _ _ _ q (tb_chain _ _ _ Hs) Hin). lia.
    + apply (step_of fid N (fun p => file_id p = fid) (fun p => file_id p = fid /\ page_no p < N)); [|done|done|done|done].
      eapply evolves_trans; [eapply (evolves_weaken _ _ _ _ _ _ E1); [by intros ? []|done]|eapply (evolves_weaken _ _ _ _ _ _ F3); [by intros ? <-|by intros ? []]].
  - destruct (slot_gone p i) eqn:E; [|by destruct Hl; apply Hg].
    destruct (release_page e fid N Hre ltac:(lia) s1 no pg R3 R4) as (s2 & U1 & U2 & U3). run U1. by exists s2.
Qed.
End delete.

(** Whatever the slot holds, the row is gone afterwards and the others are left. *)
Lemma ref_live e fid ps no i : no ∈ ps -> mkRef (mkPid fid no) i ∈ (rows_in e fid ps).*1 <-> i ∈ live_slots (page_of e fid no).
Proof.
  intros Hno. split.
  - intros ((r & b) & E & Hx)%list_elem_of_fmap. apply rows_in_spec in Hx as (no' & i' & _ & Hi' & -> & _). cbn in E. by injection E as <- <-.
  - intros Hi. apply list_elem_of_fmap. exists (mkRef (mkPid fid no) i, record (page_of e fid no) i). split; [done|]. apply rows_in_spec. by exists no, i.
Qed.
Lemma without_absent ref (l : list (RowRef * bytes)) : ref ∉ l.*1 -> filter (fun x => x.1 <> ref) l = l.
Proof.
  induction l as [|x l IH]; [done|]. cbn [fmap list_fmap]. intros [H1 H2]%not_elem_of_cons. rewrite filter_cons_True by done. by rewrite IH.
Qed.
Lemma delete_row_gone e fid N ps no i : row_env e fid N -> 0 <= N < 2 ^ 32 -> table_ok e fid ps -> no ∈ ps -> 0 <= i ->
  let ref := mkRef (mkPid fid no) i in
  exists e', delete_row ref e = (Ok (if decide (ref ∈ (rows_in e fid ps).*1) then 1 else 0), e') /\ table_ok e' fid ps /\
    rows_in e' fid ps = filter (fun x => x.1 <> ref) (rows_in e fid ps) /\ row_step fid N e e'.
Proof.
  intros Henv HN Hok Hno Hi ref. pose proof (delete_row_ok e fid N ps Henv HN Hok no i Hno Hi) as Hd.
  pose proof (ref_live e fid ps no i Hno) as Hl. fold ref in Hl, Hd. destruct (decide (i ∈ live_slots _)) as [Hi'|Hi'].
  - rewrite decide_True by (by apply Hl). exact Hd.
  - rewrite decide_False by (by rewrite Hl). destruct Hd as (s & -> & Hr & Hp). exists (set_pool s e). split; [done|].
    split; [by eapply reads_table|]. split; [|by apply reads_step].
    rewrite without_absent by (by rewrite Hl). apply (shape_same e (set_pool s e) fid ps (proj1 Hok)). intros q Hq. by eapply reads_page.
Qed.
(** Deleting a list of references, one after the other. *)
Lemma delete_refs fid N ps : 0 <= N < 2 ^ 32 -> forall refs e, row_env e fid N -> table_ok e fid ps ->
  Forall (fun r => exists no i, r = mkRef (mkPid fid no) i /\ no ∈ ps /\ 0 <= i) refs ->
  exists e', forM refs (fun r => _ ← delete_row r; mret tt) e = (Ok tt, e') /\ table_ok e' fid ps /\
    rows_in e' fid ps = filter (fun x => x.1 ∉ refs) (rows_in e fid ps) /\ row_step fid N e e'.
Proof.
  intros HN refs; induction refs as [|r refs IH]; intros e Henv Hok Hr; cbn [forM].
  - exists e. split; [done|]. split; [done|]. split; [|by split; try done; [apply evolves_refl|apply Henv]].
    symmetry. induction (rows_in e fid ps) as [|x l IHl]; [done|]. rewrite filter_cons_True by (apply not_elem_of_nil). by rewrite IHl.
  - apply Forall_cons_1 in Hr as [(no & i & -> & Hno & Hi) Hr].
    destruct (delete_row_gone e fid N ps no i Henv HN Hok Hno Hi) as (e1 & D1 & D2 & D3 & D4). rewrite run_assoc. run D1.
    destruct (IH e1 (row_env_step fid N N e e1 ltac:(lia) Henv D4) D2 Hr) as (e2 & E1 & E2 & E3 & E4).
    exists e2. rewrite run_ret. split; [done|]. split; [done|]. split; [|by eapply row_step_trans]. rewrite E3, D3, list_filter_filter.
    apply list_filter_iff. intros x. rewrite not_elem_of_cons. tauto.
Qed.
(** The whole table. *)
Lemma delete_all_ok e fid N ps fuel : row_env e fid N -> 0 <= N < 2 ^ 32 -> table_ok e fid ps -> (length ps <= fuel)%nat ->
  exists e', delete_all_rows fuel fid e = (Ok (zlen (rows_in e fid ps)), e') /\ table_ok e' fid ps /\ rows_in e' fid ps = [] /\ row_step fid N e e'.
Proof.
  intros Henv HN Hok Hf. pose proof Hok as [Hs _].
  destruct (all_refs_ok e fid N ps (row_read_env e fid N Henv) ltac:(lia) Hs fuel Hf) as (s & R1 & R2 & R3).
  unfold delete_all_rows. run (check_txn_ok e fid N Henv). rewrite <- run_assoc. run R1.
  assert (row_step fid N e (set_pool s e)) as St by (by apply reads_step).
  assert (rows_in (set_pool s e) fid ps = rows_in e fid ps) as Er by (apply (shape_same e (set_pool s e) fid ps Hs); intros q Hq; by eapply reads_page).
  destruct (delete_refs fid N ps HN (rows_in e fid ps).*1 (set_pool s e)) as (e' & D1 & D2 & D3 & D4).
  { eapply (row_env_step fid N); [lia|exact Henv|exact St]. }
  { by eapply reads_table. }
  { apply list.Forall_forall. intros r ((r' & b) & -> & Hx)%list_elem_of_fmap. apply rows_in_spec in Hx as (no & i & Hno & Hi & -> & _).
    exists no, i. split; [done|]. split; [done|]. destruct (segment_pos _ _ _ _ no (tb_chain _ _ _ Hs) Hno) as [_ [Hwf _]]. apply (live_slots_spec _ i Hwf) in Hi as [Hi _]. lia. }
  run D1. exists e'. split; [unfold mret, st_ret, zlen; by rewrite length_fmap|]. split; [done|]. split; [|by eapply row_step_trans].
  rewrite D3, Er. apply elem_of_nil_inv. intros x [Hx Hin]%list_elem_of_filter. destruct Hx. apply list_elem_of_fmap. by exists x.
Qed.

(** What the whole-table reads find. *)
Definition found (fuel : nat) (fid : Z) (e : Engine) (rows : list (RowRef * bytes)) : Prop :=
  (exists s, row_count fuel fid e = (Ok (zlen rows), s)) /\
  forall cs vss, Forall2 (decodes cs) rows vss -> exists s, read_rows fuel fid cs e = (Ok vss, s).
Lemma found_ok e fid N ps fuel : read_env e fid N -> 0 <= N -> table_shape e fid ps -> (length ps <= fuel)%nat -> found fuel fid e (rows_in e fid ps).
Proof.
  intros Hre HN Hs Hf. split.
  - destruct (row_count_ok e fid N ps Hre HN Hs fuel Hf) as (s & E & _). by eexists.
  - intros cs vss Hd. destruct (read_rows_ok e fid N ps Hre HN Hs fuel Hf cs vss Hd) as (s & E & _). by eexists.
Qed.

(** * The properties *)
(** Rows by reference: for any slot of a page of the table, [delete_row] returns 1 if a row is there and 0 if
    not, the table is left without that row and with all the others, a second deletion returns 0, [read_row] finds
    the row's values before and nothing after, and the other tables keep their rows. *)
Theorem delete_row_correct e fid N ps no i cs : row_env e fid N -> 0 <= N < 2 ^ 32 -> table_ok e fid ps -> no ∈ ps -> 0 <= i ->
  let ref := mkRef (mkPid fid no) i in
  (forall b vs, (ref, b) ∈ rows_in e fid ps -> decodes cs (ref, b) vs -> exists s, read_row ref cs e = (Ok (Some vs), s)) /\
  exists e', delete_row ref e = (Ok (if decide (ref ∈ (rows_in e fid ps).*1) then 1 else 0), e') /\ row_env e' fid N /\ table_ok e' fid ps /\
    rows_in e' fid ps = filter (fun x => x.1 <> ref) (rows_in e fid ps) /\
    (exists s, delete_row ref e' = (Ok 0, s)) /\ (exists s, read_row ref cs e' = (Ok None, s)) /\
    forall g qs, g <> fid -> table_ok e g qs -> table_ok e' g qs /\ rows_in e' g qs = rows_in e g qs.
Proof.
  intros Henv HN Hok Hno Hi ref. split.
  - intros b vs Hin Hd. pose proof Hin as (no' & i' & _ & Hl & [= <- <-] & ->)%rows_in_spec.
    pose proof (read_row_ok e fid N ps (row_read_env e fid N Henv) HN Hok no i Hno Hi cs) as Hr. rewrite decide_True in Hr by done.
    destruct (Hr vs Hd) as (s & E & _). by eexists.
  - destruct (delete_row_gone e fid N ps no i Henv HN Hok Hno Hi) as (e' & D1 & D2 & D3 & D4). fold ref in D1, D3.
    pose proof (row_env_step fid N N e e' ltac:(lia) Henv D4) as Henv'. assert (ref ∉ (rows_in e' fid ps).*1) as Hgone.
    { rewrite D3. intros (x & E & [Hx _]%list_elem_of_filter)%list_elem_of_fmap. by destruct Hx. }
    exists e'. split_and!; try done; [| |intros g qs Hg Hq; by eapply table_frame].
    + destruct (delete_row_gone e' fid N ps no i Henv' HN D2 Hno Hi) as (s & E & _). fold ref in E. rewrite decide_False in E by done. by exists s.
    + pose proof (read_row_ok e' fid N ps (row_read_env e' fid N Henv') HN D2 no i Hno Hi cs) as Hr. rewrite decide_False in Hr by (by rewrite <- ref_live by done).
      destruct Hr as (s & E & _). by eexists.
Qed.
(** C25. Emptying a table terminates and is exact: with fuel for the pages of the chain, [delete_all_rows] returns the number of
    the rows that were live, after it [row_count] is 0 and [read_rows] finds nothing, and the other tables keep their rows. *)
Theorem delete_all_rows_empties e fid N ps fuel : row_env e fid N -> 0 <= N < 2 ^ 32 -> table_ok e fid ps -> (length ps <= fuel)%nat ->
  exists e', delete_all_rows fuel fid e = (Ok (zlen (rows_in e fid ps)), e') /\ row_env e' fid N /\ table_ok e' fid ps /\ found fuel fid e' [] /\
    forall g qs, g <> fid -> table_ok e g qs -> table_ok e' g qs /\ rows_in e' g qs = rows_in e g qs.
Proof.
  intros Henv HN Hok Hf. destruct (delete_all_ok e fid N ps fuel Henv HN Hok Hf) as (e' & D1 & D2 & D3 & D4).
  pose proof (row_env_step fid N N e e' ltac:(lia) Henv D4) as Henv'. exists e'.
  split_and!; try done; [|intros g qs Hg Hq; by eapply table_frame]. rewrite <- D3. by apply (found_ok e' fid N ps fuel (row_read_env e' fid N Henv') ltac:(lia) (proj1 D2)).
Qed.
(** A table with one row. *)
Definition demo_rec : bytes := match encode_row demo_cols demo_row with Ok (Some r) => r | _ => [] end.
Lemma demo_filled : exists e ps ref, row_env e 5 3 /\ table_ok e 5 ps /\ rows_in e 5 ps = [(ref, demo_rec)] /\
  decodes demo_cols (ref, demo_rec) (zip_with Codec.stored demo_cols demo_row).
Proof.
  destruct demo_table_ok as [Henv Hok]. assert (encode_row demo_cols demo_row = Ok (Some demo_rec)) as He by (vm_compute; reflexivity).
  destruct (insert_row_ok demo_table 5 1 [] demo_cols demo_row demo_rec Henv ltac:(lia) ltac:(lia) Hok He) as (e & ps & ref & _ & I1 & I2 & I3 & _).
  - vm_compute. discriminate.
  - exact (encode_row_bytes demo_cols demo_row demo_rec demo_cols_ok demo_row_ok He).
  - exists e, ps, ref. split; [eapply (row_env_step 5 1); [lia|exact Henv|exact I3]|]. split; [exact I1|]. split; [exact I2|].
    apply (row_round_trip demo_cols demo_row demo_rec demo_cols_ok demo_row_ok He). vm_compute. discriminate.
Qed.
Lemma delete_row_correct_witness : exists e ps ref, (ref, demo_rec) ∈ rows_in e 5 ps /\
  (exists s, read_row ref demo_cols e = (Ok (Some (zip_with Codec.stored demo_cols demo_row)), s)) /\
  exists e', delete_row ref e = (Ok 1, e') /\ rows_in e' 5 ps = [] /\ exists s, read_row ref demo_cols e' = (Ok None, s).
Proof.
  destruct demo_filled as (e & ps & ref & Henv & Hok & Hr & Hd). exists e, ps, ref. assert ((ref, demo_rec) ∈ rows_in e 5 ps) as Hin by (rewrite Hr; left).
  split; [exact Hin|]. pose proof Hin as (no & i & Hno & Hi & -> & _)%rows_in_spec.
  destruct (segment_pos _ _ _ _ no (tb_chain _ _ _ (proj1 Hok)) Hno) as [_ [Hwf _]]. pose proof (proj1 (live_slots_spec _ i Hwf) Hi) as [Hi0 _].
  destruct (delete_row_correct e 5 3 ps no i demo_cols Henv ltac:(lia) Hok Hno ltac:(lia)) as (H1 & e' & H2 & _ & _ & H3 & _ & H4 & _).
  split; [exact (H1 _ _ Hin Hd)|]. exists e'. rewrite Hr in H2, H3. cbn [fmap list_fmap] in H2. rewrite decide_True in H2 by left. split; [exact H2|].
  split; [|exact H4]. rewrite H3. rewrite filter_cons_False by (intros E; by destruct E). exact (filter_nil _).
Defined.
Lemma delete_all_rows_empties_witness : exists e fuel e', delete_all_rows fuel 5 e = (Ok 1, e') /\ found fuel 5 e' [].
Proof.
  destruct demo_filled as (e & ps & ref & Henv & Hok & Hr & _). exists e, (length ps).
  destruct (delete_all_rows_empties e 5 3 ps (length ps) Henv ltac:(lia) Hok ltac:(lia)) as (e' & H1 & _ & _ & H2 & _). rewrite Hr in H1. by exists e'.
Defined.
