(* ===== verification/Scanner.v ===== *)
(** The table scanner (src/storage/engine.cpp, Engine::Scanner) as a state machine: its position is the list of rows
    that are left, one call of [next] yields the head of the list, and the scan ends with every page released. *)
From stdpp Require Import sorting.
From S2P Require Import Prelude Key Types Codec Page Wal Disk Recovery State Node Pool Diff PoolSpec Txn Session Tree Engine Table Rows.

#[local] Opaque seal init_page.

(** * The rows of a page from a slot on *)
Definition page_rest (fid no : Z) (p : bytes) (i : Z) : list (RowRef * bytes) := rows_from fid no i (drop (Z.to_nat i) (heap_rows p)).
Lemma page_rest_0 fid no p : page_rest fid no p 0 = page_rows fid no p.
Proof. done. Qed.
Lemma page_rest_end fid no p : 0 <= h_slot_count p -> page_rest fid no p (h_slot_count p) = [].
Proof. intros Hn. unfold page_rest. rewrite drop_ge; [done|]. rewrite length_heap_rows. lia. Qed.
Lemma page_rest_step fid no p i : 0 <= i < h_slot_count p -> page_rest fid no p i =
  if slot_tombstone p i then page_rest fid no p (i + 1) else (mkRef (mkPid fid no) i, record p i) :: page_rest fid no p (i + 1).
Proof.
  intros Hi. unfold page_rest. assert (heap_rows p !! Z.to_nat i = Some (slot_record p i)) as E by (rewrite heap_rows_lookup, decide_True by lia; done).
  rewrite (drop_S _ _ _ E). replace (S (Z.to_nat i)) with (Z.to_nat (i + 1)) by lia. cbn [rows_from]. unfold slot_record. by destruct (slot_tombstone p i).
Qed.
Lemma skip_dead_ok fid no p n i : heap_wf p -> 0 <= i <= h_slot_count p -> h_slot_count p - i <= Z.of_nat n ->
  let j := skip_dead n p i in i <= j <= h_slot_count p /\ page_rest fid no p j = page_rest fid no p i /\ (j < h_slot_count p -> slot_tombstone p j = false).
Proof.
  intros Hp. pose proof (heap_bounds p Hp) as (_ & Hc & _). revert i; induction n as [|n IH]; intros i Hi Hn; cbn [skip_dead].
  - split_and!; [lia..|done|lia].
  - destruct (Z.ltb_spec i (h_slot_count p)); cbn [andb]; [|split_and!; [lia..|done|lia]].
    destruct (slot_tombstone p i) eqn:Et; [|split_and!; [lia..|done|done]]. rewrite wrap_small by lia.
    destruct (IH (i + 1) ltac:(lia) ltac:(lia)) as (J1 & J2 & J3). split_and!; [lia..| |done]. rewrite J2. symmetry. by rewrite page_rest_step, Et by lia.
Qed.

(** * Positions *)
Section scanner.
Context (s0 : Store) (fid N : Z) (cs : list ColumnSpec) (Hok0 : pool_ok ∅ s0) (HN : 0 <= N).
(** Between two pages [ps] are left; on a page, also the rest of its slots. *)
Record between (e : Engine) (c : Scanner) (ps : list Z) : Prop := {
  be_chain : segment (page_of e fid) (next_page_no c) ps 0;
  be_bound : Forall (fun q => q < N) ps;
  be_fid : sc_fid c = fid; be_cols : sc_cols c = cs; be_live : sc_done c = false }.
Record on_slot (e : Engine) (c : Scanner) (no : Z) (pg : nat) : Prop := {
  os_data : cur_data c = Some pg;
  os_page : cur_page c = mkPid fid no;
  os_bound : 0 <= no < N;
  os_heap : heap_page (page_of e fid no);
  os_next : next_page_no c = h_next_page (page_of e fid no);
  os_slot : 0 <= sc_slot c <= h_slot_count (page_of e fid no);
  os_holds : holds s0 (pool e) (mkPid fid no) pg }.
Inductive position (e : Engine) (c : Scanner) : nat -> list (RowRef * bytes) -> Prop :=
| pos_between ps : between e c ps -> cur_data c = None -> pins_eq s0 (pool e) -> position e c (S (length ps)) (table_rows fid (page_of e fid) ps)
| pos_on ps no pg : between e c ps -> on_slot e c no pg ->
    position e c (S (length ps)) (page_rest fid no (page_of e fid no) (sc_slot c) ++ table_rows fid (page_of e fid) ps)
| pos_done : sc_done c = true -> cur_data c = None -> pins_eq s0 (pool e) -> position e c 0 [].
(** The engine a scanner runs on: a frame is left beside those of [s0]. *)
Record scan_env (e : Engine) : Prop := {
  se_ok : pool_ok ∅ (pool e); se_pins : pins s0 < zlen (frames (pool e)); se_within : within (pool e) fid N }.
Lemma scan_env_reads e s : scan_env e -> reads fid N e s -> scan_env (set_pool s e).
Proof using HN.
  intros [] Hr. split; cbn [pool set_pool]; [apply Hr| |by eapply reads_within].
  unfold zlen in *. by rewrite (ev_len _ _ _ _ (rr_evolves _ _ _ _ Hr)).
Qed.
Lemma between_reads e s c ps : reads fid N e s -> between e c ps -> between (set_pool s e) c ps.
Proof using.
  intros Hr []. split; try done. eapply segment_ext; [|done]. intros q Hq. eapply reads_page; [done|]. destruct (segment_pos _ _ _ _ q be_chain0 Hq). lia.
Qed.

(** [advance_page], the current page released: onto the next page, or to the end. *)
Lemma advance_from e c ps : scan_env e -> between e c ps -> pins_eq s0 (pool e) ->
  exists c' s', (if next_page_no c =? 0 then mret (mkScanner (sc_fid c) (sc_cols c) None (cur_page c) (sc_slot c) (next_page_no c) true)
    else let pid := mkPid (sc_fid c) (next_page_no c) in
      pg ← stored (read pid MAGIC_HEAP); p ← bytes_of pg;
      mret (mkScanner (sc_fid c) (sc_cols c) (Some pg) pid 0 (h_next_page p) (sc_done c))) e = (Ok c', set_pool s' e) /\
    reads fid N e s' /\
    match ps with
    | [] => position (set_pool s' e) c' 0 []
    | no :: ps => exists pg, between (set_pool s' e) c' ps /\ on_slot (set_pool s' e) c' no pg /\ sc_slot c' = 0
    end.
Proof using All.
  intros Henv Hb Hp. pose proof Hb as [Hc Hbd Hf Hcs Hl]. destruct ps as [|no ps].
  - cbn [segment] in Hc. rewrite Hc, Z.eqb_refl. eexists _, (pool e). split; [by destruct e|]. split; [apply reads_refl, Henv|].
    by apply pos_done.
  - destruct Hc as (Hn & Hpos & Hh & Hc). rewrite Hn. destruct (Z.eqb_spec no 0); [lia|]. rewrite Hf. apply Forall_cons_1 in Hbd as [Hlt Hbd].
    assert (read_env e fid N) as Hre.
    { destruct Henv. split; [done| |done]. by rewrite (proj2 Hp). }
    destruct (pin_page e fid N Hre HN no MAGIC_HEAP) as (pg & s & R1 & R2 & R3 & R4); [lia|apply Hh|]. cbn zeta. run R1. run R2.
    eexists _, s. split; [done|]. split; [done|]. exists pg.
    assert (page_of (set_pool s e) fid no = page_of e fid no) as Ev by (eapply reads_page; [done|lia]).
    split; [|split; [|done]].
    + split; try done. cbn [next_page_no]. eapply segment_ext; [|done]. intros q Hq. eapply reads_page; [done|]. destruct (segment_pos _ _ _ _ q Hc Hq). lia.
    + pose proof (heap_bounds _ (proj1 Hh)) as (_ & Hcnt & _). split; cbn; rewrite ?Ev; try done; try lia. by eapply eq_holds.
Qed.
(** [advance_page], from between two pages and from the end of one. *)
Lemma leave_page e c no pg : scan_env e -> cur_data c = Some pg -> holds s0 (pool e) (mkPid fid no) pg -> exists s,
  stored (unpin pg) e = (Ok tt, set_pool s e) /\ reads fid N e s /\ pins_eq s0 s.
Proof using All.
  intros Henv Hd Hh. destruct (unpin_run e (se_ok _ Henv) s0 (mkPid fid no) pg Hok0 Hh) as (s & U1 & U2 & U3 & U4).
  exists s. split_and!; [done| |done]. by eapply reads_of; [|exact U3|intros ? []].
Qed.
Lemma advance_ok e c ps : scan_env e -> between e c ps -> (cur_data c = None /\ pins_eq s0 (pool e)) \/ (exists no pg, cur_data c = Some pg /\ holds s0 (pool e) (mkPid fid no) pg) ->
  exists c' s', advance_page c e = (Ok c', set_pool s' e) /\ reads fid N e s' /\
    match ps with
    | [] => position (set_pool s' e) c' 0 []
    | no :: ps => exists pg, between (set_pool s' e) c' ps /\ on_slot (set_pool s' e) c' no pg /\ sc_slot c' = 0
    end.
Proof using All.
  intros Henv Hb [[Hd Hp]|(no & pg & Hd & Hh)]; unfold advance_page; rewrite Hd.
  - rewrite run_ret. by apply advance_from.
  - destruct (leave_page e c no pg Henv Hd Hh) as (s & U1 & U2 & U3). run U1.
    destruct (advance_from (set_pool s e) c ps (scan_env_reads e s Henv U2) (between_reads e s c ps U2 Hb) U3) as (c' & s' & A1 & A2 & A3).
    rewrite set_pool_twice in A1. exists c', s'. split_and!; [exact A1|by eapply reads_trans|]. by rewrite set_pool_twice in A3.
Qed.
(** Moving the slot of a scanner. *)
Lemma on_slot_at e c no pg k : on_slot e c no pg -> 0 <= k <= h_slot_count (page_of e fid no) ->
  on_slot e (mkScanner (sc_fid c) (sc_cols c) (cur_data c) (cur_page c) k (next_page_no c) (sc_done c)) no pg.
Proof using. intros [] Hk. by split. Qed.
Lemma between_at e c ps k : between e c ps -> between e (mkScanner (sc_fid c) (sc_cols c) (cur_data c) (cur_page c) k (next_page_no c) (sc_done c)) ps.
Proof using. intros []. by split. Qed.

(** What one call of [next] does to the rows [rem] that are left: the end, or the first of them. *)
Definition next_result (e : Engine) (m : nat) (rem : list (RowRef * bytes)) (re : result (option Row * Scanner) * Engine) : Prop :=
  match rem with
  | [] => exists s' c', re = (Ok (None, c'), set_pool s' e) /\ reads fid N e s' /\ position (set_pool s' e) c' 0 []
  | x :: rem => forall vs, decodes cs x vs -> exists s' c' m', re = (Ok (Some (mkRow 0 x.1 vs), c'), set_pool s' e) /\ reads fid N e s' /\
      (m' <= m)%nat /\ position (set_pool s' e) c' m' rem
  end.
Lemma next_result_reads e s m m' rem re : reads fid N e s -> (m <= m')%nat -> next_result (set_pool s e) m rem re -> next_result e m' rem re.
Proof using.
  intros Hr Hm. destruct rem as [|x rem]; cbn [next_result].
  - intros (s' & c' & -> & H1 & H2). rewrite set_pool_twice in *. exists s', c'. split_and!; [done|by eapply reads_trans|done].
  - intros H vs Hvs. destruct (H vs Hvs) as (s' & c' & k & -> & H1 & Hk & H2). rewrite set_pool_twice in *. exists s', c', k.
    split_and!; [done|by eapply reads_trans|lia|done].
Qed.
Lemma next_done fuel e c : pool_ok ∅ (pool e) -> position e c 0 [] -> next_result e 0 [] (scanner_next (S fuel) c e).
Proof using.
  intros Hok Hp. assert (sc_done c = true) as Hd by (by inversion Hp). cbn [scanner_next]. rewrite Hd.
  assert (set_pool (pool e) e = e) as E by (by destruct e). exists (pool e), c. rewrite E. split_and!; [done|by apply reads_refl|done].
Qed.
Notation at_slot c k := (mkScanner (sc_fid c) (sc_cols c) (cur_data c) (cur_page c) k (next_page_no c) (sc_done c)).
Lemma next_here fuel e c ps no pg : scan_env e -> between e c ps -> on_slot e c no pg -> let p := page_of e fid no in
  let i := skip_dead (Z.to_nat (h_slot_count p)) p (sc_slot c) in
  scanner_next (S fuel) c e =
    (if i <? h_slot_count p then
       vs ← unwinding (stored (unpin pg)) (decode_slot (sc_cols c) p i);
       mret (Some (mkRow 0 (mkRef (cur_page c) i) vs), at_slot c (wrap 16 (i + 1)))
     else c ← advance_page (at_slot c i); scanner_next fuel c) e.
Proof using Hok0.
  intros Henv Hb Hos p i. pose proof Hos as [O1 _ _ _ _ _ O7]. cbn [scanner_next]. rewrite (be_live _ _ _ Hb), O1, run_ret, O1.
  assert (bytes_of pg e = (Ok p, e)) as Hby by (unfold bytes_of, gets; by rewrite (data_view ∅ (pool e) pg _ _ (se_ok _ Henv) (ho_pin _ _ _ _ O7))).
  run Hby. by rewrite ?(be_live _ _ _ Hb).
Qed.
(** The row under the scanner. *)
Lemma yield_ok e c ps no pg i : scan_env e -> between e c ps -> on_slot e c no pg -> 0 <= i < h_slot_count (page_of e fid no) ->
  slot_tombstone (page_of e fid no) i = false ->
  next_result e (S (length ps)) (page_rest fid no (page_of e fid no) i ++ table_rows fid (page_of e fid) ps)
    ((vs ← unwinding (stored (unpin pg)) (decode_slot (sc_cols c) (page_of e fid no) i);
      mret (Some (mkRow 0 (mkRef (cur_page c) i) vs), at_slot c (wrap 16 (i + 1)))) e).
Proof using All.
  intros Henv Hb Hos Hi Ht. pose proof Hos as [O1 O2 O3 O4 O5 O6 O7]. pose proof (heap_bounds _ (proj1 O4)) as (_ & Hcnt & _).
  rewrite page_rest_step, Ht by lia. cbn [app next_result]. intros vs Hvs.
  assert (decode_slot (sc_cols c) (page_of e fid no) i e = (Ok vs, e)) as Hd.
  { rewrite (be_cols _ _ _ Hb). apply decode_slot_ok; [apply O4|apply live_slots_spec; [apply O4|done]|exact Hvs]. }
  rewrite run_match. unfold unwinding. rewrite Hd. rewrite (wrap_small 16) by lia. rewrite O2.
  eexists (pool e), _, (S (length ps)). split; [by destruct e|]. split; [apply reads_refl, Henv|]. split; [lia|]. rewrite <- O2.
  assert (set_pool (pool e) e = e) as -> by (by destruct e).
  apply (pos_on e (at_slot c (i + 1)) ps no pg); [by apply between_at|]. apply on_slot_at; [done|lia].
Qed.
Lemma next_on ps : forall fuel e c no pg, scan_env e -> between e c ps -> on_slot e c no pg -> (length ps + 1 < fuel)%nat ->
  next_result e (S (length ps)) (page_rest fid no (page_of e fid no) (sc_slot c) ++ table_rows fid (page_of e fid) ps) (scanner_next fuel c e).
Proof using All.
  induction ps as [|q ps IH]; intros fuel e c no pg Henv Hb Hos Hfuel; (destruct fuel as [|fuel]; [lia|]); rewrite (next_here fuel e c _ no pg Henv Hb Hos).
  all: pose proof Hos as [O1 O2 O3 O4 O5 O6 O7]; pose proof (heap_bounds _ (proj1 O4)) as (_ & Hcnt & _).
  all: destruct (skip_dead_ok fid no (page_of e fid no) (Z.to_nat (h_slot_count (page_of e fid no))) (sc_slot c) (proj1 O4) O6 ltac:(lia)) as (J1 & J2 & J3).
  all: set (i := skip_dead _ _ _) in *; rewrite <- J2; destruct (Z.ltb_spec i (h_slot_count (page_of e fid no))) as [Hi|Hi].
  1, 3: apply (yield_ok e c _ no pg i Henv Hb Hos); [lia|by apply J3].
  all: assert (i = h_slot_count (page_of e fid no)) as Ei by lia; rewrite Ei, page_rest_end by lia; cbn [app].
  all: destruct (advance_ok e (at_slot c (h_slot_count (page_of e fid no))) _ Henv (between_at e c _ _ Hb)) as (c' & s' & A1 & A2 & A3); [right; by exists no, pg|].
  all: run A1.
  - apply (next_result_reads e s' 0); [done|lia|]. destruct fuel as [|fuel]; [lia|]. apply next_done; [apply A2|done].
  - destruct A3 as (pg' & B1 & B2 & B3). cbn [length] in *. apply (next_result_reads e s' (S (length ps))); [done|lia|].
    assert (page_of (set_pool s' e) fid q = page_of e fid q) as Eq by (eapply reads_page; [done|]; apply (os_bound _ _ _ _ B2)).
    assert (table_rows fid (page_of e fid) (q :: ps) = page_rest fid q (page_of (set_pool s' e) fid q) (sc_slot c') ++ table_rows fid (page_of (set_pool s' e) fid) ps) as ->.
    { rewrite B3, page_rest_0, Eq. unfold table_rows. cbn [fmap list_fmap concat]. f_equal. symmetry. apply table_rows_ext. intros x Hx.
      eapply reads_page; [done|]. destruct (segment_pos _ _ _ _ x (be_chain _ _ _ B1) Hx). lia. }
    apply (IH fuel (set_pool s' e) c' q pg'); [by apply scan_env_reads|done|done|lia].
Qed.
Lemma next_turned fuel c c' e e' pg : advance_page c e = (Ok c', e') -> sc_done c = false -> cur_data c = None -> sc_done c' = false ->
  cur_data c' = Some pg -> scanner_next (S fuel) c e = scanner_next (S fuel) c' e'.
Proof.
  intros HA Hl Hd Hl' Hd'. destruct c' as [f1 cs1 d1 p1 k1 n1 b1]. cbn [sc_done cur_data] in *. subst. cbn [scanner_next]. rewrite Hl, Hd. run HA.
  cbn [sc_done cur_data]. by rewrite run_ret.
Qed.
Lemma next_between fuel e c ps : scan_env e -> between e c ps -> cur_data c = None -> pins_eq s0 (pool e) -> (length ps < fuel)%nat ->
  next_result e (S (length ps)) (table_rows fid (page_of e fid) ps) (scanner_next fuel c e).
Proof using All.
  intros Henv Hb Hd Hp Hfuel. destruct fuel as [|fuel]; [lia|]. destruct (advance_ok e c ps Henv Hb) as (c' & s' & A1 & A2 & A3); [by left|].
  destruct ps as [|q ps].
  - cbn [scanner_next]. rewrite (be_live _ _ _ Hb), Hd. run A1. assert (cur_data c' = None) as -> by (by inversion A3). exists s', c'. by split_and!.
  - destruct A3 as (pg & B1 & B2 & B3). apply (next_result_reads e s' (S (length ps))); [done|cbn [length]; lia|].
    assert (page_of (set_pool s' e) fid q = page_of e fid q) as Eq by (eapply reads_page; [done|]; apply (os_bound _ _ _ _ B2)).
    assert (table_rows fid (page_of e fid) (q :: ps) = page_rest fid q (page_of (set_pool s' e) fid q) (sc_slot c') ++ table_rows fid (page_of (set_pool s' e) fid) ps) as ->.
    { rewrite B3, page_rest_0, Eq. unfold table_rows. cbn [fmap list_fmap concat]. f_equal. symmetry. apply table_rows_ext. intros x Hx.
      eapply reads_page; [done|]. destruct (segment_pos _ _ _ _ x (be_chain _ _ _ B1) Hx). lia. }
    rewrite (next_turned fuel c c' e (set_pool s' e) pg A1 (be_live _ _ _ Hb) Hd (be_live _ _ _ B1) (os_data _ _ _ _ B2)).
    apply (next_on ps (S fuel) (set_pool s' e) c' q pg); [by apply scan_env_reads|done|done|cbn [length] in Hfuel; lia].
Qed.
Lemma scanner_next_ok fuel e c m rem : scan_env e -> position e c m rem -> (m < fuel)%nat -> next_result e m rem (scanner_next fuel c e).
Proof using All.
  intros Henv Hp Hf. inversion Hp; subst.
  - apply next_between; try done. lia.
  - eapply next_on; try done. lia.
  - destruct fuel as [|fuel]; [lia|]. apply next_done; [apply Henv|done].
Qed.
(** Pulling the scanner to its end. *)
Definition scanned (x : RowRef * bytes) (vs : list Value) : Row := mkRow 0 x.1 vs.
Lemma scanner_drain_ok rem : forall fuel e c m vss, scan_env e -> position e c m rem -> Forall2 (decodes cs) rem vss -> (m + length rem < fuel)%nat ->
  exists s', scanner_drain fuel c e = (Ok (zip_with scanned rem vss), set_pool s' e) /\ reads fid N e s' /\ pins_eq s0 s'.
Proof using All.
  induction rem as [|x rem IH]; intros fuel e c m vss Henv Hp Hd Hf; (destruct fuel as [|fuel]; [lia|]); cbn [length] in Hf;
    pose proof (scanner_next_ok (S fuel) e c m _ Henv Hp ltac:(lia)) as Hn; cbn [next_result] in Hn; cbn [scanner_drain].
  - destruct Hn as (s' & c' & E & H1 & H2). inversion H2; subst. run E. unfold scanner_close.
    match goal with H : cur_data c' = None |- _ => rewrite H end. rewrite run_assoc, !run_ret. apply Forall2_nil_inv_l in Hd as ->. by exists s'.
  - apply Forall2_cons_inv_l in Hd as (vs & vss' & Hvs & Hd & ->). destruct (Hn vs Hvs) as (s' & c' & m' & E & H1 & H2 & H3). run E.
    destruct (IH fuel (set_pool s' e) c' m' vss') as (s2 & D1 & D2 & D3); [by apply scan_env_reads|done|done|lia|].
    run D1. exists s2. rewrite set_pool_twice. split_and!; [done|by eapply reads_trans|done].
Qed.
End scanner.

(** A scanner just opened is before all rows. *)
Lemma opened_position e fid N cs ps s1 : read_env e fid N -> 0 <= N -> table_shape e fid ps -> reads fid N e s1 -> pins_eq (pool e) s1 ->
  position (pool e) fid N cs (set_pool s1 e) (mkScanner fid cs None INVALID_PAGE 0 (h_next_page (page_of e fid 0)) false) (S (length ps)) (rows_in e fid ps) /\
  scan_env (pool e) fid N (set_pool s1 e).
Proof.
  intros Henv HN Hs F2 F3. set (c := mkScanner fid cs None INVALID_PAGE 0 (h_next_page (page_of e fid 0)) false).
  assert (rows_in (set_pool s1 e) fid ps = rows_in e fid ps) as Hr by (apply (shape_same e (set_pool s1 e) fid ps Hs); intros q Hq; by eapply reads_page). split.
  - rewrite <- Hr. apply pos_between; [|done|done]. split; try done.
    + eapply segment_ext; [|apply Hs]. intros q Hq. eapply reads_page; [done|]. destruct (segment_pos _ _ _ _ q (tb_chain _ _ _ Hs) Hq). lia.
    + exact (table_bounds e fid N ps HN (rd_within _ _ _ Henv) Hs).
  - destruct Henv. split; cbn [pool set_pool]; [apply F2| |by eapply reads_within]. unfold zlen in *. by rewrite (ev_len _ _ _ _ (rr_evolves _ _ _ _ F2)).
Qed.
(** A whole scan of a table. *)
Lemma table_scan_ok e fid N cs ps vss fuel : read_env e fid N -> 0 <= N -> table_shape e fid ps -> Forall2 (decodes cs) (rows_in e fid ps) vss ->
  (length ps + 1 + length vss < fuel)%nat ->
  exists s, table_scan fuel fid cs e = (Ok (zip_with scanned (rows_in e fid ps) vss), set_pool s e) /\ reads fid N e s /\ pins_eq (pool e) s.
Proof.
  intros Henv HN Hs Hd Hf. destruct (first_page_ok e fid N ps Henv HN Hs) as (s1 & F1 & F2 & F3). unfold table_scan, scanner_open. rewrite run_assoc. run F1. rewrite run_ret.
  destruct (opened_position e fid N cs ps s1 Henv HN Hs F2 F3) as [Hpos Hse].
  destruct (scanner_drain_ok (pool e) fid N cs (rd_ok _ _ _ Henv) HN (rows_in e fid ps) fuel (set_pool s1 e) _ (S (length ps)) vss Hse Hpos Hd) as (s2 & D1 & D2 & D3);
    [apply list.Forall2_length in Hd; lia|].
  exists s2. rewrite D1, set_pool_twice. split_and!; [done|by eapply reads_trans|done].
Qed.

(** * Insertions and a scan *)
(** A row that fits: it suits the columns, and a page takes its record. *)
Definition fits (cs : list ColumnSpec) (vs : list Value) : Prop :=
  Forall (fun v => wf_box (box v)) vs /\ exists rec, encode_row cs vs = Ok (Some rec) /\ zlen rec <= MAX_RECORD_LEN.
Definition inserted (cs : list ColumnSpec) (vs : list Value) : list Value := zip_with Codec.stored cs vs.
Lemma insert_all fid cs : Forall col_ok cs -> forall rows e N ps, row_env e fid N -> 0 <= N -> N + 2 * zlen rows < 2 ^ 32 -> table_ok e fid ps ->
  Forall (fits cs) rows -> exists new e' ps', traverse rows (insert_row fid cs) e = (Ok new, e') /\ row_env e' fid (N + 2 * zlen rows) /\ table_ok e' fid ps' /\
    exists xs, rows_in e' fid ps' = rows_in e fid ps ++ xs /\ Forall2 (decodes cs) xs (inserted cs <$> rows) /\ new.*2 = xs.*1.
Proof.
  intros Hcs rows; induction rows as [|vs rows IH]; intros e N ps Henv HN HN32 Hok Hf; cbn [traverse].
  - exists [], e, ps. split; [done|]. replace (N + 2 * zlen []) with N by (unfold zlen; cbn; lia). split_and!; try done. exists []. by rewrite app_nil_r.
  - rewrite zlen_cons in *. pose proof (zlen_nonneg rows) as Hz. apply Forall_cons_1 in Hf as [(Hvs & rec & He & Hl) Hf].
    destruct (insert_row_ok e fid N ps cs vs rec Henv HN ltac:(lia) Hok He Hl (encode_row_bytes cs vs rec Hcs Hvs He)) as (e1 & ps1 & ref & I1 & I2 & I3 & I4 & _).
    destruct (IH e1 (N + 2) ps1) as (new & e' & ps' & T1 & T2 & T3 & xs & T4 & T5 & T6); [by eapply (row_env_step fid N (N + 2)); [lia|..]|lia|lia|done|done|].
    run I1. run T1. eexists _, e', ps'. split; [done|]. replace (N + 2 * (1 + zlen rows)) with (N + 2 + 2 * zlen rows) by lia. split_and!; try done.
    exists ((ref, rec) :: xs). split; [rewrite T4, I3; by rewrite <- app_assoc|]. split; [|cbn; by rewrite T6].
    constructor; [|done]. apply (row_round_trip cs vs rec Hcs Hvs He). assert (MAX_RECORD_LEN <= UINT16_MAX + 2) by (vm_compute; discriminate). lia.
Qed.
Lemma sorted_short ps N : forall a, StronglySorted Z.lt ps -> Forall (fun q => a <= q < N) ps -> a <= N -> zlen ps <= N - a.
Proof.
  induction ps as [|q ps IH]; intros a Hs Hb HN; [unfold zlen; cbn; lia|]. rewrite zlen_cons. apply StronglySorted_inv in Hs as [Hs Hq].
  apply Forall_cons_1 in Hb as [Hq0 Hb]. assert (zlen ps <= N - (q + 1)); [|lia]. apply IH; [done| |lia].
  rewrite !list.Forall_forall in *. intros x Hx. specialize (Hb x Hx). specialize (Hq x Hx). lia.
Qed.
Lemma table_short e fid N ps : within (pool e) fid N -> 0 <= N -> table_shape e fid ps -> zlen ps <= N.
Proof.
  intros Hw HN Hs. rewrite <- (Z.sub_0_r N). apply (sorted_short ps N 0); [apply Hs| |done]. pose proof (table_bounds e fid N ps HN Hw Hs) as Hb.
  rewrite !list.Forall_forall in *. intros q Hq. destruct (segment_pos _ _ _ _ q (tb_chain _ _ _ Hs) Hq). specialize (Hb q Hq). lia.
Qed.

(** * The property *)
(** C22. What is inserted is scanned: rows that fit the columns, inserted one after the other into a table, are
    returned by a scan of the table, which ends, after the rows it had, in the order of their insertion, each with
    the reference [insert_row] gave for it and the values as stored ([CHAR] padded, numerics at the column's scale);
    [read_rows] returns the same values. *)
Theorem inserted_rows_scan e fid N ps cs old rows fuel : row_env e fid N -> 0 <= N -> N + 2 * zlen rows < 2 ^ 32 -> table_ok e fid ps ->
  Forall col_ok cs -> Forall2 (decodes cs) (rows_in e fid ps) old -> Forall (fits cs) rows ->
  N + 2 * zlen rows + zlen old + zlen rows + 1 < Z.of_nat fuel ->
  exists new e', traverse rows (insert_row fid cs) e = (Ok new, e') /\
    (exists s, table_scan fuel fid cs e' = (Ok (zip_with (mkRow 0) ((rows_in e fid ps).*1 ++ new.*2) (old ++ (inserted cs <$> rows))), s)) /\
    exists s, read_rows fuel fid cs e' = (Ok (old ++ (inserted cs <$> rows)), s).
Proof.
  intros Henv HN HN32 Hok Hcs Hold Hf Hfuel.
  destruct (insert_all fid cs Hcs rows e N ps Henv HN HN32 Hok Hf) as (new & e' & ps' & T1 & T2 & T3 & xs & T4 & T5 & T6).
  exists new, e'. split; [done|]. pose proof (zlen_nonneg rows) as Hz. pose proof (zlen_nonneg old) as Hz'. pose proof (row_read_env _ _ _ T2) as Hre.
  pose proof (table_short e' fid _ ps' (rd_within _ _ _ Hre) ltac:(lia) (proj1 T3)) as Hl.
  assert (Forall2 (decodes cs) (rows_in e' fid ps') (old ++ (inserted cs <$> rows))) as Hd by (rewrite T4; by apply Forall2_app). split.
  - destruct (table_scan_ok e' fid _ cs ps' _ fuel Hre ltac:(lia) (proj1 T3) Hd) as (s & S1 & _).
    { rewrite length_app, length_fmap. unfold zlen in *. lia. }
    exists (set_pool s e'). rewrite S1. f_equal. f_equal. rewrite T4, T6, <- fmap_app, zip_with_fmap_l. done.
  - destruct (read_rows_ok e' fid _ ps' Hre ltac:(lia) (proj1 T3) fuel ltac:(unfold zlen in *; lia) cs _ Hd) as (s & S1 & _). by eexists.
Qed.
Lemma inserted_rows_scan_witness : exists refs e', traverse [demo_row; demo_row] (insert_row 5 demo_cols) demo_table = (Ok refs, e') /\
  (exists s, table_scan 20 5 demo_cols e' = (Ok (zip_with (mkRow 0) refs.*2 (inserted demo_cols <$> [demo_row; demo_row])), s)) /\
  exists s, read_rows 20 5 demo_cols e' = (Ok (inserted demo_cols <$> [demo_row; demo_row]), s).
Proof.
  destruct demo_table_ok as [Henv Hok]. assert (fits demo_cols demo_row) as Hf.
  { split; [exact demo_row_ok|]. exists demo_rec. split; vm_compute; [reflexivity|discriminate]. }
  assert (Forall2 (decodes demo_cols) (rows_in demo_table 5 []) []) as Ho by (unfold rows_in, table_rows; constructor).
  exact (inserted_rows_scan demo_table 5 1 [] demo_cols [] [demo_row; demo_row] 20 Henv ltac:(lia) ltac:(vm_compute; reflexivity) Hok demo_cols_ok
    Ho (Forall_cons_2 _ _ _ Hf (Forall_cons_2 _ _ _ Hf (Forall_nil_2 _))) ltac:(vm_compute; reflexivity)).
Defined.
