(* ===== verification/Serve.v ===== *)
(** The engine as the executor's storage: the scans and reads of the engine on a table and its indexes keep the
    contract under which the planner's plans are proved to return the right rows. *)
From stdpp Require Import sorting.
From S2P Require Import Prelude Types Ieee Finite Cast Typing Key Plan Query Codec Page Wal Disk Recovery State Node Pool Diff PoolSpec Txn Session.
From S2P Require Import Shape Tree TreeSpec Insert Scan Engine Table Rows Scanner.

(** * The storage *)
(** What a call on [e] returns; a scan that fails yields no rows before it does, which the contract does not use. *)
Definition engine_storage (fuel : nat) (e : Engine) : Storage := {|
  Query.scan t := of_result (table_scan fuel (tfile_id t) (cols t) e).1;
  Query.index_scan ifid l h := es ← (index_scan fuel ifid l h e).1; Ok (es, Ok tt);
  Query.read_row ref cs := (read_row ref cs e).1 |}.

(** * Tables and indexes that agree *)
Definition rows_of_table (e : Engine) (fid : Z) (ps : list Z) (vss : list (list Value)) : list Row := zip_with scanned (rows_in e fid ps) vss.
(** A row's entry in the index on column [ord]. *)
Definition row_entry (c : ColumnSpec) (ord : nat) (r : Row) : option BTreeEntry :=
  v ← rvalues r !! ord;
  match encode_key (ctype c) v with Ok k => Some (mkEntry k (Types.page_no (rpage (rref r))) (rslot (rref r))) | _ => None end.
(** The index: an open tree whose entries are those of the live rows, and entries left by deleted ones, whose slots
    stay taken. *)
Record index_ok (bound : Z -> Z) (e : Engine) (t : TableMeta) (ps : list Z) (rows : list Row) (ht fuel : nat) (ent : IndexEntry) (c : ColumnSpec) (b : BTree)
    (es : list BTreeEntry) : Prop := {
  io_col : cols t !! col_ordinal ent = Some c;
  io_type : indexable (ctype c);
  io_open : trees e !! ix_file_id ent = Some b;
  io_tree : exists h first fp, tree_ok (mkTS (pool e) b) h es first fp /\ (h <= ht)%nat /\ (h + 2 * length fp + length es + 1 < fuel)%nat;
  io_file : tree_file b = ix_file_id ent /\ next_page_hint b = bound (ix_file_id ent);
  io_within : within (pool e) (ix_file_id ent) (bound (ix_file_id ent)) /\ 0 < bound (ix_file_id ent) < 2 ^ 32;
  io_rows : Forall (fun r => exists x, row_entry c (col_ordinal ent) r = Some x /\ x ∈ es) rows;
  io_dead : Forall (fun x => (Key.page_no x ∈ ps /\ slot x < zlen (heap_rows (page_of e (tfile_id t) (Key.page_no x)))) /\
    forall r, r ∈ rows -> rref r = entry_ref (tfile_id t) x -> row_entry c (col_ordinal ent) r = Some x) es }.
(** A table at rest with its indexes: the bounds of the files' pages in [bound], of the trees' heights in [ht]. *)
Record served (bound : Z -> Z) (e : Engine) (t : TableMeta) (ps : list Z) (vss : list (list Value)) (ents : list IndexEntry) (ht fuel : nat) : Prop := {
  sv_env : read_env e (tfile_id t) (bound (tfile_id t));
  sv_bound : 0 <= bound (tfile_id t) < 2 ^ 32;
  sv_table : table_ok e (tfile_id t) ps;
  sv_rows : Forall2 (decodes (cols t)) (rows_in e (tfile_id t) ps) vss;
  sv_typed : Forall (Forall2 value_ok (col_types t)) vss;
  sv_fuel : (length ps + 1 + length vss < fuel)%nat;
  sv_index : Forall (fun ent => exists c b es, index_ok bound e t ps (rows_of_table e (tfile_id t) ps vss) ht fuel ent c b es) ents }.
(** What reading does to the engine: pages come into the pool, within the bounds; nothing else changes. *)
Record calm (bound : Z -> Z) (e : Engine) (s : Store) : Prop := {
  ca_ok : pool_ok ∅ s;
  ca_pins : pins_eq (pool e) s;
  ca_evolves : evolves no_page (fun p => Types.page_no p < bound (file_id p)) (pool e) s }.

Lemma reads_calm bound e fid s : reads fid (bound fid) e s -> pins_eq (pool e) s -> calm bound e s.
Proof. intros [H1 H2] H3. split; [done|done|]. eapply evolves_weaken; [exact H2|done|]. by intros p [-> ?]. Qed.

(** ** References are distinct *)
Lemma NoDup_concat_map {A B} (f : A -> list B) l : NoDup l -> (forall x, x ∈ l -> NoDup (f x)) ->
  (forall x y b, x ∈ l -> y ∈ l -> b ∈ f x -> b ∈ f y -> x = y) -> NoDup (concat (f <$> l)).
Proof.
  induction 1 as [|x l Hx Hl IH]; intros Hf Hd; cbn [fmap list_fmap concat]; [constructor|]. apply list.NoDup_app. split; [|split].
  - apply Hf. by left.
  - intros b Hb (ys & Hys & Hin)%list_elem_of_In%in_concat. apply list_elem_of_In in Hin. apply list_elem_of_In, list_elem_of_fmap in Hys as (y & -> & Hy).
    assert (x = y) as <- by (eapply Hd; [by left|by right|done|done]). done.
  - apply IH; [intros y Hy; apply Hf; by right|]. intros y z b Hy Hz. apply Hd; by right.
Qed.
Lemma live_slots_nodup p : NoDup (live_slots p).
Proof.
  unfold live_slots. apply NoDup_ListNoDup, List.NoDup_filter, NoDup_ListNoDup. apply NoDup_fmap_2; [apply _|apply NoDup_seq].
Qed.
Lemma sorted_nodup ps : StronglySorted Z.lt ps -> NoDup ps.
Proof.
  induction 1 as [|p ps Hs IH Hp]; constructor; [|done]. intros H. rewrite list.Forall_forall in Hp. specialize (Hp p H). lia.
Qed.
Lemma rows_in_nodup e fid ps : StronglySorted Z.lt ps -> NoDup (rows_in e fid ps).*1.
Proof.
  intros Hs. unfold rows_in. rewrite table_rows_map. apply NoDup_concat_map; [by apply sorted_nodup| |].
  - intros q _. rewrite page_rows_live, <- list_fmap_compose. apply NoDup_fmap_2; [|apply live_slots_nodup]. by intros i j [= ->].
  - intros q q' r _ _. rewrite !page_rows_live, <- !list_fmap_compose. intros (i & -> & _)%list_elem_of_fmap (j & [= -> _] & _)%list_elem_of_fmap. done.
Qed.
Lemma NoDup_omap_inj {A B} (f : A -> option B) l : NoDup l -> (forall x y b, x ∈ l -> y ∈ l -> f x = Some b -> f y = Some b -> x = y) -> NoDup (omap f l).
Proof.
  induction 1 as [|x l Hx Hl IH]; intros Hd; [constructor|]. assert (NoDup (omap f l)) as H by (apply IH; intros y z b Hy Hz; apply Hd; by right).
  cbn. destruct (f x) as [b|] eqn:E; [|done]. constructor; [|done]. intros (y & Hy & Hb)%list_elem_of_omap.
  assert (x = y) as <- by (eapply Hd; [by left|by right|done|done]). done.
Qed.
Lemma ordered_nodup es : ordered es -> NoDup es.
Proof. intros H%sorted_nodup. by eapply NoDup_fmap_1. Qed.

(** * The contract *)
Section serve.
Context (bound : Z -> Z) (e : Engine) (t : TableMeta) (ps : list Z) (vss : list (list Value)) (fuel : nat).
Notation fid := (tfile_id t).
Notation N := (bound fid).
Notation rows := (rows_of_table e fid ps vss).
Context (Henv : read_env e fid N) (HN : 0 <= N < 2 ^ 32) (Hok : table_ok e fid ps) (Hdec : Forall2 (decodes (cols t)) (rows_in e fid ps) vss).
Context (Hfuel : (length ps + 1 + length vss < fuel)%nat).
#[local] Instance here : Storage := engine_storage fuel e.

Lemma rows_refs : rref <$> rows = (rows_in e fid ps).*1.
Proof using Hdec.
  unfold rows_of_table. pose proof Hdec as H. clear Hfuel Hdec. induction H as [|x vs xs vss' _ _ IH]; [done|]. cbn [zip_with fmap list_fmap]. f_equal. exact IH.
Qed.
Lemma rows_elem r : r ∈ rows -> exists b, (rref r, b) ∈ rows_in e fid ps /\ decodes (cols t) (rref r, b) (rvalues r) /\ r = mkRow 0 (rref r) (rvalues r).
Proof using Hdec.
  unfold rows_of_table. pose proof Hdec as H. clear Hfuel Hdec. induction H as [|[ref b] vs xs vss' Hx _ IH]; [by intros ?%elem_of_nil|]. cbn [zip_with]. intros [->|Hr]%elem_of_cons.
  - exists b. split; [by left|done].
  - destruct (IH Hr) as (b' & H1 & H2 & H3). exists b'. split; [by right|done].
Qed.
Lemma rows_nodup : NoDup (rref <$> rows).
Proof using Hdec Hok. rewrite rows_refs. apply rows_in_nodup, Hok. Qed.
Lemma row_unique r r' : r ∈ rows -> r' ∈ rows -> rref r = rref r' -> r = r'.
Proof using Hdec Hok.
  pose proof rows_nodup as Hn. revert Hn. generalize rows. intros l. induction l as [|x l IH]; [by intros _ ?%elem_of_nil|]. cbn [fmap list_fmap].
  intros [Hx Hn]%list.NoDup_cons [->|Hr]%elem_of_cons [->|Hr']%elem_of_cons E; [done| | |by apply IH].
  - destruct Hx. rewrite E. by apply list_elem_of_fmap_2.
  - destruct Hx. rewrite <- E. by apply list_elem_of_fmap_2.
Qed.
Lemma scan_run : exists s, table_scan fuel fid (cols t) e = (Ok rows, set_pool s e) /\ calm bound e s.
Proof using All.
  destruct (table_scan_ok e fid N (cols t) ps vss fuel Henv ltac:(lia) (proj1 Hok) Hdec Hfuel) as (s & E & H1 & H2). exists s. split; [exact E|by apply (reads_calm bound e fid)].
Qed.
Lemma serve_scan : Query.scan t = (rows, Ok tt).
Proof using All. cbn. by destruct scan_run as (s & -> & _). Qed.
(** The row an entry leads to. *)
Definition row_at (x : BTreeEntry) : option Row := List.find (fun r => bool_decide (rref r = entry_ref fid x)) rows.
Lemma row_at_spec x r : row_at x = Some r <-> r ∈ rows /\ rref r = entry_ref fid x.
Proof using Hdec Hok.
  unfold row_at. split.
  - intros [H1 H2]%List.find_some. apply bool_decide_eq_true in H2. split; [by apply list_elem_of_In|done].
  - intros [H1 H2]. destruct (List.find _ _) as [r'|] eqn:E.
    + apply List.find_some in E as [E1 E2]. apply bool_decide_eq_true in E2. f_equal. apply row_unique; [by apply list_elem_of_In|done|congruence].
    + pose proof (List.find_none _ _ E r ltac:(by apply list_elem_of_In)) as Hn. by apply bool_decide_eq_false in Hn.
Qed.
Lemma entry_read x : Key.page_no x ∈ ps -> 0 <= slot x ->
  exists s, read_row (entry_ref fid x) (cols t) e = (Ok (rvalues <$> row_at x), set_pool s e) /\ calm bound e s.
Proof using All.
  intros Hp Hs. pose proof (read_row_ok e fid N ps Henv HN Hok (Key.page_no x) (slot x) Hp Hs (cols t)) as Hr.
  pose proof (ref_live e fid ps (Key.page_no x) (slot x) Hp) as Hl. unfold entry_ref in *. case_decide as Hd.
  - apply Hl in Hd as Hin. rewrite <- rows_refs in Hin. apply list_elem_of_fmap in Hin as (r & Er & Hin). destruct (rows_elem r Hin) as (b & H1 & H2 & H3).
    assert (row_at x = Some r) as -> by (by apply row_at_spec). apply rows_in_spec in H1 as (no & i & _ & _ & Erf & ->). rewrite <- Er in Erf. injection Erf as <- <-.
    destruct (Hr (rvalues r)) as (s & E & H4 & H5); [by rewrite Er|]. exists s. split; [exact E|by apply (reads_calm bound e fid)].
  - destruct (row_at x) as [r|] eqn:E.
    + apply row_at_spec in E as [H1 H2]. destruct Hd. apply Hl. rewrite <- rows_refs. unfold entry_ref in H2. rewrite <- H2. by apply list_elem_of_fmap_2.
    + destruct Hr as (s & E' & H4 & H5). exists s. split; [exact E'|by apply (reads_calm bound e fid)].
Qed.
(** An index that agrees with the table serves it. *)
Section index.
Context (ent : IndexEntry) (c : ColumnSpec) (b : BTree) (es : list BTreeEntry) (ht : nat) (Hi : index_ok bound e t ps rows ht fuel ent c b es).
Lemma index_entries : ordered es /\ Forall btree_entry_ok es.
Proof using Hi.
  destruct (io_tree _ _ _ _ _ _ _ _ _ _ _ Hi) as (h & first & fp & Ht & _). by destruct (tree_sound _ _ _ _ _ _ _ _ _ (tk_tree _ _ _ _ _ Ht)) as (Ho & _ & Hb).
Qed.
Lemma index_scan_run l h : bound_ok l -> bound_ok h ->
  exists s, index_scan fuel (ix_file_id ent) l h e = (Ok (List.filter (fun x => in_range (mkRange l h) (ekey x)) es), set_pool s e) /\ calm bound e s.
Proof using All.
  intros Hl Hh. destruct Hi as [_ _ Ho (hh & first & fp & Ht & _ & Hf) [Hfile Hhint] [Hw Hb] _ _]. unfold index_scan, tree_for. rewrite run_assoc, run_gets, Ho, run_ret.
  unfold treed. rewrite Ho. pose proof (rd_pins _ _ _ Henv) as Hp. rewrite <- Hhint, <- Hfile in Hw. rewrite <- Hhint in Hb.
  destruct (scan_ok (mkTS (pool e) b) (rd_ok _ _ _ Henv) Hw ltac:(cbn; lia) Hp ltac:(cbn; lia) hh es first fp l h fuel Ht Hl Hh Hf) as (t' & E & [T1 T2 T3] & T4). rewrite E.
  exists (store t'). split.
  - f_equal. rewrite T1. cbn [tree]. unfold set_trees, set_pool. cbn. by rewrite insert_id.
  - split; [done|exact T4|]. eapply evolves_weaken; [exact T3|done|]. intros p [Hf' Hn]. cbn in Hf', Hn. rewrite Hf', Hfile. lia.
Qed.
Lemma row_entry_key r x : row_entry c (col_ordinal ent) r = Some x ->
  exists v, rvalues r !! col_ordinal ent = Some v /\ encode_key (ctype c) v = Ok (ekey x) /\ rref r = mkRef (mkPid (file_id (rpage (rref r))) (Key.page_no x)) (slot x).
Proof using.
  unfold row_entry. intros (v & Hv & Hx)%bind_Some. exists v. destruct (encode_key (ctype c) v) as [k| |]; [|done..]. injection Hx as <-.
  split; [done|]. split; [done|]. by destruct (rref r) as [[? ?] ?].
Qed.
Lemma row_file r : r ∈ rows -> file_id (rpage (rref r)) = fid.
Proof using Hdec.
  intros (b' & H & _)%rows_elem. by apply rows_in_spec in H as (? & ? & _ & _ & -> & _).
Qed.
Lemma live_entry r x : r ∈ rows -> row_entry c (col_ordinal ent) r = Some x -> rref r = entry_ref fid x.
Proof using Hdec. intros Hr (v & _ & _ & E)%row_entry_key. by rewrite row_file in E. Qed.
Lemma serve_index : serves t rows ent.
Proof using All.
  destruct index_entries as [Ho Hb]. exists c, es, row_at. split; [apply Hi|]. split; [apply Hi|]. split; [intros l h Hl Hh; cbn; by destruct (index_scan_run l h Hl Hh) as (s & -> & _)|]. split.
  - pose proof (io_dead _ _ _ _ _ _ _ _ _ _ _ Hi) as Hd. rewrite list.Forall_forall in Hb, Hd |- *. intros x Hx. destruct (Hd x Hx) as [[Hp _] Hk].
    split; [cbn; by destruct (entry_read x Hp) as (s & -> & _); [destruct (Hb x Hx) as (_ & _ & ? & _)|]|]. intros r [Hr Hrx]%row_at_spec. destruct (rows_elem r Hr) as (_ & _ & _ & E).
    split; [by rewrite <- Hrx|]. destruct (row_entry_key r x (Hk r Hr Hrx)) as (v & H1 & H2 & _). by exists v.
  - apply NoDup_Permutation.
    + apply NoDup_omap_inj; [by apply ordered_nodup|]. intros x y r Hx Hy [Hr H1]%row_at_spec [_ H2]%row_at_spec.
      pose proof (io_dead _ _ _ _ _ _ _ _ _ _ _ Hi) as Hd. rewrite list.Forall_forall in Hd. destruct (Hd x Hx) as [_ Hkx], (Hd y Hy) as [_ Hky].
      pose proof (Hkx r Hr H1). pose proof (Hky r Hr H2). congruence.
    + eapply NoDup_fmap_1. apply rows_nodup.
    + intros r. rewrite list_elem_of_omap. split; [by intros (x & _ & [Hr _]%row_at_spec)|]. intros Hr. pose proof (io_rows _ _ _ _ _ _ _ _ _ _ _ Hi) as Hrs.
      rewrite list.Forall_forall in Hrs. destruct (Hrs r Hr) as (x & Hx & Hin). exists x. split; [done|]. apply row_at_spec. split; [done|by apply live_entry].
Qed.
End index.
End serve.

(** ** Reading keeps the contract *)
Lemma calm_page bound e s f no : calm bound e s -> 0 <= no -> page_of (set_pool s e) f no = page_of e f no.
Proof. intros [_ _ H] Hn. apply (ev_view _ _ _ _ H); [done|by intros []]. Qed.
Lemma calm_within bound e s f : calm bound e s -> 0 <= bound f -> within (pool e) f (bound f) -> within s f (bound f).
Proof. intros [_ _ H] Hn Hw. apply (ev_within _ _ _ _ H); [done| |done]. by intros p Hp <-. Qed.
Lemma calm_tree bound e s b h es first fp : calm bound e s -> tree_ok (mkTS (pool e) b) h es first fp -> tree_ok (mkTS s b) h es first fp.
Proof.
  intros Hc [T1 T2 T3 T4 T5 T6 T7]. assert (forall q, 0 <= q -> content (mkTS s b) q = content (mkTS (pool e) b) q) as Hq by (intros q Hq; by apply (calm_page bound e s)).
  split; rewrite ?Hq by lia; try done. apply (tree_frame _ _ _ _ _ _ _ _ _ _ T5). intros q Hin. apply Hq. rewrite list.Forall_forall in T7. specialize (T7 q Hin). cbv beta in T7. lia.
Qed.
Lemma calm_rows bound e s fid ps : calm bound e s -> table_ok e fid ps -> table_ok (set_pool s e) fid ps /\ rows_in (set_pool s e) fid ps = rows_in e fid ps.
Proof.
  intros Hc [Hs Hf]. destruct (shape_same e (set_pool s e) fid ps Hs) as [S1 S2]; [intros q Hq; by apply (calm_page bound)|].
  split; [split; [done|]|done]. eapply (tail_found_step e (set_pool s e) fid ps _ _ Hs Hf (ca_evolves _ _ _ Hc)); [by intros q _ []|done].
Qed.
Lemma calm_served bound e s t ps vss ents ht fuel : served bound e t ps vss ents ht fuel -> calm bound e s ->
  served bound (set_pool s e) t ps vss ents ht fuel /\ rows_of_table (set_pool s e) (tfile_id t) ps vss = rows_of_table e (tfile_id t) ps vss.
Proof.
  intros [[E1 E2 E3] S2 S3 S4 S5 S6 S7] Hc. destruct (calm_rows bound e s _ _ Hc S3) as [H1 H2]. pose proof Hc as [C1 C2 C3].
  assert (rows_of_table (set_pool s e) (tfile_id t) ps vss = rows_of_table e (tfile_id t) ps vss) as Hr by (unfold rows_of_table; by rewrite H2).
  split; [|done]. split; rewrite ?H2, ?Hr; try done.
  - split; cbn [pool set_pool]; [done| |apply (calm_within bound e s _ Hc); [lia|done]]. rewrite (proj2 C2). unfold zlen in *. by rewrite (ev_len _ _ _ _ C3).
  - eapply Forall_impl; [|exact S7]. intros ent (c & b & es & [I1 I2 I3 (h & first & fp & I4 & I5) I6 [I7 I8] I9 I10]).
    exists c, b, es. split; try done.
    + exists h, first, fp. split; [by apply (calm_tree bound e s)|done].
    + split; [|done]. apply (calm_within bound e s _ Hc); [lia|done].
    + eapply Forall_impl; [|exact I10]. intros x [[X1 X2] X3]. split; [split; [done|]|done]. rewrite (calm_page bound); [done|done|].
      destruct (segment_pos _ _ _ _ _ (tb_chain _ _ _ (proj1 S3)) X1). lia.
Qed.
Lemma served_contract `{Indexes} bound e t ps vss ents ht fuel name : served bound e t ps vss ents ht fuel -> indexes t = Ok ents -> double_type = Ok kDouble ->
  Query.table_ok (H := engine_storage fuel e) (mkHandle t name) (rows_of_table e (tfile_id t) ps vss).
Proof.
  intros [S1 S2 S3 S4 S5 S6 S7] Hents Hdbl. split; cbn [meta]; [| | |done].
  - by apply (serve_scan bound e t ps vss fuel).
  - clear -S5 S4. unfold rows_of_table. revert S5. induction S4 as [|x vs xs vss Hx _ IH]; intros S5; [constructor|]. cbn [zip_with].
    apply Forall_cons_1 in S5 as [Hv S5]. constructor; [exact Hv|by apply IH].
  - intros idxs Hi. rewrite Hents in Hi. injection Hi as <-. eapply Forall_impl; [|exact S7].
    intros ent (c & b & es & Hio). by apply (serve_index bound e t ps vss fuel S1 S2 S3 S4 S6 ent c b es ht).
Qed.

