(* ===== verification/Stmt.v ===== *)
(** Statements as the parser hands them over (src/parser/ast.hh), and their rendering as text (src/parser/ast_print.hxx): SQL text of
    an expression, which names an unnamed output column, and the indented tree of a statement. *)
From S2P Require Import Prelude Types Text Decimal Expr Bind.

(** * Syntax *)
Record QualifiedName := mkQName { q_schema : string; q_name : string }.
Record ColumnDef := mkDef { d_name : string; d_type : string; d_length : option Z; d_scale : option Z; d_not_null : bool }.
Record UpdateItem := mkItem { ui_column : string; ui_value : Expr }.
(** A projected item: every column, or an expression under the name it is given (the empty name when it is given none). *)
Inductive SelectItem := StarItem | ExprItem (e : Expr) (alias : string).
Record OrderItem := mkOrderItem { oi_expr : Expr; oi_desc : bool }.
Inductive SetValueForm := SvInt | SvIdent | SvStr.
Inductive SQLStatement :=
| CreateTableStmt (table : QualifiedName) (columns : list ColumnDef)
| DropTableStmt (table : QualifiedName)
| CreateSchemaStmt (schema : string)
| DropSchemaStmt (schema : string)
| CreateIndexStmt (index : string) (table : QualifiedName) (column : string)
| DropIndexStmt (index : string) (table : QualifiedName)
| InsertStmt (table : QualifiedName) (columns : list string) (rows : list (list Expr))
| DeleteStmt (table : QualifiedName) (where_ : option Expr)
| UpdateStmt (table : QualifiedName) (assigns : list UpdateItem) (where_ : option Expr)
| SelectStmt (table : QualifiedName) (distinct : bool) (items : list SelectItem) (where_ : option Expr) (orders : list OrderItem) (limit offset : option Z)
| SelectNoFromStmt (items : list SelectItem) (where_ : option Expr) (orders : list OrderItem)
| ExplainStmt (inner : SQLStatement)
| SetStmt (var value : string) (form : SetValueForm)
| BeginStmt
| CommitStmt
| RollbackStmt.

(** * Text *)
Definition qualified_to_string (q : QualifiedName) : bytes :=
  if bool_decide (q_schema q = ""%string) then str (q_name q) else str (q_schema q) ++ str "." ++ str (q_name q).
Definition type_to_string (type : string) (length scale : option Z) : bytes :=
  match length, scale with
  | None, _ => str type
  | Some n, Some s => str type ++ str "(" ++ format_int n ++ str "," ++ format_int s ++ str ")"
  | Some n, None => str type ++ str "(" ++ format_int n ++ str ")"
  end.
Definition cmp_to_string (op : CmpOp) : bytes :=
  match op with CmpEq => str "=" | CmpNe => str "<>" | CmpLt => str "<" | CmpLe => str "<=" | CmpGt => str ">" | CmpGe => str ">=" end.
Definition arith_char (op : ArithOp) : bytes := match op with OpAdd => str "+" | OpSub => str "-" | OpMul => str "*" | OpDiv => str "/" end.
Definition sign_char (plus : bool) : bytes := if plus then str "+" else str "-".
Definition bool_text (b : bool) : bytes := if b then str "true" else str "false".

Fixpoint expr_to_string (e : Expr) : bytes :=
  match e with
  | IntExpr t | FloatExpr t | DecimalExpr t => t
  | StringExpr v => str "'" ++ v ++ str "'"
  | NullExpr => str "NULL"
  | BoolExpr b => bool_text b
  | IdentifierExpr n => str n
  | BinaryOpExpr op l r => str "(" ++ expr_to_string l ++ str " " ++ arith_char op ++ str " " ++ expr_to_string r ++ str ")"
  | UnaryOpExpr plus x => str "(" ++ sign_char plus ++ expr_to_string x ++ str ")"
  | CompareExpr op l r => str "(" ++ expr_to_string l ++ str " " ++ cmp_to_string op ++ str " " ++ expr_to_string r ++ str ")"
  | LogicExpr op l r => str "(" ++ expr_to_string l ++ (match op with LAnd => str " AND " | LOr => str " OR " end) ++ expr_to_string r ++ str ")"
  | NotExpr x => str "(NOT " ++ expr_to_string x ++ str ")"
  | IsNullExpr x negate => str "(" ++ expr_to_string x ++ (if negate then str " IS NOT NULL" else str " IS NULL") ++ str ")"
  | BetweenExpr x lo hi => str "(" ++ expr_to_string x ++ str " BETWEEN " ++ expr_to_string lo ++ str " AND " ++ expr_to_string hi ++ str ")"
  | FuncCallExpr name args =>
      str name ++ str "(" ++ (fix go l := match l with
                                          | [] => []
                                          | [a] => expr_to_string a
                                          | a :: l => expr_to_string a ++ str ", " ++ go l
                                          end) args ++ str ")"
  | CastExpr x type length scale => str "CAST(" ++ expr_to_string x ++ str " AS " ++ type_to_string type length scale ++ str ")"
  end.

(** ** The tree of a statement: a line per node, indented by four per level *)
Definition line (indent : nat) (text : bytes) : bytes := replicate indent 32 ++ text ++ [10].
Fixpoint print_expr (indent : nat) (e : Expr) : bytes :=
  let sub := print_expr (indent + 4) in
  match e with
  | IntExpr t => line indent (str "Int: " ++ t)
  | FloatExpr t => line indent (str "Float: " ++ t)
  | DecimalExpr t => line indent (str "Decimal: " ++ t)
  | StringExpr v => line indent (str "String: " ++ v)
  | NullExpr => line indent (str "Null")
  | BoolExpr b => line indent (str "Bool: " ++ bool_text b)
  | IdentifierExpr n => line indent (str "Identifier: " ++ str n)
  | BinaryOpExpr op l r => line indent (str "BinaryOp: " ++ arith_char op) ++ sub l ++ sub r
  | UnaryOpExpr plus x => line indent (str "UnaryOp: " ++ sign_char plus) ++ sub x
  | CompareExpr op l r => line indent (str "Compare: " ++ cmp_to_string op) ++ sub l ++ sub r
  | LogicExpr op l r => line indent (str "Logic: " ++ match op with LAnd => str "AND" | LOr => str "OR" end) ++ sub l ++ sub r
  | NotExpr x => line indent (str "Not") ++ sub x
  | IsNullExpr x negate => line indent (str "IsNull" ++ if negate then str " not" else []) ++ sub x
  | BetweenExpr x lo hi => line indent (str "Between") ++ sub x ++ sub lo ++ sub hi
  | FuncCallExpr name args => line indent (str "FuncCall: " ++ str name) ++ concat (sub <$> args)
  | CastExpr x type length scale => line indent (str "Cast: " ++ type_to_string type length scale) ++ sub x
  end.
Definition print_where (indent : nat) (w : option Expr) : bytes := match w with Some e => print_expr indent e | None => [] end.
Definition print_item (indent : nat) (i : SelectItem) : bytes := match i with StarItem => line indent (str "*") | ExprItem e _ => print_expr indent e end.
Definition print_order (indent : nat) (o : OrderItem) : bytes :=
  line indent (str "Order: " ++ expr_to_string (oi_expr o) ++ if oi_desc o then str " DESC" else str " ASC").
Definition print_def (indent : nat) (d : ColumnDef) : bytes :=
  line indent (str (d_name d) ++ str " " ++ type_to_string (d_type d) (d_length d) (d_scale d) ++ if d_not_null d then str " NOT NULL" else []).
Fixpoint print_stmt (indent : nat) (s : SQLStatement) : bytes :=
  let under := (indent + 4)%nat in
  match s with
  | CreateTableStmt t cs => line indent (str "CreateTable: " ++ qualified_to_string t) ++ concat (print_def under <$> cs)
  | DropTableStmt t => line indent (str "DropTable: " ++ qualified_to_string t)
  | CreateSchemaStmt n => line indent (str "CreateSchema: " ++ str n)
  | DropSchemaStmt n => line indent (str "DropSchema: " ++ str n)
  | CreateIndexStmt i t c => line indent (str "CreateIndex: " ++ str i ++ str " ON " ++ qualified_to_string t ++ str " (" ++ str c ++ str ")")
  | DropIndexStmt i t => line indent (str "DropIndex: " ++ str i ++ str " ON " ++ qualified_to_string t)
  | InsertStmt t cs rows =>
      line indent (str "InsertInto: " ++ qualified_to_string t) ++ concat ((fun c => line under (str "Column: " ++ str c)) <$> cs) ++
      concat (print_expr under <$> concat rows)
  | DeleteStmt t w => line indent (str "DeleteFrom: " ++ qualified_to_string t) ++ print_where under w
  | UpdateStmt t items w =>
      line indent (str "Update: " ++ qualified_to_string t) ++
      concat ((fun i => line under (str "Assign: " ++ str (ui_column i)) ++ print_expr (indent + 8) (ui_value i)) <$> items) ++ print_where under w
  | SelectStmt t _ items w orders _ _ =>
      line indent (str "Select: " ++ qualified_to_string t) ++ concat (print_item under <$> items) ++ print_where under w ++ concat (print_order under <$> orders)
  | SelectNoFromStmt items w orders =>
      line indent (str "SelectNoFrom") ++ concat (print_item under <$> items) ++ print_where under w ++ concat (print_order under <$> orders)
  | ExplainStmt inner => line indent (str "Explain") ++ print_stmt under inner
  | SetStmt var value _ => line indent (str "Set: " ++ str var ++ str " = " ++ str value)
  | BeginStmt => line indent (str "Begin")
  | CommitStmt => line indent (str "Commit")
  | RollbackStmt => line indent (str "Rollback")
  end.

Example demo_text : expr_to_string (CompareExpr CmpLe (BinaryOpExpr OpAdd (IdentifierExpr "a") (IntExpr (str "1"))) (CastExpr NullExpr "numeric" (Some 10) (Some 2)))
  = str "((a + 1) <= CAST(NULL AS numeric(10,2)))".
Proof. reflexivity. Qed.
