(* ===== verification/Meta.v ===== *)
(** The metadata tables of the catalog (src/catalog/catalog_meta.cpp, catalog_meta.h): their columns, the rows written
    for a table, and the parsing of the rows of db_table, db_column, db_type, db_func and db_index. *)
From stdpp Require Import sorting.
From S2P Require Import Prelude Types Codec Typing Bind Plan.

(** * Text *)
(** The bytes of a text value as a name, and back ([Prelude.str]). *)
Definition name_of (b : bytes) : string := String.string_of_list_ascii ((fun z => Ascii.ascii_of_nat (Z.to_nat z)) <$> b).
Lemma name_of_str s : name_of (str s) = s.
Proof.
  unfold name_of, str. rewrite <- list_fmap_compose. rewrite <- (String.string_of_list_ascii_of_string s) at 2. f_equal.
  induction (String.list_ascii_of_string s) as [|a l IH]; [done|]. cbn [fmap list_fmap]. f_equal; [|exact IH].
  cbn. by rewrite Nat2Z.id, Ascii.ascii_nat_embedding.
Qed.
Lemma zlen_str s : zlen (str s) = Z.of_nat (String.length s).
Proof. unfold zlen, str. rewrite length_fmap. f_equal. induction s as [|a s IH]; [done|]. cbn. by rewrite IH. Qed.
Definition text_val (s : string) : Value := str_val kVarChar (str s).

(** * The columns of the metadata tables *)
Definition kMetaNameLen : Z := 64.
Definition kTableMetaId : Z := 1.
Definition kColumnMetaId : Z := 2.
Definition kSchemaMetaId : Z := 3.
Definition kTypeMetaId : Z := 4.
Definition kIndexMetaId : Z := 5.
Definition kFuncMetaId : Z := 6.
Definition kReservedMaxTableId : Z := 20000.
Definition kFirstUserTableId : Z := 20001.
Definition kTableMetaName : string := "db_table".
Definition kColumnMetaName : string := "db_column".
Definition kSchemaMetaName : string := "db_schema".
Definition kTypeMetaName : string := "db_type".
Definition kIndexMetaName : string := "db_index".
Definition kFuncMetaName : string := "db_func".
Definition kVersionMetaName : string := "db_version".
Definition kSystemSchemaId : Z := 1.
Definition kSystemSchemaName : string := "system".

Definition big_col (name : string) : ColumnSpec := mkCol name kBigint 0 true 0.
Definition int_col (name : string) : ColumnSpec := mkCol name kInt 0 true 0.
Definition name_col (name : string) (required : bool) : ColumnSpec := mkCol name kVarChar kMetaNameLen required 0.
Definition table_meta_cols : list ColumnSpec := [big_col "table_id"; name_col "table_name" true; big_col "file_id"; big_col "schema_id"].
Definition column_meta_cols : list ColumnSpec :=
  [big_col "table_id"; name_col "col_name" true; int_col "ordinal"; int_col "type"; int_col "length"; int_col "scale"; int_col "not_null"].
Definition schema_meta_cols : list ColumnSpec := [big_col "schema_id"; name_col "schema_name" true].
Definition type_meta_cols : list ColumnSpec :=
  [int_col "type_id"; name_col "type_name" true; name_col "alias" false; int_col "family"; int_col "rank"; int_col "len_allowed"; int_col "len_default";
   int_col "len_max"; int_col "scale_allowed"; int_col "rep"; int_col "store"; int_col "width"].

(** * Rows written *)
Definition family_code (f : Family) : Z := match f with FamNone => 0 | FamNum => 1 | FamText => 2 | FamBool => 3 end.
Definition rep_code (r : Rep) : Z :=
  match r with RepNone => 0 | RepInt64 => 1 | RepFloat => 2 | RepDouble => 3 | RepStr => 4 | RepBool => 5 | RepDec => 6 end.
Definition store_code (s : Store) : Z := match s with StNone => 0 | StFixed => 1 | StCharPad => 2 | StVarLen => 3 | StDecimal => 4 end.
Definition flag (b : bool) : Z := if b then 1 else 0.
Definition type_meta_row (s : TypeSeed) : list Value :=
  [int_val kInt (t_id (attr s)); text_val (sname s); match alias s with None => null_val | Some a => text_val a end;
   int_val kInt (family_code (family (attr s))); int_val kInt (rank (attr s)); int_val kInt (flag (len_allowed s));
   int_val kInt (len_default s); int_val kInt (len_max s); int_val kInt (flag (scale_allowed s));
   int_val kInt (rep_code (rep (attr s))); int_val kInt (store_code (store (attr s))); int_val kInt (width (attr s))].
Definition type_meta_rows : list (list Value) := type_meta_row <$> kTypeSeeds.
(** [static_cast<int64_t>] of an unsigned id. *)
Definition to_i64 (z : Z) : Z := let w := wrap 64 z in if w <? 2 ^ 63 then w else w - 2 ^ 64.
Definition column_meta_row (tid : Z) (i : nat) (c : ColumnSpec) : list Value :=
  [int_val kBigint (to_i64 tid); text_val (cname c); int_val kInt (Z.of_nat i); int_val kInt (t_id (ctype c));
   int_val kInt (clength c); int_val kInt (cscale c); int_val kInt (flag (not_null c))].
Definition column_meta_rows (tid : Z) (cols : list ColumnSpec) : list (list Value) := imap (column_meta_row tid) cols.
Definition table_meta_row (tid fid sid : Z) (name : string) : list Value :=
  [int_val kBigint (to_i64 tid); text_val name; int_val kBigint (to_i64 fid); int_val kBigint (to_i64 sid)].
Definition schema_meta_row (sid : Z) (name : string) : list Value := [int_val kBigint (to_i64 sid); text_val name].
Definition index_meta_row (tid : Z) (name : string) (ordinal : nat) (fid : Z) : list Value :=
  [int_val kBigint (to_i64 tid); text_val name; int_val kInt (Z.of_nat ordinal); int_val kBigint (to_i64 fid)].

(** * Rows read *)
(** A column that is missing, NULL or of another type ends the process. *)
Definition row_int (row : list Value) (idx : nat) : result Z :=
  match row !! idx with Some v => match box v with BInt i => Ok i | _ => Fatal end | None => Fatal end.
Definition row_str (row : list Value) (idx : nat) : result string :=
  match row !! idx with Some v => match box v with BStr s => Ok (name_of s) | _ => Fatal end | None => Fatal end.
Definition row_null (row : list Value) (idx : nat) : bool := match row !! idx with Some v => value_is_null v | None => true end.
Definition require (b : bool) : result unit := if b then Ok tt else Fatal.

Definition family_of (z : Z) : Family := if z =? 1 then FamNum else if z =? 2 then FamText else if z =? 3 then FamBool else FamNone.
Definition rep_of (z : Z) : Rep :=
  if z =? 1 then RepInt64 else if z =? 2 then RepFloat else if z =? 3 then RepDouble else if z =? 4 then RepStr
  else if z =? 5 then RepBool else if z =? 6 then RepDec else RepNone.
Definition store_of (z : Z) : Store := if z =? 1 then StFixed else if z =? 2 then StCharPad else if z =? 3 then StVarLen else if z =? 4 then StDecimal else StNone.
Definition type_word_known (family rep store : Z) : bool :=
  negb ((family <? 1) || (family >? 3)) && negb ((rep <? 1) || (rep >? 6)) && negb ((store <? 1) || (store >? 4)).
Definition is_flag (z : Z) : bool := (z =? 0) || (z =? 1).
Definition UINT8_MAX : Z := 255.

Definition parse_type_row (row : list Value) : result TypeRow :=
  id ← row_int row 0; family ← row_int row 3; rank ← row_int row 4; len_allowed ← row_int row 5; len_default ← row_int row 6;
  len_max ← row_int row 7; scale_allowed ← row_int row 8; rep ← row_int row 9; store ← row_int row 10; width ← row_int row 11;
  _ ← require (negb ((id <=? 0) || (id >? UINT16_MAX)));
  _ ← require (type_word_known family rep store);
  _ ← require (negb ((rank <? 0) || (rank >? 255) || (negb (family =? 1) && negb (rank =? 0))));
  _ ← require (is_flag len_allowed);
  _ ← require (negb ((len_default <? 0) || (len_default >? UINT16_MAX) || (len_default >? len_max)));
  _ ← require (negb ((len_max <? 0) || (len_max >? UINT16_MAX)));
  _ ← require (is_flag scale_allowed);
  _ ← require (negb ((width <? 0) || (width >? UINT8_MAX)));
  name ← row_str row 1;
  alias ← (if row_null row 2 then Ok ""%string else row_str row 2);
  Ok (mkTypeRow (mkAttr id (family_of family) rank (rep_of rep) (store_of store) width) name alias (len_allowed =? 1) len_default len_max (scale_allowed =? 1)).

Definition type_by_id (types : list TypeRow) (tid : Z) : option TypeRow := List.find (fun t => t_id (tr_attr t) =? tid) types.
Definition parse_column_row (types : list TypeRow) (row : list Value) : result (Z * ColumnSpec) :=
  tid ← row_int row 3;
  match type_by_id types tid with
  | None => Fatal
  | Some tr =>
      length ← row_int row 4; scale ← row_int row 5; not_null ← row_int row 6;
      _ ← require (negb ((length <? 0) || (length >? tr_len_max tr) || (negb (tr_len_allowed tr) && negb (length =? 0))));
      _ ← require (negb ((scale <? 0) || (scale >? UINT8_MAX) || (negb (tr_scale_allowed tr) && negb (scale =? 0))
        || (tr_scale_allowed tr && (scale >? length))));
      _ ← require (is_flag not_null);
      ordinal ← row_int row 2; name ← row_str row 1;
      Ok (ordinal, mkCol name (tr_attr tr) (wrap 16 length) (not_null =? 1) (wrap 8 scale))
  end.

(** The argument slots of a function row: the first [arity] name types, the others are 0. *)
Fixpoint parse_args (types : list TypeRow) (row : list Value) (arity : Z) (n : nat) (i : nat) : result (list TypeAttr) :=
  match n with
  | O => Ok []
  | S n =>
      tid ← row_int row (3 + i);
      if Z.of_nat i <? arity then
        match type_by_id types tid with
        | None => Fatal
        | Some tr => args ← parse_args types row arity n (S i); Ok (tr_attr tr :: args)
        end
      else _ ← require (tid =? 0); parse_args types row arity n (S i)
  end.
Definition parse_func_row (types : list TypeRow) (row : list Value) : result FuncRow :=
  id ← row_int row 0; arity ← row_int row 2;
  _ ← require (negb (id <=? 0));
  _ ← require (negb ((arity <? 0) || (arity >? 3)));
  name ← row_str row 1;
  _ ← require (negb (bool_decide (name = ""%string)));
  strict ← row_int row 7;
  _ ← require (is_flag strict);
  args ← parse_args types row arity 3 0;
  rid ← row_int row 6;
  match type_by_id types rid with
  | None => Fatal
  | Some rr => Ok (mkFuncRow id name (strict =? 1) args (tr_attr rr))
  end.
(** No two functions share an id, or a name with the types of their arguments. *)
Definition funcs_clash (a b : FuncRow) : bool :=
  (fr_id a =? fr_id b) || (bool_decide (fr_name a = fr_name b) && bool_decide (fr_args a = fr_args b)).
Fixpoint funcs_distinct (rows : list FuncRow) : bool :=
  match rows with [] => true | r :: rows => forallb (fun x => negb (funcs_clash r x)) rows && funcs_distinct rows end.

Fixpoint map_res {A B} (f : A -> result B) (l : list A) : result (list B) :=
  match l with [] => Ok [] | x :: l => y ← f x; ys ← map_res f l; Ok (y :: ys) end.
(** A loop that stops at the first row it matches. *)
Fixpoint first_res {A B} (f : A -> result (option B)) (l : list A) : result (option B) :=
  match l with [] => Ok None | x :: l => r ← f x; match r with Some b => Ok (Some b) | None => first_res f l end end.
(** A loop that keeps what it matches. *)
Fixpoint filter_res {A B} (f : A -> result (option B)) (l : list A) : result (list B) :=
  match l with [] => Ok [] | x :: l => r ← f x; ys ← filter_res f l; Ok (match r with Some b => b :: ys | None => ys end) end.

(** ** The columns of a table *)
Definition column_of (types : list TypeRow) (tid : Z) (row : list Value) : result (option (Z * ColumnSpec)) :=
  t ← row_int row 0; if t =? to_i64 tid then p ← parse_column_row types row; Ok (Some p) else Ok None.
(** [std::sort] by ordinal: equal ordinals are refused afterwards, so the order of equal elements does not matter. *)
Fixpoint insert_pair (p : Z * ColumnSpec) (l : list (Z * ColumnSpec)) : list (Z * ColumnSpec) :=
  match l with [] => [p] | q :: l' => if p.1 <=? q.1 then p :: l else q :: insert_pair p l' end.
Definition sort_pairs (l : list (Z * ColumnSpec)) : list (Z * ColumnSpec) := foldr insert_pair [] l.
Fixpoint ordinals_distinct (l : list (Z * ColumnSpec)) : bool :=
  match l with p :: (q :: _) as l' => negb (q.1 =? p.1) && ordinals_distinct l' | _ => true end.
Definition columns_of (types : list TypeRow) (tid : Z) (rows : list (list Value)) : result (list ColumnSpec) :=
  pairs ← filter_res (column_of types tid) rows;
  _ ← require (negb (bool_decide (pairs = [])));
  let pairs := sort_pairs pairs in
  _ ← require (ordinals_distinct pairs);
  Ok (pairs.*2).

(** ** The indexes of a table *)
Definition index_of (tid : Z) (row : Row) : result (option IndexEntry) :=
  t ← row_int (rvalues row) 0;
  if negb (t =? to_i64 tid) then Ok None
  else
    ordinal ← row_int (rvalues row) 2; fid ← row_int (rvalues row) 3;
    _ ← require (negb ((ordinal <? 0) || (ordinal >? UINT16_MAX)));
    _ ← require (negb (fid <? 0));
    name ← row_str (rvalues row) 1;
    Ok (Some (mkIndex name (Z.to_nat ordinal) fid (rref row))).

(** * What was written is read *)
(** Columns as DDL declares them: a built-in type, a length and a scale the type allows. *)
Definition declared (c : ColumnSpec) : Prop := exists s, In s kTypeSeeds /\ ctype c = attr s /\
  0 <= clength c <= len_max s /\ (len_allowed s = false -> clength c = 0) /\
  0 <= cscale c <= UINT8_MAX /\ (if scale_allowed s then cscale c <= clength c else cscale c = 0).
(** The row as it is read back. *)
Definition meta_stored (cs : list ColumnSpec) (vs : list Value) : list Value := zip_with Codec.stored cs vs.
Definition seed_types : list TypeRow := seed_type_row <$> kTypeSeeds.
Lemma seed_types_parse : map_res parse_type_row (meta_stored type_meta_cols <$> type_meta_rows) = Ok seed_types.
Proof. by vm_compute. Qed.
Lemma declared_type c : declared c -> exists s, In s kTypeSeeds /\ ctype c = attr s /\ type_by_id seed_types (t_id (ctype c)) = Some (seed_type_row s) /\
  0 <= clength c <= len_max s /\ (len_allowed s = false -> clength c = 0) /\ 0 <= cscale c <= UINT8_MAX /\
  (if scale_allowed s then cscale c <= clength c else cscale c = 0) /\ len_max s <= UINT16_MAX.
Proof.
  intros (s & Hs & -> & H1 & H2 & H3 & H4). exists s. split; [done|]. split; [done|].
  cbn in Hs. destruct Hs as [<-|[<-|[<-|[<-|[<-|[<-|[<-|[<-|[]]]]]]]]]; cbn in *; repeat split; try done; try lia.
Qed.
Lemma row_int_at row i v z : row !! i = Some v -> box v = BInt z -> row_int row i = Ok z.
Proof. unfold row_int. by intros -> ->. Qed.
Lemma flag_of b : is_flag (flag b) = true /\ (flag b =? 1) = b.
Proof. by destruct b. Qed.
Lemma parse_column_written tid i c : declared c -> parse_column_row seed_types (meta_stored column_meta_cols (column_meta_row tid i c)) = Ok (Z.of_nat i, c).
Proof.
  intros Hc. destruct (declared_type c Hc) as (s & _ & Ety & Ht & H1 & H2 & H3 & H4 & H5). unfold UINT16_MAX, UINT8_MAX in *.
  set (row := meta_stored _ _). assert (row_int row 3 = Ok (t_id (ctype c))) as R3 by done. assert (row_int row 4 = Ok (clength c)) as R4 by done.
  assert (row_int row 5 = Ok (cscale c)) as R5 by done. assert (row_int row 6 = Ok (flag (not_null c))) as R6 by done. assert (row_int row 2 = Ok (Z.of_nat i)) as R2 by done.
  assert (row_str row 1 = Ok (cname c)) as R1 by (change (row_str row 1) with (Ok (name_of (str (cname c)))); by rewrite name_of_str).
  unfold parse_column_row. rewrite R1, R2, R3, R4, R5, R6. clear R1 R2 R3 R4 R5 R6 row. unfold mbind, result_bind. rewrite Ht.
  destruct (flag_of (not_null c)) as [-> ->]. rewrite !wrap_small by lia. destruct c as [name ty len nn sc]. cbn [ctype clength cscale cname not_null] in *.
  destruct s as [at_ sn al la ld lm sa]. cbn in *. unfold require, UINT8_MAX. destruct (Z.ltb_spec len 0), (Z.gtb_spec len lm), (Z.ltb_spec sc 0), (Z.gtb_spec sc 255); try lia. cbn.
  assert ((negb la && negb (len =? 0)) = false) as -> by (destruct la; [done|]; rewrite H2 by done; done). cbn.
  subst ty. destruct sa; cbn in *; [by destruct (Z.gtb_spec sc len); [lia|]|]. subst sc. done.
Qed.
Definition fresh_row (tid : Z) (row : list Value) : Prop := exists t, row_int row 0 = Ok t /\ t <> to_i64 tid.
Lemma filter_res_app {A B} (f : A -> result (option B)) l1 l2 : Forall (fun x => f x = Ok None) l1 -> filter_res f (l1 ++ l2) = filter_res f l2.
Proof.
  induction 1 as [|x l1 Hx _ IH]; [done|]. cbn. rewrite Hx. cbn. rewrite IH. by destruct (filter_res f l2).
Qed.
Lemma sort_increasing l : StronglySorted Z.lt l.*1 -> sort_pairs l = l.
Proof.
  intros H. induction l as [|p l IH]; [done|]. cbn in H. apply StronglySorted_inv in H as [H1 H2]. change (insert_pair p (sort_pairs l) = p :: l). rewrite IH by done.
  destruct l as [|q l]; [done|]. cbn in *. apply Forall_cons_1 in H2 as [H2 _]. by destruct (Z.leb_spec p.1 q.1); [|lia].
Qed.
Lemma increasing_distinct l : StronglySorted Z.lt l.*1 -> ordinals_distinct l = true.
Proof.
  intros H. induction l as [|p l IH]; [done|]. cbn in H. apply StronglySorted_inv in H as [H1 H2]. destruct l as [|q l]; [done|].
  change (negb (q.1 =? p.1) && ordinals_distinct (q :: l) = true). rewrite IH by done. apply Forall_cons_1 in H2 as [H2 _]. cbn. destruct (Z.eqb_spec q.1 p.1); [lia|done].
Qed.
Definition numbered (k : nat) (cs : list ColumnSpec) : list (Z * ColumnSpec) := imap (fun i c => (Z.of_nat (k + i), c)) cs.
Lemma numbered_cons k c cs : numbered k (c :: cs) = (Z.of_nat k, c) :: numbered (S k) cs.
Proof. unfold numbered. cbn. rewrite Nat.add_0_r. f_equal. apply imap_ext. intros i x _. cbn. do 2 f_equal. lia. Qed.
Lemma numbered_spec k cs : (numbered k cs).*2 = cs /\ StronglySorted Z.lt (numbered k cs).*1 /\ Forall (fun n => Z.of_nat k <= n) (numbered k cs).*1.
Proof.
  revert k; induction cs as [|c cs IH]; intros k; [split; [done|split; constructor]|]. rewrite numbered_cons. destruct (IH (S k)) as (I1 & I2 & I3). cbn. rewrite I1. split; [done|].
  split; constructor; [done| |lia|]; (eapply Forall_impl; [|exact I3]); cbn; lia.
Qed.
(** The columns of a new table are found again, whatever the other tables' rows are. *)
Lemma columns_written tid cs old : cs <> [] -> Forall declared cs -> Forall (fresh_row tid) old ->
  columns_of seed_types tid (old ++ (meta_stored column_meta_cols <$> column_meta_rows tid cs)) = Ok cs.
Proof.
  intros Hne Hcs Hold. unfold columns_of. rewrite filter_res_app.
  2: { eapply Forall_impl; [|exact Hold]. intros row (t & H1 & H2). unfold column_of. rewrite H1. cbn. by destruct (Z.eqb_spec t (to_i64 tid)). }
  change (column_meta_rows tid cs) with (imap (fun i => column_meta_row tid (0 + i)) cs).
  assert (forall k, filter_res (column_of seed_types tid) (meta_stored column_meta_cols <$> imap (fun i => column_meta_row tid (k + i)) cs) = Ok (numbered k cs)) as ->%(fun H => H 0%nat).
  { clear Hne. induction Hcs as [|c cs Hc _ IH]; intros k; [done|]. rewrite numbered_cons. cbn [imap fmap list_fmap filter_res]. rewrite Nat.add_0_r.
    assert (column_of seed_types tid (meta_stored column_meta_cols (column_meta_row tid k c)) = Ok (Some (Z.of_nat k, c))) as ->.
    { unfold column_of. cbn [row_int]. rewrite (parse_column_written tid k c Hc). cbn. by rewrite Z.eqb_refl. }
    rewrite (imap_ext _ (fun i => column_meta_row tid (S k + i)) cs); [|intros i x _; unfold compose; f_equal; lia]. by rewrite (IH (S k)). }
  destruct (numbered_spec 0 cs) as (N1 & N2 & _). cbn [mbind result_bind]. rewrite (sort_increasing _ N2), (increasing_distinct _ N2), N1.
  rewrite bool_decide_false; [done|]. intros E. rewrite E in N1. by destruct Hne.
Qed.
