(* ===== verification/Tables.v ===== *)
(** The tables of a database during a transaction: what each file holds, how reading and inserting act on all of them. *)
From stdpp Require Import sorting.
From S2P Require Import Prelude Key Types Codec Page Wal Disk Recovery State Node Pool Diff PoolSpec Txn Session Tree Engine Typing Plan Query Table Rows Scanner Serve Meta.

#[local] Opaque seal init_page.

(** * A transaction *)
(** The transaction is open, and [n] frames are unpinned. *)
Record db_env (e : Engine) (n : Z) : Prop := {
  de_ok : pool_ok ∅ (pool e);
  de_att : attached (pool e) = true;
  de_ctx : is_Some (ctx (pool e));
  de_pins : pins (pool e) + n <= zlen (frames (pool e)) }.
Definition dropped (e : Engine) : list Z := match ctx (pool e) with Some c => pending_drops c | None => [] end.
(** Table [fid] has the pages [ps], below [bound fid], and the rows [vss]. *)
Record holding (bound : Z -> Z) (e : Engine) (fid : Z) (cs : list ColumnSpec) (ps : list Z) (vss : list (list Value)) : Prop := {
  hg_bound : 0 <= bound fid < 2 ^ 32;
  hg_within : within (pool e) fid (bound fid);
  hg_table : table_ok e fid ps;
  hg_rows : Forall2 (decodes cs) (rows_in e fid ps) vss }.
Definition bump (bound : Z -> Z) (fid n : Z) : Z -> Z := fun g => if g =? fid then bound g + n else bound g.
Lemma bump_here bound fid n : bump bound fid n fid = bound fid + n.
Proof. unfold bump. by rewrite Z.eqb_refl. Qed.
Lemma bump_other bound fid n g : g <> fid -> bump bound fid n g = bound g.
Proof. unfold bump. intros H. by destruct (Z.eqb_spec g fid). Qed.

Lemma db_row_env bound e n fid cs ps vss : db_env e n -> 2 <= n -> fid ∉ dropped e -> holding bound e fid cs ps vss -> row_env e fid (bound fid).
Proof.
  intros [D1 D2 [c Hc] D4] Hn Hd [H1 H2 H3 H4]. split; [done|done| |lia|done]. exists c. split; [done|]. unfold dropped in Hd. by rewrite Hc in Hd.
Qed.
Lemma db_read_env bound e n fid cs ps vss : db_env e n -> 0 < n -> holding bound e fid cs ps vss -> read_env e fid (bound fid).
Proof. intros [D1 D2 _ D4] Hn [H1 H2 H3 H4]. split; [done|lia|done]. Qed.

(** ** Reading *)
Lemma evolves_dropped T U e e' : evolves T U (pool e) (pool e') -> dropped e' = dropped e.
Proof. intros H. pose proof (ev_drops _ _ _ _ H) as E. unfold dropped. destruct (ctx (pool e)), (ctx (pool e')); cbn in E; congruence. Qed.
Lemma evolves_env T U e e' n : db_env e n -> evolves T U (pool e) (pool e') -> pins_eq (pool e) (pool e') -> pool_ok ∅ (pool e') -> db_env e' n.
Proof.
  intros [D1 D2 [c Hc] D4] He [_ Hp] Hk. split; [done| | |].
  - by rewrite (ev_att _ _ _ _ He).
  - destruct (ev_txn _ _ _ _ He) as (c' & Hc'); [by exists c|by exists c'].
  - rewrite Hp. unfold zlen in *. by rewrite (ev_len _ _ _ _ He).
Qed.
Lemma calm_env bound e s n : db_env e n -> calm bound e s -> db_env (set_pool s e) n /\ dropped (set_pool s e) = dropped e.
Proof. intros Hd [C1 C2 C3]. split; [by eapply evolves_env|by eapply (evolves_dropped _ _ e (set_pool s e))]. Qed.
Lemma calm_holding bound e s fid cs ps vss : calm bound e s -> holding bound e fid cs ps vss ->
  holding bound (set_pool s e) fid cs ps vss /\ rows_in (set_pool s e) fid ps = rows_in e fid ps.
Proof.
  intros Hc [H1 H2 H3 H4]. destruct (calm_rows bound e s fid ps Hc H3) as [R1 R2]. split; [|done]. split; [done| |done|by rewrite R2].
  eapply (calm_within bound e s); [done|lia|done].
Qed.
Lemma calm_refl bound e n : db_env e n -> calm bound e (pool e).
Proof. intros [D1 _ _ _]. split; [done|apply pins_eq_refl|apply evolves_refl]. Qed.
Lemma calm_trans bound e s1 s2 : calm bound e s1 -> calm bound (set_pool s1 e) s2 -> calm bound e s2.
Proof. intros [A1 A2 A3] [B1 B2 B3]. split; [done|by eapply pins_eq_trans|by eapply evolves_trans]. Qed.
Section held.
Context (bound : Z -> Z) (e : Engine) (n fid : Z) (cs : list ColumnSpec) (ps : list Z) (vss : list (list Value)).
Context (Hd : db_env e n) (Hn : 2 <= n) (Hh : holding bound e fid cs ps vss).
Lemma held_read fuel : bound fid <= Z.of_nat fuel -> exists s, read_rows fuel fid cs e = (Ok vss, set_pool s e) /\ calm bound e s.
Proof using All.
  intros Hf. pose proof (db_read_env bound e n fid cs ps vss Hd ltac:(lia) Hh) as Hr. pose proof Hh as [H1 H2 [H3 _] H4].
  pose proof (table_short e fid (bound fid) ps H2 ltac:(lia) H3) as Hl. unfold zlen in Hl.
  destruct (read_rows_ok e fid (bound fid) ps Hr ltac:(lia) H3 fuel ltac:(lia) cs vss H4) as (s & E & R1 & R2). exists s. split; [done|by apply (reads_calm bound e fid)].
Qed.
(** An insertion. *)
Lemma held_insert vs : fid ∉ dropped e -> Forall col_ok cs -> fits cs vs -> bound fid + 2 < 2 ^ 32 -> exists id ref rec e' ps',
  insert_row fid cs vs e = (Ok (id, ref), e') /\ db_env e' n /\ dropped e' = dropped e /\ row_step fid (bound fid + 2) e e' /\
  holding (bump bound fid 2) e' fid cs ps' (vss ++ [inserted cs vs]) /\
  rows_in e' fid ps' = rows_in e fid ps ++ [(ref, rec)] /\ appended fid e e' ref rec /\ ps ⊆ ps'.
Proof using All.
  intros Hf Hcs (Hvs & rec & He & Hl) Hb. pose proof (db_row_env bound e n fid cs ps vss Hd Hn Hf Hh) as Hr. destruct Hh as [H1 H2 H3 H4].
  destruct (insert_row_ok e fid (bound fid) ps cs vs rec Hr ltac:(lia) ltac:(lia) H3 He Hl (encode_row_bytes cs vs rec Hcs Hvs He)) as (e' & ps' & ref & I1 & I2 & I3 & I4 & _ & I5 & I6).
  eexists _, ref, rec, e', ps'. split; [exact I1|]. pose proof I4 as [S1 S2 S3 _ _ _]. split; [by eapply evolves_env|]. split; [by eapply evolves_dropped|]. split; [done|]. split; [|done].
  pose proof (row_env_step fid (bound fid) (bound fid + 2) e e' ltac:(lia) Hr I4) as Hr'.
  split; rewrite ?bump_here; [lia|apply Hr'|done|]. rewrite I3. apply Forall2_app; [done|]. constructor; [|constructor].
  apply (row_round_trip cs vs rec Hcs Hvs He). assert (MAX_RECORD_LEN <= UINT16_MAX + 2) by (vm_compute; discriminate). lia.
Qed.
End held.
(** ** Steps of the whole database *)
(** From [e] to [e'] only the files in [P] change, and pages come into the pool within the bounds. *)
Record db_step (P : Z -> Prop) (bound : Z -> Z) (e e' : Engine) : Prop := {
  ds_evolves : evolves (fun p => P (file_id p)) (fun p => page_no p < bound (file_id p)) (pool e) (pool e');
  ds_pins : pins_eq (pool e) (pool e');
  ds_ok : pool_ok ∅ (pool e');
  ds_trees g : ~ P g -> trees e' !! g = trees e !! g;
  ds_tails g : ~ P g -> tail_pages e' !! g = tail_pages e !! g }.
Lemma db_step_refl P bound e n : db_env e n -> db_step P bound e e.
Proof. intros []. split; [apply evolves_refl|apply pins_eq_refl|done|done|done]. Qed.
Lemma db_step_trans P bound e1 e2 e3 : db_step P bound e1 e2 -> db_step P bound e2 e3 -> db_step P bound e1 e3.
Proof.
  intros [A1 A2 A3 A4 A5] [B1 B2 B3 B4 B5]. split; [by eapply evolves_trans|by eapply pins_eq_trans|done| |]; intros g Hg; [rewrite B4 by done; by apply A4|rewrite B5 by done; by apply A5].
Qed.
Lemma db_step_weaken (P P' : Z -> Prop) bound bound' e e' : db_step P bound e e' -> (forall g, P g -> P' g) -> (forall g, bound g <= bound' g) -> db_step P' bound' e e'.
Proof.
  intros [A1 A2 A3 A4 A5] Hp Hb. split; [|done|done|intros g Hg; apply A4; auto|intros g Hg; apply A5; auto].
  eapply evolves_weaken; [exact A1|auto|]. intros p H. specialize (Hb (file_id p)). cbv beta in *. lia.
Qed.
Lemma calm_db_step bound e s : calm bound e s -> db_step (fun _ => False) bound e (set_pool s e).
Proof. intros []. by split. Qed.
Lemma row_db_step bound fid N e e' : row_step fid N e e' -> N <= bound fid -> db_step (eq fid) bound e e'.
Proof.
  intros [R1 R2 R3 R4 R5 R6] Hn. split; [|done|done|by rewrite R4|intros g Hg; apply R6; by intros ->].
  eapply evolves_weaken; [exact R1|by intros p <-|]. intros p [-> H]. lia.
Qed.
Lemma db_step_env P bound e e' n : db_env e n -> db_step P bound e e' -> db_env e' n /\ dropped e' = dropped e.
Proof. intros Hd [A1 A2 A3 _ _]. split; [by eapply evolves_env|by eapply evolves_dropped]. Qed.
Lemma db_step_page (P : Z -> Prop) bound e e' g no : db_step P bound e e' -> ~ P g -> 0 <= no -> page_of e' g no = page_of e g no.
Proof. intros [A1 _ _ _ _] Hg Hn. by apply (ev_view _ _ _ _ A1). Qed.
Lemma db_step_within (P : Z -> Prop) bound bound' e e' g : db_step P bound' e e' -> 0 <= bound g -> bound' g <= bound g -> within (pool e) g (bound g) -> within (pool e') g (bound g).
Proof. intros [A1 _ _ _ _] H0 Hb Hw. apply (ev_within _ _ _ _ A1); [done| |done]. intros p Hp <-. cbv beta in Hp. lia. Qed.
(** Files do not interfere. *)
Lemma db_step_holding (P : Z -> Prop) bound bound' e e' g cs ps vss : db_step P bound' e e' -> ~ P g -> bound' g = bound g -> holding bound e g cs ps vss ->
  holding bound' e' g cs ps vss /\ rows_in e' g ps = rows_in e g ps.
Proof.
  intros Hs Hg Hb [H1 H2 [H3 H5] H4]. pose proof (fun q => db_step_page P bound' e e' g q Hs Hg) as Hq. destruct (shape_same e e' g ps H3 Hq) as [T1 T2]. split; [|done].
  split; rewrite ?Hb, ?T2; try done; [eapply (db_step_within P bound bound'); [done|lia|lia|done]|split; [done|]].
  eapply (tail_found_step e e' g ps _ _ H3 H5 (ds_evolves _ _ _ _ Hs)); [intros q _; exact Hg|by apply (ds_tails _ _ _ _ Hs)].
Qed.
(** ** Rows that fit *)
Lemma row_fits cs vs : Forall col_ok cs -> Forall (fun v => wf_box (box v)) vs -> zlen cs = zlen vs -> all_storable cs vs = true ->
  2 + bitmap_len (zlen cs) + zlen (fields cs vs) <= MAX_RECORD_LEN -> fits cs vs.
Proof.
  intros Hcs Hvs Hl Hs Hm. split; [done|]. rewrite (encode_row_eq cs vs Hcs Hvs). rewrite Hl, Z.eqb_refl, Hs. cbn [andb]. eexists. split; [done|].
  assert (0 <= bitmap_len (zlen cs)) by (unfold bitmap_len; apply Z.div_pos; [pose proof (zlen_nonneg cs); lia|lia]).
  assert (zlen (row_image cs vs) = 2 + bitmap_len (zlen cs) + zlen (fields cs vs)) as Hz.
  { unfold row_image. rewrite zlen_app, zlen_set_nulls, zlen_app, zlen_replicate. change (zlen [0; 0]) with 2. lia. }
  rewrite zlen_app, put_u16_le, zlen_le_bytes. pose proof (zlen_nonneg (fields cs vs)). unfold zlen in *. rewrite length_drop. lia.
Qed.
