(* ===== verification/Analyze.v ===== *)
(** The analyzer (src/analyzer/analyzer.cpp, analyzer_insert.cpp, analyzer_select.cpp): a parsed statement becomes a bound one, with its
    names resolved and its types checked; and what it lets through is typed as the planner and the executor expect. *)
From S2P Require Import Prelude Types Ieee Text Cast Decimal Expr Typing Bind Plan Stmt Meta.

(** What the analyzer asks of the catalog. *)
Class Directory := { dir_types : TypeCatalog; dir_table : TableRef -> result TableMeta; dir_bootstrap : bool }.

(** * Names *)
Definition table_ref_to_string (t : TableRef) : string :=
  if bool_decide (tr_schema t = ""%string) then tr_table t else (tr_schema t ++ "." ++ tr_table t)%string.
Definition check_reserved_table (t : TableRef) : result unit := if bool_decide (tr_schema t = kSystemSchemaName) then Raise ProtectedTable else Ok tt.
Definition to_table_ref (n : QualifiedName) (current_schema : string) : TableRef :=
  if bool_decide (q_schema n = ""%string) then mkTableRef current_schema (q_name n) else mkTableRef (q_schema n) (q_name n).

(** * Assignments *)
Definition is_int_type (t : TypeAttr) : bool := bool_decide (rep t = RepInt64).
Definition is_float_type (t : TypeAttr) : bool := bool_decide (rep t = RepFloat) || bool_decide (rep t = RepDouble).
Definition is_text_type (t : TypeAttr) : bool := bool_decide (family t = FamText).
Definition check_assignment_type (t : TypeAttr) (col : ColumnSpec) : result unit :=
  let check ok := if ok : bool then Ok tt else Raise ValueMismatch in
  match rep (ctype col) with
  | RepInt64 => check (is_int_type t || (t_id t =? 0))
  | RepFloat | RepDouble => check (is_int_type t || is_float_type t || bool_decide (rep t = RepDec) || (t_id t =? 0))
  | RepStr => check (is_text_type t || (t_id t =? 0))
  | RepBool => check (bool_decide (rep t = RepBool) || (t_id t =? 0))
  | RepDec => check (is_int_type t || bool_decide (rep t = RepDec) || (t_id t =? 0))
  | RepNone => Raise Internal
  end.
(** A literal must also fit: a number a float column, a text the column's length. *)
Definition check_value_type (e : Expr) (t : TypeAttr) (col : ColumnSpec) : result unit :=
  _ ← check_assignment_type t col;
  ok ← match e with
       | FloatExpr s | DecimalExpr s =>
           if bool_decide (rep (ctype col) = RepFloat) then
             match from_chars_f64 s with
             | None => Raise Internal
             | Some d => Ok (negb (Ieee.is_finite binary64 d) || Ieee.is_finite binary32 (Ieee.f64_to_f32 d))
             end
           else Ok true
       | StringExpr s => Ok (negb (bool_decide (rep (ctype col) = RepStr)) || (clength col =? 0) || (zlen s <=? clength col))
       | _ => Ok true
       end;
  if ok : bool then Ok tt else Raise ValueMismatch.

(** * INSERT *)
(** Where the values of a row go, and the columns that get one. *)
Record InsertTargets := mkTargets { target : list nat; specified : list bool }.
Fixpoint resolve_names (names : gmap string nat) (columns : list string) (t : InsertTargets) : result InsertTargets :=
  match columns with
  | [] => Ok t
  | name :: columns =>
      match names !! name with
      | None => Raise UnknownColumn
      | Some i =>
          if bool_decide (specified t !! i = Some true) then Raise ValueMismatch
          else resolve_names names columns (mkTargets (target t ++ [i]) (<[i := true]> (specified t)))
      end
  end.
Definition resolve_insert_targets (columns : list string) (m : TableMeta) : result InsertTargets :=
  let n := length (cols m) in
  if bool_decide (columns = []) then Ok (mkTargets (seq 0 n) (replicate n true))
  else resolve_names (rd_cols (build_row_desc m)) columns (mkTargets [] (replicate n false)).
(** A value of a row, checked against its column. *)
Definition check_value (m : TableMeta) (x : Expr * TypeAttr * nat) : result unit :=
  match cols m !! x.2 with Some col => check_value_type x.1.1 x.1.2 col | None => Fatal end.
Definition place (n : nat) (target : list nat) (values : list BoundExpr) : list (option BoundExpr) :=
  foldl (fun row p => <[p.1 := Some p.2]> row) (replicate n None) (zip target values).
Definition bind_insert_row `{Directory} (values : list Expr) (t : InsertTargets) (m : TableMeta) : result (list BoundExpr) :=
  bs ← bind_args dir_types None values;
  if negb (Nat.eqb (length values) (length (target t))) then Raise ValueMismatch
  else if existsb (fun p => negb p.1 && not_null p.2) (zip (specified t) (cols m)) then Raise ValueMismatch
  else
    _ ← mapM (check_value m) (zip (zip values bs.*2) (target t));
    Ok (default (BoundConst null_val) <$> place (length (cols m)) (target t) bs.*1).

(** * UPDATE *)
Fixpoint bind_assigns `{Directory} (rd : RowDesc) (m : TableMeta) (items : list UpdateItem) (acc : list BoundUpdateItem) : result (list BoundUpdateItem) :=
  match items with
  | [] => Ok acc
  | item :: items =>
      match rd_cols rd !! ui_column item with
      | None => Raise UnknownColumn
      | Some i =>
          if existsb (fun a => Nat.eqb (ua_col_idx a) i) acc then Raise ValueMismatch
          else
            '(v, t) ← bind_expr dir_types (Some rd) (ui_value item);
            match cols m !! i with
            | None => Fatal
            | Some col =>
                _ ← (if has_col_ref (ui_value item) then check_assignment_type t col else check_value_type (ui_value item) t col);
                bind_assigns rd m items (acc ++ [mkAssign i v])
            end
      end
  end.

(** * SELECT *)
Definition proj_name (e : Expr) (alias : string) : string :=
  if negb (bool_decide (alias = ""%string)) then alias
  else match e with IdentifierExpr n => n | _ => name_of (expr_to_string e) end.
(** The projected columns, each with the expression it comes from ([None] for a column of a star). *)
Notation ProjBind := (list (ProjCol * option Expr)).
Definition bind_proj_item `{Directory} (rd : RowDesc) (e : Expr) (alias : string) : result (ProjCol * option Expr) :=
  '(b, _) ← bind_expr dir_types (Some rd) e; Ok (mkProj (Some b) (proj_name e alias) 0, Some e).
Definition star_cols (m : TableMeta) : ProjBind := imap (fun i c => (mkProj None (cname c) i, None)) (cols m).
Fixpoint build_projs `{Directory} (m : TableMeta) (rd : RowDesc) (items : list SelectItem) : result ProjBind :=
  match items with
  | [] => Ok []
  | StarItem :: items => ps ← build_projs m rd items; Ok (star_cols m ++ ps)
  | ExprItem e alias :: items => p ← bind_proj_item rd e alias; ps ← build_projs m rd items; Ok (p :: ps)
  end.
Fixpoint build_projs_no_from `{Directory} (rd : RowDesc) (items : list SelectItem) : result ProjBind :=
  match items with
  | [] => Ok []
  | StarItem :: _ => Raise StarNoFrom
  | ExprItem e alias :: items => p ← bind_proj_item rd e alias; ps ← build_projs_no_from rd items; Ok (p :: ps)
  end.

(** A sort key: an output column or an expression over the row. *)
Inductive OrderKey := KeyOut (i : nat) | KeyExpr (b : BoundExpr).
Definition row_key `{Directory} (rd : RowDesc) (e : Expr) : result OrderKey := '(b, _) ← bind_expr dir_types (Some rd) e; Ok (KeyExpr b).
(** The output columns of a name, by position. *)
Definition hits (name : string) (pb : ProjBind) : list nat := omap id (imap (fun i (p : ProjCol * option Expr) => if bool_decide (pc_name p.1 = name) then Some i else None) pb).
Definition resolve_order_key `{Directory} (pb : ProjBind) (rd : RowDesc) (e : Expr) : result OrderKey :=
  match e with
  | IntExpr s =>
      match from_chars_i64 s with
      | Some pos => if (pos <? 1) || (pos >? zlen pb) then Raise UnknownColumn else Ok (KeyOut (Z.to_nat (pos - 1)))
      | None => Raise UnknownColumn
      end
  | IdentifierExpr name =>
      match hits name pb with
      | [] => row_key rd e
      | [i] => Ok (KeyOut i)
      | _ => Raise ValueMismatch
      end
  | FloatExpr _ | DecimalExpr _ | StringExpr _ | NullExpr | BoolExpr _ => Raise ValueMismatch
  | _ => row_key rd e
  end.
Definition is_out (k : OrderKey) : bool := match k with KeyOut _ => true | KeyExpr _ => false end.
(** Unless every key is an output column, every key becomes an expression over the row. *)
Definition order_item `{Directory} (pb : ProjBind) (rd : RowDesc) (all_out : bool) (p : OrderItem * OrderKey) : result BoundOrderItem :=
  match p.2 with
  | KeyExpr b => Ok (mkOrder (oi_desc p.1) 0 (Some b))
  | KeyOut i =>
      if all_out then Ok (mkOrder (oi_desc p.1) i None)
      else
        match pb !! i with
        | Some (_, Some e) => '(b, _) ← bind_expr dir_types (Some rd) e; Ok (mkOrder (oi_desc p.1) 0 (Some b))
        | Some (c, None) =>
            match rd_col_types rd !! pc_col_idx c with
            | Some t => Ok (mkOrder (oi_desc p.1) 0 (Some (BoundColRef (pc_col_idx c) t)))
            | None => Fatal
            end
        | None => Fatal
        end
  end.
Definition bind_orders `{Directory} (items : list OrderItem) (pb : ProjBind) (rd : RowDesc) : result (list BoundOrderItem * bool) :=
  keys ← mapM (fun o => resolve_order_key pb rd (oi_expr o)) items;
  let all_out := forallb is_out keys in
  orders ← mapM (order_item pb rd all_out) (zip items keys);
  Ok (orders, all_out).
Definition bind_orders_opt `{Directory} (items : list OrderItem) (pb : ProjBind) (rd : RowDesc) : result (list BoundOrderItem * bool) :=
  if bool_decide (items = []) then Ok ([], false) else bind_orders items pb rd.
Definition bind_where_opt `{Directory} (rd : RowDesc) (w : option Expr) : result (option BoundExpr) :=
  match w with Some e => p ← bind_where dir_types rd e; Ok (Some p) | None => Ok None end.

(** * Statements *)
Fixpoint convert_columns `{Directory} (defs : list ColumnDef) : result (list ColumnSpec) :=
  match defs with
  | [] => Ok []
  | d :: defs =>
      '(t, len, scl) ← map_type_spec dir_types (d_type d) (d_length d) (d_scale d);
      cs ← convert_columns defs;
      Ok (mkCol (d_name d) t len (d_not_null d) scl :: cs)
  end.
(** [std::from_chars] on a [uint64_t], required to consume the whole text. *)
Definition from_chars_u64 (s : bytes) : option Z :=
  match span_digits s with
  | ((_ :: _) as ds, []) => let v := read_digits 0 ds in if v <? 2 ^ 64 then Some v else None
  | _ => None
  end.
Definition handle_of `{Directory} (t : TableRef) : result TableHandle := m ← dir_table t; Ok (mkHandle m (table_ref_to_string t)).
Definition indexable_rep (r : Rep) : bool := match r with RepDec | RepStr | RepNone => false | _ => true end.
Definition parse_create_index `{Directory} (index : string) (table : TableRef) (column : string) : result BoundStmt :=
  _ ← check_reserved_table table;
  m ← dir_table table;
  match list_find (fun c => cname c = column) (cols m) with
  | None => Raise UnknownColumn
  | Some (i, c) =>
      if negb (indexable_rep (rep (ctype c))) then Raise InvalidType
      else Ok (BoundCreateIndex (mkHandle m (table_ref_to_string table)) index (Z.to_nat (wrap 16 (Z.of_nat i))))
  end.
Definition parse_insert `{Directory} (table : TableRef) (columns : list string) (rows : list (list Expr)) : result BoundStmt :=
  _ ← (if dir_bootstrap then Ok tt else check_reserved_table table);
  m ← dir_table table;
  targets ← resolve_insert_targets columns m;
  rows ← mapM (fun r => bind_insert_row r targets m) rows;
  Ok (BoundInsert (mkHandle m (table_ref_to_string table)) rows).
Definition parse_update `{Directory} (table : TableRef) (items : list UpdateItem) (w : option Expr) : result BoundStmt :=
  _ ← check_reserved_table table;
  h ← handle_of table;
  let rd := build_row_desc (meta h) in
  assigns ← bind_assigns rd (meta h) items [];
  w ← bind_where_opt rd w;
  Ok (BoundUpdate h assigns w).
Fixpoint analyze `{Directory} (current_schema : string) (s : SQLStatement) : result BoundStmt :=
  let ref n := to_table_ref n current_schema in
  match s with
  | CreateTableStmt t defs =>
      _ ← (if dir_bootstrap then Ok tt else check_reserved_table (ref t));
      cs ← convert_columns defs; Ok (BoundCreateTable (ref t) cs)
  | DropTableStmt t => _ ← check_reserved_table (ref t); h ← handle_of (ref t); Ok (BoundDropTable h)
  | CreateSchemaStmt n => Ok (BoundCreateSchema n)
  | DropSchemaStmt n => Ok (BoundDropSchema n)
  | CreateIndexStmt i t c => parse_create_index i (ref t) c
  | DropIndexStmt i t => _ ← check_reserved_table (ref t); h ← handle_of (ref t); Ok (BoundDropIndex h i)
  | InsertStmt t columns rows => parse_insert (ref t) columns rows
  | DeleteStmt t w =>
      _ ← check_reserved_table (ref t); h ← handle_of (ref t);
      w ← bind_where_opt (build_row_desc (meta h)) w; Ok (BoundDelete h w)
  | UpdateStmt t items w => parse_update (ref t) items w
  | SelectStmt t _ items w orders _ _ =>
      h ← handle_of (ref t);
      let rd := build_row_desc (meta h) in
      w ← bind_where_opt rd w;
      pb ← build_projs (meta h) rd items;
      '(orders, on) ← bind_orders_opt orders pb rd;
      Ok (BoundSelect h pb.*1 w orders on)
  | SelectNoFromStmt items w orders =>
      let rd := mkRowDesc ∅ [] in
      w ← bind_where_opt rd w;
      pb ← build_projs_no_from rd items;
      '(orders, on) ← bind_orders_opt orders pb rd;
      Ok (BoundSelectNoFrom pb.*1 w orders on)
  | ExplainStmt inner => b ← analyze current_schema inner; Ok (BoundExplain b)
  | SetStmt var value _ =>
      if negb dir_bootstrap then Raise NotImplemented
      else if negb (bool_decide (var = "table_id"%string)) then Raise UnknownVar
      else match from_chars_u64 (str value) with None => Raise InvalidVarValue | Some v => Ok (BoundSet v) end
  | BeginStmt | CommitStmt | RollbackStmt => Raise UnknownStmt
  end.
