(* ===== verification/Analyzed.v ===== *)
(** What the analyzer lets through is typed as the planner and the executor expect. *)
From S2P Require Import Prelude Types Text Codec Decimal Expr Typing Key Bind Plan Sort Query Stmt Meta Analyze.

(** What the analyzer relies on: the built-in types, and tables of columns of these types. *)
Class DirectoryOk `{Directory} : Prop := {
  do_types :: CatalogOk dir_types;
  do_rows name row : find_type dir_types name = Ok row -> In row seed_types;
  do_tables r m : dir_table r = Ok m -> Forall seed_attr (col_types m) /\ Z.of_nat (length (cols m)) <= UINT16_MAX }.

(** * What each bound statement promises *)
Definition where_typed (ts : list TypeAttr) (w : option BoundExpr) : Prop := match w with Some p => is_pred ts p | None => True end.
(** A value for a column: it has a type that may be assigned to it. *)
Definition value_for (ts : list TypeAttr) (e : BoundExpr) (col : ColumnSpec) : Prop := exists t, has_type ts e t /\ check_assignment_type t col = Ok tt.
Definition no_table : TableHandle := mkHandle (mkMeta 0 0 "" []) "".
Definition select_typed (h : TableHandle) (projs : list ProjCol) (w : option BoundExpr) (orders : list BoundOrderItem) (on : bool) : Prop :=
  where_typed (col_types (meta h)) w /\ exists pts kts, Forall2 (proj_ok h) projs pts /\ Forall2 (order_ok h on pts) orders kts.
Fixpoint stmt_typed (b : BoundStmt) : Prop :=
  match b with
  | BoundCreateTable _ cs => Forall declared cs
  | BoundCreateIndex h _ i => exists c, cols (meta h) !! i = Some c /\ indexable (ctype c)
  | BoundInsert h rows => Forall (fun row => Forall2 (value_for []) row (cols (meta h))) rows
  | BoundDelete h w => where_typed (col_types (meta h)) w
  | BoundUpdate h assigns w =>
      where_typed (col_types (meta h)) w /\ NoDup (ua_col_idx <$> assigns) /\
      Forall (fun a => exists c, cols (meta h) !! ua_col_idx a = Some c /\ value_for (col_types (meta h)) (ua_value a) c) assigns
  | BoundSelect h projs w orders on => select_typed h projs w orders on
  | BoundSelectNoFrom projs w orders on => select_typed no_table projs w orders on
  | BoundExplain inner => stmt_typed inner
  | _ => True
  end.

Lemma zip_snd {A B} (P : B -> Prop) (l : list A) k : Forall P k -> Forall (fun p => P p.2) (zip l k).
Proof. intros H. revert l. induction H as [|y k Hy _ IH]; intros [|x l]; cbn; [constructor..|]. constructor; [done|apply IH]. Qed.
Section analyzed.
Context `{DirectoryOk}.

(** * Expressions *)
Lemma row_desc_ok m : Forall seed_attr (col_types m) -> rd_ok (Some (build_row_desc m)) (col_types m).
Proof using. by split. Qed.
Lemma bound_typed rd ts e b t : rd_ok rd ts -> bind_expr dir_types rd e = Ok (b, t) -> has_type ts b t.
Proof using All. intros Hrd. eapply bind_typed; [apply _|done]. Qed.
Lemma where_sound rd ts w w' : rd_ok (Some rd) ts -> bind_where_opt rd w = Ok w' -> where_typed ts w'.
Proof using All.
  intros Hrd. destruct w as [e|]; cbn [bind_where_opt]; [|by intros [= <-]]. intros (p & (x & E & Hc)%bind_ok & [= <-])%bind_ok.
  destruct x as [q t]. destruct (check_bool t) eqn:Et; [done|]. injection Hc as <-. exists t. split; [by eapply bound_typed|]. by apply bool_checked.
Qed.
Lemma desc_lookup m name i : rd_cols (build_row_desc m) !! name = Some i -> exists c, cols m !! i = Some c /\ cname c = name.
Proof using.
  cbn [rd_cols build_row_desc]. intros E%elem_of_list_to_map_2. apply elem_of_lookup_imap in E as (j & c & E & Hc). injection E as -> ->. by exists c.
Qed.

(** * Columns *)
Lemma spec_declared name type len sc t l s nn : map_type_spec dir_types type len sc = Ok (t, l, s) -> declared (mkCol name t l nn s).
Proof using All.
  unfold map_type_spec. intros (row & Hrow%do_rows & Hc)%bind_ok. apply list_elem_of_In, list_elem_of_fmap in Hrow as (sd & -> & Hs%list_elem_of_In).
  exists sd. split; [done|]. cbn [tr_len_allowed tr_len_default tr_len_max tr_scale_allowed tr_attr seed_type_row] in Hc. cbn [ctype clength cscale].
  assert (0 <= len_default sd <= len_max sd /\ len_max sd <= UINT16_MAX /\ (len_allowed sd = false -> len_default sd = 0) /\ (scale_allowed sd = true -> len_max sd <= UINT8_MAX) /\
    (scale_allowed sd = true -> len_allowed sd = true)) as (D1 & D2 & D3 & D4 & D5).
  { cbn in Hs. destruct Hs as [<-|[<-|[<-|[<-|[<-|[<-|[<-|[<-|[]]]]]]]]]; cbn; unfold UINT16_MAX, UINT8_MAX; repeat split; intros; try done; lia. }
  set (n := default (len_default sd) len) in *.
  destruct (negb (len_allowed sd) && bool_decide (is_Some len)) eqn:E1; [done|]. destruct (bool_decide (is_Some len) && ((n <=? 0) || (n >? len_max sd))) eqn:E2; [done|].
  destruct (negb (scale_allowed sd) && bool_decide (is_Some sc)) eqn:E3; [done|]. destruct ((default 0 sc <? 0) || (default 0 sc >? n)) eqn:E4; [done|]. injection Hc as <- <- <-.
  apply orb_false_iff in E4 as [E4%Z.ltb_ge E5]. rewrite Z.gtb_ltb in E5. apply Z.ltb_ge in E5.
  assert (0 <= n <= len_max sd /\ (len_allowed sd = false -> n = 0)) as [N1 N2].
  { unfold n. destruct len as [m|]; [|cbn; split; [lia|done]]. rewrite bool_decide_true in E1, E2 by done. cbn [default andb] in *.
    apply orb_false_iff in E2 as [E2%Z.leb_gt E6]. rewrite Z.gtb_ltb in E6. apply Z.ltb_ge in E6. split; [lia|]. intros Hl. by rewrite Hl in E1. }
  assert (if scale_allowed sd then True else default 0 sc = 0) as Hsc.
  { destruct (scale_allowed sd); [done|]. destruct sc; [|done]. by rewrite bool_decide_true in E3. }
  rewrite (wrap_small 16 n) by (unfold UINT16_MAX in *; lia). split; [done|]. split; [lia|]. split; [done|].
  destruct (scale_allowed sd) eqn:Esc; [|rewrite Hsc; split; [done|reflexivity]].
  specialize (D4 eq_refl). rewrite (wrap_small 8 (default 0 sc)) by (unfold UINT8_MAX in *; lia). lia.
Qed.
Lemma columns_sound defs cs : convert_columns defs = Ok cs -> Forall declared cs.
Proof using All.
  revert cs. induction defs as [|d defs IH]; intros cs; cbn [convert_columns]; [by intros [= <-]|].
  intros (x & E & Hr)%bind_ok. destruct x as [[t l] s]. apply bind_ok in Hr as (cs' & Hcs & [= <-]). constructor; [by eapply spec_declared|by apply IH].
Qed.

(** * Projections and sort keys *)
Section select.
Context (h : TableHandle) (Hseed : Forall seed_attr (col_types (meta h))).
Notation ts := (col_types (meta h)).
Notation rd := (build_row_desc (meta h)).
(** A projected column agrees with the expression it comes from. *)
Definition proj_src (p : ProjCol * option Expr) : Prop :=
  match p.2 with Some e => exists b t, bind_expr dir_types (Some rd) e = Ok (b, t) | None => exists t, ts !! pc_col_idx p.1 = Some t end.
Lemma proj_item_sound e alias p : bind_proj_item rd e alias = Ok p -> (exists t, proj_ok h p.1 t) /\ proj_src p.
Proof using All.
  intros ([b t] & E & [= <-])%bind_ok. split; [exists t; by eapply bound_typed; [apply row_desc_ok|]|by exists b, t].
Qed.
Lemma star_sound : Forall (fun p => (exists t, proj_ok h p.1 t) /\ proj_src p) (star_cols (meta h)).
Proof using All.
  apply list.Forall_forall. intros p (i & c & -> & Hc)%elem_of_lookup_imap. assert (ts !! i = Some (ctype c)) as Ht by (unfold col_types; by rewrite list_lookup_fmap, Hc).
  split; [|by exists (ctype c)]. exists (ctype c). split; [done|]. right. rewrite list.Forall_forall in Hseed. apply Hseed. by eapply list_elem_of_lookup_2.
Qed.
Lemma projs_sound items pb : build_projs (meta h) rd items = Ok pb -> Forall (fun p => (exists t, proj_ok h p.1 t) /\ proj_src p) pb.
Proof using All.
  revert pb. induction items as [|[|e alias] items IH]; intros pb; cbn [build_projs].
  - intros [= <-]. constructor.
  - intros (ps & Hps & [= <-])%bind_ok. apply Forall_app_2; [apply star_sound|by apply IH].
  - intros (p & Hp & (ps & Hps & [= <-])%bind_ok)%bind_ok. constructor; [by eapply proj_item_sound|by apply IH].
Qed.
Lemma projs_no_from_sound items pb : build_projs_no_from rd items = Ok pb -> Forall (fun p => (exists t, proj_ok h p.1 t) /\ proj_src p) pb.
Proof using All.
  revert pb. induction items as [|[|e alias] items IH]; intros pb; cbn [build_projs_no_from]; [|done|].
  - intros [= <-]. constructor.
  - intros (p & Hp & (ps & Hps & [= <-])%bind_ok)%bind_ok. constructor; [by eapply proj_item_sound|by apply IH].
Qed.
Lemma pick_types (pb : ProjBind) : Forall (fun p => (exists t, proj_ok h p.1 t) /\ proj_src p) pb -> exists pts, Forall2 (proj_ok h) pb.*1 pts.
Proof using. induction 1 as [|p pb [(t & Ht) _] _ (pts & IH)]; [by exists []|]. exists (t :: pts). by constructor. Qed.
Lemma proj_type p t : proj_ok h p t -> type_ok t.
Proof using. unfold proj_ok. destruct (pc_expr p); [by apply has_type_ok|by intros [_ ?]]. Qed.

Definition key_sound (pb : ProjBind) (k : OrderKey) : Prop :=
  match k with KeyOut i => (i < length pb)%nat | KeyExpr b => exists t, has_type ts b t end.
Lemma row_key_sound pb e k : row_key rd e = Ok k -> key_sound pb k.
Proof using All. intros ([b t] & E & [= <-])%bind_ok. exists t. by eapply bound_typed; [apply row_desc_ok|]. Qed.
Lemma hits_sound name (pb : ProjBind) i : i ∈ hits name pb -> (i < length pb)%nat.
Proof using.
  unfold hits. intros (x & (j & p & -> & Hp)%elem_of_lookup_imap & E)%list_elem_of_omap. cbn in E. destruct (bool_decide _); [|done]. injection E as <-. by eapply lookup_lt_Some.
Qed.
Lemma order_key_sound pb e k : resolve_order_key pb rd e = Ok k -> key_sound pb k.
Proof using All.
  destruct e; cbn [resolve_order_key]; intros E; try done; try by eapply row_key_sound.
  - destruct (from_chars_i64 text) as [pos|]; [|done]. destruct (_ || _) eqn:Eb; [done|]. apply orb_false_iff in Eb as [E1%Z.ltb_ge E2]. rewrite Z.gtb_ltb in E2. apply Z.ltb_ge in E2.
    injection E as <-. unfold zlen in E2. cbn. lia.
  - destruct (hits name pb) as [|i [|]] eqn:Eh; [by eapply row_key_sound| |done]. injection E as <-. apply (hits_sound name). rewrite Eh. by left.
Qed.
Lemma order_item_sound pb pts on p o : Forall (fun p => (exists t, proj_ok h p.1 t) /\ proj_src p) pb -> Forall2 (proj_ok h) pb.*1 pts -> key_sound pb p.2 ->
  (on = true -> is_out p.2 = true) -> order_item pb rd on p = Ok o -> exists kt, order_ok h on pts o kt.
Proof using All.
  intros Hpb Hpts Hk Hon. unfold order_item. destruct p as [it [i|b]]; cbn [is_out fst snd key_sound] in *.
  - destruct on; cbn [order_ok].
    + intros [= <-]. destruct (lookup_lt_is_Some_2 pts i) as [t Ht].
      { apply list.Forall2_length in Hpts. rewrite length_fmap in Hpts. lia. }
      exists t. split; [|done]. destruct (list.Forall2_lookup_r _ _ _ _ _ Hpts Ht) as (p & _ & Hp). by eapply proj_type.
    + destruct (lookup_lt_is_Some_2 pb i Hk) as [[c [e|]] Hp]; rewrite Hp.
      * intros ([b t] & E & [= <-])%bind_ok. pose proof (bound_typed _ _ _ _ _ (row_desc_ok _ Hseed) E) as Ht. exists t. split; [by eapply has_type_ok|]. by exists b.
      * rewrite list.Forall_forall in Hpb. destruct (Hpb _ (list_elem_of_lookup_2 _ _ _ Hp)) as [_ (t & Ht)]. cbn in Ht. change (rd_col_types rd) with ts. rewrite Ht. intros [= <-]. exists t.
        assert (seed_attr t) as Hs by (rewrite list.Forall_forall in Hseed; apply Hseed; by eapply list_elem_of_lookup_2). split; [by right|]. eexists. split; [done|]. by constructor.
  - destruct on; [by specialize (Hon eq_refl)|]. intros [= <-]. destruct Hk as [t Ht]. exists t. split; [by eapply has_type_ok|]. by exists b.
Qed.
Lemma orders_sound items pb pts os on : Forall (fun p => (exists t, proj_ok h p.1 t) /\ proj_src p) pb -> Forall2 (proj_ok h) pb.*1 pts ->
  bind_orders_opt items pb rd = Ok (os, on) -> exists kts, Forall2 (order_ok h on pts) os kts.
Proof using All.
  intros Hpb Hpts. unfold bind_orders_opt. case_bool_decide as Hne; [intros [= <- <-]; by exists []|].
  intros (keys & Hk & (os' & Ho & [= <- <-])%bind_ok)%bind_ok. apply mapM_ok in Hk, Ho.
  assert (Forall (key_sound pb) keys) as Hks.
  { clear -Hk Hseed H0. induction Hk as [|it k items keys E _ IH]; [constructor|]. constructor; [by eapply order_key_sound|exact IH]. }
  assert (forallb is_out keys = true -> Forall (fun k => is_out k = true) keys) as Hon by (rewrite forallb_forall; intros E; apply list.Forall_forall; intros k Hin; by apply E, list_elem_of_In).
  set (all := forallb is_out keys) in *. assert (Forall (fun p => key_sound pb p.2 /\ (all = true -> is_out p.2 = true)) (zip items keys)) as Hz.
  { apply (zip_snd (fun k => key_sound pb k /\ (all = true -> is_out k = true))). apply list.Forall_forall. intros k Hin. rewrite list.Forall_forall in Hks.
    split; [by apply Hks|]. intros Ha. specialize (Hon Ha). rewrite list.Forall_forall in Hon. by apply Hon. }
  clearbody all. clear Hk Hks Hon. revert Hz. induction Ho as [|p o ps os Hp _ IH]; intros Hz; [by exists []|]. apply Forall_cons_1 in Hz as [[Z1 Z2] Zs].
  destruct (IH Zs) as (kts & Hkts). destruct (order_item_sound pb pts all p o Hpb Hpts Z1 Z2 Hp) as (kt & Hkt). exists (kt :: kts). by constructor.
Qed.
End select.

(** * Values for columns *)
Lemma value_type_assigns e t col : check_value_type e t col = Ok tt -> check_assignment_type t col = Ok tt.
Proof using. unfold check_value_type. by intros ([] & E & _)%bind_ok. Qed.
Lemma null_for col : seed_attr (ctype col) -> value_for [] (BoundConst null_val) col.
Proof using.
  intros Hs. exists no_type. split; [by apply ht_null|]. unfold check_assignment_type. change (t_id no_type =? 0) with true. rewrite !orb_true_r.
  destruct (seed_attr_cases _ Hs) as [->|[->|[->|[->|[->|[->|[->| ->]]]]]]]; done.
Qed.
Lemma place_sound (m : TableMeta) (P : BoundExpr -> ColumnSpec -> Prop) target values n :
  Forall2 (fun j b => exists c, cols m !! j = Some c /\ P b c) target values ->
  length (place n target values) = n /\ forall i b c, place n target values !! i = Some (Some b) -> cols m !! i = Some c -> P b c.
Proof using.
  intros Hf. unfold place. assert (length (replicate n (@None BoundExpr)) = n /\ forall i b c, replicate n (@None BoundExpr) !! i = Some (Some b) -> cols m !! i = Some c -> P b c) as Hz.
  { split; [apply length_replicate|]. intros i b c [E _]%lookup_replicate. done. }
  revert Hz. generalize (replicate n (@None BoundExpr)). induction Hf as [|j b target values (c & Hc & Hb) _ IH]; intros row [Hl Hrow]; cbn [zip zip_with foldl]; [done|].
  apply IH. split; [by rewrite length_insert|]. cbn [fst snd]. intros i b' c' Hi Hc'. apply list_lookup_insert_Some in Hi as [(-> & [= ->] & _)|[_ Hi]]; [by simplify_eq|by eapply Hrow].
Qed.
Lemma checked_values m values target bs us : length values = length target -> bind_args dir_types None values = Ok bs ->
  mapM (check_value m) (zip (zip values bs.*2) target) = Ok us -> Forall2 (fun j b => exists c, cols m !! j = Some c /\ value_for [] b c) target bs.*1.
Proof using All.
  intros Hl Hb%mapM_ok. revert target us Hl. induction Hb as [|v x values bs Hx _ IH]; intros [|j target] us Hl; try done.
  destruct x as [b t]. cbn [zip zip_with fmap list_fmap fst snd mapM]. intros ([] & Hc & (us' & Hus & [= <-])%bind_ok)%bind_ok. constructor; [|by apply (IH target us'); [injection Hl|]].
  unfold check_value in Hc. cbn in Hc. destruct (cols m !! j) as [c|] eqn:Ec; [|done]. exists c. split; [done|]. exists t.
  split; [by eapply (bound_typed None)|by eapply value_type_assigns].
Qed.
Lemma insert_row_sound values t m row : Forall seed_attr (col_types m) -> bind_insert_row values t m = Ok row -> Forall2 (value_for []) row (cols m).
Proof using All.
  intros Hs. unfold bind_insert_row. intros (bs & Hbs & Hr)%bind_ok. destruct (Nat.eqb_spec (length values) (length (target t))) as [Hl|]; [|done]. cbn [negb] in Hr.
  destruct (existsb _ _); [done|]. apply bind_ok in Hr as (us & Hus & [= <-]).
  destruct (place_sound m (value_for []) _ _ (length (cols m)) (checked_values _ _ _ _ _ Hl Hbs Hus)) as [P1 P2].
  apply Forall2_same_length_lookup. split; [by rewrite length_fmap|]. intros i b c Hi Hc. rewrite list_lookup_fmap in Hi. apply fmap_Some in Hi as ([b'|] & Hb & ->); [by apply (P2 i)|].
  apply null_for. rewrite list.Forall_forall in Hs. apply Hs. unfold col_types. apply list_elem_of_fmap_2. by eapply list_elem_of_lookup_2.
Qed.
Lemma assigns_sound m items acc as_ : Forall seed_attr (col_types m) ->
  let ok (l : list BoundUpdateItem) := NoDup (ua_col_idx <$> l) /\ Forall (fun a => exists c, cols m !! ua_col_idx a = Some c /\ value_for (col_types m) (ua_value a) c) l in
  bind_assigns (build_row_desc m) m items acc = Ok as_ -> ok acc -> ok as_.
Proof using All.
  intros Hs ok. revert acc. induction items as [|item items IH]; intros acc; cbn [bind_assigns]; [by intros [= <-]|].
  destruct (rd_cols (build_row_desc m) !! ui_column item) as [i|]; [|done]. destruct (existsb _ acc) eqn:Ex; [done|].
  intros (x & E & Hr)%bind_ok [A1 A2]. destruct x as [v t]. destruct (cols m !! i) as [col|] eqn:Ec; [|done]. apply bind_ok in Hr as ([] & Hc & Hr).
  apply (IH _ Hr). split.
  - rewrite fmap_app. apply list.NoDup_app. split; [done|]. split; [|apply list.NoDup_singleton]. intros j Hj. cbn. intros ->%list_elem_of_singleton.
    apply list_elem_of_fmap in Hj as (a & -> & Ha). apply not_true_iff_false in Ex. apply Ex. apply existsb_exists. exists a. split; [by apply list_elem_of_In|apply Nat.eqb_refl].
  - apply Forall_app_2; [done|]. apply Forall_cons_2; [|apply Forall_nil_2]. exists col. split; [done|]. exists t. split; [by eapply (bound_typed (Some _)); [apply row_desc_ok|]|].
    destruct (has_col_ref (ui_value item)); [done|by eapply value_type_assigns].
Qed.

(** * Statements *)
Lemma handle_sound r h : handle_of r = Ok h -> Forall seed_attr (col_types (meta h)).
Proof using All. unfold handle_of. intros (m & [Hm _]%do_tables & [= <-])%bind_ok. exact Hm. Qed.
Lemma indexable_sound t : seed_attr t -> indexable_rep (rep t) = true -> indexable t.
Proof using. intros Ht. unfold indexable. destruct (seed_attr_cases _ Ht) as [->|[->|[->|[->|[->|[->|[->| ->]]]]]]]; cbn; intros E; try done; tauto. Qed.
Lemma create_index_sound i r c b : parse_create_index i r c = Ok b -> stmt_typed b.
Proof using All.
  unfold parse_create_index. intros (_ & _ & (m & [Hm Hn]%do_tables & E)%bind_ok)%bind_ok. destruct (list_find _ _) as [[j col]|] eqn:Ef; [|done]. apply list_find_Some in Ef as (Hj & _ & _).
  destruct (indexable_rep _) eqn:Ei; [|done]. injection E as <-. cbn [stmt_typed meta]. pose proof (lookup_lt_Some _ _ _ Hj).
  rewrite wrap_small by (unfold UINT16_MAX in Hn; lia). rewrite Nat2Z.id. exists col. split; [done|]. apply indexable_sound; [|done].
  rewrite list.Forall_forall in Hm. apply Hm. unfold col_types. apply list_elem_of_fmap_2. by eapply list_elem_of_lookup_2.
Qed.
Lemma insert_sound r columns rows b : parse_insert r columns rows = Ok b -> stmt_typed b.
Proof using All.
  unfold parse_insert. intros (_ & _ & (m & [Hm _]%do_tables & (t & _ & (rs & Hrs & [= <-])%bind_ok)%bind_ok)%bind_ok)%bind_ok. cbn [stmt_typed meta].
  apply mapM_ok in Hrs. induction Hrs as [|v row vs rs E _ IH]; constructor; [by eapply insert_row_sound|exact IH].
Qed.
Lemma update_sound r items w b : parse_update r items w = Ok b -> stmt_typed b.
Proof using All.
  unfold parse_update. intros (_ & _ & (h & Hh%handle_sound & (as_ & Ha & (w' & Hw & [= <-])%bind_ok)%bind_ok)%bind_ok)%bind_ok. cbn [stmt_typed].
  split; [by eapply where_sound; [apply (row_desc_ok _ Hh)|]|]. apply (assigns_sound _ items [] as_ Hh Ha). split; [apply NoDup_nil_2|apply Forall_nil_2].
Qed.
Lemma select_sound h w orders w' pb os on : Forall seed_attr (col_types (meta h)) -> bind_where_opt (build_row_desc (meta h)) w = Ok w' ->
  Forall (fun p => (exists t, proj_ok h p.1 t) /\ proj_src h p) pb -> bind_orders_opt orders pb (build_row_desc (meta h)) = Ok (os, on) -> 
  select_typed h pb.*1 w' os on.
Proof using All.
  intros Hs Hw Hpb Ho. split; [by eapply where_sound; [apply (row_desc_ok _ Hs)|]|]. destruct (pick_types h pb Hpb) as (pts & Hpts).
  destruct (orders_sound h Hs orders pb pts os on Hpb Hpts Ho) as (kts & Hkts). by exists pts, kts.
Qed.
Lemma analyze_sound schema s b : analyze schema s = Ok b -> stmt_typed b.
Proof using All.
  revert b. induction s; intros b; cbn [analyze]; try (by apply create_index_sound); try (by apply insert_sound); try (by apply update_sound); try done.
  - intros (_ & _ & (cs & Hcs & [= <-])%bind_ok)%bind_ok. by apply (columns_sound columns).
  - by intros (_ & _ & (h & _ & [= <-])%bind_ok)%bind_ok.
  - by intros [= <-].
  - by intros [= <-].
  - by intros (_ & _ & (h & _ & [= <-])%bind_ok)%bind_ok.
  - intros (_ & _ & (h & Hh%handle_sound & (w & Hw & [= <-])%bind_ok)%bind_ok)%bind_ok. by eapply where_sound; [apply (row_desc_ok _ Hh)|].
  - intros (h & Hh%handle_sound & (w & Hw & (pb & Hpb & (x & Ho & Hr)%bind_ok)%bind_ok)%bind_ok)%bind_ok. destruct x as [os on]. injection Hr as <-.
    by apply (select_sound h where_ orders w pb os on Hh Hw (projs_sound h Hh items pb Hpb) Ho).
  - intros (w & Hw & (pb & Hpb & (x & Ho & Hr)%bind_ok)%bind_ok)%bind_ok. destruct x as [os on]. injection Hr as <-.
    apply (select_sound no_table where_ orders w pb os on); [constructor|exact Hw| |exact Ho]. by apply (projs_no_from_sound no_table ltac:(constructor) items).
  - intros (b' & Hb & [= <-])%bind_ok. cbn [stmt_typed]. exact (IHs _ Hb).
  - destruct dir_bootstrap; [|done]. cbn [negb]. destruct (negb _); [done|]. destruct (from_chars_u64 _); [|done]. by intros [= <-].
Qed.
End analyzed.


(** SELECT b FROM t WHERE a = 2 AND b > 10 + 5 ORDER BY 1. *)
Definition sample_directory : Directory := {|
  dir_types := seed_catalog; dir_table r := if bool_decide (tr_table r = "t"%string) then Ok (meta Sample.table) else Raise TableNotFound; dir_bootstrap := false |}.
Lemma sample_directory_ok : @DirectoryOk sample_directory.
Proof.
  split; [exact seed_catalog_ok| |].
  - intros name row E. exact (rows_types _ _ _ _ E).
  - cbn. intros r m. case_bool_decide; [|done]. intros [= <-]. split; [|done]. constructor; [solve_seed|]. constructor; [solve_seed|constructor].
Qed.
Definition sample_select : SQLStatement := SelectStmt (mkQName "" "t") false [ExprItem (IdentifierExpr "b") ""]
  (Some (LogicExpr LAnd (CompareExpr CmpEq (IdentifierExpr "a") (IntExpr (str "2")))
    (CompareExpr CmpGt (IdentifierExpr "b") (BinaryOpExpr OpAdd (IntExpr (str "10")) (IntExpr (str "5"))))))
  [mkOrderItem (IntExpr (str "1")) false] None None.
Definition sample_handle : TableHandle := mkHandle (meta Sample.table) "public.t".
Definition sample_bound : BoundStmt := BoundSelect sample_handle [mkProj (Some (BoundColRef 1 kInt)) "b" 0] (Some Sample.pred) [mkOrder false 0 None] true.
