(* ===== verification/Explain.v ===== *)
(** EXPLAIN (src/executor/explain.cpp): a plan tree rendered as lines of text. *)
From S2P Require Import Prelude Types Ieee Text Cast Decimal Expr Typing Bind Key Plan Stmt Meta Analyze.

(** The name of a type, by its id: a look-up in db_type. *)
Class TypeNames := type_name : Z -> result string.

Definition const_text (v : Value) : bytes :=
  match box v with
  | BInt i => format_int i
  | BDouble d => format_float binary64 d
  | BFloat f => format_float binary32 f
  | BStr s => str "'" ++ s ++ str "'"
  | BBool b => bool_text b
  | BDec d => decimal_to_text d
  | BNull => str "NULL"
  end.
Definition col_type_text `{TypeNames} (t : TypeAttr) (length scale : Z) : result bytes :=
  name ← type_name (t_id t);
  Ok (if bool_decide (rep t = RepDec) && (length >? 0) && (scale >? 0) then str name ++ str "(" ++ format_int length ++ str "," ++ format_int scale ++ str ")"
      else if length >? 0 then str name ++ str "(" ++ format_int length ++ str ")" else str name).
(** Texts one after the other, with a separator between two. *)
Fixpoint joined (sep : bytes) (ts : list bytes) : bytes := match ts with [] => [] | [t] => t | t :: ts => t ++ sep ++ joined sep ts end.

Fixpoint bound_expr_to_string `{TypeNames} (names : list string) (e : BoundExpr) : result bytes :=
  let text := bound_expr_to_string names in
  match e with
  | BoundConst v => Ok (const_text v)
  | BoundColRef i _ => match names !! i with Some n => Ok (str n) | None => Fatal end
  | BoundArith op l r _ => l ← text l; r ← text r; Ok (str "(" ++ l ++ str " " ++ arith_char op ++ str " " ++ r ++ str ")")
  | BoundNeg x _ => x ← text x; Ok (str "(-" ++ x ++ str ")")
  | BoundCmp op l r => l ← text l; r ← text r; Ok (str "(" ++ l ++ str " " ++ cmp_to_string op ++ str " " ++ r ++ str ")")
  | BoundLogic op l r => l ← text l; r ← text r; Ok (str "(" ++ l ++ (match op with LAnd => str " AND " | LOr => str " OR " end) ++ r ++ str ")")
  | BoundNot x => x ← text x; Ok (str "(NOT " ++ x ++ str ")")
  | BoundIsNull x negate => x ← text x; Ok (str "(" ++ x ++ (if negate : bool then str " IS NOT NULL" else str " IS NULL") ++ str ")")
  | BoundFuncCall _ name _ args _ =>
      args ← (fix go l := match l with
                          | [] => Ok []
                          | a :: l => t ← bound_expr_to_string names a; ts ← go l; Ok (t :: ts)
                          end) args;
      Ok (str name ++ str "(" ++ joined (str ", ") args ++ str ")")
  | BoundCast x t length scale => x ← text x; t ← col_type_text t length scale; Ok (str "CAST(" ++ x ++ str " AS " ++ t ++ str ")")
  end.

Definition table_col_names (t : TableHandle) : list string := cname <$> cols (meta t).
Fixpoint output_names (node : PlanNode) : result (list string) :=
  match node with
  | SeqScanPlan t | FetchPlan t _ => Ok (table_col_names t)
  | DummyScanPlan => Ok []
  | FilterPlan child _ => output_names child
  | ProjectPlan _ projs => Ok (pc_name <$> projs)
  | SortPlan child _ _ => output_names child
  | _ => Raise Internal
  end.
Definition node_header `{TypeNames} (node : PlanNode) : result bytes :=
  match node with
  | SeqScanPlan t => Ok (str "Seq Scan on " ++ str (display t))
  | IndexScanPlan t index _ _ _ => Ok (str "Index Scan using " ++ str index ++ str " on " ++ str (display t))
  | FetchPlan t _ => Ok (str "Fetch on " ++ str (display t))
  | DummyScanPlan => Ok (str "Dummy Scan")
  | EmptyPlan t => Ok (if bool_decide (t = ""%string) then str "Empty Result" else str "Empty Result on " ++ str t)
  | FilterPlan child pred => names ← output_names child; p ← bound_expr_to_string names pred; Ok (str "Filter: " ++ p)
  | ProjectPlan _ _ => Ok (str "Project")
  | SortPlan _ _ _ => Ok (str "Sort")
  | InsertPlan t _ => Ok (str "Insert on " ++ str (display t))
  | DeletePlan t _ => Ok (str "Delete on " ++ str (display t))
  | UpdatePlan t _ _ => Ok (str "Update on " ++ str (display t))
  | CreateTablePlan t _ => Ok (str "Create Table " ++ str (table_ref_to_string t))
  | DropTablePlan t => Ok (str "Drop Table " ++ str (display t))
  | CreateSchemaPlan s => Ok (str "Create Schema " ++ str s)
  | DropSchemaPlan s => Ok (str "Drop Schema " ++ str s)
  | CreateIndexPlan t index i =>
      match cols (meta t) !! i with
      | Some c => Ok (str "Create Index " ++ str index ++ str " on " ++ str (display t) ++ str " (" ++ str (cname c) ++ str ")")
      | None => Fatal
      end
  | DropIndexPlan t index => Ok (str "Drop Index " ++ str index ++ str " on " ++ str (display t))
  | ExplainPlan _ => Ok (str "Explain")
  | SetPlan _ => Raise Internal
  end.
Definition cond_text (c : IndexCond) : bytes :=
  if ic_is_null c then str "(" ++ str (ic_col c) ++ (if ic_negate c then str " IS NOT NULL)" else str " IS NULL)")
  else str "(" ++ str (ic_col c) ++ str " " ++ cmp_to_string (ic_op c) ++ str " " ++ const_text (ic_value c) ++ str ")".
Definition order_text `{TypeNames} (names : list string) (on : bool) (o : BoundOrderItem) : result bytes :=
  t ← (if on then match names !! out_idx o with Some n => Ok (str n) | None => Fatal end
       else match o_expr o with Some e => bound_expr_to_string names e | None => Fatal end);
  Ok (t ++ if desc o then str " DESC" else []).
Definition assign_text `{TypeNames} (names : list string) (a : BoundUpdateItem) : result bytes :=
  match names !! ua_col_idx a with
  | Some n => t ← bound_expr_to_string names (ua_value a); Ok (str n ++ str " = " ++ t)
  | None => Fatal
  end.
Definition node_props `{TypeNames} (node : PlanNode) : result (list bytes) :=
  match node with
  | IndexScanPlan _ _ _ _ conds =>
      let out := joined (str " AND ") (cond_text <$> conds) in
      Ok [str "Index Cond: " ++ if (1 <? length conds)%nat then str "(" ++ out ++ str ")" else out]
  | ProjectPlan _ projs => Ok [str "Output: " ++ joined (str ", ") (str ∘ pc_name <$> projs)]
  | SortPlan child orders on =>
      names ← output_names child; keys ← mapM (order_text names on) orders;
      Ok [str "Sort Key: " ++ joined (str ", ") keys]
  | UpdatePlan t assigns _ => sets ← mapM (assign_text (table_col_names t)) assigns; Ok [str "Set: " ++ joined (str ", ") sets]
  | _ => Ok []
  end.
(** A node's line, its properties below it, and its child behind an arrow. *)
Fixpoint render_node `{TypeNames} (node : PlanNode) (prefix : bytes) (indent : nat) : result (list bytes) :=
  header ← node_header node;
  props ← node_props node;
  let pad := replicate indent 32 in
  let below child := render_node child (pad ++ str "->  ") (indent + 6) in
  rest ← match node with
         | FilterPlan child _ | FetchPlan _ child | ProjectPlan child _ | SortPlan child _ _ | DeletePlan _ (Some child) | UpdatePlan _ _ child
         | ExplainPlan child => below child
         | _ => Ok []
         end;
  Ok ((prefix ++ header) :: (app pad <$> props) ++ rest).
(** The lines of EXPLAIN: the explained plan, without the EXPLAIN node itself. *)
Definition run_explain `{TypeNames} (child : PlanNode) : result (list bytes) := render_node child [] 2.
