(* ===== verification/Catalog.v ===== *)
(** The catalog (src/catalog/catalog.cpp, catalog_ddl.cpp, catalog_dml.cpp, catalog_meta.cpp): tables, schemas and indexes
    as rows of the metadata tables, and the row operations that keep the indexes in step, over the engine. *)
From S2P Require Import Prelude Key Types Codec Page Wal Disk Recovery State Node Pool Tree Engine Typing Bind Plan Meta.

(** * State *)
(** One thread: the recursive lock of the calls is always free. *)
Record Catalog := mkCat {
  engine : Engine; next_file_id : Z; next_table_id : Z; next_schema_id : Z; bootstrap_mode : bool; bootstrap_table_id : Z;
  index_cols : list ColumnSpec; func_cols : list ColumnSpec }.
Definition set_engine (e : Engine) (c : Catalog) : Catalog :=
  mkCat e (next_file_id c) (next_table_id c) (next_schema_id c) (bootstrap_mode c) (bootstrap_table_id c) (index_cols c) (func_cols c).
Definition set_ids (f t s : Z) (c : Catalog) : Catalog :=
  mkCat (engine c) f t s (bootstrap_mode c) (bootstrap_table_id c) (index_cols c) (func_cols c).
Definition set_index_cols (cs : list ColumnSpec) (c : Catalog) : Catalog :=
  mkCat (engine c) (next_file_id c) (next_table_id c) (next_schema_id c) (bootstrap_mode c) (bootstrap_table_id c) cs (func_cols c).
Definition set_func_cols (cs : list ColumnSpec) (c : Catalog) : Catalog :=
  mkCat (engine c) (next_file_id c) (next_table_id c) (next_schema_id c) (bootstrap_mode c) (bootstrap_table_id c) (index_cols c) cs.
Definition set_bootstrap_table_id (v : Z) (c : Catalog) : Catalog :=
  mkCat (engine c) (next_file_id c) (next_table_id c) (next_schema_id c) (bootstrap_mode c) v (index_cols c) (func_cols c).
Definition on_engine {A} (m : ST Engine A) : ST Catalog A := fun c => let '(r, e) := m (engine c) in (r, set_engine e c).
Definition file_exists (fid : Z) : ST Catalog bool := gets (fun c => table_file_exists (disk (pool (engine c))) fid).
Definition catalog_new (e : Engine) (bootstrap : bool) : Catalog := mkCat e 0 0 0 bootstrap 0 [] [].

Record RowUpdate := mkUpdate { u_ref : RowRef; u_values : list Value }.

(** * Transactions *)
Definition begin_txn : ST Catalog unit := on_engine Engine.begin_txn.
Definition rollback_txn : ST Catalog unit := on_engine Engine.rollback_txn.
(** [catch (...) { handler; throw; }] *)
Definition rethrowing {S A} (handler : ST S unit) (m : ST S A) : ST S A := fun s =>
  match m s with (Raise c, s) => (_ ← handler; raise c) s | r => r end.
(** A commit that throws is rolled back and throws on; a log that has grown long is emptied by a checkpoint. *)
Definition commit_txn (wal_checkpoint_bytes : Z) : ST Catalog unit :=
  _ ← rethrowing (t ← gets (fun c => ctx (pool (engine c))); match t with Some _ => rollback_txn | None => mret tt end)
        (on_engine Engine.commit_txn);
  n ← gets (fun c => wal_bytes_since_reset (engine c));
  if n >=? wal_checkpoint_bytes then on_engine checkpoint else mret tt.
Definition catalog_close : ST Catalog unit := on_engine engine_close.

Section catalog.
(** [fuel] bounds the walks along the pages of a table. *)
Context (fuel : nat).

(** * Lookups *)
Definition meta_rows (tid : Z) (cs : list ColumnSpec) : ST Catalog (list (list Value)) := on_engine (read_rows fuel tid cs).
Definition all_types : ST Catalog (list TypeRow) := rows ← meta_rows kTypeMetaId type_meta_cols; lift (map_res parse_type_row rows).
Definition type_where (p : TypeRow -> bool) : ST Catalog (option TypeRow) :=
  rows ← meta_rows kTypeMetaId type_meta_cols;
  lift (first_res (fun row => t ← parse_type_row row; Ok (if p t then Some t else None)) rows).
Definition find_type (name : string) : ST Catalog TypeRow :=
  t ← type_where (type_named name); match t with Some t => mret t | None => raise InvalidType end.
Definition find_type_by_id (id : Z) : ST Catalog TypeRow :=
  t ← type_where (fun t => t_id (tr_attr t) =? id); match t with Some t => mret t | None => raise Internal end.
Definition require_type (name : string) : ST Catalog TypeAttr :=
  t ← type_where (type_named name); match t with Some t => mret (tr_attr t) | None => raise Internal end.
Definition collect_columns (tid : Z) : ST Catalog (list ColumnSpec) :=
  types ← all_types;
  match types with
  | [] => crash
  | _ => rows ← meta_rows kColumnMetaId column_meta_cols; lift (columns_of types tid rows)
  end.
Definition validate_func_rows (cs : list ColumnSpec) : ST Catalog unit :=
  types ← all_types;
  rows ← meta_rows kFuncMetaId cs;
  funcs ← lift (map_res (parse_func_row types) rows);
  lift (require (funcs_distinct funcs)).
Definition funcs (name : string) : ST Catalog (list FuncRow) :=
  types ← all_types;
  cs ← gets func_cols;
  rows ← meta_rows kFuncMetaId cs;
  lift (filter_res (fun row => n ← row_str row 1; if bool_decide (n = name) then f ← parse_func_row types row; Ok (Some f) else Ok None) rows).

(** The rows of a scan, one at a time; the scanner goes away however the loop ends. *)
Fixpoint scan_loop {A} (n : nat) (f : Row -> result (option A)) (sc : Scanner) : ST Engine (list A) :=
  match n with
  | O => crash
  | S n =>
      '(r, sc) ← scanner_next fuel sc;
      match r with
      | None => _ ← scanner_close sc; mret []
      | Some row =>
          a ← unwinding (_ ← scanner_close sc; mret tt) (lift (f row));
          xs ← scan_loop n f sc;
          mret (match a with Some x => x :: xs | None => xs end)
      end
  end.
Definition scan_where {A} (fid : Z) (cs : list ColumnSpec) (f : Row -> result (option A)) : ST Engine (list A) :=
  sc ← scanner_open fid cs; scan_loop fuel f sc.
Definition table_indexes (tid : Z) : ST Catalog (list IndexEntry) :=
  cs ← gets index_cols; on_engine (scan_where kIndexMetaId cs (index_of tid)).
Definition has_index_name (tid : Z) (name : string) : ST Catalog bool :=
  cs ← gets index_cols;
  rows ← meta_rows kIndexMetaId cs;
  r ← lift (first_res (fun row => t ← row_int row 0;
        if t =? to_i64 tid then n ← row_str row 1; Ok (if bool_decide (n = name) then Some tt else None) else Ok None) rows);
  mret (bool_decide (is_Some r)).
Definition find_index (tid : Z) (name : string) : ST Catalog (option IndexEntry) :=
  ents ← table_indexes tid; mret (List.find (fun x => bool_decide (ix_name x = name)) ents).

Definition schema_of (name : string) (row : list Value) : result (option Z) :=
  n ← row_str row 1; if bool_decide (n = name) then i ← row_int row 0; Ok (Some i) else Ok None.
Definition resolve_schema_id (t : TableRef) : ST Catalog Z :=
  if bool_decide (tr_schema t = ""%string) then raise Internal
  else
    rows ← meta_rows kSchemaMetaId schema_meta_cols;
    r ← lift (first_res (schema_of (tr_schema t)) rows);
    match r with Some i => mret (wrap 64 i) | None => raise SchemaNotFound end.
Definition table_of (sid : Z) (name : string) (row : list Value) : result (option (Z * Z)) :=
  s ← row_int row 3;
  if s =? to_i64 sid then
    n ← row_str row 1;
    if bool_decide (n = name) then tid ← row_int row 0; fid ← row_int row 2; Ok (Some (wrap 64 tid, wrap 64 fid)) else Ok None
  else Ok None.
Definition find_table_meta (t : TableRef) : ST Catalog TableMeta :=
  sid ← resolve_schema_id t;
  rows ← meta_rows kTableMetaId table_meta_cols;
  r ← lift (first_res (table_of sid (tr_table t)) rows);
  match r with
  | None => raise TableNotFound
  | Some (tid, fid) => cs ← collect_columns tid; mret (mkMeta tid fid (tr_table t) cs)
  end.
Definition table_meta : TableRef -> ST Catalog TableMeta := find_table_meta.
Definition any_row (rows : list (list Value)) (f : list Value -> result bool) : result bool :=
  r ← first_res (fun row => b ← f row; Ok (if b : bool then Some tt else None)) rows; Ok (bool_decide (is_Some r)).
Definition named_in (sid : Z) (name : string) (row : list Value) : result bool :=
  s ← row_int row 3; if s =? to_i64 sid then n ← row_str row 1; Ok (bool_decide (n = name)) else Ok false.
Definition has_table_name (sid : Z) (name : string) : ST Catalog bool :=
  rows ← meta_rows kTableMetaId table_meta_cols; lift (any_row rows (named_in sid name)).
Definition has_table_id (tid : Z) : ST Catalog bool :=
  rows ← meta_rows kTableMetaId table_meta_cols;
  lift (any_row rows (fun row => t ← row_int row 0; Ok (t =? to_i64 tid))).
Definition has_schema_name (name : string) : ST Catalog bool :=
  rows ← meta_rows kSchemaMetaId schema_meta_cols;
  lift (any_row rows (fun row => n ← row_str row 1; Ok (bool_decide (n = name)))).

(** * Tables and schemas *)
Definition insert_row_in (fid : Z) (cs : list ColumnSpec) (vs : list Value) : ST Catalog (Z * RowRef) := on_engine (insert_row fid cs vs).
Definition alloc_file_id : ST Catalog Z :=
  c ← gets (fun c => c); _ ← modify (set_ids (wrap 64 (next_file_id c + 1)) (next_table_id c) (next_schema_id c)); mret (next_file_id c).
Definition alloc_table_id : ST Catalog Z :=
  c ← gets (fun c => c); _ ← modify (set_ids (next_file_id c) (wrap 64 (next_table_id c + 1)) (next_schema_id c)); mret (next_table_id c).
Definition alloc_schema_id : ST Catalog Z :=
  c ← gets (fun c => c); _ ← modify (set_ids (next_file_id c) (next_table_id c) (wrap 64 (next_schema_id c + 1))); mret (next_schema_id c).
Definition name_too_long (s : string) : bool := zlen (str s) >? kMetaNameLen.
Definition write_meta_rows (sid tid fid : Z) (name : string) (cs : list ColumnSpec) : ST Catalog unit :=
  _ ← insert_row_in kTableMetaId table_meta_cols (table_meta_row tid fid sid name);
  forM (column_meta_rows tid cs) (fun row => _ ← insert_row_in kColumnMetaId column_meta_cols row; mret tt).
(** Column names: none too long, none twice, in the order of the loop. *)
Fixpoint columns_valid (cs : list ColumnSpec) : bool :=
  match cs with
  | [] => true
  | c :: cs => negb (name_too_long (cname c)) && forallb (fun d => negb (bool_decide (cname c = cname d))) cs && columns_valid cs
  end.
Definition create_table_impl (sid : Z) (t : TableRef) (cs : list ColumnSpec) (tid : Z) : ST Catalog Z :=
  if bool_decide (tr_table t = ""%string) then raise InvalidDdl
  else if name_too_long (tr_table t) then raise InvalidDdl
  else
    taken ← has_table_name sid (tr_table t);
    if taken : bool then raise TableExists
    else if bool_decide (cs = []) then raise InvalidDdl
    else if negb (columns_valid cs) then raise InvalidDdl
    else
      fid ← alloc_file_id;
      _ ← on_engine (init_table_file fid);
      _ ← write_meta_rows sid tid fid (tr_table t) cs;
      mret tid.
Definition create_table_bootstrap (sid : Z) (t : TableRef) (cs : list ColumnSpec) : ST Catalog Z :=
  id ← gets bootstrap_table_id;
  if id =? 0 then raise InvalidDdl
  else
    taken ← has_table_id id;
    if taken : bool then raise TableExists
    else
      tid ← create_table_impl sid t cs id;
      _ ← (if tid =? kIndexMetaId then modify (set_index_cols cs) else mret tt);
      _ ← (if tid =? kFuncMetaId then modify (set_func_cols cs) else mret tt);
      mret tid.
Definition create_table (t : TableRef) (cs : list ColumnSpec) : ST Catalog Z :=
  sid ← resolve_schema_id t;
  boot ← gets bootstrap_mode;
  if boot : bool then create_table_bootstrap sid t cs else tid ← alloc_table_id; create_table_impl sid t cs tid.
Definition create_schema (name : string) : ST Catalog unit :=
  if bool_decide (name = ""%string) then raise InvalidDdl
  else if name_too_long name then raise InvalidDdl
  else
    taken ← has_schema_name name;
    if taken : bool then raise SchemaExists
    else sid ← alloc_schema_id; _ ← insert_row_in kSchemaMetaId schema_meta_cols (schema_meta_row sid name); mret tt.
Definition bootstrap_meta_tables : ST Catalog unit :=
  _ ← on_engine (init_table_file kTypeMetaId);
  _ ← on_engine (init_table_file kTableMetaId);
  _ ← on_engine (init_table_file kColumnMetaId);
  _ ← on_engine (init_table_file kSchemaMetaId);
  _ ← write_meta_rows kSystemSchemaId kTypeMetaId kTypeMetaId kTypeMetaName type_meta_cols;
  _ ← write_meta_rows kSystemSchemaId kTableMetaId kTableMetaId kTableMetaName table_meta_cols;
  _ ← write_meta_rows kSystemSchemaId kColumnMetaId kColumnMetaId kColumnMetaName column_meta_cols;
  _ ← write_meta_rows kSystemSchemaId kSchemaMetaId kSchemaMetaId kSchemaMetaName schema_meta_cols;
  _ ← forM type_meta_rows (fun row => _ ← insert_row_in kTypeMetaId type_meta_cols row; mret tt);
  _ ← insert_row_in kSchemaMetaId schema_meta_cols (schema_meta_row kSystemSchemaId kSystemSchemaName);
  mret tt.
Definition delete_meta_rows (tid : Z) : ST Catalog unit :=
  forM [(kTableMetaId, table_meta_cols); (kColumnMetaId, column_meta_cols)] (fun m =>
    refs ← on_engine (scan_where m.1 m.2 (fun row => t ← row_int (rvalues row) 0; Ok (if t =? to_i64 tid then Some (rref row) else None)));
    forM refs (fun r => _ ← on_engine (delete_row r); mret tt)).
Definition drop_table (t : TableHandle) : ST Catalog unit :=
  if table_id (meta t) <=? kReservedMaxTableId then raise ProtectedTable
  else
    ents ← table_indexes (table_id (meta t));
    _ ← forM ents (fun x => _ ← on_engine (delete_row (ix_row_ref x)); on_engine (remove_index_file (ix_file_id x)));
    _ ← delete_meta_rows (table_id (meta t));
    on_engine (remove_table_file (tfile_id (meta t))).
(** Down to the schema's row; the scanner stays open behind it. *)
Fixpoint schema_row (n : nat) (name : string) (sc : Scanner) : ST Engine (option (Z * RowRef) * Scanner) :=
  match n with
  | O => crash
  | S n =>
      '(r, sc) ← scanner_next fuel sc;
      match r with
      | None => mret (None, sc)
      | Some row =>
          m ← unwinding (_ ← scanner_close sc; mret tt)
                (lift (s ← row_str (rvalues row) 1; if bool_decide (s = name) then i ← row_int (rvalues row) 0; Ok (Some i) else Ok None));
          match m with Some i => mret (Some (i, rref row), sc) | None => schema_row n name sc end
      end
  end.
Definition drop_schema (name : string) : ST Catalog unit :=
  sc ← on_engine (scanner_open kSchemaMetaId schema_meta_cols);
  '(r, sc) ← on_engine (schema_row fuel name sc);
  let close := _ ← on_engine (scanner_close sc); mret tt in
  _ ← unwinding close
    match r with
    | None => raise SchemaNotFound
    | Some (sid, ref) =>
        rows ← meta_rows kTableMetaId table_meta_cols;
        used ← lift (any_row rows (fun row => s ← row_int row 3; Ok (s =? sid)));
        if used : bool then raise SchemaNotEmpty else _ ← on_engine (delete_row ref); mret tt
    end;
  close.

(** * Indexes *)
Definition create_index (t : TableHandle) (index : string) (ordinal : nat) : ST Catalog unit :=
  let m := meta t in
  if table_id m <=? kReservedMaxTableId then raise ProtectedTable
  else if bool_decide (index = ""%string) then raise InvalidDdl
  else if name_too_long index then raise InvalidDdl
  else
    taken ← has_index_name (table_id m) index;
    if taken : bool then raise IndexExists
    else if (length (cols m) <=? ordinal)%nat then raise Internal
    else
      fid ← alloc_file_id;
      _ ← on_engine (init_index_file fid);
      _ ← on_engine (build_index fuel (tfile_id m) (cols m) ordinal fid);
      cs ← gets index_cols;
      _ ← insert_row_in kIndexMetaId cs (index_meta_row (table_id m) index ordinal fid);
      mret tt.
Definition drop_index (t : TableHandle) (index : string) : ST Catalog unit :=
  let m := meta t in
  if table_id m <=? kReservedMaxTableId then raise ProtectedTable
  else
    ent ← find_index (table_id m) index;
    match ent with
    | None => raise IndexNotFound
    | Some x => _ ← on_engine (delete_row (ix_row_ref x)); on_engine (remove_index_file (ix_file_id x))
    end.

(** * Rows *)
(** A row's entry goes into every index of its table. *)
Definition index_row (m : TableMeta) (vs : list Value) (ref : RowRef) (x : IndexEntry) : ST Catalog unit :=
  match vs !! col_ordinal x, cols m !! col_ordinal x with
  | Some v, Some c => key ← lift (encode_key (ctype c) v); on_engine (index_insert (ix_file_id x) key ref)
  | _, _ => crash
  end.
Definition insert (m : TableMeta) (vs : list Value) : ST Catalog Z :=
  '(id, ref) ← insert_row_in (tfile_id m) (cols m) vs;
  ents ← table_indexes (table_id m);
  _ ← forM ents (index_row m vs ref);
  mret id.
Definition delete_by_ref (ref : RowRef) : ST Catalog Z :=
  if bool_decide (rpage ref = INVALID_PAGE) then raise Internal
  else
    there ← file_exists (file_id (rpage ref));
    if there : bool then on_engine (delete_row ref) else raise TableNotFound.
Definition update_row (m : TableMeta) (ents : list IndexEntry) (u : RowUpdate) : ST Catalog unit :=
  if negb (file_id (rpage (u_ref u)) =? tfile_id m) then raise Internal
  else
    n ← on_engine (delete_row (u_ref u));
    if n =? 0 then raise Internal
    else
      '(_, ref) ← insert_row_in (tfile_id m) (cols m) (u_values u);
      forM ents (index_row m (u_values u) ref).
Definition update_rows (m : TableMeta) (us : list RowUpdate) : ST Catalog Z :=
  ents ← table_indexes (table_id m);
  _ ← forM us (update_row m ents);
  mret (zlen us).
Definition delete_all (m : TableMeta) : ST Catalog Z := on_engine (delete_all_rows fuel (tfile_id m)).
Definition catalog_row_count (m : TableMeta) : ST Catalog Z := on_engine (row_count fuel (tfile_id m)).
Definition catalog_read_row (ref : RowRef) (cs : list ColumnSpec) : ST Catalog (option (list Value)) := on_engine (read_row ref cs).
Definition catalog_scan (m : TableMeta) : ST Catalog Scanner := on_engine (scanner_open (tfile_id m) (cols m)).
Definition catalog_index_scan (fid : Z) (lo hi : option ScanBound) : ST Catalog (list BTreeEntry) := on_engine (index_scan fuel fid lo hi).
Definition catalog_indexes (m : TableMeta) : ST Catalog (list IndexEntry) := table_indexes (table_id m).

(** * Creating and opening a database *)
Definition create (wal_checkpoint_bytes : Z) : ST Catalog unit :=
  there ← file_exists kTableMetaId;
  if there : bool then raise CatalogExists
  else _ ← begin_txn; _ ← bootstrap_meta_tables; _ ← commit_txn wal_checkpoint_bytes; on_engine checkpoint.
Definition max_of (i : nat) (rows : list (list Value)) : result Z :=
  ns ← map_res (fun row => row_int row i) rows; Ok (foldl Z.max 0 ns).
Definition load_index_meta : ST Catalog Z :=
  there ← file_exists kIndexMetaId;
  boot ← gets bootstrap_mode;
  if negb there then (if boot : bool then mret 0 else crash)
  else
    cs ← collect_columns kIndexMetaId;
    _ ← modify (set_index_cols cs);
    rows ← meta_rows kIndexMetaId cs;
    lift (max_of 3 rows).
Definition load_func_meta : ST Catalog unit :=
  there ← file_exists kFuncMetaId;
  boot ← gets bootstrap_mode;
  if negb there then (if boot : bool then mret tt else crash)
  else
    cs ← collect_columns kFuncMetaId;
    _ ← modify (set_func_cols cs);
    validate_func_rows cs.
Definition version_row (row : list Value) : result bool :=
  n ← row_str row 1; if bool_decide (n = kVersionMetaName) then s ← row_int row 3; Ok (s =? kSystemSchemaId) else Ok false.
Definition catalog_open : ST Catalog unit :=
  boot ← gets bootstrap_mode;
  there ← gets (fun c => let d := disk (pool (engine c)) in
    table_file_exists d kTableMetaId && (negb (bootstrap_mode c) || (table_file_exists d kColumnMetaId && table_file_exists d kSchemaMetaId && table_file_exists d kTypeMetaId)));
  if negb there then raise CatalogMissing
  else
    _ ← on_engine engine_open;
    rows ← meta_rows kTableMetaId table_meta_cols;
    max_fid ← lift (max_of 2 rows);
    max_tid ← lift (max_of 0 rows);
    versions ← lift (map_res version_row rows);
    if negb boot && negb (existsb id versions) then raise CatalogMissing
    else
      ix ← load_index_meta;
      _ ← load_func_meta;
      _ ← modify (fun c => set_ids (wrap 64 (wrap 64 (Z.max max_fid ix) + 1)) (Z.max (max_tid + 1) kFirstUserTableId) (next_schema_id c) c);
      rows ← meta_rows kSchemaMetaId schema_meta_cols;
      max_sid ← lift (max_of 0 rows);
      modify (fun c => set_ids (next_file_id c) (next_table_id c) (wrap 64 (wrap 64 max_sid + 1)) c).
End catalog.
