(* ===== verification/Ddl.v ===== *)
(** Creating a table and finding it again: the catalog over the metadata tables of a database. *)
From stdpp Require Import sorting.
From S2P Require Import Prelude Key Types Codec Page Wal Disk Recovery State Node Pool Diff PoolSpec Txn Session Tree Engine Typing Bind Plan Query Table Rows.
From S2P Require Import Scanner Serve Meta Tables Catalog.

#[local] Opaque seal init_page.

(** * Metadata rows fit *)
Lemma to_i64_range z : INT64_MIN <= to_i64 z <= INT64_MAX.
Proof. unfold to_i64, INT64_MIN, INT64_MAX. pose proof (wrap_bound 64 z ltac:(lia)). destruct (Z.ltb_spec (wrap 64 z) (2 ^ 63)); lia. Qed.
Lemma wrap_to_i64 z : wrap 64 (to_i64 z) = wrap 64 z.
Proof.
  unfold to_i64. destruct (_ <? _).
  - unfold wrap. apply Z.mod_mod. lia.
  - unfold wrap. rewrite Zminus_mod, Z_mod_same_full, Z.sub_0_r, !Z.mod_mod by lia. done.
Qed.
Lemma big_storable name z : storable (big_col name) (int_val kBigint (to_i64 z)) = true.
Proof. done. Qed.
Lemma int_storable name z : INT32_MIN <= z <= INT32_MAX -> storable (int_col name) (int_val kInt z) = true.
Proof. intros H%in_i32_spec. exact H. Qed.
Lemma name_storable name req s : name_too_long s = false -> storable (name_col name req) (text_val s) = true.
Proof.
  intros H. assert (zlen (str s) <= 64) by (unfold name_too_long, kMetaNameLen in H; destruct (Z.gtb_spec (zlen (str s)) 64); [done|lia]).
  change (storable _ _) with ((zlen (str s) <=? 65535) && (false || (zlen (str s) <=? 64))).
  destruct (Z.leb_spec (zlen (str s)) 65535), (Z.leb_spec (zlen (str s)) 64); done || lia.
Qed.
Lemma seed_ok t : In t (attr <$> kTypeSeeds) -> seed_attr t.
Proof. apply list_elem_of_In. Qed.
Lemma big_col_ok name : col_ok (big_col name).
Proof. split; [apply seed_ok; cbn; auto|done]. Qed.
Lemma int_col_ok name : col_ok (int_col name).
Proof. split; [apply seed_ok; cbn; auto|done]. Qed.
Lemma name_col_ok name req : col_ok (name_col name req).
Proof. split; [apply seed_ok; cbn; tauto|done]. Qed.
#[local] Hint Resolve big_col_ok int_col_ok name_col_ok : core.
Lemma text_wf s : wf_box (box (text_val s)).
Proof. apply str_bytes. Qed.
Lemma flag_bound b : 0 <= flag b <= 1.
Proof. by destruct b. Qed.
Lemma name_bound s : name_too_long s = false -> 0 <= zlen (str s) <= 64.
Proof. unfold name_too_long, kMetaNameLen. intros H. pose proof (zlen_nonneg (str s)). destruct (Z.gtb_spec (zlen (str s)) 64); [done|lia]. Qed.
Lemma name_field name req s : zlen (field_bytes (name_col name req) (box (text_val s))) = 2 + zlen (str s).
Proof. change (field_bytes _ _) with (le_bytes 2 (zlen (str s)) ++ str s). by rewrite zlen_app, zlen_le_bytes. Qed.
Lemma big_field name z : zlen (field_bytes (big_col name) (box (int_val kBigint z))) = 8.
Proof. apply zlen_le_bytes. Qed.
Lemma int_field name z : zlen (field_bytes (int_col name) (box (int_val kInt z))) = 4.
Proof. apply zlen_le_bytes. Qed.
Lemma table_row_fits tid fid sid name : name_too_long name = false -> fits table_meta_cols (table_meta_row tid fid sid name).
Proof.
  intros Hn. pose proof (name_bound name Hn) as Hb. apply row_fits; [repeat first [apply Forall_nil_2 | apply Forall_cons_2]; auto| |done| |].
  - unfold table_meta_row. repeat constructor; try apply to_i64_range. apply text_wf.
  - unfold all_storable, table_meta_cols, table_meta_row. cbn [zip_with forallb]. rewrite !big_storable, name_storable by done. done.
  - unfold table_meta_cols, table_meta_row. rewrite !fields_cons, !zlen_app, !big_field, name_field.
    change (zlen (fields [] [])) with 0. change (bitmap_len _) with 1. unfold MAX_RECORD_LEN, PAGE_SIZE, PAGE_HEADER_SIZE, SLOT_SIZE. lia.
Qed.
Lemma column_row_fits tid i c : declared c -> name_too_long (cname c) = false -> Z.of_nat i <= INT32_MAX -> fits column_meta_cols (column_meta_row tid i c).
Proof.
  intros Hc Hn Hi. pose proof (name_bound _ Hn) as Hb. destruct (declared_type c Hc) as (s & Hs & Ht & _ & H1 & _ & H3 & _ & H5). unfold UINT16_MAX, UINT8_MAX in *.
  assert (1 <= t_id (ctype c) <= 8) as Hid by (rewrite Ht; cbn in Hs; destruct Hs as [<-|[<-|[<-|[<-|[<-|[<-|[<-|[<-|[]]]]]]]]]; cbn; lia).
  pose proof (flag_bound (not_null c)) as Hf. assert (forall z, 0 <= z <= INT32_MAX -> wf_box (BInt z)) as Hw by (unfold wf_box, INT32_MAX, INT64_MIN, INT64_MAX; lia).
  assert (INT32_MIN <= 0 /\ 65535 <= INT32_MAX) as [M1 M2] by done. apply row_fits; [repeat first [apply Forall_nil_2 | apply Forall_cons_2]; auto| |done| |].
  - unfold column_meta_row. constructor; [apply to_i64_range|]. constructor; [apply text_wf|]. repeat (constructor; [cbn [box int_val]; apply Hw; lia|]). constructor.
  - unfold all_storable, column_meta_cols, column_meta_row. cbn [zip_with forallb]. rewrite big_storable, name_storable, !int_storable by (done || lia). done.
  - unfold column_meta_cols, column_meta_row. rewrite !fields_cons, !zlen_app, big_field, !int_field, name_field.
    change (zlen (fields [] [])) with 0. change (bitmap_len _) with 1. unfold MAX_RECORD_LEN, PAGE_SIZE, PAGE_HEADER_SIZE, SLOT_SIZE. lia.
Qed.

(** * Reading the metadata *)
Lemma on_engine_run {A} (m : ST Engine A) c r e' : m (engine c) = (r, e') -> on_engine m c = (r, set_engine e' c).
Proof. unfold on_engine. by intros ->. Qed.
(** Only pages come into the pool. *)
Definition quiet (bound : Z -> Z) (c c' : Catalog) : Prop := exists s, c' = set_engine (set_pool s (engine c)) c /\ calm bound (engine c) s.
Lemma quiet_trans bound c1 c2 c3 : quiet bound c1 c2 -> quiet bound c2 c3 -> quiet bound c1 c3.
Proof. intros (s & -> & H1) (s' & -> & H2). exists s'. split; [done|by eapply calm_trans]. Qed.
Lemma quiet_refl bound c n : db_env (engine c) n -> quiet bound c c.
Proof. intros H. exists (pool (engine c)). split; [by destruct c as [[] ? ? ? ? ? ? ?]|by eapply calm_refl]. Qed.
Lemma lift_run {S A B} (a : A) (k : A -> ST S B) (r : result A) s : r = Ok a -> (lift r ≫= k) s = k a s.
Proof. by intros ->. Qed.

(** The metadata tables, by their ids. *)
Definition meta_cols (i : Z) : list ColumnSpec :=
  if i =? kTableMetaId then table_meta_cols else if i =? kColumnMetaId then column_meta_cols else if i =? kSchemaMetaId then schema_meta_cols else type_meta_cols.
Lemma meta_cols_ok i : Forall col_ok (meta_cols i).
Proof. unfold meta_cols. destruct (_ =? _); [|destruct (_ =? _); [|destruct (_ =? _)]]; repeat first [apply Forall_nil_2 | apply Forall_cons_2]; auto. Qed.
(** [R'] is [R] with [rows] at the end of table [i]. *)
Definition pushed (R R' : Z -> list (list Value)) (i : Z) (rows : list (list Value)) : Prop := R' i = R i ++ rows /\ forall j, j <> i -> R' j = R j.
Definition grows (bound bound' : Z -> Z) (f k : Z) : Prop := bound' f = bound f + k /\ forall g, g <> f -> bound' g = bound g.
Lemma bump_grows bound f k : grows bound (bump bound f k) f k.
Proof. split; [apply bump_here|]. intros g Hg. by apply bump_other. Qed.
Lemma grows_trans b1 b2 b3 f k m : grows b1 b2 f k -> grows b2 b3 f m -> grows b1 b3 f (k + m).
Proof. intros [H1 H2] [H3 H4]. split; [lia|]. intros g Hg. rewrite H4 by done. by apply H2. Qed.
Lemma grows_le b b' f k g : grows b b' f k -> 0 <= k -> b g <= b' g.
Proof. intros [H1 H2] Hk. destruct (decide (g = f)) as [->|Hg]; [lia|]. rewrite H2 by done. lia. Qed.
Lemma db_step_grows (P : Z -> Prop) b b' e1 e2 e3 f k : db_step P b e1 e2 -> grows b b' f k -> 0 <= k -> db_step (eq f) b' e2 e3 -> db_step (fun g => P g \/ g = f) b' e1 e3.
Proof.
  intros H1 Hg Hk H2. eapply db_step_trans; [eapply db_step_weaken; [exact H1|by left|]|eapply db_step_weaken; [exact H2|intros g <-; by right|done]].
  intros g. by eapply grows_le.
Qed.

Section meta.
Context (fuel : nat) (n : Z) (Hn : 2 <= n).
(** The metadata tables hold the rows [R]. *)
Record meta_ok (bound : Z -> Z) (e : Engine) (R : Z -> list (list Value)) : Prop := {
  mt_env : db_env e n;
  mt_live i : 1 <= i <= 4 -> i ∉ dropped e;
  mt_fuel i : 1 <= i <= 4 -> bound i <= Z.of_nat fuel;
  mt_rows i : 1 <= i <= 4 -> exists ps, holding bound e i (meta_cols i) ps (R i) }.
Lemma meta_frame (P : Z -> Prop) bound bound' e e' R : db_step P bound' e e' -> (forall i, 1 <= i <= 4 -> ~ P i /\ bound' i = bound i) ->
  meta_ok bound e R -> meta_ok bound' e' R.
Proof using.
  intros Hs Hi [M1 M2 M3 M4]. destruct (db_step_env _ _ _ _ _ M1 Hs) as [D1 D2].
  split; [done|by rewrite D2|intros i Hb; rewrite (proj2 (Hi i Hb)); by apply M3|]. intros i Hb. destruct (M4 i Hb) as [ps H]. exists ps. destruct (Hi i Hb) as [H1 H2].
  by eapply (db_step_holding P).
Qed.
Lemma calm_meta bound e s R : meta_ok bound e R -> calm bound e s -> meta_ok bound (set_pool s e) R.
Proof using. intros Hm Hc. eapply meta_frame; [by apply calm_db_step| |exact Hm]. intros i _. split; [by intros []|reflexivity]. Qed.
Lemma quiet_meta bound c c' R : meta_ok bound (engine c) R -> quiet bound c c' -> meta_ok bound (engine c') R.
Proof using. intros Hm (s & -> & Hc). by apply calm_meta. Qed.

(** ** Lookups *)
Section lookups.
Context (bound : Z -> Z) (c : Catalog) (R : Z -> list (list Value)) (Hm : meta_ok bound (engine c) R).
Lemma meta_read i : 1 <= i <= 4 -> exists c', meta_rows fuel i (meta_cols i) c = (Ok (R i), c') /\ quiet bound c c'.
Proof using Hm Hn.
  intros Hi. destruct (mt_rows _ _ _ Hm i Hi) as [ps Hh].
  destruct (held_read bound (engine c) n i (meta_cols i) ps (R i) (mt_env _ _ _ Hm) Hn Hh fuel (mt_fuel _ _ _ Hm i Hi)) as (s & E & Hc).
  eexists. split; [apply on_engine_run, E|]. by exists s.
Qed.
Lemma types_read : R kTypeMetaId = inserted type_meta_cols <$> type_meta_rows -> exists c', all_types fuel c = (Ok seed_types, c') /\ quiet bound c c'.
Proof using Hm Hn.
  intros Ht. destruct (meta_read kTypeMetaId ltac:(done)) as (c' & E & Hq). exists c'. split; [|done]. rewrite Ht in E. unfold all_types. run E.
  exact (f_equal (fun r => (r, c')) seed_types_parse).
Qed.
Lemma has_name_run sid name b : any_row (R kTableMetaId) (named_in sid name) = Ok b -> exists c', has_table_name fuel sid name c = (Ok b, c') /\ quiet bound c c'.
Proof using Hm Hn.
  intros Hb. destruct (meta_read kTableMetaId ltac:(done)) as (c' & E & Hq). exists c'. split; [|done]. unfold has_table_name. run E. unfold lift. by rewrite Hb.
Qed.
Lemma resolve_run t i : tr_schema t <> ""%string -> first_res (schema_of (tr_schema t)) (R kSchemaMetaId) = Ok (Some i) ->
  exists c', resolve_schema_id fuel t c = (Ok (wrap 64 i), c') /\ quiet bound c c'.
Proof using Hm Hn.
  intros Ht Hi. destruct (meta_read kSchemaMetaId ltac:(done)) as (c' & E & Hq). exists c'. split; [|done]. unfold resolve_schema_id. rewrite bool_decide_false by done. run E.
  by rewrite (lift_run (Some i) _ _ _ Hi).
Qed.
End lookups.
Lemma collect_run bound c R tid cs : meta_ok bound (engine c) R -> R kTypeMetaId = inserted type_meta_cols <$> type_meta_rows ->
  columns_of seed_types tid (R kColumnMetaId) = Ok cs -> exists c', collect_columns fuel tid c = (Ok cs, c') /\ quiet bound c c'.
Proof using Hn.
  intros Hm Ht Hc. destruct (types_read bound c R Hm Ht) as (c1 & E1 & Q1). pose proof (quiet_meta _ _ _ _ Hm Q1) as Hm1.
  destruct (meta_read bound c1 R Hm1 kColumnMetaId ltac:(done)) as (c2 & E2 & Q2). exists c2. split; [|by eapply quiet_trans].
  unfold collect_columns. run E1. destruct seed_types as [|ty tys] eqn:Et; [discriminate Et|]. run E2. unfold lift. by rewrite Hc.
Qed.
(** A table whose rows are there is found. *)
Definition listed (R : Z -> list (list Value)) (t : TableRef) (m : TableMeta) : Prop := exists i,
  tr_schema t <> ""%string /\ first_res (schema_of (tr_schema t)) (R kSchemaMetaId) = Ok (Some i) /\
  first_res (table_of (wrap 64 i) (tr_table t)) (R kTableMetaId) = Ok (Some (table_id m, tfile_id m)) /\
  columns_of seed_types (table_id m) (R kColumnMetaId) = Ok (cols m) /\ tname m = tr_table t /\
  R kTypeMetaId = inserted type_meta_cols <$> type_meta_rows.
Lemma find_run bound c R t m : meta_ok bound (engine c) R -> listed R t m -> exists c', table_meta fuel t c = (Ok m, c') /\ quiet bound c c'.
Proof using Hn.
  intros Hm (i & Ht & Hi & Htid & Hc & Hnm & Hty). destruct (resolve_run bound c R Hm t i Ht Hi) as (c1 & E1 & Q1). pose proof (quiet_meta _ _ _ _ Hm Q1) as Hm1.
  destruct (meta_read bound c1 R Hm1 kTableMetaId ltac:(done)) as (c2 & E2 & Q2). pose proof (quiet_meta _ _ _ _ Hm1 Q2) as Hm2.
  destruct (collect_run bound c2 R _ (cols m) Hm2 Hty Hc) as (c3 & E3 & Q3). exists c3. split; [|by eapply quiet_trans; [exact Q1|eapply quiet_trans]].
  unfold table_meta, find_table_meta. run E1. run E2. rewrite (lift_run _ _ _ _ Htid). run E3. destruct m. cbn in Hnm. by subst.
Qed.

(** ** Writing *)
Lemma insert_meta bound c R i vs : meta_ok bound (engine c) R -> 1 <= i <= 4 -> fits (meta_cols i) vs -> bound i + 2 <= Z.of_nat fuel -> bound i + 2 < 2 ^ 32 ->
  exists r e' R', insert_row_in i (meta_cols i) vs c = (Ok r, set_engine e' c) /\
    meta_ok (bump bound i 2) e' R' /\ pushed R R' i [inserted (meta_cols i) vs] /\ db_step (eq i) (bump bound i 2) (engine c) e'.
Proof using Hn.
  intros [M1 M2 M3 M4] Hi Hv Hf Hb. destruct (M4 i Hi) as [ps Hh].
  destruct (held_insert bound (engine c) n i (meta_cols i) ps (R i) M1 Hn Hh vs (M2 i Hi) (meta_cols_ok i) Hv Hb) as (id & ref & rec & e' & ps' & I1 & I2 & I3 & I4 & I5 & _).
  assert (db_step (eq i) (bump bound i 2) (engine c) e') as Hs by (eapply row_db_step; [exact I4|rewrite bump_here; lia]).
  exists (id, ref), e', (fun j => if j =? i then R j ++ [inserted (meta_cols i) vs] else R j). split; [by apply on_engine_run|]. split; [|split; [|done]].
  - split; [done|by rewrite I3| |].
    + intros j Hj. destruct (decide (j = i)) as [->|Hne]; [rewrite bump_here; lia|]. rewrite bump_other by done. by apply M3.
    + intros j Hj. destruct (Z.eqb_spec j i) as [->|Hne]; [by exists ps'|]. destruct (M4 j Hj) as [qs Hq]. exists qs.
      eapply (db_step_holding (eq i)); [exact Hs|by intros <-|by apply bump_other|done].
  - split; [by rewrite Z.eqb_refl|]. intros j Hj. by destruct (Z.eqb_spec j i).
Qed.
Lemma insert_metas i rows : 1 <= i <= 4 -> forall bound c R, meta_ok bound (engine c) R -> Forall (fits (meta_cols i)) rows ->
  bound i + 2 * zlen rows <= Z.of_nat fuel -> bound i + 2 * zlen rows < 2 ^ 32 -> exists e' bound' R',
  forM rows (fun row => _ ← insert_row_in i (meta_cols i) row; mret tt) c = (Ok tt, set_engine e' c) /\
  meta_ok bound' e' R' /\ pushed R R' i (inserted (meta_cols i) <$> rows) /\ grows bound bound' i (2 * zlen rows) /\ db_step (eq i) bound' (engine c) e'.
Proof using Hn.
  intros Hi; induction rows as [|vs rows IH]; intros bound c R Hm Hv Hf Hb.
  - exists (engine c), bound, R. split; [by destruct c|]. split; [done|]. split; [by split; [rewrite app_nil_r|]|]. split; [split; [change (zlen []) with 0; lia|done]|].
    eapply db_step_refl, Hm.
  - rewrite zlen_cons in *. pose proof (zlen_nonneg rows). apply Forall_cons_1 in Hv as [Hv Hvs].
    destruct (insert_meta bound c R i vs Hm Hi Hv ltac:(lia) ltac:(lia)) as (r & e1 & R1 & I1 & I2 & [I3 I4] & I5).
    destruct (IH (bump bound i 2) (set_engine e1 c) R1 I2 Hvs) as (e' & bound' & R' & J1 & J2 & [J3 J4] & J5 & J6); [rewrite bump_here; lia..|].
    exists e', bound', R'. cbn [forM]. rewrite run_assoc. run I1. rewrite run_ret, J1. split; [by destruct c|]. split; [done|].
    split; [split; [by rewrite J3, I3, <- app_assoc|intros j Hj; rewrite J4 by done; by apply I4]|].
    split; [replace (2 * (1 + zlen rows)) with (2 + 2 * zlen rows) by lia; eapply grows_trans; [apply bump_grows|done]|].
    eapply db_step_trans; [eapply db_step_weaken; [exact I5|done|]|exact J6]. intros g. eapply grows_le; [exact J5|lia].
Qed.

Lemma any_row_false f T : any_row T f = Ok false <-> Forall (fun row => f row = Ok false) T.
Proof.
  unfold any_row. split.
  - induction T as [|row T IH]; [constructor|]. cbn [first_res]. destruct (f row) as [[]| |] eqn:E; cbn; intros H; [done| |done..]. constructor; [done|by apply IH].
  - induction 1 as [|row T H _ IH]; [done|]. cbn [first_res]. by rewrite H.
Qed.
Lemma first_res_none {A B} (f : A -> result (option B)) l1 l2 : Forall (fun x => f x = Ok None) l1 -> first_res f (l1 ++ l2) = first_res f l2.
Proof. induction 1 as [|x l1 H _ IH]; [done|]. cbn. by rewrite H. Qed.
Lemma named_absent sid name T : any_row T (named_in sid name) = Ok false -> Forall (fun row => table_of sid name row = Ok None) T.
Proof.
  intros H%any_row_false. eapply Forall_impl; [|exact H]. intros row. unfold named_in, table_of. destruct (row_int row 3) as [s| |]; cbn; [|done..].
  destruct (s =? to_i64 sid); cbn; [|done]. destruct (row_str row 1) as [m| |]; cbn; [|done..]. by destruct (bool_decide (m = name)).
Qed.
Lemma table_row_read tid fid sid name : let row := inserted table_meta_cols (table_meta_row tid fid sid name) in
  table_of sid name row = Ok (Some (wrap 64 tid, wrap 64 fid)) /\ named_in sid name row = Ok true.
Proof.
  intros row. unfold table_of, named_in. assert (row_str row 1 = Ok name) as -> by (change (row_str row 1) with (Ok (name_of (str name))); by rewrite name_of_str).
  change (row_int row 3) with (Ok (to_i64 sid)). change (row_int row 0) with (Ok (to_i64 tid)). change (row_int row 2) with (Ok (to_i64 fid)).
  cbn [mbind result_bind]. rewrite Z.eqb_refl, bool_decide_true by done. cbn [mbind result_bind]. by rewrite !wrap_to_i64.
Qed.
Lemma named_there sid name T tid fid : any_row T (named_in sid name) = Ok false ->
  any_row (T ++ [inserted table_meta_cols (table_meta_row tid fid sid name)]) (named_in sid name) = Ok true.
Proof.
  intros H%any_row_false. unfold any_row. rewrite first_res_none.
  - cbn [first_res]. by destruct (table_row_read tid fid sid name) as [_ ->].
  - eapply Forall_impl; [|exact H]. by intros row ->.
Qed.
Lemma column_rows_fit tid cs : Forall declared cs -> columns_valid cs = true -> zlen cs <= INT32_MAX -> Forall (fits column_meta_cols) (column_meta_rows tid cs).
Proof.
  intros Hd Hv Hl. apply list.Forall_lookup. intros i row Hi. unfold column_meta_rows in Hi. rewrite list_lookup_imap in Hi.
  destruct (cs !! i) as [c|] eqn:Ec; [|done]. injection Hi as <-. apply column_row_fits.
  - exact (proj1 (list.Forall_lookup _ _) Hd i c Ec).
  - clear Hd Hl. revert i Ec. induction cs as [|d cs IH]; intros i Ec; [done|]. cbn in Hv. apply andb_true_iff in Hv as [[Hv1 _]%andb_true_iff Hv2].
    destruct i as [|i]; [injection Ec as ->; by destruct (name_too_long (cname c))|by eapply IH].
  - apply lookup_lt_Some in Ec. unfold zlen in Hl. lia.
Qed.

(** Columns and a name that may be written. *)
Record writable_cols (name : string) (cs : list ColumnSpec) : Prop := { wc_name : name_too_long name = false; wc_valid : columns_valid cs = true; wc_decl : Forall declared cs }.
Definition table_rows_of (sid tid fid : Z) (name : string) : list (list Value) := [inserted table_meta_cols (table_meta_row tid fid sid name)].
Definition column_rows_of (tid : Z) (cs : list ColumnSpec) : list (list Value) := inserted column_meta_cols <$> column_meta_rows tid cs.
Lemma write_meta_run bound c R sid tid fid name cs : meta_ok bound (engine c) R -> writable_cols name cs ->
  bound 1 + 2 <= Z.of_nat fuel -> bound 1 + 2 < 2 ^ 32 -> bound 2 + 2 * zlen cs <= Z.of_nat fuel -> bound 2 + 2 * zlen cs < 2 ^ 32 ->
  exists e' bound' R', write_meta_rows sid tid fid name cs c = (Ok tt, set_engine e' c) /\ meta_ok bound' e' R' /\
    R' 1 = R 1 ++ table_rows_of sid tid fid name /\ R' 2 = R 2 ++ column_rows_of tid cs /\ (forall j, j <> 1 -> j <> 2 -> R' j = R j) /\
    bound' 1 = bound 1 + 2 /\ bound' 2 = bound 2 + 2 * zlen cs /\ (forall g, g <> 1 -> g <> 2 -> bound' g = bound g) /\
    db_step (fun g => g = 1 \/ g = 2) bound' (engine c) e'.
Proof using Hn.
  intros Hm [W1 W2 W3] B1 B1' B2 B2'. pose proof (zlen_nonneg cs) as Hz.
  destruct (insert_meta bound c R 1 (table_meta_row tid fid sid name) Hm ltac:(lia) (table_row_fits _ _ _ _ W1) B1 B1') as (r & e1 & R1 & I1 & I2 & [I3 I4] & I5).
  assert (zlen (column_meta_rows tid cs) = zlen cs) as Hl by (unfold zlen, column_meta_rows; by rewrite length_imap).
  destruct (insert_metas 2 (column_meta_rows tid cs) ltac:(lia) (bump bound 1 2) (set_engine e1 c) R1 I2) as (e2 & b2 & R2 & J1 & J2 & [J3 J4] & J5 & J6);
    [apply column_rows_fit; [done|done|]|rewrite bump_other by lia; lia..|].
  { destruct (mt_rows _ _ _ Hm 2 ltac:(lia)) as [p [H _ _ _]]. unfold INT32_MAX. lia. }
  exists e2, b2, R2. unfold write_meta_rows, kTableMetaId, kColumnMetaId. change table_meta_cols with (meta_cols 1). change column_meta_cols with (meta_cols 2). run I1. rewrite J1. split; [by destruct c|]. split; [done|].
  rewrite Hl in J5. pose proof J5 as [G1 G2]. split; [rewrite J4 by lia; exact I3|]. split; [rewrite J3, I4 by lia; done|]. split; [intros j H1 H2; rewrite J4 by done; by apply I4|].
  split; [rewrite G2 by lia; by rewrite bump_here|]. split; [rewrite G1; by rewrite bump_other by lia|]. split; [intros g H1 H2; rewrite G2 by done; by apply bump_other|].
  eapply db_step_weaken; [eapply db_step_grows; [exact I5|exact J5|lia|exact J6]| |done]. intros g [<-| ->]; [by left|by right].
Qed.
(** A file no page of which is anywhere, and which no table uses. *)
Record fresh_file (bound : Z -> Z) (e : Engine) (fid : Z) : Prop := {
  ff_within : within (pool e) fid 0;
  ff_bound : bound fid = 0;
  ff_tail : tail_pages e !! fid = None;
  ff_live : fid ∉ dropped e }.
Lemma fresh_step (P : Z -> Prop) bound bound' e e' fid : db_step P bound' e e' -> ~ P fid -> bound' fid = bound fid -> dropped e' = dropped e -> fresh_file bound e fid -> fresh_file bound' e' fid.
Proof.
  intros Hs Hp Hb Hd [F1 F2 F3 F4]. split; [| congruence|by rewrite (ds_tails _ _ _ _ Hs)|by rewrite Hd].
  rewrite <- F2. eapply (db_step_within P bound bound'); [done|lia|lia|by rewrite F2].
Qed.
Lemma init_table_run bound c fid cs : db_env (engine c) n -> fresh_file bound (engine c) fid ->
  exists e', on_engine (init_table_file fid) c = (Ok tt, set_engine e' c) /\ db_env e' n /\ dropped e' = dropped (engine c) /\
    holding (bump bound fid 1) e' fid cs [] [] /\ db_step (eq fid) (bump bound fid 1) (engine c) e'.
Proof.
  intros Hd [F1 F2 F3 F4]. pose proof Hd as [D1 D2 [x Dx] D4].
  assert (row_env (engine c) fid 0) as Hr. { split; [done|done| |lia|done]. exists x. split; [done|]. unfold dropped in F4. by rewrite Dx in F4. }
  destruct (init_table_ok (engine c) fid Hr F3) as (e' & E & Hok & Hst). exists e'. split; [by apply on_engine_run|].
  assert (db_step (eq fid) (bump bound fid 1) (engine c) e') as Hs by (eapply row_db_step; [exact Hst|rewrite bump_here; lia]).
  destruct (db_step_env _ _ _ _ _ Hd Hs) as [E1 E2]. split; [done|]. split; [done|]. split; [|done].
  pose proof (row_env_step fid 0 1 _ _ ltac:(lia) Hr Hst) as Hr'. split; rewrite ?bump_here, ?F2; [lia|apply Hr'|done|].
  unfold rows_in, table_rows. constructor.
Qed.


(** * Creating a table *)
(** What may be created: a name that is free in its schema, and columns that are declared well. *)
Record creatable (sid : Z) (t : TableRef) (cs : list ColumnSpec) (T : list (list Value)) : Prop := {
  cr_name : tr_table t <> ""%string;
  cr_free : any_row T (named_in sid (tr_table t)) = Ok false;
  cr_some : cs <> [];
  cr_cols : writable_cols (tr_table t) cs }.
Definition with_file_id (c : Catalog) : Catalog := set_ids (wrap 64 (next_file_id c + 1)) (next_table_id c) (next_schema_id c) c.
Definition room (bound : Z -> Z) (cs : list ColumnSpec) : Prop :=
  bound 1 + 2 <= Z.of_nat fuel /\ bound 1 + 2 < 2 ^ 32 /\ bound 2 + 2 * zlen cs <= Z.of_nat fuel /\ bound 2 + 2 * zlen cs < 2 ^ 32.
Lemma create_impl_run bound c R sid t cs tid : meta_ok bound (engine c) R -> creatable sid t cs (R 1) ->
  fresh_file bound (engine c) (next_file_id c) -> 4 < next_file_id c -> room bound cs ->
  exists e' bound' R', create_table_impl fuel sid t cs tid c = (Ok tid, set_engine e' (with_file_id c)) /\ meta_ok bound' e' R' /\
    R' 1 = R 1 ++ table_rows_of sid tid (next_file_id c) (tr_table t) /\ R' 2 = R 2 ++ column_rows_of tid cs /\ (forall j, j <> 1 -> j <> 2 -> R' j = R j) /\
    holding bound' e' (next_file_id c) cs [] [] /\ (forall g, g <> next_file_id c -> g <> 1 -> g <> 2 -> bound' g = bound g) /\
    bound' (next_file_id c) = 1 /\ db_step (fun g => g = next_file_id c \/ g = 1 \/ g = 2) bound' (engine c) e'.
Proof using Hn.
  intros Hm [C1 C2 C3 C4] Hff Hid (B1 & B1' & B2 & B2'). set (fid := next_file_id c) in *. pose proof (zlen_nonneg cs) as Hz.
  unfold create_table_impl. rewrite bool_decide_false by done. rewrite (wc_name _ _ C4).
  destruct (has_name_run bound c R Hm sid (tr_table t) false C2) as (c1 & E1 & (s & -> & Hc)). run E1. rewrite bool_decide_false by done. rewrite (wc_valid _ _ C4). cbn [negb].
  pose proof (calm_meta _ _ _ _ Hm Hc) as Hm1. set (e1 := set_pool s (engine c)) in *. destruct (calm_env _ _ _ _ (mt_env _ _ _ Hm) Hc) as [_ Hdr].
  unfold alloc_file_id. rewrite run_assoc, run_gets, run_assoc, run_modify, run_ret. cbn [next_file_id set_engine]. fold fid.
  change (set_ids _ _ _ (set_engine e1 c)) with (set_engine e1 (with_file_id c)). set (c2 := set_engine e1 (with_file_id c)).
  assert (fresh_file bound (engine c2) fid) as Hff1 by (apply (fresh_step _ bound bound (engine c) e1 fid (calm_db_step _ _ _ Hc)); [by intros []|done|done|done]).
  destruct (init_table_run bound c2 fid cs (mt_env _ _ _ Hm1) Hff1) as (e3 & I1 & I2 & I3 & I4 & I5). run I1.
  change (engine c2) with e1 in *. change (set_engine e3 c2) with (set_engine e3 (with_file_id c)). set (b3 := bump bound fid 1) in *.
  assert (meta_ok b3 e3 R) as Hm3 by (eapply (meta_frame (eq fid)); [exact I5| |exact Hm1]; intros i Hi; split; [lia|apply bump_other; lia]).
  destruct (write_meta_run b3 (set_engine e3 (with_file_id c)) R sid tid fid (tr_table t) cs Hm3 C4) as (e5 & b5 & R' & W1 & W2 & W3 & W4 & W5 & W6 & W7 & W8 & W9);
    [unfold b3; rewrite bump_other by lia; lia..|]. run W1. change (engine (set_engine e3 (with_file_id c))) with e3 in W9. exists e5, b5, R'.
  split; [done|]. split; [done|]. split; [done|]. split; [done|]. split; [done|].
  unfold b3 in W6, W7, W8. rewrite bump_other in W6, W7 by lia. split; [|split; [intros g H1 H2 H3; rewrite W8 by done; by apply bump_other|split; [rewrite W8 by lia; fold fid; rewrite bump_here, (ff_bound _ _ _ Hff); lia|]]].
  - eapply (db_step_holding _ b3 b5 e3 e5); [exact W9|cbv beta; lia|apply W8; lia|exact I4].
  - assert (forall g, b3 g <= b5 g) as Hle.
    { intros g. unfold b3. destruct (decide (g = 1)) as [->|H1]; [rewrite bump_other by lia; lia|]. destruct (decide (g = 2)) as [->|H2]; [rewrite bump_other by lia; lia|]. rewrite W8 by done. lia. }
    assert (forall g, bound g <= b5 g) as Hle0 by (intros g; etrans; [eapply (grows_le bound b3); [apply bump_grows|lia]|apply Hle]).
    eapply db_step_trans; [eapply db_step_weaken; [exact (calm_db_step _ _ _ Hc)|by intros ? []|exact Hle0]|].
    eapply db_step_trans; [eapply db_step_weaken; [exact I5|intros g <-; by left|exact Hle]|eapply db_step_weaken; [exact W9|intros g Hg; by right|done]].
Qed.
Lemma created_listed R R' t i tid fid cs : tr_schema t <> ""%string -> first_res (schema_of (tr_schema t)) (R 3) = Ok (Some i) -> creatable (wrap 64 i) t cs (R 1) ->
  0 <= tid < 2 ^ 64 -> 0 <= fid < 2 ^ 64 -> Forall (fresh_row tid) (R 2) -> R 4 = inserted type_meta_cols <$> type_meta_rows ->
  R' 1 = R 1 ++ table_rows_of (wrap 64 i) tid fid (tr_table t) -> R' 2 = R 2 ++ column_rows_of tid cs -> (forall j, j <> 1 -> j <> 2 -> R' j = R j) ->
  listed R' t (mkMeta tid fid (tr_table t) cs).
Proof using.
  intros Hs Hi [C1 C2 C3 C4] Ht Hf Hold Hty E1 E2 E3. exists i. unfold kSchemaMetaId, kTableMetaId, kColumnMetaId, kTypeMetaId. rewrite E1, E2, !E3 by lia. split; [done|]. split; [done|].
  cbn [table_id tfile_id cols tname]. split; [|split; [|done]].
  - rewrite first_res_none by (by apply named_absent). unfold table_rows_of. cbn [first_res]. destruct (table_row_read tid fid (wrap 64 i) (tr_table t)) as [-> _]. by rewrite !wrap_small by lia.
  - apply columns_written; [done|apply C4|done].
Qed.

(** * The bootstrap *)
Definition all_fresh (bound : Z -> Z) (e : Engine) (l : list Z) : Prop := forall i, i ∈ l -> fresh_file bound e i.
Lemma init_metas l : NoDup l -> forall bound c, db_env (engine c) n -> all_fresh bound (engine c) l ->
  exists e' bound', forM l (fun i => on_engine (init_table_file i)) c = (Ok tt, set_engine e' c) /\ db_env e' n /\ dropped e' = dropped (engine c) /\
    (forall i, i ∈ l -> bound' i = 1 /\ holding bound' e' i (meta_cols i) [] []) /\ (forall g, g ∉ l -> bound' g = bound g) /\ db_step (fun g => g ∈ l) bound' (engine c) e'.
Proof using Hn.
  induction 1 as [|i l Hi Hl IH]; intros bound c Hd Hf.
  - exists (engine c), bound. split; [by destruct c|]. split; [done|]. split; [done|]. split; [by intros i ?%elem_of_nil|]. split; [done|]. by eapply db_step_refl.
  - assert (fresh_file bound (engine c) i) as Hfi by (apply Hf; by left). destruct (init_table_run bound c i (meta_cols i) Hd Hfi) as (e1 & I1 & I2 & I3 & I4 & I5).
    destruct (IH (bump bound i 1) (set_engine e1 c) I2) as (e' & b' & J1 & J2 & J3 & J4 & J5 & J6).
    { intros j Hj. assert (j <> i) as Hne by (intros ->; done). apply (fresh_step (eq i) bound (bump bound i 1) (engine c) e1 j I5); [by intros ->|by apply bump_other|done|]. apply Hf. by right. }
    exists e', b'. cbn [forM]. run I1. rewrite J1. split; [by destruct c|]. split; [done|]. split; [by rewrite J3|].
    assert (forall g, bump bound i 1 g <= b' g) as Hle.
    { intros g. destruct (decide (g ∈ l)) as [Hg|Hg]; [|by rewrite J5]. destruct (J4 g Hg) as [-> _]. rewrite bump_other by (intros ->; done). destruct (Hf g) as [_ -> _ _]; [by right|lia]. }
    split; [|split].
    + intros j [->|Hj]%elem_of_cons; [|by apply J4]. destruct Hfi as [_ F2 _ _]. split; [rewrite J5 by done; rewrite bump_here; lia|].
      eapply (db_step_holding _ (bump bound i 1) b' e1 e'); [exact J6|done|by apply J5|exact I4].
    + intros g [Hg1 Hg2]%not_elem_of_cons. rewrite J5 by done. by apply bump_other.
    + eapply db_step_trans; [eapply db_step_weaken; [exact I5|intros g <-; by left|exact Hle]|eapply db_step_weaken; [exact J6|intros g Hg; by right|done]].
Qed.
(** The rows the bootstrap writes. *)
Definition boot_tables : list (Z * string * list ColumnSpec) :=
  [(kTypeMetaId, kTypeMetaName, type_meta_cols); (kTableMetaId, kTableMetaName, table_meta_cols);
   (kColumnMetaId, kColumnMetaName, column_meta_cols); (kSchemaMetaId, kSchemaMetaName, schema_meta_cols)].
Definition boot_rows (i : Z) : list (list Value) :=
  if i =? 1 then concat ((fun x => table_rows_of kSystemSchemaId x.1.1 x.1.1 x.1.2) <$> boot_tables)
  else if i =? 2 then concat ((fun x => column_rows_of x.1.1 x.2) <$> boot_tables)
  else if i =? 3 then [inserted schema_meta_cols (schema_meta_row kSystemSchemaId kSystemSchemaName)]
  else inserted type_meta_cols <$> type_meta_rows.
Lemma write_metas l : Forall (fun x => writable_cols x.1.2 x.2) l -> forall bound c R, meta_ok bound (engine c) R ->
  bound 1 + 2 * zlen l <= Z.of_nat fuel -> bound 1 + 2 * zlen l < 2 ^ 32 ->
  bound 2 + 2 * zlen (concat l.*2) <= Z.of_nat fuel -> bound 2 + 2 * zlen (concat l.*2) < 2 ^ 32 ->
  exists e' bound' R', forM l (fun x => write_meta_rows kSystemSchemaId x.1.1 x.1.1 x.1.2 x.2) c = (Ok tt, set_engine e' c) /\ meta_ok bound' e' R' /\
    R' 1 = R 1 ++ concat ((fun x => table_rows_of kSystemSchemaId x.1.1 x.1.1 x.1.2) <$> l) /\ R' 2 = R 2 ++ concat ((fun x => column_rows_of x.1.1 x.2) <$> l) /\
    (forall j, j <> 1 -> j <> 2 -> R' j = R j) /\ (forall g, g <> 1 -> g <> 2 -> bound' g = bound g) /\
    bound' 1 = bound 1 + 2 * zlen l /\ bound' 2 = bound 2 + 2 * zlen (concat l.*2) /\
    db_step (fun g => g = 1 \/ g = 2) bound' (engine c) e'.
Proof using Hn.
  induction 1 as [|[[i name] cs] l Hw _ IH]; intros bound c R Hm B1 B1' B2 B2'.
  - exists (engine c), bound, R. split; [by destruct c|]. split; [done|]. cbn [fmap list_fmap concat]. rewrite !app_nil_r. change (@zlen (Z * string * list ColumnSpec) []) with 0.
    change (@zlen ColumnSpec []) with 0. do 4 (split; [done|]). do 2 (split; [lia|]). eapply db_step_refl, Hm.
  - rewrite zlen_cons in *. cbn [fmap list_fmap concat snd] in *. rewrite zlen_app in *. pose proof (zlen_nonneg l). pose proof (zlen_nonneg (concat l.*2)). pose proof (zlen_nonneg cs).
    destruct (write_meta_run bound c R kSystemSchemaId i i name cs Hm Hw) as (e1 & b1 & R1 & W1 & W2 & W3 & W4 & W5 & W6 & W7 & W8 & W9); [lia..|].
    destruct (IH b1 (set_engine e1 c) R1 W2) as (e' & b' & R' & J1 & J2 & J3 & J4 & J5 & J6 & J7 & J8 & J9); [lia..|].
    exists e', b', R'. cbn [forM fst snd]. run W1. rewrite J1. split; [by destruct c|]. split; [done|]. split; [by rewrite J3, W3, <- app_assoc|]. split; [by rewrite J4, W4, <- app_assoc|].
    split; [intros j N1 N2; rewrite J5 by done; by apply W5|]. split; [intros g N1 N2; rewrite J6 by done; by apply W8|]. split; [lia|]. split; [lia|].
    eapply db_step_trans; [eapply db_step_weaken; [exact W9|done|]|exact J9].
    intros g. destruct (decide (g = 1)) as [->|N1]; [lia|]. destruct (decide (g = 2)) as [->|N2]; [lia|]. by rewrite J6.
Qed.
Lemma declared_by s c : In s kTypeSeeds -> ctype c = attr s -> ((0 <=? clength c) && (clength c <=? len_max s) && (len_allowed s || (clength c =? 0)) && (cscale c =? 0)) = true -> declared c.
Proof using.
  intros Hs Ht H. apply andb_true_iff in H as [[[H1 H2]%andb_true_iff H3]%andb_true_iff H4]. exists s. unfold UINT8_MAX.
  assert (0 <= clength c) by lia. split; [done|]. split; [done|]. split; [lia|]. split; [intros E; rewrite E in H3; cbn in H3; lia|]. split; [lia|]. destruct (scale_allowed s); lia.
Qed.
Lemma meta_declared name : declared (big_col name) /\ declared (int_col name) /\ (forall req, declared (name_col name req)).
Proof using.
  split; [|split; [|intros req]].
  - apply (declared_by (mkSeed kBigint "bigint" None false 0 0 false)); [cbn; auto|done|done].
  - apply (declared_by (mkSeed kInt "int" None false 0 0 false)); [cbn; auto|done|done].
  - apply (declared_by (mkSeed kVarChar "varchar" None true 0 65535 false)); [cbn; auto|done|done].
Qed.
Lemma boot_writable : Forall (fun x => writable_cols x.1.2 x.2) boot_tables.
Proof using.
  repeat constructor; try (by vm_compute); cbn [snd]; repeat first [apply Forall_nil_2 | apply Forall_cons_2]; apply meta_declared.
Qed.
Lemma type_rows_fit : Forall (fits type_meta_cols) type_meta_rows.
Proof using.
  unfold type_meta_rows, kTypeSeeds. cbn [fmap list_fmap]. repeat apply Forall_cons_2; try apply Forall_nil_2;
    (split; [repeat apply Forall_cons_2; try apply Forall_nil_2; try apply text_wf; vm_compute; intuition discriminate|eexists; split; [vm_compute; reflexivity|vm_compute; discriminate]]).
Qed.
Lemma schema_row_fits sid name : name_too_long name = false -> fits schema_meta_cols (schema_meta_row sid name).
Proof using.
  intros Hs. pose proof (name_bound name Hs) as Hb. apply row_fits; [repeat first [apply Forall_nil_2 | apply Forall_cons_2]; auto| |done| |].
  - unfold schema_meta_row. constructor; [apply to_i64_range|]. constructor; [apply text_wf|constructor].
  - unfold all_storable, schema_meta_cols, schema_meta_row. cbn [zip_with forallb]. by rewrite big_storable, name_storable by done.
  - unfold schema_meta_cols, schema_meta_row. rewrite !fields_cons, !zlen_app, big_field, name_field.
    change (zlen (fields [] [])) with 0. change (bitmap_len _) with 1. unfold MAX_RECORD_LEN, PAGE_SIZE, PAGE_HEADER_SIZE, SLOT_SIZE. lia.
Qed.
Lemma bind_ext {S0 A B} (m : ST S0 A) (k k' : A -> ST S0 B) s : (forall a s', k a s' = k' a s') -> (m ≫= k) s = (m ≫= k') s.
Proof using. intros H. rewrite !run_match. destruct (m s) as [[a| |] s']; [apply H|done..]. Qed.
(** The code, grouped: four files, their rows in db_table and db_column, the types, the schema. *)
Lemma bootstrap_grouped c : bootstrap_meta_tables c =
  (_ ← forM [kTypeMetaId; kTableMetaId; kColumnMetaId; kSchemaMetaId] (fun i => on_engine (init_table_file i));
   _ ← forM boot_tables (fun x => write_meta_rows kSystemSchemaId x.1.1 x.1.1 x.1.2 x.2);
   _ ← forM type_meta_rows (fun row => _ ← insert_row_in kTypeMetaId type_meta_cols row; mret tt);
   _ ← insert_row_in kSchemaMetaId schema_meta_cols (schema_meta_row kSystemSchemaId kSystemSchemaName); mret tt) c.
Proof using.
  unfold bootstrap_meta_tables, boot_tables. cbn [forM fst snd]. repeat (repeat first [rewrite run_ret | rewrite run_assoc]; first [reflexivity | apply bind_ext; intros [] ?]).
Qed.
Definition boot_ready (bound : Z -> Z) (e : Engine) : Prop := db_env e n /\ all_fresh bound e [kTypeMetaId; kTableMetaId; kColumnMetaId; kSchemaMetaId] /\ 60 <= Z.of_nat fuel.
Lemma boot_init bound c : boot_ready bound (engine c) ->
  exists e' bound', forM [kTypeMetaId; kTableMetaId; kColumnMetaId; kSchemaMetaId] (fun i => on_engine (init_table_file i)) c = (Ok tt, set_engine e' c) /\
    meta_ok bound' e' (fun _ => []) /\ (forall i, 1 <= i <= 4 -> bound' i = 1) /\ (forall g, 4 < g -> bound' g = bound g) /\ db_step (fun g => 1 <= g <= 4) bound' (engine c) e'.
Proof using Hn.
  intros (Hd & Hf & H60). destruct (init_metas [4; 1; 2; 3]) with (bound := bound) (c := c) as (e' & b' & I1 & I2 & I3 & I4 & I5 & I6); [|done|done|].
  { repeat constructor; rewrite ?elem_of_cons, ?elem_of_nil; lia. }
  assert (forall i, i ∈ [4; 1; 2; 3] <-> 1 <= i <= 4) as Hin by (intros i; rewrite !elem_of_cons, elem_of_nil; lia).
  exists e', b'. split; [done|]. split; [split; [done| | |]|split; [|split]].
  - intros i Hi. rewrite I3. by apply (Hf i), Hin.
  - intros i Hi. destruct (I4 i) as [-> _]; [by apply Hin|lia].
  - intros i Hi. exists []. by apply I4, Hin.
  - intros i Hi. by apply I4, Hin.
  - intros g Hg. apply I5. rewrite Hin. lia.
  - eapply db_step_weaken; [exact I6|intros g; apply Hin|done].
Qed.
(** The database the bootstrap leaves. *)
Definition booted (R : Z -> list (list Value)) : Prop := forall i, 1 <= i <= 4 -> R i = boot_rows i.
Lemma bootstrap_run bound c : boot_ready bound (engine c) -> exists e' bound' R,
  bootstrap_meta_tables c = (Ok tt, set_engine e' c) /\ meta_ok bound' e' R /\ booted R /\ (forall g, 4 < g -> bound' g = bound g) /\
  (bound' 1 = 9 /\ bound' 2 = 51) /\ db_step (fun g => 1 <= g <= 4) bound' (engine c) e'.
Proof using Hn.
  intros Hb. rewrite bootstrap_grouped. destruct (boot_init bound c Hb) as (e1 & b1 & I1 & I2 & I3 & I4 & I5). destruct Hb as (_ & _ & H60). run I1.
  assert (zlen boot_tables = 4 /\ zlen (concat boot_tables.*2) = 25 /\ zlen type_meta_rows = 8) as (L1 & L2 & L3) by done.
  destruct (write_metas boot_tables boot_writable b1 (set_engine e1 c) (fun _ => []) I2) as (e2 & b2 & R2 & J1 & J2 & J3 & J4 & J5 & J6 & J7 & J8 & J9); rewrite ?L1, ?L2, ?I3 in * by lia; [lia..|].
  run J1. change (set_engine e2 (set_engine e1 c)) with (set_engine e2 c). change (engine (set_engine e1 c)) with e1 in J9.
  destruct (insert_metas 4 type_meta_rows ltac:(lia) b2 (set_engine e2 c) R2 J2 type_rows_fit) as (e3 & b3 & R3 & K1 & K2 & [K3 K4] & K5 & K6); rewrite ?L3, ?J6, ?I3 in * by lia; [lia..|].
  pose proof K5 as [B1 B2]. change (forM type_meta_rows (fun row => _ ← insert_row_in kTypeMetaId type_meta_cols row; mret tt)) with
    (forM type_meta_rows (fun row => _ ← insert_row_in 4 (meta_cols 4) row; mret tt)). run K1. change (engine (set_engine e2 c)) with e2 in K6.
  change (set_engine e3 (set_engine e2 c)) with (set_engine e3 c).
  destruct (insert_meta b3 (set_engine e3 c) R3 3 (schema_meta_row kSystemSchemaId kSystemSchemaName) K2 ltac:(lia) (schema_row_fits kSystemSchemaId kSystemSchemaName eq_refl : fits (meta_cols 3) _)) as (r & e4 & R4 & M1 & M2 & [M3 M4] & M5);
    rewrite ?B2, ?J6, ?I3 by lia; [lia..|]. change (engine (set_engine e3 c)) with e3 in M5.
  run M1. exists e4, (bump b3 3 2), R4. rewrite !(bump_other b3) by lia. rewrite !B2, J7, J8 by lia.
  split; [done|]. split; [done|]. split; [|split; [|split; [done|]]].
  - intros i Hi. assert (i = 1 \/ i = 2 \/ i = 3 \/ i = 4) as [->|[->|[->| ->]]] by lia.
    + rewrite M4, K4, J3 by lia. done.
    + rewrite M4, K4, J4 by lia. done.
    + rewrite M3, K4, J5 by lia. done.
    + rewrite M4, K3, J5 by lia. done.
  - intros g Hg. rewrite bump_other, B2, J6 by lia. by apply I4.
  - assert (forall g, b3 g <= bump b3 3 2 g) as H3 by (intros g; eapply grows_le; [apply bump_grows|lia]).
    assert (forall g, b2 g <= bump b3 3 2 g) as H2 by (intros g; etrans; [eapply grows_le; [exact K5|lia]|apply H3]).
    assert (forall g, b1 g <= bump b3 3 2 g) as H1.
    { intros g. etrans; [|apply H2]. destruct (decide (g = 1)) as [->|N1]; [rewrite J7, I3; lia|]. destruct (decide (g = 2)) as [->|N2]; [rewrite J8, I3; lia|]. by rewrite J6. }
    eapply db_step_trans; [eapply db_step_weaken; [exact I5|done|exact H1]|]. eapply db_step_trans; [eapply db_step_weaken; [exact J9|intros g ?; cbv beta in *; lia|exact H2]|].
    eapply db_step_trans; [eapply db_step_weaken; [exact K6|intros g ?; cbv beta in *; lia|exact H3]|eapply db_step_weaken; [exact M5|intros g ?; cbv beta in *; lia|done]].
Qed.
Lemma booted_types R : booted R -> R kTypeMetaId = inserted type_meta_cols <$> type_meta_rows.
Proof using. intros H. rewrite (H kTypeMetaId) by done. unfold boot_rows. change (kTypeMetaId =? 1) with false. change (kTypeMetaId =? 2) with false. by change (kTypeMetaId =? 3) with false. Qed.
Lemma boot_listed R : booted R -> Forall (fun x => listed R (mkTableRef kSystemSchemaName x.1.2) (mkMeta x.1.1 x.1.1 x.1.2 x.2)) boot_tables.
Proof using.
  intros Hb. assert (R kTableMetaId = boot_rows 1 /\ R kColumnMetaId = boot_rows 2 /\ R kSchemaMetaId = boot_rows 3 /\ R kTypeMetaId = boot_rows 4) as (E1 & E2 & E3 & E4) by (split_and!; by apply Hb).
  unfold listed. rewrite E1, E2, E3, E4. unfold boot_tables at 1. repeat apply Forall_cons_2; try apply Forall_nil_2; exists 1; (split; [done|]); vm_compute; split_and!; reflexivity.
Qed.
Lemma boot_types R : R kTypeMetaId = inserted type_meta_cols <$> type_meta_rows -> Forall (fun s => first_res (fun row => t ← parse_type_row row; Ok (if type_named (sname s) t then Some t else None)) (R kTypeMetaId) = Ok (Some (seed_type_row s))) kTypeSeeds.
Proof using.
  intros ->. unfold kTypeSeeds. repeat apply Forall_cons_2; try apply Forall_nil_2; vm_compute; reflexivity.
Qed.

(** * The property *)
(** C15. A created table is found: [create_table] on a free name and well declared columns returns the new table's id; looking the name up afterwards gives
    that id, the table's file and exactly the declared columns, in order; the table is empty; creating it again is
    refused; and every other table keeps its rows. *)
Theorem create_table_found bound c R t i cs : meta_ok bound (engine c) R -> R kTypeMetaId = inserted type_meta_cols <$> type_meta_rows -> bootstrap_mode c = false ->
  tr_schema t <> ""%string -> first_res (schema_of (tr_schema t)) (R kSchemaMetaId) = Ok (Some i) -> creatable (wrap 64 i) t cs (R kTableMetaId) ->
  0 <= next_table_id c < 2 ^ 64 -> Forall (fresh_row (next_table_id c)) (R kColumnMetaId) ->
  4 < next_file_id c < 2 ^ 64 -> fresh_file bound (engine c) (next_file_id c) -> room bound cs ->
  exists c' bound' R', create_table fuel t cs c = (Ok (next_table_id c), c') /\ meta_ok bound' (engine c') R' /\
    (exists c2, table_meta fuel t c' = (Ok (mkMeta (next_table_id c) (next_file_id c) (tr_table t) cs), c2)) /\
    holding bound' (engine c') (next_file_id c) cs [] [] /\
    (exists c2, create_table fuel t cs c' = (Raise TableExists, c2)) /\
    forall g cs' ps vss, g <> next_file_id c -> g <> kTableMetaId -> g <> kColumnMetaId -> holding bound (engine c) g cs' ps vss -> holding bound' (engine c') g cs' ps vss.
Proof using Hn.
  intros Hm Hty Hb Hs Hi Hcr Htid Hold Hfid Hff Hroom. set (sid := wrap 64 i) in *.
  destruct (resolve_run bound c R Hm t i Hs Hi) as (c1 & E1 & Q1). pose proof (quiet_meta _ _ _ _ Hm Q1) as Hm1. destruct Q1 as (s & -> & Hc).
  set (c1 := set_engine (set_pool s (engine c)) c) in *. set (c2 := set_ids (next_file_id c1) (wrap 64 (next_table_id c1 + 1)) (next_schema_id c1) c1).
  assert (fresh_file bound (engine c2) (next_file_id c2)) as Hff2.
  { apply (fresh_step _ bound bound (engine c) _ (next_file_id c) (calm_db_step _ _ _ Hc)); [by intros []|done| |done]. by destruct (calm_env _ _ _ _ (mt_env _ _ _ Hm) Hc). }
  destruct (create_impl_run bound c2 R sid t cs (next_table_id c) Hm1 Hcr Hff2 (proj1 Hfid) Hroom) as (e' & bound' & R' & R1 & R2 & T1 & T2 & T3 & R3 & R4 & _ & R5).
  change (next_file_id c2) with (next_file_id c) in *. set (c3 := set_engine e' (with_file_id c2)) in *.
  assert (meta_ok bound' (engine c3) R') as Hm3 by exact R2. exists c3, bound', R'. split; [|split; [exact R2|split; [|split; [exact R3|split]]]].
  - unfold create_table. run E1. rewrite run_gets. change (bootstrap_mode c1) with (bootstrap_mode c). rewrite Hb.
    unfold alloc_table_id. rewrite run_assoc, run_gets, run_assoc, run_modify, run_ret. exact R1.
  - destruct (find_run bound' c3 R' t _ Hm3 (created_listed R R' t i (next_table_id c) (next_file_id c) cs Hs Hi Hcr Htid ltac:(lia) Hold Hty T1 T2 T3)) as (c4 & F & _).
    exists c4. exact F.
  - destruct (resolve_run bound' c3 R' Hm3 t i Hs) as (c4 & G1 & Q4); [by rewrite T3|]. pose proof (quiet_meta _ _ _ _ Hm3 Q4) as Hm4.
    destruct Q4 as (s4 & -> & _). unfold create_table. run G1. rewrite run_gets. change (bootstrap_mode (set_engine _ c3)) with (bootstrap_mode c). rewrite Hb.
    unfold alloc_table_id. rewrite run_assoc, run_gets, run_assoc, run_modify, run_ret. unfold create_table_impl. destruct Hcr as [X1 X2 X3 X4]. rewrite bool_decide_false by done. rewrite (wc_name _ _ X4).
    set (c5 := set_ids _ _ _ _). destruct (has_name_run bound' c5 R' Hm4 sid (tr_table t) true) as (c6 & F & _); [rewrite (T1 : R' kTableMetaId = _); by apply named_there|]. run F. by eexists.
  - intros g cs' ps vss H1 H2 H3 H. destruct (calm_holding bound (engine c) s g cs' ps vss Hc H) as [H' _]. unfold kTableMetaId, kColumnMetaId in *.
    eapply (db_step_holding _ bound bound' (engine c2) e'); [exact R5|by intros [|[|]]|by apply R4|exact H'].
Qed.
(** C21. The bootstrap leaves a database that describes itself: on empty files [bootstrap_meta_tables] succeeds with two spare frames, and afterwards looking up
    db_type, db_table, db_column and db_schema in the metadata tables themselves gives their ids, files and exactly
    the columns the code reads them with; every built-in type is found by its name with its attributes and rules; and the
    types read are the ones the binder's catalog consists of. *)
Theorem bootstrap_describes_itself bound c : boot_ready bound (engine c) -> exists c' bound' R,
  bootstrap_meta_tables c = (Ok tt, c') /\ meta_ok bound' (engine c') R /\
  Forall (fun x => exists c2, table_meta fuel (mkTableRef kSystemSchemaName x.1.2) c' = (Ok (mkMeta x.1.1 x.1.1 x.1.2 x.2), c2)) boot_tables /\
  Forall (fun s => exists c2, find_type fuel (sname s) c' = (Ok (seed_type_row s), c2)) kTypeSeeds /\
  exists c2, all_types fuel c' = (Ok seed_types, c2).
Proof using Hn.
  intros Hb. destruct (bootstrap_run bound c Hb) as (e' & b' & R & E & Hm & HR & _). exists (set_engine e' c), b', R. change (meta_ok b' (engine (set_engine e' c)) R) in Hm.
  split; [done|]. split; [done|]. split; [|split].
  - eapply Forall_impl; [|exact (boot_listed R HR)]. intros x Hl. destruct (find_run b' _ R _ _ Hm Hl) as (c2 & F & _). by exists c2.
  - eapply Forall_impl; [|exact (boot_types R (booted_types R HR))]. intros s Hs. destruct (meta_read b' _ R Hm kTypeMetaId ltac:(done)) as (c2 & F & _). exists c2.
    unfold find_type, type_where. rewrite run_assoc. run F. by rewrite (lift_run _ _ _ _ Hs).
  - destruct (types_read b' _ R Hm (booted_types R HR)) as (c2 & F & _). by exists c2.
Qed.
End meta.

(** An empty database in a transaction. *)
Definition demo_catalog : Catalog := mkCat demo_db 5 kFirstUserTableId 2 false 0 [] [].
Lemma demo_boot_ready : boot_ready 100 2 (fun _ => 0) (engine demo_catalog).
Proof.
  split; [|split; [|vm_compute; discriminate]].
  - destruct demo_db_env as [D1 D2 (c & Hc & _) D4 _]. split; [done|done|by exists c|]. exact D4.
  - intros i Hi. split; [|done|done|apply not_elem_of_nil]. split; [done|]. intros p j Hp. change ((∅ : gmap PageId nat) !! p = Some j) in Hp. by rewrite lookup_empty in Hp.
Qed.
Lemma bootstrap_describes_itself_witness : exists c' R bound', bootstrap_meta_tables demo_catalog = (Ok tt, c') /\ meta_ok 100 2 bound' (engine c') R /\
  exists c2, table_meta 100 (mkTableRef "system" "db_schema") c' = (Ok (mkMeta 3 3 "db_schema" schema_meta_cols), c2).
Proof.
  destruct (bootstrap_describes_itself 100 2 ltac:(lia) (fun _ => 0) demo_catalog demo_boot_ready) as (c' & b' & R & E & Hm & Ht & _). exists c', R, b'. split; [exact E|]. split; [exact Hm|].
  do 3 apply Forall_cons_1 in Ht as [_ Ht]. apply Forall_cons_1 in Ht as [Ht _]. exact Ht.
Defined.
Definition demo_ref : TableRef := mkTableRef "system" "account".
Definition account_cols : list ColumnSpec := [Types.mkCol "id" kInt 0 true 0; Types.mkCol "owner" kVarChar 20 false 0; Types.mkCol "amount" kNumeric 10 false 2].
Lemma account_creatable sid s T : any_row T (named_in sid "account") = Ok false -> creatable sid (mkTableRef s "account") account_cols T.
Proof.
  intros H. split; [done|done|done|]. split; [done|done|]. repeat apply Forall_cons_2; try apply Forall_nil_2.
  - apply (declared_by (mkSeed kInt "int" None false 0 0 false)); [cbn; auto|done|done].
  - apply (declared_by (mkSeed kVarChar "varchar" None true 0 65535 false)); [cbn; auto|done|done].
  - exists (mkSeed kNumeric "numeric" (Some "decimal"%string) true 0 38 true). cbn. unfold UINT8_MAX. intuition (lia || done || auto).
Qed.
Lemma column_rows_fresh tid tid' cs : to_i64 tid' <> to_i64 tid -> Forall (fresh_row tid) (column_rows_of tid' cs).
Proof.
  intros Hne. apply list.Forall_forall. intros row (r & -> & Hr)%list_elem_of_fmap. apply list_elem_of_lookup in Hr as [i Hi]. unfold column_meta_rows in Hi.
  rewrite list_lookup_imap in Hi. destruct (cs !! i); [|done]. injection Hi as <-. by exists (to_i64 tid').
Qed.
Lemma create_table_found_witness : exists c c' c2, create_table 100 demo_ref account_cols c = (Ok 20001, c') /\
  table_meta 100 demo_ref c' = (Ok (mkMeta 20001 5 "account" account_cols), c2).
Proof.
  destruct (bootstrap_run 100 2 ltac:(lia) (fun _ => 0) demo_catalog demo_boot_ready) as (e' & b' & R & E & Hm & HR & Hb & [B1 B2] & Hs).
  set (c := set_engine e' demo_catalog). change (meta_ok 100 2 b' (engine c) R) in Hm.
  assert (first_res (schema_of "system") (R 3) = Ok (Some 1)) as Hi by (rewrite HR by lia; reflexivity).
  assert (creatable (wrap 64 1) demo_ref account_cols (R 1)) as Hcr by (apply account_creatable; rewrite HR by lia; vm_compute; reflexivity).
  assert (Forall (fresh_row 20001) (R 2)) as Hfr.
  { rewrite HR by lia. change (boot_rows 2) with (column_rows_of 4 type_meta_cols ++ column_rows_of 1 table_meta_cols ++ column_rows_of 2 column_meta_cols ++ column_rows_of 3 schema_meta_cols ++ []).
    repeat apply Forall_app_2; try apply Forall_nil_2; by apply column_rows_fresh. }
  assert (fresh_file b' (engine c) 5) as Hff.
  { destruct (db_step_env _ _ _ _ _ (proj1 demo_boot_ready) Hs) as [_ Hd]. apply (fresh_step _ (fun _ => 0) b' _ _ 5 Hs); [cbv beta; lia|by rewrite Hb|exact Hd|].
    split; [|done|done|apply not_elem_of_nil]. split; [done|]. intros p j Hp. change ((∅ : gmap PageId nat) !! p = Some j) in Hp. by rewrite lookup_empty in Hp. }
  destruct (create_table_found 100 2 ltac:(lia) b' c R demo_ref 1 account_cols Hm) as (c' & _ & _ & C1 & _ & [c2 C2] & _).
  - exact (booted_types R HR).
  - reflexivity.
  - discriminate.
  - exact Hi.
  - exact Hcr.
  - split; vm_compute; [discriminate|reflexivity].
  - exact Hfr.
  - split; reflexivity.
  - exact Hff.
  - unfold room. rewrite B1, B2. change (zlen account_cols) with 3. lia.
  - exists c, c', c2. split; [exact C1|exact C2].
Defined.
