(* ===== verification/Dml.v ===== *)
(** Rows and indexes in step: an insertion through the catalog leaves a table whose indexes again hold an entry for every row. *)
From stdpp Require Import sorting.
From S2P Require Import Prelude Key Types Codec Page Wal Disk Recovery State Node Pool Diff PoolSpec Txn Session Shape Tree TreeSpec Insert Engine Cast Expr Typing Bind Plan Query.
From S2P Require Import Table Rows Scanner Serve Meta Tables Catalog Ddl.

#[local] Opaque seal init_page.

(** * One index *)
(** The open tree of file [f] and its entries. *)
Record tree_held (bound : Z -> Z) (e : Engine) (f : Z) (b : BTree) (h : nat) (es : list BTreeEntry) (first : Z) (fp : list Z) : Prop := {
  th_open : trees e !! f = Some b;
  th_tree : tree_ok (mkTS (pool e) b) h es first fp;
  th_file : tree_file b = f /\ next_page_hint b = bound f;
  th_within : within (pool e) f (bound f) /\ 0 < bound f < 2 ^ 32 }.
Lemma db_step_tree (P : Z -> Prop) bound bound' e e' f b h es first fp : db_step P bound' e e' -> ~ P f -> bound' f = bound f ->
  tree_held bound e f b h es first fp -> tree_held bound' e' f b h es first fp.
Proof.
  intros Hs Hf Hb [T1 T2 [T3 T4] [T5 T6]]. split; [by rewrite (ds_trees _ _ _ _ Hs)| |by rewrite Hb|].
  - destruct T2 as [K1 K2 K3 K4 K5 K6 K7].
    assert (forall q, 0 <= q -> content (mkTS (pool e') b) q = content (mkTS (pool e) b) q) as Hq.
    { intros q Hq. unfold content. cbn [store tree]. rewrite T3. by apply (db_step_page P bound' e e' f q Hs). }
    split; rewrite ?Hq by lia; try done. apply (tree_frame _ _ _ _ _ _ _ _ _ _ K5). intros q Hin. apply Hq. rewrite list.Forall_forall in K7. specialize (K7 q Hin). cbv beta in K7. lia.
  - rewrite Hb. split; [|done]. apply (db_step_within P bound bound' e e' f Hs); [lia|lia|done].
Qed.
Definition reset (bound : Z -> Z) (f v : Z) : Z -> Z := fun g => if g =? f then v else bound g.
Lemma reset_here bound f v : reset bound f v f = v.
Proof. unfold reset. by rewrite Z.eqb_refl. Qed.
Lemma reset_other bound f v g : g <> f -> reset bound f v g = bound g.
Proof. unfold reset. intros H. by destruct (Z.eqb_spec g f). Qed.
Lemma index_insert_ok bound e n f b h es first fp key ref : db_env e n -> Z.of_nat h + 4 <= n -> f ∉ dropped e -> tree_held bound e f b h es first fp ->
  bound f + Z.of_nat h + 3 < 2 ^ 32 -> let x := mkEntry key (Types.page_no (rpage ref)) (rslot ref) in btree_entry_ok x -> x ∉ es ->
  exists e' b' h' A B fp' v, index_insert f key ref e = (Ok tt, e') /\ es = A ++ B /\ (h' <= h + 1)%nat /\ bound f <= v <= bound f + Z.of_nat h + 2 /\
    tree_held (reset bound f v) e' f b' h' (A ++ x :: B) first fp' /\ db_env e' n /\ dropped e' = dropped e /\ db_step (eq f) (reset bound f v) e e'.
Proof.
  intros Hd Hn Hf [T1 T2 [T3 T4] [T5 T6]] Hb x Hx Hnew. pose proof Hd as [D1 D2 [c Dc] D4]. unfold index_insert.
  assert (check_txn f e = (Ok tt, e)) as Hck.
  { unfold check_txn. rewrite run_gets, Dc. destruct (existsb (Z.eqb f) (pending_drops c)) eqn:E; [|done]. apply existsb_exists in E as (y & Hy & E). destruct Hf.
    apply Z.eqb_eq in E. subst y. unfold dropped. rewrite Dc. by apply list_elem_of_In. }
  run Hck. unfold tree_for. rewrite run_assoc, run_gets, T1, run_ret. fold x. unfold treed. rewrite T1.
  assert (tree_env (mkTS (pool e) b) (Z.of_nat h + 3)) as Henv.
  { split; cbn [store tree]; rewrite ?T3, ?T4; [split; [done|split; [done|by exists c]]|lia|done|lia|lia]. }
  destruct (insert_ok (mkTS (pool e) b) h es first fp x T2 Henv Hx Hnew) as (t' & h' & A & B & fp' & I1 & I2 & I3 & I4 & [J1 J2 J3 J4 J5] & I6). rewrite I1.
  cbn [store tree] in *. rewrite T3 in J1, J5. rewrite T4 in J2. set (v := next_page_hint (tree t')) in *.
  eexists _, (tree t'), h', A, B, fp', v. split; [done|]. split; [done|]. split; [lia|]. split; [lia|].
  assert (db_step (eq f) (reset bound f v) e (set_trees (<[f:=tree t']> (trees e)) (set_pool (store t') e))) as Hst.
  { split; cbn [pool set_trees set_pool trees tail_pages]; [|done|done|intros g Hg; by rewrite lookup_insert_ne by (intros ->; by apply Hg)|done].
    eapply evolves_weaken; [exact J3| |]; intros p [H1 H2]; cbn [tree] in H1; rewrite T3 in H1; subst f; [done|]. rewrite H1, reset_here. done. }
  split; [|split; [|split; [|exact Hst]]].
  - split; cbn [trees set_trees pool set_pool]; [by rewrite lookup_insert_eq|by destruct t'|by rewrite reset_here|]. rewrite reset_here. split; [done|lia].
  - by destruct (db_step_env _ _ _ _ _ Hd Hst).
  - by destruct (db_step_env _ _ _ _ _ Hd Hst).
Qed.

(** ** Keys of stored rows *)
Lemma stored_typed c v : wf_box (box v) -> storable c v = true -> value_ok (ctype c) (Codec.stored c v).
Proof.
  unfold storable, value_ok, Codec.stored, is_null, value_is_null. cbn [box vtype]. intros Hw Hs. destruct (box v) as [|x|i|d|f|s|d] eqn:E; [by left|right..]; cbn [box_rep box_range] in *.
  - case_bool_decide; done.
  - apply andb_true_iff in Hs as [H1%bool_decide_eq_true H2]. split; [done|]. split; [done|]. split; [done|]. intros Hk. rewrite Hk in H2. by apply in_i32_spec.
  - apply andb_true_iff in Hs as [H1%bool_decide_eq_true H2]. split; [done|]. split; [done|]. split; [by split|]. done.
  - apply andb_true_iff in Hs as [H1%bool_decide_eq_true H2]. split; [done|]. split; [done|]. split; [by split|]. done.
  - apply andb_true_iff in Hs as [H1%bool_decide_eq_true _]. case_bool_decide; done.
  - apply andb_true_iff in Hs as [H1%bool_decide_eq_true H2]. split; [done|]. split; [done|]. cbn in Hw. split; [lia|]. done.
Qed.
Lemma encode_key_stored t c v : encode_key t (Codec.stored c v) = encode_key t v.
Proof. unfold encode_key, Codec.stored. cbn [box]. destruct (box v); try done. by case_bool_decide. Qed.
Lemma stored_key c v : indexable (ctype c) -> wf_box (box v) -> storable c v = true -> exists k, encode_key (ctype c) v = Ok k /\ key_ok k.
Proof.
  intros Hi Hw Hs. rewrite <- (encode_key_stored (ctype c) c v). pose proof (stored_typed c v Hw Hs) as Hv. destruct (is_null (Codec.stored c v)) eqn:E.
  - rewrite encode_key_null by done. by exists k_null_key.
  - destruct (encode_key_value (ctype c) _ Hi Hv E) as (k & H1 & H2 & _). by exists k.
Qed.
(** A new row's entry. *)
Lemma new_entry cs vs ref ord c : cs !! ord = Some c -> indexable (ctype c) -> fits cs vs -> Forall col_ok cs ->
  exists v k, vs !! ord = Some v /\ encode_key (ctype c) v = Ok k /\ key_ok k /\
    row_entry c ord (mkRow 0 ref (inserted cs vs)) = Some (mkEntry k (Types.page_no (rpage ref)) (rslot ref)).
Proof.
  intros Hc Hi (Hw & rec & He & _) Hcs. rewrite (encode_row_eq cs vs Hcs Hw) in He. destruct (Z.eqb_spec (zlen cs) (zlen vs)) as [Hl|]; [|done].
  destruct (all_storable cs vs) eqn:Hs; [|done]. clear He. assert (ord < length vs)%nat as Hlt by (apply lookup_lt_Some in Hc; unfold zlen in Hl; lia).
  apply lookup_lt_is_Some_2 in Hlt as [v Hv]. assert (storable c v = true) as Hst.
  { unfold all_storable in Hs. rewrite forallb_forall in Hs. apply Hs. apply list_elem_of_In, list_elem_of_lookup. exists ord. by rewrite lookup_zip_with, Hc, Hv. }
  destruct (stored_key c v Hi (proj1 (list.Forall_lookup _ _) Hw ord v Hv) Hst) as (k & H1 & H2). exists v, k. split; [done|]. split; [done|]. split; [done|].
  unfold row_entry. cbn [rvalues rref]. unfold inserted. rewrite lookup_zip_with, Hc. cbn. rewrite Hv. cbn. by rewrite encode_key_stored, H1.
Qed.

(** ** An index through a step of the database *)
Lemma index_frame (P : Z -> Prop) bound bound' e e' t ps ps' rows ht fuel ent c b es : db_step P bound' e e' -> ~ P (ix_file_id ent) -> bound' (ix_file_id ent) = bound (ix_file_id ent) ->
  (forall q, q ∈ ps -> zlen (heap_rows (page_of e (tfile_id t) q)) <= zlen (heap_rows (page_of e' (tfile_id t) q))) -> ps ⊆ ps' ->
  index_ok bound e t ps rows ht fuel ent c b es -> index_ok bound' e' t ps' rows ht fuel ent c b es.
Proof.
  intros Hs Hp Hb Hq Hps [I1 I2 I3 (h & first & fp & I4 & I5) I6 I7 I8 I9].
  destruct (db_step_tree P bound bound' e e' _ b h es first fp Hs Hp Hb ltac:(by split)) as [T1 T2 T3 T4]. split; try done; [by exists h, first, fp|].
  eapply Forall_impl; [|exact I9]. intros x [[X1 X2] X3]. split; [|done]. split; [by apply Hps|]. specialize (Hq _ X1). lia.
Qed.
Lemma index_more bound e t ps rows ht ht' fuel fuel' ent c b es : (ht <= ht')%nat -> (fuel <= fuel')%nat -> index_ok bound e t ps rows ht fuel ent c b es -> index_ok bound e t ps rows ht' fuel' ent c b es.
Proof. intros H1 H2 [I1 I2 I3 (h & first & fp & I4 & I5 & I6) I7 I8 I9 I10]. split; try done. exists h, first, fp. split; [done|lia]. Qed.
(** The new row's entry goes into the index. *)
Lemma index_add bound e n t ps rows ht fuel ent c b es r k : db_env e n -> Z.of_nat ht + 4 <= n -> ix_file_id ent ∉ dropped e ->
  index_ok bound e t ps rows ht fuel ent c b es -> bound (ix_file_id ent) + Z.of_nat ht + 3 < 2 ^ 32 -> ix_file_id ent <> tfile_id t ->
  let x := mkEntry k (Types.page_no (rpage (rref r))) (rslot (rref r)) in btree_entry_ok x -> row_entry c (col_ordinal ent) r = Some x ->
  rref r = entry_ref (tfile_id t) x -> Key.page_no x ∈ ps -> slot x < zlen (heap_rows (page_of e (tfile_id t) (Key.page_no x))) ->
  Forall (fun y => entry_ref (tfile_id t) y <> rref r) es -> Forall (fun r' => rref r' <> rref r) rows -> (forall q, q ∈ ps -> 0 <= q) ->
  exists e' b' es' fuel' v, index_insert (ix_file_id ent) k (rref r) e = (Ok tt, e') /\ bound (ix_file_id ent) <= v <= bound (ix_file_id ent) + Z.of_nat ht + 2 /\
    index_ok (reset bound (ix_file_id ent) v) e' t ps (rows ++ [r]) (S ht) fuel' ent c b' es' /\ db_env e' n /\ dropped e' = dropped e /\
    db_step (eq (ix_file_id ent)) (reset bound (ix_file_id ent) v) e e' /\ (fuel <= fuel')%nat.
Proof.
  intros Hd Hn Hf [I1 I2 I3 (h & first & fp & I4 & I5 & I6) I7 I8 I9 I10] Hb Hne x Hx Hr Href Hps Hsl Hes Hrows Hpos.
  destruct (index_insert_ok bound e n (ix_file_id ent) b h es first fp k (rref r) Hd ltac:(lia) Hf ltac:(by split) ltac:(lia) Hx) as (e' & b' & h' & A & B & fp' & v & J1 & -> & J3 & J4 & [T1 T2 T3 T4] & J6 & J7 & J8).
  { intros Hin. rewrite list.Forall_forall in Hes. by apply (Hes x). }
  fold x in T2. set (f := ix_file_id ent) in *. set (fuel' := (fuel + h' + 2 * length fp' + length (A ++ x :: B) + 2)%nat).
  exists e', b', (A ++ x :: B), fuel', v. split; [done|]. split; [lia|]. split; [|split; [done|split; [done|split; [done|lia]]]].
  assert (forall y, y ∈ A ++ x :: B -> y = x \/ y ∈ A ++ B) as Hin by (intros y; rewrite !elem_of_app, elem_of_cons; tauto).
  split; [done|done|exact T1| |exact T3|exact T4| |].
  - exists h', first, fp'. split; [done|]. split; lia.
  - apply Forall_app_2; [eapply Forall_impl; [|exact I9]; intros r' (y & Y1 & Y2)|apply Forall_cons_2; [|apply Forall_nil_2]].
    + exists y. split; [done|]. revert Y2. rewrite !elem_of_app, elem_of_cons. tauto.
    + exists x. split; [done|]. rewrite elem_of_app, elem_of_cons. tauto.
  - rewrite list.Forall_forall in Hrows. rewrite list.Forall_forall in I10, Hes |- *. intros y [->|Hy]%Hin.
    + split; [split; [done|rewrite (db_step_page _ _ _ _ (tfile_id t) _ J8 Hne); [done|by apply Hpos]]|]. intros r' [Hr'|Hr'%list_elem_of_singleton]%elem_of_app E; [|by subst r'].
      destruct (Hrows r' Hr'). congruence.
    + destruct (I10 y Hy) as [[Y1 Y2] Y3]. split; [split; [done|rewrite (db_step_page _ _ _ _ (tfile_id t) _ J8 Hne); [done|by apply Hpos]]|].
      intros r' [Hr'|Hr'%list_elem_of_singleton]%elem_of_app E; [by apply Y3|]. subst r'. by destruct (Hes y Hy).
Qed.

(** * All indexes of a table *)
Section entries.
Context (n : Z) (t : TableMeta) (ps : list Z) (rows : list Row) (vs : list Value) (r : Row) (ht : nat) (Hn : Z.of_nat ht + 4 <= n).
Notation no := (Types.page_no (rpage (rref r))).
Notation files ents := (ix_file_id <$> ents).
Context (Hfile : file_id (rpage (rref r)) = tfile_id t) (Hno : no ∈ ps) (Hnos : 0 <= no < 2 ^ 32) (Hslot : 0 <= rslot (rref r) < 2 ^ 16).
Context (Hrows : Forall (fun r' => rref r' <> rref r) rows) (Hpos : forall q, q ∈ ps -> 0 <= q).
(** An index that lacks the new row's entry only. *)
Definition lacks (bound : Z -> Z) (e : Engine) (fuel : nat) (ent : IndexEntry) : Prop := exists c b es v k,
  index_ok bound e t ps rows ht fuel ent c b es /\ Forall (fun y => entry_ref (tfile_id t) y <> rref r) es /\ bound (ix_file_id ent) + Z.of_nat ht + 3 < 2 ^ 32 /\
  vs !! col_ordinal ent = Some v /\ encode_key (ctype c) v = Ok k /\ key_ok k /\ row_entry c (col_ordinal ent) r = Some (mkEntry k no (rslot (rref r))).
Definition has_all (bound : Z -> Z) (e : Engine) (fuel : nat) (ent : IndexEntry) : Prop := exists c b es, index_ok bound e t ps (rows ++ [r]) (S ht) fuel ent c b es.
Lemma row_place : rref r = entry_ref (tfile_id t) (mkEntry k_null_key no (rslot (rref r))).
Proof using All. unfold entry_ref. cbn. rewrite <- Hfile. by destruct (rref r) as [[? ?] ?]. Qed.
Lemma index_row_run bound c fuel ent : db_env (engine c) n -> ix_file_id ent ∉ dropped (engine c) -> ix_file_id ent <> tfile_id t -> lacks bound (engine c) fuel ent ->
  rslot (rref r) < zlen (heap_rows (page_of (engine c) (tfile_id t) no)) ->
  exists e' fuel' v, index_row t vs (rref r) ent c = (Ok tt, set_engine e' c) /\ bound (ix_file_id ent) <= v <= bound (ix_file_id ent) + Z.of_nat ht + 2 /\ has_all (reset bound (ix_file_id ent) v) e' fuel' ent /\
    db_env e' n /\ dropped e' = dropped (engine c) /\ db_step (eq (ix_file_id ent)) (reset bound (ix_file_id ent) v) (engine c) e' /\ (fuel <= fuel')%nat.
Proof using All.
  intros Hd Hf Hne (col & b & es & v & k & L1 & L2 & L3 & L4 & L5 & L6 & L7) Hs.
  destruct (index_add bound (engine c) n t ps rows ht fuel ent col b es r k Hd Hn Hf L1 L3 Hne) as (e' & b' & es' & fuel' & w & J1 & J2 & J3 & J4 & J5 & J6 & J7); try done.
  { exact row_place. }
  exists e', fuel', w. split; [|split; [done|split; [by exists col, b', es'|done]]].
  unfold index_row. rewrite L4, (io_col _ _ _ _ _ _ _ _ _ _ _ L1). rewrite (lift_run k _ _ _ L5). by apply on_engine_run.
Qed.
Lemma index_rows_run ents : forall bound c fuel, db_env (engine c) n -> (forall ent, ent ∈ ents -> ix_file_id ent ∉ dropped (engine c)) -> NoDup (tfile_id t :: files ents) ->
  Forall (lacks bound (engine c) fuel) ents -> rslot (rref r) < zlen (heap_rows (page_of (engine c) (tfile_id t) no)) ->
  exists e' bound' fuel', forM ents (index_row t vs (rref r)) c = (Ok tt, set_engine e' c) /\ Forall (has_all bound' e' fuel') ents /\ db_env e' n /\ dropped e' = dropped (engine c) /\
    (forall g, g ∉ files ents -> bound' g = bound g) /\ (forall g, bound g <= bound' g <= bound g + Z.of_nat ht + 2) /\ db_step (fun g => g ∈ files ents) bound' (engine c) e' /\ (fuel <= fuel')%nat.
Proof using All.
  induction ents as [|ent ents IH]; intros bound c fuel Hd Hf Hnd Hl Hs.
  - exists (engine c), bound, fuel. split; [by destruct c|]. split; [constructor|]. split; [done|]. split; [done|]. split; [done|]. split; [intros g; lia|]. split; [by eapply db_step_refl|done].
  - cbn [fmap list_fmap] in Hnd. apply list.NoDup_cons in Hnd as [[Hne Ht]%not_elem_of_cons Hnd]. apply list.NoDup_cons in Hnd as [Hx Hnd]. apply Forall_cons_1 in Hl as [Hl Hls].
    destruct (index_row_run bound c fuel ent Hd (Hf ent ltac:(by left)) (not_eq_sym Hne) Hl Hs) as (e1 & f1 & v & J1 & J2 & J3 & J4 & J5 & J6 & J7). set (b1 := reset bound (ix_file_id ent) v) in *.
    assert (forall q, 0 <= q -> page_of e1 (tfile_id t) q = page_of (engine c) (tfile_id t) q) as Hpg by (intros q Hq; eapply db_step_page; [exact J6|by apply not_eq_sym|done]).
    destruct (IH b1 (set_engine e1 c) f1 J4) as (e' & b' & f' & K1 & K2 & K3 & K4 & K5 & K6 & K7 & K8).
    { intros x Hin. cbn [engine set_engine]. rewrite J5. apply Hf. by right. }
    { apply list.NoDup_cons. split; done. }
    { apply list.Forall_forall. intros x Hin. rewrite list.Forall_forall in Hls. destruct (Hls x Hin) as (col & b & es & w & k & L1 & L2 & L3 & L4 & L5 & L6 & L7).
      assert (ix_file_id x <> ix_file_id ent) as Hxe by (intros E; apply Hx; rewrite <- E; by apply list_elem_of_fmap_2).
      exists col, b, es, w, k. split; [|split; [done|split; [unfold b1; by rewrite reset_other|done]]]. eapply index_more; [done|exact J7|].
      eapply (index_frame _ bound b1); [exact J6|by apply not_eq_sym|unfold b1; by rewrite reset_other| |done|exact L1]. intros q Hq. cbn [engine set_engine]. by rewrite Hpg by (by apply Hpos). }
    { cbn [engine set_engine]. rewrite Hpg; [done|lia]. }
    exists e', b', f'. cbn [forM]. run J1. rewrite K1. cbn [engine set_engine] in K7, K4. split; [by destruct c|].
    assert (forall g, bound g <= b1 g) as Hle by (intros g; unfold b1; destruct (decide (g = ix_file_id ent)) as [->|Hg]; [by rewrite reset_here; lia|by rewrite reset_other]).
    split; [|split; [done|split; [by rewrite K4|split; [|split; [|split; [|lia]]]]]].
    + constructor; [|done]. destruct J3 as (col & b & es & L1). exists col, b, es. eapply index_more; [done|exact K8|].
      eapply (index_frame _ b1 b'); [exact K7|exact Hx|by apply K5| |done|exact L1]. intros q Hq. by rewrite (db_step_page _ _ _ _ (tfile_id t) q K7 Ht) by (by apply Hpos).
    + intros g [Hg1 Hg2]%not_elem_of_cons. rewrite K5 by done. unfold b1. by apply reset_other.
    + intros g. pose proof (Hle g). pose proof (K6 g). destruct (decide (g = ix_file_id ent)) as [->|Hg]; [rewrite (K5 _ Hx); unfold b1; rewrite reset_here; lia|].
      unfold b1 in *. rewrite reset_other in * by done. lia.
    + eapply db_step_trans; [eapply db_step_weaken; [exact J6|intros g <-; by left|intros g; by apply K6]|eapply db_step_weaken; [exact K7|intros g Hg; by right|done]].
Qed.
End entries.

(** * The catalog's loops over a scan *)
Section scans.
Context {A : Type} (f : Row -> result (option A)) (s0 : Store) (fid N : Z) (cs : list ColumnSpec) (Hs0 : pool_ok ∅ s0) (HN : 0 <= N).
Lemma scan_loop_ok fuel rem : forall n e c m vss xs, scan_env s0 fid N e -> position s0 fid N cs e c m rem -> Forall2 (decodes cs) rem vss -> (m < fuel)%nat -> (length rem < n)%nat ->
  filter_res f (zip_with scanned rem vss) = Ok xs ->
  exists s', scan_loop fuel n f c e = (Ok xs, set_pool s' e) /\ reads fid N e s' /\ pins_eq s0 s'.
Proof using All.
  induction rem as [|x rem IH]; intros n e c m vss xs Henv Hp Hd Hm Hn Hf; (destruct n as [|n]; [lia|]); cbn [length] in Hn;
    pose proof (scanner_next_ok s0 fid N cs Hs0 HN fuel e c m _ Henv Hp Hm) as Hnx; cbn [next_result] in Hnx; cbn [scan_loop].
  - destruct Hnx as (s' & c' & E & H1 & H2). inversion H2; subst. run E. unfold scanner_close.
    match goal with H : cur_data c' = None |- _ => rewrite H end. rewrite run_assoc, !run_ret. apply Forall2_nil_inv_l in Hd as ->. cbn in Hf. injection Hf as <-. by exists s'.
  - apply Forall2_cons_inv_l in Hd as (vs & vss' & Hvs & Hd & ->). destruct (Hnx vs Hvs) as (s' & c' & m' & E & H1 & Hm' & H3). run E.
    cbn [zip_with filter_res] in Hf. change (mkRow 0 x.1 vs) with (scanned x vs). destruct (f (scanned x vs)) as [a| |] eqn:Ef; cbn [mbind result_bind] in Hf; [|done..].
    destruct (filter_res f (zip_with scanned rem vss')) as [ys| |] eqn:Ey; cbn [mbind result_bind] in Hf; [|done..]. injection Hf as <-.
    destruct (IH n (set_pool s' e) c' m' vss' ys) as (s2 & D1 & D2 & D3); [by apply scan_env_reads|done|done|lia|lia|done|].
    rewrite (run_bind (unwinding _ (lift (Ok a))) _ _ a (set_pool s' e)) by done. run D1. exists s2. rewrite set_pool_twice. split; [by destruct a|]. split; [by eapply reads_trans|done].
Qed.
End scans.
Lemma scan_where_ok {A} (f : Row -> result (option A)) e fid N cs ps vss fuel xs : read_env e fid N -> 0 <= N -> table_shape e fid ps -> Forall2 (decodes cs) (rows_in e fid ps) vss ->
  (length ps + 1 + length vss < fuel)%nat -> filter_res f (zip_with scanned (rows_in e fid ps) vss) = Ok xs ->
  exists s, scan_where fuel fid cs f e = (Ok xs, set_pool s e) /\ reads fid N e s /\ pins_eq (pool e) s.
Proof.
  intros Henv HN Hs Hd Hf Hx. destruct (first_page_ok e fid N ps Henv HN Hs) as (s1 & F1 & F2 & F3). unfold scan_where, scanner_open. rewrite run_assoc. run F1. rewrite run_ret.
  set (c := mkScanner fid cs None INVALID_PAGE 0 (h_next_page (page_of e fid 0)) false).
  destruct (opened_position e fid N cs ps s1 Henv HN Hs F2 F3) as [Hpos Hse]. fold c in Hpos.
  pose proof (list.Forall2_length _ _ _ Hd) as Hl.
  destruct (scan_loop_ok f (pool e) fid N cs (rd_ok _ _ _ Henv) HN fuel (rows_in e fid ps) fuel (set_pool s1 e) c (S (length ps)) vss xs) as (s2 & D1 & D2 & D3); [done|done|done|lia|lia|done|].
  exists s2. rewrite D1, set_pool_twice. split; [done|]. split; [by eapply reads_trans|done].
Qed.

(** * Insertion *)
(** A table in a transaction: its file and its indexes' files are in use and distinct; db_index, read with the cached columns, lists
    the indexes [ents]; and the table and its indexes agree. *)
Record in_step (fuel : nat) (bound : Z -> Z) (n : Z) (c : Catalog) (t : TableMeta) (ps : list Z) (vss : list (list Value)) (ents : list IndexEntry) (ht size : nat) : Prop := {
  sp_env : db_env (engine c) n;
  sp_files : NoDup (kIndexMetaId :: tfile_id t :: (ix_file_id <$> ents));
  sp_live f : f ∈ kIndexMetaId :: tfile_id t :: (ix_file_id <$> ents) -> f ∉ dropped (engine c);
  sp_cols : Forall col_ok (cols t);
  sp_meta : exists qs wss, holding bound (engine c) kIndexMetaId (index_cols c) qs wss /\ (length qs + 1 + length wss < fuel)%nat /\
    filter_res (index_of (table_id t)) (rows_of_table (engine c) kIndexMetaId qs wss) = Ok ents;
  sp_served : served bound (engine c) t ps vss ents ht size }.
(** A change that only concerns the files [fs]: everything else in the database stays as it was. *)
Record apart (fs : list Z) (bound : Z -> Z) (c : Catalog) (bound' : Z -> Z) (c' : Catalog) : Prop := {
  ap_catalog : c' = set_engine (engine c') c;
  ap_dropped : dropped (engine c') = dropped (engine c);
  ap_bound g : g ∉ fs -> bound' g = bound g;
  ap_holding g cs qs wss : g ∉ fs -> holding bound (engine c) g cs qs wss -> holding bound' (engine c') g cs qs wss }.
Lemma apart_refl fs bound c : apart fs bound c bound c.
Proof. split; try done. by destruct c. Qed.
Lemma apart_trans fs bound c b1 c1 b2 c2 : apart fs bound c b1 c1 -> apart fs b1 c1 b2 c2 -> apart fs bound c b2 c2.
Proof.
  intros [A1 A2 A3 A4] [B1 B2 B3 B4]. split; [by rewrite B1, A1|by rewrite B2|intros g Hg; by rewrite B3, A3|auto].
Qed.
Lemma served_holding bound e t ps vss ents ht size : served bound e t ps vss ents ht size -> holding bound e (tfile_id t) (cols t) ps vss.
Proof. intros [S1 S2 S3 S4 S5 S6 S7]. split; [done|apply S1|done|done]. Qed.
Lemma rows_of_table_refs e fid ps cs vss : Forall2 (decodes cs) (rows_in e fid ps) vss -> rref <$> rows_of_table e fid ps vss = (rows_in e fid ps).*1.
Proof. unfold rows_of_table. induction 1 as [|x vs xs vss' _ _ IH]; [done|]. cbn [zip_with fmap list_fmap]. f_equal. exact IH. Qed.
Lemma live_slot_bound e fid ps ref b : table_shape e fid ps -> (ref, b) ∈ rows_in e fid ps -> exists no, no ∈ ps /\ rpage ref = mkPid fid no /\ 0 <= rslot ref < zlen (heap_rows (page_of e fid no)) /\
  rslot ref < 2 ^ 16.
Proof.
  intros Hs (no & i & Hno & Hi & -> & _)%rows_in_spec. exists no. split; [done|]. split; [done|]. destruct (segment_pos _ _ _ _ _ (tb_chain _ _ _ Hs) Hno) as [_ [Hwf _]].
  apply (live_slots_spec _ i Hwf) in Hi as [Hi _]. cbn [rslot]. pose proof (heap_bounds _ Hwf) as (_ & Hc & _). unfold PAGE_SIZE, PAGE_HEADER_SIZE, SLOT_SIZE in Hc.
  unfold zlen. rewrite length_heap_rows. lia.
Qed.
(** The state between the row's insertion and its entries'. *)
Section inserted.
Context (bound : Z -> Z) (e e1 : Engine) (t : TableMeta) (ps ps1 : list Z) (vss : list (list Value)) (ents : list IndexEntry) (ht size : nat) (vs : list Value) (ref : RowRef) (rec : bytes).
Notation fid := (tfile_id t).
Notation b1 := (bump bound fid 2).
Notation rows := (rows_of_table e fid ps vss).
Notation r := (mkRow 0 ref (inserted (cols t) vs)).
Context (Hsv : served bound e t ps vss ents ht size) (Hap : appended fid e e1 ref rec) (Hh : holding b1 e1 fid (cols t) ps1 (vss ++ [inserted (cols t) vs])) (Hps : ps ⊆ ps1)
  (Hrows : rows_in e1 fid ps1 = rows_in e fid ps ++ [(ref, rec)]) (Hst : db_step (eq fid) b1 e e1) (Hfit : fits (cols t) vs) (Hcols : Forall col_ok (cols t)).
Lemma old_refs : Forall (fun r' => rref r' <> ref) rows.
Proof using Hsv Hap.
  clear Hh Hst Hrows. destruct Hsv as [_ _ [S3 _] S4 _ _ _]. destruct Hap as (no & _ & Er & _). apply list.Forall_forall. intros r' Hr' E.
  assert (ref ∈ (rows_in e fid ps).*1) as Hin by (rewrite <- (rows_of_table_refs _ _ _ _ _ S4), <- E; by apply list_elem_of_fmap_2).
  apply list_elem_of_fmap in Hin as ((r2 & b) & -> & Hin). destruct (live_slot_bound e fid ps r2 b S3 Hin) as (no' & _ & Hp & Hs & _). cbn in Er. rewrite Er in Hp, Hs. injection Hp as <-. cbn in Hs. lia.
Qed.
Lemma new_place : exists no, no ∈ ps1 /\ 0 < no < 2 ^ 32 /\ rpage ref = mkPid fid no /\ 0 <= rslot ref < 2 ^ 16 /\ rslot ref < zlen (heap_rows (page_of e1 fid no)).
Proof using Hh Hrows.
  clear Hst Hsv Hap. destruct Hh as [H1 H2 [H3 _] _]. assert ((ref, rec) ∈ rows_in e1 fid ps1) as Hin by (rewrite Hrows; apply elem_of_app; right; by left).
  destruct (live_slot_bound e1 fid ps1 ref rec H3 Hin) as (no & N1 & N2 & N3 & N4). exists no. split; [done|]. destruct (table_page e1 fid _ H2 (proj1 H1) ps1 no H3 N1) as [N5 _]. split; [lia|]. split; [done|lia].
Qed.
Lemma index_lacks ent : ent ∈ ents -> ix_file_id ent <> fid -> bound (ix_file_id ent) + Z.of_nat ht + 3 < 2 ^ 32 -> forall e2, db_step (fun _ => False) b1 e1 e2 -> lacks t ps1 rows vs r ht b1 e2 size ent.
Proof using All.
  intros Hin Hne Hb e2 Hq. destruct Hsv as [S1 S2 S3 S4 S5 S6 S7]. rewrite list.Forall_forall in S7. destruct (S7 ent Hin) as (c & b & es & Hi).
  destruct (new_entry (cols t) vs ref (col_ordinal ent) c (io_col _ _ _ _ _ _ _ _ _ _ _ Hi) (io_type _ _ _ _ _ _ _ _ _ _ _ Hi) Hfit Hcols) as (v & k & V1 & V2 & V3 & V4).
  exists c, b, es, v, k. split; [|split; [|split; [by rewrite bump_other|done]]].
  - eapply (index_frame _ b1 b1 e1 e2 t ps1 ps1); [exact Hq|by intros []|done| |done|].
    { intros q Hqs. rewrite (db_step_page _ _ _ _ fid q Hq); [done|by intros []|]. destruct Hh as [H1 H2 [H3 _] _]. destruct (table_page e1 fid _ H2 (proj1 H1) ps1 q H3 Hqs). lia. }
    eapply (index_frame _ bound b1 e e1); [exact Hst|by apply not_eq_sym|by rewrite bump_other| |exact Hps|exact Hi].
    intros q Hqs. destruct (segment_pos _ _ _ _ q (tb_chain _ _ _ (proj1 S3)) Hqs) as [Hq0 _]. destruct Hap as (no & _ & _ & A1 & A2).
    destruct (decide (q = no)) as [->|Hqn]; [rewrite A1, zlen_app; pose proof (zlen_nonneg [Some rec]); lia|by rewrite A2].
  - eapply Forall_impl; [|exact (io_dead _ _ _ _ _ _ _ _ _ _ _ Hi)]. intros y [[_ Y2] _] E. destruct Hap as (no & _ & Er & _). cbn [rref] in E. unfold entry_ref in E. rewrite Er in E.
    injection E as E1 E2. rewrite E1 in Y2. lia.
Qed.
End inserted.
Lemma fits_typed cs vs : Forall col_ok cs -> fits cs vs -> Forall2 value_ok (ctype <$> cs) (inserted cs vs).
Proof.
  intros Hcs (Hw & rec & He & _). rewrite (encode_row_eq cs vs Hcs Hw) in He. destruct (Z.eqb_spec (zlen cs) (zlen vs)) as [Hl|]; [|done].
  destruct (all_storable cs vs) eqn:Hs; [|done]. clear He Hcs. unfold inserted. assert (length cs = length vs) as Hlen by (unfold zlen in Hl; lia). clear Hl.
  revert vs Hw Hs Hlen. induction cs as [|c cs IH]; intros [|v vs] Hw Hs Hlen; try done. apply Forall_cons_1 in Hw as [Hw Hws].
  unfold all_storable in Hs. cbn in Hs. apply andb_true_iff in Hs as [Hs1 Hs2]. cbn. constructor; [by apply stored_typed|]. apply IH; [done|done|]. cbn in Hlen. lia.
Qed.
Lemma rows_of_snoc e e' fid ps ps' cs vss ref rec v : Forall2 (decodes cs) (rows_in e fid ps) vss -> rows_in e' fid ps' = rows_in e fid ps ++ [(ref, rec)] ->
  rows_of_table e' fid ps' (vss ++ [v]) = rows_of_table e fid ps vss ++ [mkRow 0 ref v].
Proof. intros Hd E. unfold rows_of_table. rewrite E, zip_with_app by (by apply list.Forall2_length in Hd). done. Qed.
Lemma served_after bound e e' t ps ps' vss ents ht size size' ref rec v bound' n : served bound e t ps vss ents ht size -> db_env e' n -> 0 < n ->
  holding bound' e' (tfile_id t) (cols t) ps' (vss ++ [v]) -> rows_in e' (tfile_id t) ps' = rows_in e (tfile_id t) ps ++ [(ref, rec)] -> Forall2 value_ok (col_types t) v ->
  Forall (has_all t ps' (rows_of_table e (tfile_id t) ps vss) (mkRow 0 ref v) ht bound' e' size') ents ->
  served bound' e' t ps' (vss ++ [v]) ents (S ht) (size' + length ps' + length vss + 3)%nat.
Proof.
  intros [S1 S2 S3 S4 S5 S6 S7] Hd Hn Hh Hr Hv Hi. pose proof Hh as [H1 H2 H3 H4]. split; [by eapply db_read_env|done|done|done| | |].
  - apply Forall_app_2; [done|]. by apply Forall_cons_2; [|apply Forall_nil_2].
  - rewrite length_app. cbn [length]. lia.
  - rewrite (rows_of_snoc e e' _ ps ps' (cols t) vss ref rec v S4 Hr). eapply Forall_impl; [|exact Hi]. intros ent (c & b & es & Ho). exists c, b, es. eapply index_more; [| |exact Ho]; lia.
Qed.
(** db_index, read in the state after the row's insertion. *)
Lemma indexes_run fuel bound n c t ps vss ents ht size e1 b1 : in_step fuel bound n c t ps vss ents ht size -> 2 <= n -> db_step (eq (tfile_id t)) b1 (engine c) e1 ->
  b1 kIndexMetaId = bound kIndexMetaId -> db_env e1 n ->
  exists s, table_indexes fuel (table_id t) (set_engine e1 c) = (Ok ents, set_engine (set_pool s e1) c) /\ calm b1 e1 s.
Proof.
  intros [P1 P2 P3 P4 (qs & wss & M1 & M2 & M3) P6] Hn Hst Hb Hd. apply list.NoDup_cons in P2 as [Hni _]. apply not_elem_of_cons in Hni as [Hni _].
  destruct (db_step_holding (eq (tfile_id t)) bound b1 (engine c) e1 kIndexMetaId (index_cols c) qs wss Hst (not_eq_sym Hni) Hb M1) as [Hh1 Hr1].
  pose proof Hh1 as [H1 H2 [H3 _] H4]. pose proof (db_read_env b1 e1 n _ _ _ _ Hd ltac:(lia) Hh1) as Hre.
  destruct (scan_where_ok (index_of (table_id t)) e1 kIndexMetaId (b1 kIndexMetaId) (index_cols c) qs wss fuel ents Hre (proj1 H1) H3 H4 M2) as (s & E & R1 & R2).
  { rewrite Hr1. exact M3. }
  exists s. split; [|by apply (reads_calm b1 e1 kIndexMetaId)]. unfold table_indexes. rewrite run_gets. exact (on_engine_run _ (set_engine e1 c) _ _ E).
Qed.
Lemma insert_in_step fuel bound n c t ps vss ents ht size vs : in_step fuel bound n c t ps vss ents ht size -> Z.of_nat ht + 4 <= n ->
  Forall (fun v => wf_box (box v)) vs -> bound (tfile_id t) + 2 < 2 ^ 32 -> Forall (fun ent => bound (ix_file_id ent) + Z.of_nat ht + 3 < 2 ^ 32) ents ->
  (encode_row (cols t) vs = Ok None -> insert fuel t vs c = (Raise ValueMismatch, c)) /\
  (fits (cols t) vs -> exists id c' bound' ps' size', insert fuel t vs c = (Ok id, c') /\
    in_step fuel bound' n c' t ps' (vss ++ [inserted (cols t) vs]) ents (S ht) size' /\ (forall g, bound' g <= bound g + Z.of_nat ht + 2) /\
    apart (tfile_id t :: (ix_file_id <$> ents)) bound c bound' c').
Proof.
  intros Hin Hn Hw Hb Hbs. pose proof Hin as [P1 P2 P3 P4 P5 P6]. pose proof (served_holding _ _ _ _ _ _ _ _ P6) as Hh. set (fid := tfile_id t) in *.
  assert (fid ∉ dropped (engine c)) as Hlive by (apply P3; right; left). split.
  { intros He. pose proof (db_row_env bound (engine c) n fid (cols t) ps vss P1 ltac:(lia) Hlive Hh) as Hre. unfold insert, insert_row_in, on_engine. rewrite run_match.
    unfold insert_row. rewrite (run_bind _ _ _ _ _ (check_txn_ok (engine c) fid _ Hre)). rewrite He. rewrite (run_bind _ _ _ None (engine c)) by done. by destruct c. }
  intros Hfit. destruct (held_insert bound (engine c) n fid (cols t) ps vss P1 ltac:(lia) Hh vs Hlive P4 Hfit Hb) as (id & ref & rec & e1 & ps1 & I1 & I2 & I3 & I4 & I5 & I6 & I7 & I8).
  set (b1 := bump bound fid 2) in *. assert (db_step (eq fid) b1 (engine c) e1) as Hst by (eapply row_db_step; [exact I4|unfold b1; rewrite bump_here; lia]).
  assert (NoDup (fid :: (ix_file_id <$> ents)) /\ kIndexMetaId <> fid /\ kIndexMetaId ∉ ix_file_id <$> ents) as (Hnd & Hni & Hnx).
  { apply list.NoDup_cons in P2 as [[X1 X2]%not_elem_of_cons X3]. done. }
  destruct (indexes_run fuel bound n c t ps vss ents ht size e1 b1 Hin ltac:(lia) Hst ltac:(by apply bump_other) I2) as (s & E2 & Hc). set (e2 := set_pool s e1) in *.
  pose proof (calm_db_step b1 e1 s Hc) as Hq. destruct (calm_env b1 e1 s n I2 Hc) as [D1 D2]. fold e2 in D1, D2, Hq.
  destruct (new_place bound (engine c) e1 t ps ps1 vss vs ref rec I5 I6) as (no & N1 & N2 & N3 & N4 & N5).
  assert (forall q, 0 <= q -> page_of e2 fid q = page_of e1 fid q) as Hpg by (intros q Hq0; by apply (calm_page b1 e1 s)).
  set (r := mkRow 0 ref (inserted (cols t) vs)). set (rows := rows_of_table (engine c) fid ps vss).
  destruct (index_rows_run n t ps1 rows vs r ht Hn) with (ents := ents) (bound := b1) (c := set_engine e2 c) (fuel := size) as (e3 & b3 & size3 & J1 & J2 & J3 & J4 & J5 & J6 & J7 & J8);
    cbn [rref r]; rewrite ?N3; cbn [file_id Types.page_no]; try done.
  { lia. }
  { exact (old_refs bound (engine c) e1 t ps vss ents ht size ref rec P6 I7). }
  { intros q Hqs. destruct I5 as [H1 H2 [H3 _] _]. destruct (table_page e1 fid _ H2 (proj1 H1) ps1 q H3 Hqs). lia. }
  { intros ent Hent. cbn [engine set_engine]. rewrite D2, I3. apply P3. do 2 right. by apply list_elem_of_fmap_2. }
  { apply list.Forall_forall. intros ent Hent. rewrite list.Forall_forall in Hbs. cbn [engine set_engine].
    apply (index_lacks bound (engine c) e1 t ps ps1 vss ents ht size vs ref rec P6 I7 I5 I8 I6 Hst Hfit P4 ent Hent); [|by apply Hbs|done].
    intros E. apply list.NoDup_cons in Hnd as [X _]. apply X. fold fid. fold fid in E. rewrite <- E. by apply list_elem_of_fmap_2. }
  { cbn [engine set_engine]. rewrite Hpg by lia. done. }
  cbn [engine set_engine] in *. exists id, (set_engine e3 c), b3, ps1, (size3 + length ps1 + length vss + 3)%nat.
  assert (forall g cs qs wss, g ∉ ix_file_id <$> ents -> holding b1 e1 g cs qs wss -> holding b3 e3 g cs qs wss /\ rows_in e3 g qs = rows_in e1 g qs) as Hlate.
  { intros g cs qs wss Hg H. destruct (calm_holding b1 e1 s g cs qs wss Hc H) as [H1 R1]. fold e2 in H1, R1. rewrite <- R1. by apply (db_step_holding _ b1 b3 e2 e3 g cs qs wss J7 Hg); [apply J5|]. }
  assert (forall g cs qs wss, g <> fid -> g ∉ ix_file_id <$> ents -> holding bound (engine c) g cs qs wss -> holding b3 e3 g cs qs wss /\ rows_in e3 g qs = rows_in (engine c) g qs) as Hall.
  { intros g cs qs wss Hg1 Hg2 H. destruct (db_step_holding (eq fid) bound b1 (engine c) e1 g cs qs wss Hst (not_eq_sym Hg1) ltac:(by apply bump_other) H) as [H1 R1].
    rewrite <- R1. by apply (Hlate g cs qs wss). }
  destruct (Hlate fid (cols t) ps1 (vss ++ [inserted (cols t) vs])) as [Hh3 Hr3]; [by apply list.NoDup_cons in Hnd as [X _]|done|].
  split; [|split].
  - unfold insert, insert_row_in. run (on_engine_run (insert_row fid (cols t) vs) c _ _ I1). run E2. run J1. by destruct c.
  - split; cbn [engine set_engine index_cols]; [done|done|by intros f Hf; rewrite J4, D2, I3; apply P3|done| |].
    + destruct P5 as (qs & wss & M1 & M2 & M3). destruct (Hall kIndexMetaId (index_cols c) qs wss Hni Hnx M1) as [H1 R1]. exists qs, wss.
      split; [done|]. split; [done|]. unfold rows_of_table. rewrite R1. exact M3.
    + apply (served_after bound (engine c) e3 t ps ps1 vss ents ht size size3 ref rec (inserted (cols t) vs) b3 n P6 J3 ltac:(lia) Hh3); [fold fid; by rewrite Hr3, I6|by apply fits_typed|exact J2].
  - split; [|split; cbn [engine set_engine]; [done|by rewrite J4, D2, I3|intros g [Hg1 Hg2]%not_elem_of_cons; rewrite J5 by done; by apply bump_other|
      intros g cs qs wss [Hg1 Hg2]%not_elem_of_cons H; by apply Hall]].
    intros g. pose proof (J6 g). destruct (decide (g = fid)) as [->|Hg]; [rewrite J5 by (by apply list.NoDup_cons in Hnd as [X _]); unfold b1; rewrite bump_here; lia|].
    unfold b1 in *. rewrite bump_other in * by done. lia.
Qed.
(** ** A new index *)
Lemma init_index_ok bound e n f : db_env e n -> 2 <= n -> f ∉ dropped e -> within (pool e) f 0 -> bound f = 0 ->
  exists e', init_index_file f e = (Ok tt, e') /\ tree_held (reset bound f 2) e' f (mkTree f 1 2) 0 [] 1 [1] /\ db_env e' n /\ dropped e' = dropped e /\
    db_step (eq f) (reset bound f 2) e e'.
Proof.
  intros Hd Hn Hf Hw Hb. pose proof Hd as [D1 D2 [c Dc] D4]. unfold init_index_file.
  assert (check_txn f e = (Ok tt, e)) as Hck.
  { unfold check_txn. rewrite run_gets, Dc. destruct (existsb (Z.eqb f) (pending_drops c)) eqn:E; [|done]. apply existsb_exists in E as (y & Hy & E). destruct Hf.
    apply Z.eqb_eq in E. subst y. unfold dropped. rewrite Dc. by apply list_elem_of_In. }
  run Hck. rewrite run_modify. set (m := <[f := mkTree f 0 0]> (delete f (trees e))). unfold treed at 1. rewrite run_match. cbn [trees set_trees pool set_pool].
  unfold m at 1. rewrite lookup_insert_eq.
  destruct (create_ok (mkTS (pool e) (mkTree f 0 0))) as (s1 & C1 & C2 & C3 & C4 & C5 & C6); [split; [done|split; [done|by exists c]]|done|cbn [store]; lia|].
  rewrite C1. cbn [store tree] in *. change (tree_file (mkTree f 0 0)) with f in *. set (e1 := set_trees _ _).
  destruct (flush_session ∅ s1 (proj1 C3) (mkPid f 1)) as (s2 & G1 & G2 & G3 & G4); [apply not_elem_of_empty|].
  exists (set_pool s2 e1). split; [by rewrite (stored_ok (flush (mkPid f 1)) e1 _ _ G1)|].
  assert (db_step (eq f) (reset bound f 2) e e1) as Hs1.
  { split; cbn [pool set_trees set_pool trees tail_pages e1]; [|done|apply C3| |done].
    - eapply evolves_weaken; [exact C5| |]; intros p [H1 H2]; [done|]. cbn in H1. rewrite H1, reset_here. exact H2.
    - intros g Hg. unfold e1, m. cbn. rewrite !lookup_insert_ne by (intros ->; by apply Hg). by rewrite lookup_delete_ne by (intros ->; by apply Hg). }
  assert (db_step (fun _ => False) (reset bound f 2) e1 (set_pool s2 e1)) as Hs2.
  { split; [|done|done|done|done]. eapply evolves_weaken; [exact G3|by intros ? []|by intros ? []]. }
  assert (db_step (eq f) (reset bound f 2) e (set_pool s2 e1)) as Hs by (eapply db_step_trans; [exact Hs1|eapply db_step_weaken; [exact Hs2|by intros ? []|done]]).
  split; [|split; [|split; [|exact Hs]]].
  - eapply (db_step_tree _ _ _ e1); [exact Hs2|by intros []|done|]. split; cbn [trees set_trees pool set_pool e1]; rewrite ?reset_here; [unfold e1; cbn; by rewrite lookup_insert_eq|exact C2|done|done].
  - by destruct (db_step_env _ _ _ _ _ Hd Hs).
  - by destruct (db_step_env _ _ _ _ _ Hd Hs).
Qed.

(** * The witnesses *)
(** A database in a transaction: db_index (file 5), the table account (file 7) and an index on its column id (file 8), listed in db_index. *)
Definition index_meta_cols : list ColumnSpec := [big_col "table_id"; name_col "index_name" true; int_col "col_ordinal"; big_col "file_id"].
Definition account : TableMeta := mkMeta 20001 7 "account" account_cols.
Definition wide_catalog : Catalog := mkCat (Engine.begin_txn (engine_new 8 ∅ [])).2 9 20002 2 false 0 index_meta_cols [].
Lemma fresh_empty f : f <> 0 -> fresh_file (fun _ => 0) (engine wide_catalog) f.
Proof.
  intros Hf. split; [|done|done|apply not_elem_of_nil]. split; [done|]. intros p j Hp. change ((∅ : gmap PageId nat) !! p = Some j) in Hp. by rewrite lookup_empty in Hp.
Qed.
Lemma wide_env : db_env (engine wide_catalog) 8.
Proof. split; [|done|by eexists|done]. destruct (pool_new_ok 8 ∅ (wal_new []) ltac:(lia)). by split. Qed.
Lemma index_row_fits tid name ordinal fid : name_too_long name = false -> Z.of_nat ordinal <= INT32_MAX -> fits index_meta_cols (index_meta_row tid name ordinal fid).
Proof.
  intros Hs Ho. pose proof (name_bound name Hs) as Hb. assert (INT32_MIN <= 0) by done. apply row_fits; [repeat first [apply Forall_nil_2 | apply Forall_cons_2]; auto using big_col_ok, int_col_ok, name_col_ok| |done| |].
  - unfold index_meta_row. constructor; [apply to_i64_range|]. constructor; [apply text_wf|]. constructor; [cbn; unfold INT32_MAX, INT64_MIN, INT64_MAX in *; lia|]. constructor; [apply to_i64_range|constructor].
  - unfold all_storable, index_meta_cols, index_meta_row. cbn [zip_with forallb]. by rewrite !big_storable, name_storable, int_storable by (done || lia).
  - unfold index_meta_cols, index_meta_row. rewrite !fields_cons, !zlen_app, !big_field, int_field, name_field.
    change (zlen (fields [] [])) with 0. change (bitmap_len _) with 1. unfold MAX_RECORD_LEN, PAGE_SIZE, PAGE_HEADER_SIZE, SLOT_SIZE. lia.
Qed.
Lemma index_meta_cols_ok : Forall col_ok index_meta_cols.
Proof. repeat first [apply Forall_nil_2 | apply Forall_cons_2]; auto using big_col_ok, int_col_ok, name_col_ok. Qed.
Lemma account_cols_ok : Forall col_ok account_cols.
Proof. repeat first [apply Forall_nil_2 | apply Forall_cons_2]; (split; [apply seed_ok; cbn; tauto|cbn; unfold UINT16_MAX; lia]). Qed.
Lemma demo_in_step : exists c bound ref, in_step 10 bound 8 c account [] [] [mkIndex "by_id" 0 8 ref] 0 10 /\ bound 7 <= 1 /\ bound 8 <= 2.
Proof.
  destruct (init_table_run 8 ltac:(lia) (fun _ => 0) wide_catalog 5 index_meta_cols wide_env (fresh_empty 5 ltac:(done))) as (e1 & _ & A2 & A3 & A4 & A5). set (b1 := bump (fun _ => 0) 5 1) in *.
  assert (fresh_file b1 e1 7 /\ fresh_file b1 e1 8) as [F7 F8].
  { split; [apply (fresh_step (eq 5) (fun _ => 0) b1 (engine wide_catalog) e1 7 A5)|apply (fresh_step (eq 5) (fun _ => 0) b1 (engine wide_catalog) e1 8 A5)]; [done|done|exact A3|by apply fresh_empty|done|done|exact A3|by apply fresh_empty]. }
  destruct (init_table_run 8 ltac:(lia) b1 (set_engine e1 wide_catalog) 7 account_cols A2 F7) as (e2 & _ & B2 & B3 & B4 & B5). set (b2 := bump b1 7 1) in *. cbn [engine set_engine] in B5, B3.
  assert (fresh_file b2 e2 8) as G8 by (apply (fresh_step (eq 7) b1 b2 e1 e2 8 B5); [done|done|exact B3|exact F8]).
  destruct (init_index_ok b2 e2 8 8 B2 ltac:(lia) (ff_live _ _ _ G8) (ff_within _ _ _ G8) eq_refl) as (e3 & _ & C2 & C3 & C4 & C5). set (b3 := reset b2 8 2) in *.
  destruct (db_step_holding _ b1 b2 _ _ 5 _ _ _ B5 ltac:(done) eq_refl A4) as [A6 _]. destruct (db_step_holding _ b2 b3 _ _ 5 _ _ _ C5 ltac:(done) eq_refl A6) as [A7 R7].
  destruct (db_step_holding _ b2 b3 _ _ 7 _ _ _ C5 ltac:(done) eq_refl B4) as [B6 _].
  assert (dropped e3 = []) as D3 by (rewrite C4, B3, A3; reflexivity).
  destruct (held_insert b3 e3 8 5 index_meta_cols [] [] C3 ltac:(lia) A7 (index_meta_row 20001 "by_id" 0 8)) as (id & ref & rec & e4 & ps & _ & E1 & E2 & E3 & E4 & E5 & _);
    [rewrite D3; apply not_elem_of_nil|apply index_meta_cols_ok|by apply index_row_fits|done|]. set (b4 := bump b3 5 2) in *.
  assert (db_step (eq 5) b4 e3 e4) as Hst by (eapply row_db_step; [exact E3|done]).
  destruct (db_step_holding _ b3 b4 _ _ 7 _ _ _ Hst ltac:(done) eq_refl B6) as [B7 R8]. pose proof (db_step_tree _ b3 b4 _ _ 8 _ _ _ _ _ Hst ltac:(done) eq_refl C2) as [T1 T2 T3 T4].
  exists (set_engine e4 wide_catalog), b4, ref. split; [|done]. split; cbn [engine set_engine index_cols wide_catalog].
  - exact E1.
  - apply (bool_decide_unpack _). by vm_compute.
  - intros f _. rewrite E2, D3. apply not_elem_of_nil.
  - exact account_cols_ok.
  - exists ps, [inserted index_meta_cols (index_meta_row 20001 "by_id" 0 8)]. split; [exact E4|].
    pose proof E4 as [H1 H2 [H3 _] _]. pose proof (table_short e4 5 _ ps H2 (proj1 H1) H3) as Hl. change (b4 5) with 3 in Hl. unfold zlen in Hl. cbn [length]. split; [lia|].
    pose proof A7 as [_ _ _ R]. apply list.Forall2_nil_inv_r in R. unfold rows_of_table. change kIndexMetaId with 5. rewrite E5, R. cbn [app zip_with]. by vm_compute.
  - pose proof B7 as [H1 H2 H3 H4]. split; [by apply (db_read_env b4 e4 8 7 account_cols [] []); [exact E1|lia|exact B7]|exact H1|exact H3|exact H4|constructor| |].
    + pose proof (table_short e4 7 _ [] H2 (proj1 H1) (proj1 H3)). cbn. lia.
    + apply Forall_cons_2; [|apply Forall_nil_2]. eexists _, (mkTree 8 1 2), []. split; [reflexivity|vm_compute; tauto|exact T1| |exact T3|exact T4| |constructor].
      * exists 0%nat, 1, [1]. split; [exact T2|]. cbn. lia.
      * apply list.Forall2_nil_inv_r in H4. unfold rows_of_table. cbn [tfile_id account]. rewrite H4. constructor.
Qed.

Definition ann : list Value := [int_val kInt 1; text_val "ann"; null_val].
Lemma ann_fits : fits account_cols ann.
Proof.
  apply row_fits; [exact account_cols_ok| |done|by vm_compute|by vm_compute].
  apply Forall_cons_2; [by split|]. apply Forall_cons_2; [|apply Forall_cons_2; [done|apply Forall_nil_2]]. exact (text_wf "ann").
Qed.
(** * The property *)
(** C14. Rows and indexes stay in step: [Catalog::insert] of a row that fits stores the row and adds its entry to every index db_index lists
    for the table, splitting pages as needed, so that the table has its old rows and the new one, every index again holds an entry for every
    row (the contract under which the planner uses indexes), no file grows by more pages than the height of the trees and two, and everything
    else in the database stays; a row that does not
    suit the columns is refused and changes nothing. *)
Theorem insert_keeps_indexes fuel bound n c t ps vss ents ht size vs : in_step fuel bound n c t ps vss ents ht size -> Z.of_nat ht + 4 <= n ->
  Forall (fun v => wf_box (box v)) vs -> bound (tfile_id t) + 2 < 2 ^ 32 -> Forall (fun ent => bound (ix_file_id ent) + Z.of_nat ht + 3 < 2 ^ 32) ents ->
  (encode_row (cols t) vs = Ok None -> insert fuel t vs c = (Raise ValueMismatch, c)) /\
  (fits (cols t) vs -> exists id c' bound' ps' size', insert fuel t vs c = (Ok id, c') /\
    in_step fuel bound' n c' t ps' (vss ++ [inserted (cols t) vs]) ents (S ht) size' /\ (forall g, bound' g <= bound g + Z.of_nat ht + 2) /\
    apart (tfile_id t :: (ix_file_id <$> ents)) bound c bound' c').
Proof. apply insert_in_step. Qed.
Lemma insert_keeps_indexes_witness : exists c bound ref, let ents := [mkIndex "by_id" 0 8 ref] in in_step 10 bound 8 c account [] [] ents 0 10 /\
  insert 10 account [null_val] c = (Raise ValueMismatch, c) /\
  exists id c' bound' ps' size', insert 10 account ann c = (Ok id, c') /\ in_step 10 bound' 8 c' account ps' [inserted account_cols ann] ents 1 size'.
Proof.
  destruct demo_in_step as (c & bound & ref & H & H7 & H8). exists c, bound, ref. split; [exact H|]. split.
  - apply (insert_keeps_indexes 10 bound 8 c account [] [] [mkIndex "by_id" 0 8 ref] 0 10 [null_val] H); [lia|repeat constructor|cbn; lia| |by vm_compute].
    apply Forall_cons_2; [cbn; lia|apply Forall_nil_2].
  - destruct (insert_keeps_indexes 10 bound 8 c account [] [] [mkIndex "by_id" 0 8 ref] 0 10 ann H) as [_ Hi]; [lia|apply ann_fits|cbn; lia| |].
    { apply Forall_cons_2; [cbn; lia|apply Forall_nil_2]. }
    destruct (Hi ann_fits) as (id & c' & bound' & ps' & size' & E1 & E2 & _). by exists id, c', bound', ps', size'.
Defined.
