(* ===== verification/Proto.v ===== *)
(** The wire protocol (src/proto/proto.h): the encoders append to a byte string, the decoders move a cursor over one;
    a class states that a decoder accepts exactly what its encoder writes, and frames cross a socket that delivers
    its bytes in any pieces. *)
From S2P Require Import Prelude.

(** * Encoders *)
(** [for (int i = n - 1; i >= 0; --i) out.push_back((v >> (i * 8)) & 0xff)] *)
Fixpoint append_be (n : nat) (out : bytes) (v : Z) : bytes :=
  match n with O => out | S n => append_be n (out ++ [Z.land (Z.shiftr v (Z.of_nat n * 8)) 0xff]) v end.
Definition append_u16 (out : bytes) (v : Z) : bytes := out ++ [Z.land (Z.shiftr v 8) 0xff; Z.land v 0xff].
Definition append_u32 : bytes -> Z -> bytes := append_be 4.
Definition append_u64 : bytes -> Z -> bytes := append_be 8.

(** A cell holds its floating-point number as the bit pattern that [memcpy] moves. *)
Inductive CellVal :=
| CellNull
| CellBool (b : bool)
| CellInt (i : Z)
| CellDouble (bits : Z)
| CellFloat (bits : Z)
| CellString (s : bytes)
| CellDecimal (digits : bytes) (scale : Z).
Definition CELL_NULL : Z := 0.
Definition CELL_INT : Z := 1.
Definition CELL_DOUBLE : Z := 2.
Definition CELL_STRING : Z := 3.
Definition CELL_BOOL : Z := 4.
Definition CELL_FLOAT : Z := 5.
Definition CELL_DECIMAL : Z := 6.
Definition RS_BATCH_MAX_ROWS : Z := 256.

Definition append_cell (out : bytes) (cell : CellVal) : bytes :=
  match cell with
  | CellInt i => append_u64 (out ++ [CELL_INT]) (wrap 64 i)
  | CellDouble bits => append_u64 (out ++ [CELL_DOUBLE]) bits
  | CellString s => append_u16 (out ++ [CELL_STRING]) (wrap 16 (zlen s)) ++ s
  | CellBool b => out ++ [CELL_BOOL] ++ [if b then 1 else 0]
  | CellFloat bits => append_u32 (out ++ [CELL_FLOAT]) bits
  | CellDecimal digits scale => out ++ [CELL_DECIMAL] ++ digits ++ [scale]
  | CellNull => out ++ [CELL_NULL]
  end.
Definition encode_rs_head (cols : list bytes) : bytes :=
  fold_left (fun body col => append_u16 body (wrap 16 (zlen col)) ++ col) cols (append_u32 [] (wrap 32 (zlen cols))).
Definition encode_rs_batch (rows : list (list CellVal)) : bytes :=
  fold_left (fun body row => fold_left append_cell row body) rows (append_u32 [] (wrap 32 (zlen rows))).
Definition encode_rs_end (row_count : Z) : bytes := append_u64 [] row_count.

(** * Decoders *)
(** The cursor: the value read and the offset after it, or a failure. *)
Definition take_u16 (body : bytes) (off : Z) : option (Z * Z) :=
  if off + 2 >? zlen body then None
  else match slice off 2 body with
  | [b; c] => Some (Z.lor (wrap 16 (Z.shiftl b 8)) c, off + 2)
  | _ => None
  end.
(** [for (i = 0; i < n; ++i) v = (v << 8) | body[off + i]] in [8 * n] bits. *)
Definition be_fold (n : Z) (bs : bytes) : Z := fold_left (fun v b => Z.lor (wrap (8 * n) (Z.shiftl v 8)) b) bs 0.
Definition take_be (n : Z) (body : bytes) (off : Z) : option (Z * Z) :=
  if off + n >? zlen body then None else Some (be_fold n (slice off n body), off + n).
Definition take_u32 : bytes -> Z -> option (Z * Z) := take_be 4.
Definition take_u64 : bytes -> Z -> option (Z * Z) := take_be 8.
Definition take_bytes (n : Z) (body : bytes) (off : Z) : option (bytes * Z) :=
  if off + n >? zlen body then None else Some (slice off n body, off + n).
Definition take_byte (body : bytes) (off : Z) : option (Z * Z) :=
  '(one, off) ← take_bytes 1 body off; Some (default 0 (head one), off).

Definition take_cell (body : bytes) (off : Z) : option (CellVal * Z) :=
  '(tag, off) ← take_byte body off;
  if tag =? CELL_INT then '(bits, off) ← take_u64 body off; Some (CellInt (sgn 64 bits), off)
  else if tag =? CELL_DOUBLE then '(bits, off) ← take_u64 body off; Some (CellDouble bits, off)
  else if tag =? CELL_STRING then
    '(len, off) ← take_u16 body off;
    '(text, off) ← take_bytes len body off;
    Some (CellString text, off)
  else if tag =? CELL_BOOL then
    '(b, off) ← take_byte body off;
    if b >? 1 then None else Some (CellBool (negb (b =? 0)), off)
  else if tag =? CELL_FLOAT then '(bits, off) ← take_u32 body off; Some (CellFloat bits, off)
  else if tag =? CELL_DECIMAL then
    '(b, off) ← take_bytes 16 body off;
    '(scale, off) ← take_byte body off;
    Some (CellDecimal b scale, off)
  else if tag =? CELL_NULL then Some (CellNull, off)
  else None.
(** A loop of [n] reads: what was read, and the cursor if none failed. *)
Fixpoint take_all {A} (n : nat) (take : bytes -> Z -> option (A * Z)) (body : bytes) (off : Z) : list A * option Z :=
  match n with
  | O => ([], Some off)
  | S n =>
      match take body off with
      | None => ([], None)
      | Some (x, off) => let '(xs, r) := take_all n take body off in (x :: xs, r)
      end
  end.
(** The output argument as the decoder leaves it, and what it returns. *)
Definition take_name (body : bytes) (off : Z) : option (bytes * Z) :=
  '(len, off) ← take_u16 body off; take_bytes len body off.
Definition decode_rs_head (body : bytes) : list bytes * bool :=
  match take_u32 body 0 with
  | None => ([], false)
  | Some (n, off) =>
      let '(cols, r) := take_all (Z.to_nat n) take_name body off in
      (cols, match r with Some off => off =? zlen body | None => false end)
  end.
Definition take_row (col_count : Z) (body : bytes) (off : Z) : option (list CellVal * Z) :=
  let '(row, r) := take_all (Z.to_nat col_count) take_cell body off in
  off ← r; Some (row, off).
Definition decode_rs_batch (body : bytes) (col_count : Z) (out : list (list CellVal)) : list (list CellVal) * bool :=
  match take_u32 body 0 with
  | None => (out, false)
  | Some (n, off) =>
      let '(rows, r) := take_all (Z.to_nat n) (take_row col_count) body off in
      (out ++ rows, match r with Some off => off =? zlen body | None => false end)
  end.
Definition decode_rs_end (body : bytes) : option Z :=
  if negb (zlen body =? 8) then None else Some (be_fold 8 body).

(** ** Command tags, errors, notices *)
Inductive CommandTag :=
| TagEmpty | TagCreateTable | TagDropTable | TagInsert | TagDelete | TagCreateSchema | TagDropSchema | TagSet | TagBegin | TagCommit
| TagRollback | TagCreateIndex | TagDropIndex | TagUpdate.
Definition all_tags : list CommandTag :=
  [TagEmpty; TagCreateTable; TagDropTable; TagInsert; TagDelete; TagCreateSchema; TagDropSchema; TagSet; TagBegin; TagCommit;
   TagRollback; TagCreateIndex; TagDropIndex; TagUpdate].
#[export] Instance CommandTag_eq_dec : EqDecision CommandTag.
Proof. solve_decision. Defined.
(** The enumerators are numbered from 0. *)
Definition tag_code (t : CommandTag) : Z :=
  match t with
  | TagEmpty => 0 | TagCreateTable => 1 | TagDropTable => 2 | TagInsert => 3 | TagDelete => 4 | TagCreateSchema => 5 | TagDropSchema => 6
  | TagSet => 7 | TagBegin => 8 | TagCommit => 9 | TagRollback => 10 | TagCreateIndex => 11 | TagDropIndex => 12 | TagUpdate => 13
  end.
Definition tag_of (c : Z) : option CommandTag := List.find (fun t => tag_code t =? c) all_tags.
Definition encode_command (tag : CommandTag) (count : Z) : bytes := append_u64 [tag_code tag] count.
Definition decode_command (body : bytes) : option (CommandTag * Z) :=
  if negb (zlen body =? 9) then None
  else
    tag ← tag_of (default 0 (head body));
    Some (tag, be_fold 8 (slice 1 8 body)).

(** The wire's error codes: an enumeration of their own, with numbers that leave gaps. *)
Module Wire.
Inductive WireErrCode :=
| IoError | CatalogMissing | CatalogExists | InvalidType | TableNotFound | TableExists | SchemaNotFound | SchemaExists | SchemaNotEmpty
| ProtectedTable | InvalidDdl | ValueMismatch | RecordTooLong | ArithError | UnknownColumn | UnknownVar | UnknownStmt | NotImplemented
| Internal | SyntaxError | TxnActive | NoActiveTxn | DdlInTxn | BootstrapMode | TooManyClients | InvalidVarValue | IndexExists | IndexNotFound
| StarNoFrom | UnknownFunction.
Definition wire_code (c : WireErrCode) : Z :=
  match c with
  | IoError => 1 | CatalogMissing => 3 | CatalogExists => 4 | InvalidType => 6 | TableNotFound => 7 | TableExists => 8 | SchemaNotFound => 9
  | SchemaExists => 10 | SchemaNotEmpty => 11 | ProtectedTable => 12 | InvalidDdl => 13 | ValueMismatch => 14 | RecordTooLong => 15
  | ArithError => 16 | UnknownColumn => 17 | UnknownVar => 18 | UnknownStmt => 19 | NotImplemented => 20 | Internal => 21 | SyntaxError => 22
  | TxnActive => 23 | NoActiveTxn => 24 | DdlInTxn => 25 | BootstrapMode => 26 | TooManyClients => 27 | InvalidVarValue => 28
  | IndexExists => 29 | IndexNotFound => 30 | StarNoFrom => 31 | UnknownFunction => 32
  end.
Definition all_wire_codes : list WireErrCode :=
  [IoError; CatalogMissing; CatalogExists; InvalidType; TableNotFound; TableExists; SchemaNotFound; SchemaExists; SchemaNotEmpty; ProtectedTable;
   InvalidDdl; ValueMismatch; RecordTooLong; ArithError; UnknownColumn; UnknownVar; UnknownStmt; NotImplemented; Internal; SyntaxError; TxnActive;
   NoActiveTxn; DdlInTxn; BootstrapMode; TooManyClients; InvalidVarValue; IndexExists; IndexNotFound; StarNoFrom; UnknownFunction].
Definition wire_of (v : Z) : option WireErrCode := List.find (fun c => wire_code c =? v) all_wire_codes.
End Wire.
Definition encode_error (code : Wire.WireErrCode) (message : bytes) : bytes := append_u16 [] (Wire.wire_code code) ++ message.
Definition decode_error (body : bytes) : option (Wire.WireErrCode * bytes) :=
  '(v, off) ← take_u16 body 0;
  c ← Wire.wire_of v;
  Some (c, drop (Z.to_nat off) body).

Definition NOTICE_LEVEL_MAX : Z := 9.
Definition encode_notice (level : Z) (message : bytes) : bytes := [level] ++ message.
Definition decode_notice (body : bytes) : option (Z * bytes) :=
  match body with
  | [] => None
  | level :: message => if level >? NOTICE_LEVEL_MAX then None else Some (level, message)
  end.

(** * Frames *)
Definition MAX_REQUEST_PAYLOAD : Z := 268435456.
Definition FRAME_HEADER_SIZE : Z := 4.
Inductive MsgType := MsgQuery | MsgOk | MsgError | MsgResultSetHead | MsgResultSetBatch | MsgResultSetEnd | MsgNotice.
Definition msg_code (t : MsgType) : Z :=
  match t with
  | MsgQuery => 1 | MsgOk => 2 | MsgError => 3 | MsgResultSetHead => 4 | MsgResultSetBatch => 5 | MsgResultSetEnd => 6 | MsgNotice => 7
  end.
(** What [recv] and [send] of a stream socket return; 0 bytes received: the peer has closed. *)
Inductive RecvResult := Received (bs : bytes) | RecvInterrupted | RecvFailed.
Inductive SendResult := Sent (n : Z) | SendInterrupted | SendFailed.
Class Socket (S : Type) := { recv : Z -> S -> RecvResult * S; send : bytes -> S -> SendResult * S }.

Section socket.
Context {S : Type} `{Socket S}.
(** [None]: the [fuel], which bounds the calls, is used up. *)
Fixpoint recv_exact (fuel : nat) (len : Z) (s : S) : option (option bytes * S) :=
  if len <=? 0 then Some (Some [], s)
  else match fuel with
  | O => None
  | Datatypes.S fuel =>
      match recv len s with
      | (Received bs, s) =>
          if is_nil bs then Some (None, s)
          else '(r, s) ← recv_exact fuel (len - zlen bs) s;
            Some (match r with Some rest => Some (bs ++ rest) | None => None end, s)
      | (RecvInterrupted, s) => recv_exact fuel len s
      | (RecvFailed, s) => Some (None, s)
      end
  end.
Fixpoint send_exact (fuel : nat) (buf : bytes) (s : S) : option (bool * S) :=
  if zlen buf <=? 0 then Some (true, s)
  else match fuel with
  | O => None
  | Datatypes.S fuel =>
      match send buf s with
      | (Sent n, s) => send_exact fuel (drop (Z.to_nat n) buf) s
      | (SendInterrupted, s) => send_exact fuel buf s
      | (SendFailed, s) => Some (false, s)
      end
  end.
(** The first byte of the payload is the type, whatever its value; [max_payload] 0 is no limit. *)
Definition recv_frame (fuel : nat) (max_payload : Z) (s : S) : option (option (Z * bytes) * S) :=
  '(h, s) ← recv_exact fuel FRAME_HEADER_SIZE s;
  match h with
  | None => Some (None, s)
  | Some h =>
      let len := be_fold 4 h in
      if (len <? 1) || (negb (max_payload =? 0) && (len >? max_payload)) then Some (None, s)
      else
        '(p, s) ← recv_exact fuel len s;
        Some (match p with Some (t :: body) => Some (t, body) | _ => None end, s)
  end.
Definition frame_bytes (type : Z) (body : bytes) : bytes := append_u32 [] (wrap 32 (1 + wrap 32 (zlen body))) ++ [type] ++ body.
Definition send_frame (fuel : nat) (type : Z) (body : bytes) (s : S) : option (bool * S) := send_exact fuel (frame_bytes type body) s.
End socket.

(** * Big-endian integers *)
Definition be_bytes (n : nat) (v : Z) : bytes := rev (le_bytes n v).
Lemma zlen_be_bytes n v : zlen (be_bytes n v) = Z.of_nat n.
Proof. unfold be_bytes, zlen. by rewrite length_rev, length_le_bytes. Qed.
Lemma be_bytes_ok n v : Forall byte_ok (be_bytes n v).
Proof. apply Forall_rev, le_bytes_ok. Qed.
Lemma be_bytes_S n v : be_bytes (S n) v = be_bytes n (v / 256) ++ [v mod 256].
Proof. done. Qed.
Lemma append_be_eq n : forall out v, append_be n out v = out ++ be_bytes n v.
Proof.
  (* the highest byte first *)
  assert (forall n v, be_bytes (S n) v = (v / 256 ^ Z.of_nat n) mod 256 :: be_bytes n v) as Hb.
  { intros m; induction m as [|m IH]; intros v; [cbn; by rewrite Z.div_1_r|]. rewrite be_bytes_S, IH, be_bytes_S. cbn [app]. f_equal. f_equal.
    rewrite Z.div_div by lia. f_equal. rewrite Nat2Z.inj_succ, Z.pow_succ_r by lia. lia. }
  induction n as [|n IH]; intros out v; cbn [append_be]; [by rewrite app_nil_r|].
  rewrite IH, Hb, <- app_assoc. cbn [app]. do 3 f_equal. rewrite land_ones8, Z.shiftr_div_pow2 by lia. do 2 f_equal.
  rewrite Z.mul_comm, Z.pow_mul_r by lia. done.
Qed.
Lemma append_u16_eq out v : append_u16 out v = out ++ be_bytes 2 v.
Proof. unfold append_u16. rewrite !land_ones8, Z.shiftr_div_pow2 by lia. done. Qed.
Lemma be_fold_snoc n bs b : be_fold n (bs ++ [b]) = Z.lor (wrap (8 * n) (Z.shiftl (be_fold n bs) 8)) b.
Proof. unfold be_fold. by rewrite fold_left_app. Qed.
Lemma be_fold_val n bs : Forall byte_ok bs -> zlen bs <= n -> be_fold n bs = le_val (rev bs).
Proof.
  induction bs as [|b bs IH] using rev_ind; [done|]. intros [Hb Hc]%Forall_app Hn. rewrite zlen_app in Hn. change (zlen [b]) with 1 in Hn.
  pose proof (zlen_nonneg bs) as Hz. rewrite be_fold_snoc, IH by (done || lia). rewrite rev_unit. cbn [le_val]. apply Forall_cons_1 in Hc as [Hc _]. unfold byte_ok in Hc.
  assert (0 <= le_val (rev bs) < 256 ^ zlen bs) as Hv.
  { replace (zlen bs) with (zlen (rev bs)) by (unfold zlen; by rewrite length_rev). apply le_val_bound. by apply Forall_rev. }
  rewrite wrap_small.
  - rewrite Z.lor_comm, lor_shiftl_add by lia. lia.
  - rewrite Z.shiftl_mul_pow2 by lia. change (2 ^ 8) with 256. replace (2 ^ (8 * n)) with (256 ^ n) by (by rewrite Z.pow_mul_r by lia).
    assert (256 ^ zlen bs * 256 <= 256 ^ n); [|nia]. rewrite Z.mul_comm, <- Z.pow_succ_r by apply zlen_nonneg. apply Z.pow_le_mono_r; lia.
Qed.
Lemma be_fold_bytes n v : 0 <= v < 256 ^ Z.of_nat n -> be_fold (Z.of_nat n) (be_bytes n v) = v.
Proof.
  intros Hv. rewrite be_fold_val; [|apply be_bytes_ok|by rewrite zlen_be_bytes]. unfold be_bytes. rewrite rev_involutive. by apply le_val_bytes_small.
Qed.
Lemma be_bytes_fold n bs : Forall byte_ok bs -> zlen bs = Z.of_nat n -> be_bytes n (be_fold (Z.of_nat n) bs) = bs.
Proof.
  intros Hb Hl. rewrite be_fold_val by (done || lia). unfold be_bytes. rewrite le_bytes_val; [by rewrite rev_involutive| |by apply Forall_rev].
  rewrite length_rev. unfold zlen in Hl. lia.
Qed.

(** * What stands at an offset *)
(** [bs] is what [body] holds from [off] up to [off']. *)
Definition stands (body : bytes) (off : Z) (bs : bytes) (off' : Z) : Prop :=
  exists pre suf, body = pre ++ bs ++ suf /\ off = zlen pre /\ off' = off + zlen bs.
Lemma stands_app body off bs cs off' : stands body off (bs ++ cs) off' <-> exists m, stands body off bs m /\ stands body m cs off'.
Proof.
  split.
  - intros (pre & suf & -> & -> & ->). exists (zlen pre + zlen bs). split; [exists pre, (cs ++ suf)|exists (pre ++ bs), suf].
    + by rewrite <- app_assoc.
    + rewrite !zlen_app, <- !app_assoc. split_and!; [done|done|lia].
  - intros (m & (pre & suf & -> & -> & ->) & (pre' & suf' & E & Hm & ->)). exists pre, suf'. rewrite app_assoc in E.
    apply app_inj_1 in E as [<- ->]; [|unfold zlen in *; rewrite length_app; lia]. rewrite zlen_app, <- !app_assoc. split_and!; [done|done|lia].
Qed.
Lemma stands_bounds body off bs off' : stands body off bs off' -> 0 <= off /\ off' = off + zlen bs /\ off' <= zlen body.
Proof.
  intros (pre & suf & -> & -> & ->). rewrite !zlen_app. pose proof (zlen_nonneg pre). pose proof (zlen_nonneg suf). lia.
Qed.
Lemma stands_slice body off n : 0 <= off -> 0 <= n -> off + n <= zlen body -> stands body off (slice off n body) (off + n).
Proof.
  intros Ho Hn Hl. exists (slice 0 off body), (drop (Z.to_nat (off + n)) body). unfold slice. rewrite drop_0.
  replace (Z.to_nat (off + n)) with (Z.to_nat off + Z.to_nat n)%nat by lia. rewrite <- drop_drop, take_drop, take_drop. unfold zlen in *.
  rewrite !length_take, length_drop. split_and!; [done|lia|lia].
Qed.
Lemma stands_is body off bs off' : stands body off bs off' <-> 0 <= off /\ off' = off + zlen bs /\ off' <= zlen body /\ slice off (zlen bs) body = bs.
Proof.
  split.
  - intros H. destruct (stands_bounds _ _ _ _ H) as (? & ? & ?). split_and!; try done. destruct H as (pre & suf & -> & -> & _).
    rewrite slice_tail by done. by apply slice_app_l.
  - intros (H1 & -> & H2 & H3). pose proof (stands_slice body off (zlen bs) H1 (zlen_nonneg bs) H2) as H. by rewrite H3 in H.
Qed.
Lemma stands_nil body off off' : stands body off [] off' <-> 0 <= off <= zlen body /\ off' = off.
Proof.
  change (stands body off [] off') with (stands body off (@nil Z) off'). assert (zlen (@nil Z) = 0) as Hz by done.
  split; [intros H%stands_bounds; lia|]. intros [H ->]. apply stands_is. rewrite Hz. split_and!; [lia..|done].
Qed.
Lemma stands_det body off bs bs' m m' : stands body off bs m -> stands body off bs' m' -> zlen bs = zlen bs' -> bs = bs' /\ m = m'.
Proof. intros (_ & -> & _ & H1)%stands_is (_ & -> & _ & H2)%stands_is E. rewrite E in *. by rewrite H1 in H2. Qed.

(** * Decoders that accept exactly what their encoders write *)
Class Wire {A} (put : A -> bytes) (ok : A -> Prop) (take : bytes -> Z -> option (A * Z)) := {
  wire_bytes x : ok x -> Forall byte_ok (put x);
  wire_exact body off x off' : Forall byte_ok body -> 0 <= off <= zlen body ->
    take body off = Some (x, off') <-> ok x /\ stands body off (put x) off' }.
Lemma wire_bytes_n n : 0 <= n -> Wire id (fun bs => zlen bs = n /\ Forall byte_ok bs) (take_bytes n).
Proof.
  intros Hn. split; [by intros x []|]. intros body off x off' Hb Ho. unfold take_bytes, id. destruct (Z.gtb_spec (off + n) (zlen body)).
  - split; [done|]. intros [[<- _] Hst%stands_bounds]. lia.
  - split.
    + intros [= <- <-]. split; [split; [by rewrite zlen_slice by lia|by apply Forall_slice]|]. apply stands_slice; lia.
    + intros [[<- _] (_ & -> & _ & E)%stands_is]. by rewrite E.
Qed.
Lemma wire_be n : Wire (be_bytes n) (fun v => 0 <= v < 256 ^ Z.of_nat n) (take_be (Z.of_nat n)).
Proof.
  split; [intros; apply be_bytes_ok|]. intros body off x off' Hb Ho. unfold take_be. destruct (Z.gtb_spec (off + Z.of_nat n) (zlen body)).
  - split; [done|]. intros [_ Hst%stands_bounds]. rewrite zlen_be_bytes in Hst. lia.
  - assert (zlen (slice off (Z.of_nat n) body) = Z.of_nat n) as Hl by (by rewrite zlen_slice by lia).
    assert (Forall byte_ok (slice off (Z.of_nat n) body)) as Hs by (by apply Forall_slice). split.
    + intros [= <- <-]. split.
      * rewrite be_fold_val by (done || lia). set (bs := slice _ _ _) in *. rewrite <- Hl. replace (zlen bs) with (zlen (rev bs)) by (unfold zlen; by rewrite length_rev).
        apply le_val_bound. by apply Forall_rev.
      * rewrite be_bytes_fold by done. apply stands_slice; lia.
    + intros [Hv (_ & -> & _ & E)%stands_is]. rewrite zlen_be_bytes in *. rewrite E. by rewrite be_fold_bytes.
Qed.
#[export] Instance wire_u64 : Wire (be_bytes 8) (fun v => 0 <= v < 2 ^ 64) take_u64.
Proof. exact (wire_be 8). Qed.
#[export] Instance wire_u32 : Wire (be_bytes 4) (fun v => 0 <= v < 2 ^ 32) take_u32.
Proof. exact (wire_be 4). Qed.
#[export] Instance wire_u16 : Wire (be_bytes 2) (fun v => 0 <= v < 2 ^ 16) take_u16.
Proof.
  destruct (wire_be 2) as [W1 W2]. split; [done|]. intros body off x off' Hb Ho. rewrite <- (W2 body off x off' Hb Ho).
  unfold take_u16, take_be. change (Z.of_nat 2) with 2. destruct (Z.gtb_spec (off + 2) (zlen body)); [done|].
  assert (zlen (slice off 2 body) = 2) as Hl by (by rewrite zlen_slice by lia).
  destruct (slice off 2 body) as [|b [|c [|d l]]] eqn:E; try (unfold zlen in Hl; cbn in Hl; lia).
  done.
Qed.
Lemma wire_byte : Wire (fun b => [b]) byte_ok take_byte.
Proof.
  destruct (wire_bytes_n 1 ltac:(lia)) as [W1 W2]. split; [intros x Hx; by apply Forall_singleton|]. intros body off x off' Hb Ho. unfold take_byte. rewrite bind_Some. split.
  - intros ([one o] & H & E). apply W2 in H as [[Hl Ho1] Hs]; [|done..]. destruct one as [|b [|c l]]; try (unfold zlen in Hl; cbn in Hl; lia).
    cbn in E. injection E as <- <-. split; [by apply Forall_cons_1 in Ho1 as [? _]|exact Hs].
  - intros [Hx Hs]. exists ([x], off'). split; [|done]. apply W2; [done..|]. split; [split; [done|by apply Forall_singleton]|exact Hs].
Qed.
#[export] Existing Instance wire_byte.

(** One read after another: a cursor law for the composed decoder. *)
Lemma wire_then {A B C} (putA : A -> bytes) okA takeA (putB : A -> B -> bytes) (okB : A -> B -> Prop) (takeB : A -> bytes -> Z -> option (B * Z))
    (mk : A -> B -> C) (put : C -> bytes) (ok : C -> Prop) :
  Wire putA okA takeA -> (forall a, okA a -> Wire (putB a) (okB a) (takeB a)) ->
  (forall c, ok c -> exists a b, c = mk a b /\ okA a /\ okB a b) -> (forall a b, okA a -> okB a b -> ok (mk a b)) ->
  (forall a b, okA a -> okB a b -> put (mk a b) = putA a ++ putB a b) ->
  (forall a b a' b', mk a b = mk a' b' -> okA a -> okB a b -> okA a' -> okB a' b' -> a = a' /\ b = b') ->
  Wire put ok (fun body off => '(a, off) ← takeA body off; '(b, off) ← takeB a body off; Some (mk a b, off)).
Proof.
  intros WA WB Hsplit Hmk Hput Hinj. split.
  - intros c (a & b & -> & Ha & Hb)%Hsplit. rewrite Hput by done. apply Forall_app. split; [by apply WA|by apply (WB a Ha)].
  - intros body off c off' Hbd Ho. rewrite bind_Some. split.
    + intros ([a m] & H1 & H2). apply WA in H1 as [Ha H1]; [|done..]. pose proof (stands_bounds _ _ _ _ H1) as Hm.
      apply bind_Some in H2 as ([b m'] & H2 & [= <- <-]). apply (WB a Ha) in H2 as [Hb H2]; [|done|pose proof (zlen_nonneg (putA a)); lia].
      split; [by apply Hmk|]. rewrite Hput by done. apply stands_app. by exists m.
    + intros [(a & b & -> & Ha & Hb)%Hsplit Hs]. rewrite Hput in Hs by done. apply stands_app in Hs as (m & H1 & H2).
      pose proof (stands_bounds _ _ _ _ H1) as Hm. exists (a, m). split; [by apply WA|]. apply bind_Some. exists (b, off'). split; [|done].
      apply (WB a Ha); [done|pose proof (zlen_nonneg (putA a)); lia|done].
Qed.
(** [n] reads of one decoder. *)
Lemma wire_all {A} (put : A -> bytes) ok take : Wire put ok take -> forall n body off xs off', Forall byte_ok body -> 0 <= off <= zlen body ->
  take_all n take body off = (xs, Some off') <-> (length xs = n /\ Forall ok xs /\ stands body off (concat (put <$> xs)) off').
Proof.
  intros W n; induction n as [|n IH]; intros body off xs off' Hb Ho; cbn [take_all].
  - split.
    + intros [= <- <-]. split_and!; [done|done|]. apply stands_nil. done.
    + intros (Hl & _ & Hs). destruct xs; [|done]. cbn in Hs. by apply stands_nil in Hs as [_ ->].
  - split.
    + destruct (take body off) as [[x m]|] eqn:E; [|done]. apply W in E as [Hx Hs]; [|done..]. pose proof (stands_bounds _ _ _ _ Hs) as Hm.
      destruct (take_all n take body m) as [ys r] eqn:E'. intros [= <- ->]. apply IH in E' as (Hl & Hys & Hs'); [|done|pose proof (zlen_nonneg (put x)); lia].
      split_and!; [cbn; by rewrite Hl|by constructor|]. cbn [fmap list_fmap concat]. apply stands_app. by exists m.
    + intros (Hl & Hx & Hs). destruct xs as [|x xs]; [done|]. apply Forall_cons_1 in Hx as [Hx Hxs]. cbn [fmap list_fmap concat] in Hs.
      apply stands_app in Hs as (m & H1 & H2). pose proof (stands_bounds _ _ _ _ H1) as Hm.
      rewrite (proj2 (wire_exact body off x m Hb Ho)) by done.
      rewrite (proj2 (IH body m xs off' Hb ltac:(pose proof (zlen_nonneg (put x)); lia))); [done|]. split_and!; [|done|done]. by injection Hl.
Qed.
(** The same decoder in other words; a value in other words. *)
Lemma wire_map {A B} (putA : A -> bytes) okA takeA (f : A -> B) (g : B -> A) (okB : B -> Prop) (putB : B -> bytes) (takeB : bytes -> Z -> option (B * Z)) :
  Wire putA okA takeA -> (forall b, okB b -> okA (g b) /\ f (g b) = b /\ putB b = putA (g b)) -> (forall a, okA a -> okB (f a) /\ g (f a) = a) ->
  (forall body off, takeB body off = '(a, off) ← takeA body off; Some (f a, off)) -> Wire putB okB takeB.
Proof.
  intros W Hg Hf Ht. split.
  - intros b (H1 & _ & ->)%Hg. by apply W.
  - intros body off b off' Hb Ho. rewrite Ht, bind_Some. split.
    + intros ([a m] & H1 & [= <- <-]). apply W in H1 as [Ha H1]; [|done..]. destruct (Hf a Ha) as [Hok Hga]. split; [done|].
      destruct (Hg _ Hok) as (_ & _ & ->). by rewrite Hga.
    + intros [Hok Hs]. destruct (Hg b Hok) as (Ha & Hfb & Hput). exists (g b, off'). split; [|by rewrite Hfb]. apply W; [done..|]. by rewrite <- Hput.
Qed.
Definition text_ok (s : bytes) : Prop := zlen s <= UINT16_MAX /\ Forall byte_ok s.
Definition put_text (s : bytes) : bytes := append_u16 [] (wrap 16 (zlen s)) ++ s.
Lemma put_text_eq s : text_ok s -> put_text s = be_bytes 2 (zlen s) ++ s.
Proof. intros [Hl _]. unfold put_text. rewrite append_u16_eq. rewrite wrap_small; [done|]. pose proof (zlen_nonneg s). unfold UINT16_MAX in Hl. lia. Qed.
Lemma text_len s : text_ok s -> 0 <= zlen s < 2 ^ 16.
Proof. intros [Hl _]. pose proof (zlen_nonneg s). unfold UINT16_MAX in Hl. lia. Qed.
Lemma opt_eta {A B} (o : option (A * B)) : ('(a, b) ← o; Some (a, b)) = o.
Proof. by destruct o as [[]|]. Qed.
#[export] Instance wire_name : Wire put_text text_ok take_name.
Proof.
  assert (Wire put_text text_ok (fun body off => '(a, off) ← take_u16 body off; '(b, off) ← take_bytes a body off; Some ((fun (_ : Z) b => b) a b, off))) as W.
  { apply (wire_then (be_bytes 2) (fun v => 0 <= v < 2 ^ 16) take_u16 (fun _ => id) (fun n bs => zlen bs = n /\ Forall byte_ok bs)).
    - apply wire_u16.
    - intros a Ha. apply wire_bytes_n. lia.
    - intros s Hs. exists (zlen s), s. split_and!; try done; try (by apply text_len in Hs; lia). apply Hs.
    - intros a b Ha [<- Hb]. split; [unfold UINT16_MAX; lia|done].
    - intros a b Ha [<- Hb]. rewrite put_text_eq; [done|]. split; [unfold UINT16_MAX; lia|done].
    - intros a b a' b' -> _ [<- _] _ [<- _]. done. }
  split; [apply W|]. intros body off x off' Hb Ho. rewrite <- (wire_exact body off x off' Hb Ho). unfold take_name.
  destruct (take_u16 body off) as [[n m]|]; [|done]. cbn [mbind option_bind]. by rewrite opt_eta.
Qed.

(** ** Cells *)
Definition cell_ok (c : CellVal) : Prop :=
  match c with
  | CellNull | CellBool _ => True
  | CellInt i => INT64_MIN <= i <= INT64_MAX
  | CellDouble bits => 0 <= bits < 2 ^ 64
  | CellFloat bits => 0 <= bits < 2 ^ 32
  | CellString s => text_ok s
  | CellDecimal digits scale => (zlen digits = 16 /\ Forall byte_ok digits) /\ byte_ok scale
  end.
Definition cell_tag (c : CellVal) : Z :=
  match c with
  | CellNull => CELL_NULL | CellBool _ => CELL_BOOL | CellInt _ => CELL_INT | CellDouble _ => CELL_DOUBLE | CellFloat _ => CELL_FLOAT
  | CellString _ => CELL_STRING | CellDecimal _ _ => CELL_DECIMAL
  end.
Definition cell_payload (c : CellVal) : bytes :=
  match c with
  | CellNull => []
  | CellBool b => [if b then 1 else 0]
  | CellInt i => be_bytes 8 (wrap 64 i)
  | CellDouble bits => be_bytes 8 bits
  | CellFloat bits => be_bytes 4 bits
  | CellString s => put_text s
  | CellDecimal digits scale => digits ++ [scale]
  end.
Lemma append_cell_eq out c : append_cell out c = out ++ [cell_tag c] ++ cell_payload c.
Proof.
  destruct c; cbn [append_cell cell_tag cell_payload]; unfold append_u64, append_u32, put_text; rewrite ?append_be_eq, ?append_u16_eq, ?app_nil_l, <- ?app_assoc; done.
Qed.
(** What [take_cell] does after the tag. *)
Definition take_payload (tag : Z) (body : bytes) (off : Z) : option (CellVal * Z) :=
  if tag =? CELL_INT then '(bits, off) ← take_u64 body off; Some (CellInt (sgn 64 bits), off)
  else if tag =? CELL_DOUBLE then '(bits, off) ← take_u64 body off; Some (CellDouble bits, off)
  else if tag =? CELL_STRING then '(text, off) ← take_name body off; Some (CellString text, off)
  else if tag =? CELL_BOOL then '(b, off) ← take_byte body off; if b >? 1 then None else Some (CellBool (negb (b =? 0)), off)
  else if tag =? CELL_FLOAT then '(bits, off) ← take_u32 body off; Some (CellFloat bits, off)
  else if tag =? CELL_DECIMAL then '(b, off) ← take_bytes 16 body off; '(scale, off) ← take_byte body off; Some (CellDecimal b scale, off)
  else if tag =? CELL_NULL then Some (CellNull, off)
  else None.
Notation tagged tag := (fun c => cell_ok c /\ cell_tag c = tag).
Lemma sgn64_bits i : INT64_MIN <= i <= INT64_MAX -> sgn 64 (wrap 64 i) = i.
Proof. apply sgn64_wrap. Qed.
Lemma sgn64_range v : 0 <= v < 2 ^ 64 -> INT64_MIN <= sgn 64 v <= INT64_MAX /\ wrap 64 (sgn 64 v) = v.
Proof.
  intros Hv. unfold sgn. rewrite wrap_small by done. unfold INT64_MIN, INT64_MAX. destruct (Z.ltb_spec v (2 ^ (64 - 1))).
  - split; [lia|by apply wrap_small].
  - split; [lia|]. unfold wrap. replace (v - 2 ^ 64) with (v + (-1) * 2 ^ 64) by lia. rewrite Z.mod_add by lia. by apply Z.mod_small.
Qed.
Lemma wire_payload tag : Wire cell_payload (tagged tag) (take_payload tag).
Proof.
  unfold take_payload. destruct (Z.eqb_spec tag CELL_INT) as [->|N1].
  { apply (wire_map (be_bytes 8) (fun v => 0 <= v < 2 ^ 64) take_u64 (fun v => CellInt (sgn 64 v)) (fun c => match c with CellInt i => wrap 64 i | _ => 0 end)); [apply _| | |done].
    - intros [] [H E]; try done. cbn [cell_ok cell_tag] in *. cbv beta iota. split; [by apply wrap_bound|split; [f_equal; by apply sgn64_wrap|done]].
    - intros v Hv. destruct (sgn64_range v Hv). by split_and!. }
  destruct (Z.eqb_spec tag CELL_DOUBLE) as [->|N2].
  { apply (wire_map (be_bytes 8) (fun v => 0 <= v < 2 ^ 64) take_u64 CellDouble (fun c => match c with CellDouble v => v | _ => 0 end)); [apply _| | |done].
    - by intros [] [H E].
    - done. }
  destruct (Z.eqb_spec tag CELL_STRING) as [->|N3].
  { apply (wire_map put_text text_ok take_name CellString (fun c => match c with CellString v => v | _ => [] end)); [apply _| | |done].
    - by intros [] [H E].
    - done. }
  destruct (Z.eqb_spec tag CELL_BOOL) as [->|N4].
  { pose proof (wire_byte) as [_ W]. split; [intros [] [H E]; try done; apply Forall_singleton; by destruct b|]. intros body off c off' Hb Ho. rewrite bind_Some. split.
    - intros ([b m] & H1 & H2). apply W in H1 as [Hbo H1]; [|done..]. unfold byte_ok in Hbo. destruct (Z.gtb_spec b 1); [done|]. injection H2 as <- <-.
      split; [done|]. assert (b = 0 \/ b = 1) as [-> | ->] by lia; exact H1.
    - intros [[H E] Hs]. destruct c; try done. exists (if b then 1 else 0, off'). split; [apply W; [done..|]; split; [by destruct b|exact Hs]|by destruct b]. }
  destruct (Z.eqb_spec tag CELL_FLOAT) as [->|N5].
  { apply (wire_map (be_bytes 4) (fun v => 0 <= v < 2 ^ 32) take_u32 CellFloat (fun c => match c with CellFloat v => v | _ => 0 end)); [apply _| | |done].
    - by intros [] [H E].
    - done. }
  destruct (Z.eqb_spec tag CELL_DECIMAL) as [->|N6].
  { apply (wire_then id (fun bs => zlen bs = 16 /\ Forall byte_ok bs) (take_bytes 16) (fun _ b => [b]) (fun _ => byte_ok) (fun _ => take_byte) CellDecimal).
    - by apply wire_bytes_n.
    - intros _ _. apply _.
    - intros [] [H E]; try done. destruct H. by eexists _, _.
    - done.
    - done.
    - by intros ? ? ? ? [= -> ->]. }
  destruct (Z.eqb_spec tag CELL_NULL) as [->|N7].
  - split; [by intros [] [H E]|]. intros body off c off' Hb Ho. split.
    + intros [= <- <-]. split; [done|]. by apply stands_nil.
    + intros [[H E] Hs]. destruct c; try done. by apply stands_nil in Hs as [_ ->].
  - split; [intros [] [H E]; by subst|]. intros body off c off' Hb Ho. split; [done|]. intros [[H E] _]. destruct c; cbn in E; congruence.
Qed.
#[export] Instance wire_cell : Wire (append_cell []) cell_ok take_cell.
Proof.
  assert (Wire (append_cell []) cell_ok (fun body off => '(a, off) ← take_byte body off; '(b, off) ← take_payload a body off; Some ((fun (_ : Z) c => c) a b, off))) as W.
  { apply (wire_then (fun b => [b]) byte_ok take_byte (fun _ => cell_payload) (fun t => tagged t)).
    - apply _.
    - intros a _. apply wire_payload.
    - intros c Hc. exists (cell_tag c), c. split_and!; try done. by destruct c.
    - by intros a b _ [].
    - intros a b _ [_ <-]. by rewrite append_cell_eq.
    - intros a b a' b' -> _ [_ <-] _ [_ <-]. done. }
  split; [apply W|]. intros body off x off' Hb Ho. rewrite <- (wire_exact body off x off' Hb Ho). unfold take_cell.
  destruct (take_byte body off) as [[t m]|]; [|done]. change (mbind ?f (Some ?x)) with (f x). cbv beta iota.
  rewrite opt_eta. unfold take_payload, take_name. repeat (destruct (t =? _); [|]); try done.
  destruct (take_u16 body m) as [[n m']|]; [|done]. cbn. by destruct (take_bytes n body m') as [[]|].
Qed.

(** ** Bodies *)
Lemma fold_app {A} (put : A -> bytes) (f : bytes -> A -> bytes) : (forall out x, f out x = out ++ put x) ->
  forall l out, fold_left f l out = out ++ concat (put <$> l).
Proof.
  intros Hf l; induction l as [|x l IH]; intros out; cbn [fold_left fmap list_fmap concat]; [by rewrite app_nil_r|].
  rewrite IH, Hf. by rewrite <- app_assoc.
Qed.
Lemma encode_rs_head_eq cols : encode_rs_head cols = be_bytes 4 (wrap 32 (zlen cols)) ++ concat (put_text <$> cols).
Proof.
  unfold encode_rs_head, append_u32. rewrite append_be_eq. apply (fold_app put_text). intros out x. unfold put_text.
  rewrite !append_u16_eq, app_nil_l. by rewrite <- app_assoc.
Qed.
Definition put_row (row : list CellVal) : bytes := concat (append_cell [] <$> row).
Lemma encode_rs_batch_eq rows : encode_rs_batch rows = be_bytes 4 (wrap 32 (zlen rows)) ++ concat (put_row <$> rows).
Proof.
  unfold encode_rs_batch, append_u32. rewrite append_be_eq. apply (fold_app put_row). intros out x. unfold put_row.
  apply (fold_app (append_cell [])). intros out' c. by rewrite !append_cell_eq.
Qed.
Definition row_ok (n : Z) (row : list CellVal) : Prop := zlen row = n /\ Forall cell_ok row.
Lemma wire_row n : 0 <= n -> Wire put_row (row_ok n) (take_row n).
Proof.
  intros Hn. split.
  - intros row [_ H]. unfold put_row. induction H as [|c row Hc _ IH]; [done|]. cbn [fmap list_fmap concat]. apply Forall_app. split; [by apply wire_cell|done].
  - intros body off row off' Hb Ho. unfold take_row. pose proof (wire_all _ _ _ wire_cell (Z.to_nat n) body off row off' Hb Ho) as W.
    unfold row_ok, put_row, zlen in *. destruct (take_all (Z.to_nat n) take_cell body off) as [xs r]. split.
    + destruct r as [m|]; [|done]. cbn. intros [= <- <-]. destruct (proj1 W eq_refl) as (Hl & H1 & H2). split_and!; [lia|done|done].
    + intros [[Hl H1] H2]. assert ((xs, r) = (row, Some off')) as [= -> ->]; [|done]. apply W. split_and!; [lia|done|done].
Qed.
(** A counted sequence that fills the body. *)
Lemma counted_exact {A} (put : A -> bytes) ok take (enc : list A -> bytes) (dec : bytes -> list A * bool) : Wire put ok take ->
  (forall xs, enc xs = be_bytes 4 (wrap 32 (zlen xs)) ++ concat (put <$> xs)) ->
  (forall body, dec body = match take_u32 body 0 with None => ([], false) | Some (n, off) =>
     let '(xs, r) := take_all (Z.to_nat n) take body off in (xs, match r with Some off => off =? zlen body | None => false end) end) ->
  forall body xs, Forall byte_ok body -> dec body = (xs, true) <-> Forall ok xs /\ zlen xs < 2 ^ 32 /\ body = enc xs.
Proof.
  intros W Henc Hdec body xs Hb. rewrite Hdec, Henc. pose proof (zlen_nonneg xs) as Hz. pose proof (zlen_nonneg body) as Hz'.
  pose proof (fun n off => wire_exact (put := be_bytes 4) body 0 n off Hb ltac:(lia)) as W32. split.
  - destruct (take_u32 body 0) as [[n off]|]; [|done]. destruct (proj1 (W32 n off) eq_refl) as [Hn H1]. pose proof (stands_bounds _ _ _ _ H1) as Hm.
    rewrite zlen_be_bytes in Hm. destruct (take_all (Z.to_nat n) take body off) as [ys r] eqn:E. intros [= -> Hr]. destruct r as [m|]; [|done].
    apply Z.eqb_eq in Hr as ->. apply (wire_all _ _ _ W) in E as (Hl & Hx & H2); [|done|lia]. assert (n = zlen xs) as -> by (unfold zlen; lia).
    split_and!; [done|lia|]. rewrite wrap_small by lia. assert (stands body 0 (be_bytes 4 (zlen xs) ++ concat (put <$> xs)) (zlen body)) as (_ & E & _ & Hs)%stands_is by (apply stands_app; by exists off).
    rewrite Z.add_0_l in E. rewrite <- E in Hs. by rewrite slice_full in Hs.
  - intros (Hx & Hl & E). rewrite wrap_small in E by lia. assert (stands body 0 (be_bytes 4 (zlen xs) ++ concat (put <$> xs)) (zlen body)) as Hs.
    { rewrite <- E. exists [], []. by rewrite app_nil_r. }
    apply stands_app in Hs as (m & H1 & H2). pose proof (stands_bounds _ _ _ _ H1) as Hm. rewrite zlen_be_bytes in Hm. pose proof (stands_bounds _ _ _ _ H2) as Hm'.
    pose proof (zlen_nonneg (concat (put <$> xs))). rewrite (proj2 (W32 (zlen xs) m)) by (split; [lia|done]).
    rewrite (proj2 (wire_all _ _ _ W (Z.to_nat (zlen xs)) body m xs (zlen body) Hb ltac:(lia))); [by rewrite Z.eqb_refl|].
    split_and!; [unfold zlen; lia|done|done].
Qed.
Lemma decode_head_exact body cols : Forall byte_ok body ->
  decode_rs_head body = (cols, true) <-> Forall text_ok cols /\ zlen cols < 2 ^ 32 /\ body = encode_rs_head cols.
Proof. intros Hb. by apply (counted_exact put_text text_ok take_name _ _ wire_name encode_rs_head_eq). Qed.
Lemma decode_batch_exact body n out rows : Forall byte_ok body -> 0 <= n ->
  decode_rs_batch body n out = (out ++ rows, true) <-> Forall (row_ok n) rows /\ zlen rows < 2 ^ 32 /\ body = encode_rs_batch rows.
Proof.
  intros Hb Hn. pose proof (counted_exact put_row (row_ok n) (take_row n) encode_rs_batch (fun b => decode_rs_batch b n []) (wire_row n Hn) encode_rs_batch_eq
    (fun _ => eq_refl) body rows Hb) as <-.
  unfold decode_rs_batch. destruct (take_u32 body 0) as [[m off]|]; [|by split].
  destruct (take_all _ _ _ _) as [xs r]. rewrite app_nil_l. split; [intros [= E ->]; f_equal|by intros [= -> ->]]. by apply app_inv_head in E.
Qed.
Lemma concat_bytes {A} (put : A -> bytes) ok take xs : Wire put ok take -> Forall ok xs -> Forall byte_ok (concat (put <$> xs)).
Proof. intros W. induction 1 as [|x xs Hx _ IH]; [constructor|]. cbn [fmap list_fmap concat]. apply Forall_app. split; [by apply W|done]. Qed.
Lemma head_bytes cols : Forall text_ok cols -> Forall byte_ok (encode_rs_head cols).
Proof. intros H. rewrite encode_rs_head_eq. apply Forall_app. split; [apply be_bytes_ok|]. by eapply concat_bytes; [apply wire_name|]. Qed.
Lemma batch_bytes n rows : 0 <= n -> Forall (row_ok n) rows -> Forall byte_ok (encode_rs_batch rows).
Proof. intros Hn H. rewrite encode_rs_batch_eq. apply Forall_app. split; [apply be_bytes_ok|]. by eapply concat_bytes; [apply (wire_row n Hn)|]. Qed.
Lemma tag_of_exact c t : tag_of c = Some t <-> c = tag_code t.
Proof.
  split; [intros [_ H]%List.find_some; lia|]. intros ->. by destruct t.
Qed.
Lemma wire_of_exact v c : Wire.wire_of v = Some c <-> v = Wire.wire_code c.
Proof.
  split; [intros [_ H]%List.find_some; lia|]. intros ->. by destruct c.
Qed.
Lemma tag_byte t : byte_ok (tag_code t).
Proof. by destruct t. Qed.
Lemma u64_exact bs v : Forall byte_ok bs -> (zlen bs = 8 /\ be_fold 8 bs = v) <-> (0 <= v < 2 ^ 64 /\ bs = be_bytes 8 v).
Proof.
  intros Hb. split.
  - intros [Hl <-]. split; [|symmetry; by apply (be_bytes_fold 8)]. rewrite be_fold_val by (done || lia).
    replace (2 ^ 64) with (256 ^ zlen (rev bs)) by (unfold zlen in *; rewrite length_rev, Hl; done). apply le_val_bound. by apply Forall_rev.
  - intros [Hv ->]. split; [apply zlen_be_bytes|]. by apply (be_fold_bytes 8).
Qed.
Lemma decode_end_exact body n : Forall byte_ok body -> decode_rs_end body = Some n <-> 0 <= n < 2 ^ 64 /\ body = encode_rs_end n.
Proof.
  intros Hb. unfold decode_rs_end, encode_rs_end, append_u64. rewrite append_be_eq, app_nil_l, <- u64_exact by done.
  destruct (Z.eqb_spec (zlen body) 8); cbn [negb]; [|by split; [done|intros []]]. split; [by intros [= ->]|by intros [_ ->]].
Qed.
Lemma decode_command_exact body tag n : Forall byte_ok body -> decode_command body = Some (tag, n) <-> 0 <= n < 2 ^ 64 /\ body = encode_command tag n.
Proof.
  intros Hb. unfold decode_command, encode_command, append_u64. rewrite append_be_eq. destruct (Z.eqb_spec (zlen body) 9) as [E|E]; cbn [negb].
  - destruct body as [|t bs]; [done|]. apply Forall_cons_1 in Hb as [Ht Hb]. rewrite zlen_cons in E. cbn [head default]. rewrite bind_Some.
    assert (slice 1 8 (t :: bs) = bs) as -> by (change (t :: bs) with ([t] ++ bs); rewrite slice_tail by done; apply slice_full; lia). split.
    + intros (tag' & Htag & [= -> Hn]). apply tag_of_exact in Htag. unfold id in Htag. subst t. destruct (proj1 (u64_exact bs n Hb)) as [Hv ->]; [split; [lia|done]|]. done.
    + intros [Hv [= -> ->]]. exists tag. split; [by apply tag_of_exact|]. do 2 f_equal. by apply (be_fold_bytes 8).
  - split; [done|]. intros [_ ->]. destruct E. rewrite zlen_app, zlen_be_bytes. done.
Qed.
Lemma decode_error_exact body c m : Forall byte_ok body -> decode_error body = Some (c, m) <-> body = encode_error c m.
Proof.
  intros Hb. unfold decode_error, encode_error. rewrite append_u16_eq, app_nil_l, bind_Some. pose proof (zlen_nonneg body) as Hz. split.
  - intros ([v off] & H1 & H2). apply wire_exact in H1 as [Hv Hs]; [|done|lia]. apply bind_Some in H2 as (c' & Hc & [= -> <-]). apply wire_of_exact in Hc as <-.
    destruct Hs as (pre & suf & -> & Hp & ->). destruct pre; [|unfold zlen in Hp; cbn in Hp; lia]. rewrite zlen_be_bytes. by rewrite app_nil_l, drop_app_length'.
  - intros ->. assert (0 <= Wire.wire_code c < 2 ^ 16) as Hc by (by destruct c). exists (Wire.wire_code c, 2). split.
    + apply wire_exact; [done|lia|]. split; [done|]. exists [], m. by rewrite zlen_be_bytes.
    + apply bind_Some. exists c. split; [by apply wire_of_exact|]. do 2 f_equal.
Qed.
Lemma decode_notice_exact body l m : Forall byte_ok body -> decode_notice body = Some (l, m) <-> 0 <= l <= NOTICE_LEVEL_MAX /\ body = encode_notice l m.
Proof.
  intros Hb. unfold decode_notice, encode_notice. destruct body as [|b bs]; [by split; [|intros [_ ?]]|]. apply Forall_cons_1 in Hb as [Hb0 _]. unfold byte_ok in Hb0.
  destruct (Z.gtb_spec b NOTICE_LEVEL_MAX); split; [done|intros [? [= -> ->]]; lia|intros [= -> ->]; split; [lia|done]|by intros [_ [= -> ->]]].
Qed.

(** ** Frames over a socket *)
(** [incoming s bs n]: the peer sends [bs] and then closes, and at most [n] more calls are interrupted; [outgoing]: what
    the peer has got, on a connection that does not break. *)
Class Stream (S : Type) `{Socket S} (incoming outgoing : S -> bytes -> nat -> Prop) := {
  stream_recv s bs n len : incoming s bs n -> 0 < len ->
    match recv len s with
    | (Received c, s') => exists rest, bs = c ++ rest /\ zlen c <= len /\ (c = [] -> bs = []) /\ incoming s' rest n
    | (RecvInterrupted, s') => exists k, (k < n)%nat /\ incoming s' bs k
    | (RecvFailed, _) => False
    end;
  stream_send s bs n buf : outgoing s bs n -> buf <> [] ->
    match send buf s with
    | (Sent k, s') => 0 < k <= zlen buf /\ outgoing s' (bs ++ take (Z.to_nat k) buf) n
    | (SendInterrupted, s') => exists k, (k < n)%nat /\ outgoing s' bs k
    | (SendFailed, _) => False
    end }.
Section frames.
Context {S : Type} `{Socket S} (incoming outgoing : S -> bytes -> nat -> Prop) `{Stream S incoming outgoing}.
Lemma recv_exact_ok fuel : forall s a rest n, incoming s (a ++ rest) n -> (length a + n <= fuel)%nat ->
  exists s' k, recv_exact fuel (zlen a) s = Some (Some a, s') /\ incoming s' rest k /\ (k <= n)%nat.
Proof using Type*.
  induction fuel as [|fuel IH]; intros s a rest n Hi Hf.
  - destruct a; [|cbn in Hf; lia]. by exists s, n.
  - cbn [recv_exact]. destruct (Z.leb_spec (zlen a) 0) as [Hz|Hz].
    + destruct a; [by exists s, n|]. rewrite zlen_cons in Hz. pose proof (zlen_nonneg a). lia.
    + pose proof (stream_recv s _ n (zlen a) Hi Hz) as Hr. destruct (recv (zlen a) s) as [[c| |] s']; [|destruct Hr as (k & Hk & Hr)|done].
      * destruct Hr as (rest' & E & Hl & He & Hr). destruct c as [|b c].
        { specialize (He eq_refl). apply app_eq_nil in He as [-> _]. done. }
        assert (exists a', a = (b :: c) ++ a' /\ rest' = a' ++ rest) as (a' & -> & ->).
        { apply app_eq_inv in E as [(k & E1 & E2)|(k & E1 & E2)]; [by exists k|]. exists []. rewrite E1, zlen_app in Hl. pose proof (zlen_nonneg k).
          destruct k; [|rewrite zlen_cons in Hl; pose proof (zlen_nonneg k); lia]. rewrite app_nil_r in *. by subst. }
        cbn [is_nil]. rewrite zlen_app. replace (zlen (b :: c) + zlen a' - zlen (b :: c)) with (zlen a') by lia.
        destruct (IH s' a' rest n Hr) as (s2 & k & -> & H2 & H3); [rewrite length_app in Hf; cbn in Hf; lia|]. by exists s2, k.
      * destruct (IH s' a rest k Hr) as (s2 & k2 & -> & H2 & H3); [lia|]. exists s2, k2. split_and!; [done|done|lia].
Qed.
Lemma recv_exact_short fuel : forall s bs n len, incoming s bs n -> zlen bs < len -> (length bs + n < fuel)%nat ->
  exists s', recv_exact fuel len s = Some (None, s').
Proof using Type*.
  induction fuel as [|fuel IH]; intros s bs n len Hi Hl Hf; [lia|]. cbn [recv_exact]. pose proof (zlen_nonneg bs). destruct (Z.leb_spec len 0); [lia|].
  pose proof (stream_recv s _ n len Hi ltac:(lia)) as Hr. destruct (recv len s) as [[c| |] s']; [|destruct Hr as (k & Hk & Hr)|done].
  - destruct Hr as (rest & -> & Hc & He & Hr). destruct c as [|b c]; [by exists s'|]. cbn [is_nil]. rewrite zlen_app in Hl. rewrite length_app in Hf. cbn in Hf.
    destruct (IH s' rest n (len - zlen (b :: c)) Hr) as (s2 & ->); [lia|lia|]. by exists s2.
  - apply (IH s' bs k len Hr); lia.
Qed.
Lemma send_exact_ok fuel : forall s bs buf n, outgoing s bs n -> (length buf + n <= fuel)%nat ->
  exists s' k, send_exact fuel buf s = Some (true, s') /\ outgoing s' (bs ++ buf) k /\ (k <= n)%nat.
Proof using Type*.
  induction fuel as [|fuel IH]; intros s bs buf n Ho Hf.
  - destruct buf; [|cbn in Hf; lia]. exists s, n. by rewrite app_nil_r.
  - cbn [send_exact]. destruct (Z.leb_spec (zlen buf) 0) as [Hz|Hz].
    + destruct buf; [exists s, n; by rewrite app_nil_r|]. rewrite zlen_cons in Hz. pose proof (zlen_nonneg buf). lia.
    + assert (buf <> []) as Hne by (by intros ->). pose proof (stream_send s bs n buf Ho Hne) as Hs. destruct (send buf s) as [[c| |] s']; [|destruct Hs as (k & Hk & Hs)|done].
      * destruct Hs as [Hc Hs]. unfold zlen in Hc. destruct (IH s' _ (drop (Z.to_nat c) buf) n Hs) as (s2 & k & -> & H2 & H3); [rewrite length_drop; lia|].
        exists s2, k. rewrite <- app_assoc, take_drop in H2. done.
      * destruct (IH s' bs buf k Hs) as (s2 & k2 & -> & H2 & H3); [lia|]. exists s2, k2. split_and!; [done|done|lia].
Qed.
End frames.
Section frames_ok.
Context {S : Type} `{Socket S} (incoming outgoing : S -> bytes -> nat -> Prop) `{Stream S incoming outgoing}.
(** A message that a frame can carry. *)
Definition msg_ok (type : Z) (body : bytes) : Prop := byte_ok type /\ 1 + zlen body < 2 ^ 32.
Lemma frame_bytes_eq type body : msg_ok type body -> frame_bytes type body = be_bytes 4 (1 + zlen body) ++ type :: body.
Proof using Type. intros [_ Hl]. unfold frame_bytes, append_u32. pose proof (zlen_nonneg body). by rewrite append_be_eq, (wrap_small 32 (zlen body)), wrap_small by lia. Qed.
Lemma length_frame type body : msg_ok type body -> length (frame_bytes type body) = (5 + length body)%nat.
Proof using Type. intros Hm. rewrite frame_bytes_eq, length_app by done. unfold be_bytes. by rewrite length_rev, length_le_bytes. Qed.
Lemma recv_frame_ok fuel max s type body rest n : msg_ok type body -> incoming s (frame_bytes type body ++ rest) n -> (5 + length body + n <= fuel)%nat ->
  if negb (max =? 0) && (1 + zlen body >? max) then exists s', recv_frame fuel max s = Some (None, s')
  else exists s' k, recv_frame fuel max s = Some (Some (type, body), s') /\ incoming s' rest k /\ (k <= n)%nat.
Proof using Type*.
  intros Hm Hi Hf. rewrite frame_bytes_eq in Hi by done. rewrite <- app_assoc in Hi. pose proof (zlen_nonneg body) as Hz. destruct Hm as [_ Hl].
  assert (length (be_bytes 4 (1 + zlen body)) = 4%nat) as H4 by (unfold be_bytes; by rewrite length_rev, length_le_bytes).
  destruct (recv_exact_ok incoming outgoing fuel s _ _ n Hi) as (s1 & k1 & R1 & R2 & R3); [lia|]. rewrite zlen_be_bytes in R1. change (Z.of_nat 4) with 4 in R1.
  unfold recv_frame, FRAME_HEADER_SIZE. rewrite R1. cbn [mbind option_bind]. rewrite (be_fold_bytes 4) by lia.
  destruct (Z.ltb_spec (1 + zlen body) 1); [lia|]. cbn [orb]. destruct (_ && _); [by eexists|].
  destruct (recv_exact_ok incoming outgoing fuel s1 (type :: body) rest k1 R2) as (s2 & k2 & R4 & R5 & R6); [cbn; lia|]. rewrite zlen_cons in R4. rewrite R4.
  exists s2, k2. split_and!; [done|done|lia].
Qed.
End frames_ok.
(** A socket that delivers its bytes in given pieces, [None] an interruption, and takes [piece] bytes a call. *)
Record Pipe := mkPipe { chunks : list (option bytes); written : bytes; piece : Z }.
#[export] Instance pipe_socket : Socket Pipe := {
  recv len p := match chunks p with
    | [] => (Received [], p)
    | None :: cs => (RecvInterrupted, mkPipe cs (written p) (piece p))
    | Some c :: cs => if zlen c <=? len then (Received c, mkPipe cs (written p) (piece p))
                      else (Received (slice 0 len c), mkPipe (Some (drop (Z.to_nat len) c) :: cs) (written p) (piece p))
    end;
  send buf p := (Sent (Z.min (piece p) (zlen buf)), mkPipe (chunks p) (written p ++ slice 0 (Z.min (piece p) (zlen buf)) buf) (piece p)) }.
Definition chunk_bytes (o : option bytes) : bytes := default [] o.
Definition pipe_incoming (p : Pipe) (bs : bytes) (n : nat) : Prop :=
  Forall (fun o => o <> Some []) (chunks p) /\ bs = concat (chunk_bytes <$> chunks p) /\ (length (List.filter (fun o => bool_decide (o = None)) (chunks p)) <= n)%nat.
Definition pipe_outgoing (p : Pipe) (bs : bytes) (n : nat) : Prop := 0 < piece p /\ written p = bs.
#[export] Instance pipe_stream : Stream Pipe pipe_incoming pipe_outgoing.
Proof.
  split.
  - intros [cs w k] bs n len (H1 & -> & H3) Hlen. cbn [recv pipe_socket chunks written piece] in *. destruct cs as [|[c|] cs].
    + exists []. split_and!; try done. unfold zlen. cbn. lia.
    + apply Forall_cons_1 in H1 as [Hc H1]. cbn [fmap list_fmap concat chunk_bytes default]. change (id c) with c. destruct (Z.leb_spec (zlen c) len).
      * exists (concat (chunk_bytes <$> cs)). split; [done|]. split; [done|]. split; [by intros ->|done].
      * exists (drop (Z.to_nat len) c ++ concat (chunk_bytes <$> cs)). rewrite app_assoc. unfold slice. rewrite drop_0, take_drop. split_and!; try done.
        all: cbv beta.
        { unfold zlen. rewrite length_take. lia. }
        { intros E. apply (f_equal length) in E. rewrite length_take in E. unfold zlen in *. cbn in E. lia. }
        { split; [|done]. constructor; [|done]. intros [= E]. apply (f_equal length) in E. rewrite length_drop in E. unfold zlen in *. cbn in E. lia. }
    + apply Forall_cons_1 in H1 as [_ H1]. cbn in H3. destruct n as [|n]; [lia|]. exists n. split; [lia|]. split_and!; [done|done|cbn; lia].
  - intros [cs w k] bs n buf [Hk <-] Hne. cbn [send pipe_socket chunks written piece] in *.
    assert (0 < zlen buf) by (destruct buf; [done|]; rewrite zlen_cons; pose proof (zlen_nonneg buf); lia). split; [lia|]. split; [done|]. cbn. unfold slice. by rewrite drop_0.
Qed.

(** * The properties *)
(** C39. Every body decoder accepts exactly what its encoder writes: on any bytes, the head, batch, end, command, error
    and notice decoders succeed with a value if and only if the bytes are the encoding of that value, and the value is
    in the encoder's range (names and strings of at most 65535 bytes, a row of the announced width, defined tags, codes
    and levels) - truncated, overlong and unknown bodies are refused. *)
Theorem bodies_exact body : Forall byte_ok body ->
  (forall cols, decode_rs_head body = (cols, true) <-> Forall text_ok cols /\ zlen cols < 2 ^ 32 /\ body = encode_rs_head cols) /\
  (forall n out rows, 0 <= n -> decode_rs_batch body n out = (out ++ rows, true) <->
     Forall (row_ok n) rows /\ zlen rows < 2 ^ 32 /\ body = encode_rs_batch rows) /\
  (forall n, decode_rs_end body = Some n <-> 0 <= n < 2 ^ 64 /\ body = encode_rs_end n) /\
  (forall tag n, decode_command body = Some (tag, n) <-> 0 <= n < 2 ^ 64 /\ body = encode_command tag n) /\
  (forall c m, decode_error body = Some (c, m) <-> body = encode_error c m) /\
  (forall l m, decode_notice body = Some (l, m) <-> 0 <= l <= NOTICE_LEVEL_MAX /\ body = encode_notice l m).
Proof.
  intros Hb. split_and!; intros.
  - by apply decode_head_exact.
  - by apply decode_batch_exact.
  - by apply decode_end_exact.
  - by apply decode_command_exact.
  - by apply decode_error_exact.
  - by apply decode_notice_exact.
Qed.
Definition demo_rows : list (list CellVal) := [[CellInt (-2); CellString [104; 105]]; [CellNull; CellDecimal (replicate 16 255) 3]].
Lemma bytes_check bs : forallb (fun b => (0 <=? b) && (b <? 256)) bs = true -> Forall byte_ok bs.
Proof. intros H. apply list.Forall_forall. intros b Hb%list_elem_of_In. rewrite forallb_forall in H. specialize (H b Hb). unfold byte_ok. lia. Qed.
Lemma bodies_exact_witness : Forall (row_ok 2) demo_rows /\ zlen demo_rows < 2 ^ 32 /\ encode_rs_batch demo_rows = encode_rs_batch demo_rows.
Proof.
  apply (bodies_exact (encode_rs_batch demo_rows) (bytes_check (encode_rs_batch demo_rows) ltac:(vm_compute; reflexivity))) with (out := []);
    [discriminate|vm_compute; reflexivity].
Defined.

(** C40. Frames cross a socket whole, in whatever pieces it takes and delivers them: on a connection that does not break,
    [send_frame] returns true and has written exactly the frame; where the frame comes in, [recv_frame] returns its type
    and body and leaves the bytes behind it, unless the payload is longer than the receiver allows, when it is
    refused; a stream that ends inside a header is refused too. The fuel is the bytes and the interruptions. *)
Theorem frame_crosses S `{Stream S incoming outgoing} fuel type body n : msg_ok type body -> (5 + length body + n <= fuel)%nat ->
  (forall s out, outgoing s out n -> exists s' k, send_frame fuel type body s = Some (true, s') /\ outgoing s' (out ++ frame_bytes type body) k /\ (k <= n)%nat) /\
  (forall max s rest, incoming s (frame_bytes type body ++ rest) n ->
     if negb (max =? 0) && (1 + zlen body >? max) then exists s', recv_frame fuel max s = Some (None, s')
     else exists s' k, recv_frame fuel max s = Some (Some (type, body), s') /\ incoming s' rest k /\ (k <= n)%nat) /\
  (forall max s bs, incoming s bs n -> zlen bs < FRAME_HEADER_SIZE -> exists s', recv_frame fuel max s = Some (None, s')).
Proof.
  intros Hm Hf. split; [|split].
  - intros s out Ho. apply (send_exact_ok incoming outgoing fuel s out _ n Ho). rewrite length_frame by done. done.
  - intros max s rest Hi. by apply (recv_frame_ok incoming outgoing fuel max s type body rest n).
  - intros max s bs Hi Hl. unfold recv_frame. destruct (recv_exact_short incoming outgoing fuel s bs n _ Hi Hl) as (s' & ->); [|by exists s'].
    unfold zlen, FRAME_HEADER_SIZE in Hl. lia.
Qed.
(** A query that arrives in four pieces with an interruption, followed by the first byte of another frame. *)
Definition demo_pipe : Pipe := mkPipe [Some [0; 0]; Some [0; 3; 1]; None; Some [104; 105; 0]] [] 2.
Lemma frame_crosses_witness : exists s' k, recv_frame 8 MAX_REQUEST_PAYLOAD demo_pipe = Some (Some (1, [104; 105]), s') /\ pipe_incoming s' [0] k.
Proof.
  destruct (frame_crosses Pipe 8 1 [104; 105] 1) as (_ & Hr & _); [split; vm_compute; [split; [discriminate|reflexivity]|reflexivity]|cbn; lia|].
  destruct (Hr MAX_REQUEST_PAYLOAD demo_pipe [0]) as (s' & k & H1 & H2 & _); [split; [by repeat constructor|split; [reflexivity|cbn; lia]]|]. by exists s', k.
Defined.

(** A string of 65536 bytes is announced as empty; the batch that holds it is refused. *)
Example long_string_refused : (decode_rs_batch (encode_rs_batch [[CellString (replicate (Z.to_nat 65536) 65)]]) 1 []).2 = false.
Proof. vm_compute. reflexivity. Qed.
