(* ===== verification/Exec.v ===== *)
(** The executor (src/executor/executor.cpp): a parsed statement is analyzed, planned, optimised and carried out on the catalog. *)
From S2P Require Import Prelude Types Cast Expr Typing Key Bind Plan Query Codec Page Wal Disk Recovery State Node Pool Tree Engine Serve Stmt Meta Analyze Explain Catalog Proto.

(** A command's tag and the number of rows it touched, or the names of the columns and the rows still to be pulled. *)
Inductive ExecResult := TagResult (tag : CommandTag) (count : Z) | ResultSet (col_names : list string) (rows : stream Row).

(** * Values *)
(** A value on its way into a column. *)
Definition coerce_col_value (col : ColumnSpec) (v : Value) : result Value :=
  if value_is_null v then (if not_null col then Raise ValueMismatch else Ok v)
  else if bool_decide (rep (ctype col) = RepDec) then
    if clength col =? 0 then cast_value v (ctype col) Assignment else coerce_numeric v (ctype col) (clength col) (cscale col) Assignment
  else cast_value v (ctype col) Assignment.
(** The values of a row of INSERT. *)
Fixpoint row_values (cs : list ColumnSpec) (row : list BoundExpr) : result (list Value) :=
  match row with
  | [] => Ok []
  | e :: row =>
      match cs with
      | [] => Fatal
      | c :: cs => v ← eval_const e; v ← coerce_col_value c v; vs ← row_values cs row; Ok (v :: vs)
      end
  end.
(** The row an UPDATE writes: every assignment is evaluated on the old row. *)
Fixpoint assign_values (cs : list ColumnSpec) (old : list Value) (assigns : list BoundUpdateItem) (vals : list Value) : result (list Value) :=
  match assigns with
  | [] => Ok vals
  | a :: assigns =>
      match cs !! ua_col_idx a with
      | None => Fatal
      | Some c => v ← eval_row (ua_value a) old; v ← coerce_col_value c v; assign_values cs old assigns (<[ua_col_idx a := v]> vals)
      end
  end.

(** * Opening the operators of a plan *)
(** What [open] does before the first pull: the scanners of an index's ranges, the whole of a sort. *)
Fixpoint open_op `{Storage} (node : PlanNode) : result (stream Row) :=
  match node with
  | SeqScanPlan table => Ok (Query.scan (meta table))
  | IndexScanPlan table _ fid ranges _ =>
      ss ← mapM (fun r => Query.index_scan fid (lo r) (hi r)) ranges;
      let '(es, e) := chain ss in Ok (entry_row (tfile_id (meta table)) <$> es, e)
  | FetchPlan table child => s ← open_op child; Ok (pull (fetch_row (cols (meta table))) s.1 s.2)
  | DummyScanPlan => Ok ([mkRow 0 (mkRef INVALID_PAGE 0) []], Ok tt)
  | EmptyPlan _ => Ok ([], Ok tt)
  | FilterPlan child pred => s ← open_op child; Ok (pull (filter_row pred) s.1 s.2)
  | ProjectPlan child projs => s ← open_op child; Ok (pull (project_row projs) s.1 s.2)
  | SortPlan child orders on => s ← open_op child; rows ← sort_open orders on s; Ok (rows, Ok tt)
  | _ => Raise Internal
  end.
(** The names of the output columns, at the projection. *)
Definition col_names (root : PlanNode) : result (list string) :=
  match root with
  | SortPlan (ProjectPlan _ projs) _ _ | ProjectPlan _ projs => Ok (pc_name <$> projs)
  | _ => Fatal
  end.

Section exec.
Context (fuel : nat).

(** What the analyzer, the planner and the operators read of a database: their look-ups on the state the statement finds. Reading brings pages
    into the pool and leaves every later look-up as it is. *)
Definition directory (c : Catalog) : Directory := {|
  dir_types := {| Bind.find_type name := (find_type fuel name c).1; Bind.require_type name := (require_type fuel name c).1; Bind.funcs name := (funcs fuel name c).1 |};
  dir_table r := (table_meta fuel r c).1;
  dir_bootstrap := bootstrap_mode c |}.
Definition index_list (c : Catalog) : Indexes := {|
  indexes m := (table_indexes fuel (table_id m) c).1; double_type := (require_type fuel "double" c).1 |}.
Definition type_names (c : Catalog) : TypeNames := fun i => match (find_type_by_id fuel i c).1 with Ok r => Ok (tr_name r) | Raise e => Raise e | Fatal => Fatal end.
(** The rows of a plan's operators on the state they find. *)
Definition plan_rows (node : PlanNode) : ST Catalog (list Row) := c ← gets id; lift (s ← @open_op (engine_storage fuel (engine c)) node; drain s).

(** * Plans *)
Definition run_select (plan : PlanNode) : ST Catalog ExecResult :=
  names ← lift (col_names plan);
  c ← gets id;
  s ← lift (@open_op (engine_storage fuel (engine c)) plan);
  mret (ResultSet names s).
Definition sum_of (ns : list Z) : Z := foldr Z.add 0 ns.
Definition run_delete_where (child : PlanNode) : ST Catalog Z :=
  rows ← plan_rows child;
  ns ← traverse (rref <$> rows) delete_by_ref;
  mret (sum_of ns).
Definition run_update (t : TableHandle) (assigns : list BoundUpdateItem) (child : PlanNode) : ST Catalog Z :=
  olds ← plan_rows child;
  us ← lift (mapM (fun old => vals ← assign_values (cols (meta t)) (rvalues old) assigns (rvalues old); Ok (mkUpdate (rref old) vals)) olds);
  update_rows fuel (meta t) us.
Definition insert_rows (t : TableHandle) (rows : list (list BoundExpr)) : ST Catalog unit :=
  forM rows (fun row => vs ← lift (row_values (cols (meta t)) row); _ ← insert fuel (meta t) vs; mret tt).
Definition explain_rows (ls : list bytes) : list Row := (fun t => mkRow 0 (mkRef INVALID_PAGE 0) [str_val kVarChar t]) <$> ls.
Definition run_plan (plan : PlanNode) : ST Catalog ExecResult :=
  match plan with
  | CreateTablePlan t cs => _ ← create_table fuel t cs; mret (TagResult TagCreateTable 0)
  | DropTablePlan t => _ ← drop_table fuel t; mret (TagResult TagDropTable 0)
  | CreateSchemaPlan s => _ ← create_schema fuel s; mret (TagResult TagCreateSchema 0)
  | DropSchemaPlan s => _ ← drop_schema fuel s; mret (TagResult TagDropSchema 0)
  | CreateIndexPlan t i ord => _ ← create_index fuel t i ord; mret (TagResult TagCreateIndex 0)
  | DropIndexPlan t i => _ ← drop_index fuel t i; mret (TagResult TagDropIndex 0)
  | InsertPlan t rows => _ ← insert_rows t rows; mret (TagResult TagInsert (zlen rows))
  | DeletePlan t (Some child) => n ← run_delete_where child; mret (TagResult TagDelete n)
  | DeletePlan t None => n ← delete_all fuel (meta t); mret (TagResult TagDelete n)
  | UpdatePlan t assigns child => n ← run_update t assigns child; mret (TagResult TagUpdate n)
  | ProjectPlan _ _ | SortPlan _ _ _ => run_select plan
  | ExplainPlan child => c ← gets id; ls ← lift (@run_explain (type_names c) child); mret (ResultSet ["QUERY PLAN"%string] (explain_rows ls, Ok tt))
  | SetPlan v => _ ← modify (set_bootstrap_table_id v); mret (TagResult TagSet 0)
  | _ => raise UnknownStmt
  end.
(** From the statement to the plan, on the state the statement finds. *)
Definition plan_of (schema : string) (s : SQLStatement) (c : Catalog) : result PlanNode :=
  b ← @analyze (directory c) schema s; @optimize (index_list c) (build b).
Definition execute (schema : string) (s : SQLStatement) : ST Catalog ExecResult :=
  c ← gets id; plan ← lift (plan_of schema s c); run_plan plan.
End exec.
