(* ===== verification/Database.v ===== *)
(** A database at rest, as the analyzer and the planner read it: look-ups on the catalog give the built-in types, functions with the signatures the
    evaluator knows and tables of declared columns, which is what their theorems ask for. *)
From S2P Require Import Prelude Types Codec Cast Key Page Wal Disk Recovery State Node Pool Diff PoolSpec Txn Session Shape Tree TreeSpec Insert Scan Engine Table Rows Scanner Serve.
From S2P Require Import Expr Typing Bind Plan Query Stmt Meta Tables Analyze Analyzed Catalog Ddl Dml Explain Exec.
From Stdlib Require Import FunctionalExtensionality.

Ltac run_in H E := first [rewrite (run_bind _ _ _ _ _ H) in E | rewrite run_assoc, (run_bind _ _ _ _ _ H) in E | rewrite H in E].

(** * Loops over rows *)
Lemma map_res_find {A B} (f : A -> result B) (p : B -> bool) l ys : map_res f l = Ok ys ->
  first_res (fun x => y ← f x; Ok (if p y then Some y else None)) l = Ok (List.find p ys).
Proof.
  revert ys. induction l as [|x l IH]; intros ys; [by intros [= <-]|]. cbn [map_res first_res]. intros (y & Hy & (zs & Hz & [= <-])%bind_ok)%bind_ok.
  rewrite Hy. cbn [mbind result_bind List.find]. destruct (p y); [done|]. by apply IH.
Qed.
Lemma filter_res_in {A B} (f : A -> result (option B)) l ys y : filter_res f l = Ok ys -> In y ys -> exists x, x ∈ l /\ f x = Ok (Some y).
Proof.
  revert ys. induction l as [|x l IH]; intros ys; cbn [filter_res]; [intros [= <-] []|]. intros (r & Hr & (zs & Hz & [= <-])%bind_ok)%bind_ok Hy.
  destruct r as [b|]; [destruct Hy as [<-|Hy]; [exists x; split; [by left|done]|]|]; (destruct (IH zs Hz Hy) as (x' & Hx & Hf); exists x'; split; [by right|done]).
Qed.

Lemma filter_res_length {A B} (f : A -> result (option B)) l ys : filter_res f l = Ok ys -> (length ys <= length l)%nat.
Proof.
  revert ys. induction l as [|x l IH]; intros ys; cbn [filter_res]; [by intros [= <-]|]. intros (r & _ & (zs & Hz & [= <-])%bind_ok)%bind_ok. apply IH in Hz.
  destruct r; cbn; lia.
Qed.
(** * What is read *)
(** The metadata tables hold [R], among them the built-in types; no table has more columns than a row can have; the functions are known. *)
Record database (fuel : nat) (n : Z) (bound : Z -> Z) (c : Catalog) (R : Z -> list (list Value)) : Prop := {
  db_meta : meta_ok fuel n bound (engine c) R;
  db_types : R kTypeMetaId = inserted type_meta_cols <$> type_meta_rows;
  db_narrow tid cs : columns_of seed_types tid (R kColumnMetaId) = Ok cs -> Z.of_nat (length cs) <= UINT16_MAX;
  db_funcs : exists ps frows, holding bound (engine c) kFuncMetaId (func_cols c) ps frows /\ bound kFuncMetaId <= Z.of_nat fuel /\
    Forall (fun row => exists f, parse_func_row seed_types row = Ok f /\ sig_ok (fr_id f) (fr_args f) (fr_ret f) /\ fr_strict_null f = true) frows }.
Lemma set_engine_same c : set_engine (engine c) c = c.
Proof. by destruct c. Qed.
Section reads.
Context (fuel : nat) (n : Z) (bound : Z -> Z) (c : Catalog) (R : Z -> list (list Value)) (Hn : 2 <= n) (Hdb : database fuel n bound c R).
Lemma type_where_reads p : (type_where fuel p c).1 = Ok (List.find p seed_types).
Proof using All.
  destruct (meta_read fuel n Hn bound c R (db_meta _ _ _ _ _ Hdb) kTypeMetaId ltac:(done)) as (c' & E & _). unfold type_where. run E.
  rewrite (db_types _ _ _ _ _ Hdb). unfold lift. cbn [fst]. apply map_res_find. exact seed_types_parse.
Qed.
Lemma find_type_reads name : (Catalog.find_type fuel name c).1 = Bind.find_type seed_catalog name.
Proof using All.
  pose proof (type_where_reads (type_named name)) as E. unfold Catalog.find_type. rewrite run_match. destruct (type_where _ _ _) as [r c1]. cbn [fst] in E. subst r.
  change (Bind.find_type seed_catalog name) with (match List.find (type_named name) seed_types with Some t => Ok t | None => Raise InvalidType end). by destruct (List.find _ _).
Qed.
Lemma require_type_reads name : (Catalog.require_type fuel name c).1 = Bind.require_type seed_catalog name.
Proof using All.
  pose proof (type_where_reads (type_named name)) as E. unfold Catalog.require_type. rewrite run_match. destruct (type_where _ _ _) as [r c1]. cbn [fst] in E. subst r.
  change (Bind.require_type seed_catalog name) with (match List.find (type_named name) seed_types with Some t => Ok (tr_attr t) | None => Raise Internal end). by destruct (List.find _ _).
Qed.
Lemma funcs_read name fs f : (Catalog.funcs fuel name c).1 = Ok fs -> In f fs -> sig_ok (fr_id f) (fr_args f) (fr_ret f) /\ fr_strict_null f = true.
Proof using All.
  destruct (types_read fuel n Hn bound c R (db_meta _ _ _ _ _ Hdb) (db_types _ _ _ _ _ Hdb)) as (c1 & E1 & s1 & -> & Q1).
  destruct (db_funcs _ _ _ _ _ Hdb) as (ps & frows & Hh & Hb & Hf). destruct (calm_holding _ _ _ _ _ _ _ Q1 Hh) as [Hh1 _].
  destruct (held_read bound (set_pool s1 (engine c)) n kFuncMetaId (func_cols c) ps frows (proj1 (calm_env _ _ _ _ (mt_env _ _ _ _ _ (db_meta _ _ _ _ _ Hdb)) Q1)) Hn Hh1 fuel Hb) as (s2 & E2 & _).
  unfold Catalog.funcs. run E1. rewrite run_gets. cbn [func_cols set_engine]. unfold meta_rows. erewrite run_bind; [|apply on_engine_run; exact E2]. unfold lift. cbn [fst].
  intros Hfs Hin. destruct (filter_res_in _ _ _ _ Hfs Hin) as (row & Hrow & Hr). rewrite list.Forall_forall in Hf. destruct (Hf row Hrow) as (f' & Hp & Hs).
  apply bind_ok in Hr as (nm & _ & Hr). case_bool_decide; [|done]. rewrite Hp in Hr. by injection Hr as <-.
Qed.

Lemma table_meta_reads r m : (table_meta fuel r c).1 = Ok m -> exists tid, columns_of seed_types tid (R kColumnMetaId) = Ok (cols m).
Proof using All.
  pose proof (db_meta _ _ _ _ _ Hdb) as Hm. destruct (table_meta fuel r c) as [res c'] eqn:E. cbn [fst]. intros ->. unfold table_meta, find_table_meta in E.
  apply bind_run_ok in E as (sid & c1 & E1 & E). assert (quiet bound c c1) as Q1.
  { unfold resolve_schema_id in E1. case_bool_decide; [done|]. destruct (meta_read fuel n Hn bound c R Hm kSchemaMetaId ltac:(done)) as (c2 & E2 & Q2). run_in E2 E1.
    unfold lift in E1. destruct (first_res _ _) as [[i|]| |]; [|done..]. by injection E1 as _ <-. }
  pose proof (quiet_meta _ _ _ _ _ _ Hm Q1) as Hm1. destruct (meta_read fuel n Hn bound c1 R Hm1 kTableMetaId ltac:(done)) as (c2 & E2 & Q2). run_in E2 E.
  pose proof (quiet_meta _ _ _ _ _ _ Hm1 Q2) as Hm2. apply bind_run_ok in E as (r' & c2' & Er & E). injection Er as _ <-. destruct r' as [[tid fid]|]; [|done].
  apply bind_run_ok in E as (cs & c3 & E3 & [= <- _]). exists tid. cbn [cols]. unfold collect_columns in E3.
  destruct (types_read fuel n Hn bound c2 R Hm2 (db_types _ _ _ _ _ Hdb)) as (c4 & E4 & Q4). run_in E4 E3. pose proof (quiet_meta _ _ _ _ _ _ Hm2 Q4) as Hm4.
  destruct seed_types as [|ty tys]; [discriminate E3|]. destruct (meta_read fuel n Hn bound c4 R Hm4 kColumnMetaId ltac:(done)) as (c5 & E5 & _). run_in E5 E3. by injection E3.
Qed.
Lemma sort_pairs_perm l : sort_pairs l ≡ₚ l.
Proof using.
  induction l as [|p l IH]; [done|]. change (sort_pairs (p :: l)) with (insert_pair p (sort_pairs l)). rewrite <- IH at 2. generalize (sort_pairs l). clear.
  intros l. induction l as [|q l IH]; [done|]. cbn. destruct (_ <=? _); [done|]. rewrite IH. constructor.
Qed.
Lemma columns_short types tid rows cs : columns_of types tid rows = Ok cs -> (length cs <= length rows)%nat.
Proof using.
  unfold columns_of. intros (pairs & Hp & (u & _ & (u' & _ & [= <-])%bind_ok)%bind_ok)%bind_ok. rewrite length_fmap, (Permutation_length (sort_pairs_perm pairs)).
  by eapply filter_res_length.
Qed.
Lemma columns_seeds types tid rows cs : Forall (fun t => seed_attr (tr_attr t)) types -> columns_of types tid rows = Ok cs -> Forall (fun c => seed_attr (ctype c)) cs.
Proof using.
  intros Ht. unfold columns_of. intros (pairs & Hp & (u & _ & (u' & _ & [= <-])%bind_ok)%bind_ok)%bind_ok. rewrite sort_pairs_perm. apply list.Forall_forall.
  intros col ([o c1] & -> & Hin)%list_elem_of_fmap. apply list_elem_of_In in Hin. destruct (filter_res_in _ _ _ _ Hp Hin) as (row & _ & Hr). unfold column_of in Hr.
  apply bind_ok in Hr as (t & _ & Hr). destruct (_ =? _); [|done]. apply bind_ok in Hr as ([o' c'] & Hr & [= <- <-]). unfold parse_column_row in Hr.
  apply bind_ok in Hr as (ty & _ & Hr). destruct (type_by_id types ty) as [tr|] eqn:Etr; [|done]. apply find_some in Etr as [Etr _].
  repeat (apply bind_ok in Hr as (? & _ & Hr)). injection Hr as _ <-. cbn [snd ctype]. rewrite list.Forall_forall in Ht. by apply Ht, list_elem_of_In.
Qed.
Lemma seed_types_seeds : Forall (fun t => seed_attr (tr_attr t)) seed_types.
Proof using. repeat (apply Forall_cons_2; [solve_seed|]). apply Forall_nil_2. Qed.
(** The database keeps what the analyzer relies on. *)
Lemma database_directory : @DirectoryOk (directory fuel c).
Proof using All.
  pose proof seed_catalog_ok as [T1 T2 T3 T4 T5 T6 T7 T8]. split; cbn [dir_types dir_table directory].
  - split; cbn [Bind.find_type Bind.require_type Bind.funcs]; rewrite ?require_type_reads; try done.
    + intros name t. rewrite find_type_reads. apply T7.
    + intros name fs f. apply funcs_read.
  - intros name row. cbn [Bind.find_type]. rewrite find_type_reads. apply rows_types.
  - intros r m Hm. destruct (table_meta_reads r m Hm) as (tid & Hc). split; [|by eapply (db_narrow _ _ _ _ _ Hdb)].
    pose proof (columns_seeds _ _ _ _ seed_types_seeds Hc) as Hs. unfold col_types. by apply Forall_fmap.
Qed.
(** The indexes the planner is offered are those of the table. *)
Lemma indexes_read t ps vss ents ht size : in_step fuel bound n c t ps vss ents ht size -> (table_indexes fuel (table_id t) c).1 = Ok ents.
Proof using Hn.
  intros Hs. destruct (indexes_run fuel bound n c t ps vss ents ht size (engine c) bound Hs Hn) as (s & E & _); [exact (db_step_refl _ _ _ n (sp_env _ _ _ _ _ _ _ _ _ _ Hs))|done|exact (sp_env _ _ _ _ _ _ _ _ _ _ Hs)|].
  rewrite set_engine_same in E. by rewrite E.
Qed.
Lemma served_more e t ps vss ents ht size size' : (size <= size')%nat -> served bound e t ps vss ents ht size -> served bound e t ps vss ents ht size'.
Proof using.
  intros Hle [S1 S2 S3 S4 S5 S6 S7]. split; try done; [lia|]. eapply Forall_impl; [|exact S7]. intros ent (cl & b & es & H). exists cl, b, es. by eapply index_more.
Qed.
(** A table in step is what the optimiser's theorems ask for. *)
Lemma table_served h ps vss ents ht size : in_step fuel bound n c (meta h) ps vss ents ht size -> (size <= fuel)%nat ->
  Query.table_ok (H := engine_storage fuel (engine c)) (H0 := index_list fuel c) h (rows_of_table (engine c) (tfile_id (meta h)) ps vss).
Proof using All.
  intros Hs Hle. destruct h as [t name]. cbn [meta] in *. apply (@served_contract (index_list fuel c) bound (engine c) t ps vss ents ht fuel name).
  - eapply served_more; [exact Hle|apply Hs].
  - by apply (indexes_read t ps vss ents ht size).
  - cbn [double_type index_list]. rewrite require_type_reads. done.
Qed.
End reads.
(** Written with the seeds in place, a directory computes. *)
Definition seeded (F : string -> result (list FuncRow)) (T : TableRef -> result TableMeta) (boot : bool) : Directory := {|
  dir_types := {| Bind.find_type := Bind.find_type seed_catalog; Bind.require_type := Bind.require_type seed_catalog; Bind.funcs := F |};
  dir_table := T; dir_bootstrap := boot |}.
Lemma directory_seeded fuel n bound c R : 2 <= n -> database fuel n bound c R ->
  directory fuel c = seeded (fun name => (Catalog.funcs fuel name c).1) (fun r => (table_meta fuel r c).1) (bootstrap_mode c).
Proof.
  intros Hn Hdb. unfold directory, seeded. f_equal. f_equal; apply functional_extensionality; intros name; [by apply (find_type_reads fuel n bound c R)|by apply (require_type_reads fuel n bound c R)].
Qed.
