(* ===== verification/Answers.v ===== *)
(** What a SELECT means, and that executing one answers it: the rows of its table that the WHERE clause keeps, projected, in the order that
    ORDER BY asks for - from the statement's text to the rows that are pulled from the storage engine. *)
From S2P Require Import Prelude Types Cast Expr Typing Fold Key Bind Plan Sort Query Codec Page Wal Disk Recovery State Node Pool Tree Engine Table Rows Scanner Serve Stmt Meta Tables Analyze.
From S2P Require Import Analyzed Explain Catalog Ddl Dml Proto Exec Database.
From Stdlib Require Import Sorting.Sorted.

(** * The meaning of a SELECT *)
Definition keeps_row (w : option BoundExpr) (r : Row) : bool := match w with Some p => sat p r | None => true end.
Definition projects (projs : list ProjCol) (r r' : Row) : Prop := project_row projs r = Ok (Some r').
(** Nothing fails while the rows are computed: the WHERE clause has a value for every row, the output columns and the sort keys have one for every
    row it keeps. *)
Definition answerable (w : option BoundExpr) (projs : list ProjCol) (orders : list BoundOrderItem) (on : bool) (rows : list Row) : Prop :=
  match w with Some p => Forall (fun r => exists b, where_match p (rvalues r) = Ok b) rows | None => True end /\
  Forall (fun r => (exists r', projects projs r r') /\ (on = false -> exists ks, mapM (sort_key false r) orders = Ok ks)) (List.filter (keeps_row w) rows).
(** The answers: the kept rows projected, in some order without ORDER BY, sorted on the output columns, or sorted on expressions over the row
    before they are projected. *)
Inductive answer (w : option BoundExpr) (projs : list ProjCol) (orders : list BoundOrderItem) (on : bool) (rows : list Row) : list Row -> Prop :=
| AnswerUnsorted outs out : orders = [] -> Forall2 (projects projs) (List.filter (keeps_row w) rows) outs -> same_rows outs out ->
    answer w projs orders on rows out
| AnswerOnOutput outs out : on = true -> Forall2 (projects projs) (List.filter (keeps_row w) rows) outs -> same_rows outs out ->
    StronglySorted (rows_before orders true) out -> answer w projs orders on rows out
| AnswerOnRows sorted outs out : on = false -> sorted ≡ₚ List.filter (keeps_row w) rows -> StronglySorted (rows_before orders false) sorted ->
    Forall2 (projects projs) sorted outs -> Forall2 row_eqv outs out -> answer w projs orders on rows out.

(** * Opening is pulling *)
Lemma drain_whole {A} (s : stream A) out : drain s = Ok out <-> s = (out, Ok tt).
Proof. destruct s as [l [[]| |]]; unfold drain; cbn; split; try done; by intros [= ->]. Qed.
(** A plan whose rows can all be pulled opens to exactly these rows. *)
Lemma open_pulls `{Storage} plan out : drain (run_op plan) = Ok out -> open_op plan = Ok (out, Ok tt).
Proof.
  revert out. induction plan; intros out Ho; cbn [open_op run_op] in *; try (apply drain_whole in Ho; by rewrite <- Ho + discriminate Ho).
  - unfold scan_ranges in Ho. destruct (mapM _ _) as [ss| |]; [|done..]. cbn [mbind result_bind]. destruct (chain ss). by apply drain_whole in Ho as [= <- ->].
  - apply drain_pull_stream in Ho as (rows & ys & Hr & Hy & ->). rewrite (IHplan _ Hr). cbn [mbind result_bind fst snd]. f_equal. apply drain_whole.
    apply drain_pull. eauto.
  - apply drain_pull_stream in Ho as (rows & ys & Hr & Hy & ->). rewrite (IHplan _ Hr). cbn [mbind result_bind fst snd]. f_equal. apply drain_whole.
    apply drain_pull. eauto.
  - apply drain_pull_stream in Ho as (rows & ys & Hr & Hy & ->). rewrite (IHplan _ Hr). cbn [mbind result_bind fst snd]. f_equal. apply drain_whole.
    apply drain_pull. eauto.
  - rewrite drain_of_result in Ho. pose proof (sort_open_perm _ _ _ _ Ho) as [Hd _]. pose proof (IHplan _ Hd) as Hi. apply drain_whole in Hd. rewrite Hi, <- Hd.
    cbn [mbind result_bind]. rewrite Ho. done.
Qed.

(** * The optimised plan answers *)
Lemma value_cmp_eqv a a' b b' : eqv a a' -> eqv b b' -> value_cmp a b = value_cmp a' b'.
Proof.
  intros [<-|[Ha Ha']] [<-|[Hb Hb']]; [done|..]; unfold value_cmp; rewrite ?Ha, ?Ha', ?Hb, ?Hb', ?orb_true_r; reflexivity.
Qed.
Lemma key_less_eqv orders orders' : Forall2 (fun o o' => desc o' = desc o) orders orders' -> forall k k' l l', Forall2 eqv k k' -> Forall2 eqv l l' ->
  key_less orders k l = key_less orders' k' l'.
Proof.
  induction 1 as [|o o' os os' Hd _ IH]; intros k k' l l' Hk Hl; [done|]. cbn [key_less].
  destruct Hk as [|a a' k k' Ha Hk]; [done|]. destruct Hl as [|b b' l l' Hb Hl]; [done|]. rewrite (value_cmp_eqv a a' b b' Ha Hb), Hd.
  destruct (value_cmp a' b') as [c| |]; [|done..]. cbn [mbind result_bind]. by rewrite (IH k k' l l' Hk Hl).
Qed.
Section answers.
Context `{Storage} `{Indexes} (table : TableHandle) (rows : list Row) (Hok : Query.table_ok table rows).
Notation ts := (col_types (meta table)).
Notation row_ctx r := (context_ok ts (Some (rvalues r))).

Lemma fold_orders_desc orders orders' : mapM (fold_order expr_equal) orders = Ok orders' -> Forall2 (fun o o' => desc o' = desc o) orders orders'.
Proof using.
  intros Hf%mapM_ok. eapply list.Forall2_impl; [exact Hf|]. intros o o' Ho. unfold fold_order in Ho. destruct (o_expr o); [by apply bind_ok in Ho as (e & _ & [= <-])|by injection Ho as <-].
Qed.
Lemma fold_projs_names projs projs' : mapM (fold_proj expr_equal) projs = Ok projs' -> pc_name <$> projs' = pc_name <$> projs.
Proof using.
  intros Hf%mapM_ok. induction Hf as [|c c' cs cs' Hc _ IH]; [done|]. rewrite !fmap_cons, IH. f_equal. unfold fold_proj in Hc.
  destruct (pc_expr c); [by apply bind_ok in Hc as (e & _ & [= <-])|by injection Hc as <-].
Qed.
(** The folded sort keys order rows as the keys of the statement do. *)
Lemma before_folded orders kts orders' a b : row_ctx a -> row_ctx b -> Forall2 (order_ok table false []) orders kts -> mapM (fold_order expr_equal) orders = Ok orders' ->
  (exists ks, mapM (sort_key false a) orders = Ok ks) -> (exists ks, mapM (sort_key false b) orders = Ok ks) -> rows_before orders' false a b -> rows_before orders false a b.
Proof using.
  intros Ha Hb Hk Hf (ka & Ka) (kb & Kb) (wa & wb & Wa & Wb & Hl).
  destruct (order_keys_fold table a orders kts orders' ka Ha Hk Hf Ka) as (wa' & Wa' & Ea & _). destruct (order_keys_fold table b orders kts orders' kb Hb Hk Hf Kb) as (wb' & Wb' & Eb & _).
  rewrite Wa in Wa'. rewrite Wb in Wb'. injection Wa' as <-. injection Wb' as <-. exists ka, kb. split_and!; [done..|].
  by rewrite (key_less_eqv orders orders' (fold_orders_desc _ _ Hf) kb wb ka wa Eb Ea).
Qed.
Lemma kept_drained w : match w with Some p => Forall (fun r => exists b, where_match p (rvalues r) = Ok b) rows | None => True end ->
  drain (run_op (with_filter w (SeqScanPlan table))) = Ok (List.filter (keeps_row w) rows).
Proof using Hok.
  intros Hw. destruct Hok as [Hs _ _ _]. destruct w as [p|]; cbn [with_filter run_op keeps_row].
  - rewrite Hs. apply drain_filter. split; [done|]. split; [|done]. eapply Forall_impl; [|exact Hw]. intros r (b & Hb). unfold sat. by rewrite Hb.
  - rewrite Hs. unfold drain. cbn. f_equal. clear. induction rows as [|r l IH]; [done|]. cbn. by rewrite <- IH.
Qed.
Lemma projects_all projs ks : Forall (fun r => exists r', projects projs r r') ks -> exists outs, Forall2 (projects projs) ks outs.
Proof using. induction 1 as [|r ks (r' & Hr) _ (outs & IH)]; [by exists []|]. exists (r' :: outs). by constructor. Qed.
Lemma projects_run projs ks outs c : drain (run_op c) = Ok ks -> Forall2 (projects projs) ks outs -> drain (run_op (ProjectPlan c projs)) = Ok outs.
Proof using.
  intros Hd Hp. cbn [run_op]. apply drain_pull_stream. exists ks, (Some <$> outs). split; [done|]. split.
  - clear Hd. induction Hp as [|r r' ks outs Hr _ IH]; [done|]. cbn [mapM]. rewrite Hr. cbn [mbind result_bind]. by rewrite IH.
  - clear. induction outs as [|r l IH]; [done|]. cbn. by rewrite <- IH.
Qed.
(** Folded projections of one list of rows. *)
Lemma projects_folded projs projs' pts ks outs : Forall (fun r => row_ctx r) ks -> Forall2 (proj_ok table) projs pts -> mapM (fold_proj expr_equal) projs = Ok projs' ->
  Forall2 (projects projs) ks outs -> exists outs', Forall2 (projects projs') ks outs' /\ Forall2 row_eqv outs outs'.
Proof using.
  intros Hctx Hp Hf Hj. induction Hj as [|r r' ks outs Hr _ IH]; [exists []; by split|]. apply Forall_cons_1 in Hctx as [Hc Hctx].
  destruct (project_row_fold table r projs projs' pts (Some r') Hc Hp Hf Hr) as (a & b & [= <-] & Hb & He & _). destruct (IH Hctx) as (outs' & I1 & I2).
  exists (b :: outs'). by split; constructor.
Qed.
Lemma sorted_impl (R R' : Row -> Row -> Prop) (P : Row -> Prop) l : Forall P l -> (forall a b, P a -> P b -> R a b -> R' a b) -> StronglySorted R l -> StronglySorted R' l.
Proof using.
  intros Hp Hi Hs. induction Hs as [|a l Hs IH Ha]; [constructor|]. apply Forall_cons_1 in Hp as [Hpa Hp]. constructor; [by apply IH|].
  rewrite list.Forall_forall in *. intros b Hb. apply Hi; auto.
Qed.
Lemma select_answered w projs orders on pts kts plan' : where_ok table w -> Forall2 (proj_ok table) projs pts -> Forall2 (order_ok table on pts) orders kts ->
  optimize (build (BoundSelect table projs w orders on)) = Ok plan' -> answerable w projs orders on rows ->
  exists out, drain (run_op plan') = Ok out /\ answer w projs orders on rows out /\ col_names plan' = Ok (pc_name <$> projs).
Proof using Hok.
  intros Hw Hp Ho Hopt [Hcond Hks]. pose proof (kept_drained w Hcond) as Hd. set (ks := List.filter (keeps_row w) rows) in *.
  assert (Forall (fun r => exists r', projects projs r r') ks) as Hkp by (eapply Forall_impl; [|exact Hks]; by intros r [? _]).
  destruct (projects_all projs ks Hkp) as (outs & Houts). pose proof (projects_run projs ks outs _ Hd Houts) as Hres.
  cbn [build] in Hopt. unfold build_select in Hopt. destruct orders as [|o orders0]; cbn [is_nil negb andb] in Hopt.
  - apply optimize_project in Hopt as (projs' & c' & Hfp & Hc & ->).
    destruct (project_refines table _ c' projs projs' pts outs (scan_refines table rows Hok _ _ Hw Hc) Hp Hfp Hres) as (out & H1 & H2 & _).
    exists out. split; [done|]. split; [by apply (AnswerUnsorted _ _ _ _ _ outs)|]. cbn [col_names]. f_equal. by eapply fold_projs_names.
  - set (orders := o :: orders0) in *. destruct on; cbn [negb] in Hopt.
    + apply optimize_sort in Hopt as (orders' & c1 & -> & Hc1 & ->). apply optimize_project in Hc1 as (projs' & c' & Hfp & Hc & ->).
      destruct (project_refines table _ c' projs projs' pts outs (scan_refines table rows Hok _ _ Hw Hc) Hp Hfp Hres) as (out & H1 & H2 & H3).
      destruct (sort_open_runs orders kts true out) as (out2 & S1 & S2 & S3); [by eapply order_types|by eapply list.Forall2_length|by apply (output_keys table orders pts)|].
      exists out2. split; [|split].
      * cbn [run_op] in *. apply drain_whole in H1. rewrite H1, drain_of_result. exact S1.
      * apply (AnswerOnOutput _ _ _ _ _ outs); [done..|by rewrite S2|done].
      * cbn [col_names]. f_equal. by eapply fold_projs_names.
    + apply optimize_project in Hopt as (projs' & c1 & Hfp & Hc1 & ->). apply optimize_sort in Hc1 as (orders' & c' & Hfo & Hc & ->).
      change (Forall2 (order_ok table false []) orders kts) in Ho. destruct (scan_refines table rows Hok _ _ Hw Hc ks Hd) as (Hctx & ks' & D1 & D2).
      assert (Forall (fun r => row_ctx r /\ (exists r', projects projs r r') /\ exists k, mapM (sort_key false r) orders = Ok k) ks') as Hks'.
      { rewrite <- D2. apply Forall_and; [done|]. eapply Forall_impl; [|exact Hks]. intros r [? Hr]. auto. }
      destruct (sort_open_runs orders' kts false ks') as (sorted & S1 & S2 & S3).
      { by eapply order_types. }
      { rewrite <- (list.Forall2_length _ _ _ (fold_orders_desc _ _ Hfo)). by eapply list.Forall2_length. }
      { eapply Forall_impl; [|exact Hks']. intros r (Hr & _ & k & Hk). destruct (order_keys_fold table r orders kts orders' k Hr Ho Hfo Hk) as (ws & ? & _ & ?). by exists ws. }
      assert (Forall (fun r => row_ctx r /\ (exists r', projects projs r r') /\ exists k, mapM (sort_key false r) orders = Ok k) sorted) as Hso by (by rewrite S2).
      destruct (projects_all projs sorted) as (outs2 & P1); [eapply Forall_impl; [|exact Hso]; by intros r (_ & ? & _)|].
      destruct (projects_folded projs projs' pts sorted outs2) as (out & Q1 & Q2); [eapply Forall_impl; [|exact Hso]; by intros r (? & _)|done..|].
      exists out. split; [|split].
      * apply (projects_run projs' sorted); [|done]. cbn [run_op]. apply drain_whole in D1. by rewrite D1, drain_of_result.
      * apply (AnswerOnRows _ _ _ _ _ sorted outs2); [done|rewrite S2; by symmetry| |done|done].
        eapply sorted_impl; [exact Hso| |exact S3]. intros a b (A1 & _ & A2) (B1 & _ & B2). by apply (before_folded orders kts orders').
      * cbn [col_names]. f_equal. by eapply fold_projs_names.
Qed.
End answers.


(** * An example: the schemas of a database just bootstrapped *)
(** [SELECT schema_name FROM db_schema WHERE schema_id = 1 ORDER BY schema_id DESC], in the schema system. *)
Definition schema_query : SQLStatement := SelectStmt (mkQName "" "db_schema") false [ExprItem (IdentifierExpr "schema_name") ""]
  (Some (CompareExpr CmpEq (IdentifierExpr "schema_id") (IntExpr (str "1")))) [mkOrderItem (IdentifierExpr "schema_id") true] None None.
Definition schema_table : TableMeta := mkMeta 3 3 "db_schema" schema_meta_cols.
Definition schema_handle : TableHandle := mkHandle schema_table "system.db_schema".
Definition schema_bound : BoundStmt := BoundSelect schema_handle [mkProj (Some (BoundColRef 1 kVarChar)) "schema_name" 0]
  (Some (BoundCmp CmpEq (BoundColRef 0 kBigint) (BoundConst (int_val kInt 1)))) [mkOrder true 0 (Some (BoundColRef 0 kBigint))] false.
Lemma schema_query_analyzed F T boot : T (mkTableRef "system" "db_schema") = Ok schema_table -> @analyze (seeded F T boot) "system" schema_query = Ok schema_bound.
Proof.
  intros Ht. unfold schema_query. cbn [analyze]. unfold to_table_ref, handle_of. cbn [dir_table seeded q_schema q_name]. rewrite bool_decide_true by done. rewrite Ht.
  cbn [mbind result_bind]. vm_compute. reflexivity.
Qed.
Definition schema_plan : PlanNode := ProjectPlan (SortPlan (FilterPlan (SeqScanPlan schema_handle) (BoundCmp CmpEq (BoundColRef 0 kBigint) (BoundConst (int_val kInt 1))))
  [mkOrder true 0 (Some (BoundColRef 0 kBigint))] false) [mkProj (Some (BoundColRef 1 kVarChar)) "schema_name" 0].
Lemma schema_query_planned `{Indexes} : indexes schema_table = Ok [] -> optimize (build schema_bound) = Ok schema_plan.
Proof.
  intros Hi. unfold optimize. assert (fold_const (build schema_bound) = Ok schema_plan) as -> by (by vm_compute). cbn [mbind result_bind].
  assert (prune_filter schema_plan = Ok schema_plan) as -> by (by vm_compute). cbn [mbind result_bind]. unfold schema_plan. cbn [select_index]. unfold rewrite_scan.
  change (meta schema_handle) with schema_table. by rewrite Hi.
Qed.
Definition schema_row : list Value := inserted schema_meta_cols (schema_meta_row 1 "system").
Lemma demo_fresh f : f <> 0 -> fresh_file (fun _ => 0) (engine demo_catalog) f.
Proof.
  intros Hf. split; [|done|done|apply not_elem_of_nil]. split; [done|]. intros p j Hp. change ((∅ : gmap PageId nat) !! p = Some j) in Hp. by rewrite lookup_empty in Hp.
Qed.
Lemma sample_database : exists bound c R ps, database 200 2 bound c R /\ in_step 200 bound 2 c schema_table ps [schema_row] [] 0 150 /\
  listed R (mkTableRef "system" "db_schema") schema_table.
Proof.
  destruct (bootstrap_run 100 2 ltac:(lia) (fun _ => 0) demo_catalog demo_boot_ready) as (e0 & b0 & R & _ & Hm & HR & Hg & _ & Hst).
  set (c0 := set_engine e0 demo_catalog). destruct (db_step_env _ _ _ _ 2 (mt_env _ _ _ _ _ Hm) (db_step_refl (fun _ => False) b0 e0 2 (mt_env _ _ _ _ _ Hm))) as [Hd0 _].
  destruct (db_step_env _ _ _ _ 2 (proj1 demo_boot_ready) Hst) as [_ Hdr].
  assert (forall f, 4 < f -> fresh_file b0 e0 f) as Hf.
  { intros f Hf. apply (fresh_step (fun g => 1 <= g <= 4) (fun _ => 0) b0 (engine demo_catalog) e0 f Hst); [lia|by apply Hg|exact Hdr|apply demo_fresh; lia]. }
  destruct (init_table_run 2 ltac:(lia) b0 c0 5 [] Hd0 (Hf 5 ltac:(lia))) as (e1 & _ & A2 & A3 & A4 & A5). set (b1 := bump b0 5 1) in *.
  assert (fresh_file b1 e1 6) as F6 by (apply (fresh_step (eq 5) b0 b1 e0 e1 6 A5); [done|done|exact A3|apply Hf; lia]).
  destruct (init_table_run 2 ltac:(lia) b1 (set_engine e1 c0) 6 [] A2 F6) as (e2 & _ & B2 & B3 & B4 & B5). set (b2 := bump b1 6 1) in *. cbn [engine set_engine] in B5, B3.
  assert (meta_ok 100 2 b2 e2 R) as Hm2.
  { eapply (meta_frame _ _ (eq 6) b1 b2 e1 e2); [exact B5|intros i Hi; split; [lia|unfold b2; apply bump_other; lia]|]. eapply (meta_frame _ _ (eq 5) b0 b1 e0 e1); [exact A5| |exact Hm].
    intros i Hi. split; [lia|unfold b1; apply bump_other; lia]. }
  destruct (db_step_holding _ b1 b2 _ _ 5 _ _ _ B5 ltac:(done) eq_refl A4) as [A6 _]. destruct (mt_rows _ _ _ _ _ Hm2 3 ltac:(lia)) as (ps & Hh).
  exists b2, (set_engine e2 demo_catalog), R, ps. split; [|split].
  - split; cbn [engine set_engine func_cols demo_catalog]; [|by apply booted_types| |].
    + destruct Hm2 as [M1 M2 M3 M4]. split; [done..| |done]. intros i Hi. pose proof (M3 i Hi). lia.
    + intros tid cs Hc. apply columns_short in Hc. rewrite (HR kColumnMetaId ltac:(done)) in Hc.
      assert (length (boot_rows kColumnMetaId) = 25%nat) as E by (by vm_compute). unfold UINT16_MAX. lia.
    + exists [], []. split; [exact B4|]. split; [|constructor]. change (b2 kFuncMetaId) with (b0 6 + 1). rewrite Hg by lia. lia.
  - pose proof Hh as [H1 H2 H3 H4]. split; cbn [engine set_engine index_cols demo_catalog tfile_id schema_table cols table_id].
    + exact B2.
    + apply (bool_decide_unpack _). by vm_compute.
    + intros f _. assert (dropped e2 = []) as ->; [|apply not_elem_of_nil]. rewrite B3, A3. etrans; [exact Hdr|done].
    + apply (bool_decide_unpack _). by vm_compute.
    + exists [], []. split; [exact A6|]. split; [cbn; lia|done].
    + assert (R 3 = [schema_row]) as E3 by (by rewrite (HR 3 ltac:(lia))). rewrite E3 in H4.
      split; [by apply (db_read_env b2 e2 2 3 schema_meta_cols ps [schema_row])|exact H1|exact H3|exact H4| | |constructor].
      * apply Forall_cons_2; [|apply Forall_nil_2]. apply (fits_typed schema_meta_cols (schema_meta_row 1 "system")); [apply (bool_decide_unpack _); by vm_compute|]. by apply schema_row_fits.
      * pose proof (table_short e2 3 _ ps H2 (proj1 H1) (proj1 H3)). pose proof (mt_fuel _ _ _ _ _ Hm2 3 ltac:(lia)). unfold zlen in *. cbn [length]. lia.
  - pose proof (boot_listed R HR) as Hl. do 3 apply Forall_cons_1 in Hl as [_ Hl]. by apply Forall_cons_1 in Hl as [Hl _].
Qed.
