(* ===== verification/Writes.v ===== *)
(** What an INSERT does: its rows, evaluated and coerced, are in the table and in every index of it afterwards - from the statement's text to the
    pages of the engine. *)
From S2P Require Import Prelude Types Codec Cast Key Page Wal Disk Recovery State Node Pool Diff PoolSpec Txn Session Shape Tree TreeSpec Insert Scan Engine Table Rows Scanner Serve.
From S2P Require Import Expr Typing Fold Bind Plan Query Stmt Meta Tables Analyze Analyzed Catalog Ddl Dml Proto Explain Exec Database.

(** * Folding the rows *)
(** Storing looks at the box of a value only. *)
Definition same_box (v w : Value) : Prop := box v = box w.
Lemma eqv_box v w : eqv v w -> same_box v w.
Proof. intros [->|[Hv Hw]]; [done|]. unfold is_null, value_is_null, same_box in *. by destruct (box v), (box w). Qed.
Lemma encode_loop_box vs ws : Forall2 same_box vs ws -> forall cs i out, encode_loop cs vs i out = encode_loop cs ws i out.
Proof.
  induction 1 as [|v w vs ws Hv _ IH]; intros [|c cs] i out; [done..|]. cbn [encode_loop]. unfold same_box in Hv. unfold value_is_null. rewrite Hv.
  destruct (match box w with BNull => true | _ => false end); [destruct (not_null c); [done|apply IH]|].
  destruct (encode_col c (box w)) as [[bs|]| |]; [|done..]. apply IH.
Qed.
Lemma encode_row_box cs vs ws : Forall2 same_box vs ws -> encode_row cs vs = encode_row cs ws.
Proof. intros H. unfold encode_row, zlen. rewrite (list.Forall2_length _ _ _ H). by rewrite (encode_loop_box vs ws H). Qed.
Lemma fits_box cs vs ws : Forall2 same_box vs ws -> fits cs vs -> fits cs ws.
Proof.
  intros H (Hw & rec & He & Hl). split; [|exists rec; by rewrite <- (encode_row_box cs vs ws H)]. clear He. induction H as [|v w vs ws Hv _ IH]; [constructor|].
  apply Forall_cons_1 in Hw as [H1 H2]. constructor; [by rewrite <- Hv|by apply IH].
Qed.
Lemma inserted_box cs vs ws : Forall2 same_box vs ws -> inserted cs vs = inserted cs ws.
Proof.
  intros H. revert cs. unfold inserted. induction H as [|v w vs ws Hv _ IH]; intros [|c cs]; [done..|]. cbn [zip_with]. f_equal; [|apply IH].
  unfold Codec.stored. by rewrite Hv.
Qed.
Lemma coerce_eqv c v w x : eqv v w -> coerce_col_value c v = Ok x -> exists y, coerce_col_value c w = Ok y /\ same_box x y.
Proof.
  intros [->|[Hv Hw]] H; [by exists x|]. unfold coerce_col_value, is_null in *. rewrite Hv in H. rewrite Hw. destruct (not_null c); [done|]. injection H as <-. exists w. split; [done|].
  apply eqv_box. by right.
Qed.
Notation fold_value := (fun v => fold_with expr_equal v false).
(** The folded expressions of a row give its values. *)
Lemma row_values_fold cs row row' vs : Forall (fun e => exists t, has_type [] e t) row -> mapM fold_value row = Ok row' -> row_values cs row = Ok vs ->
  exists ws, row_values cs row' = Ok ws /\ Forall2 same_box vs ws.
Proof.
  intros Ht. revert cs row' vs. induction Ht as [|e row (t & Het) _ IH]; intros cs row' vs; cbn [mapM].
  - intros [= <-] H. assert (vs = []) as -> by (by destruct cs; injection H). exists []. split; [by destruct cs|constructor].
  - intros (e' & He & (es & Hes & [= <-])%bind_ok)%bind_ok. destruct cs as [|c cs]; [done|]. cbn [row_values].
    intros (v & Hv & (x & Hx & (xs & Hxs & [= <-])%bind_ok)%bind_ok)%bind_ok.
    destruct (fold_refines expr_equal [] None e false t e' eq_refl Het ltac:(done) He v Hv) as (w & Hw & Hvw). destruct (coerce_eqv c v w x Hvw Hx) as (y & Hy & Hxy).
    destruct (IH cs es xs Hes Hxs) as (ys & Hys & Hb). exists (y :: ys). unfold eval_const. rewrite Hw. cbn [mbind result_bind]. rewrite Hy. cbn [mbind result_bind]. rewrite Hys.
    split; [done|]. by constructor.
Qed.

(** * Inserting the rows *)
Section rows.
Context (fuel : nat) (n : Z) (t : TableMeta) (name : string) (ents : list IndexEntry).
(** Room for the pages that [k] more rows may take in a file. *)
Definition room_for (bound : Z -> Z) (ht k : nat) : Prop := forall f, f ∈ tfile_id t :: (ix_file_id <$> ents) -> bound f + Z.of_nat k * (Z.of_nat (ht + k) + 3) < 2 ^ 32.
Lemma insert_rows_ok rows : forall valss bound c ps vss ht size, in_step fuel bound n c t ps vss ents ht size -> Z.of_nat (ht + length rows) + 4 <= n ->
  Forall2 (fun row vs => row_values (cols t) row = Ok vs) rows valss -> Forall (fits (cols t)) valss -> room_for bound ht (length rows) ->
  exists c' bound' ps' size', insert_rows fuel (mkHandle t name) rows c = (Ok tt, c') /\
    in_step fuel bound' n c' t ps' (vss ++ (inserted (cols t) <$> valss)) ents (ht + length rows) size' /\ apart (tfile_id t :: (ix_file_id <$> ents)) bound c bound' c'.
Proof using.
  induction rows as [|row rows IH]; intros valss bound c ps vss ht size Hs Hn Hv Hf Hr; inversion Hv as [|? vs ? valss' Hv1 Hv2]; subst.
  - exists c, bound, ps, size. cbn [fmap list_fmap length]. rewrite app_nil_r, Nat.add_0_r. split; [done|]. split; [done|apply apart_refl].
  - apply Forall_cons_1 in Hf as [Hf1 Hf]. cbn [length] in *.
    assert (forall f, f ∈ tfile_id t :: (ix_file_id <$> ents) -> bound f + Z.of_nat ht + 3 < 2 ^ 32) as Hr1 by (intros f Hfi; pose proof (Hr f Hfi); nia).
    destruct (insert_in_step fuel bound n c t ps vss ents ht size vs Hs ltac:(lia) (proj1 Hf1)) as [_ Hi].
    { pose proof (Hr (tfile_id t) ltac:(left)). nia. }
    { apply list.Forall_forall. intros ent Hent. apply Hr1. right. by apply list_elem_of_fmap_2. }
    destruct (Hi Hf1) as (id & c1 & b1 & ps1 & size1 & E1 & S1 & G1 & O1).
    destruct (IH valss' b1 c1 ps1 _ (S ht) size1 S1 ltac:(lia) Hv2 Hf) as (c' & b' & ps' & size' & E2 & S2 & O2).
    { intros f Hfi. pose proof (Hr f Hfi). pose proof (G1 f). nia. }
    exists c', b', ps', size'. split; [|split].
    + unfold insert_rows in *. cbn [forM meta] in *. rewrite run_assoc, (lift_run vs _ _ _ Hv1), run_assoc. run E1. rewrite run_ret. exact E2.
    + cbn [fmap list_fmap]. rewrite <- app_assoc in S2. cbn [app] in S2. replace (ht + S (length rows))%nat with (S ht + length rows)%nat by lia. exact S2.
    + by eapply apart_trans.
Qed.
End rows.

(** The database is still described after a change apart from its metadata. *)
Lemma apart_database fuel n bound c bound' c' R fs : apart fs bound c bound' c' -> db_env (engine c') n -> Forall (fun f => ~ 1 <= f <= 4 /\ f <> kFuncMetaId) fs ->
  database fuel n bound c R -> database fuel n bound' c' R.
Proof.
  intros [A1 A2 A3 A4] He Hf [[M1 M2 M3 M4] D2 D3 (ps & frows & F1 & F2 & F3)]. rewrite list.Forall_forall in Hf.
  assert (forall i, 1 <= i <= 4 \/ i = kFuncMetaId -> i ∉ fs) as Hi by (intros i Hi Hin; destruct (Hf i Hin); lia). split; [|done|done|].
  - split; [done|intros i Hb; rewrite A2; by apply M2|intros i Hb; rewrite A3 by auto; by apply M3|]. intros i Hb. destruct (M4 i Hb) as [qs Hq]. exists qs. apply A4; auto.
  - exists ps, frows. rewrite A1. cbn [func_cols set_engine engine]. split; [apply A4; auto|]. split; [rewrite A3 by auto; exact F2|exact F3].
Qed.


(** * An example: a table just created *)
Lemma meta_more fuel fuel' n bound e R : (fuel <= fuel')%nat -> meta_ok fuel n bound e R -> meta_ok fuel' n bound e R.
Proof. intros Hle [M1 M2 M3 M4]. split; [done..| |done]. intros i Hi. pose proof (M3 i Hi). lia. Qed.
Definition roomy_catalog : Catalog := mkCat (Engine.begin_txn (engine_new 8 ∅ [])).2 9 20002 3 false 0 [] [].
Lemma roomy_boot_ready : boot_ready 100 8 (fun _ => 0) (engine roomy_catalog).
Proof.
  split; [exact wide_env|split; [|vm_compute; discriminate]]. intros i Hi. apply (fresh_empty i). revert i Hi. apply list.Forall_forall. repeat (apply Forall_cons_2; [discriminate|]). apply Forall_nil_2.
Qed.
Definition public_account : TableRef := mkTableRef "public" "account".
Definition accounts : TableMeta := mkMeta 20001 9 "account" account_cols.
Lemma sample_accounts : exists bound c R, database 400 8 bound c R /\ in_step 400 bound 8 c accounts [] [] [] 0 10 /\ listed R public_account accounts /\ bound 9 <= 1.
Proof.
  destruct (bootstrap_run 100 8 ltac:(lia) (fun _ => 0) roomy_catalog roomy_boot_ready) as (e0 & b0 & R & _ & Hm & HR & Hg & [B1 B2] & Hst).
  destruct (db_step_env _ _ _ _ 8 (proj1 roomy_boot_ready) Hst) as [Hd0 Hdr]. set (c0 := set_engine e0 roomy_catalog).
  assert (forall f, 4 < f -> fresh_file b0 e0 f) as Hf.
  { intros f Hf. apply (fresh_step (fun g => 1 <= g <= 4) (fun _ => 0) b0 (engine roomy_catalog) e0 f Hst); [lia|by apply Hg|exact Hdr|apply fresh_empty; lia]. }
  destruct (init_table_run 8 ltac:(lia) b0 c0 5 [] Hd0 (Hf 5 ltac:(lia))) as (e1 & _ & A2 & A3 & A4 & A5). set (b1 := bump b0 5 1) in *. change (engine c0) with e0 in *.
  assert (forall f, 5 < f -> fresh_file b1 e1 f) as F1 by (intros f Hlt; apply (fresh_step (eq 5) b0 b1 e0 e1 f A5); [lia|apply bump_other; lia|exact A3|apply Hf; lia]).
  destruct (init_table_run 8 ltac:(lia) b1 (set_engine e1 c0) 6 [] A2 (F1 6 ltac:(lia))) as (e2 & _ & C2 & C3 & C4 & C5). set (b2 := bump b1 6 1) in *. cbn [engine set_engine] in C5, C3.
  assert (fresh_file b2 e2 9) as F9 by (apply (fresh_step (eq 6) b1 b2 e1 e2 9 C5); [lia|apply bump_other; lia|exact C3|apply F1; lia]).
  assert (meta_ok 100 8 b2 e2 R) as Hm2.
  { eapply (meta_frame _ _ (eq 6) b1 b2 e1 e2); [exact C5|intros i Hi; split; [lia|apply bump_other; lia]|]. eapply (meta_frame _ _ (eq 5) b0 b1 e0 e1); [exact A5| |exact Hm].
    intros i Hi. split; [lia|apply bump_other; lia]. }
  destruct (db_step_holding _ b1 b2 _ _ 5 _ _ _ C5 ltac:(done) eq_refl A4) as [A6 _].
  assert (meta_ok 200 8 b2 e2 R) as Hm3 by (apply (meta_more 100); [lia|exact Hm2]).
  destruct (insert_meta 200 8 ltac:(lia) b2 (set_engine e2 roomy_catalog) R 3 (schema_meta_row 2 "public") Hm3 ltac:(lia)) as (r & e3 & R1 & _ & D2 & [D3 D4] & D5);
    [by apply schema_row_fits|pose proof (mt_fuel _ _ _ _ _ Hm2 3 ltac:(lia)); lia..|]. set (b3 := bump b2 3 2) in *. change (engine (set_engine e2 roomy_catalog)) with e2 in D5.
  destruct (db_step_holding _ b2 b3 _ _ 5 _ _ _ D5 ltac:(done) eq_refl A6) as [A7 _]. destruct (db_step_holding _ b2 b3 _ _ 6 _ _ _ D5 ltac:(done) eq_refl C4) as [C6 _].
  destruct (db_step_env _ _ _ _ 8 (mt_env _ _ _ _ _ Hm3) D5) as [_ Hdr3].
  assert (fresh_file b3 e3 9) as G9 by (apply (fresh_step (eq 3) b2 b3 e2 e3 9 D5); [lia|apply bump_other; lia|exact Hdr3|exact F9]).
  assert (creatable 2 public_account account_cols (R1 1)) as Hcr by (apply account_creatable; rewrite D4, HR by lia; by vm_compute).
  assert (b3 1 = 9 /\ b3 2 = 51) as [B31 B32] by (unfold b3, b2, b1; by rewrite !bump_other, B1, B2 by lia).
  destruct (create_impl_run 200 8 ltac:(lia) b3 (set_engine e3 roomy_catalog) R1 2 public_account account_cols 20001 D2 Hcr G9 ltac:(done)) as (e4 & b4 & R2 & _ & T1 & T2 & T3 & T4 & T5 & T6 & T7 & T8);
    [unfold room; rewrite B31, B32; change (zlen account_cols) with 3; lia|]. cbn [next_file_id set_engine engine roomy_catalog] in T2, T5, T6, T7, T8.
  assert (forall f cs, f = 5 \/ f = 6 -> holding b3 e3 f cs [] [] -> holding b4 e4 f cs [] []) as Hlate.
  { intros f cs Hf5 Hh. apply (db_step_holding (fun g => g = 9 \/ g = 1 \/ g = 2) b3 b4 e3 e4 f cs [] [] T8); [lia|apply T6; lia|exact Hh]. }
  destruct (db_step_env _ _ _ _ 8 (mt_env _ _ _ _ _ D2) T8) as [Hd4 Hdr4].
  assert (R1 4 = inserted type_meta_cols <$> type_meta_rows) as Hty by (rewrite D4 by lia; by apply booted_types).
  exists b4, (set_engine e4 (with_file_id (set_engine e3 roomy_catalog))), R2. split; [|split; [|split]].
  - split; cbn [engine set_engine func_cols with_file_id set_ids roomy_catalog]; [apply (meta_more 200); [lia|exact T1]|by rewrite (T4 kTypeMetaId) by done| |].
    + intros tid cs Hc. apply columns_short in Hc. assert (length (R2 kColumnMetaId) = 28%nat) as E by (rewrite (T3 : R2 kColumnMetaId = _), D4, HR by lia; by vm_compute). unfold UINT16_MAX. lia.
    + exists [], []. split; [by apply Hlate; [right|]|]. split; [|constructor]. rewrite (T6 kFuncMetaId) by done. change (b3 kFuncMetaId) with (b0 6 + 1). rewrite Hg by lia. lia.
  - pose proof T5 as [H1 H2 H3 H4]. split; cbn [engine set_engine index_cols func_cols with_file_id set_ids roomy_catalog tfile_id accounts cols table_id].
    + exact Hd4.
    + apply (bool_decide_unpack _). by vm_compute.
    + intros f _. assert (dropped e4 = []) as ->; [|apply not_elem_of_nil]. rewrite Hdr4, Hdr3, C3, A3. etrans; [exact Hdr|done].
    + exact account_cols_ok.
    + exists [], []. split; [by apply Hlate; [left|]|]. split; [cbn; lia|done].
    + split; [by apply (db_read_env b4 e4 8 9 account_cols [] [])|exact H1|exact H3|exact H4|constructor| |constructor].
      pose proof (table_short e4 9 _ [] H2 (proj1 H1) (proj1 H3)). cbn. lia.
  - apply (created_listed R1 R2 public_account 2 20001 9 account_cols); try done; [rewrite D3, HR by lia; by vm_compute|].
    rewrite D4, HR by lia. change (boot_rows 2) with (column_rows_of 4 type_meta_cols ++ column_rows_of 1 table_meta_cols ++ column_rows_of 2 column_meta_cols ++ column_rows_of 3 schema_meta_cols ++ []).
    repeat apply Forall_app_2; try apply Forall_nil_2; by apply column_rows_fresh.
  - by rewrite T7.
Qed.
(** [INSERT INTO account VALUES (1, 'ann', NULL), (2, NULL, 3.5)], in the schema public. *)
Definition account_insert : SQLStatement := InsertStmt (mkQName "" "account") []
  [[IntExpr (str "1"); StringExpr (str "ann"); NullExpr]; [IntExpr (str "2"); NullExpr; DecimalExpr (str "3.5")]].
Definition account_handle : TableHandle := mkHandle accounts "public.account".
Definition account_rows : list (list BoundExpr) :=
  [[BoundConst (int_val kInt 1); BoundConst (str_val kVarChar (str "ann")); BoundConst null_val];
   [BoundConst (int_val kInt 2); BoundConst null_val; BoundConst (numeric_val kNumeric 35 1)]].
Lemma account_insert_analyzed F T boot : T public_account = Ok accounts -> @analyze (seeded F T boot) "public" account_insert = Ok (BoundInsert account_handle account_rows).
Proof.
  intros Ht. unfold account_insert. cbn [analyze]. change (to_table_ref (mkQName "" "account") "public") with public_account.
  unfold parse_insert. cbn [dir_bootstrap dir_table seeded].
  assert ((if boot then Ok tt else check_reserved_table public_account) = Ok tt) as -> by (by destruct boot). cbn [mbind result_bind]. rewrite Ht.
  cbn [mbind result_bind]. vm_compute. reflexivity.
Qed.
Definition account_values : list (list Value) := [[int_val kInt 1; str_val kVarChar (str "ann"); null_val]; [int_val kInt 2; null_val; numeric_val kNumeric 350 2]].
Lemma account_values_fit : Forall (fits account_cols) account_values.
Proof.
  apply Forall_cons_2; [exact ann_fits|apply Forall_cons_2; [|apply Forall_nil_2]]. apply row_fits; [exact account_cols_ok| |done|by vm_compute|by vm_compute].
  apply Forall_cons_2; [by split|]. apply Forall_cons_2; [done|apply Forall_cons_2; [|apply Forall_nil_2]]. by vm_compute.
Qed.
