(* ===== verification/InTxn.v ===== *)
(** Statements neither open nor end a transaction: every operation of the pool, the trees, the engine and the catalog but the transaction calls
    leaves the transaction context, and the pool's link to it, as present or absent as it was. *)
From S2P Require Import Prelude Types Key Codec Page Wal Disk Recovery State Node Pool Tree Engine Bind Plan Query Stmt Meta Analyze Explain Catalog Exec.

(** An operation keeps an observation of the state, whatever its outcome. *)
Definition keeps {S A O} (f : S -> O) (m : ST S A) : Prop := forall s, f (m s).2 = f s.
Create HintDb keeps.

Section keeps.
Context {S O : Type} (f : S -> O).
Lemma keeps_ret {A} (a : A) : keeps f (mret a).
Proof. done. Qed.
Lemma keeps_bind {A B} (m : ST S A) (k : A -> ST S B) : keeps f m -> (forall a, keeps f (k a)) -> keeps f (m ≫= k).
Proof. intros Hm Hk s. rewrite run_match. specialize (Hm s). destruct (m s) as [[a| |] s1]; cbn [snd] in *; [by rewrite Hk|done..]. Qed.
Lemma keeps_gets {A} (g : S -> A) : keeps f (gets g).
Proof. done. Qed.
Lemma keeps_modify (g : S -> S) : (forall s, f (g s) = f s) -> keeps f (modify g).
Proof. intros H s. apply H. Qed.
Lemma keeps_raise {A} c : keeps f (@raise S A c).
Proof. done. Qed.
Lemma keeps_crash {A} : keeps f (@crash S A).
Proof. done. Qed.
Lemma keeps_lift {A} (r : result A) : keeps f (lift r).
Proof. done. Qed.
Lemma keeps_unwinding {A} (c : ST S unit) (m : ST S A) : keeps f c -> keeps f m -> keeps f (unwinding c m).
Proof.
  intros Hc Hm s. unfold unwinding. specialize (Hm s). destruct (m s) as [[a|e|] s1]; cbn [snd] in *; [done| |done]. specialize (Hc s1).
  destruct (c s1) as [[a| |] s2]; cbn [snd] in *; congruence.
Qed.
Lemma keeps_forM {A} (l : list A) (k : A -> ST S unit) : (forall a, keeps f (k a)) -> keeps f (forM l k).
Proof. intros Hk. induction l as [|x l IH]; [done|]. cbn [forM]. by apply keeps_bind. Qed.
Lemma keeps_traverse {A B} (l : list A) (k : A -> ST S B) : (forall a, keeps f (k a)) -> keeps f (traverse l k).
Proof. intros Hk. induction l as [|x l IH]; [done|]. cbn [traverse]. apply keeps_bind; [done|]. intros y. by apply keeps_bind. Qed.
(** A call that looks at the state first. *)
Lemma keeps_look {A} (m : S -> ST S A) : (forall s, keeps f (m s)) -> keeps f (fun s => m s s).
Proof. intros H s. apply H. Qed.
End keeps.
Ltac keeps := intros; repeat first
  [ progress cbv beta zeta | solve [auto 2 with keeps] | apply keeps_ret | apply keeps_gets | apply keeps_raise | apply keeps_crash | apply keeps_lift
  | apply keeps_unwinding | apply keeps_forM; intros | apply keeps_traverse; intros
  | apply keeps_bind; [|intros]
  | match goal with |- keeps _ (match ?x with _ => _ end) => destruct x end
  | apply keeps_modify; intros; solve [reflexivity | repeat case_match; reflexivity] ].

(** At a given state. *)
Ltac at_state := match goal with |- ?f (?m ?s).2 = ?f ?s => apply (fun H : keeps f m => H s) end.
(** A definition that looks at the state it is run on. *)
Ltac keeps_at := let s := fresh "s" in intros s; cbv beta zeta; repeat case_match; solve [reflexivity | at_state; keeps].

(** * The buffer pool *)
(** Whether there is a transaction, and whether the pool is attached to it. *)
Definition txn_of (s : Store) : bool * bool := (match ctx s with Some _ => true | None => false end, attached s).
Lemma keeps_write_back i : keeps txn_of (write_back i).
Proof. intros s. unfold write_back. by repeat case_match. Qed.
Lemma keeps_log_page_diff i : keeps txn_of (log_page_diff i).
Proof. intros s. unfold log_page_diff, txn_of. destruct (ctx s) as [c|] eqn:E; cbn; by rewrite ?E. Qed.
#[export] Hint Resolve keeps_write_back keeps_log_page_diff : keeps.
Lemma keeps_evict_loop n k : keeps txn_of (evict_loop n k).
Proof.
  revert k. induction n as [|n IH]; intros k; cbn [evict_loop]; [done|]. intros s. cbv zeta. destruct (0 <? _); [apply IH|]. destruct (valid _ && _).
  - by rewrite (IH (Datatypes.S k)).
  - at_state. keeps.
Qed.
Lemma keeps_evict : keeps txn_of evict.
Proof. intros s. apply keeps_evict_loop. Qed.
#[export] Hint Resolve keeps_evict_loop keeps_evict : keeps.
Lemma keeps_read p m : keeps txn_of (Pool.read p m).
Proof. unfold Pool.read. keeps_at. Qed.
Lemma keeps_allocate p : keeps txn_of (allocate p).
Proof. unfold allocate. keeps_at. Qed.
Lemma keeps_unpin i : keeps txn_of (unpin i).
Proof. unfold unpin. keeps_at. Qed.
Lemma keeps_mark_dirty i : keeps txn_of (mark_dirty i).
Proof. unfold mark_dirty. keeps_at. Qed.
Lemma keeps_restore_region p o l b : keeps txn_of (restore_region p o l b).
Proof. unfold restore_region. keeps_at. Qed.
Lemma keeps_flush p : keeps txn_of (flush p).
Proof. unfold flush. keeps_at. Qed.
Lemma keeps_flush_all : keeps txn_of flush_all.
Proof. unfold flush_all. keeps_at. Qed.
Lemma keeps_drop_table fid : keeps txn_of (Pool.drop_table fid).
Proof. unfold Pool.drop_table. intros s. at_state. keeps. Qed.
Lemma keeps_poke i b : keeps txn_of (poke i b).
Proof. unfold poke. keeps. Qed.
#[export] Hint Resolve keeps_read keeps_allocate keeps_unpin keeps_mark_dirty keeps_restore_region keeps_flush keeps_flush_all keeps_drop_table keeps_poke : keeps.

(** * The trees *)
Definition tree_txn (t : TreeState) : bool * bool := txn_of (store t).
Lemma keeps_pooled {A} (m : ST Store A) : keeps txn_of m -> keeps tree_txn (pooled m).
Proof. intros H t. unfold pooled, tree_txn. specialize (H (store t)). by destruct (m (store t)). Qed.
#[export] Hint Resolve keeps_pooled | 1 : keeps.
Lemma keeps_tree_page no : keeps tree_txn (tree_page no).
Proof. unfold tree_page. keeps. Qed.
Lemma keeps_page_bytes i : keeps tree_txn (page_bytes i).
Proof. unfold page_bytes. keeps. Qed.
#[export] Hint Resolve keeps_tree_page keeps_page_bytes : keeps.
Lemma keeps_finish i b : keeps tree_txn (finish i b).
Proof. unfold finish. keeps. Qed.
#[export] Hint Resolve keeps_finish : keeps.
Lemma keeps_disk_edit (g : Store -> gmap Z bytes) : keeps txn_of (modify (fun s => set_disk (g s) s)).
Proof. keeps. Qed.
#[export] Hint Resolve keeps_disk_edit : keeps.
Lemma keeps_create : keeps tree_txn Tree.create.
Proof. unfold Tree.create. keeps. Qed.
Lemma keeps_open : keeps tree_txn Tree.open.
Proof. unfold Tree.open. keeps. Qed.
Lemma keeps_new_page : keeps tree_txn new_page.
Proof. unfold new_page. keeps. Qed.
Lemma keeps_read_tree no : keeps tree_txn (read_tree no).
Proof. unfold read_tree. keeps. Qed.
Lemma keeps_set_root no : keeps tree_txn (set_root no).
Proof. unfold set_root. keeps. Qed.
#[export] Hint Resolve keeps_create keeps_open keeps_new_page keeps_read_tree keeps_set_root : keeps.
Lemma keeps_insert_leaf pg p e : keeps tree_txn (insert_leaf pg p e).
Proof. unfold insert_leaf. keeps. Qed.
Lemma keeps_insert_node pg p j r : keeps tree_txn (insert_node pg p j r).
Proof. unfold insert_node. keeps. Qed.
#[export] Hint Resolve keeps_insert_leaf keeps_insert_node : keeps.
Lemma keeps_insert_rec n : forall no e, keeps tree_txn (insert_rec n no e).
Proof. induction n; cbn [insert_rec]; keeps. Qed.
#[export] Hint Resolve keeps_insert_rec : keeps.
Lemma keeps_tree_insert e : keeps tree_txn (Tree.insert e).
Proof. unfold Tree.insert. keeps_at. Qed.
Lemma keeps_descend n lo probe : forall pg, keeps tree_txn (descend n lo probe pg).
Proof. induction n; cbn [descend]; keeps. Qed.
#[export] Hint Resolve keeps_tree_insert keeps_descend : keeps.
Lemma keeps_scan_open n lo hi : keeps tree_txn (scan_open n lo hi).
Proof. unfold scan_open. keeps. Qed.
Lemma keeps_scan_close c : keeps tree_txn (scan_close c).
Proof. unfold scan_close. keeps. Qed.
Lemma keeps_scan_turn c : keeps tree_txn (scan_turn c).
Proof. unfold scan_turn. keeps. Qed.
#[export] Hint Resolve keeps_scan_open keeps_scan_close keeps_scan_turn : keeps.
Lemma keeps_scan_next n : forall c, keeps tree_txn (scan_next n c).
Proof. induction n; cbn [scan_next]; keeps. Qed.
#[export] Hint Resolve keeps_scan_next : keeps.
Lemma keeps_scan_drain n : forall c, keeps tree_txn (scan_drain n c).
Proof. induction n; cbn [scan_drain]; keeps. Qed.
#[export] Hint Resolve keeps_scan_drain : keeps.
Lemma keeps_tree_scan n lo hi : keeps tree_txn (Tree.scan n lo hi).
Proof. unfold Tree.scan. keeps. Qed.
#[export] Hint Resolve keeps_tree_scan : keeps.

(** * The engine *)
Definition engine_txn (e : Engine) : bool * bool := txn_of (pool e).
Lemma keeps_stored {A} (m : ST Store A) : keeps txn_of m -> keeps engine_txn (stored m).
Proof. intros H e. unfold stored, engine_txn. specialize (H (pool e)). by destruct (m (pool e)). Qed.
Lemma keeps_treed {A} fid (m : ST TreeState A) : keeps tree_txn m -> keeps engine_txn (treed fid m).
Proof. intros H e. unfold treed, engine_txn. destruct (trees e !! fid) as [b|]; [|done]. specialize (H (mkTS (pool e) b)). by destruct (m _). Qed.
Lemma keeps_bytes_of i : keeps engine_txn (bytes_of i).
Proof. done. Qed.
Lemma keeps_on_wal g : keeps engine_txn (on_wal g).
Proof. apply keeps_stored. keeps. Qed.
Lemma keeps_on_ctx g : keeps engine_txn (on_ctx g).
Proof. apply keeps_stored. intros s. unfold txn_of. cbn. by destruct (ctx s). Qed.
#[export] Hint Resolve keeps_stored keeps_treed | 1 : keeps.
#[export] Hint Resolve keeps_bytes_of keeps_on_wal keeps_on_ctx : keeps.
Lemma keeps_check_txn fid : keeps engine_txn (check_txn fid).
Proof. unfold check_txn. keeps. Qed.
Lemma keeps_checkpoint : keeps engine_txn checkpoint.
Proof. unfold checkpoint. keeps. Qed.
Lemma keeps_log_drop fid : keeps engine_txn (log_drop fid).
Proof. unfold log_drop. keeps. Qed.
Lemma keeps_track_tail fid t : keeps engine_txn (track_tail fid t).
Proof. unfold track_tail. keeps. Qed.
Lemma keeps_defer_drop fid : keeps engine_txn (defer_drop fid).
Proof. apply keeps_on_ctx. Qed.
#[export] Hint Resolve keeps_check_txn keeps_checkpoint keeps_log_drop keeps_track_tail keeps_defer_drop : keeps.
Lemma keeps_init_table_file fid : keeps engine_txn (init_table_file fid).
Proof. unfold init_table_file. keeps. Qed.
Lemma keeps_remove_table_file fid : keeps engine_txn (remove_table_file fid).
Proof. unfold remove_table_file. keeps. Qed.
Lemma keeps_link_header fid : keeps engine_txn (link_header_to_first_data_page fid).
Proof. unfold link_header_to_first_data_page. keeps. Qed.
Lemma keeps_skip_zero n fid : keeps engine_txn (skip_zero n fid).
Proof.
  induction n; cbn [skip_zero]; [done|]. apply keeps_bind; [|keeps]. apply keeps_stored. intros s. by destruct (read_page _ _ _).
Qed.
Lemma keeps_append_loop fid rec n : forall t, keeps engine_txn (append_loop n fid rec t).
Proof. induction n; cbn [append_loop]; keeps. Qed.
#[export] Hint Resolve keeps_init_table_file keeps_remove_table_file keeps_link_header keeps_skip_zero keeps_append_loop : keeps.
Lemma keeps_find_tail fid : keeps engine_txn (find_tail fid).
Proof. unfold find_tail, disk_tail_page. keeps. Qed.
#[export] Hint Resolve keeps_find_tail : keeps.
Lemma keeps_insert_row fid cs vs : keeps engine_txn (insert_row fid cs vs).
Proof. unfold insert_row. keeps. Qed.
Lemma keeps_check_row_ref r : keeps engine_txn (check_row_ref r).
Proof. unfold check_row_ref. keeps. Qed.
#[export] Hint Resolve keeps_insert_row keeps_check_row_ref : keeps.
Lemma keeps_delete_row r : keeps engine_txn (delete_row r).
Proof. unfold delete_row. keeps. Qed.
Lemma keeps_read_row r cs : keeps engine_txn (Engine.read_row r cs).
Proof. unfold Engine.read_row. keeps. Qed.
Lemma keeps_first_page fid : keeps engine_txn (first_page fid).
Proof. unfold first_page. keeps. Qed.
#[export] Hint Resolve keeps_delete_row keeps_read_row keeps_first_page : keeps.
Lemma keeps_walk {A} fid (visit : Z -> bytes -> ST Engine (list A)) : (forall no p, keeps engine_txn (visit no p)) -> forall n no, keeps engine_txn (walk n fid no visit).
Proof. intros Hv. induction n; intros no; cbn [walk]; destruct (no =? 0); keeps. Qed.
Lemma keeps_decode_slot cs p i : keeps engine_txn (decode_slot cs p i).
Proof. unfold decode_slot. keeps. Qed.
#[export] Hint Resolve keeps_decode_slot : keeps.
Lemma keeps_read_rows n fid cs : keeps engine_txn (read_rows n fid cs).
Proof. unfold read_rows. keeps. apply keeps_walk. keeps. Qed.
Lemma keeps_delete_all_rows n fid : keeps engine_txn (delete_all_rows n fid).
Proof. unfold delete_all_rows. keeps. apply keeps_walk. keeps. Qed.
Lemma keeps_scanner_open fid cs : keeps engine_txn (scanner_open fid cs).
Proof. unfold scanner_open. keeps. Qed.
Lemma keeps_scanner_close c : keeps engine_txn (scanner_close c).
Proof. unfold scanner_close. keeps. Qed.
Lemma keeps_advance_page c : keeps engine_txn (advance_page c).
Proof. unfold advance_page. keeps. Qed.
#[export] Hint Resolve keeps_read_rows keeps_delete_all_rows keeps_scanner_open keeps_scanner_close keeps_advance_page : keeps.
Lemma keeps_scanner_next n : forall c, keeps engine_txn (scanner_next n c).
Proof. induction n; cbn [scanner_next]; keeps. Qed.
#[export] Hint Resolve keeps_scanner_next : keeps.
Lemma keeps_tree_for fid : keeps engine_txn (tree_for fid).
Proof. unfold tree_for. keeps. Qed.
#[export] Hint Resolve keeps_tree_for : keeps.
Lemma keeps_init_index_file fid : keeps engine_txn (init_index_file fid).
Proof. unfold init_index_file. keeps. Qed.
Lemma keeps_remove_index_file fid : keeps engine_txn (remove_index_file fid).
Proof. unfold remove_index_file. keeps. Qed.
Lemma keeps_index_insert fid k r : keeps engine_txn (index_insert fid k r).
Proof. unfold index_insert. keeps. Qed.
Lemma keeps_index_scan n fid lo hi : keeps engine_txn (Engine.index_scan n fid lo hi).
Proof. unfold Engine.index_scan. keeps. Qed.
Lemma keeps_build_loop cs o ifid n : forall c k, keeps engine_txn (build_loop n cs o ifid c k).
Proof. induction n; cbn [build_loop]; keeps. Qed.
#[export] Hint Resolve keeps_init_index_file keeps_remove_index_file keeps_index_insert keeps_index_scan keeps_build_loop : keeps.
Lemma keeps_build_index n tfid cs o ifid : keeps engine_txn (build_index n tfid cs o ifid).
Proof. unfold build_index. keeps. Qed.
#[export] Hint Resolve keeps_build_index : keeps.

(** * The catalog *)
Definition catalog_txn (c : Catalog) : bool * bool := engine_txn (engine c).
Lemma keeps_on_engine {A} (m : ST Engine A) : keeps engine_txn m -> keeps catalog_txn (on_engine m).
Proof. intros H c. unfold on_engine, catalog_txn. specialize (H (engine c)). by destruct (m (engine c)). Qed.
#[export] Hint Resolve keeps_on_engine | 1 : keeps.
Section catalog_keeps.
Context (n : nat).
Lemma keeps_meta_rows tid cs : keeps catalog_txn (meta_rows n tid cs).
Proof. unfold meta_rows. keeps. Qed.
#[local] Hint Resolve keeps_meta_rows : keeps.
Lemma keeps_all_types : keeps catalog_txn (all_types n).
Proof. unfold all_types. keeps. Qed.
#[local] Hint Resolve keeps_all_types : keeps.
Lemma keeps_collect_columns tid : keeps catalog_txn (collect_columns n tid).
Proof. unfold collect_columns. keeps. Qed.
#[local] Hint Resolve keeps_collect_columns : keeps.
Lemma keeps_scan_loop {A} (f : Row -> result (option A)) k : forall sc, keeps engine_txn (scan_loop n k f sc).
Proof. induction k; cbn [scan_loop]; keeps. Qed.
#[local] Hint Resolve keeps_scan_loop : keeps.
Lemma keeps_scan_where {A} fid cs (f : Row -> result (option A)) : keeps engine_txn (scan_where n fid cs f).
Proof. unfold scan_where. keeps. Qed.
#[local] Hint Resolve keeps_scan_where : keeps.
Lemma keeps_table_indexes tid : keeps catalog_txn (table_indexes n tid).
Proof. unfold table_indexes. keeps. Qed.
Lemma keeps_has_index_name tid s : keeps catalog_txn (has_index_name n tid s).
Proof. unfold has_index_name. keeps. Qed.
Lemma keeps_resolve_schema_id t : keeps catalog_txn (resolve_schema_id n t).
Proof. unfold resolve_schema_id. keeps. Qed.
Lemma keeps_has_table_name s t : keeps catalog_txn (has_table_name n s t).
Proof. unfold has_table_name. keeps. Qed.
Lemma keeps_has_table_id t : keeps catalog_txn (has_table_id n t).
Proof. unfold has_table_id. keeps. Qed.
Lemma keeps_has_schema_name s : keeps catalog_txn (has_schema_name n s).
Proof. unfold has_schema_name. keeps. Qed.
#[local] Hint Resolve keeps_table_indexes keeps_has_index_name keeps_resolve_schema_id keeps_has_table_name keeps_has_table_id keeps_has_schema_name : keeps.
Lemma keeps_find_index tid s : keeps catalog_txn (find_index n tid s).
Proof. unfold find_index. keeps. Qed.
Lemma keeps_insert_row_in fid cs vs : keeps catalog_txn (insert_row_in fid cs vs).
Proof. unfold insert_row_in. keeps. Qed.
Lemma keeps_alloc_file_id : keeps catalog_txn alloc_file_id.
Proof. unfold alloc_file_id. keeps. Qed.
Lemma keeps_alloc_table_id : keeps catalog_txn alloc_table_id.
Proof. unfold alloc_table_id. keeps. Qed.
Lemma keeps_alloc_schema_id : keeps catalog_txn alloc_schema_id.
Proof. unfold alloc_schema_id. keeps. Qed.
#[local] Hint Resolve keeps_find_index keeps_insert_row_in keeps_alloc_file_id keeps_alloc_table_id keeps_alloc_schema_id : keeps.
Lemma keeps_write_meta_rows sid tid fid s cs : keeps catalog_txn (write_meta_rows sid tid fid s cs).
Proof. unfold write_meta_rows. keeps. Qed.
#[local] Hint Resolve keeps_write_meta_rows : keeps.
Lemma keeps_create_table_impl sid t cs tid : keeps catalog_txn (create_table_impl n sid t cs tid).
Proof. unfold create_table_impl. keeps. Qed.
#[local] Hint Resolve keeps_create_table_impl : keeps.
Lemma keeps_create_table_bootstrap sid t cs : keeps catalog_txn (create_table_bootstrap n sid t cs).
Proof. unfold create_table_bootstrap. keeps. Qed.
#[local] Hint Resolve keeps_create_table_bootstrap : keeps.
Lemma keeps_create_table t cs : keeps catalog_txn (create_table n t cs).
Proof. unfold create_table. keeps. Qed.
Lemma keeps_create_schema s : keeps catalog_txn (create_schema n s).
Proof. unfold create_schema. keeps. Qed.
Lemma keeps_delete_meta_rows tid : keeps catalog_txn (delete_meta_rows n tid).
Proof. unfold delete_meta_rows. keeps. Qed.
#[local] Hint Resolve keeps_delete_meta_rows : keeps.
Lemma keeps_drop_table_of t : keeps catalog_txn (drop_table n t).
Proof. unfold drop_table. keeps. Qed.
Lemma keeps_schema_row name k : forall sc, keeps engine_txn (schema_row n k name sc).
Proof. induction k; cbn [schema_row]; keeps. Qed.
#[local] Hint Resolve keeps_schema_row : keeps.
Lemma keeps_drop_schema s : keeps catalog_txn (drop_schema n s).
Proof. unfold drop_schema. keeps. Qed.
Lemma keeps_create_index t s o : keeps catalog_txn (create_index n t s o).
Proof. unfold create_index. keeps. Qed.
Lemma keeps_drop_index t s : keeps catalog_txn (drop_index n t s).
Proof. unfold drop_index. keeps. Qed.
Lemma keeps_index_row m vs ref x : keeps catalog_txn (index_row m vs ref x).
Proof. unfold index_row. keeps. Qed.
#[local] Hint Resolve keeps_index_row : keeps.
Lemma keeps_row_insert m vs : keeps catalog_txn (insert n m vs).
Proof. unfold insert. keeps. Qed.
Lemma keeps_delete_by_ref r : keeps catalog_txn (delete_by_ref r).
Proof. unfold delete_by_ref, file_exists. keeps. Qed.
Lemma keeps_update_row m ents u : keeps catalog_txn (update_row m ents u).
Proof. unfold update_row. keeps. Qed.
#[local] Hint Resolve keeps_row_insert keeps_delete_by_ref keeps_update_row : keeps.
Lemma keeps_update_rows m us : keeps catalog_txn (update_rows n m us).
Proof. unfold update_rows. keeps. Qed.
Lemma keeps_delete_all m : keeps catalog_txn (delete_all n m).
Proof. unfold delete_all. keeps. Qed.
#[local] Hint Resolve keeps_create_table keeps_create_schema keeps_drop_table_of keeps_drop_schema keeps_create_index keeps_drop_index
  keeps_update_rows keeps_delete_all : keeps.

(** * A statement *)
Lemma keeps_plan_rows p : keeps catalog_txn (plan_rows n p).
Proof. unfold plan_rows. keeps. Qed.
#[local] Hint Resolve keeps_plan_rows : keeps.
Lemma keeps_run_delete_where p : keeps catalog_txn (run_delete_where n p).
Proof. unfold run_delete_where. keeps. Qed.
Lemma keeps_run_update t a p : keeps catalog_txn (run_update n t a p).
Proof. unfold run_update. keeps. Qed.
Lemma keeps_insert_rows t rows : keeps catalog_txn (insert_rows n t rows).
Proof. unfold insert_rows. keeps. Qed.
Lemma keeps_run_select p : keeps catalog_txn (run_select n p).
Proof. unfold run_select. keeps. Qed.
#[local] Hint Resolve keeps_run_delete_where keeps_run_update keeps_insert_rows keeps_run_select : keeps.
Lemma keeps_run_plan p : keeps catalog_txn (run_plan n p).
Proof. unfold run_plan. keeps. Qed.
#[local] Hint Resolve keeps_run_plan : keeps.
Lemma execute_in_txn schema s : keeps catalog_txn (execute n schema s).
Proof. unfold execute. keeps. Qed.
End catalog_keeps.

(** * The calls that open and close a transaction *)
Lemma begin_opens c : catalog_txn c = (false, false) -> exists c', Catalog.begin_txn c = (Ok tt, c') /\ catalog_txn c' = (true, true) /\
  bootstrap_mode c' = bootstrap_mode c.
Proof.
  unfold catalog_txn, engine_txn, txn_of. intros [= H1 H2]. unfold Catalog.begin_txn, on_engine, Engine.begin_txn. rewrite run_gets.
  destruct (ctx (pool (engine c))) eqn:E; [done|]. unfold stored, modify. destruct (wal_alloc_txn_id _). eexists. split; [done|]. done.
Qed.
(** A call that returns. *)
Definition returns {S A} (m : ST S A) : Prop := forall s, exists a, (m s).1 = Ok a.
Lemma returns_bind {S A B} (m : ST S A) (k : A -> ST S B) : returns m -> (forall a, returns (k a)) -> returns (m ≫= k).
Proof. intros Hm Hk s. rewrite run_match. destruct (Hm s) as [a Ha]. destruct (m s) as [r s1]; cbn in Ha; subst r. apply Hk. Qed.
Lemma returns_forM {S A} (l : list A) (k : A -> ST S unit) : (forall a, returns (k a)) -> returns (forM l k).
Proof. intros Hk. induction l as [|x l IH]; [by exists tt|]. cbn [forM]. by apply returns_bind. Qed.
Lemma returns_modify {S} (g : S -> S) : returns (modify g).
Proof. by exists tt. Qed.
Lemma returns_ret {S A} (a : A) : returns (mret a : ST S A).
Proof. by exists a. Qed.
Lemma returns_stored {A} (m : ST Store A) : returns m -> returns (stored m).
Proof. intros H e. unfold stored. destruct (H (pool e)) as [a Ha]. exists a. by destruct (m (pool e)). Qed.
Lemma returns_restore_region p o l b : returns (restore_region p o l b).
Proof. intros s. exists tt. unfold restore_region. by repeat case_match. Qed.
Ltac returns := repeat first [apply returns_ret | apply returns_modify | apply returns_stored | apply returns_forM; intros | apply returns_restore_region
  | match goal with |- returns (match ?x with _ => _ end) => destruct x end | apply returns_bind; [|intros]].

(** How a call ends that closes the transaction. *)
Definition closed {S} (f : S -> bool * bool) {A} (r : result A * S) : Prop := (exists a, r.1 = Ok a) /\ f r.2 = (false, false).
Lemma closed_bind {S A B} (f : S -> bool * bool) (m : ST S A) (k : A -> ST S B) x : returns m -> keeps f m ->
  (forall a s, f s = x -> closed f (k a s)) -> forall s, f s = x -> closed f ((m ≫= k) s).
Proof.
  intros Hr Hm Hk s Hs. rewrite run_match. specialize (Hm s). destruct (Hr s) as [a Ha]. destruct (m s) as [r s1]; cbn in Ha; subst r. apply Hk. by rewrite <- Hs.
Qed.
Lemma closed_last e : engine_txn e = (true, false) -> closed engine_txn (stored (modify (set_ctx None)) e).
Proof. intros [= _ H]. split; [by exists tt|]. unfold engine_txn, txn_of. cbn. by rewrite H. Qed.
(** The first step of both ends detaches the pool. *)
Lemma detached {B} e (k : unit -> ST Engine B) : engine_txn e = (true, true) -> (forall e1, engine_txn e1 = (true, false) -> closed engine_txn (k tt e1)) ->
  closed engine_txn ((stored (modify (set_txn false)) ≫= k) e).
Proof. intros He Hk. erewrite run_bind by reflexivity. apply Hk. unfold engine_txn, txn_of in *. cbn. by destruct (ctx (pool e)). Qed.
Ltac closing := first [by apply closed_last | intros _ ? ?; closing | eapply closed_bind; [by returns|keeps|closing|eassumption] ].
Lemma engine_commit_closes e : engine_txn e = (true, true) -> closed engine_txn (Engine.commit_txn e).
Proof.
  intros He. unfold Engine.commit_txn. rewrite run_gets. destruct (ctx (pool e)) as [c|] eqn:E; [|unfold engine_txn, txn_of in He; by rewrite E in He].
  apply detached; [done|]. intros e1 H1. closing.
Qed.
Lemma engine_rollback_closes e : engine_txn e = (true, true) -> closed engine_txn (Engine.rollback_txn e).
Proof.
  intros He. unfold Engine.rollback_txn. rewrite run_gets. destruct (ctx (pool e)) as [c|] eqn:E; [|unfold engine_txn, txn_of in He; by rewrite E in He].
  apply detached; [done|]. intros e1 H1. closing. apply keeps_stored. keeps.
Qed.
Lemma on_engine_closes (m : ST Engine unit) c : closed engine_txn (m (engine c)) -> closed catalog_txn (on_engine m c).
Proof. unfold on_engine, closed. by destruct (m (engine c)) as [[| |] e]. Qed.
(** The catalog's rollback of a transaction returns; its commit may still end in the checkpoint that follows it. *)
Lemma rollback_closes c : catalog_txn c = (true, true) -> exists c', rollback_txn c = (Ok tt, c') /\ catalog_txn c' = (false, false).
Proof.
  intros Hc. destruct (on_engine_closes Engine.rollback_txn c (engine_rollback_closes _ Hc)) as [[[] H1] H2]. unfold rollback_txn.
  destruct (on_engine Engine.rollback_txn c) as [r c']. exists c'. cbn in *. by subst.
Qed.
Lemma commit_closes bytes c : catalog_txn c = (true, true) -> match commit_txn bytes c with (Fatal, _) => True | (_, c') => catalog_txn c' = (false, false) end.
Proof.
  intros Hc. unfold commit_txn. rewrite run_match. unfold rethrowing.
  destruct (on_engine_closes Engine.commit_txn c (engine_commit_closes _ Hc)) as [[[] H1] H2]. destruct (on_engine Engine.commit_txn c) as [r c1]. cbn in H1, H2. subst r.
  rewrite run_gets. destruct (_ >=? _); [|exact H2]. assert (keeps catalog_txn (on_engine checkpoint)) as Hk by keeps.
  specialize (Hk c1). destruct (on_engine checkpoint c1) as [[[]|e|] c2]; cbn in *; [congruence..|done].
Qed.
