(* ===== verification/Reply.v ===== *)
(** Replies of the server (src/server/session.cpp, src/log/log.h): log levels, error codes and values on their way to the wire, notices, and
    the frames of a result set. *)
From S2P Require Import Prelude Types Text Codec Cast State Query Proto.

(** * Log levels *)
Inductive LogLevel := DEBUG5 | DEBUG4 | DEBUG3 | DEBUG2 | DEBUG | INFO | NOTICE | WARNING | ERROR | CRITICAL.
#[export] Instance LogLevel_eq_dec : EqDecision LogLevel.
Proof. solve_decision. Defined.
Definition all_levels : list LogLevel := [DEBUG5; DEBUG4; DEBUG3; DEBUG2; DEBUG; INFO; NOTICE; WARNING; ERROR; CRITICAL].
(** [static_cast<int>]: the enumerators are numbered from 0. *)
Definition level_code (l : LogLevel) : Z :=
  match l with
  | DEBUG5 => 0 | DEBUG4 => 1 | DEBUG3 => 2 | DEBUG2 => 3 | DEBUG => 4 | INFO => 5 | NOTICE => 6 | WARNING => 7 | ERROR => 8 | CRITICAL => 9
  end.
Definition levelToString (l : LogLevel) : string :=
  match l with
  | DEBUG5 => "DEBUG5" | DEBUG4 => "DEBUG4" | DEBUG3 => "DEBUG3" | DEBUG2 => "DEBUG2" | DEBUG => "DEBUG" | INFO => "INFO" | NOTICE => "NOTICE"
  | WARNING => "WARNING" | ERROR => "ERROR" | CRITICAL => "CRITICAL"
  end.
(** The level of a name, in any case of its letters. *)
Definition same_name (s t : bytes) : bool := (zlen s =? zlen t) && forallb (fun p => lower p.1 =? lower p.2) (zip s t).
Definition levelFromString (name : bytes) : option LogLevel := List.find (fun l => same_name name (str (levelToString l))) all_levels.

(** * Codes and tags *)
Definition to_wire (c : ErrCode) : Wire.WireErrCode :=
  match c with
  | IoError => Wire.IoError | CatalogMissing => Wire.CatalogMissing | CatalogExists => Wire.CatalogExists | InvalidType => Wire.InvalidType
  | TableNotFound => Wire.TableNotFound | TableExists => Wire.TableExists | SchemaNotFound => Wire.SchemaNotFound | SchemaExists => Wire.SchemaExists
  | SchemaNotEmpty => Wire.SchemaNotEmpty | IndexExists => Wire.IndexExists | IndexNotFound => Wire.IndexNotFound
  | ProtectedTable => Wire.ProtectedTable | InvalidDdl => Wire.InvalidDdl | ValueMismatch => Wire.ValueMismatch | RecordTooLong => Wire.RecordTooLong
  | ArithError => Wire.ArithError | UnknownColumn => Wire.UnknownColumn | UnknownVar => Wire.UnknownVar | UnknownStmt => Wire.UnknownStmt
  | NotImplemented => Wire.NotImplemented | Internal => Wire.Internal | SyntaxError => Wire.SyntaxError | TxnActive => Wire.TxnActive
  | NoActiveTxn => Wire.NoActiveTxn | DdlInTxn => Wire.DdlInTxn | BootstrapMode => Wire.BootstrapMode | TooManyClients => Wire.TooManyClients
  | InvalidVarValue => Wire.InvalidVarValue | StarNoFrom => Wire.StarNoFrom | UnknownFunction => Wire.UnknownFunction
  end.
Definition tag_log_name (t : CommandTag) : string :=
  match t with
  | TagEmpty => "EMPTY" | TagCreateTable => "CREATE" | TagDropTable => "DROP" | TagCreateSchema => "CREATE_SCHEMA" | TagDropSchema => "DROP_SCHEMA"
  | TagCreateIndex => "CREATE_INDEX" | TagDropIndex => "DROP_INDEX" | TagInsert => "INSERT" | TagDelete => "DELETE" | TagUpdate => "UPDATE"
  | TagSet => "SET" | TagBegin => "BEGIN" | TagCommit => "COMMIT" | TagRollback => "ROLLBACK"
  end.

(** * Cells *)
(** [for (i = 15; i >= 0; --i) { bytes[i] = mag & 0xff; mag >>= 8; }]: the lowest byte first. *)
Fixpoint low_bytes (n : nat) (mag : Z) : bytes :=
  match n with O => [] | S n => Z.land mag 0xff :: low_bytes n (Z.shiftr mag 8) end.
(** [b = ~b; if (carry) { ++b; carry = b == 0; }] from the lowest byte on. *)
Fixpoint negate (carry : bool) (bs : bytes) : bytes :=
  match bs with
  | [] => []
  | b :: bs =>
      let b := wrap 8 (Z.lnot b) in
      if carry then let b := wrap 8 (b + 1) in b :: negate (b =? 0) bs else b :: negate false bs
  end.
Definition dec_cell (d : DecimalVal) : CellVal :=
  let low := low_bytes 16 (Z.abs (unscaled d)) in
  CellDecimal (rev (if unscaled d <? 0 then negate true low else low)) (scale d).
Definition to_cell (v : Value) : result CellVal :=
  if value_is_null v then Ok CellNull
  else match rep (vtype v) with
  | RepBool => b ← Cast.get_bool v; Ok (CellBool b)
  | RepInt64 => i ← get_i64 v; Ok (CellInt i)
  | RepFloat => f ← get_f32 v; Ok (CellFloat f)
  | RepDouble => d ← get_f64 v; Ok (CellDouble d)
  | RepStr => s ← get_str_view v; Ok (CellString s)
  | RepDec => d ← get_dec v; Ok (dec_cell d)
  | RepNone => Raise Internal
  end.

(** * Replies *)
(** The frames a server sends; the text of an error is left out. *)
Inductive Reply :=
| ROk (tag : CommandTag) (count : Z)
| RError (code : ErrCode)
| RNotice (level : LogLevel) (text : bytes)
| RHead (names : list bytes)
| RBatch (rows : list (list CellVal))
| REnd (total : Z).
(** The type and the body of a frame; [text] is the message of an error. *)
Definition reply_frame (text : bytes) (r : Reply) : Z * bytes :=
  match r with
  | ROk tag count => (msg_code MsgOk, encode_command tag count)
  | RError code => (msg_code MsgError, encode_error (to_wire code) text)
  | RNotice level text => (msg_code MsgNotice, encode_notice (level_code level) text)
  | RHead names => (msg_code MsgResultSetHead, encode_rs_head names)
  | RBatch rows => (msg_code MsgResultSetBatch, encode_rs_batch rows)
  | REnd total => (msg_code MsgResultSetEnd, encode_rs_end total)
  end.
Definition reply_bytes (text : bytes) (r : Reply) : bytes := frame_bytes (reply_frame text r).1 (reply_frame text r).2.
(** The other end of the connection: the frames it has been sent, and how many more it takes before it is gone, if it goes. *)
Record Peer := mkPeer { sent : list Reply; room : option nat }.
Definition send_frame (r : Reply) : ST Peer bool := fun p =>
  match room p with
  | None => (Ok true, mkPeer (sent p ++ [r]) None)
  | Some O => (Ok false, p)
  | Some (S n) => (Ok true, mkPeer (sent p ++ [r]) (Some n))
  end.
Definition send_error (code : ErrCode) : ST Peer unit := _ ← send_frame (RError code); mret tt.
Definition send_notice (session_level msg_level : LogLevel) (text : bytes) : ST Peer unit :=
  if level_code msg_level <? level_code session_level then mret tt else _ ← send_frame (RNotice msg_level text); mret tt.

(** * Result sets *)
(** The loop of pulls: the cells still unsent and the number of rows, or [None] when the peer is gone. *)
Fixpoint send_rows (rows : list Row) (fin : result unit) (batch : list (list CellVal)) (total : Z) : ST Peer (option (list (list CellVal) * Z)) :=
  match rows with
  | [] => _ ← lift fin; mret (Some (batch, total))
  | row :: rows =>
      cells ← lift (mapM to_cell (rvalues row));
      let batch := batch ++ [cells] in
      let total := wrap 64 (total + 1) in
      if RS_BATCH_MAX_ROWS <=? zlen batch then
        ok ← send_frame (RBatch batch);
        if ok : bool then send_rows rows fin [] total else mret None
      else send_rows rows fin batch total
  end.
Definition rows_text (total : Z) : bytes := str "执行结果: 返回 " ++ format_int total ++ str " 行".
Definition send_result_stream (names : list string) (s : stream Row) (level : LogLevel) : ST Peer bool :=
  ok ← send_frame (RHead (str <$> names));
  if negb ok then mret false
  else
    r ← send_rows s.1 s.2 [] 0;
    match r with
    | None => mret false
    | Some (batch, total) =>
        ok ← (if is_nil batch then mret true else send_frame (RBatch batch));
        if negb ok then mret false
        else
          _ ← send_notice level DEBUG (rows_text total);
          send_frame (REnd total)
    end.

(** * A numeric's cell is its two's complement *)
Lemma low_bytes_le n : forall mag, low_bytes n mag = le_bytes n mag.
Proof. induction n as [|n IH]; intros mag; [done|]. cbn [low_bytes le_bytes]. by rewrite IH, land_ones8, Z.shiftr_div_pow2 by lia. Qed.
Lemma negate_false bs : negate false bs = (fun b => wrap 8 (Z.lnot b)) <$> bs.
Proof. induction bs as [|b bs IH]; [done|]. cbn [negate fmap list_fmap]. by rewrite IH. Qed.
Lemma negate_true bs : negate true bs = incr_bytes ((fun b => wrap 8 (Z.lnot b)) <$> bs).
Proof.
  induction bs as [|b bs IH]; [done|]. cbn [negate fmap list_fmap incr_bytes]. destruct (_ =? 0); [by rewrite IH|]. by rewrite negate_false.
Qed.
Lemma dec_cell_bytes d : Z.abs (unscaled d) < 2 ^ 127 -> dec_cell d = CellDecimal (be_bytes 16 (unscaled d mod 2 ^ 128)) (scale d).
Proof.
  intros Hu. unfold dec_cell, be_bytes. rewrite low_bytes_le, negate_true. do 2 f_equal. by rewrite <- dec_bytes_le.
Qed.

(** * The cells of a value *)
(** Values a column can hold: a text is at most 65535 bytes long, a numeric below 10^38. *)
Definition sendable (v : Value) : Prop :=
  wf_value v /\ match box v with BStr s => zlen s <= UINT16_MAX | BDec d => Z.abs (unscaled d) < kNumericUnscaledMax | _ => True end.
(** The cell of a value by its alternative. *)
Definition cell_of (b : Box) : CellVal :=
  match b with
  | BNull => CellNull | BBool b => CellBool b | BInt i => CellInt i | BDouble d => CellDouble d | BFloat f => CellFloat f | BStr s => CellString s
  | BDec d => dec_cell d
  end.
Lemma to_cell_box v : wf_value v -> to_cell v = Ok (cell_of (box v)).
Proof.
  intros [_ Hr]. unfold to_cell, get_i64, Cast.get_bool, get_f32, get_f64, get_str_view, get_dec, value_is_null in *. destruct (box v) eqn:E; [done|..];
    by rewrite (Hr eq_refl).
Qed.
Lemma cell_of_ok v : sendable v -> cell_ok (cell_of (box v)).
Proof.
  intros [[Hw _] Hs]. destruct (box v) as [|b|i|x|f|s|d]; try done. cbn [cell_of wf_box] in *. pose proof max_lt_2_127.
  rewrite dec_cell_bytes by lia. split; [|done]. split; [by rewrite zlen_be_bytes|]. apply be_bytes_ok.
Qed.
Definition row_cells (row : Row) : list CellVal := cell_of ∘ box <$> rvalues row.
Lemma mapM_cells vs : Forall wf_value vs -> mapM to_cell vs = Ok (cell_of ∘ box <$> vs).
Proof. induction 1 as [|v vs Hv _ IH]; [done|]. cbn [mapM fmap list_fmap]. by rewrite to_cell_box, IH. Qed.

(** * The frames of a result set *)
Definition sendable_row (row : Row) : Prop := Forall sendable (rvalues row).
Lemma row_cells_ok row : sendable_row row -> mapM to_cell (rvalues row) = Ok (row_cells row) /\ Forall cell_ok (row_cells row).
Proof.
  intros H. split; [apply mapM_cells; eapply Forall_impl; [|exact H]; by intros v [? _]|]. apply Forall_fmap. eapply Forall_impl; [|exact H]. apply cell_of_ok.
Qed.
(** A peer that never goes away, after it has been sent more frames. *)
Definition heard (p : Peer) (rs : list Reply) : Peer := mkPeer (sent p ++ rs) None.
Lemma heard_nil p : room p = None -> heard p [] = p.
Proof. destruct p. unfold heard. cbn. by rewrite app_nil_r; intros ->. Qed.
Lemma heard_app p rs ss : heard (heard p rs) ss = heard p (rs ++ ss).
Proof. unfold heard. cbn. by rewrite <- app_assoc. Qed.
Lemma send_frame_heard r p : room p = None -> send_frame r p = (Ok true, heard p [r]).
Proof. unfold send_frame. by intros ->. Qed.
Definition notices (level : LogLevel) (msg_level : LogLevel) (text : bytes) : list Reply :=
  if level_code msg_level <? level_code level then [] else [RNotice msg_level text].
Lemma send_notice_heard level msg_level text p : room p = None -> send_notice level msg_level text p = (Ok tt, heard p (notices level msg_level text)).
Proof.
  intros Hp. unfold send_notice, notices. destruct (_ <? _); [by rewrite heard_nil|]. by run (send_frame_heard (RNotice msg_level text) p Hp).
Qed.
(** Batches of 256 rows, the last one of at most as many. *)
Definition full_batches (bs : list (list (list CellVal))) : Prop := Forall (fun b => zlen b = RS_BATCH_MAX_ROWS) bs.
Lemma send_rows_heard rows fin : Forall sendable_row rows -> forall batch total p, room p = None -> zlen batch < RS_BATCH_MAX_ROWS ->
  exists bs rest, full_batches bs /\ zlen rest < RS_BATCH_MAX_ROWS /\ batch ++ (row_cells <$> rows) = concat bs ++ rest /\
    send_rows rows fin batch total p = (_ ← fin; Ok (Some (rest, if is_nil rows then total else wrap 64 (total + zlen rows))), heard p (RBatch <$> bs)).
Proof.
  induction 1 as [|row rows Hrow _ IH]; intros batch total p Hp Hb.
  - exists [], batch. cbn [fmap list_fmap]. rewrite heard_nil by done. split_and!; [constructor|done|by rewrite app_nil_r|]. by destruct fin.
  - destruct (row_cells_ok row Hrow) as [Hc _]. cbn [send_rows]. unfold lift at 1. rewrite Hc. rewrite run_match. cbv zeta.
    assert (wrap 64 (total + zlen (row :: rows)) = if is_nil rows then wrap 64 (total + 1) else wrap 64 (wrap 64 (total + 1) + zlen rows)) as Ht.
    { destruct rows as [|r rows]; cbn [is_nil]; [reflexivity|]. unfold wrap. rewrite Zplus_mod_idemp_l, (zlen_cons row). f_equal. lia. }
    cbn [is_nil]. rewrite Ht. assert (zlen (batch ++ [row_cells row]) = zlen batch + 1) as Hl by (by rewrite zlen_app).
    destruct (Z.leb_spec RS_BATCH_MAX_ROWS (zlen (batch ++ [row_cells row]))) as [Hfull|Hmore].
    + run (send_frame_heard (RBatch (batch ++ [row_cells row])) p Hp).
      destruct (IH [] (wrap 64 (total + 1)) (heard p [RBatch (batch ++ [row_cells row])])) as (bs & rest & H1 & H2 & H3 & H4); [done..|].
      exists ((batch ++ [row_cells row]) :: bs), rest. split_and!; [|done| |].
      * constructor; [lia|done].
      * cbn [fmap list_fmap concat]. cbn [app] in H3. rewrite <- app_assoc, <- H3. by rewrite <- app_assoc.
      * rewrite H4. by rewrite heard_app.
    + destruct (IH (batch ++ [row_cells row]) (wrap 64 (total + 1)) p) as (bs & rest & H1 & H2 & H3 & H4); [done|lia|].
      exists bs, rest. split_and!; [done..| |done]. rewrite <- H3. cbn [fmap list_fmap]. by rewrite <- app_assoc.
Qed.
(** The frames of a result set that is pulled to its end: the head, the rows in order in batches of 256, and the end with their number. *)
Definition batched (rows : list Row) (bs : list (list (list CellVal))) : Prop :=
  row_cells <$> rows = concat bs /\ Forall (fun b => 0 < zlen b <= RS_BATCH_MAX_ROWS) bs /\ full_batches (removelast bs).
Lemma full_bounds bs : full_batches bs -> Forall (fun b => 0 < zlen b <= RS_BATCH_MAX_ROWS) bs.
Proof. intros H. eapply Forall_impl; [|exact H]. cbv beta. unfold RS_BATCH_MAX_ROWS. lia. Qed.
Lemma result_stream_sent names rows level p : Forall sendable_row rows -> zlen rows < 2 ^ 64 -> room p = None ->
  exists bs, batched rows bs /\ send_result_stream names (rows, Ok tt) level p =
    (Ok true, heard p (RHead (str <$> names) :: (RBatch <$> bs) ++ notices level DEBUG (rows_text (zlen rows)) ++ [REnd (zlen rows)])).
Proof.
  intros Hrows Hn Hp. unfold send_result_stream. run (send_frame_heard (RHead (str <$> names)) p Hp). cbn [negb].
  destruct (send_rows_heard rows (Ok tt) Hrows [] 0 (heard p [RHead (str <$> names)])) as (bs & rest & H1 & H2 & H3 & H4); [done..|].
  cbn [fst snd] in *. run H4. cbn [mbind result_bind].
  assert ((if is_nil rows then 0 else wrap 64 (0 + zlen rows)) = zlen rows) as ->.
  { destruct rows as [|r rows]; [done|]. cbn [is_nil]. apply wrap_small. pose proof (zlen_nonneg (r :: rows)). lia. }
  cbn [app] in H3. rewrite heard_app. set (q := heard p _). exists (bs ++ (if is_nil rest then [] else [rest])). split.
  - split_and!.
    + rewrite H3, concat_app. f_equal. destruct rest; [done|]. cbn. by rewrite app_nil_r.
    + apply Forall_app. split; [by apply full_bounds|]. destruct rest as [|r rest]; [constructor|]. cbn [is_nil]. constructor; [|done].
      rewrite zlen_cons in *. pose proof (zlen_nonneg rest). lia.
    + destruct rest as [|r rest]; cbn [is_nil]; [|by rewrite removelast_last]. rewrite app_nil_r. clear -H1.
      induction H1 as [|b bs Hb _ IH]; [constructor|]. destruct bs; [constructor|]. by constructor.
  - assert (forall qs, (_ ← send_notice level DEBUG (rows_text (zlen rows)); send_frame (REnd (zlen rows))) (heard p qs) =
      (Ok true, heard p (qs ++ notices level DEBUG (rows_text (zlen rows)) ++ [REnd (zlen rows)]))) as Hend.
    { intros qs. run (send_notice_heard level DEBUG (rows_text (zlen rows)) (heard p qs) eq_refl). rewrite send_frame_heard by done. by rewrite !heard_app, <- ?app_assoc. }
    destruct rest as [|r rest]; cbn [is_nil].
    + run1. cbn [negb]. unfold q. rewrite Hend. by rewrite app_nil_r, <- app_assoc.
    + unfold q. run (send_frame_heard (RBatch (r :: rest)) (heard p ([RHead (str <$> names)] ++ (RBatch <$> bs))) eq_refl). cbn [negb].
      rewrite heard_app, Hend. rewrite fmap_app, <- !app_assoc. done.
Qed.
(** An error on the way leaves the head and the full batches before it. *)
Lemma result_stream_broken names rows c level p : Forall sendable_row rows -> room p = None ->
  exists bs rest, full_batches bs /\ row_cells <$> rows = concat bs ++ rest /\ zlen rest < RS_BATCH_MAX_ROWS /\
    send_result_stream names (rows, Raise c) level p = (Raise c, heard p (RHead (str <$> names) :: (RBatch <$> bs))).
Proof.
  intros Hrows Hp. unfold send_result_stream. run (send_frame_heard (RHead (str <$> names)) p Hp). cbn [negb].
  destruct (send_rows_heard rows (Raise c) Hrows [] 0 (heard p [RHead (str <$> names)])) as (bs & rest & H1 & H2 & H3 & H4); [done..|].
  exists bs, rest. split_and!; [done..|]. cbn [fst snd] in *. rewrite run_match, H4. cbn [mbind result_bind]. by rewrite heard_app.
Qed.
