(* ===== verification/Client.v ===== *)
(** The client (src/client/render.cpp, client.cpp): the text of cells and commands, the table of a result set, the frames of a reply as they
    are received, and the buffer that gathers a statement. *)
From S2P Require Import Prelude Types Text Codec Cast State Query Proto Reply.

(** * Text *)
(** [static_cast<LogLevel>(level)] of a level byte. *)
Definition level_of_code (v : Z) : option LogLevel := List.find (fun l => level_code l =? v) all_levels.
Definition level_text (v : Z) : bytes := match level_of_code v with Some l => str (levelToString l) | None => str "UNKNOWN" end.
Definition newline : bytes := [10].
Definition print_notice (level : Z) (text : bytes) : bytes := level_text level ++ str ": " ++ text ++ newline.
(** [cur = carry * 256 + b; b = cur / 10; carry = cur % 10], from the highest byte on. *)
Fixpoint div_ten (carry : Z) (bs : bytes) : bytes * Z :=
  match bs with
  | [] => ([], carry)
  | b :: bs => let cur := carry * 256 + b in let '(qs, r) := div_ten (cur mod 10) bs in (cur / 10 :: qs, r)
  end.
Definition any_set (bs : bytes) : bool := existsb (fun b => negb (b =? 0)) bs.
(** The digits of a magnitude, lowest first; [fuel] bounds their number. *)
Fixpoint collect_digits (fuel : nat) (bs : bytes) : bytes :=
  match fuel with
  | O => []
  | S fuel => if any_set bs then let '(qs, r) := div_ten 0 bs in 48 + r :: collect_digits fuel qs else []
  end.
Definition insert_point (neg : bool) (ds : bytes) (scale : Z) : bytes :=
  if scale =? 0 then if neg then 45 :: ds else ds
  else
    let ds := if zlen ds <=? scale then replicate (Z.to_nat (scale - zlen ds + 1)) 48 ++ ds else ds in
    (if neg then [45] else []) ++ slice 0 (zlen ds - scale) ds ++ [46] ++ slice (zlen ds - scale) (scale) ds.
Definition decimal_text (digits : bytes) (scale : Z) : bytes :=
  let neg := negb (Z.land (default 0 (head digits)) 0x80 =? 0) in
  let b := if neg then rev (negate true (rev digits)) else digits in
  let ds := collect_digits 39 b in
  let ds := if is_nil ds then [48] else ds in
  insert_point neg (rev ds) scale.
Definition cell_text (c : CellVal) : bytes :=
  match c with
  | CellInt i => format_int i
  | CellDouble d => format_float Ieee.binary64 d
  | CellFloat f => format_float Ieee.binary32 f
  | CellString s => s
  | CellDecimal digits scale => decimal_text digits scale
  | CellBool b => if b then str "true" else str "false"
  | CellNull => str "NULL"
  end.
Definition command_display (tag : CommandTag) (count : Z) : bytes :=
  match tag with
  | TagCreateTable | TagCreateSchema | TagCreateIndex => str "CREATE"
  | TagDropTable | TagDropSchema | TagDropIndex => str "DROP"
  | TagInsert => str "INSERT " ++ format_int count
  | TagDelete => str "DELETE " ++ format_int count
  | TagUpdate => str "UPDATE " ++ format_int count
  | TagSet => str "SET" | TagBegin => str "BEGIN" | TagCommit => str "COMMIT" | TagRollback => str "ROLLBACK"
  | TagEmpty => []
  end.

(** * The table of a result set *)
Record ResultSet := mkRS { rs_cols : list bytes; rs_rows : list (list CellVal) }.
(** A row has as many cells as there are columns: the decoder has seen to it. *)
Definition row_texts (ncol : nat) (row : list CellVal) : list bytes := (fun c => cell_text (nth c row CellNull)) <$> seq 0 ncol.
Definition widen (widths : list Z) (texts : list bytes) : list Z := zip_with (fun w t => if zlen t >? w then zlen t else w) widths texts.
Definition spaces (n : Z) : bytes := replicate (Z.to_nat n) 32.
(** [print_row]: column [c] of [ncol]. *)
Definition print_cell (ncol : nat) (centered : bool) (c : nat) (wt : Z * bytes) : bytes :=
  let '(w, t) := wt in
  let pad := if w >? zlen t then w - zlen t else 0 in
  let lead := if centered then pad / 2 else 0 in
  (if (0 <? c)%nat then str "|" else []) ++ str " " ++ spaces lead ++ t ++ (if (c + 1 <? ncol)%nat then spaces (pad - lead) ++ str " " else []).
Definition print_row (widths : list Z) (texts : list bytes) (centered : bool) : bytes :=
  concat (imap (print_cell (length texts) centered) (zip widths texts)) ++ newline.
Definition print_ruler (widths : list Z) : bytes :=
  concat (imap (fun c w => (if (0 <? c)%nat then str "+" else []) ++ replicate (Z.to_nat (w + 2)) 45) widths) ++ newline.
Definition render_result_set (rs : ResultSet) : bytes :=
  let cells := row_texts (length (rs_cols rs)) <$> rs_rows rs in
  let widths := fold_left widen cells (zlen <$> rs_cols rs) in
  print_row widths (rs_cols rs) true ++
  (if is_nil (rs_rows rs) then str "(0 行)" ++ newline
   else print_ruler widths ++ concat ((fun t => print_row widths t false) <$> cells) ++ str "(" ++ format_int (zlen (rs_rows rs)) ++ str " 行)" ++ newline).

(** * Receiving a reply *)
(** What is printed goes to the standard output; the diagnostics of the standard error are left out. *)
Section client.
Context {S : Type} `{Socket S} (calls : nat).
(** [frames] bounds the frames received; [calls] the calls of the socket for one frame. [true]: the set is complete. *)
Fixpoint recv_result_stream (frames : nat) (rs : ResultSet) (out : bytes) (s : S) : option (bool * ResultSet * bytes * S) :=
  match frames with
  | O => None
  | Datatypes.S frames =>
      '(f, s) ← recv_frame calls 0 s;
      match f with
      | None => Some (false, rs, out, s)
      | Some (t, b) =>
          if t =? msg_code MsgResultSetBatch then
            let '(rows, ok) := decode_rs_batch b (wrap 32 (zlen (rs_cols rs))) (rs_rows rs) in
            if ok then recv_result_stream frames (mkRS (rs_cols rs) rows) out s else Some (false, mkRS (rs_cols rs) rows, out, s)
          else if t =? msg_code MsgResultSetEnd then
            match decode_rs_end b with
            | Some total => Some (total =? zlen (rs_rows rs), rs, out, s)
            | None => Some (false, rs, out, s)
            end
          else if t =? msg_code MsgError then
            match decode_error b with
            | Some (_, text) => Some (false, rs, out ++ str "ERROR: " ++ text ++ newline, s)
            | None => Some (false, rs, out, s)
            end
          else if t =? msg_code MsgNotice then
            match decode_notice b with
            | Some (level, text) => recv_result_stream frames rs (out ++ print_notice level text) s
            | None => Some (false, rs, out, s)
            end
          else Some (false, rs, out, s)
      end
  end.
(** The reply to a statement, after notices: what is printed, and whether the statement failed. *)
Fixpoint recv_reply (frames : nat) (out : bytes) (s : S) : option (bool * bytes * S) :=
  match frames with
  | O => None
  | Datatypes.S frames =>
      '(f, s) ← recv_frame calls 0 s;
      match f with
      | None => Some (true, out, s)
      | Some (t, b) =>
          if t =? msg_code MsgNotice then
            match decode_notice b with
            | Some (level, text) => recv_reply frames (out ++ print_notice level text) s
            | None => Some (true, out, s)
            end
          else if t =? msg_code MsgError then
            Some (true, out ++ match decode_error b with Some (_, text) => str "ERROR: " ++ text ++ newline | None => [] end, s)
          else if t =? msg_code MsgOk then
            match decode_command b with
            | Some (tag, count) => Some (false, out ++ (if bool_decide (tag = TagEmpty) then [] else command_display tag count ++ newline), s)
            | None => Some (true, out, s)
            end
          else if t =? msg_code MsgResultSetHead then
            let '(cols, ok) := decode_rs_head b in
            if ok then
              '(done, rs, out, s) ← recv_result_stream frames (mkRS cols []) out s;
              Some (if done : bool then (false, out ++ render_result_set rs, s) else (true, out, s))
            else Some (true, out, s)
          else Some (true, out, s)
      end
  end.

(** * The statement buffer *)
Record Client := mkClient { sql_buffer : bytes; sql_overflow : bool; sql_failed : bool; printed : bytes; sock : S }.
Definition SQL_BUFFER_LIMIT : Z := 268435456.
Definition reset_sql_buffer (c : Client) : Client := mkClient [] false (sql_failed c) (printed c) (sock c).
Definition append_to_sql (text : bytes) (c : Client) : Client :=
  if sql_overflow c then c
  else if zlen (sql_buffer c) + zlen text >? SQL_BUFFER_LIMIT then mkClient [] true true (printed c) (sock c)
  else mkClient (sql_buffer c ++ text) false (sql_failed c) (printed c) (sock c).
Definition send_to_server (frames : nat) (c : Client) : option Client :=
  if sql_overflow c then Some (reset_sql_buffer c)
  else if is_nil (sql_buffer c) then Some c
  else
    '(ok, s) ← Proto.send_frame calls (msg_code MsgQuery) (sql_buffer c) (sock c);
    let c := mkClient (sql_buffer c) (sql_overflow c) (sql_failed c) (printed c) s in
    if negb ok then Some (reset_sql_buffer (mkClient (sql_buffer c) (sql_overflow c) true (printed c) (sock c)))
    else
      let c := reset_sql_buffer c in
      '(failed, out, s) ← recv_reply frames (printed c) (sock c);
      Some (mkClient (sql_buffer c) (sql_overflow c) (sql_failed c || failed) out s).
End client.

Example table_text : render_result_set (mkRS [str "a"; str "name"] [[CellInt 10; CellString (str "x")]; [CellNull; dec_cell (mkDec (-5) 3)]]) =
  str "  a   |  name" ++ newline ++ str "------+--------" ++ newline ++ str " 10   | x" ++ newline ++ str " NULL | -0.005" ++ newline ++ str "(2 行)" ++ newline.
Proof. by vm_compute. Qed.

(** * The text of a numeric *)
Definition be_val (bs : bytes) : Z := le_val (rev bs).
Lemma be_val_cons b bs : be_val (b :: bs) = b * 256 ^ zlen bs + be_val bs.
Proof. unfold be_val. cbn [rev]. rewrite le_val_app. unfold zlen. rewrite length_rev. cbn [le_val]. lia. Qed.
Lemma be_val_bound bs : Forall byte_ok bs -> 0 <= be_val bs < 256 ^ zlen bs.
Proof. intros H. unfold be_val. replace (zlen bs) with (zlen (rev bs)) by (unfold zlen; by rewrite length_rev). apply le_val_bound. by apply Forall_rev. Qed.
Lemma div_ten_spec bs : Forall byte_ok bs -> forall carry, 0 <= carry < 10 -> let '(qs, r) := div_ten carry bs in
  Forall byte_ok qs /\ zlen qs = zlen bs /\ 0 <= r < 10 /\ carry * 256 ^ zlen bs + be_val bs = be_val qs * 10 + r.
Proof.
  induction 1 as [|b bs Hb _ IH]; intros carry Hc.
  - cbn [div_ten]. split_and!; [constructor|done|lia..|]. unfold be_val, zlen. cbn. lia.
  - cbn [div_ten]. set (cur := carry * 256 + b). specialize (IH (cur mod 10) ltac:(apply Z.mod_pos_bound; lia)). destruct (div_ten (cur mod 10) bs) as [qs r].
    destruct IH as (H1 & H2 & H3 & H4). unfold byte_ok in Hb. pose proof (Z.div_mod cur 10 ltac:(lia)) as Hd. split_and!; [|by rewrite !zlen_cons, H2|lia|lia|].
    + constructor; [|done]. unfold byte_ok. split; [apply Z.div_pos; unfold cur; lia|apply Z.div_lt_upper_bound; unfold cur; lia].
    + rewrite !be_val_cons, zlen_cons, H2, Z.pow_add_r by (pose proof (zlen_nonneg bs); lia). change (256 ^ 1) with 256. nia.
Qed.
Lemma any_set_spec bs : Forall byte_ok bs -> any_set bs = negb (be_val bs =? 0).
Proof.
  induction 1 as [|b bs Hb Hbs IH]; [done|]. cbn [any_set existsb]. unfold any_set in IH. rewrite IH, be_val_cons. pose proof (be_val_bound bs Hbs). unfold byte_ok in Hb.
  assert (0 < 256 ^ zlen bs) by (apply Z.pow_pos_nonneg; [lia|apply zlen_nonneg]).
  destruct (Z.eqb_spec b 0), (Z.eqb_spec (be_val bs) 0), (Z.eqb_spec (b * 256 ^ zlen bs + be_val bs) 0); cbn; nia || done.
Qed.
Lemma collect_digits_spec fuel : forall bs, Forall byte_ok bs -> be_val bs < 10 ^ Z.of_nat fuel -> let ds := rev (collect_digits fuel bs) in
  Forall (fun c => is_digit c = true) ds /\ read_digits 0 ds = be_val bs /\ (be_val bs = 0 -> ds = []) /\ (0 < be_val bs -> 1 <= zlen ds /\ 10 ^ (zlen ds - 1) <= be_val bs).
Proof.
  induction fuel as [|fuel IH]; intros bs Hb Hv; pose proof (be_val_bound bs Hb) as Hv0; cbn [collect_digits].
  - change (10 ^ Z.of_nat 0) with 1 in Hv. cbn. split_and!; [constructor|unfold read_digits; cbn; lia|done|lia].
  - rewrite any_set_spec by done. destruct (Z.eqb_spec (be_val bs) 0) as [E|E]; cbn [negb].
    + cbn. split_and!; [constructor|unfold read_digits; cbn; lia|done|lia].
    + pose proof (div_ten_spec bs Hb 0 ltac:(lia)) as Hd. destruct (div_ten 0 bs) as [qs r]. destruct Hd as (H1 & H2 & H3 & H4). pose proof (be_val_bound qs H1).
      rewrite Nat2Z.inj_succ, Z.pow_succ_r in Hv by lia. destruct (IH qs H1 ltac:(lia)) as (D1 & D2 & D3 & D4). cbn [rev].
      rewrite read_digits_snoc, D2. split_and!; [apply Forall_app_2; [done|]; constructor; [unfold is_digit; lia|constructor]|lia|lia|].
      intros _. rewrite zlen_app. change (zlen [48 + r]) with 1. pose proof (zlen_nonneg (rev (collect_digits fuel qs))) as Hz. split; [lia|].
      replace (zlen (rev (collect_digits fuel qs)) + 1 - 1) with (zlen (rev (collect_digits fuel qs))) by lia. destruct (decide (be_val qs = 0)) as [Z0|Z0].
      * rewrite (D3 Z0). unfold zlen. cbn. lia.
      * destruct (D4 ltac:(lia)) as [D5 D6]. replace (zlen (rev (collect_digits fuel qs))) with (Z.succ (zlen (rev (collect_digits fuel qs)) - 1)) by lia.
        rewrite Z.pow_succ_r by lia. lia.
Qed.
Lemma collected bs : Forall byte_ok bs -> zlen bs = 16 -> let ds := collect_digits 39 bs in rev (if is_nil ds then [48] else ds) = digits (be_val bs).
Proof.
  intros Hb Hl. assert (256 ^ 16 < 10 ^ 39) as H39 by (by vm_compute). pose proof (be_val_bound bs Hb) as Hv. rewrite Hl in Hv. cbv zeta.
  pose proof (collect_digits_spec 39 bs Hb ltac:(change (Z.of_nat 39) with 39; lia)) as (D1 & D2 & D3 & D4). generalize dependent (collect_digits 39 bs). intros ds D1 D2 D3 D4.
  destruct (decide (be_val bs = 0)) as [E|E].
  - specialize (D3 E). apply (f_equal (@rev Z)) in D3. rewrite rev_involutive in D3. subst ds. rewrite E. by vm_compute.
  - destruct (D4 ltac:(lia)) as [D5 D6]. assert (is_nil ds = false) as -> by (destruct ds; [exfalso; unfold zlen in D5; cbn in D5; lia|reflexivity]). symmetry. apply digits_unique; auto.
Qed.
(** The sign bit is in the first byte. *)
Lemma high_bit h : 0 <= h < 256 -> negb (Z.land h 0x80 =? 0) = (128 <=? h).
Proof.
  intros Hh. assert (forallb (fun n => Bool.eqb (negb (Z.land (Z.of_nat n) 0x80 =? 0)) (128 <=? Z.of_nat n)) (seq 0 256) = true) as H by (by vm_compute).
  rewrite forallb_forall in H. specialize (H (Z.to_nat h) ltac:(apply in_seq; lia)). rewrite Z2Nat.id in H by lia. by apply Bool.eqb_prop in H.
Qed.
Lemma be_bytes_head n v : 0 <= v < 256 ^ Z.of_nat (S n) -> exists bs, be_bytes (S n) v = v / 256 ^ Z.of_nat n :: bs.
Proof.
  revert v; induction n as [|n IH]; intros v Hv.
  - exists []. cbn. rewrite Z.div_1_r, Z.mod_small; [done|]. change (256 ^ Z.of_nat 1) with 256 in Hv. lia.
  - rewrite Nat2Z.inj_succ, Z.pow_succ_r in Hv by lia. destruct (IH (v / 256)) as (bs & E); [split; [apply Z.div_pos; lia|apply Z.div_lt_upper_bound; lia]|].
    exists (bs ++ [v mod 256]). rewrite be_bytes_S, E, Z.div_div by lia. rewrite Nat2Z.inj_succ, Z.pow_succ_r by lia. done.
Qed.
Lemma be_val_bytes n v : 0 <= v < 256 ^ Z.of_nat n -> be_val (be_bytes n v) = v.
Proof. intros Hv. unfold be_val, be_bytes. rewrite rev_involutive. by apply le_val_bytes_small. Qed.
Lemma negate_bytes v : 0 < v < 2 ^ 128 -> rev (negate true (rev (be_bytes 16 v))) = be_bytes 16 (2 ^ 128 - v).
Proof.
  intros Hv. unfold be_bytes. rewrite rev_involutive, negate_true. f_equal. destruct (le_val_compl (le_bytes 16 v) (le_bytes_ok _ _)) as [Hok Hc].
  rewrite incr_bytes_le by done. rewrite Hc, zlen_le_bytes, le_val_bytes_small by (change (256 ^ Z.of_nat 16) with (2 ^ 128); lia).
  rewrite length_fmap, length_le_bytes. f_equal. change (256 ^ Z.of_nat 16) with (2 ^ 128). lia.
Qed.
Lemma decimal_text_cell d : Z.abs (unscaled d) < 2 ^ 127 -> cell_text (dec_cell d) = decimal_to_text d.
Proof.
  intros Hu. rewrite dec_cell_bytes by done. cbn [cell_text]. set (u := unscaled d) in *. assert (0 <= u mod 2 ^ 128 < 2 ^ 128) as Hm by (apply Z.mod_pos_bound; lia).
  assert (u mod 2 ^ 128 = if u <? 0 then 2 ^ 128 + u else u) as Em.
  { destruct (Z.ltb_spec u 0); [|by apply Z.mod_small; lia]. symmetry. apply (Z.mod_unique _ _ (-1)); lia. }
  unfold decimal_text. destruct (be_bytes_head 15 (u mod 2 ^ 128)) as (bs & Eb); [done|].
  assert (negb (Z.land (default 0 (head (be_bytes 16 (u mod 2 ^ 128)))) 0x80 =? 0) = (u <? 0)) as En.
  { rewrite Eb. cbn [head default]. change (256 ^ Z.of_nat 15) with (2 ^ 120). change (id ?x) with x. 
    rewrite high_bit by (split; [apply Z.div_pos; lia|apply Z.div_lt_upper_bound; lia]).
    rewrite Em. destruct (Z.ltb_spec u 0).
    - apply Z.leb_le. apply Z.div_le_lower_bound; lia.
    - apply Z.leb_gt. apply Z.div_lt_upper_bound; lia. }
  rewrite En. assert ((if u <? 0 then rev (negate true (rev (be_bytes 16 (u mod 2 ^ 128)))) else be_bytes 16 (u mod 2 ^ 128)) = be_bytes 16 (Z.abs u)) as ->.
  { rewrite Em. destruct (Z.ltb_spec u 0); [rewrite negate_bytes by lia|]; f_equal; lia. }
  pose proof (collected (be_bytes 16 (Z.abs u)) (be_bytes_ok _ _) ltac:(by rewrite zlen_be_bytes)) as Hc. cbv zeta in Hc |- *. rewrite Hc, be_val_bytes by lia.
  unfold insert_point, decimal_to_text. fold u. done.
Qed.

(** * A value as the client shows it *)
Lemma shown_text v : wf_value v -> match box v with BNull | BStr _ => True | BDec d => Z.abs (unscaled d) < 2 ^ 127 | _ => True end ->
  match box v with BNull | BStr _ => True | _ => cast_value v kVarChar Explicit = Ok (str_val kVarChar (cell_text (cell_of (box v)))) end.
Proof.
  intros [_ Hr] Hd. unfold cast_value, value_is_null in *. destruct (box v) as [|b|i|x|f|t|d] eqn:E; try done; rewrite (Hr eq_refl); cbn [box_rep kCastTable rep kVarChar attr];
    unfold bool_to_text, i64_to_text, f64_to_text, f32_to_text, dec_to_text, Cast.get_bool, get_i64, get_f64, get_f32, get_dec; rewrite ?E; try done.
  cbn [cell_of]. by rewrite decimal_text_cell.
Qed.

(** * Receiving a result set *)
(** The printed notices of a reply. *)
Definition notice_text (rs : list Reply) : bytes := concat ((fun r => match r with RNotice l t => print_notice (level_code l) t | _ => [] end) <$> rs).
Section receive.
Context {S : Type} `{Socket S} (incoming outgoing : S -> bytes -> nat -> Prop) `{Stream S incoming outgoing}.
Context (calls : nat) (text : bytes).
(** The frame has a length of 32 bits, and [calls] are enough to receive it. *)
Definition reply_fits (n : nat) (r : Reply) : Prop :=
  1 + zlen (reply_frame text r).2 < 2 ^ 32 /\ (5 + length (reply_frame text r).2 + n <= calls)%nat.
Lemma recv_one s r rest n : reply_fits n r -> incoming s (reply_bytes text r ++ rest) n ->
  exists s' k, recv_frame calls 0 s = Some (Some (reply_frame text r), s') /\ incoming s' rest k /\ (k <= n)%nat.
Proof using Type*.
  intros [Hl Hc] Hi. pose proof (recv_frame_ok incoming outgoing calls 0 s _ _ rest n (conj (ltac:(by destruct r) : byte_ok (reply_frame text r).1) Hl) Hi Hc) as Hr.
  cbn [negb andb Z.eqb] in Hr. by destruct (reply_frame text r).
Qed.
Lemma reply_fits_le n k r : reply_fits n r -> (k <= n)%nat -> reply_fits k r.
Proof using Type. intros [? ?] ?. split; [done|lia]. Qed.
Lemma replies_fit_le n k rs : Forall (reply_fits n) rs -> (k <= n)%nat -> Forall (reply_fits k) rs.
Proof using Type. intros H' Hk. eapply Forall_impl; [|exact H']. intros r Hr. by eapply reply_fits_le. Qed.
(** One frame after the other. *)
Lemma recv_step s r rs rest n : Forall (reply_fits n) (r :: rs) -> incoming s (concat (reply_bytes text <$> r :: rs) ++ rest) n ->
  exists s' k, recv_frame calls 0 s = Some (Some (reply_frame text r), s') /\ incoming s' (concat (reply_bytes text <$> rs) ++ rest) k /\ Forall (reply_fits k) rs.
Proof using Type*.
  intros Hf Hi. cbn [fmap list_fmap concat] in Hi. rewrite <- app_assoc in Hi. apply Forall_cons_1 in Hf as [Hf1 Hf2].
  destruct (recv_one s r _ n Hf1 Hi) as (s' & k & R1 & R2 & R3). exists s', k. split_and!; [done|done|by eapply replies_fit_le].
Qed.
Context (cols : list bytes).
Definition batch_fits (b : list (list CellVal)) : Prop := Forall (row_ok (zlen cols)) b /\ zlen b < 2 ^ 32.
Lemma recv_batches m bs : forall s rows out rs rest n, Forall batch_fits bs -> zlen cols < 2 ^ 32 ->
  Forall (reply_fits n) ((RBatch <$> bs) ++ rs) -> incoming s (concat (reply_bytes text <$> (RBatch <$> bs) ++ rs) ++ rest) n ->
  exists s' k, recv_result_stream calls (length bs + m) (mkRS cols rows) out s = recv_result_stream calls m (mkRS cols (rows ++ concat bs)) out s' /\
    incoming s' (concat (reply_bytes text <$> rs) ++ rest) k /\ Forall (reply_fits k) rs.
Proof using Type*.
  induction bs as [|b bs IH]; intros s rows out rs rest n Hb Hc Hf Hi; [exists s, n; cbn [concat length Nat.add]; by rewrite app_nil_r|].
  apply Forall_cons_1 in Hb as [[Hb1 Hb2] Hb]. destruct (recv_step s (RBatch b) _ rest n Hf Hi) as (s' & k & R1 & R2 & R3).
  cbn [length Nat.add recv_result_stream]. rewrite R1. cbn [mbind option_bind reply_frame]. cbn [rs_cols rs_rows]. rewrite Z.eqb_refl. pose proof (zlen_nonneg cols).
  rewrite wrap_small by lia. rewrite (proj2 (decode_batch_exact (encode_rs_batch b) (zlen cols) rows b (batch_bytes (zlen cols) b ltac:(lia) Hb1) ltac:(lia))) by done.
  destruct (IH s' (rows ++ b) out rs rest k Hb Hc R3 R2) as (s2 & k2 & E & I1 & I2). exists s2, k2. rewrite E. cbn [concat]. by rewrite <- app_assoc.
Qed.
Lemma recv_notices m ns : Forall (fun r => exists l t, r = RNotice l t) ns -> forall s rows out rs rest n, Forall (reply_fits n) (ns ++ rs) ->
  Forall byte_ok (concat ((fun r => match r with RNotice _ t => t | _ => [] end) <$> ns)) ->
  incoming s (concat (reply_bytes text <$> ns ++ rs) ++ rest) n ->
  exists s' k, recv_result_stream calls (length ns + m) (mkRS cols rows) out s = recv_result_stream calls m (mkRS cols rows) (out ++ notice_text ns) s' /\
    incoming s' (concat (reply_bytes text <$> rs) ++ rest) k /\ Forall (reply_fits k) rs.
Proof using Type*.
  induction 1 as [|r ns (l & t & ->) _ IH]; intros s rows out rs rest n Hf Hb Hi; [exists s, n; cbn [length Nat.add]; unfold notice_text; cbn; by rewrite app_nil_r|].
  cbn [fmap list_fmap concat] in Hb. apply Forall_app in Hb as [Ht Hb]. destruct (recv_step s (RNotice l t) _ rest n Hf Hi) as (s' & k & R1 & R2 & R3).
  cbn [length Nat.add recv_result_stream]. rewrite R1. cbn [mbind option_bind reply_frame]. change (msg_code MsgNotice =? msg_code MsgResultSetBatch) with false.
  change (msg_code MsgNotice =? msg_code MsgResultSetEnd) with false. change (msg_code MsgNotice =? msg_code MsgError) with false. rewrite Z.eqb_refl. cbv iota.
  assert (byte_ok (level_code l)) as Hlc by (by destruct l).
  rewrite (proj2 (decode_notice_exact (encode_notice (level_code l) t) (level_code l) t ltac:(constructor; done))) by (split; [by destruct l|done]).
  destruct (IH s' rows (out ++ print_notice (level_code l) t) rs rest k R3 Hb R2) as (s2 & k2 & E & I1 & I2). exists s2, k2. rewrite E. split_and!; [|done..].
  unfold notice_text. cbn [fmap list_fmap concat]. by rewrite <- app_assoc.
Qed.
(** The head, the end and an error. *)
Lemma recv_head m s out rs rest n : Forall text_ok cols -> zlen cols < 2 ^ 32 -> Forall (reply_fits n) (RHead cols :: rs) ->
  incoming s (concat (reply_bytes text <$> RHead cols :: rs) ++ rest) n ->
  exists s' k, recv_reply calls (Datatypes.S m) out s =
    ('(done, rs, out, s) ← recv_result_stream calls m (mkRS cols []) out s'; Some (if done : bool then (false, out ++ render_result_set rs, s) else (true, out, s))) /\
    incoming s' (concat (reply_bytes text <$> rs) ++ rest) k /\ Forall (reply_fits k) rs.
Proof using Type*.
  intros Ht Hc Hf Hi. destruct (recv_step s _ rs rest n Hf Hi) as (s' & k & R1 & R2 & R3). exists s', k. split_and!; [|done..].
  cbn [recv_reply]. rewrite R1. cbn [mbind option_bind reply_frame].
  change (msg_code MsgResultSetHead =? msg_code MsgNotice) with false. change (msg_code MsgResultSetHead =? msg_code MsgError) with false.
  change (msg_code MsgResultSetHead =? msg_code MsgOk) with false. rewrite Z.eqb_refl. cbv iota.
  by rewrite (proj2 (decode_head_exact (encode_rs_head cols) cols (head_bytes cols Ht))).
Qed.
Lemma recv_end s rows out rs total rest n : 0 <= total < 2 ^ 64 -> zlen rows = total -> Forall (reply_fits n) (REnd total :: rs) ->
  incoming s (concat (reply_bytes text <$> REnd total :: rs) ++ rest) n ->
  exists s' k, recv_result_stream calls 1 (mkRS cols rows) out s = Some (true, mkRS cols rows, out, s') /\ incoming s' (concat (reply_bytes text <$> rs) ++ rest) k.
Proof using Type*.
  intros Hn Hr Hf Hi. destruct (recv_step s _ rs rest n Hf Hi) as (s' & k & R1 & R2 & _). exists s', k. split; [|done].
  cbn [recv_result_stream]. rewrite R1. cbn [mbind option_bind reply_frame]. change (msg_code MsgResultSetEnd =? msg_code MsgResultSetBatch) with false. rewrite Z.eqb_refl. cbv iota.
  rewrite (proj2 (decode_end_exact (encode_rs_end total) total ltac:(unfold encode_rs_end, append_u64; rewrite append_be_eq; apply be_bytes_ok))) by done.
  cbn [rs_rows]. by rewrite Hr, Z.eqb_refl.
Qed.
Lemma recv_error s rows out c rs rest n : Forall byte_ok text -> Forall (reply_fits n) (RError c :: rs) ->
  incoming s (concat (reply_bytes text <$> RError c :: rs) ++ rest) n ->
  exists s' k, recv_result_stream calls 1 (mkRS cols rows) out s = Some (false, mkRS cols rows, out ++ str "ERROR: " ++ text ++ newline, s') /\
    incoming s' (concat (reply_bytes text <$> rs) ++ rest) k.
Proof using Type*.
  intros Ht Hf Hi. destruct (recv_step s _ rs rest n Hf Hi) as (s' & k & R1 & R2 & _). exists s', k. split; [|done].
  cbn [recv_result_stream]. rewrite R1. cbn [mbind option_bind reply_frame]. change (msg_code MsgError =? msg_code MsgResultSetBatch) with false.
  change (msg_code MsgError =? msg_code MsgResultSetEnd) with false. rewrite Z.eqb_refl. cbv iota.
  by rewrite (proj2 (decode_error_exact (encode_error (to_wire c) text) (to_wire c) text ltac:(unfold encode_error; rewrite append_u16_eq; apply Forall_app; split; [apply be_bytes_ok|done]))).
Qed.
End receive.

(** * The theorems *)
(** C23. What a client shows of a value is the text a cast gives it: through the cell the server sends, an integer, a boolean, a
    floating-point number and a numeric - its 16 two's complement bytes read back digit by digit - are printed exactly as CAST(v AS varchar)
    writes them, strings are printed as they are, and NULL as NULL. *)
Theorem shown_as_cast v : sendable v -> exists c, to_cell v = Ok c /\ cell_ok c /\
  match box v with
  | BNull => cell_text c = str "NULL"
  | BStr s => cell_text c = s
  | _ => cast_value v kVarChar Explicit = Ok (str_val kVarChar (cell_text c))
  end.
Proof.
  intros Hv. exists (cell_of (box v)). split_and!; [by apply to_cell_box, Hv|by apply cell_of_ok|]. destruct Hv as [Hw Hs]. pose proof max_lt_2_127.
  assert (match box v with BNull | BStr _ => True | BDec d => Z.abs (unscaled d) < 2 ^ 127 | _ => True end) as Hd by (destruct (box v); lia || done).
  pose proof (shown_text v Hw Hd) as Ht. destruct (box v); done.
Qed.
Lemma shown_as_cast_witness : sendable (numeric_val kNumeric (-1250) 2) /\ exists c, to_cell (numeric_val kNumeric (-1250) 2) = Ok c /\ cell_text c = str "-12.50" /\
  cast_value (numeric_val kNumeric (-1250) 2) kVarChar Explicit = Ok (str_val kVarChar (cell_text c)).
Proof.
  assert (sendable (numeric_val kNumeric (-1250) 2)) as H by (repeat split; try done; vm_compute; done). split; [exact H|].
  destruct (shown_as_cast _ H) as (c & H1 & _ & H2). exists c. split; [exact H1|]. split; [|exact H2]. injection H1 as <-. vm_compute. reflexivity.
Defined.

Lemma sendable_cells rows n : Forall sendable_row rows -> Forall (fun row => zlen (rvalues row) = n) rows -> Forall (row_ok n) (row_cells <$> rows).
Proof.
  intros H1 H2. apply Forall_fmap. induction H1 as [|row rows Hr _ IH]; [constructor|]. apply Forall_cons_1 in H2 as [Hn H2]. constructor; [|by apply IH].
  split; [by unfold row_cells, zlen in *; rewrite length_fmap|]. by apply row_cells_ok.
Qed.
Lemma batches_fit_app cols bs left : Forall (row_ok (zlen cols)) (concat bs ++ left) -> Forall (fun b => 0 < zlen b <= RS_BATCH_MAX_ROWS) bs -> Forall (batch_fits cols) bs.
Proof.
  intros [H1 _]%Forall_app H2. induction H2 as [|b bs Hb _ IH]; [constructor|]. cbn [concat] in H1. apply Forall_app in H1 as [H1 H1'].
  constructor; [|by apply IH]. split; [done|]. unfold RS_BATCH_MAX_ROWS in Hb. lia.
Qed.
Lemma batches_fit cols rows bs : Forall (row_ok (zlen cols)) (row_cells <$> rows) -> row_cells <$> rows = concat bs -> Forall (fun b => 0 < zlen b <= RS_BATCH_MAX_ROWS) bs ->
  Forall (batch_fits cols) bs.
Proof.
  intros H1 E. apply (batches_fit_app cols bs []). by rewrite app_nil_r, <- E.
Qed.
Lemma rows_text_ok n : 0 <= n -> Forall byte_ok (rows_text n).
Proof. intros Hn. unfold rows_text. rewrite !Forall_app. split_and!; [apply str_bytes|by apply format_bytes|apply str_bytes]. Qed.

Lemma notices_are level m t : Forall (fun r => exists l t, r = RNotice l t) (notices level m t).
Proof. unfold notices. destruct (_ <? _); repeat constructor. eauto. Qed.
Lemma notices_bytes level m t : Forall byte_ok t -> Forall byte_ok (concat ((fun r => match r with RNotice _ t => t | _ => [] end) <$> notices level m t)).
Proof. intros H. unfold notices. destruct (_ <? _); cbn; [constructor|by rewrite app_nil_r]. Qed.
Lemma notice_text_app rs ss : notice_text (rs ++ ss) = notice_text rs ++ notice_text ss.
Proof. unfold notice_text. by rewrite fmap_app, concat_app. Qed.
Lemma notice_text_batches bs : notice_text (RBatch <$> bs) = [].
Proof. by induction bs. Qed.

(** C16. A result set reaches the client whole or not at all. The frames that the server sends for a result set - the column names, the rows in
    batches of at most 256, and the number of rows - arrive over any stream socket as exactly those rows, and the client prints their
    table. When pulling the rows fails half way and the session sends the error, the client prints the error and none of the rows it had
    received, and the statement counts as failed. *)
Theorem result_reaches_client S `{Stream S incoming outgoing} calls names rows level p s n rest text c :
  Forall sendable_row rows -> Forall (fun row => zlen (rvalues row) = zlen names) rows -> Forall (fun x => text_ok (str x)) names ->
  zlen names < 2 ^ 32 -> zlen rows < 2 ^ 64 -> room p = None -> Forall byte_ok text ->
  (exists rs, send_result_stream names (rows, Ok tt) level p = (Ok true, heard p rs) /\
     (Forall (reply_fits calls text n) rs -> incoming s (concat (reply_bytes text <$> rs) ++ rest) n ->
      exists s' k, recv_reply calls (length rs) [] s =
        Some (false, notice_text rs ++ render_result_set (mkRS (str <$> names) (row_cells <$> rows)), s') /\ incoming s' rest k)) /\
  (exists rs, send_result_stream names (rows, Raise c) level p = (Raise c, heard p rs) /\
     (Forall (reply_fits calls text n) (rs ++ [RError c]) -> incoming s (concat (reply_bytes text <$> rs ++ [RError c]) ++ rest) n ->
      exists s' k, recv_reply calls (length (rs ++ [RError c])) [] s = Some (true, str "ERROR: " ++ text ++ newline, s') /\ incoming s' rest k)).
Proof.
  intros Hrows Hw Hnames Hn32 Hn64 Hp Htext. pose proof (sendable_cells rows (zlen names) Hrows Hw) as Hcells. set (cols := str <$> names).
  assert (zlen cols = zlen names) as Hcols by (unfold cols, zlen; by rewrite length_fmap). rewrite <- Hcols in Hcells, Hn32.
  assert (Forall text_ok cols) as Htexts by (unfold cols; by apply Forall_fmap).
  split.
  - destruct (result_stream_sent names rows level p Hrows Hn64 Hp) as (bs & (E1 & E2 & _) & E3). eexists. split; [exact E3|]. intros Hf Hi.
    fold cols in Hf, Hi |- *. cbn [length]. rewrite !length_app, length_fmap.
    destruct (recv_head incoming outgoing calls text cols (length bs + (length (notices level DEBUG (rows_text (zlen rows))) + length [REnd (zlen rows)])) s [] _ rest n Htexts Hn32 Hf Hi)
      as (s1 & k1 & -> & R2 & R3).
    destruct (recv_batches incoming outgoing calls text cols (length (notices level DEBUG (rows_text (zlen rows))) + length [REnd (zlen rows)]) bs s1 [] [] _ rest k1
      (batches_fit cols rows bs Hcells E1 E2) Hn32 R3 R2) as (s2 & k2 & -> & I1 & I2).
    destruct (recv_notices incoming outgoing calls text cols (length [REnd (zlen rows)]) (notices level DEBUG (rows_text (zlen rows))) (notices_are _ _ _)
      s2 ([] ++ concat bs) [] _ rest k2 I2 (notices_bytes _ _ _ (rows_text_ok _ (zlen_nonneg rows))) I1) as (s3 & k3 & -> & J1 & J2).
    cbn [app] in J1, J2 |- *. rewrite <- E1.
    destruct (recv_end incoming outgoing calls text cols s3 (row_cells <$> rows) (notice_text (notices level DEBUG (rows_text (zlen rows)))) [] (zlen rows) rest k3) as (s4 & k4 & E & F2);
      [split; [apply zlen_nonneg|done]|by unfold zlen; rewrite length_fmap|done|done|].
    exists s4, k4. cbn [length]. rewrite E. split; [|exact F2]. cbn [mbind option_bind]. do 3 f_equal.
    change (RHead cols :: ?l) with ([RHead cols] ++ l). rewrite !notice_text_app, notice_text_batches. cbn. by rewrite app_nil_r.
  - destruct (result_stream_broken names rows c level p Hrows Hp) as (bs & left & Hfull & E1 & _ & E3). eexists. split; [exact E3|]. intros Hf Hi.
    fold cols in Hf, Hi |- *. cbn [length app] in *. rewrite !length_app, length_fmap.
    destruct (recv_head incoming outgoing calls text cols (length bs + length [RError c]) s [] _ rest n Htexts Hn32 Hf Hi) as (s1 & k1 & -> & R2 & R3).
    assert (Forall (batch_fits cols) bs) as Hfit by (apply (batches_fit_app cols bs left); [by rewrite <- E1|by apply full_bounds]).
    destruct (recv_batches incoming outgoing calls text cols (length [RError c]) bs s1 [] [] _ rest k1 Hfit Hn32 R3 R2) as (s2 & k2 & -> & I1 & I2).
    destruct (recv_error incoming outgoing calls text cols s2 ([] ++ concat bs) [] c [] rest k2 Htext I2 I1) as (s3 & k3 & E & F2).
    exists s3, k3. cbn [length]. rewrite E. split; [done|exact F2].
Qed.
Definition sample_rows : list Row := [mkRow 0 (mkRef INVALID_PAGE 0) [int_val kInt 7; numeric_val kNumeric (-5) 3]; mkRow 0 (mkRef INVALID_PAGE 0) [typed_null kInt; numeric_val kNumeric 12 0]].
Definition sample_replies : list Reply := sent (send_result_stream ["id"%string; "n"%string] (sample_rows, Ok tt) DEBUG (mkPeer [] None)).2.
Lemma result_reaches_client_witness :
  exists s' k, recv_reply 200 4 [] (mkPipe [Some (concat (reply_bytes [] <$> sample_replies)); Some [9]] [] 1) =
    Some (false, print_notice 4 (rows_text 2) ++ render_result_set (mkRS [str "id"; str "n"] [[CellInt 7; dec_cell (mkDec (-5) 3)]; [CellNull; dec_cell (mkDec 12 0)]]), s') /\
    pipe_incoming s' [9] k.
Proof.
  assert (Forall sendable_row sample_rows) as H1 by (repeat constructor; done).
  destruct (result_reaches_client Pipe 200 ["id"%string; "n"%string] sample_rows DEBUG (mkPeer [] None) (mkPipe [Some (concat (reply_bytes [] <$> sample_replies)); Some [9]] [] 1) 0 [9] [] Internal
    H1 ltac:(repeat constructor) ltac:(repeat constructor; vm_compute; discriminate) eq_refl eq_refl eq_refl ltac:(constructor)) as [(rs & E & Hr) _].
  assert (rs = sample_replies) as -> by (unfold sample_replies; rewrite E; reflexivity).
  destruct Hr as (s' & k & R1 & R2).
  - assert (forallb (fun r => (1 + zlen (reply_frame [] r).2 <? 2 ^ 32) && (5 + length (reply_frame [] r).2 + 0 <=? 200)%nat) sample_replies = true) as Hf by (vm_compute; reflexivity).
    apply list.Forall_forall. intros r Hin%list_elem_of_In. rewrite forallb_forall in Hf. specialize (Hf r Hin). apply andb_prop in Hf as [Hf1%Z.ltb_lt Hf2%Nat.leb_le]. split; [exact Hf1|exact Hf2].
  - split_and!; [repeat constructor; done|vm_compute; reflexivity|cbn; lia].
  - exists s', k. split; [|exact R2]. exact R1.
Defined.
