(* ===== verification/Server.v ===== *)
(** Sessions of the server (src/server/session.cpp): one connection's loop of statements - transaction control, session variables, execution,
    replies -, the admission of connections, and the sessions that share one catalog under its lock. *)
From S2P Require Import Prelude Types Text Codec Cast Key Page Wal Disk Recovery State Node Pool Tree Engine Bind Plan Query Meta Stmt Analyze Explain Catalog Proto Exec InTxn Reply.

(** * State *)
(** [in_txn]: the client has said BEGIN; [txn_started]: the engine has a transaction for it, from the first statement on. *)
Record SessionCtx := mkSession { in_txn : bool; txn_started : bool; client_msg_level : LogLevel; current_schema : string }.
Definition set_in_txn (b : bool) (s : SessionCtx) : SessionCtx := mkSession b (txn_started s) (client_msg_level s) (current_schema s).
Definition set_txn_started (b : bool) (s : SessionCtx) : SessionCtx := mkSession (in_txn s) b (client_msg_level s) (current_schema s).
Definition set_client_msg_level (l : LogLevel) (s : SessionCtx) : SessionCtx := mkSession (in_txn s) (txn_started s) l (current_schema s).
Definition set_current_schema (n : string) (s : SessionCtx) : SessionCtx := mkSession (in_txn s) (txn_started s) (client_msg_level s) n.
Definition kPublicSchemaName : string := "public".
Definition new_session : SessionCtx := mkSession false false INFO kPublicSchemaName.

#[export] Instance SetValueForm_eq_dec : EqDecision SetValueForm.
Proof. solve_decision. Defined.

(** What a thread sees: its session, the catalog and who holds its lock, the server's log threshold, and the other end of its connection. *)
Record Thread := mkThread { me : Z; sess : SessionCtx; db : Catalog; owner : option Z; threshold : LogLevel; peer : Peer }.
Definition set_sess (f : SessionCtx -> SessionCtx) (t : Thread) : Thread := mkThread (me t) (f (sess t)) (db t) (owner t) (threshold t) (peer t).
Definition set_db (c : Catalog) (t : Thread) : Thread := mkThread (me t) (sess t) c (owner t) (threshold t) (peer t).
Definition set_owner (o : option Z) (t : Thread) : Thread := mkThread (me t) (sess t) (db t) o (threshold t) (peer t).
Definition set_threshold (l : LogLevel) (t : Thread) : Thread := mkThread (me t) (sess t) (db t) (owner t) l (peer t).
Definition set_peer (p : Peer) (t : Thread) : Thread := mkThread (me t) (sess t) (db t) (owner t) (threshold t) p.
Definition on_db {A} (m : ST Catalog A) : ST Thread A := fun t => let '(r, c) := m (db t) in (r, set_db c t).
Definition on_peer {A} (m : ST Peer A) : ST Thread A := fun t => let '(r, p) := m (peer t) in (r, set_peer p t).
Definition reply (r : Reply) : ST Thread bool := on_peer (send_frame r).
Definition fail (c : ErrCode) : ST Thread unit := on_peer (send_error c).
Definition notice (l : LogLevel) (text : bytes) : ST Thread unit := fun t => on_peer (send_notice (client_msg_level (sess t)) l text) t.
(** [try { m } catch (...) { h }] *)
Definition catching {S A} (m : ST S A) (h : ErrCode -> ST S A) : ST S A := fun s => match m s with (Raise c, s) => h c s | r => r end.

(** * The catalog's transactions under its lock *)
(** A transaction holds the lock from its begin to its end. The call waits while another thread holds it: it has no outcome then. *)
Definition begin_txn : ST Thread unit := fun t =>
  if bool_decide (owner t = None \/ owner t = Some (me t)) then
    (_ ← on_db Catalog.begin_txn; modify (set_owner (Some (me t)))) t
  else (Fatal, t).
(** The lock is given back however the call ends. *)
Definition unlocking (m : ST Thread unit) : ST Thread unit :=
  _ ← catching m (fun c => _ ← modify (set_owner None); raise c); modify (set_owner None).
Section server.
Context (wal_checkpoint_bytes : Z) (fuel : nat).
Definition commit_txn : ST Thread unit := unlocking (on_db (Catalog.commit_txn wal_checkpoint_bytes)).
Definition rollback_txn : ST Thread unit := unlocking (on_db Catalog.rollback_txn).

(** * Transaction control *)
Definition rollback_session_txn : ST Thread unit :=
  s ← gets sess;
  _ ← (if txn_started s then _ ← rollback_txn; modify (set_sess (set_txn_started false)) else mret tt);
  modify (set_sess (set_in_txn false)).
Inductive TxnControl := DoBegin | DoCommit | DoRollback.
Definition control_tag (k : TxnControl) : CommandTag := match k with DoBegin => TagBegin | DoCommit => TagCommit | DoRollback => TagRollback end.
Definition handle_txn_control (kind : TxnControl) : ST Thread unit :=
  s ← gets sess;
  match kind with
  | DoBegin =>
      boot ← gets (fun t => bootstrap_mode (db t));
      if boot : bool then fail BootstrapMode
      else if in_txn s then _ ← rollback_session_txn; fail TxnActive
      else _ ← modify (set_sess (set_in_txn true)); _ ← reply (ROk TagBegin 0); mret tt
  | _ =>
      if negb (in_txn s) then fail NoActiveTxn
      else
        _ ← modify (set_sess (set_in_txn false));
        _ ← (if txn_started s then
               _ ← modify (set_sess (set_txn_started false));
               match kind with DoCommit => commit_txn | _ => rollback_txn end
             else mret tt);
        _ ← reply (ROk (control_tag kind) 0);
        mret tt
  end.

(** * Session variables *)
Definition set_ok (text : bytes) : ST Thread bool := _ ← notice DEBUG text; _ ← reply (ROk TagSet 0); mret true.
(** Whether the variable is one of the session's or the server's. *)
Definition handle_session_set (var value : string) (form : SetValueForm) : ST Thread bool :=
  if bool_decide (var = "client_msg_level"%string) then
    match levelFromString (str value) with
    | None => _ ← fail InvalidVarValue; mret true
    | Some l =>
        _ ← modify (set_sess (set_client_msg_level l));
        set_ok (str "client_msg_level = " ++ str (levelToString l))
    end
  else if bool_decide (var = "current_schema"%string) then
    if bool_decide (form = SvInt) || bool_decide (value = ""%string) then _ ← fail InvalidVarValue; mret true
    else
      _ ← modify (set_sess (set_current_schema value));
      set_ok (str "current_schema = " ++ str value)
  else if bool_decide (var = "server_log_level"%string) then
    match levelFromString (str value) with
    | None => _ ← fail InvalidVarValue; mret true
    | Some l => _ ← modify (set_threshold l); set_ok (str "server_log_level = " ++ str (levelToString l))
    end
  else mret false.
(** The statements a transaction refuses, also under EXPLAIN. *)
Fixpoint txn_forbidden_stmt (s : SQLStatement) : bool :=
  match s with
  | CreateTableStmt _ _ | DropTableStmt _ | CreateSchemaStmt _ | DropSchemaStmt _ | CreateIndexStmt _ _ _ | DropIndexStmt _ _ | SetStmt _ _ _ => true
  | ExplainStmt inner => txn_forbidden_stmt inner
  | _ => false
  end.

(** * Statements *)
Definition result_text (tag : CommandTag) (count : Z) : bytes :=
  str "执行结果: " ++ str (tag_log_name tag) ++ (if count >? 0 then str " " ++ format_int count else []).
(** A statement runs in a transaction: the one its session has started, or a new one. *)
Definition enter_txn (s : SessionCtx) : ST Thread unit :=
  if in_txn s then (if txn_started s then mret tt else _ ← begin_txn; modify (set_sess (set_txn_started true))) else begin_txn.
(** An error ends the transaction and is answered; otherwise there is a result. *)
Definition try_execute (s : SessionCtx) (stmt : SQLStatement) : ST Thread (option ExecResult) :=
  catching (r ← on_db (execute fuel (current_schema s) stmt); mret (Some r)) (fun c =>
    _ ← rollback_txn;
    _ ← (if in_txn s then modify (set_sess (fun s => set_txn_started false (set_in_txn false s))) else mret tt);
    _ ← fail c;
    mret None).
Definition send_result (s : SessionCtx) (r : ExecResult) : ST Thread bool :=
  match r with
  | ResultSet names rows => on_peer (send_result_stream names rows (client_msg_level s))
  | TagResult tag count =>
      _ ← notice DEBUG (result_text tag count);
      _ ← reply (ROk tag count);
      mret true
  end.
(** Whether the connection is still there. *)
Definition exec_statement (stmt : SQLStatement) : ST Thread bool :=
  s ← gets sess;
  _ ← enter_txn s;
  r ← try_execute s stmt;
  match r with
  | None => mret true
  | Some r => _ ← (if in_txn s then mret tt else commit_txn); send_result s r
  end.

(** * The loop of a connection *)
(** The parser, which is generated: a syntax error, an empty statement, or a statement. *)
Context (parse : bytes -> option (option SQLStatement)).
(** A request as it comes from the socket: the type byte and the payload, or nothing when the peer is gone or the frame is refused. *)
Definition Request : Type := option (Z * bytes).
Definition recv_query (q : Request) : ST Thread (option bytes) :=
  match q with
  | None => mret None
  | Some (type, msg) =>
      if negb (type =? msg_code MsgQuery) then mret None
      else
        _ ← notice DEBUG (str "收到 SQL: " ++ msg);
        if bool_decide (msg = str "quit") || bool_decide (msg = str "exit") then mret None else mret (Some msg)
  end.
Definition route (stmt : SQLStatement) : ST Thread bool :=
  s ← gets sess;
  match stmt with
  | BeginStmt => _ ← handle_txn_control DoBegin; mret true
  | CommitStmt => _ ← handle_txn_control DoCommit; mret true
  | RollbackStmt => _ ← handle_txn_control DoRollback; mret true
  | _ =>
      if in_txn s && txn_forbidden_stmt stmt then _ ← rollback_session_txn; _ ← fail DdlInTxn; mret true
      else
        handled ← match stmt with SetStmt var value form => handle_session_set var value form | _ => mret false end;
        if handled : bool then mret true else exec_statement stmt
  end.
(** One turn: [false] ends the session. *)
Definition turn (q : Request) : ST Thread bool :=
  catching
    (m ← recv_query q;
     match m with
     | None => mret false
     | Some msg =>
         match parse msg with
         | None =>
             s ← gets sess;
             _ ← (if in_txn s then rollback_session_txn else mret tt);
             _ ← fail SyntaxError;
             mret true
         | Some o =>
             _ ← notice DEBUG (str "解析成功: " ++ msg);
             match o with
             | None => _ ← reply (ROk TagEmpty 0); mret true
             | Some stmt => route stmt
             end
         end
     end)
    (fun c => _ ← fail c; mret true).
(** After the loop: what is left of a transaction is rolled back, whatever comes of it. *)
Definition finish_session : ST Thread unit :=
  s ← gets sess;
  if txn_started s then catching rollback_txn (fun _ => mret tt) else mret tt.
End server.

(** * The server *)
Definition MAX_CLIENTS : Z := 100.
(** The sessions by the socket of their connection. *)
Record Server := mkServer { cat : Catalog; lock : option Z; log_threshold : LogLevel; clients : gmap Z SessionCtx }.
(** A connection is admitted, or told that there are too many. *)
Definition spawn_client (sock : Z) (sv : Server) : Server * list Reply :=
  if MAX_CLIENTS <=? Z.of_nat (size (clients sv)) then (sv, [RError TooManyClients])
  else (mkServer (cat sv) (lock sv) (log_threshold sv) (<[sock := new_session]> (clients sv)), []).
Definition thread_of (sock : Z) (s : SessionCtx) (p : Peer) (sv : Server) : Thread := mkThread sock s (cat sv) (lock sv) (log_threshold sv) p.
Definition back (t : Thread) (sv : Server) : Server := mkServer (db t) (owner t) (threshold t) (<[me t := sess t]> (clients sv)).
Definition remove_client (sock : Z) (sv : Server) : Server := mkServer (cat sv) (lock sv) (log_threshold sv) (delete sock (clients sv)).
Section steps.
Context (wal_checkpoint_bytes : Z) (fuel : nat) (parse : bytes -> option (option SQLStatement)).
(** Turns of different sessions in any order, each one whole: what they share is used under the lock. A turn that must wait has no step. *)
Inductive step (sv : Server) : Server -> Prop :=
| step_connect sock : clients sv !! sock = None -> step sv (spawn_client sock sv).1
| step_turn sock s q p t : clients sv !! sock = Some s -> turn wal_checkpoint_bytes fuel parse q (thread_of sock s p sv) = (Ok true, t) -> step sv (back t sv)
| step_leave sock s q p t t' : clients sv !! sock = Some s -> turn wal_checkpoint_bytes fuel parse q (thread_of sock s p sv) = (Ok false, t) ->
    finish_session t = (Ok tt, t') -> step sv (remove_client sock (back t' sv))
| step_stop sock s p t : clients sv !! sock = Some s -> finish_session (thread_of sock s p sv) = (Ok tt, t) -> step sv (remove_client sock (back t sv)).
End steps.

(** * What a thread's calls leave *)
(** All of a thread but the log threshold and its peer. *)
Definition Core : Type := Z * SessionCtx * Catalog * option Z.
Definition core (t : Thread) : Core := (me t, sess t, db t, owner t).
Definition triple {A} (P : Core -> Prop) (m : ST Thread A) (Q : A -> Core -> Prop) (E : Core -> Prop) : Prop :=
  forall t, P (core t) -> match m t with (Ok a, t') => Q a (core t') | (Raise _, t') => E (core t') | (Fatal, _) => True end.
Section triples.
Context {A B : Type}.
Implicit Types (P E : Core -> Prop).
Lemma triple_keeps (m : ST Thread A) P E : keeps core m -> (forall c, P c -> E c) -> triple P m (fun _ => P) E.
Proof. intros Hk HE t Ht. specialize (Hk t). destruct (m t) as [[a|c|] t']; cbn [snd] in Hk; rewrite ?Hk; auto. Qed.
Lemma triple_ret (a : A) (Q : A -> Core -> Prop) E : triple (Q a) (mret a) Q E.
Proof. by intros t Ht. Qed.
Lemma triple_bind (m : ST Thread A) (k : A -> ST Thread B) P (Q : A -> Core -> Prop) (R : B -> Core -> Prop) E :
  triple P m Q E -> (forall a, triple (Q a) (k a) R E) -> triple P (m ≫= k) R E.
Proof. intros Hm Hk t Ht. rewrite run_match. specialize (Hm t Ht). destruct (m t) as [[a|c|] t']; [by apply Hk|done..]. Qed.
Lemma triple_gets (g : Thread -> A) (k : A -> ST Thread B) P (R : B -> Core -> Prop) E :
  (forall t, P (core t) -> triple (fun c => P c /\ c = core t) (k (g t)) R E) -> triple P (gets g ≫= k) R E.
Proof. intros H t Ht. rewrite run_gets. specialize (H t Ht). by apply H. Qed.
Lemma triple_modify (g : Thread -> Thread) P Q E : (forall t, P (core t) -> Q (core (g t))) -> triple P (modify g) (fun _ => Q) E.
Proof. intros H t Ht. by apply H. Qed.
Lemma triple_catching (m : ST Thread A) h P (Q : A -> Core -> Prop) E E' : triple P m Q E -> (forall c, triple E (h c) Q E') -> triple P (catching m h) Q E'.
Proof. intros Hm Hh t Ht. unfold catching. specialize (Hm t Ht). destruct (m t) as [[a|c|] t']; [done|by apply Hh|done]. Qed.
Lemma triple_weaken (m : ST Thread A) P P' (Q Q' : A -> Core -> Prop) E E' : triple P' m Q' E' -> (forall c, P c -> P' c) -> (forall a c, Q' a c -> Q a c) ->
  (forall c, E' c -> E c) -> triple P m Q E.
Proof. intros H HP HQ HE t Ht. specialize (H t (HP _ Ht)). destruct (m t) as [[a|c|] t']; auto. Qed.
End triples.
Lemma keeps_on_peer {A} (m : ST Peer A) : keeps core (on_peer m).
Proof. intros t. unfold on_peer. by destruct (m (peer t)). Qed.
Lemma keeps_notice l text : keeps core (notice l text).
Proof. intros t. apply keeps_on_peer. Qed.
Lemma keeps_reply r : keeps core (reply r).
Proof. apply keeps_on_peer. Qed.
Lemma keeps_fail c : keeps core (fail c).
Proof. apply keeps_on_peer. Qed.
#[export] Hint Resolve keeps_on_peer keeps_notice keeps_reply keeps_fail : keeps.

(** ** Transactions and the lock *)
Section thread.
Context (wal_checkpoint_bytes : Z) (fuel : nat) (parse : bytes -> option (option SQLStatement)).
(** The thread [i], and who else holds the lock, if anyone. *)
Context (i : Z) (w : option Z) (Hw : w <> Some i).
Definition held_flags (o : option Z) : bool * bool := (bool_decide (is_Some o), bool_decide (is_Some o)).
Definition free (s : SessionCtx) (c : Core) : Prop := c.1.1.1 = i /\ c.1.1.2 = s /\ c.2 = w /\ catalog_txn c.1.2 = held_flags w.
Definition held (s : SessionCtx) (c : Core) : Prop := w = None /\ c.1.1.1 = i /\ c.1.1.2 = s /\ c.2 = Some i /\ catalog_txn c.1.2 = (true, true).
(** A session between two statements. *)
Definition settled (c : Core) : Prop :=
  (exists s, txn_started s = false /\ free s c) \/ (exists s, in_txn s = true /\ txn_started s = true /\ held s c).
Ltac at_thread := let d := fresh "d" in intros [? ? d ? ? ?]; cbv [held free core me sess db owner fst snd]; intros;
  repeat match goal with H : _ /\ _ |- _ => destruct H end; subst.
Ltac thread_done := cbn [fst snd]; cbv [held free core set_owner set_db set_sess me sess db owner fst snd]; split_and!; done.
Lemma begin_triple s : triple (free s) begin_txn (fun _ => held s) (fun _ => False).
Proof using Hw.
  at_thread. unfold begin_txn. cbn [owner me]. destruct w as [o|].
  - rewrite bool_decide_eq_false_2; [done|]. naive_solver.
  - rewrite bool_decide_eq_true_2 by auto. unfold on_db. rewrite run_match. cbn [db]. destruct (begin_opens d) as (c1 & -> & H5 & _); [done|]. thread_done.
Qed.
Lemma on_db_keeps {A} (m : ST Catalog A) s : keeps catalog_txn m -> triple (held s) (on_db m) (fun _ => held s) (held s).
Proof using Hw.
  intros Hk. at_thread. unfold on_db. cbn [db]. specialize (Hk d). destruct (m d) as [[a|c|] c']; [..|done]; cbn [snd] in Hk; rewrite <- Hk in *; thread_done.
Qed.
Lemma rollback_triple s : triple (held s) rollback_txn (fun _ => free s) (fun _ => False).
Proof using Hw.
  at_thread. unfold rollback_txn, unlocking, catching, on_db. rewrite run_match. cbn [db]. destruct (rollback_closes d) as (c' & -> & H5); [done|]. thread_done.
Qed.
Lemma commit_triple s : triple (held s) (commit_txn wal_checkpoint_bytes) (fun _ => free s) (free s).
Proof using Hw.
  at_thread. unfold commit_txn, unlocking, catching, on_db. rewrite run_match. cbn [db]. pose proof (commit_closes wal_checkpoint_bytes d ltac:(done)) as Hc.
  destruct (Catalog.commit_txn wal_checkpoint_bytes d) as [[[]|c|] c']; [thread_done..|done].
Qed.
(** Changing the session. *)
Lemma sess_triple (P : SessionCtx -> Core -> Prop) f s E : P = free \/ P = held -> triple (P s) (modify (set_sess f)) (fun _ => P (f s)) E.
Proof using Hw. intros [-> | ->]; at_thread; thread_done. Qed.
Lemma gets_sess {A} (P : SessionCtx -> Core -> Prop) s (k : SessionCtx -> ST Thread A) Q E : P = free \/ P = held -> triple (P s) (k s) Q E -> triple (P s) (gets sess ≫= k) Q E.
Proof using Hw. intros HP Hk t Ht. rewrite run_gets. assert (sess t = s) as -> by (destruct HP as [-> | ->]; unfold free, held in Ht; cbn in Ht; tauto). by apply Hk. Qed.

(** ** Every handler leaves its session settled *)
Lemma settled_free s c : txn_started s = false -> free s c -> settled c.
Proof using Hw. intros H1 H2. left. eauto. Qed.
Lemma settled_held s c : in_txn s = true -> txn_started s = true -> held s c -> settled c.
Proof using Hw. intros H1 H2 H3. right. eauto. Qed.
Hint Resolve settled_free settled_held : core.
Definition keeps_settled {A} (m : ST Thread A) : Prop := triple settled m (fun _ => settled) settled.
Lemma settled_keeps {A} (m : ST Thread A) : keeps core m -> keeps_settled m.
Proof using Hw. intros H. by apply triple_keeps. Qed.
Lemma settled_bind {A B} (m : ST Thread A) (k : A -> ST Thread B) : keeps_settled m -> (forall a, keeps_settled (k a)) -> keeps_settled (m ≫= k).
Proof using Hw. intros Hm Hk. by eapply triple_bind. Qed.
Lemma triple_settled {A} (m : ST Thread A) P : triple P m (fun _ => settled) settled -> forall Q, (forall c, Q c -> P c) -> triple Q m (fun _ => settled) settled.
Proof using Hw. intros H Q HQ. by eapply triple_weaken. Qed.
(** A session that is settled is free or holds the lock. *)
Lemma settled_cases {A} (m : ST Thread A) : (forall s, txn_started s = false -> triple (free s) m (fun _ => settled) settled) ->
  (forall s, in_txn s = true -> txn_started s = true -> triple (held s) m (fun _ => settled) settled) -> keeps_settled m.
Proof using Hw. intros H1 H2 t [(s & Hs & Ht)|(s & Hi & Hs & Ht)]; [by apply (H1 s)|by apply (H2 s)]. Qed.
Lemma settled_sess {A} (k : SessionCtx -> ST Thread A) : (forall s, txn_started s = false -> triple (free s) (k s) (fun _ => settled) settled) ->
  (forall s, in_txn s = true -> txn_started s = true -> triple (held s) (k s) (fun _ => settled) settled) -> keeps_settled (gets sess ≫= k).
Proof using Hw. intros H1 H2. apply settled_cases; intros s; intros; apply (gets_sess _ s); auto. Qed.
Lemma ends_free {A} (m : ST Thread A) s P (E : Core -> Prop) : txn_started s = false -> triple P m (fun _ => free s) E -> (forall c, E c -> settled c) -> triple P m (fun _ => settled) settled.
Proof using Hw. intros Hs H HE. eapply triple_weaken; [exact H|auto|cbv beta; eauto|auto]. Qed.

Ltac settle := intros ? ?; first [eapply settled_free; [|eassumption]; done | eapply settled_held; [| |eassumption]; done].
Lemma settled_rollback_session : keeps_settled rollback_session_txn.
Proof using Hw.
  apply settled_sess; intros s; intros.
  - replace (txn_started s) with false. eapply triple_bind; [apply (triple_ret tt (fun _ => free s))|]. intros ?; cbv beta.
    apply (ends_free _ (set_in_txn false s) _ (fun _ => False)); [done|apply sess_triple; auto|done].
  - replace (txn_started s) with true. eapply triple_bind; [eapply triple_bind; [eapply triple_weaken; [apply (rollback_triple s)|done..]|]|].
    + intros ?; cbv beta. apply (sess_triple free); auto.
    + intros ?; cbv beta. apply (ends_free _ (set_in_txn false (set_txn_started false s)) _ (fun _ => False)); [done|apply sess_triple; auto|done].
Qed.
Lemma settled_txn_control k : keeps_settled (handle_txn_control wal_checkpoint_bytes k).
Proof using Hw.
  assert (keeps_settled (s ← gets sess; if negb (in_txn s) then fail NoActiveTxn else
    _ ← modify (set_sess (set_in_txn false));
    _ ← (if txn_started s then _ ← modify (set_sess (set_txn_started false)); match k with DoCommit => commit_txn wal_checkpoint_bytes | _ => rollback_txn end else mret tt);
    _ ← reply (ROk (control_tag k) 0); mret tt)) as Hend.
  { apply settled_sess; intros s Hs; intros.
    - destruct (negb (in_txn s)); [eapply triple_settled; [apply settled_keeps; keeps|settle]|]. rewrite Hs.
      eapply triple_bind; [apply (sess_triple free); auto|]. intros ?; cbv beta. eapply triple_settled; [apply settled_keeps; keeps|settle]. 
    - rewrite Hs. cbn [negb]. replace (txn_started s) with true. eapply triple_bind; [eapply triple_weaken; [apply (sess_triple held); auto|done..]|]. intros ?; cbv beta.
      eapply triple_bind.
      + eapply triple_bind; [eapply triple_weaken; [apply (sess_triple held); auto|done..]|]. intros ?; cbv beta.
        instantiate (1 := fun _ => settled). set (s' := set_txn_started false (set_in_txn false s)).
        destruct k; (eapply (ends_free _ s'); [done|first [apply commit_triple | apply rollback_triple]|first [done | settle]]).
      + intros ?; cbv beta. apply settled_keeps. keeps. }
  destruct k; [|exact Hend..]. unfold handle_txn_control. apply settled_sess; intros s Hs; intros.
  - eapply triple_bind; [apply (triple_keeps (gets _) (free s) settled); [done|settle]|]. intros [].
    + eapply triple_settled; [apply settled_keeps; keeps|settle].
    + destruct (in_txn s).
      * eapply triple_settled; [apply settled_bind; [apply settled_rollback_session|intros _; apply settled_keeps; keeps]|settle].
      * eapply triple_bind; [apply (sess_triple free); auto|]. intros ?; cbv beta. eapply triple_settled; [apply settled_keeps; keeps|settle].
  - eapply triple_bind; [apply (triple_keeps (gets _) (held s) settled); [done|settle]|]. intros [].
    + eapply triple_settled; [apply settled_keeps; keeps|settle].
    + rewrite Hs. eapply triple_settled; [apply settled_bind; [apply settled_rollback_session|intros _; apply settled_keeps; keeps]|settle].
Qed.
Lemma settled_set var value form : keeps_settled (handle_session_set var value form).
Proof using Hw.
  assert (forall f text, (forall s, in_txn (f s) = in_txn s /\ txn_started (f s) = txn_started s) -> keeps_settled (_ ← modify (set_sess f); set_ok text)) as Hset.
  { intros f text Hf. apply settled_bind; [|intros _; apply settled_keeps; unfold set_ok; keeps].
    apply settled_cases; intros s; intros; destruct (Hf s) as [Hf1 Hf2].
    - apply (ends_free _ (f s) _ (fun _ => False)); [congruence|apply sess_triple; auto|done].
    - eapply triple_weaken; [apply (sess_triple held); auto|done| |done]. intros ? c Hc. eapply (settled_held (f s)); [..|exact Hc]; congruence. }
  unfold handle_session_set. repeat case_match; try (apply Hset; by intros []); apply settled_keeps; by keeps.
Qed.
(** A statement's transaction: the session as it is in it. *)
Definition entered (s : SessionCtx) : SessionCtx := if in_txn s then set_txn_started true s else s.
Lemma enter_triple s : txn_started s = false -> triple (free s) (enter_txn s) (fun _ => held (entered s)) (fun _ => False).
Proof using Hw.
  intros Hs. unfold enter_txn, entered. destruct (in_txn s); [|apply begin_triple]. rewrite Hs.
  eapply triple_bind; [apply (begin_triple s)|]. intros ?; cbv beta. apply (sess_triple held). auto.
Qed.
Lemma entered_held s : in_txn s = true -> txn_started s = true -> triple (held s) (enter_txn s) (fun _ => held (entered s)) (fun _ => False).
Proof using Hw. destruct s. cbn. intros -> ->. apply (triple_ret tt (fun _ => held _)). Qed.
(** After an execution that failed, or with its result. *)
Definition executed (s : SessionCtx) (r : option ExecResult) : Core -> Prop :=
  match r with Some _ => held (entered s) | None => free (set_txn_started false (set_in_txn false s)) end.
Lemma fail_triple P c E : triple P (fail c) (fun _ => P) E.
Proof using. intros t Ht. unfold fail, on_peer, send_error, send_frame. rewrite run_match. by destruct (room (peer t)) as [[|n]|]. Qed.
Definition left_txn (s : SessionCtx) : SessionCtx := set_txn_started false (set_in_txn false s).
Lemma try_execute_triple s stmt E : (in_txn s = false -> txn_started s = false) -> triple (held (entered s)) (try_execute fuel s stmt) (executed s) E.
Proof using Hw.
  intros Hs. unfold try_execute. eapply (triple_catching _ _ _ _ (held (entered s))).
  - eapply triple_bind; [apply on_db_keeps, execute_in_txn|]. intros r; cbv beta. apply (triple_ret (Some r) (executed s)).
  - intros c. eapply triple_bind; [eapply triple_weaken; [apply rollback_triple|done..]|]. intros ?; cbv beta.
    eapply (triple_bind _ _ _ (fun _ => free (left_txn s))).
    + unfold entered, left_txn. destruct (in_txn s) eqn:Ei; [apply (sess_triple free (fun s => set_txn_started false (set_in_txn false s)) (set_txn_started true s)); auto|].
      replace (set_txn_started false (set_in_txn false s)) with s; [apply (triple_ret tt (fun _ => free s))|]. specialize (Hs eq_refl). destruct s. cbn in *. by subst.
    + intros ?; cbv beta. eapply triple_bind; [apply fail_triple|]. intros ?; cbv beta. apply (triple_ret None (executed s)).
Qed.
(** What a session is after a statement: its own transaction goes on unless the execution failed. *)
Definition after (s : SessionCtx) (failed : bool) : Core -> Prop :=
  if failed then free (left_txn s) else if in_txn s then held (set_txn_started true s) else free s.
Lemma send_triple P s r : triple P (send_result s r) (fun _ => P) P.
Proof using. apply triple_keeps; [|done]. destruct r; unfold send_result; keeps. Qed.
Lemma finish_statement s r : triple (executed s (Some r)) (_ ← (if in_txn s then mret tt else commit_txn wal_checkpoint_bytes); send_result s r) (fun _ => after s false) (after s false).
Proof using Hw.
  unfold executed, entered, after. destruct (in_txn s); (eapply triple_bind; [|intros ?; apply send_triple]); cbv beta; [apply (triple_ret tt (fun _ => held _))|apply commit_triple].
Qed.
Lemma settled_exec stmt : keeps_settled (exec_statement wal_checkpoint_bytes fuel stmt).
Proof using Hw.
  assert (forall s, (in_txn s = false -> txn_started s = false) -> triple (held (entered s)) (r ← try_execute fuel s stmt;
    match r with None => mret true | Some r => _ ← (if in_txn s then mret tt else commit_txn wal_checkpoint_bytes); send_result s r end) (fun _ => settled) settled) as Hrun.
  { intros s Hs. eapply triple_bind; [by apply try_execute_triple|]. intros [r|].
    - eapply triple_weaken; [apply finish_statement|done|cbv beta..]; intros c; unfold after; destruct (in_txn s) eqn:Ei; intros Hc;
        first [by apply (settled_held (set_txn_started true s)) | apply (settled_free s); auto].
    - eapply triple_settled; [apply settled_keeps; keeps|]. intros c Hc. by apply (settled_free (left_txn s)). }
  apply settled_sess; intros s Hs; intros.
  - eapply triple_bind; [eapply triple_weaken; [by apply enter_triple|done..]|]. intros ?; cbv beta. by apply Hrun.
  - eapply triple_bind; [eapply triple_weaken; [by apply entered_held|done..]|]. intros ?; cbv beta. apply Hrun. congruence.
Qed.
Lemma settled_route stmt : keeps_settled (route wal_checkpoint_bytes fuel stmt).
Proof using Hw.
  assert (forall s, keeps_settled (if in_txn s && txn_forbidden_stmt stmt then _ ← rollback_session_txn; _ ← fail DdlInTxn; mret true
      else handled ← match stmt with SetStmt var value form => handle_session_set var value form | _ => mret false end;
           if handled : bool then mret true else exec_statement wal_checkpoint_bytes fuel stmt)) as Hrest.
  { intros s. destruct (_ && _); [apply settled_bind; [apply settled_rollback_session|intros ?; apply settled_keeps; keeps]|].
    apply settled_bind; [destruct stmt; try (apply settled_keeps; by keeps); apply settled_set|]. intros []; [apply settled_keeps; keeps|apply settled_exec]. }
  unfold route. apply settled_bind; [apply settled_keeps; keeps|]. intros s.
  destruct stmt; try apply (Hrest s); (apply settled_bind; [apply settled_txn_control|intros ?; apply settled_keeps; keeps]).
Qed.
Lemma settled_turn q : keeps_settled (turn wal_checkpoint_bytes fuel parse q).
Proof using Hw.
  unfold turn. eapply triple_catching; [|intros c; apply settled_keeps; keeps].
  apply settled_bind; [apply settled_keeps; unfold recv_query; keeps|]. intros [msg|]; [|apply settled_keeps; keeps]. destruct (parse msg) as [o|].
  - apply settled_bind; [apply settled_keeps; keeps|]. intros ?. destruct o; [apply settled_route|apply settled_keeps; keeps].
  - apply settled_bind; [apply settled_keeps; keeps|]. intros s. apply settled_bind; [|intros ?; apply settled_keeps; keeps].
    destruct (in_txn s); [apply settled_rollback_session|apply settled_keeps; keeps].
Qed.
(** The end of a session leaves the lock free. *)
Lemma finish_frees : triple settled finish_session (fun _ c => exists s, free s c) (fun _ => False).
Proof using Hw.
  intros t [(s & Hs & Ht)|(s & Hi & Hs & Ht)].
  - unfold finish_session. rewrite run_gets. assert (sess t = s) as -> by apply Ht. rewrite Hs. cbn. eauto.
  - unfold finish_session. rewrite run_gets. assert (sess t = s) as -> by apply Ht. rewrite Hs. unfold catching.
    pose proof (rollback_triple s t Ht) as Hr. destruct (rollback_txn t) as [[[]|c|] t']; [by exists s|done..].
Qed.
End thread.

(** * The sessions together *)
Record server_ok (sv : Server) : Prop := {
  ok_begun : forall k s, clients sv !! k = Some s -> txn_started s = true -> in_txn s = true;
  ok_lock : forall k, lock sv = Some k <-> exists s, clients sv !! k = Some s /\ txn_started s = true;
  ok_engine : catalog_txn (cat sv) = held_flags (lock sv);
  ok_admitted : Z.of_nat (size (clients sv)) <= MAX_CLIENTS }.
(** Who else holds the lock. *)
Definition other (i : Z) (sv : Server) : option Z := if bool_decide (lock sv = Some i) then None else lock sv.
Lemma other_not_me i sv : other i sv <> Some i.
Proof. unfold other. case_bool_decide; congruence. Qed.
Lemma other_started i sv k : server_ok sv -> k <> i -> other i sv = Some k <-> exists s, clients sv !! k = Some s /\ txn_started s = true.
Proof. intros Hok Hk. rewrite <- (ok_lock _ Hok k). unfold other. case_bool_decide as E; [|done]. rewrite E. naive_solver. Qed.
Lemma thread_settled i s p sv : server_ok sv -> clients sv !! i = Some s -> settled i (other i sv) (core (thread_of i s p sv)).
Proof.
  intros Hok Hs. pose proof (ok_engine _ Hok) as He. unfold other. destruct (txn_started s) eqn:E.
  - assert (lock sv = Some i) as Hl by (apply (ok_lock _ Hok); eauto). right. exists s. rewrite bool_decide_eq_true_2 by done. split_and!; [by eapply ok_begun|done|].
    unfold held. cbn [core thread_of me sess db owner fst snd]. rewrite He, Hl. split_and!; try done.
  - assert (lock sv <> Some i) as Hl by (intros (s' & Hs' & E')%(ok_lock _ Hok); congruence). left. exists s. rewrite bool_decide_eq_false_2 by done. split; [done|].
    unfold free. cbn [core thread_of me sess db owner fst snd]. done.
Qed.
(** What a session that has been served leaves behind. *)
Lemma back_ok i sv t s : server_ok sv -> clients sv !! i = Some s -> settled i (other i sv) (core t) -> server_ok (back t sv).
Proof.
  intros Hok Hs Ht. assert (me t = i) as Hi by (destruct Ht as [(? & _ & ? & _)|(? & _ & _ & _ & ? & _)]; done).
  split; unfold back; cbn [clients lock cat]; rewrite ?Hi.
  - intros k s'. destruct (decide (k = i)) as [->|Hk]; [rewrite lookup_insert_eq|rewrite lookup_insert_ne by done; apply (ok_begun _ Hok)].
    intros [= <-] Hst. destruct Ht as [(s1 & H1 & _ & <- & _)|(s1 & H1 & H2 & _ & _ & <- & _)]; [cbn in H1; congruence|done].
  - intros k. destruct (decide (k = i)) as [->|Hk].
    + rewrite lookup_insert_eq. destruct Ht as [(s1 & H1 & _ & <- & H3 & _)|(s1 & H1 & H2 & _ & _ & <- & H3 & _)]; cbn in *.
      * rewrite H3. split; [intros E; by apply other_not_me in E|]. intros (s' & [= <-] & E). congruence.
      * rewrite H3. split; [eauto|done].
    + rewrite lookup_insert_ne by done. rewrite <- (other_started i sv k Hok Hk). destruct Ht as [(s1 & _ & _ & _ & H3 & _)|(s1 & _ & _ & H0 & _ & _ & H3 & _)]; cbn in *; rewrite H3; [done|].
      rewrite H0. naive_solver.
  - destruct Ht as [(s1 & _ & _ & _ & H3 & H4)|(s1 & _ & _ & H0 & _ & _ & H3 & H4)]; cbn in *; by rewrite H3.
  - rewrite map_size_insert_Some by (by rewrite Hs). by apply ok_admitted.
Qed.
Lemma removed_ok i sv t s s' : server_ok sv -> clients sv !! i = Some s -> free i (other i sv) s' (core t) -> server_ok (remove_client i (back t sv)).
Proof.
  intros Hok Hs (Hi & _ & Ho & He). cbn [core fst snd] in *. split; unfold remove_client, back; cbn [clients lock cat]; rewrite ?Hi, ?delete_insert_eq.
  - intros k s1. destruct (decide (k = i)) as [->|Hk]; [by rewrite lookup_delete_eq|]. rewrite lookup_delete_ne by done. apply (ok_begun _ Hok).
  - intros k. rewrite Ho. destruct (decide (k = i)) as [->|Hk].
    + rewrite lookup_delete_eq. split; [intros E; by apply other_not_me in E|]. by intros (? & ? & _).
    + rewrite lookup_delete_ne by done. by apply other_started.
  - by rewrite Ho.
  - etrans; [|apply (ok_admitted _ Hok)]. apply Nat2Z.inj_le. rewrite map_size_delete_Some by eauto. lia.
Qed.
Section served.
Context (wal_checkpoint_bytes : Z) (fuel : nat) (parse : bytes -> option (option SQLStatement)).
Lemma server_step_ok sv sv' : server_ok sv -> step wal_checkpoint_bytes fuel parse sv sv' -> server_ok sv'.
Proof.
  intros Hok [sock Hn|sock s q p t Hs Ht|sock s q p t t' Hs Ht Hf|sock s p t Hs Hf].
  - unfold spawn_client. destruct (Z.leb_spec MAX_CLIENTS (Z.of_nat (size (clients sv)))); [done|]. split; cbn [fst clients lock cat].
    + intros k s. destruct (decide (k = sock)) as [->|Hk]; [rewrite lookup_insert_eq; by intros [= <-]|rewrite lookup_insert_ne by done; apply (ok_begun _ Hok)].
    + intros k. destruct (decide (k = sock)) as [->|Hk]; [|rewrite lookup_insert_ne by done; apply (ok_lock _ Hok)]. rewrite lookup_insert_eq, (ok_lock _ Hok), Hn. naive_solver.
    + apply (ok_engine _ Hok).
    + rewrite map_size_insert_None by done. lia.
  - pose proof (settled_turn wal_checkpoint_bytes fuel parse sock (other sock sv) (other_not_me _ _) q _ (thread_settled sock s p sv Hok Hs)) as H. rewrite Ht in H. by eapply back_ok.
  - pose proof (settled_turn wal_checkpoint_bytes fuel parse sock (other sock sv) (other_not_me _ _) q _ (thread_settled sock s p sv Hok Hs)) as H. rewrite Ht in H.
    pose proof (finish_frees sock (other sock sv) (other_not_me _ _) t H) as H'. rewrite Hf in H'. destruct H' as [s' H']. by eapply removed_ok.
  - pose proof (finish_frees sock (other sock sv) (other_not_me _ _) _ (thread_settled sock s p sv Hok Hs)) as H'. rewrite Hf in H'. destruct H' as [s' H']. by eapply removed_ok.
Qed.
Lemma server_steps_ok sv sv' : server_ok sv -> rtc (step wal_checkpoint_bytes fuel parse) sv sv' -> server_ok sv'.
Proof. intros Hok Hs. induction Hs as [|sv sv1 sv2 H _ IH]; [done|]. apply IH. by eapply server_step_ok. Qed.
End served.
Lemma start_ok sv : clients sv = ∅ -> lock sv = None -> catalog_txn (cat sv) = (false, false) -> server_ok sv.
Proof.
  intros Hc Hl He. split; [intros k s; by rewrite Hc|intros k; rewrite Hl, Hc; naive_solver|by rewrite Hl|rewrite Hc, map_size_empty; by vm_compute].
Qed.

(** A parser of three requests. *)
Definition sample_parse (msg : bytes) : option (option SQLStatement) :=
  if bool_decide (msg = str "begin") then Some (Some BeginStmt) else if bool_decide (msg = str "rollback") then Some (Some RollbackStmt)
  else if bool_decide (msg = str ";") then Some None else None.
Definition sample_server : Server := mkServer (catalog_new (engine_new 4 ∅ []) false) None INFO ∅.
Definition ask (m : string) : Request := Some (msg_code MsgQuery, str m).
Definition served (sock : Z) (q : Request) (sv : Server) : Server :=
  match clients sv !! sock with
  | None => sv
  | Some s => back (turn 1000 5 sample_parse q (thread_of sock s (mkPeer [] None) sv)).2 sv
  end.
Definition sample_end : Server := served 4 (ask "bad") (served 9 (ask "begin") (served 4 (ask "begin") (spawn_client 9 (spawn_client 4 sample_server).1).1)).
Lemma sample_steps : rtc (step 1000 5 sample_parse) sample_server sample_end.
Proof.
  eapply rtc_l; [by apply (step_connect _ _ _ _ 4)|]. eapply rtc_l; [by apply (step_connect _ _ _ _ 9)|].
  eapply rtc_l; [apply (step_turn _ _ _ _ 4 new_session (ask "begin") (mkPeer [] None)); vm_compute; reflexivity|].
  eapply rtc_l; [apply (step_turn _ _ _ _ 9 new_session (ask "begin") (mkPeer [] None)); vm_compute; reflexivity|].
  eapply rtc_l; [apply (step_turn _ _ _ _ 4 (set_in_txn true new_session) (ask "bad") (mkPeer [] None)); vm_compute; reflexivity|].
  apply rtc_refl.
Qed.
Lemma sample_end_ok : server_ok sample_end.
Proof. eapply server_steps_ok; [|exact sample_steps]. by apply start_ok. Qed.

(** * The protocol of a session *)
Inductive Phase := Idle | Begun | Started.
Definition phase (s : SessionCtx) : Phase := if in_txn s then if txn_started s then Started else Begun else Idle.
(** Where a statement takes a session: BEGIN opens a transaction, or ends the one there is; COMMIT and ROLLBACK end it; inside a transaction a refused
    or failed statement ends it, any other starts or continues it; outside, statements leave no trace. *)
Definition next_phase (boot failed : bool) (p : Phase) (stmt : SQLStatement) : Phase :=
  match stmt with
  | BeginStmt => if boot then p else match p with Idle => Begun | _ => Idle end
  | CommitStmt | RollbackStmt => Idle
  | _ => match p with Idle => Idle | _ => if txn_forbidden_stmt stmt || failed then Idle else Started end
  end.
Section protocol.
Context (wal_checkpoint_bytes : Z) (fuel : nat) (parse : bytes -> option (option SQLStatement)).
Context (i : Z) (w : option Z) (Hw : w <> Some i).
Notation settled := (settled i w).
Notation free := (free i w).
Notation held := (held i w).
(** The catalog a statement is executed on: in a transaction. *)
Definition begun (c : Core) : Catalog := if txn_started c.1.1.2 then c.1.2 else (Catalog.begin_txn c.1.2).2.
Definition fails (schema : string) (stmt : SQLStatement) (c : Catalog) : bool :=
  match (execute fuel schema stmt c).1 with Raise _ => true | _ => false end.
Lemma enter_begun s t t1 : sess t = s -> (in_txn s = false -> txn_started s = false) -> enter_txn s t = (Ok tt, t1) -> db t1 = begun (core t).
Proof using.
  intros <- Hs. unfold enter_txn, begun. cbn [core fst snd]. unfold begin_txn, on_db, modify.
  destruct (in_txn (sess t)); [destruct (txn_started (sess t)); [by intros [= <-]|]|rewrite Hs by done]; [rewrite run_match|]; case_bool_decide; try done; rewrite run_match; destruct (Catalog.begin_txn (db t)) as [[[]|e|] c]; try done; by intros [= <-].
Qed.
Lemma try_execute_fails s stmt t r t1 : try_execute fuel s stmt t = (Ok r, t1) -> fails (current_schema s) stmt (db t) = bool_decide (r = None).
Proof using.
  unfold try_execute, catching, fails, on_db. rewrite run_match. destruct (execute fuel (current_schema s) stmt (db t)) as [[x|e|] c]; [by intros [= <- _]| |done].
  intros H. apply bind_run_ok in H as (? & ? & _ & H). apply bind_run_ok in H as (? & ? & _ & H). apply bind_run_ok in H as (? & ? & _ & H). by injection H as <- _.
Qed.
Lemma exec_after stmt s : (in_txn s = false -> txn_started s = false) -> forall t, settled (core t) -> sess t = s ->
  match exec_statement wal_checkpoint_bytes fuel stmt t with
  | (Fatal, _) => True
  | (_, t') => after i w s (fails (current_schema s) stmt (begun (core t))) (core t')
  end.
Proof using Hw.
  intros Hs t Ht Hst. unfold exec_statement. rewrite run_gets, Hst, run_match.
  assert (match enter_txn s t with (Ok _, t1) => held (entered s) (core t1) | (Raise _, _) => False | _ => True end) as He.
  { destruct Ht as [(s' & H1 & H2)|(s' & H1 & H2 & H3)].
    - assert (s' = s) as -> by (rewrite <- Hst; by destruct H2 as (_ & <- & _)). pose proof (enter_triple i w Hw s H1 t H2) as H. by destruct (enter_txn s t) as [[?| |] ?].
    - assert (s' = s) as -> by (rewrite <- Hst; by destruct H3 as (_ & _ & <- & _)). pose proof (entered_held i w Hw s H1 H2 t H3) as H. by destruct (enter_txn s t) as [[?| |] ?]. }
  pose proof (enter_begun s t) as Hb. destruct (enter_txn s t) as [[[]|e|] t1]; [|done..]. specialize (Hb t1 Hst Hs eq_refl). rewrite <- Hb.
  rewrite run_match. pose proof (try_execute_triple fuel i w Hw s stmt (fun _ => False) Hs t1 He) as Hx. pose proof (try_execute_fails s stmt t1) as Hf.
  destruct (try_execute fuel s stmt t1) as [[r|e|] t2]; [|done..]. rewrite (Hf r t2 eq_refl). destruct r as [r|].
  - pose proof (finish_statement wal_checkpoint_bytes i w Hw s r t2 Hx) as Hr. rewrite bool_decide_eq_false_2 by done. revert Hr. by match goal with |- match ?m with _ => _ end -> _ => destruct m as [[b|e|] t3] end.
  - exact Hx.
Qed.
Definition at_phase (p : Phase) (c : Core) : Prop := phase c.1.1.2 = p.
Lemma rollback_session_idle : triple settled rollback_session_txn (fun _ => at_phase Idle) (fun _ => False).
Proof using Hw.
  intros t Ht. unfold rollback_session_txn. rewrite run_gets, run_match. destruct Ht as [(s & H1 & H2)|(s & H1 & H2 & H3)].
  - assert (sess t = s) as -> by apply H2. rewrite H1. cbn. done.
  - assert (sess t = s) as -> by apply H3. rewrite H2, run_match. pose proof (rollback_triple i w Hw s t H3) as Hr. by destruct (rollback_txn t) as [[[]|e|] t'].
Qed.
Lemma phase_free s c : txn_started s = false -> free s c -> phase c.1.1.2 = if in_txn s then Begun else Idle.
Proof using. intros Hs (_ & -> & _). unfold phase. by rewrite Hs. Qed.
(** Keeping what is known of the core. *)
Lemma phase_keeps {A} (m : ST Thread A) p : keeps core m -> triple (at_phase p) m (fun _ => at_phase p) (at_phase p).
Proof using. intros H. by apply triple_keeps. Qed.
(** What a session says of itself outlives the calls of the catalog and the replies. *)
Definition says (t : Thread) : bool := in_txn (sess t).
Lemma says_on_db {A} (m : ST Catalog A) : keeps says (on_db m).
Proof using. intros t. unfold on_db. by destruct (m (db t)). Qed.
Lemma says_on_peer {A} (m : ST Peer A) : keeps says (on_peer m).
Proof using. intros t. unfold on_peer. by destruct (m (peer t)). Qed.
Lemma keeps_catching {S A O} (f : S -> O) (m : ST S A) h : keeps f m -> (forall c, keeps f (h c)) -> keeps f (catching m h).
Proof using. intros Hm Hh s. unfold catching. specialize (Hm s). destruct (m s) as [[a|c|] s1]; cbn [snd] in *; [done|by rewrite Hh|done]. Qed.
Lemma says_unlocking m : keeps says m -> keeps says (unlocking m).
Proof using. intros H. unfold unlocking. apply keeps_bind; [|keeps]. apply keeps_catching; [done|]. keeps. Qed.
Lemma says_commit : keeps says (commit_txn wal_checkpoint_bytes).
Proof using. apply says_unlocking, says_on_db. Qed.
Lemma says_rollback : keeps says rollback_txn.
Proof using. apply says_unlocking, says_on_db. Qed.
Lemma says_reply r : keeps says (reply r).
Proof using. apply says_on_peer. Qed.
#[local] Hint Resolve says_commit says_rollback says_reply : keeps.
Lemma says_begin : keeps says begin_txn.
Proof using. intros t. unfold begin_txn. case_bool_decide; [|done]. at_state. apply keeps_bind; [apply says_on_db|keeps]. Qed.
Lemma idle_end {A} (m : ST Thread A) : keeps says m -> forall t, in_txn (sess t) = false -> match m t with (Fatal, _) => True | (_, t') => at_phase Idle (core t') end.
Proof using. intros Hm t Ht. specialize (Hm t). unfold says, at_phase, phase in *. destruct (m t) as [[a|c|] t']; cbn in *; by rewrite ?Hm, ?Ht. Qed.
Lemma control_phase k t : settled (core t) -> match handle_txn_control wal_checkpoint_bytes k t with
  | (Fatal, _) => True
  | (_, t') => at_phase (match k with DoBegin => if bootstrap_mode (db t) then phase (sess t) else match phase (sess t) with Idle => Begun | _ => Idle end | _ => Idle end) (core t')
  end.
Proof using Hw.
  intros Ht. assert (forall m, keeps says m -> match (s ← gets sess; if negb (in_txn s) then fail NoActiveTxn else
    _ ← modify (set_sess (set_in_txn false)); m) t with (Fatal, _) => True | (_, t') => at_phase Idle (core t') end) as Hend.
  { intros m Hm. rewrite run_gets. destruct (in_txn (sess t)) eqn:Ei; cbn [negb]; [rewrite run_modify; by apply idle_end|]. apply idle_end; [apply says_on_peer|done]. }
  destruct k; [|apply Hend; keeps..].
  unfold handle_txn_control. rewrite run_gets, run_gets. destruct (bootstrap_mode (db t)).
  - pose proof (keeps_fail BootstrapMode t) as Hk. destruct (fail BootstrapMode t) as [[a|c|] t']; cbn [snd] in Hk; [unfold at_phase; by rewrite Hk..|done].
  - unfold phase. destruct (in_txn (sess t)) eqn:Ei.
    + assert (match (_ ← rollback_session_txn; fail TxnActive) t with (Fatal, _) => True | (_, t') => at_phase Idle (core t') end) as H; [|by destruct (txn_started (sess t))].
      rewrite run_match. pose proof (rollback_session_idle t Ht) as Hr. destruct (rollback_session_txn t) as [[[]|c|] t1]; [|done..].
      pose proof (keeps_fail TxnActive t1) as Hk. destruct (fail TxnActive t1) as [[a|c|] t']; cbn [snd] in Hk; [unfold at_phase; by rewrite Hk..|done].
    + rewrite run_modify. assert (txn_started (sess t) = false) as Es by (destruct Ht as [(s & H1 & _ & <- & _)|(s & H1 & _ & _ & _ & <- & _)]; cbn in *; congruence).
      pose proof (keeps_reply (ROk TagBegin 0) (set_sess (set_in_txn true) t)) as Hk. rewrite run_match.
      destruct (reply (ROk TagBegin 0) (set_sess (set_in_txn true) t)) as [[a|c|] t']; cbn [snd] in Hk; [..|done]; unfold at_phase; cbn [snd mret st_ret]; rewrite Hk; unfold phase; cbn; by rewrite Es.
Qed.
Lemma set_phase var value form t : match handle_session_set var value form t with (Fatal, _) => True | (_, t') => phase (sess t') = phase (sess t) end.
Proof using.
  assert (keeps (fun t => phase (sess t)) (handle_session_set var value form)) as H; [|specialize (H t); by destruct (handle_session_set var value form t) as [[]]].
  assert (forall A (m : ST Peer A), keeps (fun t => phase (sess t)) (on_peer m)) as Hp by (intros A m t1; unfold on_peer; by destruct (m (peer t1))).
  unfold handle_session_set, set_ok, notice, reply, fail. repeat case_match; keeps; try apply Hp; try (intros t1; apply Hp).
Qed.
Lemma set_unknown var value form t t1 : handle_session_set var value form t = (Ok false, t1) -> t1 = t.
Proof using.
  assert (forall m : ST Thread bool, (forall t t1, m t = (Ok false, t1) -> False) -> m t = (Ok false, t1) -> t1 = t) as Hno by (intros m Hm E; by apply Hm in E).
  assert (forall A (m : ST Thread A) t t1, (m ≫= (fun _ => mret true)) t = (Ok false, t1) -> False) as Htrue by (intros A m t2 t3 (? & ? & _ & E)%bind_run_ok; done).
  assert (forall text t t1, set_ok text t = (Ok false, t1) -> False) as Hset by (intros text t2 t3 (? & ? & _ & E)%bind_run_ok; by apply Htrue in E).
  unfold handle_session_set. repeat case_match; try (by intros [= <-]); apply Hno; intros t2 t3 E; try (by apply Htrue in E); apply bind_run_ok in E as (? & ? & _ & E); by apply Hset in E.
Qed.
Lemma notice_runs l text t : exists t', notice l text t = (Ok tt, t') /\ core t' = core t.
Proof using.
  pose proof (keeps_notice l text t) as Hk. unfold notice, on_peer, send_notice, send_frame in *. destruct (_ <? _); [by eexists|]. rewrite run_match in *.
  destruct (room (peer t)) as [[|n]|]; by eexists.
Qed.
Lemma at_phase_keeps {A} (m : ST Thread A) p t : keeps core m -> phase (sess t) = p -> match m t with (Fatal, _) => True | (_, t') => at_phase p (core t') end.
Proof using. intros Hm Ht. specialize (Hm t). unfold at_phase. destruct (m t) as [[a|c|] t']; cbn [snd] in Hm; by rewrite ?Hm. Qed.
(** A call that settles the phase, then one that leaves it. *)
Lemma at_phase_then {A B} (m : ST Thread A) (k : A -> ST Thread B) p t : match m t with (Fatal, _) => True | (_, t') => at_phase p (core t') end -> (forall a, keeps core (k a)) ->
  match (m ≫= k) t with (Fatal, _) => True | (_, t') => at_phase p (core t') end.
Proof using. intros Hm Hk. rewrite run_match. destruct (m t) as [[a|c|] t1]; [by apply at_phase_keeps|done..]. Qed.
Lemma after_phase s failed c : (in_txn s = false -> txn_started s = false) -> after i w s failed c ->
  phase c.1.1.2 = if failed then Idle else match phase s with Idle => Idle | _ => Started end.
Proof using.
  intros Hs. unfold after, phase. destruct failed; [by intros (_ & -> & _)|]. destruct (in_txn s) eqn:Ei; [intros (_ & _ & -> & _)|intros (_ & -> & _)]; cbn; rewrite Ei; by repeat case_match.
Qed.
Lemma settled_flags t : settled (core t) -> in_txn (sess t) = false -> txn_started (sess t) = false.
Proof using. intros [(s & H1 & _ & <- & _)|(s & H1 & _ & _ & _ & <- & _)]; cbn in *; congruence. Qed.
Lemma route_phase stmt t : settled (core t) ->
  match route wal_checkpoint_bytes fuel stmt t with
  | (Fatal, _) => True
  | (_, t') => at_phase (next_phase (bootstrap_mode (db t)) (fails (current_schema (sess t)) stmt (begun (core t))) (phase (sess t)) stmt) (core t')
  end.
Proof using Hw.
  intros Ht. assert (forall k, match (_ ← handle_txn_control wal_checkpoint_bytes k; mret true) t with
    | (Fatal, _) => True | (_, t') => at_phase (match k with DoBegin => if bootstrap_mode (db t) then phase (sess t) else match phase (sess t) with Idle => Begun | _ => Idle end | _ => Idle end) (core t') end) as Hc.
  { intros k. apply at_phase_then; [by apply control_phase|keeps]. }
  assert (match stmt with BeginStmt | CommitStmt | RollbackStmt => False | _ => True end -> match (if in_txn (sess t) && txn_forbidden_stmt stmt then _ ← rollback_session_txn; _ ← fail DdlInTxn; mret true
      else handled ← match stmt with SetStmt var value form => handle_session_set var value form | _ => mret false end;
           if handled : bool then mret true else exec_statement wal_checkpoint_bytes fuel stmt) t with
    | (Fatal, _) => True
    | (_, t') => at_phase (match phase (sess t) with Idle => Idle | _ => if txn_forbidden_stmt stmt || fails (current_schema (sess t)) stmt (begun (core t)) then Idle else Started end) (core t')
    end) as Hrest.
  { intros Hstmt. pose proof (exec_after stmt (sess t) (settled_flags t Ht) t Ht eq_refl) as He.
    assert (in_txn (sess t) = false \/ txn_forbidden_stmt stmt = false -> match exec_statement wal_checkpoint_bytes fuel stmt t with (Fatal, _) => True
      | (_, t') => at_phase (match phase (sess t) with Idle => Idle | _ => if txn_forbidden_stmt stmt || fails (current_schema (sess t)) stmt (begun (core t)) then Idle else Started end) (core t') end) as Hx.
    { intros Hor. assert (forall t', after i w (sess t) (fails (current_schema (sess t)) stmt (begun (core t))) (core t') ->
        at_phase (match phase (sess t) with Idle => Idle | _ => if txn_forbidden_stmt stmt || fails (current_schema (sess t)) stmt (begun (core t)) then Idle else Started end) (core t')) as Ha.
      { intros t' Ha%after_phase; [|by apply settled_flags]. unfold at_phase. rewrite Ha. unfold phase. destruct Hor as [-> | ->]; [by destruct (fails _ _ _)|].
        cbn [orb]. destruct (in_txn (sess t)), (txn_started (sess t)), (fails _ _ _); done. }
      destruct (exec_statement wal_checkpoint_bytes fuel stmt t) as [[b|c|] t']; auto. }
    destruct (in_txn (sess t) && txn_forbidden_stmt stmt) eqn:Eb.
    - apply andb_prop in Eb as [Ei Ef]. rewrite Ef. cbn [orb]. assert (match phase (sess t) with Idle => Idle | _ => Idle end = Idle) as -> by (by destruct (phase (sess t))).
      apply at_phase_then; [|keeps]. pose proof (rollback_session_idle t Ht) as Hr. by destruct (rollback_session_txn t) as [[?|?|] ?].
    - apply andb_false_iff in Eb. destruct stmt; try done; try (rewrite run_ret; by apply Hx). rewrite run_match.
      pose proof (set_phase var value form t) as Hp. destruct Eb as [Ei|?]; [|done]. assert (phase (sess t) = Idle) as Hi by (unfold phase; by rewrite Ei). rewrite Hi in *.
      destruct (handle_session_set var value form t) as [[[]|c|] t1] eqn:E; [done| |done..].
      apply set_unknown in E as ->. apply Hx. by left. }
  unfold route. rewrite run_gets. unfold next_phase. destruct stmt; try (by apply Hrest); [apply (Hc DoBegin)|apply (Hc DoCommit)|apply (Hc DoRollback)].
Qed.
(** A turn that reads a statement. *)
Lemma turn_phase msg t : settled (core t) -> msg <> str "quit" -> msg <> str "exit" ->
  match turn wal_checkpoint_bytes fuel parse (Some (msg_code MsgQuery, msg)) t with
  | (Fatal, _) => True
  | (Raise _, _) => False
  | (Ok _, t') => phase (sess t') = match parse msg with
      | None => Idle
      | Some None => phase (sess t)
      | Some (Some stmt) => next_phase (bootstrap_mode (db t)) (fails (current_schema (sess t)) stmt (begun (core t))) (phase (sess t)) stmt
      end
  end.
Proof using Hw.
  intros Ht Hq He. unfold turn. set (p := match parse msg with None => Idle | _ => _ end).
  assert (forall m : ST Thread bool, match m t with (Fatal, _) => True | (_, t') => at_phase p (core t') end ->
    match catching m (fun c => _ ← fail c; mret true) t with (Fatal, _) => True | (Raise _, _) => False | (Ok _, t') => phase (sess t') = p end) as Hend.
  { intros m Hr. unfold catching. destruct (m t) as [[b|c|] t']; [exact Hr| |done]. assert (keeps core (_ ← fail c; mret true)) as Hk by keeps. specialize (Hk t'). rewrite run_match in *.
    pose proof (fail_triple (fun _ => True) c (fun _ => False) t' I) as Hf. destruct (fail c t') as [[[]|c'|] t2]; [|done..]. cbn in Hk |- *. unfold at_phase in Hr. cbn in Hr. injection Hk as _ E _ _. by rewrite E. }
  apply Hend. unfold recv_query. rewrite Z.eqb_refl. cbn [negb]. rewrite run_assoc. destruct (notice_runs DEBUG (str "收到 SQL: " ++ msg) t) as (t1 & E1 & C1). run E1.
  rewrite !bool_decide_eq_false_2 by done. cbn [orb]. rewrite run_ret. unfold p. rewrite <- C1 in Ht |- *. injection C1 as _ Es Ed _. rewrite <- Es, <- Ed.
  destruct (parse msg) as [[stmt|]|].
  - destruct (notice_runs DEBUG (str "解析成功: " ++ msg) t1) as (t2 & E2 & C2). run E2. rewrite <- C2 in Ht |- *. injection C2 as _ Es2 Ed2 _. rewrite <- Es2, <- Ed2. by apply route_phase.
  - destruct (notice_runs DEBUG (str "解析成功: " ++ msg) t1) as (t2 & E2 & C2). run E2. injection C2 as _ <- _ _. apply at_phase_keeps; [keeps|done].
  - rewrite run_gets. apply at_phase_then; [|keeps]. destruct (in_txn (sess t1)) eqn:Ei; [|apply at_phase_keeps; [keeps|unfold phase; by rewrite Ei]].
    pose proof (rollback_session_idle t1 Ht) as Hr. by destruct (rollback_session_txn t1) as [[?|?|] ?].
Qed.
End protocol.
(** C13. The protocol of a session. In any server whose sessions are in order, a request that parses to a statement takes its session from
    outside a transaction, inside one that has not started, or inside one that has, exactly where the table [next_phase] says; a request that
    does not parse ends the session's transaction, an empty one changes nothing. The turn itself never throws: every error ends in a reply. A
    statement counts as failed when its execution raises an error; an error met later, while its rows are pulled, does not end the transaction. *)
Theorem session_follows_protocol wal_checkpoint_bytes fuel parse sv sock s p msg :
  server_ok sv -> clients sv !! sock = Some s -> msg <> str "quit" -> msg <> str "exit" ->
  match turn wal_checkpoint_bytes fuel parse (Some (msg_code MsgQuery, msg)) (thread_of sock s p sv) with
  | (Fatal, _) => True
  | (Raise _, _) => False
  | (Ok _, t) => phase (sess t) = match parse msg with
      | None => Idle
      | Some None => phase s
      | Some (Some stmt) => next_phase (bootstrap_mode (cat sv)) (fails fuel (current_schema s) stmt (begun (core (thread_of sock s p sv)))) (phase s) stmt
      end
  end.
Proof.
  intros Hok Hs Hq He. exact (turn_phase wal_checkpoint_bytes fuel parse sock (other sock sv) (other_not_me _ _) msg (thread_of sock s p sv) (thread_settled sock s p sv Hok Hs) Hq He).
Qed.

(** ** Errors of a statement *)
Lemma enter_runs sv sock s p : server_ok sv -> clients sv !! sock = Some s -> lock sv = None \/ lock sv = Some sock ->
  let t := thread_of sock s p sv in
  enter_txn s t = (Ok tt, mkThread sock (entered s) (begun (core t)) (Some sock) (log_threshold sv) p) /\ catalog_txn (begun (core t)) = (true, true).
Proof.
  intros Hok Hs Hl. cbv zeta. pose proof (ok_engine _ Hok) as He. unfold begun, enter_txn, entered, thread_of. cbn [core me sess db owner fst snd].
  destruct (txn_started s) eqn:Es.
  - assert (lock sv = Some sock) as El by (apply (ok_lock _ Hok); eauto). rewrite El in *. rewrite (ok_begun _ Hok sock s Hs Es). split; [|done].
    destruct s as [b st lv sc]. cbn in *. by subst.
  - assert (lock sv = None) as El by (destruct Hl as [?|Hl]; [done|]; apply (ok_lock _ Hok) in Hl as (s' & Hs' & ?); congruence). rewrite El in *.
    destruct (begin_opens (cat sv) He) as (c' & E & Hc & _). rewrite E. split; [|exact Hc].
    assert (begin_txn (mkThread sock s (cat sv) None (log_threshold sv) p) = (Ok tt, mkThread sock s c' (Some sock) (log_threshold sv) p)) as Hb.
    { unfold begin_txn, on_db. rewrite bool_decide_eq_true_2 by auto. rewrite run_match. cbn [db]. by rewrite E. }
    destruct (in_txn s); [run Hb|exact Hb]. done.
Qed.
(** C17. What an error leaves. When the execution of a statement raises an error, the whole transaction is rolled back, explicit or not: the engine has
    none afterwards, the lock is free, the session is outside, and the error is the reply. When the rows of a statement inside a
    transaction raise an error while they are pulled - the session is then sending them - the head and the full batches are out, the error passes
    to the loop, and the transaction goes on: nothing is rolled back and the lock stays with the session. *)
Theorem statement_errors wal_checkpoint_bytes fuel sv sock s p stmt e c1 :
  server_ok sv -> clients sv !! sock = Some s -> lock sv = None \/ lock sv = Some sock ->
  (execute fuel (current_schema s) stmt (begun (core (thread_of sock s p sv))) = (Raise e, c1) ->
     exists c2, Catalog.rollback_txn c1 = (Ok tt, c2) /\ catalog_txn c2 = (false, false) /\
       exec_statement wal_checkpoint_bytes fuel stmt (thread_of sock s p sv) = (Ok true, mkThread sock (left_txn s) c2 None (log_threshold sv) (send_error e p).2)) /\
  (forall names rows, in_txn s = true -> Forall sendable_row rows -> room p = None ->
     execute fuel (current_schema s) stmt (begun (core (thread_of sock s p sv))) = (Ok (ResultSet names (rows, Raise e)), c1) ->
     exists bs rest, full_batches bs /\ row_cells <$> rows = concat bs ++ rest /\ catalog_txn c1 = (true, true) /\
       exec_statement wal_checkpoint_bytes fuel stmt (thread_of sock s p sv) =
         (Raise e, mkThread sock (set_txn_started true s) c1 (Some sock) (log_threshold sv) (heard p (RHead (str <$> names) :: (RBatch <$> bs))))).
Proof.
  intros Hok Hs Hl. destruct (enter_runs sv sock s p Hok Hs Hl) as [E1 E2]. pose proof (execute_in_txn fuel (current_schema s) stmt (begun (core (thread_of sock s p sv)))) as Hk.
  unfold exec_statement. rewrite run_gets. change (sess (thread_of sock s p sv)) with s. rewrite (run_bind _ _ _ _ _ E1). set (t1 := mkThread _ _ _ _ _ _). split.
  - intros E3. rewrite E3 in Hk. cbn [snd] in Hk. rewrite E2 in Hk. destruct (rollback_closes c1 Hk) as (c2 & R1 & R2). exists c2. split_and!; [done|done|].
    assert (try_execute fuel s stmt t1 = (Ok None, mkThread sock (left_txn s) c2 None (log_threshold sv) (send_error e p).2)) as Ht.
    { unfold try_execute, catching, on_db. rewrite run_match. cbn [t1 db]. rewrite E3.
      assert (rollback_txn (set_db c1 t1) = (Ok tt, mkThread sock (entered s) c2 None (log_threshold sv) p)) as Hr.
      { unfold rollback_txn, unlocking, catching, on_db. rewrite run_match. cbn [set_db t1 db me sess owner threshold peer]. by rewrite R1. }
      run Hr. assert (forall t2, fail e t2 = (Ok tt, set_peer (send_error e (peer t2)).2 t2)) as Hf.
      { intros t2. unfold fail, on_peer, send_error, send_frame. rewrite !run_match. by destruct (room (peer t2)) as [[|n]|]. }
      assert ((if in_txn s then modify (set_sess (fun s => set_txn_started false (set_in_txn false s))) else mret tt) (mkThread sock (entered s) c2 None (log_threshold sv) p) =
        (Ok tt, mkThread sock (left_txn s) c2 None (log_threshold sv) p)) as Hm.
      { unfold entered, left_txn. destruct (in_txn s) eqn:Ei; [done|]. assert (txn_started s = false) as Es by (destruct (txn_started s) eqn:Es; [by rewrite (ok_begun _ Hok sock s Hs Es) in Ei|done]).
        destruct s. cbn in *. by subst. }
      run Hm. run (Hf (mkThread sock (left_txn s) c2 None (log_threshold sv) p)). done. }
    by run Ht.
  - intros names rows Hi Hrows Hp E3. rewrite E3 in Hk. cbn [snd] in Hk. rewrite E2 in Hk.
    assert (try_execute fuel s stmt t1 = (Ok (Some (ResultSet names (rows, Raise e))), set_db c1 t1)) as Ht.
    { unfold try_execute, catching, on_db. rewrite run_match. cbn [t1 db]. by rewrite E3. }
    run Ht. rewrite Hi, run_ret. destruct (result_stream_broken names rows e (client_msg_level s) p Hrows Hp) as (bs & rest & Hb & H1 & _ & H2).
    exists bs, rest. split_and!; [done..|]. unfold send_result, on_peer. unfold t1, entered. rewrite Hi. cbn [set_db peer me sess db owner threshold]. by rewrite H2.
Qed.
Lemma session_follows_protocol_witness :
  match turn 1000 5 sample_parse (ask "rollback") (thread_of 9 (set_in_txn true new_session) (mkPeer [] None) sample_end) with
  | (Ok _, t) => phase (sess t) = Idle
  | _ => False
  end.
Proof.
  pose proof (session_follows_protocol 1000 5 sample_parse sample_end 9 (set_in_txn true new_session) (mkPeer [] None) (str "rollback") sample_end_ok
    ltac:(vm_compute; reflexivity) ltac:(discriminate) ltac:(discriminate)) as H. unfold ask.
  destruct (turn 1000 5 sample_parse (Some (msg_code MsgQuery, str "rollback")) (thread_of 9 (set_in_txn true new_session) (mkPeer [] None) sample_end)) as [[b|c|] t] eqn:E;
    [exact H|exact H|].
  apply (f_equal (fun r => is_ok r.1)) in E. vm_compute in E. discriminate E.
Defined.
