(* ===== verification/Broken.v ===== *)
(** Statements that fail on a database just bootstrapped: a query whose first row divides by zero while the rows are sent, inside a transaction,
    and an EXPLAIN that has no text. *)
From S2P Require Import Prelude Types Text Codec Cast Expr Key Page Wal Disk Recovery State Node Pool Tree Engine Bind Plan Query Meta Stmt Analyze Explain Catalog Proto Exec InTxn Reply Server.

(** [SELECT 1 / (schema_id - 1) FROM system.db_schema]. *)
Definition dividing : SQLStatement :=
  SelectStmt (mkQName "system" "db_schema") false
    [ExprItem (BinaryOpExpr Decimal.OpDiv (IntExpr (str "1")) (BinaryOpExpr Decimal.OpSub (IdentifierExpr "schema_id") (IntExpr (str "1")))) ""] None [] None None.
(** A database just bootstrapped, in its transaction. *)
Definition booted : Catalog := ((_ ← Catalog.begin_txn; bootstrap_meta_tables) (catalog_new (engine_new 12 ∅ []) true)).2.
(** [EXPLAIN SELECT * FROM system.db_schema WHERE 1 = 2 ORDER BY schema_id + 1]. *)
Definition nothing_sorted : SQLStatement :=
  SelectStmt (mkQName "system" "db_schema") false [StarItem] (Some (CompareExpr CmpEq (IntExpr (str "1")) (IntExpr (str "2"))))
    [mkOrderItem (BinaryOpExpr Decimal.OpAdd (IdentifierExpr "schema_id") (IntExpr (str "1"))) false] None None.
Definition outcome (s : SQLStatement) : result ExecResult := (execute 20 "public" s booted).1.
Lemma statements_fail :
  outcome dividing = Ok (ResultSet ["(1 / (schema_id - 1))"%string] ([], Raise ArithError)) /\
  match outcome nothing_sorted with Ok (ResultSet _ ([], Ok tt)) => True | _ => False end /\ outcome (ExplainStmt nothing_sorted) = Raise Internal /\
  catalog_txn booted = (true, true).
Proof. vm_compute. repeat split; reflexivity. Qed.
Lemma dividing_fails : outcome dividing = Ok (ResultSet ["(1 / (schema_id - 1))"%string] ([], Raise ArithError)) /\
  catalog_txn booted = (true, true).
Proof. destruct statements_fail as (? & ? & ? & ?). split; assumption. Qed.
(** The SELECT runs and returns no row, but it cannot be explained. *)
Lemma empty_sort_unexplained : outcome (ExplainStmt nothing_sorted) = Raise Internal /\
  match outcome nothing_sorted with Ok (ResultSet _ ([], Ok tt)) => True | _ => False end.
Proof. destruct statements_fail as (? & ? & ? & ?). split; assumption. Qed.
Definition busy : SessionCtx := mkSession true true INFO "public".
Definition booted_server : Server := mkServer booted (Some 7) INFO {[7 := busy]}.
Lemma booted_ok : server_ok booted_server.
Proof.
  split; unfold booted_server; cbn [clients lock cat].
  - intros k s [_ <-]%lookup_singleton_Some. done.
  - intros k. split; [intros [= <-]; exists busy; by rewrite lookup_singleton_eq|]. intros (s & [<- _]%lookup_singleton_Some & _). done.
  - apply dividing_fails.
  - rewrite map_size_singleton. by vm_compute.
Qed.
(** A variable the server does not know, set by an auto-committed statement. *)
Definition unknown_set : SQLStatement := SetStmt "nope" "1" SvInt.
Lemma statement_errors_witness :
  (exists c2, catalog_txn c2 = (false, false) /\ exec_statement 1000 5 unknown_set (thread_of 4 new_session (mkPeer [] None) sample_end) =
    (Ok true, mkThread 4 new_session c2 None INFO (mkPeer [RError NotImplemented] None))) /\
  exists c1, catalog_txn c1 = (true, true) /\ exec_statement 1000 20 dividing (thread_of 7 busy (mkPeer [] None) booted_server) =
    (Raise ArithError, mkThread 7 busy c1 (Some 7) INFO (mkPeer [RHead [str "(1 / (schema_id - 1))"]] None)).
Proof.
  split.
  - destruct (statement_errors 1000 5 sample_end 4 new_session (mkPeer [] None) unknown_set NotImplemented (Catalog.begin_txn (cat sample_end)).2 sample_end_ok
      ltac:(vm_compute; reflexivity) ltac:(left; vm_compute; reflexivity)) as [H _].
    destruct H as (c2 & _ & H1 & H2); [vm_compute; reflexivity|]. exists c2. split; [exact H1|exact H2].
  - destruct dividing_fails as [E _]. unfold outcome in E. set (c1 := (execute 20 "public" dividing booted).2).
    destruct (statement_errors 1000 20 booted_server 7 busy (mkPeer [] None) dividing ArithError c1 booted_ok (lookup_singleton_eq _ _) (or_intror eq_refl)) as [_ H].
    destruct (H ["(1 / (schema_id - 1))"%string] [] eq_refl (Forall_nil_2 _) eq_refl) as (bs & rest & Hb & H1 & H2 & H3).
    { change (begun (core (thread_of 7 busy (mkPeer [] None) booted_server))) with booted. unfold c1. rewrite <- E. apply surjective_pairing. }
    exists c1. split; [exact H2|]. rewrite H3. destruct bs as [|b bs]; [reflexivity|]. exfalso. apply Forall_cons_1 in Hb as [Hb _].
    destruct b; [discriminate Hb|discriminate H1].
Defined.
