(* ===== verification/Config.v ===== *)
(** The configuration file (src/config/config.cpp): the keys, the ranges of the whole-number settings, and the loader, which reads line by
    line into the global [cfg] and stops at the first line that is wrong. *)
From S2P Require Import Prelude Text.

(** * The configuration *)
Record Config := mkConfig { port : Z; control_socket : bytes; buffer_pool_frames : Z; wal_checkpoint_bytes : Z; server_log_level : bytes }.
Definition default_config : Config := mkConfig 8123 [] 8192 (16 * 1024 * 1024) (str "info").
Record IntSpec := mkIntSpec { spec_key : bytes; spec_min : Z; spec_max : Z }.
Definition kIntSpecs : list IntSpec :=
  [mkIntSpec (str "port") 1 65535; mkIntSpec (str "buffer_pool_frames") 16 1048576;
   mkIntSpec (str "wal_checkpoint_bytes") (64 * 1024) (1024 * 1024 * 1024)].
Definition int_spec (key : bytes) : option IntSpec := List.find (fun s => bool_decide (spec_key s = key)) kIntSpecs.
Definition is_space (c : Z) : bool := (c =? 32) || (c =? 9) || (c =? 13) || (c =? 10).
Fixpoint trim_front (s : bytes) : bytes := match s with c :: s' => if is_space c then trim_front s' else s | [] => [] end.
(** [trim]: first the front, then the back. *)
Definition trim (s : bytes) : bytes := rev (trim_front (rev (trim_front s))).
Definition kLogLevelNames : list bytes :=
  str <$> ["debug5"; "debug4"; "debug3"; "debug2"; "debug"; "info"; "notice"; "warning"; "error"; "critical"]%string.
Definition lower (c : Z) : Z := if (65 <=? c) && (c <=? 90) then c + 32 else c.
Definition is_log_level (v : bytes) : bool := existsb (fun known => bool_decide (lower <$> v = known)) kLogLevelNames.

(** * Loading *)
Inductive ConfError := MissingEq | MissingKey | MissingValue | DuplicateKey | BadValue | OutOfRange | UnknownKey.
#[export] Instance ConfError_eq_dec : EqDecision ConfError.
Proof. solve_decision. Defined.
(** [find]: the text before the first [c], and what follows it. *)
Fixpoint split_at (c : Z) (s : bytes) : bytes * option bytes :=
  match s with
  | [] => ([], None)
  | d :: s => if d =? c then ([], Some s) else let '(a, r) := split_at c s in (d :: a, r)
  end.
(** [std::getline] until the end of the file: the end of a last line needs no newline. *)
Fixpoint lines (cur : bytes) (s : bytes) : list bytes :=
  match s with
  | [] => if is_nil cur then [] else [rev cur]
  | c :: s => if c =? 10 then rev cur :: lines [] s else lines (c :: cur) s
  end.
Definition BOM : bytes := [0xEF; 0xBB; 0xBF].
(** The key and the value of a line, [None] for an empty line or a comment. *)
Definition parse_line (first : bool) (line : bytes) : ConfError + option (bytes * bytes) :=
  let content := if first && bool_decide (take 3 line = BOM) then drop 3 line else line in
  let content := trim (split_at 35 content).1 in
  if is_nil content then inr None
  else
    match split_at 61 content with
    | (_, None) => inl MissingEq
    | (k, Some v) => if is_nil (trim k) then inl MissingKey else if is_nil (trim v) then inl MissingValue else inr (Some (trim k, trim v))
    end.
(** The number of a whole-number setting; 0 for the others, which do not use it. *)
Definition parse_num (key value : bytes) : ConfError + Z :=
  match int_spec key with
  | None => inr 0
  | Some spec =>
      match from_chars_i64 value with
      | None => inl BadValue
      | Some n => if (n <? spec_min spec) || (n >? spec_max spec) then inl OutOfRange else inr n
      end
  end.
Definition set_key (key value : bytes) (num : Z) (c : Config) : ConfError + Config :=
  let '(mkConfig p cs fs wb lv) := c in
  if bool_decide (key = str "port") then inr (mkConfig num cs fs wb lv)
  else if bool_decide (key = str "buffer_pool_frames") then inr (mkConfig p cs num wb lv)
  else if bool_decide (key = str "wal_checkpoint_bytes") then inr (mkConfig p cs fs num lv)
  else if bool_decide (key = str "control_socket") then inr (mkConfig p value fs wb lv)
  else if bool_decide (key = str "server_log_level") then if is_log_level value then inr (mkConfig p cs fs wb value) else inl BadValue
  else inl UnknownKey.
Definition load_line (first : bool) (line : bytes) (seen : list bytes) (c : Config) : ConfError + (list bytes * Config) :=
  match parse_line first line with
  | inl e => inl e
  | inr None => inr (seen, c)
  | inr (Some (key, value)) =>
      if bool_decide (key ∈ seen) then inl DuplicateKey
      else match parse_num key value with
           | inl e => inl e
           | inr num => match set_key key value num c with inl e => inl e | inr c => inr (seen ++ [key], c) end
           end
  end.
(** The configuration that is left, and the first error with its line; the settings read before the error stay. *)
Fixpoint load_lines (no : Z) (ls : list bytes) (seen : list bytes) (c : Config) : Config * option (Z * ConfError) :=
  match ls with
  | [] => (c, None)
  | l :: ls =>
      match load_line (no =? 1) l seen c with
      | inl e => (c, Some (no, e))
      | inr (seen, c) => load_lines (no + 1) ls seen c
      end
  end.
Definition load (text : bytes) (c : Config) : Config * option (Z * ConfError) := load_lines 1 (lines [] text) [] c.

Example load_demo : load (BOM ++ str "# server" ++ [10] ++ str "port = 9000 # tcp" ++ [13; 10] ++ [10] ++ str "server_log_level=DEBUG") default_config
  = (mkConfig 9000 [] 8192 16777216 (str "DEBUG"), None).
Proof. by vm_compute. Qed.
Example load_twice : load (str "port=1" ++ [10] ++ str "port=2") default_config = (mkConfig 1 [] 8192 16777216 (str "info"), Some (2, DuplicateKey)).
Proof. by vm_compute. Qed.

(** * What is loaded is in range, whatever the file says *)
Record config_ok (c : Config) : Prop := {
  ok_port : 1 <= port c <= 65535;
  ok_frames : 16 <= buffer_pool_frames c <= 1048576;
  ok_wal : 64 * 1024 <= wal_checkpoint_bytes c <= 1024 * 1024 * 1024;
  ok_level : is_log_level (server_log_level c) = true }.
Lemma default_config_ok : config_ok default_config.
Proof. by split; vm_compute. Qed.
Lemma parse_num_range spec key value n : int_spec key = Some spec -> parse_num key value = inr n -> spec_min spec <= n <= spec_max spec.
Proof.
  intros Hs. unfold parse_num. rewrite Hs. destruct (from_chars_i64 value) as [v|]; [|done]. destruct (_ || _) eqn:E; [done|]. intros [= <-].
  apply orb_false_iff in E as [E1%Z.ltb_ge E2]. rewrite Z.gtb_ltb in E2. apply Z.ltb_ge in E2. lia.
Qed.
Lemma set_key_ok key value num c c' : config_ok c -> parse_num key value = inr num -> set_key key value num c = inr c' -> config_ok c'.
Proof.
  intros [H1 H2 H3 H4] Hn. destruct c as [p cs fs wb lv]. cbn [port buffer_pool_frames wal_checkpoint_bytes server_log_level] in *. unfold set_key.
  repeat case_bool_decide; subst.
  - pose proof (parse_num_range (mkIntSpec (str "port") 1 65535) (str "port") value num ltac:(by vm_compute) Hn). by intros [= <-].
  - pose proof (parse_num_range (mkIntSpec (str "buffer_pool_frames") 16 1048576) (str "buffer_pool_frames") value num ltac:(by vm_compute) Hn). by intros [= <-].
  - pose proof (parse_num_range (mkIntSpec (str "wal_checkpoint_bytes") (64 * 1024) (1024 * 1024 * 1024)) (str "wal_checkpoint_bytes") value num ltac:(by vm_compute) Hn). by intros [= <-].
  - by intros [= <-].
  - destruct (is_log_level value) eqn:E; [|done]. by intros [= <-].
  - done.
Qed.
Lemma load_line_ok first l seen c seen' c' : config_ok c -> load_line first l seen c = inr (seen', c') -> config_ok c'.
Proof.
  intros H. unfold load_line. destruct (parse_line first l) as [|[[k v]|]]; [done| |by intros [= _ <-]]. case_bool_decide; [done|].
  destruct (parse_num k v) as [|num] eqn:E1; [done|]. destruct (set_key k v num c) as [|c1] eqn:E2; [done|]. intros [= _ <-]. by eapply set_key_ok.
Qed.
Lemma load_lines_ok ls : forall no seen c, config_ok c -> config_ok (load_lines no ls seen c).1.
Proof.
  induction ls as [|l ls IH]; intros no seen c H; cbn [load_lines]; [done|].
  destruct (load_line (no =? 1) l seen c) as [|[seen' c']] eqn:E; [done|]. apply IH. by eapply load_line_ok.
Qed.

(** * Lines *)
Lemma lines_cur cur s : lines cur s = match lines [] s with [] => if is_nil cur then [] else [rev cur] | l :: ls => if is_nil s then [rev cur] else (rev cur ++ l) :: ls end.
Proof.
  revert cur. induction s as [|c s IH]; intros cur; cbn [lines]; [by destruct cur|]. destruct (c =? 10); [cbn [is_nil rev]; by rewrite app_nil_r|].
  rewrite (IH (c :: cur)), (IH [c]). destruct (lines [] s) as [|l ls] eqn:E; cbn [is_nil rev app]; [done|]. destruct (is_nil s); cbn [rev app]; [done|]. by rewrite <- app_assoc.
Qed.
(** [sep] after every line. *)
Lemma lines_cons l s : 10 ∉ l -> lines [] (l ++ 10 :: s) = l :: lines [] s.
Proof.
  intros H. assert (forall cur, lines cur (l ++ 10 :: s) = (rev cur ++ l) :: lines [] s) as G; [|by rewrite (G [])].
  induction l as [|c l IH]; intros cur; cbn [app lines]; [by rewrite app_nil_r|]. apply not_elem_of_cons in H as [H1 H2].
  destruct (Z.eqb_spec c 10); [done|]. rewrite (IH H2). cbn [rev]. by rewrite <- app_assoc.
Qed.
Definition unlines (ls : list bytes) : bytes := concat ((fun l => l ++ [10]) <$> ls).
Lemma lines_unlines ls : Forall (fun l => 10 ∉ l) ls -> lines [] (unlines ls) = ls.
Proof.
  induction 1 as [|l ls H _ IH]; [done|]. unfold unlines. cbn [fmap list_fmap concat]. rewrite <- app_assoc. cbn [app]. rewrite lines_cons by done. by f_equal.
Qed.

(** * Layout *)
Definition blank (s : bytes) : Prop := Forall (fun c => is_space c = true) s.
Definition tight (s : bytes) : Prop := s <> [] /\ is_space (default 32 (head s)) = false /\ is_space (default 32 (head (rev s))) = false.
Definition comment (s : bytes) : Prop := s = [] \/ exists t, s = 35 :: t.
Lemma trim_front_blank p s : blank p -> trim_front (p ++ s) = trim_front s.
Proof. induction 1 as [|c p Hc _ IH]; [done|]. cbn [app trim_front]. by rewrite Hc. Qed.
Lemma trim_front_tight c s : is_space c = false -> trim_front (c :: s) = c :: s.
Proof. intros H. cbn [trim_front]. by rewrite H. Qed.
Lemma blank_rev p : blank p -> blank (rev p).
Proof. apply List.Forall_rev. Qed.
Lemma trim_blank p : blank p -> trim p = [].
Proof. intros H. unfold trim. rewrite <- (app_nil_r p), trim_front_blank by done. done. Qed.
Lemma trim_tight p s q : blank p -> tight s -> blank q -> trim (p ++ s ++ q) = s.
Proof.
  intros Hp (Hs & H1 & H2) Hq. unfold trim. rewrite trim_front_blank by done. destruct s as [|c s]; [done|]. cbn [head default from_option] in H1.
  cbn [app]. rewrite trim_front_tight by done. change (c :: s ++ q) with ((c :: s) ++ q). rewrite rev_app_distr, trim_front_blank by by apply blank_rev.
  destruct (rev (c :: s)) as [|d r] eqn:E; [apply (f_equal (@length Z)) in E; rewrite length_rev in E; done|].
  rewrite trim_front_tight by done. by rewrite <- E, rev_involutive.
Qed.
Lemma split_at_none c s : c ∉ s -> split_at c s = (s, None).
Proof. induction s as [|d s IH]; [done|]. intros [H1 H2]%not_elem_of_cons. cbn [split_at]. destruct (Z.eqb_spec d c); [done|]. by rewrite IH. Qed.
Lemma split_at_some c s r : c ∉ s -> split_at c (s ++ c :: r) = (s, Some r).
Proof. induction s as [|d s IH]; cbn [app split_at]; [by rewrite Z.eqb_refl|]. intros [H1 H2]%not_elem_of_cons. destruct (Z.eqb_spec d c); [done|]. by rewrite IH. Qed.
Lemma cut_comment s c : 35 ∉ s -> comment c -> (split_at 35 (s ++ c)).1 = s.
Proof. intros Hs [->|[t ->]]; [by rewrite app_nil_r, split_at_none|by rewrite split_at_some]. Qed.
Lemma blank_no c p : is_space c = false -> blank p -> c ∉ p.
Proof. intros Hc Hp Hin. unfold blank in Hp. rewrite list.Forall_forall in Hp. rewrite (Hp _ Hin) in Hc. done. Qed.

(** A line as it may be written: a setting between blanks, or nothing, and a comment. *)
Inductive writes : bytes -> option (bytes * bytes) -> Prop :=
| WritesNothing p c : blank p -> comment c -> writes (p ++ c) None
| WritesSetting p k q r v s c : blank p -> blank q -> blank r -> blank s -> tight k -> tight v -> 35 ∉ k -> 61 ∉ k -> 35 ∉ v -> comment c ->
    writes (p ++ k ++ q ++ 61 :: r ++ v ++ s ++ c) (Some (k, v)).
Lemma parse_line_writes first l o : writes l o -> take 3 l <> BOM -> parse_line first l = inr o.
Proof.
  intros H Hb. unfold parse_line. rewrite bool_decide_eq_false_2 by done. rewrite andb_false_r. destruct H as [p c Hp Hc|p k q r v s c Hp Hq Hr Hs Hk Hv K1 K2 V1 Hc].
  - rewrite cut_comment by (try done; by apply blank_no). by rewrite trim_blank.
  - assert (p ++ k ++ q ++ 61 :: r ++ v ++ s ++ c = (p ++ (k ++ q ++ 61 :: r ++ v) ++ s) ++ c) as -> by (rewrite <- !app_assoc; cbn [app]; by rewrite <- !app_assoc).
    rewrite cut_comment; [|rewrite !not_elem_of_app, not_elem_of_cons, not_elem_of_app; repeat split; try done; by apply blank_no|done].
    rewrite trim_tight; [|done| |done].
    + destruct Hk as (K3 & K4 & K5), Hv as (V3 & V4 & V5). destruct k as [|k0 k]; [done|]. cbn [app is_nil].
      change (k0 :: k ++ q ++ 61 :: r ++ v) with ((k0 :: k) ++ q ++ 61 :: r ++ v). rewrite app_assoc, split_at_some; [|rewrite not_elem_of_app; split; [done|by apply blank_no]].
      change (trim ((k0 :: k) ++ q)) with (trim ([] ++ (k0 :: k) ++ q)). rewrite trim_tight by (done || constructor). cbn [is_nil].
      rewrite <- (app_nil_r v), trim_tight by (done || constructor). rewrite app_nil_r. by destruct v.
    + destruct Hk as (K3 & K4 & K5), Hv as (V3 & V4 & V5). split; [by destruct k|]. split; [by destruct k|].
      rewrite !rev_app_distr. cbn [rev]. rewrite !rev_app_distr. destruct (rev v) as [|d v'] eqn:E; [by apply (f_equal (@length Z)) in E; rewrite length_rev in E; destruct v|done].
Qed.

(** * The settings of a configuration *)
Definition settings (c : Config) : list (bytes * bytes) :=
  [(str "port", format_int (port c)); (str "buffer_pool_frames", format_int (buffer_pool_frames c));
   (str "wal_checkpoint_bytes", format_int (wal_checkpoint_bytes c)); (str "server_log_level", server_log_level c)] ++
  (if is_nil (control_socket c) then [] else [(str "control_socket", control_socket c)]).
(** [c] on the settings already read, [c0] on the others. *)
Definition pick {A} (seen : list bytes) (k : string) (a b : A) : A := if bool_decide (str k ∈ seen) then a else b.
Definition mix (seen : list bytes) (c c0 : Config) : Config :=
  mkConfig (pick seen "port" (port c) (port c0)) (pick seen "control_socket" (control_socket c) (control_socket c0))
    (pick seen "buffer_pool_frames" (buffer_pool_frames c) (buffer_pool_frames c0))
    (pick seen "wal_checkpoint_bytes" (wal_checkpoint_bytes c) (wal_checkpoint_bytes c0))
    (pick seen "server_log_level" (server_log_level c) (server_log_level c0)).
Lemma elem_snoc (k x : bytes) seen : bool_decide (x ∈ seen ++ [k]) = bool_decide (x = k) || bool_decide (x ∈ seen).
Proof.
  destruct (decide (x = k)) as [->|Hn]; [rewrite (bool_decide_eq_true_2 (k = k)) by done; apply bool_decide_eq_true_2; set_solver|].
  rewrite (bool_decide_eq_false_2 (x = k)) by done. apply bool_decide_ext. set_solver.
Qed.
Lemma parse_num_int key spec n : int_spec key = Some spec -> in_i64 n = true -> spec_min spec <= n <= spec_max spec -> parse_num key (format_int n) = inr n.
Proof.
  intros Hs Hn Hr. unfold parse_num. rewrite Hs, from_chars_format_int by done. destruct (_ || _) eqn:E; [|done].
  apply orb_true_iff in E as [E%Z.ltb_lt|E]; [lia|]. rewrite Z.gtb_ltb in E. apply Z.ltb_lt in E. lia.
Qed.
Ltac decided := repeat match goal with |- context [bool_decide (str ?a = str ?b)] => let r := eval vm_compute in (bool_decide (str a = str b)) in
  replace (bool_decide (str a = str b)) with r by (by vm_compute) end.
Lemma load_setting c c0 seen k v : config_ok c -> (k, v) ∈ settings c -> k ∉ seen ->
  exists num, parse_num k v = inr num /\ set_key k v num (mix seen c c0) = inr (mix (seen ++ [k]) c c0).
Proof.
  intros [H1 H2 H3 H4] Hin Hk. unfold settings in Hin.
  assert (forall n, 0 <= n <= 1024 * 1024 * 1024 -> in_i64 n = true) as H64 by (intros; apply in_i64_spec; unfold INT64_MIN, INT64_MAX; lia).
  assert ((k, v) = (str "port", format_int (port c)) \/ (k, v) = (str "buffer_pool_frames", format_int (buffer_pool_frames c)) \/
    (k, v) = (str "wal_checkpoint_bytes", format_int (wal_checkpoint_bytes c)) \/ (k, v) = (str "server_log_level", server_log_level c) \/
    (k, v) = (str "control_socket", control_socket c)) as Hc by (destruct (is_nil (control_socket c)); set_solver).
  clear Hin. unfold set_key, mix, pick.
  destruct Hc as [[= -> ->]|[[= -> ->]|[[= -> ->]|[[= -> ->]|[= -> ->]]]]]; rewrite !elem_snoc; decided; cbn [orb].
  - exists (port c). split; [|done]. apply (parse_num_int _ (mkIntSpec (str "port") 1 65535)); [by vm_compute|apply H64; lia|done].
  - exists (buffer_pool_frames c). split; [|done]. apply (parse_num_int _ (mkIntSpec (str "buffer_pool_frames") 16 1048576)); [by vm_compute|apply H64; lia|done].
  - exists (wal_checkpoint_bytes c). split; [|done].
    apply (parse_num_int _ (mkIntSpec (str "wal_checkpoint_bytes") (64 * 1024) (1024 * 1024 * 1024))); [by vm_compute|apply H64; lia|done].
  - exists 0. split; [by vm_compute|]. by rewrite H4.
  - exists 0. split; [by vm_compute|done].
Qed.
Lemma settings_NoDup c : NoDup (settings c).*1.
Proof. unfold settings. destruct (is_nil (control_socket c)); apply (bool_decide_unpack _); by vm_compute. Qed.
Lemma mix_all c c0 seen : (control_socket c = [] -> control_socket c0 = []) -> seen ≡ₚ (settings c).*1 -> mix seen c c0 = c.
Proof.
  intros Hc Hs. assert (forall (k : string) (A : Type) (a b : A), str k ∈ (settings c).*1 -> pick seen k a b = a) as Hp.
  { intros k A a b Hk. unfold pick. by rewrite bool_decide_eq_true_2 by (by rewrite Hs). }
  unfold mix. rewrite (Hp "port"%string), (Hp "buffer_pool_frames"%string), (Hp "wal_checkpoint_bytes"%string), (Hp "server_log_level"%string) by (unfold settings; rewrite fmap_app; set_solver).
  destruct c as [p cs fs wb lv]. cbn [port control_socket buffer_pool_frames wal_checkpoint_bytes server_log_level] in *. f_equal. destruct cs as [|x cs].
  - rewrite Hc by done. unfold pick. by destruct (bool_decide _).
  - apply Hp. unfold settings. cbn [control_socket is_nil]. rewrite fmap_app. apply elem_of_app. right. by apply list_elem_of_singleton.
Qed.
Lemma load_lines_settings c c0 ls os : config_ok c -> Forall2 writes ls os -> Forall (fun l => take 3 l <> BOM) ls ->
  forall no seen, NoDup (seen ++ (omap id os).*1) -> omap id os ⊆ settings c ->
  load_lines no ls seen (mix seen c c0) = (mix (seen ++ (omap id os).*1) c c0, None).
Proof.
  intros Hok Hw. induction Hw as [|l o ls os Hl _ IH]; intros Hb no seen Hnd Hsub; cbn [load_lines].
  - cbn. by rewrite app_nil_r.
  - apply Forall_cons_1 in Hb as [Hb1 Hb2]. unfold load_line. rewrite (parse_line_writes _ _ _ Hl Hb1). destruct o as [[k v]|]; cbn [omap list_omap id fmap list_fmap fst] in *.
    + assert (k ∉ seen) as Hk by (apply list.NoDup_app in Hnd as (_ & Hd & _); intros Hin; apply (Hd k Hin); by left). rewrite bool_decide_eq_false_2 by done.
      destruct (load_setting c c0 seen k v Hok) as (num & N1 & N2); [apply Hsub; by left|done|]. rewrite N1, N2.
      assert (seen ++ k :: (omap id os).*1 = (seen ++ [k]) ++ (omap id os).*1) as Ha by (by rewrite <- app_assoc). rewrite Ha in Hnd |- *. apply IH; [done..|]. intros x Hx. apply Hsub. by right.
    + by apply IH.
Qed.

(** ** Properties *)
(** C99. The configuration file is read back: a file that gives the settings of a configuration whose numbers are in range, one to a line and in
    any order, with blanks, empty lines, comments and a byte order mark wherever they may stand, is loaded as that configuration. *)
Theorem load_reads_settings c c0 ls os mark : config_ok c -> (control_socket c = [] -> control_socket c0 = []) ->
  Forall2 writes ls os -> omap id os ≡ₚ settings c -> Forall (fun l => 10 ∉ l /\ take 3 l <> BOM) ls -> mark ∈ [[]; BOM] -> ls <> [] ->
  load (mark ++ unlines ls) c0 = (c, None).
Proof.
  intros Hok Hc Hw Hp Hl Hm Hne. assert (Forall (fun l => 10 ∉ l) ls /\ Forall (fun l => take 3 l <> BOM) ls) as [L1 L2].
  { split; revert Hl; apply List.Forall_impl; by intros ? []. }
  assert (load (unlines ls) c0 = (c, None)) as Hload.
  { unfold load. rewrite lines_unlines by done. assert (c0 = mix [] c c0) as E by (by destruct c0). rewrite E at 1. rewrite (load_lines_settings c c0 ls os) by
      (done || (cbn [app]; rewrite Hp; apply settings_NoDup) || (intros x; by rewrite Hp)). cbn [app]. f_equal. apply mix_all; [done|]. by rewrite Hp. }
  assert (mark = [] \/ mark = BOM) as [->| ->] by set_solver; [exact Hload|]. rewrite <- Hload. unfold load.
  destruct ls as [|l ls]; [done|]. apply Forall_cons_1 in L1 as [L1 L1'], L2 as [L2 _]. unfold unlines. cbn [fmap list_fmap concat]. rewrite <- app_assoc.
  change ([10] ++ ?s) with (10 :: s). rewrite app_assoc, !lines_cons; [|done|rewrite not_elem_of_app; split; [|done]; apply (bool_decide_unpack _); by vm_compute].
  cbn [load_lines]. assert (forall s c, load_line true (BOM ++ l) s c = load_line true l s c) as E; [|by rewrite E].
  intros s c1. unfold load_line. assert (parse_line true (BOM ++ l) = parse_line true l) as ->; [|done]. unfold parse_line.
  rewrite (bool_decide_eq_false_2 (take 3 l = BOM)) by done. by cbn.
Qed.
(** C99. Whatever the file holds, and wherever its loading stops, the configuration keeps a port that can be listened on, at least 16 frames for
    the pool, a checkpoint threshold within its range and a level the log knows. *)
Theorem load_in_range text c : config_ok c -> config_ok (load text c).1.
Proof. apply load_lines_ok. Qed.
Lemma load_in_range_witness : config_ok (load (str "port=1" ++ [10] ++ str "port=2") default_config).1.
Proof. apply load_in_range. exact default_config_ok. Defined.
Definition demo_config : Config := mkConfig 9000 [] 64 (1024 * 1024) (str "Debug").
Lemma load_reads_settings_witness : load (BOM ++ unlines [str "# demo"; str "server_log_level = Debug"; str "port=9000 # tcp"; []; str "buffer_pool_frames = 64"; str "wal_checkpoint_bytes=1048576"])
  default_config = (demo_config, None).
Proof.
  refine (load_reads_settings demo_config default_config _ [None; Some (str "server_log_level", str "Debug"); Some (str "port", str "9000"); None;
    Some (str "buffer_pool_frames", str "64"); Some (str "wal_checkpoint_bytes", str "1048576")] BOM _ _ _ _ _ _ _).
  - split; vm_compute; by try split.
  - done.
  - repeat apply Forall2_cons_2; [..|apply Forall2_nil_2].
    + apply (WritesNothing [] (str "# demo")); [constructor|right; by exists (str " demo")].
    + apply (WritesSetting [] (str "server_log_level") [32] [32] (str "Debug") [] []); try (repeat constructor; done); try (by left); apply (bool_decide_unpack _); by vm_compute.
    + apply (WritesSetting [] (str "port") [] [] (str "9000") [32] (str "# tcp")); try (repeat constructor; done); [apply (bool_decide_unpack _); by vm_compute..|right; by exists (str " tcp")].
    + apply (WritesNothing [] []); [constructor|by left].
    + apply (WritesSetting [] (str "buffer_pool_frames") [32] [32] (str "64") [] []); try (repeat constructor; done); try (by left); apply (bool_decide_unpack _); by vm_compute.
    + apply (WritesSetting [] (str "wal_checkpoint_bytes") [] [] (str "1048576") [] []); try (repeat constructor; done); try (by left); apply (bool_decide_unpack _); by vm_compute.
  - apply (bool_decide_unpack _). by vm_compute.
  - apply (bool_decide_unpack _). by vm_compute.
  - right. by left.
  - done.
Defined.
