(* ===== verification/Args.v ===== *)
(** The command line of the client (src/client/parse_args.cpp): the table of its options and the loop that reads them. Whether a text is an
    IPv4 address is inet_pton's answer, a parameter here; the messages and the usage text are left out. *)
From S2P Require Import Prelude Text.

Record Options := mkOptions { port : Z; host : bytes; sql : bytes; sql_file : bytes; echo_all : bool; help : bool }.
Definition default_options : Options := mkOptions 8123 (str "127.0.0.1") [] [] false false.
(** What is wrong with a command line; the number is the option's. *)
Inductive ArgError := MissingValue (i : nat) | UnknownArg | Repeated (i : nat) | BadValue (i : nat) | TwoSources.
#[export] Instance ArgError_eq_dec : EqDecision ArgError.
Proof. solve_decision. Defined.
(** [std::from_chars] on an [int], required to consume the whole text. *)
Definition from_chars_i32 (s : bytes) : option Z := match from_chars_i64 s with Some n => if in_i32 n then Some n else None | None => None end.

Section args.
Context (inet_pton : bytes -> bool).

Definition parse_port (v : bytes) (o : Options) : option Options :=
  match from_chars_i32 v with
  | None => None
  | Some n => if (n <? 1) || (n >? 65535) then None else Some (mkOptions n (host o) (sql o) (sql_file o) (echo_all o) (help o))
  end.
Definition parse_host (v : bytes) (o : Options) : option Options :=
  if inet_pton v then Some (mkOptions (port o) v (sql o) (sql_file o) (echo_all o) (help o)) else None.
Definition parse_sql (v : bytes) (o : Options) : option Options :=
  if is_nil v then None else Some (mkOptions (port o) (host o) v (sql_file o) (echo_all o) (help o)).
Definition parse_sql_file (v : bytes) (o : Options) : option Options :=
  if is_nil v then None else Some (mkOptions (port o) (host o) (sql o) v (echo_all o) (help o)).
Definition parse_echo (_ : bytes) (o : Options) : option Options := Some (mkOptions (port o) (host o) (sql o) (sql_file o) true (help o)).
Definition parse_help (_ : bytes) (o : Options) : option Options := Some (mkOptions (port o) (host o) (sql o) (sql_file o) (echo_all o) true).
Record OptionSpec := mkOption { flag : bytes; takes_value : bool; parse : bytes -> Options -> option Options }.
Definition kOptions : list OptionSpec :=
  [mkOption (str "-p") true parse_port; mkOption (str "-h") true parse_host; mkOption (str "-c") true parse_sql; mkOption (str "-f") true parse_sql_file;
   mkOption (str "-a") false parse_echo; mkOption (str "--help") false parse_help].

(** The first option an argument matches: exactly, or as a prefix when the option takes a value, which is then the rest of the argument. *)
Fixpoint match_option (i : nat) (cands : list OptionSpec) (arg : bytes) : option (nat * OptionSpec * option bytes) :=
  match cands with
  | [] => None
  | c :: cands =>
      if bool_decide (arg = flag c) then Some (i, c, None)
      else if takes_value c && (zlen arg >? zlen (flag c)) && bool_decide (take (length (flag c)) arg = flag c) then Some (i, c, Some (drop (length (flag c)) arg))
      else match_option (S i) cands arg
  end.
Definition take_option (i : nat) (spec : OptionSpec) (v : bytes) (seen : list nat) (o : Options) : ArgError + (list nat * Options) :=
  if bool_decide (i ∈ seen) then inl (Repeated i)
  else match parse spec v o with None => inl (BadValue i) | Some o => inr (seen ++ [i], o) end.
Fixpoint parse_loop (args : list bytes) (seen : list nat) (o : Options) : ArgError + Options :=
  match args with
  | [] => inr o
  | arg :: args =>
      match match_option 0 kOptions arg with
      | None => inl UnknownArg
      | Some (i, spec, Some v) => match take_option i spec v seen o with inl e => inl e | inr (seen, o) => parse_loop args seen o end
      | Some (i, spec, None) =>
          if takes_value spec then
            match args with
            | [] => inl (MissingValue i)
            | v :: args => match take_option i spec v seen o with inl e => inl e | inr (seen, o) => parse_loop args seen o end
            end
          else match take_option i spec [] seen o with inl e => inl e | inr (seen, o) => parse_loop args seen o end
      end
  end.
Definition parse_args (args : list bytes) (o : Options) : ArgError + Options :=
  match parse_loop args [] o with
  | inl e => inl e
  | inr o => if help o then inr o else if negb (is_nil (sql o)) && negb (is_nil (sql_file o)) then inl TwoSources else inr o
  end.

(** * A command line is what it was written from *)
(** An option as it may be given: its value apart or joined to the flag. *)
Inductive given : list bytes -> nat * bytes -> Prop :=
| GivenApart i spec v : kOptions !! i = Some spec -> takes_value spec = true -> given [flag spec; v] (i, v)
| GivenJoined i spec v : kOptions !! i = Some spec -> takes_value spec = true -> v <> [] -> given [flag spec ++ v] (i, v)
| GivenFlag i spec : kOptions !! i = Some spec -> takes_value spec = false -> given [flag spec] (i, []).
Lemma match_flag i spec : kOptions !! i = Some spec -> match_option 0 kOptions (flag spec) = Some (i, spec, None).
Proof. do 6 (destruct i as [|i]; [intros [= <-]; reflexivity|]). done. Qed.
Lemma match_joined i spec x v : kOptions !! i = Some spec -> takes_value spec = true -> match_option 0 kOptions (flag spec ++ x :: v) = Some (i, spec, Some (x :: v)).
Proof.
  assert (forall y z, (zlen (y :: z :: x :: v) >? 2) = true) as Hl by (intros y z; unfold zlen; cbn [length]; rewrite Z.gtb_ltb; apply Z.ltb_lt; lia).
  do 4 (destruct i as [|i]; [intros [= <-] _; unfold kOptions; cbn [flag app match_option takes_value];
    change (str "-p") with [45; 112]; change (str "-h") with [45; 104]; change (str "-c") with [45; 99]; change (str "-f") with [45; 102];
    cbn [app length take andb]; rewrite ?Hl; change (zlen [_; _]) with 2; rewrite ?Hl; cbn [andb];
    repeat (rewrite bool_decide_eq_false_2 by discriminate); reflexivity|]).
  do 2 (destruct i as [|i]; [by intros [= <-]|]). done.
Qed.
Lemma given_loop g i v args seen o : given g (i, v) -> exists spec, kOptions !! i = Some spec /\
  parse_loop (g ++ args) seen o = match take_option i spec v seen o with inl e => inl e | inr (seen, o) => parse_loop args seen o end.
Proof.
  intros H. inversion H as [i' spec v' H1 H2|i' spec v' H1 H2 H3|i' spec H1 H2]; subst; exists spec; (split; [done|]); cbn [app parse_loop].
  - by rewrite (match_flag _ _ H1), H2.
  - destruct v as [|x v]; [done|]. by rewrite (match_joined _ _ _ _ H1 H2).
  - by rewrite (match_flag _ _ H1), H2.
Qed.

Definition value (i : nat) (gs : list (nat * bytes)) : option bytes := (list_to_map gs : gmap nat bytes) !! i.
(** The options a command line asks for. *)
Definition asked (o : Options) (gs : list (nat * bytes)) : Options :=
  mkOptions (match value 0 gs with Some v => default 0 (from_chars_i32 v) | None => port o end) (default (host o) (value 1 gs)) (default (sql o) (value 2 gs))
    (default (sql_file o) (value 3 gs)) (if value 4 gs then true else echo_all o) (if value 5 gs then true else help o).
Definition takes (i : nat) (v : bytes) : Prop :=
  match i with
  | 0%nat => exists n, from_chars_i32 v = Some n /\ 1 <= n <= 65535
  | 1%nat => inet_pton v = true
  | 2%nat | 3%nat => v <> []
  | _ => True
  end.
Lemma value_cons i j v gs : value j ((i, v) :: gs) = if decide (i = j) then Some v else value j gs.
Proof. unfold value. cbn. case_decide as E; [subst; by rewrite lookup_insert_eq|by rewrite lookup_insert_ne]. Qed.
Lemma value_none i gs : i ∉ gs.*1 -> value i gs = None.
Proof. apply not_elem_of_list_to_map_1. Qed.
Lemma parse_asked i v spec o gs : kOptions !! i = Some spec -> takes i v -> i ∉ gs.*1 -> exists o', parse spec v o = Some o' /\ asked o' gs = asked o ((i, v) :: gs).
Proof.
  intros Hk Ht Hi. apply value_none in Hi. unfold asked. rewrite !value_cons.
  destruct i as [|[|[|[|[|[|i]]]]]]; [..|done]; injection Hk as <-; cbn [parse takes] in *; try rewrite !decide_False by done; rewrite decide_True by done; rewrite Hi.
  - destruct Ht as (n & Hn & Hr). unfold parse_port. rewrite Hn. assert ((n <? 1) || (n >? 65535) = false) as -> by (rewrite Z.gtb_ltb; lia). by eexists.
  - unfold parse_host. rewrite Ht. by eexists.
  - unfold parse_sql. destruct v; [done|]. by eexists.
  - unfold parse_sql_file. destruct v; [done|]. by eexists.
  - by eexists.
  - by eexists.
Qed.
Lemma parse_loop_asked groups gs : Forall2 given groups gs -> forall seen o, NoDup (seen ++ gs.*1) -> Forall (fun g => takes g.1 g.2) gs ->
  parse_loop (concat groups) seen o = inr (asked o gs).
Proof.
  induction 1 as [|g [i v] groups gs Hg _ IH]; intros seen o Hnd Ht; [by destruct o|]. cbn [concat fmap list_fmap fst] in *.
  destruct (given_loop g i v (concat groups) seen o Hg) as (spec & Hk & ->). apply Forall_cons_1 in Ht as [Ht1 Ht2]. cbn [fst snd] in Ht1.
  pose proof Hnd as (_ & Hd & Hg2)%list.NoDup_app. apply list.NoDup_cons in Hg2 as [Hi _].
  destruct (parse_asked i v spec o gs Hk Ht1 Hi) as (o' & P1 & P2). unfold take_option. rewrite bool_decide_eq_false_2 by (intros Hs; apply (Hd i Hs); by left).
  rewrite P1, <- P2. apply IH; [|done]. by rewrite <- app_assoc.
Qed.
(** C99. A command line is read as it was written: any options, each at most once and in any order, with their values apart or joined to
    their flags, give exactly what they ask for and the defaults for the rest; two sources of SQL are refused unless help is asked for. *)
Theorem parse_args_asked groups gs o : Forall2 given groups gs -> NoDup gs.*1 -> Forall (fun g => takes g.1 g.2) gs ->
  parse_args (concat groups) o = let o' := asked o gs in if negb (help o') && negb (is_nil (sql o')) && negb (is_nil (sql_file o')) then inl TwoSources else inr o'.
Proof. intros Hg Hn Ht. unfold parse_args. rewrite (parse_loop_asked _ _ Hg [] o Hn Ht). cbn zeta. by destruct (help _). Qed.
End args.
Lemma parse_args_asked_witness : parse_args (fun _ => false) [str "-p9000"; str "-a"; str "-c"; str "select 1;"] default_options =
  inr (mkOptions 9000 (str "127.0.0.1") (str "select 1;") [] true false).
Proof.
  refine (parse_args_asked (fun _ => false) [[str "-p9000"]; [str "-a"]; [str "-c"; str "select 1;"]] [(0%nat, str "9000"); (4%nat, []); (2%nat, str "select 1;")] default_options _ _ _).
  - repeat apply Forall2_cons_2; [by refine (GivenJoined _ 0 _ _ eq_refl _ _)|by refine (GivenFlag _ 4 _ eq_refl _)|by refine (GivenApart _ 2 _ _ eq_refl _)|apply Forall2_nil_2].
  - apply (bool_decide_unpack _). by vm_compute.
  - repeat apply Forall_cons_2; cbn [fst snd takes]; [|done..|apply Forall_nil_2]. exists 9000. split; [by vm_compute|lia].
Defined.
