(* ===== verification/Flex.v ===== *)
(** Flex, as the scanners of src/ use it (parser/lexer.l, client/client.l): patterns are regular expressions over bytes; at every position the
    rule with the longest match is taken, the first of them on a tie; text no rule matches is passed over a byte at a time. Matching is by
    derivatives, proved to find the longest prefix in the language of the pattern. *)
From S2P Require Import Prelude.

(** * Patterns *)
Inductive regex :=
| Nothing
| Nil
| Class (p : Z -> bool)
| Cat (r s : regex)
| Alt (r s : regex)
| Star (r : regex).
Inductive matches : regex -> bytes -> Prop :=
| MNil : matches Nil []
| MClass p c : p c = true -> matches (Class p) [c]
| MCat r s v w : matches r v -> matches s w -> matches (Cat r s) (v ++ w)
| MAltL r s w : matches r w -> matches (Alt r s) w
| MAltR r s w : matches s w -> matches (Alt r s) w
| MStarNil r : matches (Star r) []
| MStarCons r v w : v <> [] -> matches r v -> matches (Star r) w -> matches (Star r) (v ++ w).
Fixpoint nullable (r : regex) : bool :=
  match r with
  | Nothing | Class _ => false
  | Nil | Star _ => true
  | Cat r s => nullable r && nullable s
  | Alt r s => nullable r || nullable s
  end.
Definition is_nothing (r : regex) : bool := match r with Nothing => true | _ => false end.
(** Sequences and choices with nothing to keep are dropped at once, so that a pattern that cannot match any more is [Nothing]. *)
Definition cat (r s : regex) : regex := match r with Nothing => Nothing | Nil => s | _ => Cat r s end.
Definition alt (r s : regex) : regex := match r, s with Nothing, _ => s | _, Nothing => r | _, _ => Alt r s end.
Fixpoint deriv (c : Z) (r : regex) : regex :=
  match r with
  | Nothing | Nil => Nothing
  | Class p => if p c then Nil else Nothing
  | Cat r s => if nullable r then alt (cat (deriv c r) s) (deriv c s) else cat (deriv c r) s
  | Alt r s => alt (deriv c r) (deriv c s)
  | Star r => cat (deriv c r) (Star r)
  end.
(** The length of the longest prefix of [s] that [r] matches. *)
Fixpoint longest (r : regex) (s : bytes) : option nat :=
  match (if is_nothing r then None else match s with [] => None | c :: s => longest (deriv c r) s end) with
  | Some n => Some (S n)
  | None => if nullable r then Some 0%nat else None
  end.

(** ** Derivatives *)
Lemma matches_nothing w : ~ matches Nothing w.
Proof. by inversion 1. Qed.
Lemma matches_nil w : matches Nil w <-> w = [].
Proof. split; [by inversion 1|intros ->; constructor]. Qed.
Lemma matches_class p w : matches (Class p) w <-> exists c, w = [c] /\ p c = true.
Proof. split; [inversion 1; subst; eauto|intros (c & -> & H); by constructor]. Qed.
Lemma matches_cat r s w : matches (Cat r s) w <-> exists v u, w = v ++ u /\ matches r v /\ matches s u.
Proof. split; [inversion 1; subst; eauto|intros (v & u & -> & H1 & H2); by constructor]. Qed.
Lemma matches_alt r s w : matches (Alt r s) w <-> matches r w \/ matches s w.
Proof. split; [inversion 1; subst; eauto|intros [H|H]; [by apply MAltL|by apply MAltR]]. Qed.
Lemma matches_star r w : matches (Star r) w <-> w = [] \/ exists v u, w = v ++ u /\ v <> [] /\ matches r v /\ matches (Star r) u.
Proof.
  split; [inversion 1; subst; [by left|right; eauto 6]|]. intros [->|(v & u & -> & H1 & H2 & H3)]; [apply MStarNil|by apply MStarCons].
Qed.
Lemma nullable_spec r : nullable r = true <-> matches r [].
Proof.
  induction r as [| |p|r IHr s IHs|r IHr s IHs|r IHr]; cbn [nullable].
  - split; [done|intros []%matches_nothing].
  - by rewrite matches_nil.
  - rewrite matches_class. split; [done|by intros (c & ? & _)].
  - rewrite andb_true_iff, IHr, IHs, matches_cat. split; [intros []; by exists [], []|]. by intros (v & u & [-> ->]%eq_sym%app_nil & H1 & H2).
  - by rewrite orb_true_iff, IHr, IHs, matches_alt.
  - split; [intros _; apply MStarNil|done].
Qed.
Lemma matches_cat_smart r s w : matches (cat r s) w <-> matches (Cat r s) w.
Proof.
  assert (matches s w <-> matches (Cat Nil s) w) as Hn.
  { rewrite matches_cat. split; [intros H; exists [], w; by split_and!; [|constructor|]|]. by intros (v & u & -> & ->%matches_nil & H). }
  assert (matches Nothing w <-> matches (Cat Nothing s) w) as H0.
  { rewrite matches_cat. split; [intros []%matches_nothing|]. by intros (v & u & _ & []%matches_nothing & _). }
  by destruct r.
Qed.
Lemma matches_alt_smart r s w : matches (alt r s) w <-> matches (Alt r s) w.
Proof. pose proof (matches_nothing w). rewrite matches_alt. destruct r, s; cbn [alt]; rewrite ?matches_alt; tauto. Qed.
Lemma deriv_spec c r : forall w, matches (deriv c r) w <-> matches r (c :: w).
Proof.
  induction r as [| |p|r IHr s IHs|r IHr s IHs|r IHr]; intros w; cbn [deriv].
  - split; intros []%matches_nothing.
  - rewrite matches_nil. split; [intros []%matches_nothing|done].
  - rewrite matches_class. destruct (p c) eqn:E; [rewrite matches_nil|]; split; [intros ->; eauto|by intros (d & [= <- ->] & _)|intros []%matches_nothing|].
    intros (d & [= <- ->] & H). congruence.
  - assert (matches (cat (deriv c r) s) w <-> exists v u, w = v ++ u /\ matches r (c :: v) /\ matches s u) as Hc.
    { rewrite matches_cat_smart, matches_cat. by setoid_rewrite IHr. }
    assert (matches (Cat r s) (c :: w) <-> (exists v u, w = v ++ u /\ matches r (c :: v) /\ matches s u) \/ (matches r [] /\ matches s (c :: w))) as ->.
    { rewrite matches_cat. split; [|intros [(v & u & -> & H)|H]; [by exists (c :: v), u|by exists [], (c :: w)]].
      intros ([|d v] & u & E & H1 & H2); [cbn [app] in E; subst u; by right|left]. injection E as <- ->. by exists v, u. }
    destruct (nullable r) eqn:E.
    + rewrite matches_alt_smart, matches_alt, Hc, IHs. apply nullable_spec in E. tauto.
    + rewrite Hc. assert (~ matches r []) by (rewrite <- nullable_spec, E; done). tauto.
  - by rewrite matches_alt_smart, !matches_alt, IHr, IHs.
  - rewrite matches_cat_smart, matches_cat, matches_star. setoid_rewrite IHr. split.
    + intros (v & u & -> & H1 & H2). right. by exists (c :: v), u.
    + intros [?|(v & u & E & Hv & H1 & H2)]; [done|]. destruct v as [|d v]; [done|]. injection E as <- ->. by exists v, u.
Qed.

(** ** The longest match *)
Lemma longest_matches r s n : longest r s = Some n -> (n <= length s)%nat /\ matches r (take n s).
Proof.
  revert r n. induction s as [|c s IH]; intros r n; cbn [longest].
  - assert (match (if is_nothing r then None else None) with Some n => Some (S n) | None => if nullable r then Some 0%nat else None end = if nullable r then Some 0%nat else None) as -> by (by destruct (is_nothing r)).
    destruct (nullable r) eqn:E; [|done]. intros [= <-]. split; [done|by apply nullable_spec].
  - assert ((if nullable r then Some 0%nat else None) = Some n -> (n <= length (c :: s))%nat /\ matches r (take n (c :: s))) as H0.
    { destruct (nullable r) eqn:E; [|done]. intros [= <-]. cbn. split; [lia|by apply nullable_spec]. }
    destruct (is_nothing r); [exact H0|]. destruct (longest (deriv c r) s) as [m|] eqn:E; [|exact H0]. intros [= <-]. apply IH in E as [E1 E2].
    cbn. split; [lia|by apply deriv_spec].
Qed.
Lemma longest_max r s n : (n <= length s)%nat -> matches r (take n s) -> exists m, longest r s = Some m /\ (n <= m)%nat.
Proof.
  revert r n. induction s as [|c s IH]; intros r n Hn Hm; cbn [longest].
  - assert (n = 0%nat) as -> by (cbn in Hn; lia). apply nullable_spec in Hm. exists 0%nat. rewrite Hm. by destruct (is_nothing r).
  - destruct (is_nothing r) eqn:E0; [by destruct r; try done; apply matches_nothing in Hm|]. destruct n as [|n].
    + apply nullable_spec in Hm. rewrite Hm. destruct (longest _ _); eauto with lia.
    + cbn [take] in Hm. apply deriv_spec in Hm. destruct (IH _ n ltac:(cbn in Hn; lia) Hm) as (m & -> & Hle). exists (S m). split; [done|lia].
Qed.
Lemma longest_none r s n : longest r s = None -> (n <= length s)%nat -> ~ matches r (take n s).
Proof. intros H Hn Hm. destruct (longest_max r s n Hn Hm) as (m & E & _). congruence. Qed.
(** The longest match, characterised. *)
Lemma longest_spec r s n : longest r s = Some n <->
  (n <= length s)%nat /\ matches r (take n s) /\ forall m, (n < m <= length s)%nat -> ~ matches r (take m s).
Proof.
  split.
  - intros H. destruct (longest_matches r s n H) as [H1 H2]. split_and!; [done..|]. intros m Hm Hr.
    destruct (longest_max r s m ltac:(lia) Hr) as (m' & E & Hle). rewrite H in E. injection E as <-. lia.
  - intros (H1 & H2 & H3). destruct (longest_max r s n H1 H2) as (m & E & Hle). destruct (decide (n = m)) as [->|Hne]; [done|].
    destruct (longest_matches r s m E) as [E1 E2]. by destruct (H3 m ltac:(lia)).
Qed.

(** * Rules *)
Section rules.
Context {A : Type}.
Record rule := mkRule { pat : regex; act : A }.
(** A later rule wins by a longer match only. *)
Fixpoint next (rules : list rule) (s : bytes) : option (nat * A) :=
  match rules with
  | [] => None
  | r :: rules =>
      match longest (pat r) s, next rules s with
      | Some n, Some (m, a) => if (n <? m)%nat then Some (m, a) else Some (n, act r)
      | Some n, None => Some (n, act r)
      | None, x => x
      end
  end.
Lemma next_some rules s n a : next rules s = Some (n, a) -> (n <= length s)%nat /\ exists r, r ∈ rules /\ act r = a /\ matches (pat r) (take n s).
Proof.
  revert n a. induction rules as [|r rules IH]; intros n a; cbn [next]; [done|].
  assert (next rules s = Some (n, a) -> (n <= length s)%nat /\ exists r', r' ∈ r :: rules /\ act r' = a /\ matches (pat r') (take n s)) as Hr.
  { intros H. destruct (IH _ _ H) as (H1 & r' & H2 & H3). split; [done|]. exists r'. split; [by right|done]. }
  destruct (longest (pat r) s) as [m|] eqn:E; [|exact Hr]. apply longest_matches in E as [E1 E2].
  assert (Some (m, act r) = Some (n, a) -> (n <= length s)%nat /\ exists r', r' ∈ r :: rules /\ act r' = a /\ matches (pat r') (take n s)) as H0.
  { intros [= <- <-]. split; [done|]. exists r. split; [by left|done]. }
  destruct (next rules s) as [[m' a']|]; [|exact H0]. by destruct (m <? m')%nat.
Qed.
(** The rule taken: nothing before it matches as much, nothing matches more. *)
Lemma next_spec pre r post s n : (n <= length s)%nat -> matches (pat r) (take n s) ->
  (forall r' m, r' ∈ pre -> (n <= m <= length s)%nat -> ~ matches (pat r') (take m s)) ->
  (forall r' m, r' ∈ r :: post -> (n < m <= length s)%nat -> ~ matches (pat r') (take m s)) ->
  next (pre ++ r :: post) s = Some (n, act r).
Proof.
  intros Hn Hm Hpre Hpost. induction pre as [|r' pre IH]; cbn [app next].
  - assert (longest (pat r) s = Some n) as -> by (apply longest_spec; split_and!; [done..|]; intros m; apply Hpost; by left).
    destruct (next post s) as [[m a]|] eqn:E; [|done]. destruct (Nat.ltb_spec n m); [|done]. apply next_some in E as (E1 & r' & E2 & _ & E3).
    destruct (Hpost r' m); [by right|lia|done].
  - rewrite IH by (intros r1 m H1; apply Hpre; by right). destruct (longest (pat r') s) as [m|] eqn:E; [|done]. apply longest_matches in E as [E1 E2].
    destruct (Nat.ltb_spec m n); [done|]. destruct (Hpre r' m); [by left|lia|done].
Qed.
End rules.
Arguments rule : clear implicits.

(** * Common patterns *)
Definition lower (c : Z) : Z := if (65 <=? c) && (c <=? 90) then c + 32 else c.
(** The text [t], in lower case, under [%option case-insensitive]. *)
Definition Lit (t : bytes) : regex := foldr (fun c r => Cat (Class (fun d => lower d =? c)) r) Nil t.
Definition Plus (r : regex) : regex := Cat r (Star r).
Definition Opt (r : regex) : regex := Alt r Nil.
Definition Char (c : Z) : regex := Class (fun d => d =? c).
Lemma matches_lit t w : matches (Lit t) w <-> lower <$> w = t.
Proof.
  revert w. induction t as [|c t IH]; intros w; cbn [Lit foldr].
  - rewrite matches_nil. by destruct w.
  - fold (Lit t). rewrite matches_cat. split.
    + intros (v & u & -> & (d & -> & <-%Z.eqb_eq)%matches_class & <-%IH). done.
    + destruct w as [|d w]; [done|]. intros [= <- <-]. exists [d], w. split; [done|]. rewrite matches_class, IH. split; [exists d; by rewrite Z.eqb_refl|done].
Qed.
Lemma matches_star_class p w : matches (Star (Class p)) w <-> Forall (fun c => p c = true) w.
Proof.
  split.
  - remember (Star (Class p)) as r eqn:Er. induction 1 as [| | | | | |r v w Hv Hr _ Hs IH]; try discriminate Er; [constructor|]. injection Er as ->.
    apply matches_class in Hr as (c & -> & Hc). constructor; [done|by apply IH].
  - induction 1 as [|c w Hc _ IH]; [apply MStarNil|]. apply (MStarCons _ [c]); [done|by constructor|done].
Qed.
Lemma matches_plus_class p w : matches (Plus (Class p)) w <-> w <> [] /\ Forall (fun c => p c = true) w.
Proof.
  unfold Plus. rewrite matches_cat. setoid_rewrite matches_star_class. setoid_rewrite matches_class. split.
  - intros (v & u & -> & (c & -> & Hc) & Hu). split; [done|by constructor].
  - intros [Hw Hf]. destruct w as [|c w]; [done|]. apply Forall_cons_1 in Hf as [Hc Hf]. exists [c], w. eauto.
Qed.
Lemma matches_char c w : matches (Char c) w <-> w = [c].
Proof. unfold Char. rewrite matches_class. split; [by intros (d & -> & ->%Z.eqb_eq)|]. intros ->. exists c. split; [done|]. apply Z.eqb_refl. Qed.

(** ** What a pattern can begin with, and hold *)
Fixpoint uses (r : regex) (c : Z) : bool :=
  match r with Nothing | Nil => false | Class p => p c | Cat r s | Alt r s => uses r c || uses s c | Star r => uses r c end.
Definition begins (r : regex) (c : Z) : bool := negb (is_nothing (deriv c r)).
Lemma matches_uses r w : matches r w -> Forall (fun c => uses r c = true) w.
Proof.
  induction 1 as [|p c Hp|r s v w _ IH1 _ IH2|r s w _ IH|r s w _ IH| |r v w _ _ IH1 _ IH2]; cbn [uses].
  - constructor.
  - by constructor.
  - apply Forall_app; split; [revert IH1|revert IH2]; apply List.Forall_impl; intros c ->; [done|by rewrite orb_true_r].
  - revert IH. apply List.Forall_impl. by intros c ->.
  - revert IH. apply List.Forall_impl. intros c ->. by rewrite orb_true_r.
  - constructor.
  - by apply Forall_app.
Qed.
Lemma matches_begins r c w : matches r (c :: w) -> begins r c = true.
Proof. intros H%deriv_spec. unfold begins. by destruct (deriv c r); [apply matches_nothing in H|..]. Qed.
