(* ===== verification/Lexer.v ===== *)
(** The scanner of SQL (src/parser/lexer.l): the rules in their order, and the token stream the parser reads. Positions, which only go
    into the text of an error, are left out. *)
From S2P Require Import Prelude Text Flex Meta.

(** * Tokens: %token of src/parser/parser.y *)
Inductive token :=
| CREATE | TABLE | DROP | SCHEMA | INSERT | INTO | VALUES | DELETE | FROM | UPDATE | INDEX | ON
| INT | BIGINT | FLOAT | CHAR | VARCHAR | DOUBLE | BOOLEAN | BOOL | NUMERIC | DECIMAL
| EXPLAIN | SELECT | AS | NULL_T | TRUE_T | FALSE_T | WHERE | AND | OR | NOT | IS | SET | BETWEEN | CAST
| ORDER | BY | ASC | DESC
| BEGIN_TXN | START | TRANSACTION | COMMIT | WORK | ROLLBACK
| EQ | NE | LE | GE
| INTEGER (text : bytes)
| FLOAT_NUM (text : bytes)
| DECIMAL_NUM (text : bytes)
| IDENTIFIER (name : string)
| STRING (value : bytes)
| P_ADD | P_SUB | P_MUL | P_DIV | P_LP | P_RP | P_COMMA | P_SEMI | P_DOT | P_LT | P_GT
| TOK_ERROR.
#[export] Instance token_eq_dec : EqDecision token.
Proof. solve_decision. Defined.

(** A single byte that is a token of its own: [return yytext[0]]. *)
Definition char_tokens : list (Z * token) :=
  zip (str "+-*/(),;.<>") [P_ADD; P_SUB; P_MUL; P_DIV; P_LP; P_RP; P_COMMA; P_SEMI; P_DOT; P_LT; P_GT].
Definition char_token (c : Z) : token := default TOK_ERROR (snd <$> List.find (fun ct => ct.1 =? c) char_tokens).

(** * Rules *)
(** What a rule does with the text it matched: hand over a token, nothing, or enter another start condition. *)
Inductive action := Return (f : bytes -> token) | Skip | Begin (comment : bool).
Definition letter (c : Z) : bool := (97 <=? lower c) && (lower c <=? 122).
Definition id_start (c : Z) : bool := letter c || (c =? 95).
Definition id_char (c : Z) : bool := id_start c || is_digit c.
Definition ws (c : Z) : bool := (c =? 32) || (c =? 9) || (c =? 13).
Definition DIGITS : regex := Plus (Class is_digit).
Definition EXPONENT : regex := Cat (Class (fun c => lower c =? 101)) (Cat (Opt (Class (fun c => (c =? 43) || (c =? 45)))) DIGITS).
Definition DOTTED : regex := Cat DIGITS (Cat (Char 46) (Star (Class is_digit))).
Definition POINT : regex := Cat (Char 46) DIGITS.
(** [q([^q]|qq)*q]. *)
Definition quoted (q : Z) : regex := Cat (Char q) (Cat (Star (Alt (Class (fun c => negb (c =? q))) (Cat (Char q) (Char q)))) (Char q)).
Definition ID : regex := Cat (Class id_start) (Star (Class id_char)).
(** The text between the quotes, each doubled quote taken once. *)
Fixpoint fold_quotes (q : Z) (s : bytes) : bytes :=
  match s with
  | c :: s => if c =? q then match s with d :: s' => if d =? q then c :: fold_quotes q s' else c :: fold_quotes q s | [] => [c] end else c :: fold_quotes q s
  | [] => []
  end.
Definition inner (s : bytes) : bytes := slice 1 (zlen s - 2) s.
Definition to_lower (c : Z) : Z := if (65 <=? c) && (c <=? 90) then c - 65 + 97 else c.

Definition keywords : list (string * token) :=
  [("create", CREATE); ("table", TABLE); ("schema", SCHEMA); ("index", INDEX); ("on", ON); ("drop", DROP); ("delete", DELETE); ("from", FROM);
   ("insert", INSERT); ("into", INTO); ("values", VALUES); ("update", UPDATE); ("cast", CAST); ("int", INT); ("bigint", BIGINT); ("float", FLOAT);
   ("char", CHAR); ("varchar", VARCHAR); ("double", DOUBLE); ("decimal", DECIMAL); ("numeric", NUMERIC); ("boolean", BOOLEAN); ("bool", BOOL);
   ("explain", EXPLAIN); ("select", SELECT); ("as", AS); ("order", ORDER); ("by", BY); ("asc", ASC); ("desc", DESC); ("null", NULL_T);
   ("true", TRUE_T); ("false", FALSE_T); ("where", WHERE); ("and", AND); ("or", OR); ("not", NOT); ("is", IS); ("between", BETWEEN); ("set", SET);
   ("begin", BEGIN_TXN); ("start", START); ("transaction", TRANSACTION); ("commit", COMMIT); ("rollback", ROLLBACK); ("work", WORK)]%string.
Definition keyword_rules : list (rule action) := (fun k => mkRule (Lit (str k.1)) (Return (fun _ => k.2))) <$> keywords.
Definition literal_rules : list (rule action) :=
  [mkRule (Alt (Cat DOTTED EXPONENT) (Alt (Cat POINT EXPONENT) (Cat DIGITS EXPONENT))) (Return FLOAT_NUM);
   mkRule (Alt DOTTED POINT) (Return DECIMAL_NUM);
   mkRule DIGITS (Return INTEGER);
   mkRule (quoted 39) (Return (fun t => STRING (fold_quotes 39 (inner t))));
   mkRule (quoted 34) (Return (fun t => IDENTIFIER (name_of (fold_quotes 34 (inner t)))))].
Definition id_rule : rule action := mkRule ID (Return (fun t => IDENTIFIER (name_of (to_lower <$> t)))).
Definition operator_rules : list (rule action) :=
  [mkRule (Lit (str "<=")) (Return (fun _ => LE));
   mkRule (Lit (str ">=")) (Return (fun _ => GE));
   mkRule (Alt (Lit (str "==")) (Lit (str "="))) (Return (fun _ => EQ));
   mkRule (Alt (Lit (str "<>")) (Lit (str "!="))) (Return (fun _ => NE));
   mkRule (Class (fun c => bool_decide (c ∈ str "+-*/(),;.<>"))) (Return (fun t => char_token (default 0 (head t))));
   mkRule (Char 10) Skip;
   mkRule (Plus (Class ws)) Skip;
   mkRule (Cat (Lit (str "--")) (Star (Class (fun c => negb (c =? 10))))) Skip;
   mkRule (Lit (str "/*")) (Begin true);
   mkRule (Class (fun c => negb (c =? 10))) (Return (fun _ => TOK_ERROR))].
Definition initial_rules : list (rule action) := keyword_rules ++ literal_rules ++ id_rule :: operator_rules.
(** The exclusive start condition COMMENT_BLOCK. *)
Definition comment_rules : list (rule action) :=
  [mkRule (Cat (Plus (Char 42)) (Char 47)) (Begin false);
   mkRule (Alt (Plus (Class (fun c => negb (c =? 42)))) (Plus (Char 42))) Skip].

(** * The token stream *)
(** What [yylex] hands over, one call after the other, until the end of the input; [comment]: the start condition. The parser reads no further
    than the first TOK_ERROR. *)
Fixpoint scan (fuel : nat) (comment : bool) (s : bytes) : list token :=
  match fuel with
  | O => []
  | S fuel =>
      match s with
      | [] => if comment then [TOK_ERROR] else []
      | _ =>
          match next (if comment then comment_rules else initial_rules) s with
          | None => scan fuel comment (drop 1 s)
          | Some (n, Return f) => f (take n s) :: scan fuel comment (drop n s)
          | Some (n, Skip) => scan fuel comment (drop n s)
          | Some (n, Begin b) => scan fuel b (drop n s)
          end
      end
  end.
Definition lex (s : bytes) : list token := scan (S (length s)) false s.

Example lex_demo : lex (str "SELECT a, 'it''s' x, " ++ [34; 81; 34] ++ str " /* c; */ FROM t1 -- end" ++ [10] ++ str "WHERE x >= 1.5e-3 AND b<>.5;")
  = [SELECT; IDENTIFIER "a"; P_COMMA; STRING (str "it's"); IDENTIFIER "x"; P_COMMA; IDENTIFIER "Q"; FROM; IDENTIFIER "t1"; WHERE; IDENTIFIER "x"; GE;
     FLOAT_NUM (str "1.5e-3"); AND; IDENTIFIER "b"; NE; DECIMAL_NUM (str ".5"); P_SEMI].
Proof. by vm_compute. Qed.

(** * Scanning goes on to the end *)
Lemma rules_eat comment : forallb (fun r => negb (nullable (pat r))) (if comment : bool then comment_rules else initial_rules) = true.
Proof. by destruct comment; vm_compute. Qed.
Lemma next_eats comment s n a : next (if comment : bool then comment_rules else initial_rules) s = Some (n, a) -> (0 < n <= length s)%nat.
Proof.
  intros H. apply next_some in H as (H1 & r & H2 & _ & H3). destruct n as [|n]; [|lia]. apply nullable_spec in H3.
  pose proof (rules_eat comment) as Hr. rewrite forallb_forall in Hr. specialize (Hr r). rewrite H3 in Hr. discriminate Hr. by apply list_elem_of_In.
Qed.
(** No byte is left to the default rule. *)
Lemma next_total comment s : s <> [] -> is_Some (next (if comment : bool then comment_rules else initial_rules) s).
Proof.
  assert (forall (rules : list (rule action)) r, r ∈ rules -> is_Some (longest (pat r) s) -> is_Some (next rules s)) as Hn.
  { intros rules r. induction rules as [|r' rules IH]; [by intros ?%not_elem_of_nil|]. intros Hin [n Hl]. cbn [next]. apply elem_of_cons in Hin as [->|Hin].
    - rewrite Hl. destruct (next rules s) as [[m a]|]; [destruct (n <? m)%nat|]; eauto.
    - destruct (IH Hin (mk_is_Some _ _ Hl)) as [[m a] ->]. destruct (longest (pat r') s) as [k|]; [destruct (k <? m)%nat|]; eauto. }
  intros Hs. destruct s as [|c s]; [done|].
  assert (forall r : rule action, matches (pat r) [c] -> is_Some (longest (pat r) (c :: s))) as Hl.
  { intros r Hr. destruct (longest_max (pat r) (c :: s) 1 ltac:(cbn; lia) Hr) as (m & -> & _). eauto. }
  assert (forall p, p c = true -> matches (Plus (Class p)) [c]) as Hp by (intros p Hp; apply matches_plus_class; split; [done|by constructor]).
  destruct comment.
  - apply (Hn _ (mkRule (Alt (Plus (Class (fun c => negb (c =? 42)))) (Plus (Char 42))) Skip)); [by right; left|]. apply Hl. cbn [pat]. apply matches_alt.
    destruct (c =? 42) eqn:E; [right|left]; apply Hp; [done|by rewrite E].
  - destruct (c =? 10) eqn:E.
    + apply (Hn _ (mkRule (Char 10) Skip)); [|by apply Hl; cbn [pat]; constructor]. unfold initial_rules. apply elem_of_app. right. apply elem_of_app. right. unfold operator_rules. do 6 right. left.
    + apply (Hn _ (mkRule (Class (fun c => negb (c =? 10))) (Return (fun _ => TOK_ERROR)))); [|by apply Hl; cbn [pat]; constructor; rewrite E].
      unfold initial_rules. apply elem_of_app. right. apply elem_of_app. right. unfold operator_rules. do 10 right. left.
Qed.
(** What is handed over from a position on; the fuel is enough, and any more changes nothing. *)
Definition lex_from (comment : bool) (s : bytes) : list token := scan (S (length s)) comment s.
Lemma scan_fuel fuel : forall comment s, (length s < fuel)%nat -> scan fuel comment s = lex_from comment s.
Proof.
  induction fuel as [fuel IH] using lt_wf_ind. intros comment s Hf. unfold lex_from. destruct fuel as [|fuel]; [lia|].
  destruct s as [|c s]; [done|]. cbn [scan]. destruct (next _ (c :: s)) as [[n a]|] eqn:E.
  - apply next_eats in E. assert (forall b, scan fuel b (drop n (c :: s)) = scan (length (c :: s)) b (drop n (c :: s))) as Hd.
    { intros b. assert (length (drop n (c :: s)) < length (c :: s))%nat by (rewrite length_drop; lia). rewrite (IH fuel) by (cbn in *; lia). symmetry.
      destruct (decide (fuel = length (c :: s))) as [->|Hne]; [apply IH; cbn in *; lia|]. apply IH; cbn [length] in *; lia. }
    destruct a; by rewrite Hd.
  - destruct (next_total comment (c :: s)) as [x Hx]; [done|]. congruence.
Qed.
Lemma lex_from_step comment s n a : next (if comment : bool then comment_rules else initial_rules) s = Some (n, a) -> lex_from comment s =
  match a with Return f => f (take n s) :: lex_from comment (drop n s) | Skip => lex_from comment (drop n s) | Begin b => lex_from b (drop n s) end.
Proof.
  intros H. pose proof (next_eats _ _ _ _ H) as Hn. unfold lex_from at 1. destruct s as [|c s]; [cbn in Hn; lia|]. cbn [scan]. rewrite H.
  assert (length (drop n (c :: s)) < length (c :: s))%nat by (rewrite length_drop; lia). destruct a; by rewrite scan_fuel.
Qed.
Lemma lex_step t rest f : next initial_rules (t ++ rest) = Some (length t, Return f) -> lex (t ++ rest) = f t :: lex rest.
Proof. intros H. pose proof (lex_from_step false _ _ _ H) as E. rewrite take_app_length, drop_app_length in E. exact E. Qed.
Lemma lex_skip t rest : next initial_rules (t ++ rest) = Some (length t, Skip) -> lex (t ++ rest) = lex rest.
Proof. intros H. pose proof (lex_from_step false _ _ _ H) as E. rewrite drop_app_length in E. exact E. Qed.

(** * Single tokens *)
(** [rest] does not go on with a byte of [p]. *)
Definition ends (p : Z -> bool) (rest : bytes) : Prop := match rest with [] => True | c :: _ => p c = false end.
Lemma no_longer r (t rest : bytes) m : ends (uses r) rest -> (length t < m <= length (t ++ rest))%nat -> ~ matches r (take m (t ++ rest)).
Proof.
  rewrite length_app. intros He Hm Hr. destruct rest as [|c rest]; [cbn in Hm; lia|]. apply matches_uses in Hr. rewrite list.Forall_forall in Hr.
  cbn [ends] in He. rewrite (Hr c) in He; [done|]. rewrite take_app_ge by lia. apply elem_of_app. right. replace (m - length t)%nat with (S (m - length t - 1)) by lia. by left.
Qed.
Lemma no_begin r c s m : (0 < m)%nat -> begins r c = false -> ~ matches r (take m (c :: s)).
Proof. intros Hm Hb Hr. destruct m as [|m]; [lia|]. cbn [take] in Hr. by rewrite (matches_begins _ _ _ Hr) in Hb. Qed.
Lemma no_class p (s : bytes) m : (1 < m <= length s)%nat -> ~ matches (Class p) (take m s).
Proof. intros Hm (c & E & _)%matches_class. apply (f_equal length) in E. rewrite length_take in E. cbn in E. lia. Qed.
Lemma take_whole (t rest : bytes) : take (length t) (t ++ rest) = t.
Proof. by rewrite take_app_length. Qed.

(** ** Words *)
Definition bytes_where (p : Z -> bool) : list Z := List.filter p (seqZ 0 256).
Lemma id_start_byte c : id_start c = true -> c ∈ bytes_where id_start.
Proof.
  intros H. apply list_elem_of_In, filter_In. split; [|done]. apply list_elem_of_In, elem_of_seqZ. revert H. unfold id_start, letter, lower.
  destruct ((65 <=? c) && (c <=? 90)) eqn:E; lia.
Qed.
Lemma word_others : forallb (fun c => forallb (fun r => negb (begins (pat r) c)) (literal_rules ++ take 9 operator_rules)) (bytes_where id_start) = true.
Proof. by vm_compute. Qed.
Lemma word_other c r : id_start c = true -> r ∈ literal_rules ++ take 9 operator_rules -> begins (pat r) c = false.
Proof.
  intros Hc%id_start_byte%list_elem_of_In Hr%list_elem_of_In. pose proof word_others as H. rewrite forallb_forall in H. specialize (H c Hc).
  rewrite forallb_forall in H. specialize (H r Hr). by apply negb_true_iff in H.
Qed.
Lemma keyword_letters : forallb (fun k => forallb (fun c => (97 <=? c) && (c <=? 122)) (str k.1)) keywords = true.
Proof. by vm_compute. Qed.
Lemma keyword_uses k c : k ∈ keywords -> id_char c = false -> uses (Lit (str k.1)) c = false.
Proof.
  intros Hk%list_elem_of_In Hc. pose proof keyword_letters as H. rewrite forallb_forall in H. specialize (H k Hk). induction (str k.1) as [|d t IH]; [done|].
  cbn [forallb] in H. apply andb_true_iff in H as [H1 H2]. cbn [Lit foldr]. fold (Lit t). cbn [uses]. rewrite (IH H2), orb_false_r. apply Z.eqb_neq. intros <-.
  apply orb_false_iff in Hc as [[Hc _]%orb_false_iff _]. unfold letter in Hc. congruence.
Qed.
Lemma ID_uses c : id_char c = false -> uses ID c = false.
Proof. intros H. cbn [ID uses]. rewrite H. by apply orb_false_iff in H as [-> _]. Qed.
Definition is_word (t : bytes) : Prop := match t with [] => False | c :: t => id_start c = true /\ Forall (fun c => id_char c = true) t end.
Lemma word_ID t : is_word t -> matches ID t.
Proof. destruct t as [|c t]; [done|]. intros [H1 H2]. apply matches_cat. exists [c], t. split; [done|]. split; [by constructor|by apply matches_star_class]. Qed.
(** What stands after the identifier rule cannot take more than a word either. *)
Lemma word_later t rest r m : is_word t -> ends id_char rest -> r ∈ literal_rules ++ id_rule :: operator_rules ->
  (length t < m <= length (t ++ rest))%nat -> ~ matches (pat r) (take m (t ++ rest)).
Proof.
  intros Ht He Hr Hm. assert (r = id_rule \/ r ∈ literal_rules ++ take 9 operator_rules \/ exists p, pat r = Class p) as [->|[Hb|[p ->]]].
  { apply elem_of_app in Hr as [Hr|[Hr|Hr]%elem_of_cons]; [right; left; apply elem_of_app; by left|by left|]. right.
    rewrite <- (take_drop 9 operator_rules) in Hr. apply elem_of_app in Hr as [Hr|Hr]; [left; apply elem_of_app; by right|right].
    apply list_elem_of_singleton in Hr as ->. by eexists. }
  - apply no_longer; [|done]. destruct rest; [done|by apply ID_uses].
  - destruct t as [|c t]; [done|]. destruct Ht as [Hc _]. apply no_begin; [lia|]. by apply word_other.
  - apply no_class. destruct t; cbn in *; [done|lia].
Qed.
Lemma keyword_not_longer k t rest m : k ∈ keywords -> ends id_char rest -> (length t < m <= length (t ++ rest))%nat ->
  ~ matches (Lit (str k.1)) (take m (t ++ rest)).
Proof. intros Hk He. apply no_longer. destruct rest; [done|by apply keyword_uses]. Qed.
Definition keyword_of (t : bytes) : option token := snd <$> List.find (fun k => bool_decide (str k.1 = lower <$> t)) keywords.
Lemma lex_word t rest : is_word t -> ends id_char rest ->
  lex (t ++ rest) = match keyword_of t with Some k => k | None => IDENTIFIER (name_of (to_lower <$> t)) end :: lex rest.
Proof.
  intros Ht He. unfold keyword_of. destruct (List.find _ keywords) as [k|] eqn:E; cbn [fmap option_fmap option_map].
  - assert (exists l1 l2, keywords = l1 ++ k :: l2 /\ (forall k', k' ∈ l1 -> str k'.1 <> lower <$> t) /\ str k.1 = lower <$> t) as (l1 & l2 & Ek & H1 & H2).
    { clear -E. induction keywords as [|k' l IH]; [done|]. cbn [List.find] in E. case_bool_decide as Hd.
      - injection E as <-. exists [], l. split; [done|]. split; [by intros ? ?%not_elem_of_nil|done].
      - destruct (IH E) as (l1 & l2 & -> & H1 & H2). exists (k' :: l1), l2. split; [done|]. split; [|done]. intros k1 [->|Hk]%elem_of_cons; [done|by apply H1]. }
    apply (lex_step t rest (fun _ => k.2)). unfold initial_rules, keyword_rules. rewrite Ek, fmap_app, fmap_cons, <- app_assoc. cbn [app].
    assert (forall k', k' ∈ l1 ++ k :: l2 -> k' ∈ keywords) as Hin by (by rewrite Ek).
    apply (next_spec _ (mkRule (Lit (str k.1)) (Return (fun _ => k.2)))); [rewrite length_app; lia|rewrite take_whole; by apply matches_lit| |].
    + intros r m (k' & -> & Hk')%list_elem_of_fmap Hm. destruct (decide (m = length t)) as [->|Hne].
      * cbn [pat]. rewrite take_whole, matches_lit. intros Hl. by apply (H1 _ Hk').
      * apply keyword_not_longer; [apply Hin; set_solver|done|lia].
    + intros r m Hr Hm. apply elem_of_cons in Hr as [->|[(k' & -> & Hk')%list_elem_of_fmap|Hr]%elem_of_app].
      * apply keyword_not_longer; [apply Hin; set_solver|done|done].
      * apply keyword_not_longer; [apply Hin; set_solver|done|done].
      * by apply word_later.
  - apply (lex_step t rest (fun t => IDENTIFIER (name_of (to_lower <$> t)))). unfold initial_rules. rewrite app_assoc.
    apply (next_spec _ id_rule); [rewrite length_app; lia|rewrite take_whole; by apply word_ID| |].
    + intros r m [(k & -> & Hk)%list_elem_of_fmap|Hr]%elem_of_app Hm.
      * destruct (decide (m = length t)) as [->|Hne]; [|apply keyword_not_longer; [done..|lia]]. cbn [pat]. rewrite take_whole, matches_lit.
        apply list_elem_of_In in Hk. pose proof (find_none _ _ E k Hk) as Hn. cbn in Hn. apply bool_decide_eq_false in Hn. congruence.
      * destruct t as [|c t]; [done|]. destruct Ht as [Hc _]. apply no_begin; [cbn in Hm; lia|]. apply word_other; [done|]. set_solver.
    + intros r m Hr Hm. apply word_later; [done..| |done]. set_solver.
Qed.

(** ** Numbers *)
Definition FLOATS : regex := Alt (Cat DOTTED EXPONENT) (Alt (Cat POINT EXPONENT) (Cat DIGITS EXPONENT)).
Definition DECIMALS : regex := Alt DOTTED POINT.
Definition num_char (c : Z) : bool := is_digit c || (c =? 46) || (c =? 43) || (c =? 45) || (lower c =? 101).
Lemma number_uses r c : r ∈ [FLOATS; DECIMALS; DIGITS] -> num_char c = false -> uses r c = false.
Proof.
  unfold num_char. rewrite !orb_false_iff. intros Hr ((((H1 & H2) & H3) & H4) & H5).
  apply elem_of_cons in Hr as [->|[->| ->%list_elem_of_singleton]%elem_of_cons]; cbn; rewrite ?H1, ?H2, ?H3, ?H4, ?H5; done.
Qed.
Lemma number_start r c w : r ∈ [FLOATS; DECIMALS; DIGITS] -> matches r (c :: w) -> c ∈ bytes_where (fun c => is_digit c || (c =? 46)).
Proof.
  intros Hr Hm%matches_begins. assert (is_digit c || (c =? 46) = true) as H.
  { apply elem_of_cons in Hr as [->|[->| ->%list_elem_of_singleton]%elem_of_cons]; revert Hm; unfold begins; cbn;
      destruct (is_digit c), (c =? 46); done. }
  apply list_elem_of_In, filter_In. split; [|done]. apply list_elem_of_In, elem_of_seqZ. unfold is_digit in H. lia.
Qed.
Lemma number_others : forallb (fun c => forallb (fun r => negb (begins (pat r) c)) (keyword_rules ++ drop 3 literal_rules ++ id_rule :: take 4 operator_rules ++ take 4 (drop 5 operator_rules)))
  (bytes_where (fun c => is_digit c || (c =? 46))) = true.
Proof. by vm_compute. Qed.
Lemma number_other c r : c ∈ bytes_where (fun c => is_digit c || (c =? 46)) ->
  r ∈ keyword_rules ++ drop 3 literal_rules ++ id_rule :: take 4 operator_rules ++ take 4 (drop 5 operator_rules) -> begins (pat r) c = false.
Proof.
  intros Hc%list_elem_of_In Hr%list_elem_of_In. pose proof number_others as H. rewrite forallb_forall in H. specialize (H c Hc).
  rewrite forallb_forall in H. specialize (H r Hr). by apply negb_true_iff in H.
Qed.
(** What tells the three kinds apart. *)
Lemma matches_has r p w : matches r w -> (forall v, matches r v -> exists c, c ∈ v /\ p c = true) -> ~ Forall (fun c => p c = false) w.
Proof. intros Hm Hh Hf. destruct (Hh w Hm) as (c & Hc & Hp). rewrite list.Forall_forall in Hf. specialize (Hf c Hc). cbn in Hf. congruence. Qed.
Lemma FLOATS_e w : matches FLOATS w -> exists c, c ∈ w /\ (lower c =? 101) = true.
Proof.
  assert (forall r, matches (Cat r EXPONENT) w -> exists c, c ∈ w /\ (lower c =? 101) = true) as H.
  { intros r (v & u & -> & _ & (x & y & -> & (c & -> & Hc)%matches_class & _)%matches_cat)%matches_cat. exists c. split; [|done]. set_solver. }
  intros [?|[?|?]%matches_alt]%matches_alt; eauto.
Qed.
Lemma DECIMALS_point w : matches DECIMALS w -> exists c, c ∈ w /\ (c =? 46) = true.
Proof.
  intros [(v & u & -> & _ & (x & y & -> & ->%matches_char & _)%matches_cat)%matches_cat|(v & u & -> & ->%matches_char & _)%matches_cat]%matches_alt;
    exists 46; (split; [set_solver|done]).
Qed.
Lemma no_e r w : r ∈ [DECIMALS; DIGITS] -> matches r w -> ~ matches FLOATS w.
Proof.
  intros Hr Hm Hf. apply (matches_has _ _ _ Hf FLOATS_e). apply matches_uses in Hm. revert Hm. apply List.Forall_impl. intros c Hc.
  assert (is_digit c || (c =? 46) = true) as H.
  { apply elem_of_cons in Hr as [->| ->%list_elem_of_singleton]; cbn in Hc; destruct (is_digit c), (c =? 46); done. }
  apply Z.eqb_neq. unfold is_digit, lower in *. destruct ((65 <=? c) && (c <=? 90)) eqn:E; lia.
Qed.
Lemma no_point w : matches DIGITS w -> ~ matches DECIMALS w.
Proof.
  intros Hm Hf. apply (matches_has _ _ _ Hf DECIMALS_point). apply matches_uses in Hm. revert Hm. apply List.Forall_impl. intros c Hc.
  cbn in Hc. apply Z.eqb_neq. unfold is_digit in Hc. lia.
Qed.
Lemma number_rules : initial_rules = keyword_rules ++ mkRule FLOATS (Return FLOAT_NUM) :: mkRule DECIMALS (Return DECIMAL_NUM) :: mkRule DIGITS (Return INTEGER)
  :: drop 3 literal_rules ++ id_rule :: operator_rules.
Proof. reflexivity. Qed.
Lemma number_later r t rest m r0 : r0 ∈ [FLOATS; DECIMALS; DIGITS] -> matches r0 t -> t <> [] -> ends num_char rest -> (length t < m <= length (t ++ rest))%nat ->
  r ∈ initial_rules -> ~ matches (pat r) (take m (t ++ rest)).
Proof.
  intros Hr0 Ht Hne He Hm Hr. rewrite number_rules in Hr. destruct t as [|c t]; [done|]. pose proof (number_start _ _ _ Hr0 Ht) as Hc.
  assert (pat r ∈ [FLOATS; DECIMALS; DIGITS] \/ r ∈ keyword_rules ++ drop 3 literal_rules ++ id_rule :: take 4 operator_rules ++ take 4 (drop 5 operator_rules) \/
    exists p, pat r = Class p) as [Hn|[Hb|[p ->]]].
  { apply elem_of_app in Hr as [Hr|[->|[->|[->|[Hr|[->|Hr]%elem_of_cons]%elem_of_app]%elem_of_cons]%elem_of_cons]%elem_of_cons].
    - right; left. apply elem_of_app. by left.
    - left. by left.
    - left. right; by left.
    - left. right; right; by left.
    - right; left. apply elem_of_app. right. apply elem_of_app. by left.
    - right; left. apply elem_of_app. right. apply elem_of_app. right. by left.
    - right. rewrite <- (take_drop 4 operator_rules) in Hr. apply elem_of_app in Hr as [Hr|Hr].
      + left. apply elem_of_app. right. apply elem_of_app. right. right. apply elem_of_app. by left.
      + change (drop 4 operator_rules) with (take 1 (drop 4 operator_rules) ++ take 4 (drop 5 operator_rules) ++ drop 9 operator_rules) in Hr.
        apply elem_of_app in Hr as [Hr|[Hr|Hr]%elem_of_app].
        * right. apply list_elem_of_singleton in Hr as ->. by eexists.
        * left. apply elem_of_app. right. apply elem_of_app. right. right. apply elem_of_app. by right.
        * right. apply list_elem_of_singleton in Hr as ->. by eexists. }
  - apply no_longer; [|done]. destruct rest; [done|by apply number_uses].
  - apply no_begin; [cbn in Hm; lia|]. by apply number_other.
  - apply no_class. cbn [length] in Hm. lia.
Qed.
Definition number_token (r : regex) (f : bytes -> token) : Prop := (r, f) ∈ [(FLOATS, FLOAT_NUM); (DECIMALS, DECIMAL_NUM); (DIGITS, INTEGER)].
Lemma lex_number r f t rest : number_token r f -> matches r t -> ends num_char rest -> lex (t ++ rest) = f t :: lex rest.
Proof.
  intros Hf Ht He. assert (t <> []) as Hne.
  { intros ->. apply nullable_spec in Ht. apply elem_of_cons in Hf as [[= -> _]|[[= -> _]|[= -> _]%list_elem_of_singleton]%elem_of_cons]; discriminate Ht. }
  assert (forall r' (m : nat), r' ∈ keyword_rules -> (length t <= m <= length (t ++ rest))%nat -> r ∈ [FLOATS; DECIMALS; DIGITS] -> ~ matches (pat r') (take m (t ++ rest))) as Hk.
  { intros r' m Hr Hm Hin. destruct t as [|c t]; [done|]. apply no_begin; [cbn in Hm; lia|]. apply number_other; [by eapply number_start|]. apply elem_of_app. by left. }
  assert (forall pre post, initial_rules = pre ++ mkRule r (Return f) :: post -> r ∈ [FLOATS; DECIMALS; DIGITS] ->
    (forall r' m, r' ∈ pre -> (length t <= m <= length (t ++ rest))%nat -> ~ matches (pat r') (take m (t ++ rest))) -> lex (t ++ rest) = f t :: lex rest) as Hgo.
  { intros pre post E Hr Hpre. apply lex_step. rewrite E. apply (next_spec pre (mkRule r (Return f))); [rewrite length_app; lia|by rewrite take_whole|done|].
    intros r1 m Hr1 Hm. apply (number_later _ _ _ _ r); [done..|]. rewrite E. apply elem_of_app. by right. }
  apply elem_of_cons in Hf as [[= -> ->]|[[= -> ->]|[= -> ->]%list_elem_of_singleton]%elem_of_cons].
  - apply (Hgo keyword_rules _ number_rules); [by left|]. intros r' m Hr Hm. apply Hk; [done..|by left].
  - apply (Hgo (keyword_rules ++ [mkRule FLOATS (Return FLOAT_NUM)]) _ number_rules); [right; by left|].
    intros r' m [Hr| ->%list_elem_of_singleton]%elem_of_app Hm; [apply Hk; [done..|right; by left]|]. destruct (decide (m = length t)) as [->|Hn].
    + rewrite take_whole. apply (no_e DECIMALS); [by left|done].
    + apply (number_later _ _ _ _ DECIMALS); [right; by left|done..|lia|]. rewrite number_rules. apply elem_of_app. right. by left.
  - apply (Hgo (keyword_rules ++ [mkRule FLOATS (Return FLOAT_NUM); mkRule DECIMALS (Return DECIMAL_NUM)]) _ number_rules); [right; right; by left|].
    intros r' m [Hr|Hr]%elem_of_app Hm; [apply Hk; [done..|right; right; by left]|]. destruct (decide (m = length t)) as [->|Hn].
    + rewrite take_whole. apply elem_of_cons in Hr as [->| ->%list_elem_of_singleton]; [apply (no_e DIGITS); [right; by left|done]|by apply no_point].
    + apply (number_later _ _ _ _ DIGITS); [right; right; by left|done..|lia|]. rewrite number_rules. apply elem_of_app. right. 
      apply elem_of_cons in Hr as [->| ->%list_elem_of_singleton]; [by left|right; by left].
Qed.

(** ** Quoted text *)
Definition plain (q : Z) (v : bytes) : Prop := q ∉ v.
(** Inside the quotes: a quote is never alone. *)
Lemma quoted_body q w : matches (Star (Alt (Class (fun c => negb (c =? q))) (Cat (Char q) (Char q)))) w ->
  forall v x, q ∉ v -> w = v ++ q :: x -> exists y, x = q :: y /\ matches (Star (Alt (Class (fun c => negb (c =? q))) (Cat (Char q) (Char q)))) y.
Proof.
  remember (Star _) as r eqn:Er. induction 1 as [| | | | |r0|r0 v0 w Hv Hm _ Hs IH]; try discriminate Er; intros v x Hq Ew.
  - by destruct v.
  - injection Er as ->. apply matches_alt in Hm as [(c & -> & Hc)%matches_class|(a & b & -> & ->%matches_char & ->%matches_char)%matches_cat].
    + apply negb_true_iff, Z.eqb_neq in Hc. destruct v as [|d v]; [by injection Ew as <- _|]. injection Ew as <- Ew. apply (IH eq_refl v x); [set_solver|done].
    + destruct v as [|d v]; [|injection Ew as <- _; set_solver]. injection Ew as <-. by exists w.
Qed.
Lemma quoted_plain q v : q ∉ v -> matches (quoted q) (q :: v ++ [q]).
Proof.
  intros Hv. apply matches_cat. exists [q], (v ++ [q]). split; [done|]. split; [by apply matches_char|]. apply matches_cat. exists v, [q]. split; [done|]. split; [|by apply matches_char].
  induction v as [|c v IH]; [apply MStarNil|]. apply not_elem_of_cons in Hv as [H1 H2]. apply (MStarCons _ [c]); [done| |by apply IH].
  apply MAltL. constructor. apply negb_true_iff, Z.eqb_neq. done.
Qed.
Lemma quoted_ends q v c x : q ∉ v -> c <> q -> ~ matches (quoted q) (q :: v ++ q :: c :: x).
Proof.
  intros Hv Hc (a & b & E & ->%matches_char & (w & u & -> & Hw & ->%matches_char)%matches_cat)%matches_cat. injection E as E.
  assert (exists y, w = v ++ q :: y) as [y ->].
  { revert w Hw E. clear -Hv Hc. induction v as [|d v IH]; intros w _ E.
    - destruct w as [|e w]; [by injection E|]. injection E as <- _. by exists w.
    - apply not_elem_of_cons in Hv as [H1 H2]. destruct w as [|e w]; [by injection E|]. injection E as <- E.
      assert (exists y, w = v ++ q :: y) as [y ->]; [|by exists y]. clear IH. revert w E. induction v as [|d' v IH]; intros w E.
      + destruct w as [|e w]; [by injection E|]. injection E as <- _. by exists w.
      + apply not_elem_of_cons in H2 as [H3 H4]. destruct w as [|e w]; [by injection E as E _|]. injection E as <- E. destruct (IH H4 w E) as [y ->]. by exists y. }
  destruct (quoted_body q _ Hw v y Hv eq_refl) as (z & -> & _). rewrite <- app_assoc in E. apply app_inv_head in E. cbn [app] in E. by injection E.
Qed.
Lemma quote_others : forallb (fun r => negb (begins (pat r) 39)) (keyword_rules ++ take 3 literal_rules ++ drop 4 literal_rules ++ id_rule :: take 9 operator_rules) = true.
Proof. by vm_compute. Qed.
Lemma fold_quotes_plain q v : q ∉ v -> fold_quotes q v = v.
Proof. induction v as [|c v IH]; [done|]. intros [H1 H2]%not_elem_of_cons. cbn [fold_quotes]. destruct (Z.eqb_spec c q); [done|]. by rewrite IH. Qed.
Lemma lex_string v rest : 39 ∉ v -> ends (fun c => c =? 39) rest -> lex ((39 :: v ++ [39]) ++ rest) = STRING v :: lex rest.
Proof.
  intros Hv He. assert (STRING v = STRING (fold_quotes 39 (inner (39 :: v ++ [39])))) as ->.
  { unfold inner. rewrite zlen_cons, zlen_app, zlen_cons, zlen_nil. change (39 :: v ++ [39]) with ([39] ++ v ++ [39]). rewrite slice_app_r by done. change (zlen [39]) with 1.
    rewrite Z.sub_diag. rewrite slice_app_l by lia. by rewrite fold_quotes_plain. }
  apply (lex_step _ _ (fun t => STRING (fold_quotes 39 (inner t)))).
  change initial_rules with ((keyword_rules ++ take 3 literal_rules) ++ mkRule (quoted 39) (Return (fun t => STRING (fold_quotes 39 (inner t)))) :: drop 4 literal_rules ++ id_rule :: operator_rules).
  assert (forall r m, r ∈ keyword_rules ++ take 3 literal_rules ++ drop 4 literal_rules ++ id_rule :: take 9 operator_rules -> (0 < m)%nat ->
    ~ matches (pat r) (take m ((39 :: v ++ [39]) ++ rest))) as Hno.
  { intros r m Hr%list_elem_of_In Hm. apply no_begin; [done|]. pose proof quote_others as H. rewrite forallb_forall in H. specialize (H r Hr). by apply negb_true_iff in H. }
  apply (next_spec _ (mkRule (quoted 39) _)); [rewrite length_app; lia|rewrite take_whole; by apply quoted_plain| |].
  - intros r m Hr Hm. apply Hno; [|cbn [length] in Hm; lia]. rewrite app_assoc. apply elem_of_app. by left.
  - intros r m Hr Hm. assert (pat r = quoted 39 \/ r ∈ keyword_rules ++ take 3 literal_rules ++ drop 4 literal_rules ++ id_rule :: take 9 operator_rules \/ exists p, pat r = Class p) as [->|[Hb|[p ->]]].
    { apply elem_of_cons in Hr as [->|Hr]; [by left|right]. apply elem_of_app in Hr as [Hr|[->|Hr]%elem_of_cons].
      - left. rewrite app_assoc. apply elem_of_app. right. apply elem_of_app. by left.
      - left. rewrite app_assoc. apply elem_of_app. right. apply elem_of_app. right. by left.
      - rewrite <- (take_drop 9 operator_rules) in Hr. apply elem_of_app in Hr as [Hr|Hr].
        + left. rewrite app_assoc. apply elem_of_app. right. apply elem_of_app. right. by right.
        + right. apply list_elem_of_singleton in Hr as ->. by eexists. }
    + rewrite length_app in Hm. destruct rest as [|c rest]; [cbn in Hm; lia|]. cbn [ends] in He. apply Z.eqb_neq in He.
      rewrite take_app_ge by lia. replace (m - _)%nat with (S (m - length (39 :: v ++ [39]) - 1)) by lia. cbn [take app]. rewrite <- app_assoc. by apply quoted_ends.
    + apply Hno; [done|lia].
    + apply no_class. cbn [length] in Hm. lia.
Qed.

(** ** Fixed text *)
Definition derivs (t : bytes) (r : regex) : regex := fold_left (fun r c => deriv c r) t r.
(** The pattern that is left matches nothing of [rest] but the empty text, or nothing at all. *)
Definition settled (rest : bytes) (r : regex) : bool :=
  match r with Nothing | Nil => true | _ => match rest with [] => true | c :: _ => is_nothing (deriv c r) end end.
Lemma longest_settled t : forall rest r, settled rest (derivs t r) = true -> longest r (t ++ rest) = longest r t.
Proof.
  induction t as [|c t IH]; intros rest r Hs.
  - cbn [derivs fold_left] in Hs. cbn [app]. destruct rest as [|c rest]; [done|]. unfold settled in Hs.
    assert (forall r', is_nothing r' = true -> longest r' rest = None) as Hn by (intros [] ?; by destruct rest). destruct r; cbn [longest is_nothing]; try done.
    + cbn [deriv]. by rewrite Hn.
    + by rewrite Hn.
    + by rewrite Hn.
    + by rewrite Hn.
    + by rewrite Hn.
  - cbn [app longest]. rewrite (IH rest (deriv c r)); [done|]. exact Hs.
Qed.
Lemma next_settled rules t rest : forallb (fun r => settled rest (derivs t (pat r))) rules = true -> @next action rules (t ++ rest) = next rules t.
Proof. induction rules as [|r rules IH]; [done|]. cbn [forallb]. intros [H1 H2]%andb_true_iff. cbn [next]. by rewrite longest_settled, IH. Qed.
Lemma lex_fixed t rest f : forallb (fun r => settled rest (derivs t (pat r))) initial_rules = true -> next initial_rules t = Some (length t, Return f) ->
  lex (t ++ rest) = f t :: lex rest.
Proof. intros Hs Hn. apply lex_step. by rewrite next_settled. Qed.
Lemma lex_sym c rest : c ∈ str "+*(),;" -> lex (c :: rest) = char_token c :: lex rest.
Proof.
  intros Hc. assert (forallb (fun r => settled rest (derivs [c] (pat r))) initial_rules = true /\ next initial_rules [c] = Some (1%nat, Return (fun t => char_token (default 0 (head t))))) as [H1 H2].
  { change (str "+*(),;") with [43; 42; 40; 41; 44; 59] in Hc. repeat (apply elem_of_cons in Hc as [->|Hc]; [by split; vm_compute|]). by apply not_elem_of_nil in Hc. }
  apply (lex_fixed [c] rest (fun t => char_token (default 0 (head t)))); done.
Qed.
Lemma lex_minus c rest : c <> 45 -> lex (45 :: c :: rest) = P_SUB :: lex (c :: rest).
Proof.
  intros Hc. apply (lex_fixed [45] (c :: rest) (fun t => char_token (default 0 (head t)))); [|by vm_compute].
  change initial_rules with ((keyword_rules ++ literal_rules ++ id_rule :: take 7 operator_rules) ++ mkRule (Cat (Lit (str "--")) (Star (Class (fun c => negb (c =? 10))))) Skip :: drop 8 operator_rules).
  rewrite forallb_app. apply andb_true_iff. split; [by vm_compute|]. cbn [forallb]. apply andb_true_iff. split; [|by vm_compute].
  change (settled (c :: rest) (Cat (Cat (Class (fun d => lower d =? 45)) Nil) (Star (Class (fun c => negb (c =? 10))))) = true). cbn [settled deriv nullable andb].
  assert ((lower c =? 45) = false) as -> by (apply Z.eqb_neq; unfold lower; destruct ((65 <=? c) && (c <=? 90)) eqn:E; lia). done.
Qed.
Lemma lex_space c rest : ws c = false -> lex (32 :: c :: rest) = lex (c :: rest).
Proof.
  intros Hc. apply (lex_skip [32] (c :: rest)). rewrite next_settled; [by vm_compute|].
  change initial_rules with ((keyword_rules ++ literal_rules ++ id_rule :: take 6 operator_rules) ++ mkRule (Plus (Class ws)) Skip :: drop 7 operator_rules).
  rewrite forallb_app. apply andb_true_iff. split; [by vm_compute|]. cbn [forallb]. apply andb_true_iff. split; [|by vm_compute].
  change (settled (c :: rest) (Star (Class ws)) = true). cbn [settled deriv]. by rewrite Hc.
Qed.
