(* ===== verification/Grammar.v ===== *)
(** The grammar of SQL (src/parser/parser.y) and the entry of the parser (src/parser/sql_parser.cpp). The grammar is the relation at the end of
    the file, a constructor per production; the parser is deterministic, descends over the productions, and settles what they leave open by
    the precedences the grammar declares. Positions and the text of an error are left out: a parse fails or gives its first statement. *)
From S2P Require Import Prelude Types Text Decimal Expr Bind Stmt Meta Lexer.

Record TypeInfo := mkTypeInfo { ti_type : string; ti_length : option Z; ti_scale : option Z }.
Definition cast_expr (e : Expr) (t : TypeInfo) : Expr := CastExpr e (ti_type t) (ti_length t) (ti_scale t).
(** What is parsed, and the tokens that are left. *)
Abbreviation parser A := (list token -> option (A * list token)) (only parsing).
Definition expect (t : token) (ts : list token) : option (list token) := match ts with t' :: ts => if decide (t' = t) then Some ts else None | [] => None end.

(** * Types *)
(** [int_token] and [int_length]: a whole number out of range is a syntax error. *)
Definition int_length : parser Z := fun ts =>
  match ts with INTEGER s :: ts => n ← from_chars_i64 s; Some (n, ts) | _ => None end.
Definition plain_type (t : token) : option string :=
  match t with
  | INT => Some "int" | BIGINT => Some "bigint" | FLOAT => Some "float" | DOUBLE => Some "double" | BOOLEAN => Some "boolean" | BOOL => Some "bool"
  | _ => None
  end%string.
Definition len_type (t : token) : option string := match t with CHAR => Some "char" | VARCHAR => Some "varchar" | _ => None end%string.
Definition prec_type (t : token) : option string := match t with NUMERIC => Some "numeric" | DECIMAL => Some "decimal" | _ => None end%string.
Definition type_specifier : parser TypeInfo := fun ts =>
  match ts with
  | [] => None
  | t :: ts =>
      match plain_type t, len_type t, prec_type t with
      | Some n, _, _ => Some (mkTypeInfo n None None, ts)
      | _, Some n, _ =>
          match expect P_LP ts with
          | Some ts => '(l, ts) ← int_length ts; ts ← expect P_RP ts; Some (mkTypeInfo n (Some l) None, ts)
          | None => Some (mkTypeInfo n None None, ts)
          end
      | _, _, Some n =>
          match expect P_LP ts with
          | Some ts =>
              '(l, ts) ← int_length ts;
              match expect P_COMMA ts with
              | Some ts => '(s, ts) ← int_length ts; ts ← expect P_RP ts; Some (mkTypeInfo n (Some l) (Some s), ts)
              | None => ts ← expect P_RP ts; Some (mkTypeInfo n (Some l) None, ts)
              end
          | None => Some (mkTypeInfo n None None, ts)
          end
      | _, _, _ => None
      end
  end.

(** * Expressions *)
(** The precedences: OR < AND < NOT < IS, BETWEEN < comparisons < sums < products < signs. *)
Definition OR_PREC := 1%nat.
Definition AND_PREC := 2%nat.
Definition NOT_PREC := 3%nat.
Definition IS_PREC := 4%nat.
Definition CMP_PREC := 5%nat.
Definition ADD_PREC := 6%nat.
Definition MUL_PREC := 7%nat.
Definition SIGN_PREC := 8%nat.
Definition arith_op (t : token) : option (nat * ArithOp) :=
  match t with
  | P_ADD => Some (ADD_PREC, OpAdd) | P_SUB => Some (ADD_PREC, OpSub) | P_MUL => Some (MUL_PREC, OpMul) | P_DIV => Some (MUL_PREC, OpDiv)
  | _ => None
  end.
Definition cmp_op (t : token) : option CmpOp :=
  match t with EQ => Some CmpEq | NE => Some CmpNe | P_LT => Some CmpLt | LE => Some CmpLe | P_GT => Some CmpGt | GE => Some CmpGe | _ => None end.
(** How a token begins an operand: the token is the operand, or a sign, or one of the longer forms. *)
Inductive operand_kind := OConst (e : Expr) | OSign (plus : bool) | ONot | OParen | OCast | OIdent (n : string) | ONone.
Definition operand_of (t : token) : operand_kind :=
  match t with
  | INTEGER s => OConst (IntExpr s)
  | FLOAT_NUM s => OConst (FloatExpr s)
  | DECIMAL_NUM s => OConst (DecimalExpr s)
  | STRING s => OConst (StringExpr s)
  | NULL_T => OConst NullExpr
  | TRUE_T => OConst (BoolExpr true)
  | FALSE_T => OConst (BoolExpr false)
  | P_ADD => OSign true
  | P_SUB => OSign false
  | NOT => ONot
  | P_LP => OParen
  | CAST => OCast
  | IDENTIFIER n => OIdent n
  | _ => ONone
  end.
(** How a token goes on with the expression before it. *)
Inductive infix_kind := IBinary (l : nat) (mk : Expr -> Expr -> Expr) | IIs | IBetween | INot | INone.
Definition infix_of (t : token) : infix_kind :=
  match arith_op t, cmp_op t, t with
  | Some (l, op), _, _ => IBinary l (BinaryOpExpr op)
  | _, Some op, _ => IBinary CMP_PREC (CompareExpr op)
  | _, _, AND => IBinary AND_PREC (LogicExpr LAnd)
  | _, _, OR => IBinary OR_PREC (LogicExpr LOr)
  | _, _, IS => IIs
  | _, _, BETWEEN => IBetween
  | _, _, NOT => INot
  | _, _, _ => INone
  end.
(** Comparisons do not associate: [a = b = c] is an error. *)
Definition is_cmp (t : token) : bool := match cmp_op t with Some _ => true | None => false end.
Definition starts_cmp (ts : list token) : bool := match ts with t :: _ => is_cmp t | [] => false end.

(** [expression]: an operand and what follows it, taking only operators of precedence [m] and above. *)
Fixpoint expression_at (fuel : nat) (m : nat) (ts : list token) : option (Expr * list token) :=
  match fuel with
  | O => None
  | S fuel =>
      match ts with
      | [] => None
      | t :: ts =>
          match operand_of t with
          | OConst e => infix fuel m e ts
          | OSign plus => '(e, ts) ← expression_at fuel SIGN_PREC ts; infix fuel m (UnaryOpExpr plus e) ts
          | ONot => '(e, ts) ← expression_at fuel (S NOT_PREC) ts; infix fuel m (NotExpr e) ts
          | OParen => '(e, ts) ← expression_at fuel 0 ts; ts ← expect P_RP ts; infix fuel m e ts
          | OCast =>
              ts ← expect P_LP ts; '(e, ts) ← expression_at fuel 0 ts; ts ← expect AS ts; '(ty, ts) ← type_specifier ts; ts ← expect P_RP ts;
              infix fuel m (cast_expr e ty) ts
          | OIdent n =>
              match expect P_LP ts with
              | Some ts => '(args, ts) ← func_args fuel ts; ts ← expect P_RP ts; infix fuel m (FuncCallExpr n args) ts
              | None => infix fuel m (IdentifierExpr n) ts
              end
          | ONone => None
          end
      end
  end
(** [func_args]: none, or some; a comma may stand before the first, because the list an argument is added to may be the empty one. *)
with func_args (fuel : nat) (ts : list token) : option (list Expr * list token) :=
  match fuel with
  | O => None
  | S fuel =>
      if expect P_RP ts then Some ([], ts)
      else if expect P_COMMA ts then more_args fuel ts
      else '(e, ts) ← expression_at fuel 0 ts; '(es, ts) ← more_args fuel ts; Some (e :: es, ts)
  end
with more_args (fuel : nat) (ts : list token) : option (list Expr * list token) :=
  match fuel with
  | O => None
  | S fuel =>
      match expect P_COMMA ts with
      | Some ts => '(e, ts) ← expression_at fuel 0 ts; '(es, ts) ← more_args fuel ts; Some (e :: es, ts)
      | None => Some ([], ts)
      end
  end
(** What may follow an expression: an operator it is the left operand of. *)
with infix (fuel : nat) (m : nat) (e : Expr) (ts : list token) : option (Expr * list token) :=
  match fuel with
  | O => None
  | S fuel =>
      match ts with
      | [] => Some (e, [])
      | t :: ts' =>
          match infix_of t with
          | IBinary l mk =>
              if (m <=? l)%nat then
                '(r, ts) ← expression_at fuel (S l) ts';
                if is_cmp t && starts_cmp ts then None else infix fuel m (mk e r) ts
              else Some (e, ts)
          | IIs =>
              if (m <=? IS_PREC)%nat then
                match expect NOT ts' with
                | Some ts => ts ← expect NULL_T ts; infix fuel m (IsNullExpr e true) ts
                | None => ts ← expect NULL_T ts'; infix fuel m (IsNullExpr e false) ts
                end
              else Some (e, ts)
          | IBetween => if (m <=? IS_PREC)%nat then '(b, ts) ← between fuel e ts'; infix fuel m b ts else Some (e, ts)
          | INot => if (m <=? NOT_PREC)%nat then ts ← expect BETWEEN ts'; '(b, ts) ← between fuel e ts; infix fuel m (NotExpr b) ts else Some (e, ts)
          | INone => Some (e, ts)
          end
      end
  end
(** The bounds of a BETWEEN. *)
with between (fuel : nat) (e : Expr) (ts : list token) : option (Expr * list token) :=
  match fuel with
  | O => None
  | S fuel => '(lo, ts) ← between_operand fuel 0 ts; ts ← expect AND ts; '(hi, ts) ← between_operand fuel 0 ts; Some (BetweenExpr e lo hi, ts)
  end
with between_operand (fuel : nat) (m : nat) (ts : list token) : option (Expr * list token) :=
  match fuel with
  | O => None
  | S fuel =>
      match ts with
      | [] => None
      | t :: ts =>
          match operand_of t with
          | OConst e => between_infix fuel m e ts
          | OSign plus => '(e, ts) ← between_operand fuel SIGN_PREC ts; between_infix fuel m (UnaryOpExpr plus e) ts
          | OParen => '(e, ts) ← expression_at fuel 0 ts; ts ← expect P_RP ts; between_infix fuel m e ts
          | OCast =>
              ts ← expect P_LP ts; '(e, ts) ← expression_at fuel 0 ts; ts ← expect AS ts; '(ty, ts) ← type_specifier ts; ts ← expect P_RP ts;
              between_infix fuel m (cast_expr e ty) ts
          | OIdent n => between_infix fuel m (IdentifierExpr n) ts
          | ONot | ONone => None
          end
      end
  end
with between_infix (fuel : nat) (m : nat) (e : Expr) (ts : list token) : option (Expr * list token) :=
  match fuel with
  | O => None
  | S fuel =>
      match ts with
      | [] => Some (e, [])
      | t :: ts' =>
          match arith_op t with
          | Some (l, op) => if (m <=? l)%nat then '(r, ts) ← between_operand fuel (S l) ts'; between_infix fuel m (BinaryOpExpr op e r) ts else Some (e, ts)
          | None => Some (e, ts)
          end
      end
  end.
(** Two calls for a token are enough: only a first argument and the bounds of a BETWEEN are read by a call that takes none itself. *)
Definition expression : parser Expr := fun ts => expression_at (2 * length ts + 2) 0 ts.

Example demo_prec : expression (lex (str "NOT a = 1 + b * -2 AND c IS NOT NULL OR d BETWEEN 1 AND (2) + 3"))
  = Some (LogicExpr LOr
      (LogicExpr LAnd (NotExpr (CompareExpr CmpEq (IdentifierExpr "a") (BinaryOpExpr OpAdd (IntExpr (str "1")) (BinaryOpExpr OpMul (IdentifierExpr "b") (UnaryOpExpr false (IntExpr (str "2")))))))
         (IsNullExpr (IdentifierExpr "c") true))
      (BetweenExpr (IdentifierExpr "d") (IntExpr (str "1")) (BinaryOpExpr OpAdd (IntExpr (str "2")) (IntExpr (str "3")))), []).
Proof. by vm_compute. Qed.
Example demo_nonassoc : expression (lex (str "a < b < c")) = None.
Proof. by vm_compute. Qed.

(** * Statements *)
Definition identifier : parser string := fun ts => match ts with IDENTIFIER n :: ts => Some (n, ts) | _ => None end.
Definition qualified_name : parser QualifiedName := fun ts =>
  '(a, ts) ← identifier ts;
  match expect P_DOT ts with Some ts => '(b, ts) ← identifier ts; Some (mkQName a b, ts) | None => Some (mkQName "" a, ts) end.
(** A list with commas, one item at least. *)
Fixpoint more_items {A} (p : parser A) (fuel : nat) (ts : list token) : option (list A * list token) :=
  match fuel with
  | O => None
  | S fuel =>
      match expect P_COMMA ts with
      | Some ts => '(x, ts) ← p ts; '(xs, ts) ← more_items p fuel ts; Some (x :: xs, ts)
      | None => Some ([], ts)
      end
  end.
Definition items {A} (p : parser A) : parser (list A) := fun ts => '(x, ts) ← p ts; '(xs, ts) ← more_items p (S (length ts)) ts; Some (x :: xs, ts).
Definition not_null_opt : parser bool := fun ts => match expect NOT ts with Some ts => ts ← expect NULL_T ts; Some (true, ts) | None => Some (false, ts) end.
Definition column_definition : parser ColumnDef := fun ts =>
  '(n, ts) ← identifier ts; '(ty, ts) ← type_specifier ts; '(nn, ts) ← not_null_opt ts; Some (mkDef n (ti_type ty) (ti_length ty) (ti_scale ty) nn, ts).
Definition where_opt : parser (option Expr) := fun ts => match expect WHERE ts with Some ts => '(e, ts) ← expression ts; Some (Some e, ts) | None => Some (None, ts) end.
Definition update_assignment : parser UpdateItem := fun ts => '(n, ts) ← identifier ts; ts ← expect EQ ts; '(e, ts) ← expression ts; Some (mkItem n e, ts).
Definition alias_opt : parser string := fun ts => match expect AS ts with Some ts => identifier ts | None => Some (""%string, ts) end.
Definition select_item : parser SelectItem := fun ts => '(e, ts) ← expression ts; '(a, ts) ← alias_opt ts; Some (ExprItem e a, ts).
Definition select_list : parser (list SelectItem) := fun ts => match expect P_MUL ts with Some ts => Some ([StarItem], ts) | None => items select_item ts end.
Definition order_dir : parser bool := fun ts => 
  match expect ASC ts, expect DESC ts with Some ts, _ => Some (false, ts) | _, Some ts => Some (true, ts) | _, _ => Some (false, ts) end.
Definition order_item : parser OrderItem := fun ts => '(e, ts) ← expression ts; '(d, ts) ← order_dir ts; Some (mkOrderItem e d, ts).
Definition order_by_opt : parser (list OrderItem) := fun ts => match expect ORDER ts with Some ts => ts ← expect BY ts; items order_item ts | None => Some ([], ts) end.
Definition columns_opt : parser (list string) := fun ts =>
  match expect P_LP ts with Some ts => '(cs, ts) ← items identifier ts; ts ← expect P_RP ts; Some (cs, ts) | None => Some ([], ts) end.
Definition value_row : parser (list Expr) := fun ts => ts ← expect P_LP ts; '(vs, ts) ← items expression ts; ts ← expect P_RP ts; Some (vs, ts).
Definition int_value (s : bytes) (negate : bool) : option (string * SetValueForm) :=
  n ← from_chars_i64 s; Some (name_of (format_int (if negate then - n else n)), SvInt).
Definition set_value : parser (string * SetValueForm) := fun ts =>
  match ts with
  | INTEGER s :: ts => v ← int_value s false; Some (v, ts)
  | P_SUB :: INTEGER s :: ts => v ← int_value s true; Some (v, ts)
  | P_ADD :: INTEGER s :: ts => v ← int_value s false; Some (v, ts)
  | IDENTIFIER n :: ts => Some ((n, SvIdent), ts)
  | STRING v :: ts => Some ((name_of v, SvStr), ts)
  | _ => None
  end.
Definition create_statement : parser SQLStatement := fun ts =>
  match ts with
  | TABLE :: ts => '(q, ts) ← qualified_name ts; ts ← expect P_LP ts; '(ds, ts) ← items column_definition ts; ts ← expect P_RP ts; Some (CreateTableStmt q ds, ts)
  | SCHEMA :: ts => '(n, ts) ← identifier ts; Some (CreateSchemaStmt n, ts)
  | INDEX :: ts =>
      '(i, ts) ← identifier ts; ts ← expect ON ts; '(q, ts) ← qualified_name ts; ts ← expect P_LP ts; '(c, ts) ← identifier ts; ts ← expect P_RP ts;
      Some (CreateIndexStmt i q c, ts)
  | _ => None
  end.
Definition drop_statement : parser SQLStatement := fun ts =>
  match ts with
  | TABLE :: ts => '(q, ts) ← qualified_name ts; Some (DropTableStmt q, ts)
  | SCHEMA :: ts => '(n, ts) ← identifier ts; Some (DropSchemaStmt n, ts)
  | INDEX :: ts => '(i, ts) ← identifier ts; ts ← expect ON ts; '(q, ts) ← qualified_name ts; Some (DropIndexStmt i q, ts)
  | _ => None
  end.
Definition insert_statement : parser SQLStatement := fun ts =>
  ts ← expect INTO ts; '(q, ts) ← qualified_name ts; '(cs, ts) ← columns_opt ts; ts ← expect VALUES ts; '(rs, ts) ← items value_row ts; Some (InsertStmt q cs rs, ts).
Definition delete_statement : parser SQLStatement := fun ts =>
  ts ← expect FROM ts; '(q, ts) ← qualified_name ts; '(w, ts) ← where_opt ts; Some (DeleteStmt q w, ts).
Definition update_statement : parser SQLStatement := fun ts =>
  '(q, ts) ← qualified_name ts; ts ← expect SET ts; '(us, ts) ← items update_assignment ts; '(w, ts) ← where_opt ts; Some (UpdateStmt q us w, ts).
Definition select_statement : parser SQLStatement := fun ts =>
  '(l, ts) ← select_list ts;
  match expect FROM ts with
  | Some ts => '(q, ts) ← qualified_name ts; '(w, ts) ← where_opt ts; '(o, ts) ← order_by_opt ts; Some (SelectStmt q false l w o None None, ts)
  | None => '(w, ts) ← where_opt ts; '(o, ts) ← order_by_opt ts; Some (SelectNoFromStmt l w o, ts)
  end.
(** [explainable_statement]. *)
Fixpoint explainable (ts : list token) : option (SQLStatement * list token) :=
  match ts with
  | CREATE :: ts => create_statement ts
  | DROP :: ts => drop_statement ts
  | INSERT :: ts => insert_statement ts
  | DELETE :: ts => delete_statement ts
  | UPDATE :: ts => update_statement ts
  | SELECT :: ts => select_statement ts
  | EXPLAIN :: ts => '(s, ts) ← explainable ts; Some (ExplainStmt s, ts)
  | _ => None
  end.
Definition skip_opt (t : token) (ts : list token) : list token := default ts (expect t ts).
(** [statement]: besides those, what is not explained. *)
Definition statement : parser SQLStatement := fun ts =>
  match ts with
  | SET :: ts => '(n, ts) ← identifier ts; ts ← expect EQ ts; '(v, ts) ← set_value ts; Some (SetStmt n v.1 v.2, ts)
  | BEGIN_TXN :: ts => Some (BeginStmt, skip_opt TRANSACTION ts)
  | START :: ts => ts ← expect TRANSACTION ts; Some (BeginStmt, ts)
  | COMMIT :: ts => Some (CommitStmt, skip_opt WORK ts)
  | ROLLBACK :: ts => Some (RollbackStmt, skip_opt WORK ts)
  | _ => explainable ts
  end.
(** [input]: statements and empty statements, each with its semicolon; the first statement is kept. *)
Fixpoint input (fuel : nat) (found : option SQLStatement) (ts : list token) : option (option SQLStatement) :=
  match fuel with
  | O => None
  | S fuel =>
      if is_nil ts then Some found
      else
        match expect P_SEMI ts with
        | Some ts => input fuel found ts
        | None => '(s, ts) ← statement ts; ts ← expect P_SEMI ts; input fuel (match found with None => Some s | Some _ => found end) ts
        end
  end.
Definition parse_tokens (ts : list token) : option (option SQLStatement) := input (S (length ts)) None ts.
(** [sql::parse]: [None] is a syntax error. *)
Definition sql_parse (stmt : bytes) : option (option SQLStatement) := parse_tokens (lex stmt).

Example demo_select : sql_parse (str "; select a, f(b) as c from s.t where a > 0 order by a desc, c; commit work;")
  = Some (Some (SelectStmt (mkQName "s" "t") false [ExprItem (IdentifierExpr "a") ""; ExprItem (FuncCallExpr "f" [IdentifierExpr "b"]) "c"]
      (Some (CompareExpr CmpGt (IdentifierExpr "a") (IntExpr (str "0")))) [mkOrderItem (IdentifierExpr "a") true; mkOrderItem (IdentifierExpr "c") false] None None)).
Proof. by vm_compute. Qed.
Example demo_create : sql_parse (str "explain create table t (id int not null, n numeric(10, 2), s varchar(20));")
  = Some (Some (ExplainStmt (CreateTableStmt (mkQName "" "t") [mkDef "id" "int" None None true; mkDef "n" "numeric" (Some 10) (Some 2) false; mkDef "s" "varchar" (Some 20) None false]))).
Proof. by vm_compute. Qed.
Example demo_errors : sql_parse (str "commit") = None /\ sql_parse (str "explain commit;") = None /\ sql_parse (str "commit; select;") = None /\ sql_parse (str " -- nothing") = Some None.
Proof. by vm_compute. Qed.
(** A comma before the first argument is let through. *)
Example demo_comma : sql_parse (str "select f(, 1);") = sql_parse (str "select f(1);").
Proof. by vm_compute. Qed.
(** NOT before NOT BETWEEN takes the operand alone. *)
Example demo_not_between : expression (lex (str "NOT a NOT BETWEEN 1 AND 2")) =
  Some (NotExpr (BetweenExpr (NotExpr (IdentifierExpr "a")) (IntExpr (str "1")) (IntExpr (str "2"))), []).
Proof. by vm_compute. Qed.
