(* ===== verification/Parsing.v ===== *)
(** The parser of expressions is exact: it accepts the texts of the trees that are grouped as the grammar's precedences ask for, and no others,
    and gives their expression. Its fuel is enough. *)
From S2P Require Import Prelude Types Text Decimal Expr Bind Stmt Meta Lexer Grammar.

(** * Fuel *)
(** Invert a parse that succeeded: the parts it is made of. *)
Lemma obind_some {A B} (o : option A) (f : A -> option B) b : (o ≫= f) = Some b <-> exists a, o = Some a /\ f a = Some b.
Proof. destruct o; cbn; [|split; [done|by intros (a & ? & _)]]. split; [eauto|by intros (a' & [= <-] & ?)]. Qed.
Ltac parsed :=
  repeat match goal with
  | H : (_ ≫= _) = Some _ |- _ => apply obind_some in H as (? & ? & H)
  | x : (_ * _)%type |- _ => destruct x; cbn beta iota in *
  | H : Some _ = Some _ |- _ => injection H as H; try subst
  | H : None = Some _ |- _ => discriminate H
  | H : (_, _) = (_, _) |- _ => injection H as ? ?; try subst
  | H : context [match expect ?t ?ts with _ => _ end] |- _ => let E := fresh "E" in destruct (expect t ts) eqn:E
  end.
Lemma expect_some t ts us : expect t ts = Some us <-> ts = t :: us.
Proof. destruct ts as [|t' ts]; cbn [expect]; [by split|]. case_decide as E; split; [by intros [= ->]; subst|by intros [= -> ->]|done|by intros [= -> ->]]. Qed.
Lemma expect_hit t ts : expect t (t :: ts) = Some ts.
Proof. by apply expect_some. Qed.
Lemma expect_miss t u ts : u <> t -> expect t (u :: ts) = None.
Proof. intros H. cbn [expect]. by rewrite decide_False. Qed.
Lemma int_length_shorter ts n us : int_length ts = Some (n, us) -> (length us < length ts)%nat.
Proof. destruct ts as [|[] ts]; try done. cbn [int_length]. intros H. parsed. cbn. lia. Qed.
Ltac shorter :=
  repeat match goal with
  | H : expect _ _ = Some _ |- _ => apply expect_some in H; try subst
  | H : int_length _ = Some _ |- _ => apply int_length_shorter in H
  end; cbn [length] in *; lia.
Lemma type_shorter ts ty us : type_specifier ts = Some (ty, us) -> (length us < length ts)%nat.
Proof.
  destruct ts as [|t ts]; [done|]. cbn [type_specifier length]. destruct (plain_type t); [intros H; parsed; lia|].
  destruct (len_type t); [|destruct (prec_type t); [|done]]; intros H; parsed; shorter.
Qed.
(** A call that succeeds leaves fewer tokens, and succeeds alike with any fuel that the tokens it is given call for. *)
Definition good {A} (call : nat -> list token -> option (A * list token)) (strict : nat) (extra : nat) (fuel : nat) : Prop :=
  forall ts a us, call fuel ts = Some (a, us) -> (length us + strict <= length ts)%nat /\ forall fuel', (2 * length ts + extra <= fuel')%nat -> call fuel' ts = Some (a, us).
Definition all_good (fuel : nat) : Prop :=
  (forall m, good (fun f => expression_at f m) 1 2 fuel) /\ good func_args 0 3 fuel /\ good more_args 0 2 fuel /\
  (forall m e, good (fun f => infix f m e) 0 2 fuel) /\ (forall e, good (fun f => between f e) 1 3 fuel) /\
  (forall m, good (fun f => between_operand f m) 1 2 fuel) /\ (forall m e, good (fun f => between_infix f m e) 0 2 fuel).
(** Use what is known of a call with the fuel below. *)
Ltac good_calls IH :=
  let H1 := fresh in let H2 := fresh in let H3 := fresh in let H4 := fresh in let H5 := fresh in let H6 := fresh in let H7 := fresh in
  destruct IH as (H1 & H2 & H3 & H4 & H5 & H6 & H7);
  repeat match goal with
  | H : expression_at _ ?m _ = Some _ |- _ => apply (H1 m) in H as [? H]
  | H : func_args _ _ = Some _ |- _ => apply H2 in H as [? H]
  | H : more_args _ _ = Some _ |- _ => apply H3 in H as [? H]
  | H : infix _ ?m ?e _ = Some _ |- _ => apply (H4 m e) in H as [? H]
  | H : between _ ?e _ = Some _ |- _ => apply (H5 e) in H as [? H]
  | H : between_operand _ ?m _ = Some _ |- _ => apply (H6 m) in H as [? H]
  | H : between_infix _ ?m ?e _ = Some _ |- _ => apply (H7 m e) in H as [? H]
  | H : type_specifier _ = Some _ |- _ => pose proof (type_shorter _ _ _ H); revert H
  | H : expect _ _ = Some _ |- _ => pose proof H as ?%expect_some; revert H; try subst
  end; intros.
(** Run the call with more fuel, part by part. *)
Ltac rerun :=
  repeat match goal with
  | H : expect ?t ?ts = _ |- context [expect ?t ?ts] => rewrite H; cbn [mbind option_bind]
  | H : type_specifier ?ts = _ |- context [type_specifier ?ts] => rewrite H; cbn [mbind option_bind]
  | H : forall fuel', _ -> ?c fuel' ?ts = Some _ |- context [?c _ ?ts] => rewrite H by (cbn [length] in *; lia); cbn [mbind option_bind]
  | H : forall fuel', _ -> ?c fuel' ?m ?ts = Some _ |- context [?c _ ?m ?ts] => rewrite H by (cbn [length] in *; lia); cbn [mbind option_bind]
  | H : forall fuel', _ -> ?c fuel' ?m ?e ?ts = Some _ |- context [?c _ ?m ?e ?ts] => rewrite H by (cbn [length] in *; lia); cbn [mbind option_bind]
  end.
Lemma calls_good fuel : all_good fuel.
Proof.
  induction fuel as [|fuel IH]; [split_and!; by intros|]. unfold all_good, good. cbn [expression_at func_args more_args infix between between_operand between_infix]. split_and!.
  - intros m [|t ts] a us H; [done|]. destruct (operand_of t) eqn:Et; parsed; try done; good_calls IH;
      (split; [cbn [length] in *; lia|intros [|fuel'] Hf; [cbn in Hf; lia|]; cbn [expression_at]; rewrite Et; by rerun]).
  - intros ts a us H. parsed; good_calls IH; (split; [cbn [length] in *; lia|intros [|fuel'] Hf; [cbn in Hf; lia|]; cbn [func_args]; by rerun]).
  - intros ts a us H. parsed; good_calls IH; (split; [cbn [length] in *; lia|intros [|fuel'] Hf; [cbn in Hf; lia|]; cbn [more_args]; by rerun]).
  - intros m e [|t ts] a us H.
    { injection H as <- <-. split; [done|]. by intros [|fuel'] Hf; [cbn in Hf; lia|]. }
    destruct (infix_of t) eqn:Et; try destruct (m <=? _)%nat eqn:Em; parsed; try destruct (is_cmp t && starts_cmp _) eqn:Ec; parsed; try done; good_calls IH;
      (split; [cbn [length] in *; lia|intros [|fuel'] Hf; [cbn in Hf; lia|]; cbn [infix]; rewrite Et, ?Em; rerun; rewrite ?Ec; by rerun]).
  - intros e ts a us H. parsed; good_calls IH; (split; [cbn [length] in *; lia|intros [|fuel'] Hf; [cbn in Hf; lia|]; cbn [between]; by rerun]).
  - intros m [|t ts] a us H; [done|]. destruct (operand_of t) eqn:Et; parsed; try done; good_calls IH;
      (split; [cbn [length] in *; lia|intros [|fuel'] Hf; [cbn in Hf; lia|]; cbn [between_operand]; rewrite Et; by rerun]).
  - intros m e [|t ts] a us H.
    { injection H as <- <-. split; [done|]. by intros [|fuel'] Hf; [cbn in Hf; lia|]. }
    destruct (arith_op t) as [[l op]|] eqn:Et; try destruct (m <=? _)%nat eqn:Em; parsed; try done; good_calls IH;
      (split; [cbn [length] in *; lia|intros [|fuel'] Hf; [cbn in Hf; lia|]; cbn [between_infix]; rewrite Et, ?Em; by rerun]).
Qed.

(** * Trees *)
(** How the tokens of an expression are grouped: a node per production of [expression] and [between_operand]. *)
Inductive spells : list token -> TypeInfo -> Prop :=
| SpellPlain t n : plain_type t = Some n -> spells [t] (mkTypeInfo n None None)
| SpellLen t n : len_type t = Some n -> spells [t] (mkTypeInfo n None None)
| SpellLenN t n s l : len_type t = Some n -> from_chars_i64 s = Some l -> spells [t; P_LP; INTEGER s; P_RP] (mkTypeInfo n (Some l) None)
| SpellPrec t n : prec_type t = Some n -> spells [t] (mkTypeInfo n None None)
| SpellPrecN t n s l : prec_type t = Some n -> from_chars_i64 s = Some l -> spells [t; P_LP; INTEGER s; P_RP] (mkTypeInfo n (Some l) None)
| SpellPrecNS t n s l s' l' : prec_type t = Some n -> from_chars_i64 s = Some l -> from_chars_i64 s' = Some l' ->
    spells [t; P_LP; INTEGER s; P_COMMA; INTEGER s'; P_RP] (mkTypeInfo n (Some l) (Some l')).
Inductive tree :=
| TConst (t : token)
| TIdent (n : string)
| TCall (n : string) (lead : bool) (args : list tree)
| TCast (c : tree) (us : list token) (ty : TypeInfo)
| TParen (c : tree)
| TSign (t : token) (c : tree)
| TNot (c : tree)
| TBinary (t : token) (a b : tree)
| TIsNull (c : tree) (negate : bool)
| TBetween (c lo hi : tree)
| TNotBetween (c lo hi : tree).
Section tree_ind.
Context (P : tree -> Prop).
Context (HConst : forall t, P (TConst t)) (HIdent : forall n, P (TIdent n)) (HCall : forall n lead args, Forall P args -> P (TCall n lead args)).
Context (HCast : forall c us ty, P c -> P (TCast c us ty)) (HParen : forall c, P c -> P (TParen c)) (HSign : forall t c, P c -> P (TSign t c)).
Context (HNot : forall c, P c -> P (TNot c)) (HBinary : forall t a b, P a -> P b -> P (TBinary t a b)) (HIsNull : forall c n, P c -> P (TIsNull c n)).
Context (HBetween : forall c lo hi, P c -> P lo -> P hi -> P (TBetween c lo hi)) (HNotBetween : forall c lo hi, P c -> P lo -> P hi -> P (TNotBetween c lo hi)).
Fixpoint tree_ind' (c : tree) : P c :=
  match c with
  | TConst t => HConst t
  | TIdent n => HIdent n
  | TCall n lead args =>
      HCall n lead args ((fix go l : Forall P l := match l with [] => List.Forall_nil P | x :: l => List.Forall_cons P x l (tree_ind' x) (go l) end) args)
  | TCast c us ty => HCast c us ty (tree_ind' c)
  | TParen c => HParen c (tree_ind' c)
  | TSign t c => HSign t c (tree_ind' c)
  | TNot c => HNot c (tree_ind' c)
  | TBinary t a b => HBinary t a b (tree_ind' a) (tree_ind' b)
  | TIsNull c n => HIsNull c n (tree_ind' c)
  | TBetween c lo hi => HBetween c lo hi (tree_ind' c) (tree_ind' lo) (tree_ind' hi)
  | TNotBetween c lo hi => HNotBetween c lo hi (tree_ind' c) (tree_ind' lo) (tree_ind' hi)
  end.
End tree_ind.

Definition commas (l : list (list token)) : list token := concat ((fun u => P_COMMA :: u) <$> l).
(** The text of a list of arguments; [lead]: with a comma before the first. *)
Definition args_text (lead : bool) (l : list (list token)) : list token := if lead then commas l else match l with [] => [] | u :: l => u ++ commas l end.
Fixpoint yield (c : tree) : list token :=
  match c with
  | TConst t => [t]
  | TIdent n => [IDENTIFIER n]
  | TCall n lead args => IDENTIFIER n :: P_LP :: args_text lead (yield <$> args) ++ [P_RP]
  | TCast c us _ => CAST :: P_LP :: yield c ++ AS :: us ++ [P_RP]
  | TParen c => P_LP :: yield c ++ [P_RP]
  | TSign t c => t :: yield c
  | TNot c => NOT :: yield c
  | TBinary t a b => yield a ++ t :: yield b
  | TIsNull c negate => yield c ++ IS :: (if negate then [NOT] else []) ++ [NULL_T]
  | TBetween c lo hi => yield c ++ BETWEEN :: yield lo ++ AND :: yield hi
  | TNotBetween c lo hi => yield c ++ NOT :: BETWEEN :: yield lo ++ AND :: yield hi
  end.
Fixpoint ast (c : tree) : Expr :=
  match c with
  | TConst t => match operand_of t with OConst e => e | _ => NullExpr end
  | TIdent n => IdentifierExpr n
  | TCall n _ args => FuncCallExpr n (ast <$> args)
  | TCast c _ ty => cast_expr (ast c) ty
  | TParen c => ast c
  | TSign t c => UnaryOpExpr (match operand_of t with OSign plus => plus | _ => true end) (ast c)
  | TNot c => NotExpr (ast c)
  | TBinary t a b => match infix_of t with IBinary _ mk => mk (ast a) (ast b) | _ => NullExpr end
  | TIsNull c negate => IsNullExpr (ast c) negate
  | TBetween c lo hi => BetweenExpr (ast c) (ast lo) (ast hi)
  | TNotBetween c lo hi => NotExpr (BetweenExpr (ast c) (ast lo) (ast hi))
  end.

(** ** Precedence *)
Definition prec_of (t : token) : option nat :=
  match infix_of t with IBinary l _ => Some l | IIs | IBetween => Some IS_PREC | INot => Some NOT_PREC | INone => None end.
Definition below (t : token) (l : nat) : Prop := match prec_of t with Some p => (p <= l)%nat | None => True end.
(** The operators along the left edge have precedence [m] at least. *)
Fixpoint opens (c : tree) (m : nat) : Prop :=
  match c with
  | TBinary t a _ => match prec_of t with Some l => (m <= l)%nat | None => False end /\ opens a m
  | TIsNull c _ | TBetween c _ _ => (m <= IS_PREC)%nat /\ opens c m
  | TNotBetween c _ _ => (m <= NOT_PREC)%nat /\ opens c m
  | _ => True
  end.
(** The operators along the right edge are not weaker than [t], the token that follows: none of them would rather have [t] in its operand. *)
Fixpoint closes (c : tree) (t : token) : Prop :=
  match c with
  | TIdent _ => t <> P_LP
  | TSign _ c => closes c t
  | TNot c => below t NOT_PREC /\ closes c t
  | TBinary t' _ b => match prec_of t' with Some l => below t l | None => False end /\ is_cmp t' && is_cmp t = false /\ closes b t
  | TBetween _ _ _ | TNotBetween _ _ _ => arith_op t = None
  | _ => True
  end.
(** A bound of BETWEEN is built from operands by arithmetic alone. *)
Fixpoint arithmetic (c : tree) : Prop :=
  match c with
  | TConst _ | TIdent _ | TCast _ _ _ | TParen _ => True
  | TSign _ c => arithmetic c
  | TBinary t a b => is_Some (arith_op t) /\ arithmetic a /\ arithmetic b
  | _ => False
  end.
(** The grouping is the one the declarations of precedence and associativity ask for. *)
Fixpoint grouped (c : tree) : Prop :=
  match c with
  | TConst t => exists e, operand_of t = OConst e
  | TIdent _ => True
  | TCall _ lead args => foldr (fun c => and (grouped c)) True args /\ (lead = true -> args <> [])
  | TCast c us ty => grouped c /\ spells us ty
  | TParen c => grouped c
  | TSign t c => (exists plus, operand_of t = OSign plus) /\ grouped c /\ opens c SIGN_PREC
  | TNot c => grouped c /\ opens c (S NOT_PREC)
  | TBinary t a b => (exists l mk, infix_of t = IBinary l mk /\ opens b (S l)) /\ grouped a /\ closes a t /\ grouped b
  | TIsNull c _ => grouped c /\ closes c IS
  | TBetween c lo hi => (grouped c /\ closes c BETWEEN) /\ (grouped lo /\ arithmetic lo) /\ grouped hi /\ arithmetic hi
  | TNotBetween c lo hi => (grouped c /\ closes c NOT) /\ (grouped lo /\ arithmetic lo) /\ grouped hi /\ arithmetic hi
  end.
(** What follows [c] where operators of precedence [m] and above were taken: nothing [c] goes on with. *)
Definition stops (m : nat) (c : tree) (rest : list token) : Prop :=
  match rest with [] => True | t :: _ => closes c t /\ match prec_of t with Some p => (p < m)%nat | None => True end end.
Definition stops_bound (m : nat) (c : tree) (rest : list token) : Prop :=
  match rest with [] => True | t :: _ => match arith_op t with Some (p, _) => closes c t /\ (p < m)%nat | None => True end end.
Definition closes_rest (c : tree) (rest : list token) : Prop := match rest with [] => True | t :: _ => closes c t end.
Definition closes_bound (c : tree) (rest : list token) : Prop := match rest with [] => True | t :: _ => is_Some (arith_op t) -> closes c t end.

(** ** The parser groups so *)
Lemma type_sound ts ty rest : type_specifier ts = Some (ty, rest) -> exists us, ts = us ++ rest /\ spells us ty.
Proof.
  assert (forall ts n us, int_length ts = Some (n, us) -> exists s, ts = INTEGER s :: us /\ from_chars_i64 s = Some n) as Hi.
  { intros [|[] us] n vs; try done. cbn [int_length]. intros H. parsed. eauto. }
  destruct ts as [|t ts]; [done|]. cbn [type_specifier].
  destruct (plain_type t) eqn:E1; [intros H; parsed; exists [t]; by split; [|apply SpellPlain]|].
  destruct (len_type t) eqn:E2; [|destruct (prec_type t) eqn:E3; [|done]]; intros H; parsed;
    repeat match goal with H : int_length _ = _ |- _ => apply Hi in H as (? & -> & ?) | H : expect _ _ = Some _ |- _ => apply expect_some in H; subst end.
  - eexists [_; _; _; _]. by split; [|apply SpellLenN].
  - exists [t]. by split; [|apply SpellLen].
  - eexists [_; _; _; _; _; _]. by split; [|apply SpellPrecNS].
  - eexists [_; _; _; _]. by split; [|apply SpellPrecN].
  - exists [t]. by split; [|apply SpellPrec].
Qed.
Lemma type_complete us ty rest : spells us ty -> expect P_LP rest = None -> type_specifier (us ++ rest) = Some (ty, rest).
Proof.
  assert (forall t n, len_type t = Some n -> plain_type t = None) as H1 by (by intros []).
  assert (forall t n, prec_type t = Some n -> plain_type t = None /\ len_type t = None) as H2 by (by intros []).
  assert (forall s l us, from_chars_i64 s = Some l -> int_length (INTEGER s :: us) = Some (l, us)) as H3 by (by intros s l ws E; cbn [int_length]; rewrite E).
  assert (forall us, expect P_COMMA (P_RP :: us) = None) as H4 by done.
  intros H Hr. destruct H as [t n E|t n E|t n s l E El|t n E|t n s l E El|t n s l s' l' E El El']; cbn [app type_specifier];
    rewrite ?(H1 _ _ E), ?(proj1 (H2 _ _ E)), ?(proj2 (H2 _ _ E)), ?E, ?Hr, ?expect_hit; [done..| |done| |];
    rewrite (H3 _ _ _ El); cbn [mbind option_bind]; rewrite ?H4, ?expect_hit; [done..|].
  rewrite (H3 _ _ _ El'). cbn [mbind option_bind]. by rewrite expect_hit.
Qed.
Lemma arith_infix t l op : arith_op t = Some (l, op) -> infix_of t = IBinary l (BinaryOpExpr op) /\ prec_of t = Some l /\ is_cmp t = false.
Proof. by destruct t; intros [= <- <-]. Qed.
Definition sound_expr (f : nat) : Prop := forall m ts e rest, expression_at f m ts = Some (e, rest) ->
  exists c, ts = yield c ++ rest /\ ast c = e /\ grouped c /\ opens c m /\ stops m c rest.
Definition sound_more (f : nat) : Prop := forall ts es rest, more_args f ts = Some (es, rest) ->
  exists cs, ts = commas (yield <$> cs) ++ rest /\ es = ast <$> cs /\ Forall grouped cs /\ expect P_COMMA rest = None.
Definition sound_args (f : nat) : Prop := forall ts es rest, func_args f ts = Some (es, rest) ->
  exists lead cs, ts = args_text lead (yield <$> cs) ++ rest /\ es = ast <$> cs /\ Forall grouped cs /\ (lead = true -> cs <> []).
Definition sound_infix (f : nat) : Prop := forall m e0 ts e rest, infix f m e0 ts = Some (e, rest) ->
  forall c, ast c = e0 -> grouped c -> opens c m -> closes_rest c ts ->
  exists c', yield c ++ ts = yield c' ++ rest /\ ast c' = e /\ grouped c' /\ opens c' m /\ stops m c' rest.
Definition sound_between (f : nat) : Prop := forall e ts b rest, between f e ts = Some (b, rest) ->
  exists lo hi, ts = yield lo ++ AND :: yield hi ++ rest /\ b = BetweenExpr e (ast lo) (ast hi) /\ (grouped lo /\ arithmetic lo) /\ (grouped hi /\ arithmetic hi) /\ stops_bound 0 hi rest.
Definition sound_operand (f : nat) : Prop := forall m ts e rest, between_operand f m ts = Some (e, rest) ->
  exists c, ts = yield c ++ rest /\ ast c = e /\ (grouped c /\ arithmetic c) /\ opens c m /\ stops_bound m c rest.
Definition sound_arith (f : nat) : Prop := forall m e0 ts e rest, between_infix f m e0 ts = Some (e, rest) ->
  forall c, ast c = e0 -> grouped c -> arithmetic c -> opens c m -> closes_bound c ts ->
  exists c', yield c ++ ts = yield c' ++ rest /\ ast c' = e /\ (grouped c' /\ arithmetic c') /\ opens c' m /\ stops_bound m c' rest.
Definition all_sound (f : nat) : Prop := sound_expr f /\ sound_more f /\ sound_args f /\ sound_infix f /\ sound_between f /\ sound_operand f /\ sound_arith f.

Lemma prec_bound t p : prec_of t = Some p -> (p <= MUL_PREC)%nat.
Proof. destruct t; intros [= <-]; unfold MUL_PREC, OR_PREC, AND_PREC, NOT_PREC, IS_PREC, CMP_PREC, ADD_PREC; lia. Qed.
Lemma stops_closes m c rest : stops m c rest -> closes_rest c rest.
Proof. destruct rest; [done|by intros []]. Qed.
Lemma stops_bound_closes m c rest : stops_bound m c rest -> closes_bound c rest.
Proof. destruct rest as [|t rest]; [done|]. cbn. destruct (arith_op t) as [[p op]|]; [by intros []|by intros _ []]. Qed.
Lemma foldr_grouped cs : foldr (fun c => and (grouped c)) True cs <-> Forall grouped cs.
Proof. induction cs as [|c cs IH]; cbn; [by split; [constructor|]|]. rewrite IH. split; [intros []; by constructor|by intros []%Forall_cons_1]. Qed.
(** A tree that is complete takes no notice of what follows. *)
Definition complete (c : tree) : Prop := match c with TConst _ | TCall _ _ _ | TCast _ _ _ | TParen _ | TIsNull _ _ => True | _ => False end.
Lemma complete_closes c rest : complete c -> closes_rest c rest /\ closes_bound c rest.
Proof. by destruct c, rest; cbn; try done; intros _; split. Qed.
Lemma ident_closes n rest : expect P_LP rest = None -> closes_rest (TIdent n) rest.
Proof. destruct rest as [|t rest]; [done|]. cbn [closes_rest closes]. by intros H ->. Qed.
Lemma ident_closes_bound n rest : closes_bound (TIdent n) rest.
Proof. destruct rest as [|t rest]; [done|]. cbn. by intros [] ->. Qed.
(** The new node over an operand that was read at the precedence of its right edge. *)
Lemma sign_closes t c rest : stops SIGN_PREC c rest -> closes_rest (TSign t c) rest.
Proof. by apply stops_closes. Qed.
Lemma sign_closes_bound t c rest : stops_bound SIGN_PREC c rest -> closes_bound (TSign t c) rest.
Proof. intros H%stops_bound_closes. by destruct rest. Qed.
Lemma not_closes c rest : stops (S NOT_PREC) c rest -> closes_rest (TNot c) rest.
Proof. destruct rest as [|t rest]; [done|]. cbn. unfold below. destruct (prec_of t); intros []; (split; [lia|done]) || done. Qed.
Lemma binary_closes t l mk a b rest : infix_of t = IBinary l mk -> stops (S l) b rest -> is_cmp t && starts_cmp rest = false -> closes_rest (TBinary t a b) rest.
Proof.
  intros Ht. destruct rest as [|u rest]; [done|]. cbn [stops closes_rest closes starts_cmp]. intros [H1 H2] H3.
  assert (prec_of t = Some l) as -> by (unfold prec_of; by rewrite Ht). split; [|done]. unfold below. destruct (prec_of u); [lia|done].
Qed.
Lemma between_closes c lo hi rest : stops_bound 0 hi rest -> closes_rest (TBetween c lo hi) rest /\ closes_rest (TNotBetween c lo hi) rest.
Proof. destruct rest as [|t rest]; [done|]. cbn. destruct (arith_op t) as [[p op]|]; [intros []; lia|done]. Qed.
Lemma arith_closes t l op a b rest : arith_op t = Some (l, op) -> stops_bound (S l) b rest -> closes_bound (TBinary t a b) rest.
Proof.
  intros Ht. destruct rest as [|u rest]; [done|]. cbn [stops_bound closes_bound closes]. intros H [[p op'] Hu]. rewrite Hu in H. destruct H as [H1 H2].
  destruct (arith_infix _ _ _ Ht) as (_ & -> & ->). destruct (arith_infix _ _ _ Hu) as (_ & Hp & _). unfold below. rewrite Hp. split; [lia|done].
Qed.
Lemma yield_nil c : yield c <> [].
Proof. destruct c; cbn; try done; by destruct (yield _). Qed.

Lemma infix_stop m c t ts : closes c t -> (forall p, prec_of t = Some p -> (p < m)%nat) -> stops m c (t :: ts).
Proof. intros H1 H2. split; [done|]. destruct (prec_of t); [by apply H2|done]. Qed.
(** Go on from the tree [c0] that was read. *)
Ltac tidy := cbn [yield app] in *; repeat (rewrite <- app_assoc in * || cbn [app] in * ).
Ltac goes_on H c0 :=
  let c := fresh "c" in let E := fresh "E" in
  destruct (H c0) as (c & E & ?); [..|exists c; split; [tidy; first [exact E|rewrite <- E; reflexivity]|done]].
Ltac read_type := match goal with H : type_specifier _ = Some _ |- _ => apply type_sound in H as (? & ? & ?) end.
Ltac expected := repeat match goal with H : expect _ _ = Some _ |- _ => apply expect_some in H; subst end.
Lemma sound_step_expr f : all_sound f -> sound_expr (S f).
Proof.
  intros (HE & _ & HA & HI & _ & _ & _) m [|t ts] e rest H; [done|]. cbn [expression_at] in H. destruct (operand_of t) as [e0|plus| | | |n|] eqn:Et; parsed; try done.
  - apply HI in H. goes_on H (TConst t); [cbn [ast]; by rewrite Et|by exists e0|done|by apply complete_closes].
  - apply HE in H0 as (c & -> & <- & C1 & C2 & C3). apply HI in H. goes_on H (TSign t c); [cbn [ast]; by rewrite Et|by split; [exists plus|]|done|by apply sign_closes].
  - apply HE in H0 as (c & -> & <- & C1 & C2 & C3). assert (t = NOT) as -> by (by destruct t). apply HI in H. goes_on H (TNot c); [done|done|done|by apply not_closes].
  - apply HE in H0 as (c & -> & <- & C1 & C2 & C3). assert (t = P_LP) as -> by (by destruct t). expected. apply HI in H. goes_on H (TParen c); [done|done|done|by apply complete_closes].
  - expected. read_type. apply HE in H1 as (c & -> & <- & C1 & C2 & C3). assert (t = CAST) as -> by (by destruct t). subst. expected.
    apply HI in H. match goal with Hs : spells ?us ?ty |- _ => goes_on H (TCast c us ty); [done|done|done|by apply complete_closes] end.
  - assert (t = IDENTIFIER n) as -> by (by destruct t; try discriminate Et; injection Et as ->). expected. apply HA in H0 as (lead & cs & -> & -> & C1 & C2). apply HI in H.
    goes_on H (TCall n lead cs); [done|split; [by apply foldr_grouped|done]|done|by apply complete_closes].
  - assert (t = IDENTIFIER n) as -> by (by destruct t; try discriminate Et; injection Et as ->). apply HI in H. goes_on H (TIdent n); [done..|by apply ident_closes].
Qed.
Lemma sound_step_more f : all_sound f -> sound_more (S f).
Proof.
  intros (HE & HM & _) ts es rest H. cbn [more_args] in H. parsed.
  - expected. apply HE in H0 as (c & -> & <- & C1 & _). apply HM in H1 as (cs & -> & -> & C4 & C5). exists (c :: cs). unfold commas. cbn. tidy. split_and!; [done..|by constructor|done].
  - exists []. split_and!; [done..|constructor|done].
Qed.
Lemma sound_step_args f : all_sound f -> sound_args (S f).
Proof.
  intros (HE & HM & _) ts es rest H. cbn [func_args] in H. parsed.
  - exists false, []. split_and!; [done..|constructor|done].
  - apply HM in H as (cs & -> & -> & C1 & C2). exists true, cs. split_and!; [done..|]. intros _ ->. cbn in E0. congruence.
  - apply HE in H0 as (c & -> & <- & C1 & _). apply HM in H1 as (cs & -> & -> & C4 & C5). exists false, (c :: cs). cbn [args_text fmap list_fmap]. tidy. split_and!; [done..|by constructor|done].
Qed.
Lemma sound_step_infix f : all_sound f -> sound_infix (S f).
Proof.
  intros (HE & _ & _ & HI & HB & _) m e0 [|t ts] e rest H c Hc Hg Ho Hcl; cbn [infix] in H.
  { injection H as <- <-. by exists c. }
  assert ((forall p, prec_of t = Some p -> (p < m)%nat) -> Some (e0, t :: ts) = Some (e, rest) ->
    exists c', yield c ++ t :: ts = yield c' ++ rest /\ ast c' = e /\ grouped c' /\ opens c' m /\ stops m c' rest) as Hstop.
  { intros Hp [= <- <-]. exists c. split_and!; [done..|]. by apply infix_stop. }
  unfold prec_of in Hstop. destruct (infix_of t) as [l mk| | | |] eqn:Et; [..|by apply Hstop in H];
    match type of H with context [(m <=? ?l)%nat] => destruct (Nat.leb_spec m l) as [Hl|Hl]; [|by apply Hstop in H; [|intros p [= <-]]] end.
  - parsed. destruct (is_cmp t && starts_cmp _) eqn:Ec; [done|]. apply HE in H0 as (b & -> & <- & B1 & B2 & B3). apply HI in H.
    goes_on H (TBinary t c b).
    + cbn [ast]. rewrite Et. congruence.
    + cbn [grouped]. split_and!; [by exists l, mk|done|by cbn in Hcl|done].
    + cbn [opens]. unfold prec_of. rewrite Et. done.
    + by eapply binary_closes.
  - assert (t = IS) as -> by (by destruct t). parsed; expected; apply HI in H.
    + goes_on H (TIsNull c true); [cbn; congruence|done|done|by apply complete_closes].
    + goes_on H (TIsNull c false); [cbn; congruence|done|done|by apply complete_closes].
  - assert (t = BETWEEN) as -> by (by destruct t). parsed. apply HB in H0 as (lo & hi & -> & -> & B1 & B2 & B3). apply HI in H.
    goes_on H (TBetween c lo hi); [cbn; congruence|done|done|by apply between_closes].
  - assert (t = NOT) as -> by (by destruct t). parsed. expected. apply HB in H1 as (lo & hi & -> & -> & B1 & B2 & B3). apply HI in H.
    goes_on H (TNotBetween c lo hi); [cbn; congruence|done|done|by apply between_closes].
Qed.
Lemma sound_step_between f : all_sound f -> sound_between (S f).
Proof.
  intros (_ & _ & _ & _ & _ & HO & _) e ts b rest H. cbn [between] in H. parsed. expected.
  apply HO in H0 as (lo & -> & <- & L1 & L2 & L3). apply HO in H2 as (hi & -> & <- & M1 & M2 & M3). exists lo, hi. by repeat split; try apply L1; try apply M1.
Qed.
Lemma sound_step_operand f : all_sound f -> sound_operand (S f).
Proof.
  intros (HE & _ & _ & _ & _ & HO & HI) m [|t ts] e rest H; [done|]. cbn [between_operand] in H. destruct (operand_of t) as [e0|plus| | | |n|] eqn:Et; parsed; try done.
  - apply HI in H. goes_on H (TConst t); [cbn [ast]; by rewrite Et|by exists e0|done|done|by apply complete_closes].
  - apply HO in H0 as (c & -> & <- & [C1 C2] & C3 & C4). apply HI in H. goes_on H (TSign t c); [cbn [ast]; by rewrite Et|by split; [exists plus|]|done|done|by apply sign_closes_bound].
  - apply HE in H0 as (c & -> & <- & C1 & C2 & C3). assert (t = P_LP) as -> by (by destruct t). expected. apply HI in H. goes_on H (TParen c); [done|done|done|done|by apply complete_closes].
  - expected. read_type. apply HE in H1 as (c & -> & <- & C1 & C2 & C3). assert (t = CAST) as -> by (by destruct t). subst. expected.
    apply HI in H. match goal with Hs : spells ?us ?ty |- _ => goes_on H (TCast c us ty); [done|done|done|done|by apply complete_closes] end.
  - assert (t = IDENTIFIER n) as -> by (by destruct t; try discriminate Et; injection Et as ->). apply HI in H. goes_on H (TIdent n); [done..|by apply ident_closes_bound].
Qed.
Lemma sound_step_arith f : all_sound f -> sound_arith (S f).
Proof.
  intros (_ & _ & _ & _ & _ & HO & HI) m e0 [|t ts] e rest H c Hc Hg Ha Ho Hcl; cbn [between_infix] in H.
  { injection H as <- <-. by exists c. }
  destruct (arith_op t) as [[l op]|] eqn:Et.
  - destruct (arith_infix _ _ _ Et) as (T1 & T2 & T3). assert (closes c t) as Hct by (apply Hcl; by eexists). destruct (Nat.leb_spec m l) as [Hl|Hl].
    + parsed. apply HO in H0 as (b & -> & <- & [B1 B2] & B3 & B4). apply HI in H. goes_on H (TBinary t c b).
      * cbn [ast]. rewrite T1. congruence.
      * cbn [grouped]. split_and!; [by exists l, (BinaryOpExpr op)|done..].
      * cbn [arithmetic]. rewrite Et. split_and!; [by eexists|done..].
      * cbn [opens]. by rewrite T2.
      * by eapply arith_closes.
    + injection H as <- <-. exists c. split_and!; [done..|]. cbn. by rewrite Et.
  - injection H as <- <-. exists c. split_and!; [done..|]. cbn. by rewrite Et.
Qed.
Lemma parser_sound f : all_sound f.
Proof.
  induction f as [|f IH]; [split_and!; by repeat intro|].
  split_and!; [by apply sound_step_expr|by apply sound_step_more|by apply sound_step_args|by apply sound_step_infix|by apply sound_step_between|by apply sound_step_operand|by apply sound_step_arith].
Qed.

(** ** Every tree that is grouped so is parsed *)
Definition R_expr m ts r := forall f, (2 * length ts + 2 <= f)%nat -> expression_at f m ts = Some r.
Definition R_more ts r := forall f, (2 * length ts + 2 <= f)%nat -> more_args f ts = Some r.
Definition R_args ts r := forall f, (2 * length ts + 3 <= f)%nat -> func_args f ts = Some r.
Definition R_infix m e ts r := forall f, (2 * length ts + 2 <= f)%nat -> infix f m e ts = Some r.
Definition R_between e ts r := forall f, (2 * length ts + 3 <= f)%nat -> between f e ts = Some r.
Definition R_operand m ts r := forall f, (2 * length ts + 2 <= f)%nat -> between_operand f m ts = Some r.
Definition R_arith m e ts r := forall f, (2 * length ts + 2 <= f)%nat -> between_infix f m e ts = Some r.
Lemma closes_neutral c t : grouped c -> prec_of t = None -> t <> P_LP -> closes c t.
Proof.
  intros Hg Hp Hl. assert (arith_op t = None /\ is_cmp t = false) as [Ha Hc] by (by destruct t).
  induction c as [t'|n|n lead args _|c us ty _|c _|t' c IH|c IH|t' a b _ IHb|c n _|c lo hi _ _ _|c lo hi _ _ _] using tree_ind'; cbn [closes grouped] in *; try done.
  - by apply IH, Hg.
  - split; [unfold below; by rewrite Hp|by apply IH, Hg].
  - destruct Hg as ((l & mk & Ht & _) & _ & _ & Hb). unfold prec_of at 1. rewrite Ht. split; [unfold below; by rewrite Hp|]. rewrite Hc, andb_false_r. split; [done|by apply IHb].
Qed.
Lemma closes_rest_neutral c t rest : grouped c -> prec_of t = None -> t <> P_LP -> closes_rest c (t :: rest).
Proof. apply closes_neutral. Qed.
Lemma stop_infix m e rest : match rest with [] => True | t :: _ => match prec_of t with Some p => (p < m)%nat | None => True end end -> R_infix m e rest (e, rest).
Proof.
  intros H [|f] Hf; [lia|]. cbn [infix]. destruct rest as [|t rest]; [done|]. unfold prec_of in H.
  destruct (infix_of t); try done; rewrite (proj2 (Nat.leb_gt _ _)) by lia; done.
Qed.
Lemma stop_arith m e rest : match rest with [] => True | t :: _ => match arith_op t with Some (p, _) => (p < m)%nat | None => True end end -> R_arith m e rest (e, rest).
Proof.
  intros H [|f] Hf; [lia|]. cbn [between_infix]. destruct rest as [|t rest]; [done|]. destruct (arith_op t) as [[p op]|]; [|done]. by rewrite (proj2 (Nat.leb_gt _ _)) by lia.
Qed.
Lemma below_stop (t : token) l rest : match rest with [] => True | t :: _ => below t l end ->
  match rest with [] => True | t :: _ => match prec_of t with Some p => (p < S l)%nat | None => True end end.
Proof. destruct rest as [|u rest]; [done|]. unfold below. destruct (prec_of u); [lia|done]. Qed.
Lemma yield_start c : grouped c -> exists t us, yield c = t :: us /\ operand_of t <> ONone.
Proof.
  induction c as [t'|n|n lead args _|c us ty _|c _|t' c IH|c IH|t' a b IHa _|c n IH|c lo hi IH _ _|c lo hi IH _ _] using tree_ind'; cbn [yield grouped]; intros Hg;
    try (destruct IH as (t & us & E & Ho); [apply Hg|]; rewrite E; cbn [app]; by eexists _, _); try (by eexists _, _).
  - destruct Hg as [e He]. exists t', []. rewrite He. done.
  - destruct Hg as [[plus Hp] _]. exists t', (yield c). by rewrite Hp.
  - destruct Hg as (_ & Hg & _). destruct (IHa Hg) as (t & us & E & Ho). rewrite E. cbn [app]. by eexists _, _.
Qed.
Lemma start_not t c rest : grouped c -> operand_of t = ONone -> expect t (yield c ++ rest) = None.
Proof.
  intros Hg Ht. destruct (yield_start c Hg) as (t' & us & -> & Ho). cbn [app expect]. case_decide; [|done]. congruence.
Qed.
(** Take the fuel of one call. *)
Ltac step f call := intros [|f] ?Hf; [cbn [length] in *; lia|]; cbn [call].
Ltac fuel := repeat (rewrite length_app in * || cbn [length] in * ); lia.
Definition complete_expr (c : tree) : Prop := forall m rest r, grouped c -> opens c m -> closes_rest c rest -> R_infix m (ast c) rest r -> R_expr m (yield c ++ rest) r.
Definition complete_operand (c : tree) : Prop := forall m rest r, grouped c -> arithmetic c -> opens c m -> closes_bound c rest -> R_arith m (ast c) rest r -> R_operand m (yield c ++ rest) r.
Lemma opens_0 c : grouped c -> opens c 0.
Proof.
  induction c as [t'|n|n lead args _|c us ty _|c _|t' c IH|c IH|t' a b IHa _|c n IH|c lo hi IH _ _|c lo hi IH _ _] using tree_ind'; cbn [opens grouped]; intros Hg; try done;
    try (split; [lia|by apply IH, Hg]).
  destruct Hg as ((l & mk & Ht & _) & Hg & _). unfold prec_of. rewrite Ht. split; [lia|by apply IHa].
Qed.
(** An expression where a bracket closes it. *)
Lemma bracketed c t rest : complete_expr c -> grouped c -> prec_of t = None -> t <> P_LP -> R_expr 0 (yield c ++ t :: rest) (ast c, t :: rest).
Proof.
  intros Hc Hg Hp Hl. apply Hc; [done|by apply opens_0|by apply closes_neutral|]. apply stop_infix. by rewrite Hp.
Qed.
Lemma commas_cons u l rest : commas (u :: l) ++ rest = P_COMMA :: u ++ commas l ++ rest.
Proof. unfold commas. cbn [fmap list_fmap concat app]. by rewrite <- app_assoc. Qed.
Lemma commas_start l rest : exists t us, commas l ++ P_RP :: rest = t :: us /\ prec_of t = None /\ t <> P_LP.
Proof. destruct l as [|u l]; [by eexists _, _|]. rewrite commas_cons. by eexists _, _. Qed.
Lemma more_complete cs rest : Forall (fun c => complete_expr c /\ grouped c) cs -> R_more (commas (yield <$> cs) ++ P_RP :: rest) (ast <$> cs, P_RP :: rest).
Proof.
  induction 1 as [|c cs [Hc Hg] _ IH]; step f @more_args; [done|]. cbn [fmap list_fmap] in *. rewrite commas_cons in *. rewrite expect_hit.
  destruct (commas_start (yield <$> cs) rest) as (t & us & E & Hp & Hl). rewrite E in *.
  rewrite (bracketed c t us Hc Hg Hp Hl) by fuel. cbn [mbind option_bind]. by rewrite IH by fuel.
Qed.
Lemma args_complete lead cs rest : Forall (fun c => complete_expr c /\ grouped c) cs -> (lead = true -> cs <> []) ->
  R_args (args_text lead (yield <$> cs) ++ P_RP :: rest) (ast <$> cs, P_RP :: rest).
Proof.
  intros Hcs Hl. step f @func_args. destruct lead; cbn [args_text] in *.
  - destruct cs as [|c cs]; [by destruct (Hl eq_refl)|]. pose proof (more_complete _ rest Hcs) as Hm. cbn [fmap list_fmap] in *. rewrite commas_cons in *.
    rewrite expect_miss by done. rewrite expect_hit. apply Hm. fuel.
  - destruct cs as [|c cs]; [done|]. cbn [fmap list_fmap] in *. apply Forall_cons_1 in Hcs as [[Hc Hg] Hcs]. rewrite <- app_assoc in *. rewrite !start_not by done.
    pose proof (more_complete _ rest Hcs) as Hm. destruct (commas_start (yield <$> cs) rest) as (t & us & E & Hp & Hlp). rewrite E in *.
    rewrite (bracketed c t us Hc Hg Hp Hlp) by fuel. cbn [mbind option_bind]. by rewrite Hm by fuel.
Qed.
Lemma between_complete c lo hi rest : (grouped lo /\ arithmetic lo) /\ complete_operand lo -> (grouped hi /\ arithmetic hi) /\ complete_operand hi ->
  closes_rest (TBetween c lo hi) rest -> R_between (ast c) (yield lo ++ AND :: yield hi ++ rest) (ast (TBetween c lo hi), rest).
Proof.
  intros [[L1 L2] L3] [[H1 H2] H3] Hr. step f @between.
  rewrite (L3 0%nat (AND :: yield hi ++ rest) (ast lo, AND :: yield hi ++ rest)); [|done|done|by apply opens_0|by intros []|by apply stop_arith|fuel].
  cbn [mbind option_bind]. rewrite expect_hit. cbn [mbind option_bind].
  rewrite (H3 0%nat rest (ast hi, rest)); [done|done|done|by apply opens_0| |apply stop_arith|fuel].
  - destruct rest as [|t rest]; [done|]. cbn in *. rewrite Hr. by intros [].
  - destruct rest as [|t rest]; [done|]. cbn in *. by rewrite Hr.
Qed.
Lemma type_here us ty rest : spells us ty -> type_specifier (us ++ P_RP :: rest) = Some (ty, P_RP :: rest).
Proof. intros H. by apply type_complete. Qed.
Lemma closes_binary_stop t l mk a b rest : infix_of t = IBinary l mk -> closes_rest (TBinary t a b) rest ->
  closes_rest b rest /\ is_cmp t && starts_cmp rest = false /\ R_infix (S l) (ast b) rest (ast b, rest).
Proof.
  intros Ht Hr. assert (prec_of t = Some l) as Hp by (unfold prec_of; by rewrite Ht). destruct rest as [|u rest].
  - split_and!; [done|by rewrite andb_false_r|by apply stop_infix].
  - cbn [closes_rest closes] in Hr. rewrite Hp in Hr. destruct Hr as (H1 & H2 & H3). split_and!; [done..|]. apply stop_infix. unfold below in H1. destruct (prec_of u); [lia|done].
Qed.
Lemma complete_expr_all c : complete_expr c /\ complete_operand c.
Proof.
  induction c as [t|n|n lead args IH|c us ty [IH _]|c [IH _]|t c [IHe IHo]|c [IH _]|t a b [IHa IHa'] [IHb IHb']|c n [IH _]|c lo hi [IH _] [_ IHl] [_ IHh]|c lo hi [IH _] [_ IHl] [_ IHh]] using tree_ind';
    (split; [intros m rest r Hg Ho Hc Hr|intros m rest r Hg Ha Ho Hc Hr]; cbn [yield ast] in *; try (by destruct Ha)).
  - destruct Hg as [e He]. rewrite He in Hr. cbn [app]. step f @expression_at. rewrite He. apply Hr. fuel.
  - destruct Hg as [e He]. rewrite He in Hr. cbn [app]. step f @between_operand. rewrite He. apply Hr. fuel.
  - cbn [app]. step f @expression_at. cbn [operand_of]. assert (expect P_LP rest = None) as -> by (destruct rest; [done|by apply expect_miss]). apply Hr. fuel.
  - cbn [app]. step f @between_operand. cbn [operand_of]. apply Hr. fuel.
  - cbn [app]. step f @expression_at. cbn [operand_of]. rewrite expect_hit. rewrite <- app_assoc in *. cbn [app] in *. destruct Hg as [Hg Hl]. apply foldr_grouped in Hg.
    rewrite args_complete; [|apply list.Forall_and; split; [revert IH; apply List.Forall_impl; by intros x []|done]|done|fuel]. cbn [mbind option_bind]. rewrite expect_hit. cbn [mbind option_bind]. apply Hr. fuel.
  - cbn [app]. step f @expression_at. cbn [operand_of]. rewrite expect_hit. cbn [mbind option_bind]. repeat (rewrite <- app_assoc in * || cbn [app] in * ). destruct Hg as [Hg Hs].
    rewrite (bracketed c AS) by (done || fuel). cbn [mbind option_bind]. rewrite expect_hit. cbn [mbind option_bind]. rewrite (type_here us ty) by done. cbn [mbind option_bind].
    rewrite expect_hit. cbn [mbind option_bind]. apply Hr. fuel.
  - cbn [app]. step f @between_operand. cbn [operand_of]. rewrite expect_hit. cbn [mbind option_bind]. repeat (rewrite <- app_assoc in * || cbn [app] in * ). destruct Hg as [Hg Hs].
    rewrite (bracketed c AS) by (done || fuel). cbn [mbind option_bind]. rewrite expect_hit. cbn [mbind option_bind]. rewrite (type_here us ty) by done. cbn [mbind option_bind].
    rewrite expect_hit. cbn [mbind option_bind]. apply Hr. fuel.
  - cbn [app]. step f @expression_at. cbn [operand_of]. repeat (rewrite <- app_assoc in * || cbn [app] in * ).
    rewrite (bracketed c P_RP) by (done || fuel). cbn [mbind option_bind]. rewrite expect_hit. cbn [mbind option_bind]. apply Hr. fuel.
  - cbn [app]. step f @between_operand. cbn [operand_of]. repeat (rewrite <- app_assoc in * || cbn [app] in * ).
    rewrite (bracketed c P_RP) by (done || fuel). cbn [mbind option_bind]. rewrite expect_hit. cbn [mbind option_bind]. apply Hr. fuel.
  - destruct Hg as ((plus & Hp) & Hg & Hs). rewrite Hp in Hr. cbn [app]. step f @expression_at. rewrite Hp.
    rewrite (IHe SIGN_PREC rest (ast c, rest)); [|done|done|by destruct rest| |fuel]. { cbn [mbind option_bind]. apply Hr. fuel. }
    apply stop_infix. destruct rest as [|u rest]; [done|]. destruct (prec_of u) eqn:E; [|done]. apply prec_bound in E. unfold SIGN_PREC, MUL_PREC in *. lia.
  - destruct Hg as ((plus & Hp) & Hg & Hs). rewrite Hp in Hr. cbn [app]. step f @between_operand. rewrite Hp.
    rewrite (IHo SIGN_PREC rest (ast c, rest)); [|done|done|done|by destruct rest| |fuel]. { cbn [mbind option_bind]. apply Hr. fuel. }
    apply stop_arith. destruct rest as [|u rest]; [done|]. destruct (arith_op u) as [[p op]|] eqn:E; [|done]. apply arith_infix in E as (_ & E & _). apply prec_bound in E. unfold SIGN_PREC, MUL_PREC in *. lia.
  - destruct Hg as [Hg Hs]. cbn [app]. step f @expression_at. cbn [operand_of].
    rewrite (IH (S NOT_PREC) rest (ast c, rest)); [|done|done|by destruct rest as [|u rest]; [|apply Hc]| |fuel]. { cbn [mbind option_bind]. apply Hr. fuel. }
    apply stop_infix. destruct rest as [|u rest]; [done|]. destruct Hc as [Hc _]. unfold below in Hc. destruct (prec_of u); [lia|done].
  - destruct Hg as ((l & mk & Ht & Hb) & Hga & Hca & Hgb). rewrite <- app_assoc. cbn [app]. cbn [opens] in Ho. unfold prec_of at 1 in Ho. rewrite Ht in *. destruct Ho as [Hl Ho].
    apply IHa; [done|done|done|]. step f @infix. rewrite Ht, (proj2 (Nat.leb_le _ _)) by done.
    destruct (closes_binary_stop t l mk a b rest Ht Hc) as (C1 & C2 & C3). rewrite (IHb (S l) rest (ast b, rest)) by (done || fuel). cbn [mbind option_bind]. rewrite C2. apply Hr. fuel.
  - destruct Hg as ((l & mk & Ht & Hb) & Hga & Hca & Hgb), Ha as ([[l' op] Hop] & Haa & Hab). destruct (arith_infix _ _ _ Hop) as (E1 & E2 & E3). rewrite E1 in *. injection Ht as <- <-.
    rewrite <- app_assoc. cbn [app]. cbn [opens] in Ho. rewrite E2 in Ho. destruct Ho as [Hl Ho].
    apply IHa'; [done|done|done|by intros _|]. step f @between_infix. rewrite Hop, (proj2 (Nat.leb_le _ _)) by done.
    assert (closes_bound b rest /\ R_arith (S l') (ast b) rest (ast b, rest)) as [C1 C2].
    { destruct rest as [|u rest]; [split; [done|by apply stop_arith]|]. cbn [closes_bound closes] in Hc. rewrite E2 in Hc. split; [by intros Hu; apply Hc|]. apply stop_arith.
      destruct (arith_op u) as [[p op']|] eqn:Eu; [|done]. destruct (Hc ltac:(by eexists)) as [Hb' _]. destruct (arith_infix _ _ _ Eu) as (_ & Ep & _). unfold below in Hb'. rewrite Ep in Hb'. lia. }
    rewrite (IHb' (S l') rest (ast b, rest)) by (done || fuel). cbn [mbind option_bind]. apply Hr. fuel.
  - destruct Hg as [Hg Hcl], Ho as [Hl Ho]. rewrite <- app_assoc. cbn [app]. apply IH; [done|done|done|]. step f @infix. cbn [infix_of arith_op cmp_op]. rewrite (proj2 (Nat.leb_le _ _)) by done.
    destruct n; cbn [app].
    + rewrite expect_hit. rewrite expect_hit. cbn [mbind option_bind]. apply Hr. fuel.
    + rewrite expect_miss by done. rewrite expect_hit. cbn [mbind option_bind]. apply Hr. fuel.
  - destruct Hg as ([Hg Hcl] & Hlo & Hhi), Ho as [Hl Ho]. repeat (rewrite <- app_assoc || cbn [app]). apply IH; [done|done|done|]. step f @infix. cbn [infix_of arith_op cmp_op]. rewrite (proj2 (Nat.leb_le _ _)) by done.
    rewrite (between_complete c lo hi rest) by (done || fuel). cbn [mbind option_bind ast]. apply Hr. fuel.
  - destruct Hg as ([Hg Hcl] & Hlo & Hhi), Ho as [Hl Ho]. repeat (rewrite <- app_assoc || cbn [app]). apply IH; [done|done|done|]. step f @infix. cbn [infix_of arith_op cmp_op]. rewrite (proj2 (Nat.leb_le _ _)) by done.
    rewrite expect_hit. cbn [mbind option_bind]. rewrite (between_complete c lo hi rest) by (done || fuel). cbn [mbind option_bind ast]. apply Hr. fuel.
Qed.
(** What may follow an expression that is read to its end. *)
Definition follows (rest : list token) : Prop := match rest with [] => True | t :: _ => prec_of t = None /\ t <> P_LP end.
Lemma expression_complete c rest : grouped c -> follows rest -> expression (yield c ++ rest) = Some (ast c, rest).
Proof.
  intros Hg Hf. apply (proj1 (complete_expr_all c)); [done|by apply opens_0| | |lia].
  - destruct rest as [|t rest]; [done|]. destruct Hf. by apply closes_neutral.
  - apply stop_infix. destruct rest as [|t rest]; [done|]. by destruct Hf as [-> _].
Qed.
Lemma expression_sound ts e rest : expression ts = Some (e, rest) -> exists c, ts = yield c ++ rest /\ ast c = e /\ grouped c.
Proof. intros H. destruct (parser_sound (2 * length ts + 2)) as (HE & _). apply HE in H as (c & H1 & H2 & H3 & _). eauto. Qed.
